(* ===== verification/_CoqProject ===== *)
-Q . S2P
Prelude.v
Varint.v
Hash.v
Base58.v
TreeHash.v
Config.v
Difficulty.v
Primality.v
Group.v
ModelGroup.v
Key.v
RctOps.v
VectorOps.v
InnerProduct.v
Bulletproof.v
BulletproofComplete.v
Clsag.v
Serialization.v
RctTypes.v
TxTypes.v
Consensus.v
Coinbase.v
FormatUtils.v
TxExtra.v
RingCT.v
TxUtils.v
BlockQueue.v
PoolTable.v
TxPool.v
TxPoolInv.v
BlockTemplate.v
TxPoolSteps.v
ChainDb.v
ChainDbInv.v
LmdbTxn.v
TxCheck.v
Blockchain.v
BlockchainInv.v
ScanTable.v
ChainSafety.v
MinerTemplate.v
ChainSync.v
Core.v
VerifiedTxs.v
TxBuild.v
WalletLogic.v
Wallet.v
WalletInv.v
WalletReceive.v
EnglishWords.v
Mnemonics.v
PeerList.v
SanityCheck.v
MoneyText.v
