(* ===== verification/Prelude.v ===== *)
(** * Verification of the memero node: consensus, block chain, pool, transactions and wallet

    memero is a CryptoNote currency.  Under [src/src] the program consists of
    - [math/]: hashing, the prime-order group, keys, ring confidential
      transactions (commitments, range proofs, ring signatures), difficulty,
      coinbase transactions and the numbered consensus rules;
    - [tools/]: variable-length integers, base-58, the binary archive, and the
      utility library epee;
    - [cryptonote/]: transactions and blocks with their blobs and hashes,
      construction of transactions, the block chain, the pool, the core, the protocol;
    - [daemon/database]: the LMDB database of the chain and the pool;
    - [wallet/logic] and [wallet/api]: the wallet: its transfers, payments and balances, the scan
      of blocks, the choice of inputs;
    - [network/], the rest of [daemon/] and [wallet/]: I/O and user interfaces.

    A wallet builds a transaction with [construct_tx_with_tx_key] (one-time
    keys, then [generate_ringct]), a miner builds a block on a template of the
    node; both travel as blobs of the binary archive.  The core parses what arrives, checks the
    semantics of transactions (range proof, balance) and hands them to the pool, which
    asks the block chain for the checks of inputs and outputs; blocks take
    their transactions out of the pool, are checked and stored, or
    kept as alternative blocks until their chain has more work; a reorganisation pops blocks, whose
    transactions go back to the pool.  Chain and pool live in one database with
    batches.  Blocks downloaded from peers wait in a queue.  Wallets scan the blocks for their
    outputs and undo what a reorganisation takes back.  The development models this path.

    ** Files, in dependency order

    - [Prelude]: fixed-width arithmetic with explicit wrap-around ([⊞], [⊟],
      [⊠] on 64 bits), the [result] monad for C++ exceptions ([Throws]), byte
      strings, positional digits, the hint databases and tactics.
    - [Varint]: [tools/common/varint.h].  [Base58]: [tools/common/base58.cpp].
    - [Hash]: the 32-byte hash; the SHA-3 library is the class [Sha3], with the
      laws [Sha3Laws] (a digest is 32 bytes).
    - [TreeHash]: [math/hash/functional/tree-hash.cpp].  [Config]: constants.
    - [Difficulty]: [math/blockchain/functional/difficulty.hpp] and [.cpp].
    - [Primality]: the group order [L] is prime (Pocklington certificates).
    - [Group]: [math/group/functional].  libsodium and the vendored curve code are the
      operations of the class [Sodium]; [SodiumLaws] states their documented
      behaviour: the encoded multiples of the base point form a group of order
      [L], the scalar functions compute modulo [L], multiplication of
      a non-identity point by a non-zero scalar succeeds, [is_valid_point] accepts the
      non-identity elements of the prime-order group.  Outside of these laws the
      results are unspecified: the C++ logs an error code and goes on, and so do
      [add], [sub] and [mult].  [ModelGroup] instantiates both classes with a
      concrete group on which the witnesses evaluate.
    - [Key]: [math/crypto/functional/key.cpp] and [math/blockchain/functional/subaddress.cpp].
    - [RctOps], [VectorOps], [InnerProduct], [Bulletproof],
      [BulletproofComplete], [Clsag]: the files of the same names under
      [math/ringct/functional], [controller] and [pseudo_functional].
    - [Serialization]: [tools/serialization].  A wire format is one [archived]
      value, as in the source, where one description serves both directions: a
      saving run, a loading run and the values it is meant for; the class
      [ArchivedLaws] is what a format promises to the formats built on it.
    - [RctTypes]: [math/ringct/functional/rctTypes*].  [TxTypes]: transactions and
      blocks of [cryptonote/basic/functional/base.hpp].
    - [Consensus]: [math/consensus/consensus.hpp] and [.cpp], the emission.
    - [Coinbase]: [coinbase_tx.cpp], [tx_common.cpp], the miner-transaction
      checks of [cryptonote/core/blockchain.cpp].
    - [FormatUtils], [TxExtra]: [cryptonote/basic/functional].
    - [RingCT]: [ringCT.cpp] and [ringCT_Gen.cpp].
    - [TxUtils]: the output keys and the miner transaction of
      [cryptonote/tx/functional/tx_utils.cpp].
    - [BlockQueue]: [cryptonote/protocol/block_queue.cpp].
    - [PoolTable]: the pool's tables in [daemon/database]; [TxPool]:
      [cryptonote/core/tx_pool.cpp], a [pool] record threaded through its operations,
      with the class [Chain] for what it asks of the block chain; [BlockTemplate]:
      [fill_block_template]; [TxPoolInv], [TxPoolSteps]: the invariant and the theorems.
    - [ChainDb]: the chain's tables of [lmdb.cpp] and [blockchain.cpp] of [daemon/database], one [chain_db] record;
      [ChainDbInv]: its invariant, the abstract stack of blocks; [LmdbTxn]: write transactions and
      batches.
    - [TxCheck]: the checks of a transaction against the chain ([cryptonote/core/blockchain.cpp]), and the
      instance of [Chain] they give.
    - [Blockchain]: the rest of that file that changes the chain, in a state and
      exception monad [M] over the record [blockchain] (database, pool, caches) and the
      verification context: [add_new_block], alternative blocks, switching, rolling back, popping, preparing and cleaning up.
      [BlockchainInv]: the invariant and the steps [bc_step]; [ScanTable]: the outputs read ahead; [ChainSafety]: the theorems.
    - [MinerTemplate]: [create_block_template] and its cache.  [ChainSync]: the answers to peers and wallets.
    - [Core]: [cryptonote/core/cryptonote_core.cpp]; [VerifiedTxs]: the way of transactions through the whole node.
    - [TxBuild]: [construct_tx_with_tx_key], and its result on the way through the node.
    - [WalletLogic]: [wallet/logic/functional] and the records of [wallet/logic/type]: fees, the choice of inputs,
      [transfer_selected_rct], the scan of one output, balances.
    - [Wallet]: [wallet/api/wallet2.cpp], a record [wallet2] (hash chain, transfers, tables of keys and key images,
      payments, sent transactions) and the operations that scan, detach, commit and clear; [WalletInv]: the steps
      [wallet_step], the invariant, reorganisations; [WalletReceive]: a payment from its construction to the wallet of the receiver.
    - [EnglishWords], [Mnemonics]: [wallet/mnemonics]; CRC-32 and the splitting of a text are the classes [Crc32] and [SplitWords].
    - [PeerList]: [network/p2p/net_peerlist.cpp] and the addresses of epee; IPv6 addresses and the place of an entry among
      those with the same time are the classes [V6] and [TimeIndex].
    - [SanityCheck]: [cryptonote/tx/functional/tx_check.cpp].
    - [MoneyText]: amounts as text, [cryptonote/basic/controller/format_utils.cpp]; [trim] and [lexical_cast] are classes.

    ** Theorems

    - The chain: whatever calls are made, the main chain is valid and its coins follow the emission
      ([main_chain_always_valid]); an added block was checked ([added_block_checked]); a reorganisation needs
      more work ([reorganisation_needs_more_work]); the difficulty of a block does not depend on the chain it is on
      ([alternative_difficulty_agrees]); reading outputs ahead changes no verdict ([scan_table_transparent]); a template that the
      node gives out is accepted by it ([block_template_accepted]).
    - Transactions: every transaction in the pool and the chain has a verified range proof and balance
      ([only_verified_transactions]), is refused for good when it fails ([bad_semantics_remembered]); accepted inputs are signed by a ring
      of existing, unlocked outputs and unspent; the last output of a ring, and every one if the offsets do not overflow, is four blocks
      old ([accepted_inputs_sound], [pool_entry_checked]; [wrapped_offsets_hide_young_member] shows the other case); what
      a wallet builds is accepted ([constructed_transaction_accepted]).
    - The wallet: a payment reaches its receiver, who can spend it ([payment_reaches_receiver]); the tables of the wallet agree with its
      transfers after any sequence of operations ([wallet_tables_consistent]); detaching blocks undoes their scan ([reorganisation_undone]); a
      transfer pays its destinations, the fee and the change and nothing else, and each of its inputs carries the key image of the output that was
      selected for it ([transfer_pays_exactly]), with the least related
      inputs ([picked_inputs_least_related]) and a fee that the node accepts ([wallet_fee_accepted]).  A mnemonic seed gives back the key ([mnemonic_roundtrip]).
      [zero_payment_breaks_the_scan], [second_reason_lost], [twelve_words_refused] and [overflowing_words_accepted] show defects.
    - The pool keeps its tables consistent through all calls, and its index, its container and its weight as long as no stored transaction is
      added again ([pool_invariant]; [readded_tx_counted_twice] and [readded_tx_breaks_index] show what happens otherwise); it refuses
      double spends ([double_spend_refused]), drops the worst transactions ([prune_keeps_best]) and fills templates without conflicts
      ([fill_block_template_sound]).
    - The database is a stack of blocks ([database_refines_block_stack], [pop_block_undoes_add_block]) in which
      an output is spent once ([second_spend_throws]).
    - Peers: the lists of peers keep their limits, are disjoint and have one white peer for a host
      ([peer_lists_consistent]; [just_seen_not_recorded] shows a defect); the rings that a node relays are recent
      ([sane_rings_recent]); the point where two chains split is found ([split_point_located]), and requested
      blocks are served with their transactions ([requested_objects_served]); the block queue refines the
      list of batches added and not removed since ([queue_refines_survivors], [reserve_blocks_exact], [next_batch_removed]).
    - Money: the emission is capped by the supply and ends ([emission_capped],
      [emission_ends]); a balanced transaction moves exactly its inputs
      ([balanced_iff_amounts_equal]); an accepted miner transaction creates the
      reward plus the fees and nothing else ([miner_tx_creates_reward_plus_fee],
      [coinbase_check_exact], [mined_coinbase_accepted]).
    - Cryptographic completeness: what the prover of the inner-product argument,
      of the range proof, the ring signer and the generator of a whole ring-CT
      transaction return is accepted by the corresponding verifier
      ([inner_product_argument_complete], [bulletproof_complete],
      [clsag_complete], [ringct_complete]); the receiver finds the output
      ([wallet_finds_its_output]), decodes it ([generated_output_decodes],
      [amount_mask_roundtrip]) and can spend it, on subaddresses as well
      ([output_key_agreement], [subaddress_shared_secret_agreement]).
      Verification does not depend on the schedule of the thread pool
      ([clsag_verdict_schedule_independent]).
    - Checks are exact: parsed proofs, signatures, stored points and layouts are
      accepted precisely when they are the stored form of safe data
      ([bulletproof_check_exact], [clsag_check_exact], [inv8_roundtrip],
      [size_check_exact]); sorted key images are distinct
      ([sorted_key_images_unique]), ring members are distinct
      ([rule_7_ring_members_distinct]).
    - Formats: round trips of transactions and blocks
      ([transaction_blob_roundtrip], [block_blob_roundtrip]), a parsed transaction is well typed
      ([parsed_transaction_typed]); of varints,
      base-58, addresses, ring offsets and the extra field, of amounts as text ([money_text_roundtrip]; in the smallest unit zeros
      are lost, [smallest_unit_loses_zeros]); the transaction hash
      covers each byte of the blob ([transaction_hash_covers_blob]), the tree hash
      is the Merkle root ([tree_hash_is_merkle_root]).  [remove_field_appends]
      shows what [remove_field_from_tx_extra] really computes.
    - Difficulty: the machine arithmetic of the adjustment equals the LWMA
      formula over the integers ([next_difficulty_is_lwma]), its step is bounded
      ([next_difficulty_step_bounded]), the proof-of-work test is the comparison
      with the target ([check_hash_iff_below_target]).

    ** Conventions, bounds and fuel

    A 32-byte datum of the group is the 256-bit integer of its bytes, least
    significant first; other byte strings are lists of integers below 256.
    [std::optional] is [option]; a C++ exception is [Throws]; logging is
    dropped.  Random scalars are a stream argument, indexed in the order in which
    the code draws them.  Loops over containers are structural.  The others:
    [largest_power_of_two], [ceiling_log2_review] and [hash_at] have 64 steps,
    [write_varint] as many as its value has bits, [encode_block] 64 (eleven
    digits suffice), the parser of the extra field the length of its input,
    the rounds of the inner-product argument the length of the vector, [history_loop] and the
    loops that pop blocks the height of the chain; the theorems
    show that these are enough, since they state that a result is
    returned.  The number of attempts of [bulletproof_MAKE], whose loop
    ends with the first attempt without a zero challenge, is an argument, and so is the depth of the
    recursion of [handle_alternative_block] through the blocks a switch disconnects; the theorems hold for all of them.  Thread
    pools are a permutation of their jobs (the class [Schedule]).  The shift of an [int] by 32 or more
    is the parameter [UndefinedShift]; the cached size of a transaction, the clock, the settings of the
    daemon and what a write that failed half-way leaves in the open transaction are the classes [CachedSize],
    [Clock], [Settings] and [Torn]; uninitialised memory is an argument, and doubles are IEEE
    doubles ([SpecFloat]); the relatedness of outputs, whose doubles are only compared, is counted in tenths.  In the wallet
    reading past the end of a vector is [Throws], an [unordered_map] is visited in the order of [map_to_list], and
    callbacks to the user interface are left out; no step of [wallet_step] trims the hash chain, freezes an output or scans the pool of a node.
    [peer_step] starts a manager again from the copy of its own lists only.  The loop of [bytes_to_words] counts without the 32-bit limit
    that the counter has for keys of more than 16 gigabytes.  The chain has fewer than 2^64 blocks.  Theorems about identity points and
    zero challenges carry the corresponding side condition, a boolean that the
    witness evaluates: libsodium reports an error there, which the program
    only logs.

    ** Not modelled

    JSON and debug archives, logging, key-value storage,
    networking, RPC dispatch, the opening, resizing and migration of the LMDB environment, the
    user interfaces of daemon and wallet, the files of the wallet, its connection to the node and its scan of
    the node's pool, the miner's threads, connections between peers and the protocol over them.
    Soundness of the proof systems is a computational assumption and is not
    stated.

    The parts of the source that remain are I/O, dispatch and text, or templates over the types of the messages, whose behaviour is
    that of the network and storage libraries they call. *)

From stdpp Require Export base tactics list numbers option strings.
From Stdlib Require Export ZArith Lia.

#[global] Open Scope Z_scope.

(** * Machine integers

    The program computes on fixed-width unsigned integers.  A [w]-bit value is
    a [Z]; every operation that can leave the range is followed by an explicit
    [wrap]. *)

Definition wrap (w x : Z) : Z := x mod 2 ^ w.

Definition u8_max : Z := 2 ^ 8 - 1.
Definition u64_max : Z := 2 ^ 64 - 1.
Definition u128_max : Z := 2 ^ 128 - 1.
Definition u256_max : Z := 2 ^ 256 - 1.

Definition fits (w x : Z) : Prop := 0 <= x < 2 ^ w.

#[export] Instance fits_dec w x : Decision (fits w x).
Proof. unfold fits. apply _. Defined.

Definition u64_add (x y : Z) : Z := wrap 64 (x + y).
Definition u64_sub (x y : Z) : Z := wrap 64 (x - y).
Definition u64_mul (x y : Z) : Z := wrap 64 (x * y).
Definition u64_shl (x n : Z) : Z := wrap 64 (Z.shiftl x n).

Declare Scope machine_scope.
Delimit Scope machine_scope with machine.
Infix "⊞" := u64_add (at level 50, left associativity) : machine_scope.
Infix "⊟" := u64_sub (at level 50, left associativity) : machine_scope.
Infix "⊠" := u64_mul (at level 40, left associativity) : machine_scope.
Open Scope machine_scope.

Create HintDb machine discriminated.
Create Rewrite HintDb machine_rw.

Lemma wrap_small w x : fits w x -> wrap w x = x.
Proof. intros ?. apply Z.mod_small. assumption. Qed.

Lemma wrap_fits w x : 0 <= w -> fits w (wrap w x).
Proof. intros. apply Z.mod_pos_bound. lia. Qed.

Lemma wrap_wrap w x : wrap w (wrap w x) = wrap w x.
Proof. apply Zmod_mod. Qed.

Lemma u64_add_fits x y : fits 64 (x ⊞ y).
Proof. apply wrap_fits. lia. Qed.

Lemma u64_sub_fits x y : fits 64 (x ⊟ y).
Proof. apply wrap_fits. lia. Qed.

Lemma u64_mul_fits x y : fits 64 (x ⊠ y).
Proof. apply wrap_fits. lia. Qed.

#[export] Hint Resolve wrap_fits u64_add_fits u64_sub_fits u64_mul_fits : machine.

Lemma u64_add_small x y : fits 64 (x + y) -> x ⊞ y = x + y.
Proof. apply wrap_small. Qed.

Lemma u64_sub_small x y : fits 64 (x - y) -> x ⊟ y = x - y.
Proof. apply wrap_small. Qed.

Lemma u64_mul_small x y : fits 64 (x * y) -> x ⊠ y = x * y.
Proof. apply wrap_small. Qed.

(** [mlia] decides linear goals about in-range machine arithmetic once the
    range conditions are in the context. *)
Ltac unfold_machine :=
  unfold fits, u64_max, u8_max, u128_max, u256_max in *.
Ltac mlia := unfold_machine; lia.

(** * Results of code that can throw

    [std::optional] is [option]; a function that calls [LOG_ERROR_AND_THROW]
    returns in [result].  The monad is stdpp's [MBind] so that the do-notation
    [x ← m; k] reads like the sequence of C++ statements. *)

Inductive result (A : Type) : Type :=
| Returns (a : A)
| Throws.
Arguments Returns {A} a.
Arguments Throws {A}.

#[export] Instance result_ret : MRet result := fun A => Returns.
#[export] Instance result_bind : MBind result := fun A B f m =>
  match m with Returns a => f a | Throws => Throws end.
#[export] Instance result_fmap : FMap result := fun A B f m =>
  match m with Returns a => Returns (f a) | Throws => Throws end.

(** [LOG_ERROR_AND_THROW_UNLESS] *)
Definition throw_unless (b : bool) : result unit :=
  if b then Returns tt else Throws.
(** [LOG_ERROR_AND_THROW_IF] *)
Definition throw_if (b : bool) : result unit := throw_unless (negb b).

Lemma result_bind_Returns {A B} (f : A -> result B) a : (Returns a ≫= f) = f a.
Proof. reflexivity. Qed.

Lemma throw_unless_true {B} (b : bool) (k : unit -> result B) :
  b = true -> (throw_unless b ≫= k) = k tt.
Proof. intros ->. reflexivity. Qed.

Lemma throw_unless_inv {B} (b : bool) (k : unit -> result B) v :
  (throw_unless b ≫= k) = Returns v -> b = true /\ k tt = Returns v.
Proof. destruct b; cbn; [tauto | discriminate]. Qed.

Lemma result_bind_inv {A B} (m : result A) (f : A -> result B) v :
  (m ≫= f) = Returns v -> exists a, m = Returns a /\ f a = Returns v.
Proof. destruct m; cbn; [eauto | discriminate]. Qed.

Fixpoint result_mapM {A B} (f : A -> result B) (l : list A) : result (list B) :=
  match l with
  | [] => Returns []
  | x :: l' => y ← f x; ys ← result_mapM f l'; Returns (y :: ys)
  end.

(** * Bytes

    A byte is a [Z] in [0, 256); a blob is a list of bytes. *)

Abbreviation blob := (list Z).

Definition is_byte (b : Z) : Prop := 0 <= b < 256.
Definition bytes_ok (l : blob) : Prop := Forall is_byte l.

#[export] Instance is_byte_dec b : Decision (is_byte b).
Proof. unfold is_byte. apply _. Defined.
#[export] Instance bytes_ok_dec l : Decision (bytes_ok l).
Proof. unfold bytes_ok. apply _. Defined.

(** A decidable property of bytes holds when it holds of all 256 of them. *)
Lemma byte_check (P : Z -> bool) :
  forallb P (seqZ 0 256) = true -> forall b, is_byte b -> P b = true.
Proof.
  intros H b Hb. rewrite forallb_forall in H. apply H.
  apply list_elem_of_In, elem_of_seqZ. unfold is_byte in Hb. lia.
Qed.

(** A C++ string is the list of its bytes. *)
Definition chars (s : string) : blob :=
  (fun c => Z.of_N (Ascii.N_of_ascii c)) <$> String.list_ascii_of_string s.

(** Positional numerals, least significant digit first.  With base 256 they are
    the little-endian byte strings the program copies integers to and from. *)
Fixpoint le_val (B : Z) (l : list Z) : Z :=
  match l with
  | [] => 0
  | d :: l' => d + B * le_val B l'
  end.

Fixpoint le_digits (B : Z) (n : nat) (x : Z) : list Z :=
  match n with
  | O => []
  | S n' => x mod B :: le_digits B n' (x / B)
  end.

Definition digits_ok (B : Z) (l : list Z) : Prop := Forall (fun d => 0 <= d < B) l.

Abbreviation le_Z := (le_val 256).
Abbreviation le_bytes := (le_digits 256).

(** Most significant digit first. *)
Definition be_val (B : Z) (l : list Z) : Z := le_val B (reverse l).
Definition be_digits (B : Z) (n : nat) (x : Z) : list Z := reverse (le_digits B n x).

Section Numerals.
Context (B : Z) (HB : 1 < B).

Lemma length_le_digits n x : length (le_digits B n x) = n.
Proof. revert x; induction n; intros; cbn; auto. Qed.

Lemma le_digits_ok n x : digits_ok B (le_digits B n x).
Proof using HB.
  revert x; induction n; intros; cbn; constructor; [|apply IHn].
  apply Z.mod_pos_bound; lia.
Qed.

Lemma pow_S n : B ^ Z.of_nat (S n) = B * B ^ Z.of_nat n.
Proof. rewrite Nat2Z.inj_succ, Z.pow_succ_r by lia. reflexivity. Qed.

Lemma le_val_digits n x : le_val B (le_digits B n x) = x mod B ^ Z.of_nat n.
Proof using HB.
  revert x; induction n; intros x.
  - cbn. now rewrite Z.mod_1_r.
  - cbn [le_digits le_val]. rewrite IHn, pow_S, Z.rem_mul_r by lia. reflexivity.
Qed.

Lemma le_val_digits_small n x : 0 <= x < B ^ Z.of_nat n -> le_val B (le_digits B n x) = x.
Proof using HB. intros. rewrite le_val_digits, Z.mod_small; auto. Qed.

Lemma le_val_bound l : digits_ok B l -> 0 <= le_val B l < B ^ Z.of_nat (length l).
Proof using HB.
  induction 1 as [|b l Hb _ IH]; cbn [le_val length]; [lia|].
  rewrite pow_S. nia.
Qed.

Lemma le_digits_val l : digits_ok B l -> le_digits B (length l) (le_val B l) = l.
Proof using HB.
  induction 1 as [|b l Hb _ IH]; cbn; auto.
  rewrite (Z.mul_comm B), Z.mod_add, Z.div_add by lia.
  rewrite Z.mod_small, Z.div_small, Z.add_0_l, IH by lia. reflexivity.
Qed.

Lemma le_val_app l1 l2 :
  le_val B (l1 ++ l2) = le_val B l1 + B ^ Z.of_nat (length l1) * le_val B l2.
Proof.
  induction l1 as [|d l1 IH]; cbn [app le_val length]; [lia|].
  rewrite IH, pow_S. ring.
Qed.

Lemma le_val_inj l1 l2 :
  digits_ok B l1 -> digits_ok B l2 -> length l1 = length l2 ->
  le_val B l1 = le_val B l2 -> l1 = l2.
Proof using HB.
  intros H1 H2 Hl H. rewrite <- (le_digits_val l1), <- (le_digits_val l2), Hl, H; auto.
Qed.

Lemma le_digits_inj n x y :
  0 <= x < B ^ Z.of_nat n -> 0 <= y < B ^ Z.of_nat n ->
  le_digits B n x = le_digits B n y -> x = y.
Proof using HB. intros Hx Hy H%(f_equal (le_val B)). rewrite !le_val_digits_small in H; auto. Qed.

Lemma le_digits_0 n : le_digits B n 0 = replicate n 0.
Proof using HB. induction n; cbn; [reflexivity|]. rewrite Z.mod_0_l, Z.div_0_l, IHn by lia. reflexivity. Qed.

Lemma length_be_digits n x : length (be_digits B n x) = n.
Proof. unfold be_digits. rewrite length_reverse. apply length_le_digits. Qed.

Lemma be_digits_ok n x : digits_ok B (be_digits B n x).
Proof using HB. apply Forall_reverse, le_digits_ok. Qed.

Lemma be_digits_S n x : be_digits B (S n) x = be_digits B n (x / B) ++ [x mod B].
Proof. unfold be_digits. cbn. apply reverse_cons. Qed.

Lemma be_digits_0 n : be_digits B n 0 = replicate n 0.
Proof using HB. unfold be_digits. rewrite le_digits_0. apply reverse_replicate. Qed.

Lemma be_val_digits_small n x : 0 <= x < B ^ Z.of_nat n -> be_val B (be_digits B n x) = x.
Proof using HB. unfold be_val, be_digits. rewrite reverse_involutive. apply le_val_digits_small. Qed.

Lemma be_digits_val l : digits_ok B l -> be_digits B (length l) (be_val B l) = l.
Proof using HB.
  intros H. unfold be_digits, be_val. rewrite <- (length_reverse l), le_digits_val.
  - apply reverse_involutive.
  - now apply Forall_reverse.
Qed.

Lemma be_val_bound l : digits_ok B l -> 0 <= be_val B l < B ^ Z.of_nat (length l).
Proof using HB.
  intros. unfold be_val. rewrite <- (length_reverse l). apply le_val_bound.
  now apply Forall_reverse.
Qed.

Lemma be_val_cons d l : be_val B (d :: l) = be_val B l + B ^ Z.of_nat (length l) * d.
Proof.
  unfold be_val. rewrite reverse_cons, le_val_app, length_reverse. cbn. lia.
Qed.

End Numerals.

Lemma length_le_bytes n x : length (le_bytes n x) = n.
Proof. apply length_le_digits. Qed.

Lemma le_bytes_ok n x : bytes_ok (le_bytes n x).
Proof. apply (le_digits_ok 256). lia. Qed.

Lemma le_bytes_Z l : bytes_ok l -> le_bytes (length l) (le_Z l) = l.
Proof. apply (le_digits_val 256). lia. Qed.

Lemma le_Z_bytes_small n x : 0 <= x < 256 ^ Z.of_nat n -> le_Z (le_bytes n x) = x.
Proof. apply (le_val_digits_small 256). lia. Qed.

Lemma le_Z_bound l : bytes_ok l -> 0 <= le_Z l < 256 ^ Z.of_nat (length l).
Proof. apply (le_val_bound 256). lia. Qed.

Lemma bytes_ok_app l1 l2 : bytes_ok (l1 ++ l2) <-> bytes_ok l1 /\ bytes_ok l2.
Proof. apply Forall_app. Qed.

Lemma bytes_ok_take n l : bytes_ok l -> bytes_ok (take n l).
Proof. apply Forall_take. Qed.

Lemma bytes_ok_drop n l : bytes_ok l -> bytes_ok (drop n l).
Proof. apply Forall_drop. Qed.

Lemma bytes_ok_rev l : bytes_ok l -> bytes_ok (reverse l).
Proof. apply Forall_reverse. Qed.

#[export] Hint Resolve le_bytes_ok bytes_ok_take bytes_ok_drop bytes_ok_rev : machine.
#[export] Hint Rewrite length_le_bytes : machine_rw.

(** * Fixed-size blocks of a list (the block loops of the codecs) *)

Definition blocks {A} (n k : nat) (l : list A) : list (list A) :=
  (fun i => take n (drop (n * i) l)) <$> seq 0 k.

Lemma blocks_S {A} n k (l : list A) : blocks n (S k) l = take n l :: blocks n k (drop n l).
Proof.
  unfold blocks. cbn [seq fmap list_fmap]. rewrite Nat.mul_0_r, drop_0. f_equal.
  rewrite <- fmap_S_seq, <- list_fmap_compose. apply list_fmap_ext. intros _ i _.
  unfold compose. rewrite drop_drop. do 2 f_equal. lia.
Qed.

Lemma blocks_concat {A} n (bs : list (list A)) last :
  Forall (fun b => length b = n) bs -> blocks n (length bs) (concat bs ++ last) = bs.
Proof.
  induction 1 as [|b bs Hb _ IH]; [reflexivity|].
  cbn [length concat]. rewrite blocks_S, <- app_assoc.
  rewrite take_app_length', drop_app_length', IH by auto. reflexivity.
Qed.

Lemma length_concat_const {A} n (bs : list (list A)) :
  Forall (fun b => length b = n) bs -> length (concat bs) = (length bs * n)%nat.
Proof. induction 1 as [|b bs Hb _ IH]; cbn; [reflexivity|]. rewrite length_app. lia. Qed.

Lemma blocks_split {A} n k (l : list A) :
  (k * n <= length l)%nat ->
  l = concat (blocks n k l) ++ drop (k * n) l /\
  length (blocks n k l) = k /\ Forall (fun b => length b = n) (blocks n k l).
Proof.
  revert l; induction k as [|k IH]; intros l Hl.
  - cbn. rewrite drop_0. auto.
  - rewrite blocks_S. cbn [concat length].
    destruct (IH (drop n l)) as (E & Hlen & Hall); [rewrite length_drop; lia|].
    split; [|split; [lia|constructor; [rewrite length_take; lia|assumption]]].
    rewrite <- app_assoc. replace (S k * n)%nat with (n + k * n)%nat by lia.
    rewrite <- drop_drop, <- E. now rewrite take_drop.
Qed.

(** * Sums *)

Definition sumZ (l : list Z) : Z := foldr Z.add 0 l.

Lemma sumZ_app l1 l2 : sumZ (l1 ++ l2) = sumZ l1 + sumZ l2.
Proof. unfold sumZ. induction l1; cbn; [lia|]. rewrite IHl1. lia. Qed.

Lemma sumZ_nonneg l : Forall (fun x => 0 <= x) l -> 0 <= sumZ l.
Proof. unfold sumZ. induction 1; cbn; lia. Qed.

(** A left fold of the wrapping addition computes the wrapped sum. *)
Lemma foldl_u64_add l a : fits 64 a -> foldl u64_add a l = wrap 64 (a + sumZ l).
Proof.
  revert a; induction l as [|x l IH]; intros a Ha; cbn.
  - rewrite Z.add_0_r. symmetry. now apply wrap_small.
  - rewrite IH by auto with machine. unfold u64_add, wrap, sumZ; cbn.
    rewrite Zplus_mod_idemp_l. f_equal. lia.
Qed.

(** All the elements of a list of optionals, if every one is present: the
    transform / all-have-value / unwrap idiom of the consensus rules. *)
Fixpoint all_present {A} (l : list (option A)) : option (list A) :=
  match l with
  | [] => Some []
  | None :: _ => None
  | Some x :: l' => xs ← all_present l'; Some (x :: xs)
  end.

Lemma all_present_Some {A} (l : list (option A)) xs :
  all_present l = Some xs <-> l = Some <$> xs.
Proof.
  revert xs; induction l as [|[x|] l IH]; intros xs; cbn.
  - destruct xs; cbn; split; congruence.
  - destruct (all_present l) as [ys|] eqn:E; cbn.
    + split; [intros [= <-]; cbn; f_equal; now apply IH|].
      destruct xs as [|x' xs]; cbn; [discriminate|].
      intros [= -> H]. apply IH in H. congruence.
    + split; [discriminate|]. destruct xs as [|x' xs]; cbn; [discriminate|].
      intros [= -> H]. apply IH in H. discriminate.
  - split; [discriminate|]. destruct xs; discriminate.
Qed.

Lemma triple_eq {A B C} (a a' : A) (b b' : B) (c c' : C) :
  a = a' -> b = b' -> c = c' -> (a, b, c) = (a', b', c').
Proof. congruence. Qed.

(** * Tactics *)

Ltac case_if :=
  match goal with
  | |- context [if ?b then _ else _] => destruct b eqn:?
  | H : context [if ?b then _ else _] |- _ => destruct b eqn:?
  end.

(** Turn boolean tests of the code into the propositions they decide. *)
Ltac to_prop :=
  repeat match goal with
  | H : (_ && _)%bool = true |- _ => apply andb_prop in H; destruct H
  | H : (_ || _)%bool = false |- _ => apply orb_false_elim in H; destruct H
  | H : negb _ = true |- _ => apply negb_true_iff in H
  | H : negb _ = false |- _ => apply negb_false_iff in H
  | H : (_ <? _) = true |- _ => apply Z.ltb_lt in H
  | H : (_ <? _) = false |- _ => apply Z.ltb_ge in H
  | H : (_ <=? _) = true |- _ => apply Z.leb_le in H
  | H : (_ <=? _) = false |- _ => apply Z.leb_gt in H
  | H : (_ =? _) = true |- _ => apply Z.eqb_eq in H
  | H : (_ =? _) = false |- _ => apply Z.eqb_neq in H
  | H : (_ <? _)%nat = true |- _ => apply Nat.ltb_lt in H
  | H : (_ <? _)%nat = false |- _ => apply Nat.ltb_ge in H
  | H : (_ <=? _)%nat = true |- _ => apply Nat.leb_le in H
  | H : (_ <=? _)%nat = false |- _ => apply Nat.leb_gt in H
  | H : (_ =? _)%nat = true |- _ => apply Nat.eqb_eq in H
  | H : (_ =? _)%nat = false |- _ => apply Nat.eqb_neq in H
  end.
