(* ===== verification/Varint.v ===== *)
(** Variable-length integers ([src/src/tools/common/varint.h]): the base-128
    little-endian encoding used by the wire format, addresses and hashes. *)

From S2P Require Import Prelude.

Module Varint.

(** [enum { EVARINT_OVERFLOW, EVARINT_REPRESENT }] *)
Definition EVARINT_OVERFLOW : Z := -1.
Definition EVARINT_REPRESENT : Z := -2.

(** [write_varint]: the [while (i >= 0x80)] loop.  Each round divides [i] by
    128, so [Z.log2 i] rounds are enough; [write_varint_equation] below shows
    that the fuel never decides the result. *)
Fixpoint write_varint_loop (fuel : nat) (i : Z) : blob :=
  match fuel with
  | O => [wrap 8 i]
  | S fuel' =>
      if i >=? 0x80
      then Z.lor (Z.land (wrap 8 i) 0x7f) 0x80 :: write_varint_loop fuel' (Z.shiftr i 7)
      else [wrap 8 i]
  end.

Definition write_varint (i : Z) : blob := write_varint_loop (Z.to_nat (Z.log2 i)) i.

(** [get_varint_data] *)
Definition get_varint_data (v : Z) : blob := write_varint v.

(** [read_varint<bits>]: the returned [int], the value left in [write], and the
    input that the iterator has not consumed. *)
Fixpoint read_varint_loop (bits : Z) (l : blob) (shift read write : Z) : Z * Z * blob :=
  match l with
  | [] => (read, write, [])
  | byte :: l' =>
      let read := read + 1 in
      if ((shift + 7 >=? bits) && (byte >=? Z.shiftl 1 (bits - shift)))%bool
      then (EVARINT_OVERFLOW, write, l')
      else if ((byte =? 0) && negb (shift =? 0))%bool
      then (EVARINT_REPRESENT, write, l')
      else
        let write := Z.lor write (wrap bits (Z.shiftl (Z.land byte 0x7f) shift)) in
        if Z.land byte 0x80 =? 0
        then (read, write, l')
        else read_varint_loop bits l' (shift + 7) read write
  end.

Definition read_varint (bits : Z) (l : blob) : Z * Z * blob :=
  read_varint_loop bits l 0 0 0.

(** ** Bit arithmetic of one group *)

Lemma low7 i : Z.land i 0x7f = i mod 128.
Proof. change 0x7f with (Z.ones 7). rewrite Z.land_ones by lia. reflexivity. Qed.

Lemma wrap8_low7 i : wrap 8 i mod 128 = i mod 128.
Proof. unfold wrap. apply Z.mod_mod_divide. exists 2; lia. Qed.

Lemma lor_disjoint a b k : 0 <= k -> 0 <= a < 2 ^ k -> Z.lor a (b * 2 ^ k) = a + b * 2 ^ k.
Proof.
  intros Hk Ha. symmetry. apply Z.add_nocarry_lor.
  apply Z.bits_inj'. intros j Hj. rewrite Z.land_spec, Z.bits_0.
  destruct (Z_lt_le_dec j k).
  - rewrite <- (Z.shiftl_mul_pow2 b) by lia. rewrite (Z.shiftl_spec_low b) by lia.
    apply andb_false_r.
  - rewrite <- (Z.mod_small a (2 ^ k)) by lia.
    rewrite Z.mod_pow2_bits_high by lia. reflexivity.
Qed.

Lemma continuation_byte i : Z.lor (Z.land (wrap 8 i) 0x7f) 0x80 = i mod 128 + 128.
Proof.
  rewrite low7, wrap8_low7. pose proof (Z.mod_pos_bound i 128 ltac:(lia)).
  apply (lor_disjoint _ 1 7); cbn; lia.
Qed.

Lemma has_continuation b : 0 <= b < 256 -> (Z.land b 0x80 =? 0) = (b <? 128).
Proof.
  intros Hb. apply eqb_prop.
  apply (byte_check (fun b => Bool.eqb (Z.land b 0x80 =? 0) (b <? 128))); auto.
Qed.

Lemma group_value b shift w :
  0 <= b -> 0 <= shift -> 0 <= w < 2 ^ shift ->
  Z.lor w (Z.shiftl (Z.land b 0x7f) shift) = w + b mod 128 * 2 ^ shift.
Proof. intros. rewrite low7, Z.shiftl_mul_pow2, lor_disjoint by lia. reflexivity. Qed.

(** ** The writer *)

Lemma write_varint_loop_small fuel i : i < 128 -> write_varint_loop fuel i = [wrap 8 i].
Proof. intros. destruct fuel; cbn; [reflexivity|]. case_if; [lia|reflexivity]. Qed.

Lemma log2_shiftr7 i : 128 <= i -> (Z.to_nat (Z.log2 (Z.shiftr i 7)) + 7 <= Z.to_nat (Z.log2 i))%nat.
Proof.
  intros. rewrite Z.log2_shiftr by lia.
  assert (7 <= Z.log2 i) by (apply Z.log2_le_pow2; cbn; lia). lia.
Qed.

Lemma write_varint_loop_fuel f1 f2 i :
  (Z.to_nat (Z.log2 i) <= f1)%nat -> (Z.to_nat (Z.log2 i) <= f2)%nat ->
  write_varint_loop f1 i = write_varint_loop f2 i.
Proof.
  revert f2 i; induction f1 as [|f1 IH]; intros f2 i H1 H2.
  - destruct (Z.le_gt_cases 128 i); [pose proof (log2_shiftr7 i); lia|].
    now rewrite !write_varint_loop_small.
  - destruct (Z.le_gt_cases 128 i); [|now rewrite !write_varint_loop_small].
    pose proof (log2_shiftr7 i). destruct f2 as [|f2]; [lia|].
    cbn. f_equal. destruct (i >=? 128); [|reflexivity]. f_equal. apply IH; lia.
Qed.

(** The writer is the C++ loop: one continuation byte per 7 bits above the last
    group. *)
Lemma write_varint_equation i :
  0 <= i ->
  write_varint i =
    if i <? 128 then [i] else i mod 128 + 128 :: write_varint (i / 128).
Proof.
  intros Hi. unfold write_varint. destruct (Z.ltb_spec i 128).
  - rewrite write_varint_loop_small by lia. f_equal. apply wrap_small. mlia.
  - pose proof (log2_shiftr7 i ltac:(lia)).
    destruct (Z.to_nat (Z.log2 i)) as [|f] eqn:E; [lia|].
    cbn [write_varint_loop]. destruct (Z.geb_spec i 0x80); [|lia].
    rewrite continuation_byte. f_equal.
    rewrite Z.shiftr_div_pow2 in * by lia. change (2 ^ 7) with 128 in *.
    apply write_varint_loop_fuel; lia.
Qed.

Lemma write_varint_ind (P : Z -> blob -> Prop) :
  (forall i, 0 <= i < 128 -> P i [i]) ->
  (forall i, 128 <= i -> P (i / 128) (write_varint (i / 128)) ->
     P i (i mod 128 + 128 :: write_varint (i / 128))) ->
  forall i, 0 <= i -> P i (write_varint i).
Proof.
  intros Hbase Hstep i Hi. pattern i. apply Zlt_0_ind; [|exact Hi]. clear i Hi.
  intros x IH Hx. rewrite write_varint_equation by lia.
  destruct (Z.ltb_spec x 128); [apply Hbase; lia|].
  apply Hstep; [lia|]. assert (x / 128 < x) by (apply Z.div_lt; lia).
  assert (0 <= x / 128) by (apply Z.div_pos; lia). apply IH; lia.
Qed.

Lemma write_varint_ok i : 0 <= i -> bytes_ok (write_varint i).
Proof.
  apply (write_varint_ind (fun _ l => bytes_ok l)).
  - intros; repeat constructor; lia.
  - intros x Hx IH. constructor; [|exact IH].
    pose proof (Z.mod_pos_bound x 128 ltac:(lia)). unfold is_byte. lia.
Qed.

Lemma write_varint_nonempty i : 0 <= i -> (0 < length (write_varint i))%nat.
Proof. intros. rewrite write_varint_equation by lia. case_if; cbn; lia. Qed.

(** ** The reader *)

(** One group of the reader, in arithmetic. *)
Lemma read_varint_step bits byte l shift read w :
  0 <= byte < 256 -> 0 <= shift < bits -> 0 <= w < 2 ^ shift ->
  (byte <> 0 \/ shift = 0) -> (byte mod 128) * 2 ^ shift < 2 ^ bits ->
  (bits <= shift + 7 -> byte < 2 ^ (bits - shift)) ->
  read_varint_loop bits (byte :: l) shift read w =
    let w' := w + byte mod 128 * 2 ^ shift in
    if byte <? 128 then (read + 1, w', l)
    else read_varint_loop bits l (shift + 7) (read + 1) w'.
Proof.
  intros Hb Hs Hw Hz Hr Hlast. cbn [read_varint_loop]. cbv zeta.
  rewrite Z.shiftl_1_l.
  destruct (Z.geb_spec (shift + 7) bits), (Z.geb_spec byte (2 ^ (bits - shift)));
    cbn [andb]; try (exfalso; lia).
  all: destruct (Z.eqb_spec byte 0), (Z.eqb_spec shift 0); cbn [andb negb]; try (exfalso; lia).
  all: rewrite has_continuation by lia.
  all: rewrite (wrap_small bits), group_value by (try lia;
         unfold fits; rewrite low7, Z.shiftl_mul_pow2 by lia;
         pose proof (Z.mod_pos_bound byte 128 ltac:(lia)); nia).
  all: reflexivity.
Qed.

Lemma pow2_split bits shift : 0 <= shift <= bits -> 2 ^ bits = 2 ^ shift * 2 ^ (bits - shift).
Proof. intros. rewrite <- Z.pow_add_r by lia. f_equal. lia. Qed.

Lemma read_write_varint_loop bits rest i :
  0 < bits -> 0 <= i ->
  forall shift read w,
  0 <= shift < bits -> 0 <= w < 2 ^ shift -> i < 2 ^ (bits - shift) ->
  (i <> 0 \/ shift = 0) ->
  read_varint_loop bits (write_varint i ++ rest) shift read w =
    (read + Z.of_nat (length (write_varint i)), w + i * 2 ^ shift, rest).
Proof.
  intros Hbits. revert i.
  apply (write_varint_ind (fun i l => forall shift read w,
    0 <= shift < bits -> 0 <= w < 2 ^ shift -> i < 2 ^ (bits - shift) ->
    (i <> 0 \/ shift = 0) ->
    read_varint_loop bits (l ++ rest) shift read w =
      (read + Z.of_nat (length l), w + i * 2 ^ shift, rest))).
  - intros i Hi shift read w Hs Hw Hlt Hz. cbn [app length].
    pose proof (pow2_split bits shift ltac:(lia)).
    rewrite read_varint_step; try lia.
    + cbv zeta. destruct (Z.ltb_spec i 128); [|lia]. rewrite Z.mod_small by lia.
      f_equal.
    + rewrite Z.mod_small by lia. nia.
  - intros i Hi IH shift read w Hs Hw Hlt Hz. cbn [app length].
    pose proof (Z.mod_pos_bound i 128 ltac:(lia)).
    pose proof (Z.div_mod i 128 ltac:(lia)) as Hdiv.
    assert (Hgap : 7 < bits - shift).
    { apply (Z.pow_lt_mono_r_iff 2); cbn; lia. }
    pose proof (pow2_split (bits - shift) 7 ltac:(lia)) as Hp7.
    pose proof (pow2_split bits shift ltac:(lia)) as Hps.
    rewrite read_varint_step; try lia.
    + cbv zeta. destruct (Z.ltb_spec (i mod 128 + 128) 128); [lia|].
      replace ((i mod 128 + 128) mod 128) with (i mod 128)
        by (rewrite <- Zplus_mod_idemp_r, Z.mod_same, Z.add_0_r, Zmod_mod by lia; reflexivity).
      assert (H7 : 2 ^ (shift + 7) = 2 ^ shift * 128) by (rewrite Z.pow_add_r by lia; reflexivity).
      rewrite IH; [| lia | nia | |].
      * apply triple_eq; [lia | rewrite H7; nia | reflexivity].
      * replace (bits - (shift + 7)) with (bits - shift - 7) by lia. change (2 ^ 7) with 128 in Hp7.
        apply Z.div_lt_upper_bound; lia.
      * left. intros Hd. apply Z.div_small_iff in Hd; lia.
    + rewrite <- Zplus_mod_idemp_r, Z.mod_same, Z.add_0_r, Zmod_mod by lia.
      change (2 ^ 7) with 128 in Hp7. nia.
Qed.

(** What a successful read has consumed: a canonical encoding, or a run of
    continuation bytes cut off by the end of the input. *)
Definition consumed_as (consumed rest : blob) (i : Z) : Prop :=
  consumed = write_varint i \/ (rest = [] /\ Forall (fun b => 128 <= b) consumed).

Lemma consumed_as_step b consumed rest i :
  0 <= i -> 128 <= b < 256 -> (consumed = write_varint i -> i <> 0) ->
  consumed_as consumed rest i ->
  consumed_as (b :: consumed) rest (b mod 128 + i * 128).
Proof.
  intros Hi Hb Hnz [Hc | [Hr Hc]]; [left | right; split; [assumption | constructor; [lia | assumption]]].
  specialize (Hnz Hc). subst consumed.
  assert (Hm : b mod 128 = b - 128) by (symmetry; apply Z.mod_unique with 1; lia).
  rewrite (write_varint_equation (b mod 128 + i * 128)) by lia.
  destruct (Z.ltb_spec (b mod 128 + i * 128) 128); [lia|].
  rewrite Z.mod_add, Z.div_add, Zmod_mod, Z.div_small by lia. f_equal; lia.
Qed.

Lemma read_varint_loop_sound bits l :
  bytes_ok l ->
  forall shift read w n v rest,
  0 <= shift < bits -> 0 <= w < 2 ^ shift -> 0 <= read ->
  read_varint_loop bits l shift read w = (n, v, rest) -> 0 <= n ->
  exists consumed i,
    l = consumed ++ rest /\ n = read + Z.of_nat (length consumed) /\
    0 <= i /\ v = w + i * 2 ^ shift /\ v < 2 ^ bits /\
    consumed_as consumed rest i /\ (shift <> 0 -> consumed = write_varint i -> i <> 0).
Proof.
  induction 1 as [|b l Hb Hl IH]; intros shift read w n v rest Hs Hw Hr Hread Hn;
    pose proof (pow2_split bits shift ltac:(lia)) as Hps;
    assert (0 < 2 ^ (bits - shift)) by (apply Z.pow_pos_nonneg; lia).
  - cbn in Hread. injection Hread as <- <- <-.
    exists [], 0. cbn. repeat split; try lia; [nia | right; auto |].
    intros _ E%(f_equal length). pose proof (write_varint_nonempty 0). cbn in *; lia.
  - unfold is_byte in Hb.
    assert (Hgood : (shift + 7 <? bits) = false -> b < 2 ^ (bits - shift)).
    { intros Hlt. apply Z.ltb_ge in Hlt. cbn in Hread. rewrite Z.shiftl_1_l in Hread.
      destruct (Z.geb_spec (shift + 7) bits); [|lia].
      destruct (Z.geb_spec b (2 ^ (bits - shift))); [|assumption].
      cbn in Hread. injection Hread as <- _ _. unfold EVARINT_OVERFLOW in Hn. lia. }
    assert (Hnz : b <> 0 \/ shift = 0).
    { destruct (Z.eq_dec b 0) as [E1|], (Z.eq_dec shift 0) as [|E2]; try tauto.
      exfalso. cbn [read_varint_loop] in Hread. cbv zeta in Hread.
      rewrite (proj2 (Z.eqb_eq _ _) E1), (proj2 (Z.eqb_neq _ _) E2) in Hread.
      cbn [andb negb] in Hread.
      destruct ((_ && _)%bool); injection Hread as <- _ _;
        unfold EVARINT_OVERFLOW, EVARINT_REPRESENT in Hn; lia. }
    pose proof (Z.mod_pos_bound b 128 ltac:(lia)).
    assert (H7 : 2 ^ (shift + 7) = 2 ^ shift * 128) by (rewrite Z.pow_add_r by lia; reflexivity).
    assert (Hfit : 128 <= 2 ^ (bits - shift) \/ b < 128 /\ b < 2 ^ (bits - shift)).
    { destruct (Z.ltb_spec (shift + 7) bits).
      - left. apply (Z.pow_le_mono_r 2 7); lia.
      - specialize (Hgood eq_refl). right. split; [|assumption].
        apply Z.lt_le_trans with (2 ^ (bits - shift)); [assumption|].
        apply (Z.pow_le_mono_r 2 (bits - shift) 7); lia. }
    assert (Hmb : b < 128 -> b mod 128 = b) by (intros; apply Z.mod_small; lia).
    rewrite read_varint_step in Hread by
      first [lia | nia | intros; apply Hgood, Z.ltb_ge; lia].
    cbv zeta in Hread. destruct (Z.ltb_spec b 128) as [Hlt|Hge].
    + injection Hread as <- <- <-. rewrite Hmb by lia. exists [b], b.
      cbn [app length]. repeat split; try first [lia | nia].
      left. rewrite write_varint_equation by lia. destruct (Z.ltb_spec b 128); [reflexivity|lia].
    + assert (Hlt : shift + 7 < bits).
      { apply Z.nle_gt. intros Hle.
        assert (b < 2 ^ (bits - shift)) by (apply Hgood, Z.ltb_ge; lia).
        assert (2 ^ (bits - shift) <= 2 ^ 7) by (apply Z.pow_le_mono_r; lia). lia. }
      eapply IH in Hread as (c & i & -> & -> & Hi & -> & Hv & Hc & Hcnz); try first [lia | nia].
      rewrite H7 in *. exists (b :: c), (b mod 128 + i * 128).
      cbn [app length]. repeat split; try first [lia | nia].
      * apply consumed_as_step; auto; [lia|]. apply Hcnz. lia.
      * intros _ E Hz. rewrite Hz in E. change (write_varint 0) with [0] in E.
        injection E. lia.
Qed.

(** Varint round trip.  For every unsigned type of [bits] bits and every
    value of that type, reading what [write_varint] wrote, with anything after
    it, returns the number of bytes written, the value, and leaves exactly what
    followed: no overflow or representation error, nothing over-read. *)
Theorem varint_roundtrip bits v rest :
  0 < bits -> fits bits v ->
  read_varint bits (write_varint v ++ rest) =
    (Z.of_nat (length (write_varint v)), v, rest).
Proof.
  intros Hb [Hv1 Hv2]. unfold read_varint.
  rewrite read_write_varint_loop; try lia.
  - apply triple_eq; [lia | lia | reflexivity].
  - rewrite Z.sub_0_r. lia.
Qed.

Lemma varint_roundtrip_witness :
  read_varint 64 (write_varint 300 ++ [7; 8]) = (2, 300, [7; 8]).
Proof. exact (varint_roundtrip 64 300 [7; 8] ltac:(lia) ltac:(unfold fits; lia)). Defined.

(** Varint canonicity.  A read that reports a positive count consumed exactly
    that many bytes, produced a value of the type, and the bytes are the one
    encoding [write_varint] gives that value; the only other possibility is an
    input that ends inside the varint, every consumed byte still announcing a
    continuation (the reader returns its count there instead of an error). *)
Theorem varint_read_canonical bits l n v rest :
  0 < bits -> bytes_ok l -> read_varint bits l = (n, v, rest) -> 0 < n ->
  exists consumed,
    l = consumed ++ rest /\ n = Z.of_nat (length consumed) /\ fits bits v /\
    (consumed = write_varint v \/ (rest = [] /\ Forall (fun b => 128 <= b) consumed)).
Proof.
  intros Hb Hl Hr Hn. unfold read_varint in Hr.
  eapply read_varint_loop_sound in Hr as (c & i & -> & -> & Hi & Hv & Hlt & Hc & _); try lia; auto.
  exists c. rewrite Z.pow_0_r, Z.mul_1_r in Hv. assert (v = i) as -> by lia.
  unfold consumed_as in Hc. repeat split; auto; lia.
Qed.

Lemma varint_read_canonical_witness :
  read_varint 64 [172; 2; 9] = (2, 300, [9]) /\
  exists consumed,
    [172; 2; 9] = consumed ++ [9] /\ 2 = Z.of_nat (length consumed) /\ fits 64 300 /\
    (consumed = write_varint 300 \/ ([9] = [] /\ Forall (fun b => 128 <= b) consumed)).
Proof.
  split; [reflexivity|].
  apply (varint_read_canonical 64 [172; 2; 9] 2 300 [9]);
    [lia | repeat constructor; lia | reflexivity | lia].
Defined.

End Varint.
