(* ===== verification/Hash.v ===== *)
(** The hash function ([src/src/math/hash]).

    [crypto::sha3] fills the 32-byte array of a [crypto::hash] from
    [sha3_raw], the vendored SHA-3 library.  The library is a parameter of the
    model; what the program relies on is that the digest has 32 bytes. *)

From S2P Require Import Prelude.

Definition HASH_SIZE : nat := 32.

(** [struct hash { std::array<uint8_t, HASH_SIZE> data; }] is its bytes. *)
Abbreviation hash := blob.

Class Sha3 := sha3 : blob -> hash.

Class Sha3Laws `{Sha3} : Prop := {
  sha3_length x : length (sha3 x) = HASH_SIZE;
  sha3_bytes x : bytes_ok (sha3 x);
}.

(** [null_hash] *)
Definition null_hash : hash := replicate HASH_SIZE 0.

(** A concrete 32-byte function, the instance the examples evaluate with. *)
Definition rolling_digest (x : blob) : hash :=
  le_bytes 32 (foldl (fun acc b => (acc * 263 + b + 7) mod 1000003) 11 x).

Module RollingDigest.
#[export] Instance rolling_sha3 : Sha3 := rolling_digest.
#[export] Instance rolling_sha3_laws : Sha3Laws.
Proof. split; intros x; [apply length_le_bytes | apply le_bytes_ok]. Qed.
End RollingDigest.

(** A constant digest: with it every challenge of a proof is 1, which keeps the
    evaluation of the large examples cheap. *)
Module UnitDigest.
#[export] Instance unit_sha3 : Sha3 := fun _ => le_bytes 32 1.
#[export] Instance unit_sha3_laws : Sha3Laws.
Proof. split; intros x; [apply length_le_bytes | apply le_bytes_ok]. Qed.
End UnitDigest.
