(* ===== verification/Base58.v ===== *)
(** Base-58 text encoding of addresses ([src/src/tools/common/base58.cpp], with
    the byte swap of [src/src/tools/epee/functional/int-util.hpp]). *)

From S2P Require Import Prelude Varint Hash.

Module Base58.
Import Varint.

(** The value of a [char], which is signed on the supported targets. *)
Definition schar (c : Z) : Z := if c <? 128 then c else c - 256.

Definition alphabet : blob :=
  Eval vm_compute in chars "123456789ABCDEFGHJKLMNPQRSTUVWXYZabcdefghijkmnopqrstuvwxyz".
Definition alphabet_size : Z := 58.
Definition encoded_block_sizes : list nat := [0; 2; 3; 5; 6; 7; 9; 10; 11]%nat.
Definition full_block_size : nat := 8.
Definition full_encoded_block_size : nat := 11.
Definition addr_checksum_size : nat := 4.

(** [alphabet[i]] *)
Definition letter_of (i : Z) : Z := nth (Z.to_nat i) alphabet 0.

(** [encoded_block_sizes[size]] *)
Definition encoded_size (size : nat) : nat := nth size encoded_block_sizes 0%nat.

(** [reverse_alphabet::reverse_alphabet], the table [m_data]. *)
Definition reverse_alphabet_data : list Z :=
  Eval vm_compute in
  foldl (fun m i => <[Z.to_nat (nth i alphabet 0 - nth 0 alphabet 0) := Z.of_nat i]> m)
    (replicate (Z.to_nat (nth 57 alphabet 0 - nth 0 alphabet 0 + 1)) (-1)) (seq 0 58).

(** [reverse_alphabet::operator()] *)
Definition reverse_alphabet (letter : Z) : Z :=
  let idx := wrap 64 (schar letter - nth 0 alphabet 0) in
  if idx <? Z.of_nat (length reverse_alphabet_data)
  then nth (Z.to_nat idx) reverse_alphabet_data (-1) else -1.

(** [decoded_block_sizes::decoded_block_sizes], the table [m_data]. *)
Definition decoded_block_sizes_data : list Z :=
  Eval vm_compute in
  foldl (fun m i => <[encoded_size i := Z.of_nat i]> m)
    (replicate (encoded_size full_block_size + 1) (-1)) (seq 0 (full_block_size + 1)).

(** [decoded_block_sizes::operator()] *)
Definition decoded_block_sizes (encoded_block_size : nat) : Z :=
  nth encoded_block_size decoded_block_sizes_data (-1).

(** The macro [SWAP64]. *)
Definition swap64 (x : Z) : Z :=
  Z.lor (Z.lor (Z.lor (Z.lor (Z.lor (Z.lor (Z.lor
    (u64_shl (Z.land x 0x00000000000000ff) 56)
    (u64_shl (Z.land x 0x000000000000ff00) 40))
    (u64_shl (Z.land x 0x0000000000ff0000) 24))
    (u64_shl (Z.land x 0x00000000ff000000) 8))
    (Z.shiftr (Z.land x 0x000000ff00000000) 8))
    (Z.shiftr (Z.land x 0x0000ff0000000000) 24))
    (Z.shiftr (Z.land x 0x00ff000000000000) 40))
    (Z.shiftr (Z.land x 0xff00000000000000) 56).

(** [uint_8be_to_64]: the bytes are copied to the high end of a zeroed 64-bit
    variable of a little-endian machine, which is then byte-swapped. *)
Definition uint_8be_to_64 (data : blob) : Z :=
  swap64 (le_Z (replicate (8 - length data) 0 ++ data)).

(** [uint_64_to_8be] *)
Definition uint_64_to_8be (num : Z) (size : nat) : blob :=
  drop (8 - size) (le_bytes 8 (swap64 num)).

(** [encode_block]: the loop writes digits into [res] from its last position
    down.  A write outside of the buffer is undefined behaviour and has no
    result here. *)
Fixpoint encode_block_loop (fuel : nat) (num : Z) (i : Z) (res : blob) : option blob :=
  if num <=? 0 then Some res
  else match fuel with
  | O => None
  | S fuel' =>
      let remainder := num mod alphabet_size in
      let num := num / alphabet_size in
      if ((0 <=? i) && (i <? Z.of_nat (length res)))%bool
      then encode_block_loop fuel' num (i - 1) (<[Z.to_nat i := letter_of remainder]> res)
      else None
  end.

(** The caller has filled the block's part of the result with [alphabet[0]]. *)
Definition encode_block (block : blob) : option blob :=
  let size := length block in
  let num := uint_8be_to_64 block in
  encode_block_loop 64 num (Z.of_nat (encoded_size size) - 1)
    (replicate (encoded_size size) (letter_of 0)).

(** [decode_block]: the [for] loop visits the letters from the last one. *)
Fixpoint decode_block_loop (rev_block : blob) (res_num order : Z) : option Z :=
  match rev_block with
  | [] => Some res_num
  | c :: rest =>
      let digit := reverse_alphabet c in
      if digit <? 0 then None
      else
        let p := wrap 128 (order * digit) in
        let tmp := wrap 128 (res_num + p) in
        if ((u64_max <? tmp) || (u64_max <? p))%bool then None
        else decode_block_loop rest tmp (order ⊠ alphabet_size)
  end.

Definition decode_block (block : blob) : option blob :=
  let res_size := decoded_block_sizes (length block) in
  if res_size <=? 0 then None
  else
    res_num ← decode_block_loop (reverse block) 0 1;
    if ((res_size <? Z.of_nat full_block_size) &&
        (u64_shl 1 (8 * res_size) <=? res_num))%bool then None
    else Some (uint_64_to_8be res_num (Z.to_nat res_size)).

(** [encode] *)
Definition encode (data : blob) : option blob :=
  match data with
  | [] => Some []
  | _ =>
      let full_block_count := (length data / full_block_size)%nat in
      let last_block_size := (length data mod full_block_size)%nat in
      res ← mapM encode_block (blocks full_block_size full_block_count data);
      last ← (if (0 <? last_block_size)%nat
              then encode_block (drop (full_block_count * full_block_size) data)
              else Some []);
      Some (concat res ++ last)
  end.

(** [decode]: [None] is the returned [false]. *)
Definition decode (enc : blob) : option blob :=
  match enc with
  | [] => Some []
  | _ =>
      let full_block_count := (length enc / full_encoded_block_size)%nat in
      let last_block_size := (length enc mod full_encoded_block_size)%nat in
      let last_block_decoded_size := decoded_block_sizes last_block_size in
      if last_block_decoded_size <? 0 then None
      else
        data ← mapM decode_block (blocks full_encoded_block_size full_block_count enc);
        last ← (if (0 <? last_block_size)%nat
                then decode_block (drop (full_block_count * full_encoded_block_size) enc)
                else Some []);
        Some (concat data ++ last)
  end.

(** [encode_addr] and [decode_addr] *)
Definition encode_addr `{Sha3} (tag : Z) (data : blob) : option blob :=
  let buf := get_varint_data tag ++ data in
  encode (buf ++ take addr_checksum_size (sha3 buf)).

Definition decode_addr `{Sha3} (addr : blob) : option (Z * blob) :=
  addr_data ← decode addr;
  if (length addr_data <=? addr_checksum_size)%nat then None
  else
    let checksum := drop (length addr_data - addr_checksum_size) addr_data in
    let addr_data := take (length addr_data - addr_checksum_size) addr_data in
    let expected_checksum := take addr_checksum_size (sha3 addr_data) in
    if negb (bool_decide (expected_checksum = checksum)) then None
    else
      let '(read, tag, _) := read_varint 64 addr_data in
      if read <=? 0 then None
      else Some (tag, drop (Z.to_nat read) addr_data).

Example encode_addr_runs :
  option_map length (encode_addr (H := rolling_digest) 0x5d4a (replicate 64 5)) = Some 98%nat.
Proof. vm_compute. reflexivity. Qed.

(** ** The byte swap *)

Lemma land_byte x n : 0 <= n -> Z.land x (Z.shiftl 255 n) = (x / 2 ^ n) mod 256 * 2 ^ n.
Proof.
  intros Hn. rewrite <- Z.shiftl_mul_pow2, <- Z.shiftr_div_pow2 by lia.
  change 256 with (2 ^ 8). rewrite <- Z.land_ones by lia. change 255 with (Z.ones 8).
  apply Z.bits_inj'. intros k Hk.
  rewrite Z.land_spec, !Z.shiftl_spec by lia.
  destruct (Z_lt_le_dec k n).
  - rewrite !(Z.testbit_neg_r _ (k - n)) by lia. now rewrite !andb_false_r.
  - rewrite Z.land_spec, Z.shiftr_spec by lia. f_equal. f_equal. lia.
Qed.

Lemma shl_byte b n m : 0 <= b < 256 -> 0 <= n -> 0 <= m -> n + m <= 56 ->
  u64_shl (b * 2 ^ n) m = b * 2 ^ (n + m).
Proof.
  intros Hb Hn Hm Hnm. unfold u64_shl. rewrite Z.shiftl_mul_pow2, <- Z.mul_assoc, <- Z.pow_add_r by lia.
  apply wrap_small. unfold fits.
  assert (0 < 2 ^ (n + m)) by (apply Z.pow_pos_nonneg; lia).
  assert (2 ^ (n + m) <= 2 ^ 56) by (apply Z.pow_le_mono_r; lia).
  change (2 ^ 64) with (256 * 2 ^ 56). nia.
Qed.

Lemma shr_byte b n m : 0 <= m <= n -> Z.shiftr (b * 2 ^ n) m = b * 2 ^ (n - m).
Proof.
  intros. rewrite Z.shiftr_div_pow2 by lia.
  replace (2 ^ n) with (2 ^ (n - m) * 2 ^ m) by (rewrite <- Z.pow_add_r by lia; f_equal; lia).
  rewrite Z.mul_assoc. apply Z.div_mul. apply Z.pow_nonzero; lia.
Qed.

(** A value above bit [k] joined with one below it. *)
Lemma lor_high_low hi lo k : 0 <= k -> 0 <= lo < 2 ^ k -> Z.lor (hi * 2 ^ k) lo = hi * 2 ^ k + lo.
Proof. intros. rewrite Z.lor_comm, lor_disjoint; lia. Qed.

Lemma lor_byte hi b k :
  0 <= k -> 0 <= b < 256 -> Z.lor (hi * 2 ^ (k + 8)) (b * 2 ^ k) = (hi * 256 + b) * 2 ^ k.
Proof.
  intros Hk Hb. rewrite lor_high_low; [|lia|].
  - rewrite Z.pow_add_r by lia. change (2 ^ 8) with 256. ring.
  - rewrite Z.pow_add_r by lia. change (2 ^ 8) with 256.
    assert (0 < 2 ^ k) by (apply Z.pow_pos_nonneg; lia). nia.
Qed.

(** The eight bytes of a 64-bit value. *)
Definition byte_of (x n : Z) : Z := (x / 2 ^ n) mod 256.

Lemma byte_of_range x n : 0 <= byte_of x n < 256.
Proof. apply Z.mod_pos_bound. lia. Qed.

Lemma swap64_bytes x :
  swap64 x = be_val 256 [byte_of x 0; byte_of x 8; byte_of x 16; byte_of x 24;
                         byte_of x 32; byte_of x 40; byte_of x 48; byte_of x 56].
Proof.
  unfold swap64.
  change 0x00000000000000ff with (Z.shiftl 255 0).
  change 0x000000000000ff00 with (Z.shiftl 255 8).
  change 0x0000000000ff0000 with (Z.shiftl 255 16).
  change 0x00000000ff000000 with (Z.shiftl 255 24).
  change 0x000000ff00000000 with (Z.shiftl 255 32).
  change 0x0000ff0000000000 with (Z.shiftl 255 40).
  change 0x00ff000000000000 with (Z.shiftl 255 48).
  change 0xff00000000000000 with (Z.shiftl 255 56).
  rewrite !land_byte by lia. fold (byte_of x 0) (byte_of x 8) (byte_of x 16) (byte_of x 24)
    (byte_of x 32) (byte_of x 40) (byte_of x 48) (byte_of x 56).
  rewrite !shl_byte by (try apply byte_of_range; lia).
  rewrite !shr_byte by lia.
  assert (J : forall hi b k, 0 <= k -> 0 <= b < 256 ->
    Z.lor (hi * 2 ^ (k + 8)) (b * 2 ^ k) = (hi * 256 + b) * 2 ^ k) by (intros; apply lor_byte; lia).
  rewrite (J _ _ 48), (J _ _ 40), (J _ _ 32), (J _ _ 24), (J _ _ 16), (J _ _ 8), (J _ _ 0)
    by (try apply byte_of_range; lia).
  unfold be_val. cbn [reverse rev_append le_val]. ring.
Qed.

Lemma byte_of_le_Z l i :
  bytes_ok l -> (i < length l)%nat -> byte_of (le_Z l) (8 * Z.of_nat i) = nth i l 0.
Proof.
  intros Hl. revert i. induction Hl as [|b l Hb Hl IH]; intros i Hi; cbn [length] in Hi; [lia|].
  unfold byte_of in *. unfold is_byte in Hb. destruct i as [|i]; cbn [nth le_val].
  - cbn. rewrite Z.div_1_r, (Z.mul_comm 256), Z.mod_add, Z.mod_small by lia. reflexivity.
  - replace (8 * Z.of_nat (S i)) with (8 + 8 * Z.of_nat i) by lia.
    rewrite Z.pow_add_r, <- Z.div_div by (try apply Z.pow_pos_nonneg; lia).
    change (2 ^ 8) with 256. rewrite (Z.mul_comm 256), Z.div_add, (Z.div_small b 256), Z.add_0_l by lia.
    apply IH. lia.
Qed.

Lemma swap64_le_Z l : bytes_ok l -> length l = 8%nat -> swap64 (le_Z l) = be_val 256 l.
Proof.
  intros Hl Hlen. rewrite swap64_bytes.
  pose proof (fun i => byte_of_le_Z l i Hl) as Hb. rewrite Hlen in Hb.
  rewrite (Hb 0%nat ltac:(lia) : byte_of _ 0 = _), (Hb 1%nat ltac:(lia) : byte_of _ 8 = _),
    (Hb 2%nat ltac:(lia) : byte_of _ 16 = _), (Hb 3%nat ltac:(lia) : byte_of _ 24 = _),
    (Hb 4%nat ltac:(lia) : byte_of _ 32 = _), (Hb 5%nat ltac:(lia) : byte_of _ 40 = _),
    (Hb 6%nat ltac:(lia) : byte_of _ 48 = _), (Hb 7%nat ltac:(lia) : byte_of _ 56 = _).
  do 8 (destruct l as [|? l]; [discriminate|]). destruct l; [reflexivity|discriminate].
Qed.

Lemma be_val_replicate_0 n l : be_val 256 (replicate n 0 ++ l) = be_val 256 l.
Proof.
  induction n; cbn [replicate app]; [reflexivity|]. rewrite be_val_cons, IHn. lia.
Qed.

(** [uint_8be_to_64] reads a big-endian number of up to eight bytes. *)
Lemma uint_8be_to_64_spec data :
  bytes_ok data -> (length data <= 8)%nat -> uint_8be_to_64 data = be_val 256 data.
Proof.
  intros Hd Hlen. unfold uint_8be_to_64. rewrite swap64_le_Z.
  - apply be_val_replicate_0.
  - apply bytes_ok_app. split; [|assumption]. apply Forall_replicate. unfold is_byte; lia.
  - rewrite length_app, length_replicate. lia.
Qed.

(** [uint_64_to_8be] writes a number that fits as [size] big-endian bytes. *)
Lemma uint_64_to_8be_spec num size :
  (size <= 8)%nat -> 0 <= num < 256 ^ Z.of_nat size ->
  uint_64_to_8be num size = be_digits 256 size num.
Proof.
  intros Hs Hn. unfold uint_64_to_8be.
  assert (Hle : 256 ^ Z.of_nat size <= 256 ^ Z.of_nat 8) by (apply Z.pow_le_mono_r; lia).
  set (l := be_digits 256 size num).
  assert (Hl : bytes_ok l) by (apply be_digits_ok; lia).
  assert (Hlen : length l = size) by apply length_be_digits.
  assert (Hnum : num = be_val 256 (replicate (8 - size) 0 ++ l)).
  { rewrite be_val_replicate_0. unfold l. now rewrite be_val_digits_small by lia. }
  assert (Hok : bytes_ok (replicate (8 - size) 0 ++ l)).
  { apply bytes_ok_app. split; [|assumption]. apply Forall_replicate. unfold is_byte; lia. }
  assert (Hlen8 : length (replicate (8 - size) 0 ++ l) = 8%nat).
  { rewrite length_app, length_replicate. lia. }
  rewrite Hnum at 1. unfold be_val.
  rewrite swap64_le_Z; [|now apply bytes_ok_rev|now rewrite length_reverse].
  unfold be_val. rewrite reverse_involutive.
  pose proof (le_bytes_Z _ Hok) as E. rewrite Hlen8 in E. rewrite E.
  rewrite drop_app_length'; [reflexivity|]. rewrite length_replicate. lia.
Qed.

(** ** The tables *)

Lemma range_check (P : Z -> bool) n :
  forallb P (seqZ 0 n) = true -> forall b, 0 <= b < n -> P b = true.
Proof.
  intros H b Hb. rewrite forallb_forall in H. apply H.
  apply list_elem_of_In, elem_of_seqZ. lia.
Qed.

Lemma reverse_letter d : 0 <= d < alphabet_size -> reverse_alphabet (letter_of d) = d.
Proof.
  intros Hd. apply Z.eqb_eq.
  apply (range_check (fun d => reverse_alphabet (letter_of d) =? d) 58); auto.
Qed.

Lemma letter_reverse c :
  is_byte c -> 0 <= reverse_alphabet c ->
  letter_of (reverse_alphabet c) = c /\ reverse_alphabet c < alphabet_size.
Proof.
  intros Hc Hr.
  pose proof (byte_check (fun c => (reverse_alphabet c <? 0) ||
    ((letter_of (reverse_alphabet c) =? c) && (reverse_alphabet c <? 58)))%bool eq_refl c Hc) as E.
  cbv beta in E. apply orb_prop in E as [E|E]; to_prop; auto; lia.
Qed.

Lemma block_sizes k :
  (1 <= k <= 8)%nat ->
  decoded_block_sizes (encoded_size k) = Z.of_nat k /\
  (2 <= encoded_size k <= 11)%nat /\
  256 ^ Z.of_nat k < alphabet_size ^ Z.of_nat (encoded_size k).
Proof.
  intros Hk. do 9 (destruct k as [|k]; [try lia; vm_compute; repeat split; lia|]). lia.
Qed.

Lemma decoded_sizes n :
  0 < decoded_block_sizes n ->
  exists k, (1 <= k <= 8)%nat /\ decoded_block_sizes n = Z.of_nat k /\ n = encoded_size k.
Proof.
  assert (Hk : forall k, (1 <= k <= 8)%nat -> decoded_block_sizes n = Z.of_nat k ->
    n = encoded_size k -> exists k, (1 <= k <= 8)%nat /\ decoded_block_sizes n = Z.of_nat k /\
      n = encoded_size k) by eauto.
  intros Hn. do 12 (destruct n as [|n]; [
    first [ exfalso; vm_compute in Hn; congruence
          | apply (Hk 1%nat ltac:(lia)); reflexivity | apply (Hk 2%nat ltac:(lia)); reflexivity
          | apply (Hk 3%nat ltac:(lia)); reflexivity | apply (Hk 4%nat ltac:(lia)); reflexivity
          | apply (Hk 5%nat ltac:(lia)); reflexivity | apply (Hk 6%nat ltac:(lia)); reflexivity
          | apply (Hk 7%nat ltac:(lia)); reflexivity | apply (Hk 8%nat ltac:(lia)); reflexivity ] |]).
  exfalso. unfold decoded_block_sizes in Hn. rewrite nth_overflow in Hn by (cbn; lia). lia.
Qed.

(** ** One block *)

Lemma encode_block_loop_spec k : forall fuel num tail,
  (k <= fuel)%nat -> 0 <= num < alphabet_size ^ Z.of_nat k ->
  encode_block_loop fuel num (Z.of_nat k - 1) (replicate k (letter_of 0) ++ tail) =
    Some ((letter_of <$> be_digits alphabet_size k num) ++ tail).
Proof.
  assert (H58 : 1 < alphabet_size) by reflexivity.
  induction k as [|k IH]; intros fuel num tail Hf Hn.
  - assert (num = 0) as -> by (cbn in Hn; lia). now destruct fuel.
  - destruct fuel as [|fuel]; [lia|]. cbn [encode_block_loop].
    destruct (Z.leb_spec num 0).
    + assert (num = 0) as -> by lia. rewrite be_digits_0 by lia. now rewrite fmap_replicate.
    + rewrite length_app, length_replicate.
      destruct (Z.leb_spec 0 (Z.of_nat (S k) - 1)); [|lia].
      destruct (Z.ltb_spec (Z.of_nat (S k) - 1) (Z.of_nat (S k + length tail))); [|lia].
      cbn [andb]. replace (Z.to_nat (Z.of_nat (S k) - 1)) with k by lia.
      replace (Z.of_nat (S k) - 1 - 1) with (Z.of_nat k - 1) by lia.
      replace (S k) with (k + 1)%nat at 1 by lia.
      rewrite replicate_add, <- app_assoc, insert_app_r_alt by (rewrite length_replicate; lia).
      rewrite length_replicate, Nat.sub_diag. cbn [replicate app insert list_insert].
      rewrite IH; [|lia|].
      * rewrite be_digits_S, fmap_app, <- app_assoc. reflexivity.
      * rewrite pow_S in Hn by lia. split; [apply Z.div_pos; lia|apply Z.div_lt_upper_bound; lia].
Qed.

Lemma encode_block_spec b :
  bytes_ok b -> (1 <= length b <= 8)%nat ->
  encode_block b = Some (letter_of <$> be_digits alphabet_size (encoded_size (length b)) (be_val 256 b)).
Proof.
  intros Hb Hlen. unfold encode_block. rewrite uint_8be_to_64_spec by (auto; lia).
  destruct (block_sizes _ Hlen) as (_ & Hes & Hpow).
  rewrite <- (app_nil_r (replicate _ _)), encode_block_loop_spec, app_nil_r; [reflexivity|lia|].
  pose proof (be_val_bound 256 ltac:(lia) b Hb). lia.
Qed.

(** The decoding loop computes the number exactly and stops on overflow. *)
Lemma decode_block_loop_spec ds : forall res j,
  digits_ok alphabet_size ds -> (j + length ds <= 11)%nat -> 0 <= res <= u64_max ->
  decode_block_loop (letter_of <$> ds) res (wrap 64 (alphabet_size ^ Z.of_nat j)) =
    let v := res + alphabet_size ^ Z.of_nat j * le_val alphabet_size ds in
    if v <=? u64_max then Some v else None.
Proof.
  induction ds as [|d ds IH]; intros res j Hds Hj Hres; cbn [fmap list_fmap decode_block_loop le_val].
  - cbv zeta. rewrite Z.mul_0_r, Z.add_0_r. now destruct (Z.leb_spec res u64_max); [|lia].
  - apply Forall_cons in Hds as [Hd Hds]. cbn [length] in Hj.
    rewrite reverse_letter by lia. destruct (Z.ltb_spec d 0); [lia|].
    assert (Hp0 : 0 < alphabet_size ^ Z.of_nat j) by (apply Z.pow_pos_nonneg; [reflexivity|lia]).
    assert (Hp10 : alphabet_size ^ Z.of_nat j <= alphabet_size ^ 10) by (apply Z.pow_le_mono_r; [reflexivity|lia]).
    assert (Hw : wrap 64 (alphabet_size ^ Z.of_nat j) = alphabet_size ^ Z.of_nat j).
    { apply wrap_small. unfold fits. assert (alphabet_size ^ 10 < 2 ^ 64) by reflexivity. lia. }
    rewrite Hw. unfold alphabet_size in Hd.
    assert (Hb10 : alphabet_size ^ 10 * 58 < 2 ^ 128 - 2 ^ 64) by reflexivity.
    assert (0 <= alphabet_size ^ Z.of_nat j * d < alphabet_size ^ 10 * 58) by nia.
    rewrite (wrap_small 128 (alphabet_size ^ Z.of_nat j * d)) by (unfold_machine; lia).
    rewrite (wrap_small 128 (res + _)) by (unfold_machine; lia).
    pose proof (le_val_bound alphabet_size ltac:(reflexivity) ds Hds) as [Hv0 _].
    assert (Hmul : wrap 64 (alphabet_size ^ Z.of_nat j) ⊠ alphabet_size =
                   wrap 64 (alphabet_size ^ Z.of_nat (S j))).
    { unfold u64_mul, wrap. rewrite Zmult_mod_idemp_l, pow_S by (reflexivity || lia). f_equal. lia. }
    rewrite Hw in Hmul. rewrite Hmul. clear Hmul.
    cbv zeta. rewrite (Z.mul_add_distr_l _ d).
    replace (alphabet_size ^ Z.of_nat j * (alphabet_size * le_val alphabet_size ds))
      with (alphabet_size ^ Z.of_nat (S j) * le_val alphabet_size ds)
      by (rewrite pow_S by (reflexivity || lia); ring).
    assert (0 < alphabet_size ^ Z.of_nat (S j)) by (apply Z.pow_pos_nonneg; [reflexivity|lia]).
    destruct (Z.ltb_spec u64_max (res + alphabet_size ^ Z.of_nat j * d)); cbn [orb].
    + destruct (Z.leb_spec (res + (alphabet_size ^ Z.of_nat j * d +
        alphabet_size ^ Z.of_nat (S j) * le_val alphabet_size ds)) u64_max); [nia|reflexivity].
    + destruct (Z.ltb_spec u64_max (alphabet_size ^ Z.of_nat j * d)); [lia|].
      rewrite IH by (auto; lia). cbv zeta. now rewrite Z.add_assoc.
Qed.

Lemma decode_block_letters ds k :
  (1 <= k <= 8)%nat -> digits_ok alphabet_size ds -> length ds = encoded_size k ->
  let v := be_val alphabet_size ds in
  decode_block (letter_of <$> ds) =
    if v <? 256 ^ Z.of_nat k then Some (be_digits 256 k v) else None.
Proof.
  intros Hk Hds Hlen v. destruct (block_sizes k Hk) as (Hdec & Hes & _).
  pose proof (be_val_bound alphabet_size ltac:(reflexivity) ds Hds) as Hv. fold v in Hv.
  unfold decode_block. rewrite length_fmap, Hlen, Hdec.
  destruct (Z.leb_spec (Z.of_nat k) 0); [lia|].
  rewrite <- fmap_reverse.
  pose proof (decode_block_loop_spec (reverse ds) 0 0) as E.
  change (wrap 64 (alphabet_size ^ Z.of_nat 0)) with 1 in E.
  rewrite E; [|now apply Forall_reverse|rewrite length_reverse; lia|mlia]. clear E.
  change (alphabet_size ^ Z.of_nat 0) with 1. rewrite Z.mul_1_l, Z.add_0_l.
  change (le_val alphabet_size (reverse ds)) with v. cbv zeta.
  assert (H256 : 256 ^ Z.of_nat k = 2 ^ (8 * Z.of_nat k)).
  { change 256 with (2 ^ 8). rewrite <- Z.pow_mul_r by lia. reflexivity. }
  assert (Hle : 2 ^ (8 * Z.of_nat k) <= 2 ^ 64) by (apply Z.pow_le_mono_r; lia).
  assert (Hk8 : Z.of_nat k < 8 -> 2 ^ (8 * Z.of_nat k) < 2 ^ 64) by (intros; apply Z.pow_lt_mono_r; lia).
  assert (Hpos : 0 < 2 ^ (8 * Z.of_nat k)) by (apply Z.pow_pos_nonneg; lia).
  destruct (Z.leb_spec v u64_max); cbn [mbind option_bind].
  - rewrite Nat2Z.id. change (Z.of_nat full_block_size) with 8.
    destruct (Z.ltb_spec (Z.of_nat k) 8); cbn [andb].
    + unfold u64_shl. rewrite Z.shiftl_1_l, wrap_small by (unfold fits; lia).
      destruct (Z.leb_spec (2 ^ (8 * Z.of_nat k)) v), (Z.ltb_spec v (256 ^ Z.of_nat k));
        try lia; [reflexivity|]. rewrite uint_64_to_8be_spec by lia. reflexivity.
    + assert (k = 8%nat) as -> by lia.
      destruct (Z.ltb_spec v (256 ^ Z.of_nat 8)); [|mlia].
      rewrite uint_64_to_8be_spec by lia. reflexivity.
  - destruct (Z.ltb_spec v (256 ^ Z.of_nat k)); [mlia|reflexivity].
Qed.

Lemma encode_decode_block b :
  bytes_ok b -> (1 <= length b <= 8)%nat ->
  exists e, encode_block b = Some e /\ length e = encoded_size (length b) /\
            decode_block e = Some b.
Proof.
  intros Hb Hlen. rewrite encode_block_spec by auto. eexists; split; [reflexivity|].
  destruct (block_sizes _ Hlen) as (_ & _ & Hpow).
  pose proof (be_val_bound 256 ltac:(lia) b Hb) as Hv.
  rewrite length_fmap, length_be_digits. split; [reflexivity|].
  rewrite (decode_block_letters _ (length b));
    [|lia|apply be_digits_ok; reflexivity|apply length_be_digits].
  cbv zeta. rewrite be_val_digits_small by (try reflexivity; lia).
  destruct (Z.ltb_spec (be_val 256 b) (256 ^ Z.of_nat (length b))); [|lia].
  now rewrite be_digits_val by (auto; lia).
Qed.

Lemma decode_block_loop_valid l : forall res order v,
  decode_block_loop l res order = Some v -> Forall (fun c => 0 <= reverse_alphabet c) l.
Proof.
  induction l as [|c l IH]; intros res order v H; [constructor|].
  cbn [decode_block_loop] in H. destruct (Z.ltb_spec (reverse_alphabet c) 0); [discriminate|].
  case_if; [discriminate|]. constructor; [assumption|]. eapply IH, H.
Qed.

Lemma valid_letters l :
  bytes_ok l -> Forall (fun c => 0 <= reverse_alphabet c) l ->
  l = letter_of <$> (reverse_alphabet <$> l) /\ digits_ok alphabet_size (reverse_alphabet <$> l).
Proof.
  intros Hb Hv. induction Hb as [|c l Hc _ IH]; [repeat constructor|].
  apply Forall_cons in Hv as [Hv Hvl]. destruct (IH Hvl) as [E D].
  destruct (letter_reverse c Hc Hv) as [El Hr]. rewrite !fmap_cons. split.
  - rewrite El. f_equal. exact E.
  - constructor; [lia|exact D].
Qed.

Lemma decode_encode_block e d :
  bytes_ok e -> decode_block e = Some d ->
  bytes_ok d /\ (1 <= length d <= 8)%nat /\ encode_block d = Some e /\
  length e = encoded_size (length d).
Proof.
  intros He H. assert (Hpos : 0 < decoded_block_sizes (length e)).
  { unfold decode_block in H. destruct (Z.leb_spec (decoded_block_sizes (length e)) 0); [discriminate|lia]. }
  destruct (decoded_sizes _ Hpos) as (k & Hk & Hdec & Hlen).
  assert (Hvalid : Forall (fun c => 0 <= reverse_alphabet c) e).
  { unfold decode_block in H. case_if; [discriminate|].
    destruct (decode_block_loop (reverse e) 0 1) eqn:E; [|discriminate].
    apply decode_block_loop_valid in E. apply Forall_reverse in E. now rewrite reverse_involutive in E. }
  destruct (valid_letters e He Hvalid) as [Ee Hds].
  set (ds := reverse_alphabet <$> e) in *.
  assert (Hdl : length ds = encoded_size k) by (unfold ds; rewrite length_fmap; exact Hlen).
  rewrite Ee, (decode_block_letters ds k) in H by auto. cbv zeta in H.
  pose proof (be_val_bound alphabet_size ltac:(reflexivity) ds Hds) as Hv.
  destruct (Z.ltb_spec (be_val alphabet_size ds) (256 ^ Z.of_nat k)); [|discriminate].
  injection H as <-.
  assert (Hok : bytes_ok (be_digits 256 k (be_val alphabet_size ds))) by (apply be_digits_ok; lia).
  rewrite length_be_digits. repeat split; try lia; auto.
  rewrite encode_block_spec by (auto; rewrite length_be_digits; lia).
  rewrite length_be_digits, be_val_digits_small, <- Hdl, be_digits_val by (auto; try reflexivity; lia).
  now rewrite <- Ee.
Qed.

(** ** Whole strings *)

Definition last_block (f : blob -> option blob) (l : blob) : option blob :=
  if (0 <? length l)%nat then f l else Some [].

Lemma encode_blocks bs last :
  Forall (fun b => length b = full_block_size) bs -> (length last < full_block_size)%nat ->
  encode (concat bs ++ last) =
    (res ← mapM encode_block bs; l ← last_block encode_block last; Some (concat res ++ l)).
Proof.
  intros Hbs Hlast. pose proof (length_concat_const _ _ Hbs) as Hc.
  assert (Hlen : length (concat bs ++ last) = (length last + length bs * full_block_size)%nat)
    by (rewrite length_app; lia).
  assert (Hq : (length (concat bs ++ last) / full_block_size = length bs)%nat).
  { rewrite Hlen, Nat.div_add, Nat.div_small by (auto; discriminate). reflexivity. }
  assert (Hr : (length (concat bs ++ last) mod full_block_size = length last)%nat).
  { rewrite Hlen, Nat.Div0.mod_add, Nat.mod_small by auto. reflexivity. }
  unfold encode. destruct (concat bs ++ last) as [|x xs] eqn:E.
  - apply app_eq_nil in E as [E1 ->]. destruct bs as [|b bs]; [reflexivity|].
    rewrite E1 in Hc. cbn in Hc. unfold full_block_size in Hc. lia.
  - cbv zeta. rewrite Hq, Hr, <- E, blocks_concat, drop_app_length' by auto. reflexivity.
Qed.

Lemma decode_blocks bs last :
  Forall (fun b => length b = full_encoded_block_size) bs ->
  (length last < full_encoded_block_size)%nat ->
  decode (concat bs ++ last) =
    if decoded_block_sizes (length last) <? 0 then None
    else (res ← mapM decode_block bs; l ← last_block decode_block last; Some (concat res ++ l)).
Proof.
  intros Hbs Hlast. pose proof (length_concat_const _ _ Hbs) as Hc.
  assert (Hlen : length (concat bs ++ last) = (length last + length bs * full_encoded_block_size)%nat)
    by (rewrite length_app; lia).
  assert (Hq : (length (concat bs ++ last) / full_encoded_block_size = length bs)%nat).
  { rewrite Hlen, Nat.div_add, Nat.div_small by (auto; discriminate). reflexivity. }
  assert (Hr : (length (concat bs ++ last) mod full_encoded_block_size = length last)%nat).
  { rewrite Hlen, Nat.Div0.mod_add, Nat.mod_small by auto. reflexivity. }
  unfold decode. destruct (concat bs ++ last) as [|x xs] eqn:E.
  - apply app_eq_nil in E as [E1 ->]. destruct bs as [|b bs]; [reflexivity|].
    rewrite E1 in Hc. cbn in Hc. unfold full_encoded_block_size in Hc. lia.
  - cbv zeta. rewrite Hq, Hr, <- E, blocks_concat, drop_app_length' by auto. reflexivity.
Qed.

Lemma split_data n (l : blob) :
  (0 < n)%nat -> bytes_ok l ->
  exists bs last, l = concat bs ++ last /\ Forall (fun b => length b = n) bs /\
    (length last < n)%nat /\ Forall bytes_ok bs /\ bytes_ok last.
Proof.
  intros Hn Hl.
  pose proof (Nat.div_mod_eq (length l) n). pose proof (Nat.mod_upper_bound (length l) n ltac:(lia)).
  destruct (blocks_split n (length l / n)%nat l) as (E & _ & Hall); [lia|].
  eexists _, _. split; [exact E|]. split; [exact Hall|]. split; [rewrite length_drop; lia|].
  split; [|apply bytes_ok_drop, Hl].
  apply Forall_fmap, Forall_forall. intros i _. cbn. apply bytes_ok_take, bytes_ok_drop, Hl.
Qed.

Lemma encode_all bs :
  Forall (fun b => length b = full_block_size) bs -> Forall bytes_ok bs ->
  exists es, mapM encode_block bs = Some es /\ mapM decode_block es = Some bs /\
    Forall (fun e => length e = full_encoded_block_size) es.
Proof.
  induction 1 as [|b bs Hlen _ IH]; intros Hok.
  - exists []. repeat split. constructor.
  - apply Forall_cons in Hok as [Hb Hbs]. destruct (IH Hbs) as (es & E & D & L).
    destruct (encode_decode_block b Hb) as (e & Ee & Le & De); [rewrite Hlen; unfold full_block_size; lia|].
    exists (e :: es). cbn [mapM]. rewrite Ee, E, De, D. repeat split.
    constructor; [|exact L]. rewrite Le, Hlen. reflexivity.
Qed.

Lemma encode_last last :
  bytes_ok last -> (length last < full_block_size)%nat ->
  exists e, last_block encode_block last = Some e /\ last_block decode_block e = Some last /\
    (length e < full_encoded_block_size)%nat /\
    decoded_block_sizes (length e) = Z.of_nat (length last).
Proof.
  intros Hl Hlen. unfold last_block. unfold full_block_size in Hlen. destruct last as [|x last].
  - exists []. repeat split. unfold full_encoded_block_size. cbn. lia.
  - destruct (encode_decode_block (x :: last) Hl) as (e & Ee & Le & De); [cbn [length] in *; lia|].
    exists e. destruct (block_sizes (length (x :: last))) as (Hdec & Hes & _);
      [cbn [length] in *; lia|].
    rewrite Le. change (0 <? length (x :: last))%nat with true. cbn iota. rewrite Ee, De.
    destruct (Nat.ltb_spec 0 (encoded_size (length (x :: last)))); [|lia].
    repeat split; auto.
    unfold full_encoded_block_size. cbn [length] in *. clear -Hlen.
    do 7 (destruct last as [|? last]; [vm_compute; lia|]). cbn in Hlen. lia.
Qed.

Lemma encode_then_decode data :
  bytes_ok data -> exists enc, encode data = Some enc /\ decode enc = Some data.
Proof.
  intros Hd. destruct (split_data full_block_size data) as (bs & last & -> & Hbs & Hll & Hbok & Hlok);
    [unfold full_block_size, full_encoded_block_size; lia|assumption|].
  destruct (encode_all bs Hbs Hbok) as (es & E & D & L).
  destruct (encode_last last Hlok Hll) as (e & Ee & De & Le & Se).
  exists (concat es ++ e). rewrite encode_blocks, E by auto. cbn. rewrite Ee. cbn. split; [reflexivity|].
  rewrite decode_blocks, Se, D by auto. cbn. rewrite De. cbn.
  destruct (Z.ltb_spec (Z.of_nat (length last)) 0); [lia|reflexivity].
Qed.

(** Base-58 round trip.  Encoding is total on byte strings: it never writes
    outside its buffer, and decoding the text gives the bytes back. *)
Theorem base58_encode_decode data :
  bytes_ok data -> exists enc, encode data = Some enc /\ decode enc = Some data.
Proof. apply encode_then_decode. Qed.

Lemma base58_encode_decode_witness :
  bytes_ok [0; 255; 3; 4; 5; 6; 7; 8; 9] /\
  exists enc, encode [0; 255; 3; 4; 5; 6; 7; 8; 9] = Some enc /\
              decode enc = Some [0; 255; 3; 4; 5; 6; 7; 8; 9].
Proof.
  assert (H : bytes_ok [0; 255; 3; 4; 5; 6; 7; 8; 9]) by (repeat constructor; lia).
  split; [exact H | exact (base58_encode_decode _ H)].
Defined.

Lemma decode_all es bs :
  Forall (fun e => length e = full_encoded_block_size) es -> Forall bytes_ok es ->
  mapM decode_block es = Some bs ->
  mapM encode_block bs = Some es /\ Forall (fun b => length b = full_block_size) bs /\
  Forall bytes_ok bs.
Proof.
  intros Hlen. revert bs. induction Hlen as [|e es He _ IH]; intros bs Hok H; cbn [mapM] in H.
  - injection H as <-. repeat split; constructor.
  - apply Forall_cons in Hok as [Heok Hok].
    destruct (decode_block e) as [d|] eqn:D; [|discriminate]. cbn in H.
    destruct (mapM decode_block es) as [ds|] eqn:Ds; [|discriminate]. injection H as <-.
    destruct (IH _ Hok eq_refl) as (E & L & O).
    apply decode_encode_block in D as (Hd & Hdl & Ed & Le); [|assumption].
    cbn [mapM]. rewrite Ed, E. repeat split; constructor; auto.
    rewrite He in Le. unfold full_encoded_block_size in Le. destruct (length d) as [|[|[|[|[|[|[|[|[|n]]]]]]]]]; cbn in Le; try lia; reflexivity.
Qed.

Lemma decode_last last d :
  bytes_ok last -> (length last < full_encoded_block_size)%nat ->
  last_block decode_block last = Some d ->
  last_block encode_block d = Some last /\ (length d < full_block_size)%nat /\ bytes_ok d.
Proof.
  unfold last_block. intros Hl Hlen H. destruct (Nat.ltb_spec 0 (length last)).
  - apply decode_encode_block in H as (Hd & Hdl & Ed & Le); [|assumption].
    destruct (Nat.ltb_spec 0 (length d)); [|lia]. repeat split; auto.
    rewrite Le in Hlen. unfold full_block_size, full_encoded_block_size in *.
    destruct (Nat.eq_dec (length d) 8) as [E|]; [rewrite E in Hlen; cbn in Hlen; lia|lia].
  - injection H as <-. destruct last; [|cbn in *; lia]. repeat split; [cbn; unfold full_block_size; lia|constructor].
Qed.

(** Base-58 texts are canonical.  Whatever [decode] accepts is the one text
    [encode] produces for the decoded bytes, so two different texts never
    decode to the same bytes. *)
Theorem base58_decode_encode enc data :
  bytes_ok enc -> decode enc = Some data -> bytes_ok data /\ encode data = Some enc.
Proof.
  intros He H.
  destruct (split_data full_encoded_block_size enc) as (bs & last & -> & Hbs & Hll & Hbok & Hlok);
    [unfold full_block_size, full_encoded_block_size; lia|assumption|].
  rewrite decode_blocks in H by auto. case_if; [discriminate|].
  destruct (mapM decode_block bs) as [ds|] eqn:Ds; [|discriminate].
  destruct (last_block decode_block last) as [d|] eqn:D; [|discriminate]. injection H as <-.
  apply decode_all in Ds as (E & L & O); auto.
  apply decode_last in D as (Ed & Hd & Od); auto.
  split; [apply bytes_ok_app; split; [apply Forall_concat, O|exact Od]|].
  rewrite encode_blocks, E by auto. cbn. rewrite Ed. reflexivity.
Qed.

Lemma base58_decode_encode_witness :
  decode (chars "11Ldp") = Some [1; 2; 3] /\
  bytes_ok [1; 2; 3] /\ encode [1; 2; 3] = Some (chars "11Ldp").
Proof.
  split; [vm_compute; reflexivity|].
  apply (base58_decode_encode (chars "11Ldp")); [|vm_compute; reflexivity].
  repeat constructor; vm_compute; congruence.
Defined.

(** ** Addresses *)

(** C40: Address round trip.  For every tag and payload, the text [encode_addr]
    builds is accepted by [decode_addr], which returns the same tag and
    payload: the checksum, the varint tag and the block lengths agree. *)
Theorem address_roundtrip `{Sha3Laws} tag data :
  fits 64 tag -> bytes_ok data ->
  exists addr, encode_addr tag data = Some addr /\ decode_addr addr = Some (tag, data).
Proof.
  intros Ht Hd. unfold encode_addr, get_varint_data. cbv zeta.
  set (buf := write_varint tag ++ data).
  assert (Hbuf : bytes_ok buf).
  { apply bytes_ok_app. split; [apply write_varint_ok, Ht|exact Hd]. }
  assert (Hc : bytes_ok (take addr_checksum_size (sha3 buf))) by (apply bytes_ok_take, sha3_bytes).
  assert (Hcl : length (take addr_checksum_size (sha3 buf)) = addr_checksum_size).
  { rewrite length_take, sha3_length. reflexivity. }
  destruct (encode_then_decode (buf ++ take addr_checksum_size (sha3 buf))) as (e & E & D).
  { apply bytes_ok_app; auto. }
  exists e. split; [exact E|]. unfold decode_addr. rewrite D. cbn [mbind option_bind].
  rewrite length_app, Hcl.
  assert (Hpos : (0 < length buf)%nat).
  { unfold buf. rewrite length_app. pose proof (write_varint_nonempty tag ltac:(apply Ht)). lia. }
  destruct (Nat.leb_spec (length buf + addr_checksum_size) addr_checksum_size); [lia|].
  replace (length buf + addr_checksum_size - addr_checksum_size)%nat with (length buf) by lia.
  rewrite take_app_length, drop_app_length, bool_decide_eq_true_2 by reflexivity. cbn [negb].
  unfold read_varint, buf. rewrite read_write_varint_loop by first [lia | apply Ht].
  destruct (Z.leb_spec (0 + Z.of_nat (length (write_varint tag))) 0);
    [pose proof (write_varint_nonempty tag ltac:(apply Ht)); lia|].
  rewrite !Z.add_0_l, Nat2Z.id, drop_app_length. do 2 f_equal. lia.
Qed.

Lemma address_roundtrip_witness :
  exists addr, encode_addr (H := rolling_digest) 0x5d4a (replicate 64 5) = Some addr /\
               decode_addr (H := rolling_digest) addr = Some (0x5d4a, replicate 64 5).
Proof.
  apply (address_roundtrip (H0 := RollingDigest.rolling_sha3_laws)); [unfold fits; lia|].
  apply Forall_replicate. unfold is_byte. lia.
Defined.

End Base58.
