(* ===== verification/TreeHash.v ===== *)
(** The Merkle root of a block's transactions
    ([src/src/math/hash/functional/tree-hash.cpp]). *)

From S2P Require Import Prelude Hash.

Module TreeHash.

(** [largest_power_of_two]: [i] doubles until it is at least [x].  Sixty-four
    doublings are enough for every [x] up to [2^63]. *)
Fixpoint largest_power_of_two_loop (fuel : nat) (i x : Z) : option Z :=
  if i <? x
  then match fuel with
       | O => None
       | S fuel' => largest_power_of_two_loop fuel' (u64_shl i 1) x
       end
  else Some (Z.shiftr i 1).

Definition largest_power_of_two (x : Z) : option Z := largest_power_of_two_loop 64 2 x.

Section WithSha3.
Context `{Sha3}.

(** [hash_pair] *)
Definition hash_pair (x y : hash) : hash := sha3 (x ++ y).

(** [hashes[k]]; an index outside of the span is undefined behaviour and has no
    result. *)
Definition span_at (hashes : list hash) (k : Z) : result hash :=
  match hashes !! Z.to_nat k with
  | Some h => if 0 <=? k then Returns h else Throws
  | None => Throws
  end.

(** [hash_at]: index [i] of the heap-shaped array of the comment in the source.
    The recursion doubles [i], so its depth is at most the bit width. *)
Fixpoint hash_at (fuel : nat) (hashes : list hash) (i : Z) : result hash :=
  match fuel with
  | O => Throws
  | S fuel' =>
      let n := Z.of_nat (length hashes) in
      match largest_power_of_two n with
      | None => Throws
      | Some m =>
          if (((0 <? i) && (i <? m)) || ((i >=? (3 ⊠ m) ⊟ n) && (i <? 2 ⊠ m)))%bool
          then
            x ← hash_at fuel' hashes (2 ⊠ i);
            y ← hash_at fuel' hashes (2 ⊠ i ⊞ 1);
            Returns (hash_pair x y)
          else if ((i >=? m) && (i <? (3 ⊠ m) ⊟ n))%bool
          then span_at hashes (i ⊟ m)
          else if ((i >=? (6 ⊠ m) ⊟ (2 ⊠ n)) && (i <? 4 ⊠ m))%bool
          then span_at hashes ((i ⊟ (4 ⊠ m)) ⊞ n)
          else Throws
      end
  end.

(** [tree_hash]: [Returns None] is the empty optional. *)
Definition tree_hash (hashes : list hash) : result (option hash) :=
  match hashes with
  | [] => Returns None
  | [x] => Returns (Some x)
  | [x; y] => Returns (Some (hash_pair x y))
  | _ => h ← hash_at 64 hashes 1; Returns (Some h)
  end.

(** ** The reference: pair up, level by level

    With [n] leaves and [m] the largest power of two below [n], the last
    [2 (n - m)] leaves are first hashed in pairs, which leaves [m] nodes; every
    further level pairs up neighbours. *)

Fixpoint pair_up (l : list hash) : list hash :=
  match l with
  | x :: y :: l' => hash_pair x y :: pair_up l'
  | _ => []
  end.

Definition bottom_level (m : nat) (l : list hash) : list hash :=
  take (2 * m - length l) l ++ pair_up (drop (2 * m - length l) l).

Fixpoint level (j : nat) (l : list hash) : list hash :=
  match j with
  | O => l
  | S j' => pair_up (level j' l)
  end.

Definition merkle_root (k : nat) (l : list hash) : option hash :=
  head (level k (bottom_level (2 ^ k) l)).

Lemma length_pair_up l k : length l = (2 * k)%nat -> length (pair_up l) = k.
Proof.
  revert l; induction k as [|k IH]; intros l Hl.
  - destruct l; [reflexivity|discriminate].
  - destruct l as [|x [|y l]]; cbn in Hl; try lia. cbn. f_equal. apply IH. lia.
Qed.

Lemma pair_up_lookup l k j : length l = (2 * k)%nat -> (j < k)%nat ->
  exists x y, l !! (2 * j)%nat = Some x /\ l !! (2 * j + 1)%nat = Some y /\
              pair_up l !! j = Some (hash_pair x y).
Proof.
  revert l j; induction k as [|k IH]; intros l j Hl Hj; [lia|].
  destruct l as [|x [|y l]]; cbn in Hl; try lia. destruct j as [|j].
  - exists x, y. repeat split.
  - destruct (IH l j) as (a & b & Ha & Hb & Hp); [lia|lia|].
    exists a, b. replace (2 * S j)%nat with (S (S (2 * j))) by lia.
    repeat split; [exact Ha| |exact Hp].
    replace (S (S (2 * j)) + 1)%nat with (S (S (2 * j + 1))) by lia. exact Hb.
Qed.

Lemma length_bottom_level m l :
  (m < length l <= 2 * m)%nat -> length (bottom_level m l) = m.
Proof.
  intros Hl. unfold bottom_level. rewrite length_app, length_take.
  rewrite (length_pair_up _ (length l - m)); [lia|]. rewrite length_drop. lia.
Qed.

Lemma length_level k j l :
  length l = (2 ^ (k + j))%nat -> length (level j l) = (2 ^ k)%nat.
Proof.
  revert k; induction j as [|j IH]; intros k Hl; cbn [level].
  - rewrite Hl. f_equal. lia.
  - apply length_pair_up. rewrite (IH (S k)); [cbn; lia|]. rewrite Hl. f_equal. lia.
Qed.

(** ** The power of two *)

Lemma to_nat_pow2 e : Z.to_nat (2 ^ Z.of_nat e) = (2 ^ e)%nat.
Proof. change 2 with (Z.of_nat 2). rewrite <- Nat2Z.inj_pow. apply Nat2Z.id. Qed.


Lemma shl1 i : 0 <= i -> 2 * i < 2 ^ 64 -> u64_shl i 1 = 2 * i.
Proof.
  intros. unfold u64_shl. rewrite Z.shiftl_mul_pow2 by lia. rewrite wrap_small; [lia|].
  unfold fits. lia.
Qed.

Lemma largest_power_of_two_loop_spec x j : forall fuel e,
  (1 <= e)%nat -> (e + j <= 63)%nat -> (j <= fuel)%nat ->
  2 ^ Z.of_nat (e + j - 1) < x <= 2 ^ Z.of_nat (e + j) \/ (j = 0%nat /\ x <= 2 ^ Z.of_nat e) ->
  largest_power_of_two_loop fuel (2 ^ Z.of_nat e) x = Some (2 ^ Z.of_nat (e + j - 1)).
Proof.
  assert (Hsh : forall e, (1 <= e)%nat -> Z.shiftr (2 ^ Z.of_nat e) 1 = 2 ^ Z.of_nat (e - 1)).
  { intros e He. rewrite Z.shiftr_div_pow2 by lia. change (2 ^ 1) with 2.
    replace (Z.of_nat e) with (Z.of_nat (e - 1) + 1) by lia.
    rewrite Z.pow_add_r by lia. apply Z.div_mul. lia. }
  induction j as [|j IH]; intros fuel e He Hj Hf Hx.
  - rewrite Nat.add_0_r in *. destruct fuel; cbn;
      (destruct (Z.ltb_spec (2 ^ Z.of_nat e) x); [lia|]; now rewrite Hsh).
  - destruct Hx as [Hx | [? _]]; [|discriminate].
    destruct fuel as [|fuel]; [lia|]. cbn [largest_power_of_two_loop].
    assert (2 ^ Z.of_nat e <= 2 ^ Z.of_nat (e + S j - 1)) by (apply Z.pow_le_mono_r; lia).
    destruct (Z.ltb_spec (2 ^ Z.of_nat e) x); [|lia].
    assert (HS : 2 ^ Z.of_nat (S e) = 2 * 2 ^ Z.of_nat e) by (rewrite Nat2Z.inj_succ, Z.pow_succ_r; lia).
    assert (2 ^ Z.of_nat (S e) <= 2 ^ 63) by (apply Z.pow_le_mono_r; lia).
    rewrite shl1, <- HS by lia.
    rewrite IH; try lia; [do 2 f_equal; lia|].
    left. replace (S e + j)%nat with (e + S j)%nat by lia. assumption.
Qed.

Lemma sub_add_wrap a b c : fits 64 (a - b + c) -> (a ⊟ b) ⊞ c = a - b + c.
Proof.
  intros Hf. unfold u64_add, u64_sub, wrap. rewrite Zplus_mod_idemp_l. now apply wrap_small.
Qed.

(** ** Correctness of the index arithmetic *)

Section Tree.
Context (l : list hash) (k : nat).
Let n : Z := Z.of_nat (length l).
Let m : Z := 2 ^ Z.of_nat k.
Context (Hk : (k <= 59)%nat) (Hn : m < n <= 2 * m).

Lemma power_for_leaves : largest_power_of_two n = Some m.
Proof using Hk Hn.
  unfold largest_power_of_two. change 2 with (2 ^ Z.of_nat 1).
  rewrite (largest_power_of_two_loop_spec n k 64 1); try lia.
  - unfold m. do 2 f_equal. lia.
  - left. replace (1 + k - 1)%nat with k by lia. fold m. split; [lia|].
    replace (2 ^ Z.of_nat (1 + k)) with (2 * m); [lia|].
    unfold m. replace (Z.of_nat (1 + k)) with (Z.of_nat k + 1) by lia.
    rewrite Z.pow_add_r by lia. lia.
Qed.

Lemma m_bound : 0 < m <= 2 ^ 59.
Proof using Hk Hn. unfold m. split; [apply Z.pow_pos_nonneg; lia|apply Z.pow_le_mono_r; lia]. Qed.

Lemma m_nat : Z.to_nat m = (2 ^ k)%nat.
Proof. apply to_nat_pow2. Qed.

(** One step of [hash_at] with exact arithmetic. *)
Lemma hash_at_step fuel i :
  0 < i < 4 * m ->
  hash_at (S fuel) l i =
    if (((0 <? i) && (i <? m)) || ((i >=? 3 * m - n) && (i <? 2 * m)))%bool
    then
      x ← hash_at fuel l (2 * i);
      y ← hash_at fuel l (2 * i + 1);
      Returns (hash_pair x y)
    else if ((i >=? m) && (i <? 3 * m - n))%bool then span_at l (i - m)
    else if ((i >=? 6 * m - 2 * n) && (i <? 4 * m))%bool then span_at l (i - 4 * m + n)
    else Throws.
Proof using Hk Hn.
  intros Hi. pose proof m_bound. cbn [hash_at]. fold n. rewrite power_for_leaves.
  rewrite !u64_mul_small by mlia.
  rewrite (u64_sub_small (3 * m)), (u64_sub_small (6 * m)), (u64_add_small (2 * i)) by mlia.
  destruct (Z.geb_spec i m), (Z.geb_spec i (6 * m - 2 * n)); cbn [andb].
  - rewrite (u64_sub_small i m), sub_add_wrap by mlia. reflexivity.
  - rewrite (u64_sub_small i m) by mlia. reflexivity.
  - rewrite sub_add_wrap by mlia. reflexivity.
  - reflexivity.
Qed.

Lemma span_at_lookup j h : l !! j = Some h -> span_at l (Z.of_nat j) = Returns h.
Proof. intros E. unfold span_at. rewrite Nat2Z.id, E. destruct (Z.leb_spec 0 (Z.of_nat j)); [reflexivity|lia]. Qed.

(** The third case of the comment: a leaf below the last full level. *)
Lemma hash_at_deep fuel i h :
  6 * m - 2 * n <= i < 4 * m -> 2 * m <= i -> l !! Z.to_nat (i - 4 * m + n) = Some h ->
  hash_at (S fuel) l i = Returns h.
Proof using Hk Hn.
  intros Hi H2 Hl. pose proof m_bound. rewrite hash_at_step by lia.
  destruct (Z.ltb_spec 0 i), (Z.ltb_spec i m), (Z.ltb_spec i (2 * m)); try lia.
  rewrite !andb_false_r. cbn [andb orb].
  destruct (Z.geb_spec i m), (Z.ltb_spec i (3 * m - n)); try lia. cbn [andb].
  destruct (Z.geb_spec i (6 * m - 2 * n)), (Z.ltb_spec i (4 * m)); try lia. cbn [andb].
  rewrite <- (Z2Nat.id (i - 4 * m + n)) by lia. now apply span_at_lookup.
Qed.

Lemma hash_at_bottom fuel i :
  m <= i < 2 * m ->
  exists h, hash_at (S (S fuel)) l i = Returns h /\
            bottom_level (2 ^ k) l !! Z.to_nat (i - m) = Some h.
Proof using Hk Hn.
  intros Hi. pose proof m_bound. pose proof m_nat as Hmn.
  assert (Hlen : length (take (2 * 2 ^ k - length l) l) = (2 * 2 ^ k - length l)%nat).
  { rewrite length_take. unfold n in *. lia. }
  unfold bottom_level. rewrite hash_at_step by lia.
  destruct (Z.ltb_spec 0 i), (Z.ltb_spec i m), (Z.ltb_spec i (2 * m)); try lia. cbn [andb orb].
  destruct (Z.geb_spec i (3 * m - n)); cbn [andb].
  - rewrite lookup_app_r by (unfold n in *; lia). rewrite Hlen.
    destruct (pair_up_lookup (drop (2 * 2 ^ k - length l) l) (length l - 2 ^ k)
      (Z.to_nat (i - m) - (2 * 2 ^ k - length l))) as (x & y & Hx & Hy & Hp).
    { rewrite length_drop. unfold n in *. lia. }
    { unfold n in *. lia. }
    rewrite lookup_drop in Hx, Hy.
    rewrite (hash_at_deep _ (2 * i) x), (hash_at_deep _ (2 * i + 1) y); try (unfold n in *; lia).
    + cbn. eauto.
    + rewrite <- Hy. f_equal. unfold n in *. lia.
    + rewrite <- Hx. f_equal. unfold n in *. lia.
  - destruct (Z.geb_spec i m), (Z.ltb_spec i (3 * m - n)); try lia. cbn [andb].
    rewrite lookup_app_l by (unfold n in *; lia).
    rewrite lookup_take_lt by (unfold n in *; lia).
    destruct (lookup_lt_is_Some_2 l (Z.to_nat (i - m))) as [h Hh]; [unfold n in *; lia|].
    exists h. split; [|exact Hh].
    rewrite <- (Z2Nat.id (i - m)) by lia. now apply span_at_lookup.
Qed.

(** Node [i] of the [d]-th level above the bottom. *)
Lemma hash_at_node d : forall L fuel i,
  (L + d = k)%nat -> (d <= fuel)%nat -> 2 ^ Z.of_nat L <= i < 2 * 2 ^ Z.of_nat L ->
  exists h, hash_at (S (S fuel)) l i = Returns h /\
            level d (bottom_level (2 ^ k) l) !! Z.to_nat (i - 2 ^ Z.of_nat L) = Some h.
Proof using Hk Hn.
  pose proof m_bound. pose proof m_nat.
  induction d as [|d IH]; intros L fuel i HL Hf Hi.
  - assert (L = k) as -> by lia. apply hash_at_bottom, Hi.
  - destruct fuel as [|fuel]; [lia|]. cbn [level].
    assert (HSL : 2 ^ Z.of_nat (S L) = 2 * 2 ^ Z.of_nat L).
    { rewrite Nat2Z.inj_succ, Z.pow_succ_r; lia. }
    assert (HLm : 2 ^ Z.of_nat (S L) <= m) by (apply Z.pow_le_mono_r; lia).
    assert (0 < 2 ^ Z.of_nat L) by (apply Z.pow_pos_nonneg; lia).
    assert (HLn : Z.to_nat (2 ^ Z.of_nat L) = (2 ^ L)%nat).
    { apply to_nat_pow2. }
    destruct (IH (S L) fuel (2 * i)) as (x & Ex & Lx); [lia|lia|lia|].
    destruct (IH (S L) fuel (2 * i + 1)) as (y & Ey & Ly); [lia|lia|lia|].
    rewrite hash_at_step by lia.
    destruct (Z.ltb_spec 0 i), (Z.ltb_spec i m); try lia. cbn [andb orb].
    rewrite Ex, Ey. exists (hash_pair x y). split; [reflexivity|].
    assert (Hlen : length (level d (bottom_level (2 ^ k) l)) = (2 * 2 ^ L)%nat).
    { rewrite (length_level (S L)); [cbn; lia|].
      rewrite length_bottom_level by (unfold n in *; lia). f_equal. lia. }
    destruct (pair_up_lookup _ (2 ^ L) (Z.to_nat (i - 2 ^ Z.of_nat L)) Hlen) as (x' & y' & Hx & Hy & Hp);
      [lia|].
    rewrite Hp. do 2 f_equal.
    + assert (Some x' = Some x) by (rewrite <- Hx, <- Lx; f_equal; lia). congruence.
    + assert (Some y' = Some y) by (rewrite <- Hy, <- Ly; f_equal; lia). congruence.
Qed.

End Tree.

(** C37: The Merkle root.  For every list of at least two and at most [2^60]
    transaction hashes, [tree_hash] returns (the recursion ends, no exception,
    no index outside of the span) and its value is the reference root: the
    surplus leaves hashed in pairs, then level-by-level pairing up to one
    node. *)
Theorem tree_hash_is_merkle_root l k :
  (k <= 59)%nat -> (2 ^ k < length l <= 2 * 2 ^ k)%nat ->
  exists root, tree_hash l = Returns (Some root) /\ merkle_root k l = Some root.
Proof.
  intros Hk Hl.
  assert (Hm : 2 ^ Z.of_nat k = Z.of_nat (2 ^ k)) by (rewrite Nat2Z.inj_pow; reflexivity).
  destruct (hash_at_node l k Hk ltac:(lia) k 0 62 1) as (h & E & L); [lia|lia|cbn; lia|].
  assert (Hroot : merkle_root k l = Some h).
  { unfold merkle_root. cbn in L. rewrite <- head_lookup in L. exact L. }
  exists h. split; [|exact Hroot].
  destruct l as [|x [|y [|z l]]]; cbn [length] in Hl.
  - lia.
  - assert (2 ^ k <> 0)%nat by (apply Nat.pow_nonzero; lia). lia.
  - assert (k = 0%nat) as -> by (destruct k; [reflexivity|cbn in Hl; lia]).
    cbn in Hroot. injection Hroot as <-. reflexivity.
  - unfold tree_hash. rewrite E. reflexivity.
Qed.

End WithSha3.

Lemma tree_hash_is_merkle_root_witness :
  exists root,
    tree_hash (H := rolling_digest) ((fun i => [i]) <$> [1; 2; 3; 4; 5; 6; 7]) = Returns (Some root) /\
    merkle_root (H := rolling_digest) 2 ((fun i => [i]) <$> [1; 2; 3; 4; 5; 6; 7]) = Some root.
Proof. apply (tree_hash_is_merkle_root _ 2); cbn; lia. Defined.

End TreeHash.
