(* ===== verification/Config.v ===== *)
(** Constants of the currency ([src/src/math/consensus/constant.hpp],
    [src/src/config/lol.hpp]). *)

From S2P Require Import Prelude.

Module Config.

(** [consensus::get_coin_amount], in atomic units *)
Definition get_coin_amount : Z := 100000000000.
(** [consensus::get_money_supply] *)
Definition get_money_supply : Z := get_coin_amount ⊠ 18400000.
(** [consensus::get_emission_speed_factor] *)
Definition get_emission_speed_factor : Z := 19.
(** [consensus::get_coinbase_unlock_time] *)
Definition get_coinbase_unlock_time : Z := 60.

(** namespace [constant] *)
Definition DIFFICULTY_TARGET_IN_SECONDS : Z := 300.
Definition DIFFICULTY_WINDOW_IN_BLOCKS : Z := 144.
Definition DIFFICULTY_BLOCKS_COUNT : nat := 145.
Definition CRYPTONOTE_COINBASE_BLOB_RESERVED_SIZE : Z := 600.
Definition BULLETPROOF_MAX_OUTPUTS : nat := 16.
Definition AMOUNT_BIT_WIDTH : nat := 64.

(** namespace [config]: the domain separators of the hashes *)
Definition HASH_KEY_BULLETPROOF_EXPONENT : blob := Eval vm_compute in chars "bulletproof".
Definition HASH_KEY_SUBADDRESS : blob := Eval vm_compute in chars "SubAddr".
Definition HASH_KEY_CLSAG_ROUND : blob := Eval vm_compute in chars "CLSAG_round".
Definition HASH_KEY_CLSAG_AGG_0 : blob := Eval vm_compute in chars "CLSAG_agg_0".
Definition HASH_KEY_CLSAG_AGG_1 : blob := Eval vm_compute in chars "CLSAG_agg_1".
Definition ecdhHashPrefix : blob := Eval vm_compute in chars "amount".
Definition commitmentMaskPrefix : blob := Eval vm_compute in chars "commitment_mask".

Lemma money_supply_value : get_money_supply = 1840000000000000000.
Proof. reflexivity. Qed.

End Config.
