(* ===== verification/Difficulty.v ===== *)
(** Proof of work and the LWMA-1 difficulty adjustment
    ([src/src/math/blockchain/functional/difficulty.hpp] and [.cpp]). *)

From S2P Require Import Prelude Hash Config.

Module Difficulty.
Import Config.

(** [max256bit] and [max_int_for_diff]; the arithmetic is on [uint512_t]. *)
Definition max256bit : Z := u256_max.
Definition max_int_for_diff (difficulty : Z) : Z := max256bit / difficulty.

(** [check_hash_int] *)
Definition check_hash_int (hashInt difficulty : Z) : bool :=
  wrap 512 (hashInt * difficulty) <=? max256bit.

(** [hash_to_int]: [import_bits] of the bytes, least significant first. *)
Definition hash_to_int (h : hash) : Z := le_Z h.

(** [int_to_hash] *)
Fixpoint int_to_hash_loop (i : nat) (v : Z) : hash :=
  match i with
  | O => []
  | S i' => wrap 8 v :: int_to_hash_loop i' (Z.shiftr v 8)
  end.
Definition int_to_hash (x : Z) : hash := int_to_hash_loop HASH_SIZE x.

(** [check_hash] *)
Definition check_hash (h : hash) (difficulty : Z) : bool :=
  check_hash_int (hash_to_int h) difficulty.

(** [struct L_collector] *)
Record L_collector := { linear_index : Z; L_sum : Z; L_last : Z }.

(** the lambda [accumulate_linearly_weighted_timestamp_diff] *)
Definition accumulate_linearly_weighted_timestamp_diff (x : L_collector) (t : Z) : L_collector :=
  let maximum_allowed_time_diff := 6 ⊠ DIFFICULTY_TARGET_IN_SECONDS in
  let dt := 1 in
  let is_past_solve_time := t <=? L_last x in
  let accepted_time_diff :=
    if is_past_solve_time then dt else Z.min (t ⊟ L_last x) maximum_allowed_time_diff in
  let weight := linear_index x ⊠ accepted_time_diff in
  let accepted_timestamp := if is_past_solve_time then L_last x ⊞ dt else t in
  {| linear_index := linear_index x ⊞ 1; L_sum := L_sum x ⊞ weight; L_last := accepted_timestamp |}.

(** [next_difficulty_pure]: [timestamps] and [cumulative_difficulties] are spans
    of [DIFFICULTY_BLOCKS_COUNT] elements. *)
Definition next_difficulty_pure (timestamps cumulative_difficulties : list Z) (HEIGHT : Z) : Z :=
  let T := DIFFICULTY_TARGET_IN_SECONDS in
  let N := DIFFICULTY_WINDOW_IN_BLOCKS in
  let l_init :=
    {| linear_index := 1; L_sum := 0; L_last := hd 0 timestamps ⊟ T |} in
  let l_collector :=
    foldl accumulate_linearly_weighted_timestamp_diff l_init (tl timestamps) in
  let min_weight := (N ⊠ N ⊠ T) / 20 in
  let L := Z.max (L_sum l_collector) min_weight in
  let avg_D :=
    wrap 128 (List.last cumulative_difficulties 0 - hd 0 cumulative_difficulties) / N in
  let n_n_plus_1_t_99 := N ⊠ (N ⊞ 1) ⊠ T ⊠ 99 in
  let l_200 := 200 ⊠ L in
  let up := wrap 256 (avg_D * n_n_plus_1_t_99) in
  let overflow_until_height := 279 in
  let next_D :=
    if HEIGHT <? overflow_until_height then wrap 64 up / l_200 else up / l_200 in
  if next_D <=? u128_max then next_D else 0.

(** [next_difficulty] *)
Definition next_difficulty (timestamps cumulative_difficulties : list Z) (HEIGHT : Z) : result Z :=
  let N := DIFFICULTY_WINDOW_IN_BLOCKS in
  _ ← throw_unless (length timestamps =? length cumulative_difficulties)%nat;
  if HEIGHT =? 0 then Returns 1
  else if HEIGHT <? N + 3 then Returns (Z.shiftl 1 20)
  else
    _ ← throw_unless (length timestamps =? DIFFICULTY_BLOCKS_COUNT)%nat;
    let next := next_difficulty_pure timestamps cumulative_difficulties HEIGHT in
    _ ← throw_unless (0 <? next);
    Returns next.

(** ** Proof of work *)

Lemma check_hash_int_no_overflow h d :
  fits 256 h -> fits 128 d -> check_hash_int h d = (h * d <=? max256bit).
Proof.
  intros Hh Hd. unfold check_hash_int. rewrite wrap_small; [reflexivity|].
  unfold fits in *. change (2 ^ 512) with (2 ^ 256 * 2 ^ 256).
  assert (2 ^ 128 < 2 ^ 256) by reflexivity. nia.
Qed.

(** The proof-of-work test.  For every 256-bit hash value and every positive
    128-bit difficulty the widened product does not overflow, and the block is
    accepted exactly when the hash does not exceed [max_int_for_diff], the
    target the miner uses. *)
Theorem check_hash_iff_below_target h d :
  length h = HASH_SIZE -> bytes_ok h -> 0 < d -> fits 128 d ->
  check_hash h d = true <-> hash_to_int h <= max_int_for_diff d.
Proof.
  intros Hl Hb Hd0 Hd. pose proof (le_Z_bound h Hb) as Hv. rewrite Hl in Hv.
  unfold check_hash, hash_to_int, max_int_for_diff.
  rewrite check_hash_int_no_overflow; [|exact Hv|exact Hd].
  rewrite Z.leb_le. split; intros H.
  - apply Z.div_le_lower_bound; lia.
  - pose proof (Z.mul_div_le max256bit d Hd0). nia.
Qed.

Lemma check_hash_iff_below_target_witness :
  check_hash (replicate 31 0 ++ [1]) 7 = true <->
  hash_to_int (replicate 31 0 ++ [1]) <= max_int_for_diff 7.
Proof.
  apply (check_hash_iff_below_target (replicate 31 0 ++ [1]) 7);
    [reflexivity | repeat constructor; lia | lia | unfold fits; lia].
Defined.

Lemma int_to_hash_loop_digits i v : int_to_hash_loop i v = le_bytes i v.
Proof.
  revert v; induction i as [|i IH]; intros v; cbn; [reflexivity|].
  rewrite IH. unfold wrap. rewrite Z.shiftr_div_pow2 by lia. reflexivity.
Qed.

(** Hashes and integers.  [int_to_hash] inverts [hash_to_int] on every
    32-byte hash, and [hash_to_int] inverts [int_to_hash] on every 256-bit
    integer. *)
Theorem hash_int_roundtrip h x :
  length h = HASH_SIZE -> bytes_ok h -> fits 256 x ->
  int_to_hash (hash_to_int h) = h /\ hash_to_int (int_to_hash x) = x.
Proof.
  intros Hl Hb Hx. unfold int_to_hash, hash_to_int. rewrite !int_to_hash_loop_digits.
  split; [rewrite <- Hl; now apply le_bytes_Z|]. apply le_Z_bytes_small. exact Hx.
Qed.

Lemma hash_int_roundtrip_witness :
  int_to_hash (hash_to_int (replicate 32 9)) = replicate 32 9 /\
  hash_to_int (int_to_hash 12345) = 12345.
Proof.
  apply (hash_int_roundtrip (replicate 32 9) 12345);
    [reflexivity | repeat constructor; lia | unfold fits; lia].
Defined.

(** ** The linearly weighted moving average

    [lwma] is the weighted sum of the accepted solve times over unbounded
    integers. *)

Definition T : Z := DIFFICULTY_TARGET_IN_SECONDS.
Definition N : Z := DIFFICULTY_WINDOW_IN_BLOCKS.

Definition solve_time (last t : Z) : Z := if t <=? last then 1 else Z.min (t - last) (6 * T).

Fixpoint lwma (i last : Z) (ts : list Z) : Z :=
  match ts with
  | [] => 0
  | t :: ts' => i * solve_time last t + lwma (i + 1) (Z.max t (last + 1)) ts'
  end.

Lemma solve_time_bounds last t : 1 <= solve_time last t <= 1800.
Proof. unfold solve_time. change (6 * T) with 1800. case_if; to_prop; lia. Qed.

Lemma lwma_bounds ts i last :
  0 <= i ->
  let n := Z.of_nat (length ts) in
  n * (2 * i + n - 1) <= 2 * lwma i last ts <= 1800 * (n * (2 * i + n - 1)).
Proof.
  revert i last; induction ts as [|t ts IH]; intros i last Hi; cbn [lwma length]; [cbn; lia|].
  specialize (IH (i + 1) (Z.max t (last + 1)) ltac:(lia)). cbv zeta in *.
  pose proof (solve_time_bounds last t).
  rewrite Nat2Z.inj_succ in *. set (n := Z.of_nat (length ts)) in *.
  set (w := lwma _ _ ts) in *. set (s := solve_time last t) in *. nia.
Qed.

(** The accumulator of the code, kept in range, computes [lwma]. *)
Lemma foldl_lwma ts i s last :
  0 <= i -> i + Z.of_nat (length ts) <= 1000 ->
  0 <= s <= 1800 * 1000 * i -> 0 <= last <= 2 ^ 63 + i ->
  Forall (fits 63) ts ->
  L_sum (foldl accumulate_linearly_weighted_timestamp_diff
           {| linear_index := i; L_sum := s; L_last := last |} ts) = s + lwma i last ts.
Proof.
  revert i s last; induction ts as [|t ts IH]; intros i s last Hi Hn Hs Hl Hts; cbn [foldl lwma length];
    [cbn; lia|].
  apply Forall_cons in Hts as [Ht Hts]. cbn [length] in Hn. rewrite Nat2Z.inj_succ in Hn.
  pose proof (solve_time_bounds last t) as Hb. unfold fits in Ht.
  assert (E : accumulate_linearly_weighted_timestamp_diff
            {| linear_index := i; L_sum := s; L_last := last |} t
          = {| linear_index := i + 1; L_sum := s + i * solve_time last t;
               L_last := Z.max t (last + 1) |}).
  { unfold accumulate_linearly_weighted_timestamp_diff; cbn [linear_index L_sum L_last].
    change (6 ⊠ DIFFICULTY_TARGET_IN_SECONDS) with (6 * T).
    unfold solve_time in *. change (6 * T) with 1800 in *.
    destruct (t <=? last) eqn:Etl; to_prop.
    - rewrite !u64_add_small, !u64_mul_small by (unfold fits; rewrite ?u64_mul_small by (unfold fits; nia); nia).
      f_equal; lia.
    - rewrite (u64_sub_small t last) by (unfold fits; lia).
      rewrite !u64_add_small, !u64_mul_small by (unfold fits; rewrite ?u64_mul_small by (unfold fits; nia); nia).
      f_equal; lia. }
  rewrite E, IH; [lia|lia|lia|nia|lia|assumption].
Qed.

(** The weight that [next_difficulty_pure] divides by, and the quotient. *)
Definition lwma_weight (ts : list Z) : Z :=
  Z.max (lwma 1 (hd 0 ts - T) (tl ts)) (N * N * T / 20).
Definition average_difficulty (cds : list Z) : Z := (List.last cds 0 - hd 0 cds) / N.
Definition lwma_difficulty (ts cds : list Z) : Z :=
  average_difficulty cds * (N * (N + 1) * T * 99) / (200 * lwma_weight ts).

(** A window of the chain: 145 timestamps after the epoch and 145 growing
    cumulative difficulties. *)
Record window_ok (ts cds : list Z) : Prop := {
  window_ts_length : length ts = DIFFICULTY_BLOCKS_COUNT;
  window_cds_length : length cds = DIFFICULTY_BLOCKS_COUNT;
  window_ts : Forall (fits 63) ts;
  window_epoch : T <= hd 0 ts;
  window_cds : 0 <= hd 0 cds <= List.last cds 0 /\ List.last cds 0 <= u128_max
}.

Section Window.
Context (ts cds : list Z) (W : window_ok ts cds).

Lemma lwma_weight_bounds : 311040 <= lwma_weight ts <= 18792000.
Proof using W.
  destruct W as [Hl _ _ _ _]. unfold lwma_weight.
  change (N * N * T / 20) with 311040.
  pose proof (lwma_bounds (tl ts) 1 (hd 0 ts - T) ltac:(lia)) as H. cbv zeta in H.
  assert (length (tl ts) = 144)%nat as E by (destruct ts; [discriminate|]; now injection Hl).
  rewrite E in H. cbn in H |- *. lia.
Qed.

Lemma window_L_sum :
  L_sum (foldl accumulate_linearly_weighted_timestamp_diff
           {| linear_index := 1; L_sum := 0; L_last := hd 0 ts ⊟ T |} (tl ts))
  = lwma 1 (hd 0 ts - T) (tl ts).
Proof using W.
  destruct W as [Hl _ Hts Hh _]. destruct ts as [|t ts']; [discriminate|]. cbn in *.
  apply Forall_cons in Hts as [Ht Hts]. unfold fits in Ht.
  change T with 300 in *. rewrite u64_sub_small by (unfold fits; lia).
  rewrite foldl_lwma; [lia|lia| |lia|lia|assumption].
  injection Hl as ->. cbn. lia.
Qed.

Lemma average_difficulty_bounds : 0 <= average_difficulty cds < 2 ^ 121.
Proof using W.
  destruct W as [_ _ _ _ [Hc Hm]]. unfold average_difficulty, u128_max in *. change N with 144.
  split; [apply Z.div_pos; lia | apply Z.div_lt_upper_bound; lia].
Qed.

Lemma next_difficulty_pure_lwma HEIGHT :
  279 <= HEIGHT ->
  next_difficulty_pure ts cds HEIGHT =
  (if lwma_difficulty ts cds <=? u128_max then lwma_difficulty ts cds else 0).
Proof using W.
  intros HH. unfold next_difficulty_pure. fold T N.
  rewrite window_L_sum. change ((N ⊠ N ⊠ T) / 20) with (N * N * T / 20).
  fold (lwma_weight ts). change (N ⊠ (N ⊞ 1) ⊠ T ⊠ 99) with (N * (N + 1) * T * 99).
  rewrite (proj2 (Z.ltb_ge HEIGHT 279)) by lia.
  pose proof average_difficulty_bounds as Ha. pose proof lwma_weight_bounds as Hw.
  destruct W as [_ _ _ _ [Hc Hm]].
  rewrite (wrap_small 128) by mlia. fold (average_difficulty cds).
  rewrite u64_mul_small by mlia. rewrite (wrap_small 256); [reflexivity|].
  change (N * (N + 1) * T * 99) with 620136000. mlia.
Qed.

Lemma next_difficulty_window HEIGHT :
  279 <= HEIGHT ->
  next_difficulty ts cds HEIGHT =
  (let d := lwma_difficulty ts cds in
   if (0 <? d) && (d <=? u128_max) then Returns d else Throws).
Proof using W.
  intros HH. unfold next_difficulty. pose proof (next_difficulty_pure_lwma HEIGHT HH) as E.
  destruct W as [Hl1 Hl2 _ _ _]. rewrite Hl1, Hl2, Nat.eqb_refl. cbn [throw_unless mbind result_bind].
  rewrite (proj2 (Z.eqb_neq HEIGHT 0)) by lia.
  rewrite (proj2 (Z.ltb_ge HEIGHT _)) by (change (DIFFICULTY_WINDOW_IN_BLOCKS + 3) with 147; lia).
  rewrite E. cbv zeta. destruct (lwma_difficulty ts cds <=? u128_max); rewrite ?andb_true_r, ?andb_false_r;
    destruct (0 <? _) eqn:?; try reflexivity; try discriminate.
Qed.

End Window.

(** C32: The difficulty adjustment.  On every full window (times from 300 seconds after the epoch on and below 2^63, a cumulative
    difficulty at the end not below that at the start) and from height
    279 on, none of the 64-, 128- and 256-bit operations of [next_difficulty]
    wraps: the result is the quotient
    [avg * N (N+1) T 99 / (200 * max (LWMA, N N T / 20))] over the integers, and
    the code throws exactly when that quotient is zero or needs more than 128
    bits. *)
Theorem next_difficulty_is_lwma ts cds HEIGHT :
  window_ok ts cds -> 279 <= HEIGHT ->
  next_difficulty ts cds HEIGHT =
  (let d := lwma_difficulty ts cds in
   if (0 <? d) && (d <=? u128_max) then Returns d else Throws).
Proof. intros W. now apply next_difficulty_window. Qed.

(** A chain whose blocks come every [T] seconds at difficulty 1000. *)
Definition steady_ts : list Z := (fun i => 1600000000 + T * Z.of_nat i) <$> seq 0 145.
Definition steady_cds : list Z := (fun i => 1000 * Z.of_nat i) <$> seq 0 145.

Lemma steady_window : window_ok steady_ts steady_cds.
Proof.
  split; [reflexivity | reflexivity | | now vm_compute | now vm_compute].
  apply (bool_decide_unpack (Forall (fits 63) steady_ts)). vm_compute. exact I.
Qed.

Lemma next_difficulty_is_lwma_witness :
  next_difficulty steady_ts steady_cds 1000 = Returns 989.
Proof.
  rewrite (next_difficulty_is_lwma steady_ts steady_cds 1000 steady_window ltac:(lia)).
  vm_compute. reflexivity.
Defined.

(** The step of the difficulty is bounded: whatever timestamps the miners
    of the window chose, the next difficulty is positive, fits 128 bits and is
    between 33/200 and 319/32 (just under ten) times the average difficulty of
    the window. *)
Theorem next_difficulty_step_bounded ts cds HEIGHT d :
  window_ok ts cds -> 279 <= HEIGHT -> next_difficulty ts cds HEIGHT = Returns d ->
  0 < d <= u128_max /\
  average_difficulty cds * 33 / 200 <= d <= average_difficulty cds * 319 / 32.
Proof.
  intros W HH. rewrite (next_difficulty_window _ _ W) by assumption. cbv zeta.
  destruct (_ && _) eqn:E; [|discriminate]. intros [= <-]. to_prop.
  pose proof (average_difficulty_bounds _ _ W) as Ha. pose proof (lwma_weight_bounds _ _ W) as Hw.
  split; [lia|]. unfold lwma_difficulty in *. set (a := average_difficulty cds) in *.
  change (N * (N + 1) * T * 99) with 620136000 in *.
  replace (a * 33 / 200) with (a * 620136000 / 3758400000)
    by (rewrite <- (Z.div_mul_cancel_r (a * 33) 200 18792000) by lia; f_equal; lia).
  replace (a * 319 / 32) with (a * 620136000 / 62208000)
    by (rewrite <- (Z.div_mul_cancel_r (a * 319) 32 1944000) by lia; f_equal; lia).
  split; apply Z.div_le_compat_l; lia.
Qed.

Lemma next_difficulty_step_bounded_witness : average_difficulty steady_cds * 33 / 200 <= 989.
Proof.
  apply (next_difficulty_step_bounded steady_ts steady_cds 1000 989 steady_window); [lia|].
  vm_compute. reflexivity.
Defined.

End Difficulty.
