(* ===== verification/Primality.v ===== *)
(** The order of the group is prime.

    The scalars of the program are residues modulo [L]
    ([src/src/math/ringct/functional/curveConstants.hpp]); that every non-zero
    one has an inverse is what the signatures and range proofs rest on.  The
    primality of [L] is checked here with a chain of Pocklington certificates. *)

From S2P Require Import Prelude.
From Stdlib Require Import Znumtheory.

Module Primality.

(** ** Modular exponentiation *)

Fixpoint powmod_pos (a : Z) (e : positive) (n : Z) : Z :=
  match e with
  | xH => a mod n
  | xO e' => let r := powmod_pos a e' n in (r * r) mod n
  | xI e' => let r := powmod_pos a e' n in (a * ((r * r) mod n)) mod n
  end.

Lemma powmod_pos_spec a e n : powmod_pos a e n = a ^ Zpos e mod n.
Proof.
  induction e as [e IH|e IH|]; cbn [powmod_pos].
  - rewrite IH, <- (Zmult_mod (a ^ Zpos e)), Zmult_mod_idemp_r.
    f_equal. rewrite Pos2Z.inj_xI, Z.pow_add_r, Z.pow_twice_r by lia. ring.
  - rewrite IH, <- Zmult_mod. f_equal. rewrite Pos2Z.inj_xO, Z.pow_twice_r. ring.
  - now rewrite Z.pow_1_r.
Qed.

(** ** The order of an element modulo [p] *)

Section Order.
Context (a p : Z) (Hp : 1 < p).

Definition is_order (d : nat) : Prop :=
  (0 < d)%nat /\ a ^ Z.of_nat d mod p = 1 /\
  forall k, (0 < k < d)%nat -> a ^ Z.of_nat k mod p <> 1.

Lemma order_exists e : 0 < e -> a ^ e mod p = 1 -> exists d, is_order d.
Proof.
  intros He Hone.
  assert (forall n : nat, (exists d, (d <= n)%nat /\ is_order d) \/
            forall k, (0 < k <= n)%nat -> a ^ Z.of_nat k mod p <> 1) as H.
  { induction n as [|n [(d & Hd & Ho)|IH]]; [right; lia|left; exists d; auto|].
    destruct (decide (a ^ Z.of_nat (S n) mod p = 1)) as [E|E].
    - left. exists (S n). split; [lia|]. split; [lia|]. split; [assumption|]. intros k Hk. apply IH. lia.
    - right. intros k Hk. destruct (decide (k = S n)) as [->|]; [assumption|apply IH; lia]. }
  destruct (H (Z.to_nat e)) as [(d & _ & Ho)|Hn]; [eauto|].
  exfalso. apply (Hn (Z.to_nat e)); [lia|]. rewrite Z2Nat.id by lia. assumption.
Qed.

Lemma pow_mod_one x k : 0 <= x -> 0 <= k -> a ^ x mod p = 1 -> a ^ (x * k) mod p = 1.
Proof using Hp.
  intros Hx Hk H. rewrite Z.pow_mul_r, <- Z.mod_pow_l, H, Z.pow_1_l by lia. apply Z.mod_small. lia.
Qed.

Lemma order_divides d k : is_order d -> 0 <= k -> a ^ k mod p = 1 -> (Z.of_nat d | k).
Proof using Hp.
  intros (Hd & H1 & Hmin) Hk Hak. set (D := Z.of_nat d) in *.
  apply Z.mod_divide; [lia|]. pose proof (Z.mod_pos_bound k D ltac:(lia)) as Hr.
  destruct (decide (k mod D = 0)) as [|Hn]; [assumption|]. exfalso.
  apply (Hmin (Z.to_nat (k mod D))); [lia|]. rewrite Z2Nat.id by lia.
  rewrite (Z.div_mod k D), Z.pow_add_r in Hak by (try (apply Z.mul_nonneg_nonneg; [lia|apply Z.div_pos; lia]); lia).
  rewrite Zmult_mod, pow_mod_one in Hak by (try assumption; try (apply Z.div_pos); lia).
  now rewrite Z.mul_1_l, Zmod_mod in Hak.
Qed.

(** The powers below the order are distinct and not zero, so the order is below
    the modulus. *)
Lemma order_lt_modulus d : is_order d -> Z.of_nat d < p.
Proof using Hp.
  intros (Hd & H1 & Hmin).
  assert (Hunit : forall i : nat, (i <= d)%nat -> exists u, (a ^ Z.of_nat i * u) mod p = 1).
  { intros i Hi. exists (a ^ Z.of_nat (d - i)). rewrite <- Z.pow_add_r by lia.
    replace (Z.of_nat i + Z.of_nat (d - i)) with (Z.of_nat d) by lia. assumption. }
  set (f := fun i => a ^ Z.of_nat i mod p).
  assert (Hnd : List.NoDup (map f (seq 0 d))).
  { apply NoDup_ListNoDup, NoDup_alt. intros i j x Hi Hj.
    assert (H : forall i j : nat, (i < j < d)%nat -> f i <> f j).
    { clear i j Hi Hj. intros i j Hij Hf. apply (Hmin (j - i)%nat); [lia|].
      destruct (Hunit i ltac:(lia)) as [u Hu]. unfold f in Hf.
      assert (E : (a ^ Z.of_nat j * u) mod p = 1) by now rewrite <- Zmult_mod_idemp_l, <- Hf, Zmult_mod_idemp_l.
      replace (Z.of_nat j) with (Z.of_nat i + Z.of_nat (j - i)) in E by lia.
      rewrite Z.pow_add_r in E by lia.
      replace (a ^ Z.of_nat i * a ^ Z.of_nat (j - i) * u) with (a ^ Z.of_nat i * u * a ^ Z.of_nat (j - i)) in E by ring.
      now rewrite <- Zmult_mod_idemp_l, Hu, Z.mul_1_l in E. }
    change (map f (seq 0 d)) with (f <$> seq 0 d) in Hi, Hj.
    apply list_lookup_fmap_Some in Hi as (i' & -> & Hi). apply list_lookup_fmap_Some in Hj as (j' & Hx & Hj).
    apply lookup_seq in Hi as [-> Hi], Hj as [-> Hj]. cbn in *.
    destruct (lt_eq_lt_dec i j) as [[Hl|Hl]|Hl]; [|assumption|].
    - exfalso. eapply (H i j); [lia|assumption].
    - exfalso. eapply (H j i); [lia|now symmetry]. }
  assert (Hincl : incl (map f (seq 0 d)) (map Z.of_nat (seq 1 (Z.to_nat (p - 1))))).
  { intros x Hx. apply in_map_iff in Hx as (i & <- & Hi). apply in_seq in Hi.
    apply in_map_iff. exists (Z.to_nat (f i)).
    assert (Hb : 0 <= f i < p) by (apply Z.mod_pos_bound; lia).
    split; [lia|]. apply in_seq.
    assert (f i <> 0); [|lia]. intros Hz. destruct (Hunit i ltac:(lia)) as [u Hu].
    rewrite <- Zmult_mod_idemp_l in Hu. unfold f in Hz. rewrite Hz, Z.mul_0_l, Z.mod_0_l in Hu by lia. lia. }
  pose proof (NoDup_incl_length Hnd Hincl) as Hlen. rewrite !length_map, !length_seq in Hlen. lia.
Qed.

End Order.

(** ** Pocklington's criterion with up to two prime factors of [n - 1] *)

(** [q] is 1 or a prime factor of [n - 1] at which the base [a] is a witness; [u]
    and [v] are Bezout coefficients. *)
Definition certifies (n a q u v : Z) : Prop :=
  q = 1 \/
  (prime q /\ (n - 1) mod q = 0 /\
   (u * (powmod_pos a (Z.to_pos ((n - 1) / q)) n - 1) + v * n) = 1).

Lemma certifies_divides n a q u v p d :
  1 < n -> 1 < p -> (p | n) -> a ^ (n - 1) mod p = 1 ->
  certifies n a q u v -> is_order a p d -> (q | Z.of_nat d).
Proof.
  intros Hn Hp Hpn Hone [->|(Hq & Hmod & Hbez)] Ho; [apply Z.divide_1_l|].
  apply Z.mod_divide in Hmod; [|destruct Hq; lia].
  destruct Hmod as [m Hm]. assert (Hq1 : 1 < q) by now destruct Hq.
  assert (0 < m) by nia.
  assert (Hd : (Z.of_nat d | n - 1)) by (apply (order_divides a p Hp); [assumption|lia|assumption]).
  destruct (Zdivide_dec q (Z.of_nat d)) as [|Hnd]; [assumption|]. exfalso.
  assert (Hrel : rel_prime (Z.of_nat d) q) by now apply rel_prime_sym, prime_rel_prime.
  rewrite Hm, Z.mul_comm in Hd. apply Gauss in Hd; [|assumption].
  destruct Hd as [t Ht]. assert (0 <= t) by (destruct Ho; nia).
  assert (E : a ^ m mod p = 1).
  { rewrite Ht, Z.mul_comm. apply pow_mod_one; [assumption|lia|assumption|]. apply Ho. }
  rewrite Hm, Z.div_mul in Hbez by lia.
  rewrite powmod_pos_spec, Z2Pos.id in Hbez by lia.
  apply (f_equal (fun x => x mod p)) in Hbez. rewrite (Z.mod_small 1) in Hbez by lia.
  destruct Hpn as [c Hc].
  assert (E2 : (a ^ m mod n) mod p = 1).
  { rewrite Hc, Z.mul_comm, <- Znumtheory.Zmod_div_mod; [assumption|lia|nia|]. now exists c; lia. }
  rewrite Hc in Hbez at 2. rewrite (Z.mul_assoc v), Z.mod_add in Hbez by lia.
  rewrite <- Zmult_mod_idemp_r, Zminus_mod, E2 in Hbez.
  rewrite (Z.mod_small 1), Z.sub_diag, Z.mod_0_l, Z.mul_0_r, Z.mod_0_l in Hbez by lia. lia.
Qed.

Lemma pocklington n a q1 u1 v1 q2 u2 v2 :
  1 < n -> powmod_pos a (Z.to_pos (n - 1)) n = 1 ->
  certifies n a q1 u1 v1 -> certifies n a q2 u2 v2 ->
  rel_prime q1 q2 -> 0 < q1 * q2 -> n <= (q1 * q2) * (q1 * q2) -> prime n.
Proof.
  intros Hn Hone C1 C2 Hrel Hpos Hsq.
  rewrite powmod_pos_spec, Z2Pos.id in Hone by lia.
  assert (Hbig : forall p, 1 < p -> (p | n) -> q1 * q2 < p).
  { intros p Hp Hpn.
    assert (Hone' : a ^ (n - 1) mod p = 1).
    { rewrite (Zmod_div_mod p n) by (auto; lia). rewrite Hone. apply Z.mod_small. lia. }
    destruct (order_exists a p (n - 1) ltac:(lia) Hone') as [d Ho].
    pose proof (order_lt_modulus a p Hp d Ho) as Hlt.
    pose proof (certifies_divides n a q1 u1 v1 p d Hn Hp Hpn Hone' C1 Ho) as D1.
    pose proof (certifies_divides n a q2 u2 v2 p d Hn Hp Hpn Hone' C2 Ho) as [t Ht].
    rewrite Ht, Z.mul_comm in D1. apply Gauss in D1; [|assumption]. destruct D1 as [s Hs].
    assert (Z.of_nat d = s * (q1 * q2)) by (rewrite Ht, Hs; ring).
    destruct Ho as [Hd _]. assert (0 < s) by nia. nia. }
  destruct (prime_dec n) as [|Hnp]; [assumption|].
  apply not_prime_divide in Hnp as (p & Hp & c & Hc); [|lia].
  assert (1 < c) by nia.
  pose proof (Hbig p ltac:(lia) ltac:(exists c; lia)).
  pose proof (Hbig c ltac:(lia) ltac:(exists p; lia)). nia.
Qed.

(** ** Trial division for the small factors *)

Lemma prime_trial n m :
  1 < n -> n < m * m -> 0 < m ->
  forallb (fun k => negb (n mod k =? 0)) (seqZ 2 (m - 2)) = true -> prime n.
Proof.
  intros Hn Hm Hm0 Hall. rewrite forallb_forall in Hall.
  assert (H : forall p, 1 < p -> (p | n) -> m <= p).
  { intros p Hp Hd. destruct (Z_lt_le_dec p m) as [Hlt|]; [exfalso|lia].
    specialize (Hall p). rewrite <- list_elem_of_In, elem_of_seqZ in Hall.
    specialize (Hall ltac:(lia)). to_prop. apply Hall, Z.mod_divide; [lia|assumption]. }
  destruct (prime_dec n) as [|Hnp]; [assumption|].
  apply not_prime_divide in Hnp as (p & Hp & c & Hc); [|lia].
  assert (1 < c) by nia.
  pose proof (H p ltac:(lia) ltac:(exists c; lia)). pose proof (H c ltac:(lia) ltac:(exists p; lia)). nia.
Qed.

Lemma prime_1224481 : prime 1224481.
Proof. apply (prime_trial _ 1107); [lia|lia|lia|vm_compute; reflexivity]. Qed.

Lemma prime_531581 : prime 531581.
Proof. apply (prime_trial _ 730); [lia|lia|lia|vm_compute; reflexivity]. Qed.

(** ** The chain of certificates *)

(** [rct::L], the order of the prime-order subgroup of edwards25519. *)
Definition L : Z := 2 ^ 252 + 27742317777372353535851937790883648493.

Lemma prime_5 : prime 1257559732178653.
Proof.
  apply (pocklington _ 2
    1224481
    (-466659544684812)
    (464870912375773)
    531581 (212927577457398) (-192995844966701)).
  - reflexivity.
  - vm_compute. reflexivity.
  - right. split; [exact prime_1224481|]. split; vm_compute; reflexivity.
  - right. split; [exact prime_531581|]. split; vm_compute; reflexivity.
  - apply Zgcd_1_rel_prime. vm_compute. reflexivity.
  - reflexivity.
  - vm_compute. discriminate.
Qed.

Lemma prime_4 : prime 4434155615661930479.
Proof.
  apply (pocklington _ 2
    1257559732178653
    (1010501025739283171)
    (-94754006754933215)
    1 (0) (0)).
  - reflexivity.
  - vm_compute. reflexivity.
  - right. split; [exact prime_5|]. split; vm_compute; reflexivity.
  - now left.
  - apply Zgcd_1_rel_prime. vm_compute. reflexivity.
  - reflexivity.
  - vm_compute. discriminate.
Qed.

Lemma prime_3 : prime 172054593956031949258510691.
Proof.
  apply (pocklington _ 2
    4434155615661930479
    (-17779243434318459953124787)
    (8471625932319896702492053)
    1 (0) (0)).
  - reflexivity.
  - vm_compute. reflexivity.
  - right. split; [exact prime_4|]. split; vm_compute; reflexivity.
  - now left.
  - apply Zgcd_1_rel_prime. vm_compute. reflexivity.
  - reflexivity.
  - vm_compute. discriminate.
Qed.

Lemma prime_2 : prime 19757330305831588566944191468367130476339.
Proof.
  apply (pocklington _ 2
    172054593956031949258510691
    (-3385675872469944473147229741170731090145)
    (1567758921019043986448917253982060556964)
    1 (0) (0)).
  - reflexivity.
  - vm_compute. reflexivity.
  - right. split; [exact prime_3|]. split; vm_compute; reflexivity.
  - now left.
  - apply Zgcd_1_rel_prime. vm_compute. reflexivity.
  - reflexivity.
  - vm_compute. discriminate.
Qed.

Lemma prime_1 : prime 276602624281642239937218680557139826668747.
Proof.
  apply (pocklington _ 2
    19757330305831588566944191468367130476339
    (94074944912245044309966580483695483989395)
    (-5572)
    1 (0) (0)).
  - reflexivity.
  - vm_compute. reflexivity.
  - right. split; [exact prime_2|]. split; vm_compute; reflexivity.
  - now left.
  - apply Zgcd_1_rel_prime. vm_compute. reflexivity.
  - reflexivity.
  - vm_compute. discriminate.
Qed.

Lemma prime_L : prime L.
Proof.
  apply (pocklington _ 2
    276602624281642239937218680557139826668747
    (2233364593245673852815932892735013076939656528578070433728021143254617821614)
    (-918259049265850385831298250211759012539362291049224222049079815310237912731)
    1 (0) (0)).
  - reflexivity.
  - vm_compute. reflexivity.
  - right. split; [exact prime_1|]. split; vm_compute; reflexivity.
  - now left.
  - apply Zgcd_1_rel_prime. vm_compute. reflexivity.
  - reflexivity.
  - vm_compute. discriminate.
Qed.

End Primality.
