(* ===== verification/Group.v ===== *)
(** The group and scalar arithmetic
    ([src/src/math/group/functional/group.cpp] and
    [curve25519_cryptonote_extension.cpp]).

    The curve operations are libsodium's and the vendored [crypto-ops.c]'s; they
    are the operations of the class [Sodium].  A [crypto_data] (32 bytes) is the
    256-bit integer its bytes denote, least significant first. *)

From S2P Require Import Prelude Primality.
From Stdlib Require Import Znumtheory.

Abbreviation crypto_data := Z.
Abbreviation ec_point := Z.
Abbreviation ec_point_unsafe := Z.
Abbreviation ec_scalar := Z.
Abbreviation ec_scalar_unnormalized := Z.

(** [crypto_data::blob] *)
Definition data_blob (x : crypto_data) : blob := le_bytes 32 x.

(** The functions of <sodium.h> the program calls, each with its return code and
    the buffer it leaves, and the stages of [crypto-ops.h]. *)
Class Sodium := {
  crypto_core_ed25519_add : ec_point -> ec_point -> Z * ec_point;
  crypto_core_ed25519_sub : ec_point -> ec_point -> Z * ec_point;
  crypto_core_ed25519_is_valid_point : ec_point -> Z;
  crypto_scalarmult_ed25519_noclamp : ec_scalar -> ec_point -> Z * ec_point;
  crypto_scalarmult_ed25519_base_noclamp : ec_scalar -> Z * ec_point;
  crypto_core_ed25519_scalar_add : ec_scalar -> ec_scalar -> ec_scalar;
  crypto_core_ed25519_scalar_sub : ec_scalar -> ec_scalar -> ec_scalar;
  crypto_core_ed25519_scalar_mul : ec_scalar -> ec_scalar -> ec_scalar;
  crypto_core_ed25519_scalar_invert : ec_scalar -> Z * ec_scalar;
  crypto_core_ed25519_scalar_reduce : Z -> ec_scalar;
  ge_p3 : Type; ge_p2 : Type; ge_p1p1 : Type;
  ge_frombytes_vartime : crypto_data -> ge_p3;
  ge_fromfe_frombytes_vartime : crypto_data -> ge_p2;
  ge_p3_to_p2 : ge_p3 -> ge_p2;
  ge_mul8 : ge_p2 -> ge_p1p1;
  ge_p1p1_to_p2 : ge_p1p1 -> ge_p2;
  ge_tobytes : ge_p2 -> crypto_data;
}.

Definition s_0 : ec_scalar := 0.
Definition s_1 : ec_scalar := 1.
Definition s_2 : ec_scalar := 2.
Definition s_8 : ec_scalar := 8.
Definition identity : ec_point := 1.
Definition generator : ec_point :=
  0x6666666666666666666666666666666666666666666666666666666666666658.

(** [rct::H], [rct::L] and the other constants of [curveConstants.hpp] *)
Definition H_point : ec_point :=
  0x941f9cd30d3a172ca9cf5441d551726cead0adf19fdcea2aaf9937157059658b.
Definition L : Z := Primality.L.
Definition INV_EIGHT : ec_scalar :=
  0x0600000000000000000000000000000007d39db37d1cdad06106e529e2dc2f79.
Definition MINUS_ONE : ec_scalar :=
  0x1000000000000000000000000000000014def9dea2f79cd65812631a5cf5d3ec.
Definition MINUS_INV_EIGHT : ec_scalar :=
  0x0a0000000000000000000000000000000d0b5c2b25dac205f70b7df07a19a474.

Section Operations.
Context `{Sodium}.

(** [add], [ec_point::operator+]: a failure is only logged. *)
Definition add (X Y : ec_point) : ec_point :=
  let '(r, p) := crypto_core_ed25519_add X Y in p.

(** [sub], [ec_point::operator-] *)
Definition sub (X Y : ec_point) : ec_point :=
  let '(r, p) := crypto_core_ed25519_sub X Y in p.

(** [mult], [ec_point::operator^] *)
Definition mult (a : ec_scalar) (X : ec_point) : ec_point :=
  if a =? s_0 then identity
  else let '(r, x) := crypto_scalarmult_ed25519_noclamp a X in x.

(** [ec_scalar::operator+], [operator-], [operator*] *)
Definition scalar_add (x y : ec_scalar) : ec_scalar := crypto_core_ed25519_scalar_add x y.
Definition scalar_sub (x y : ec_scalar) : ec_scalar := crypto_core_ed25519_scalar_sub x y.
Definition scalar_mul (x y : ec_scalar) : ec_scalar := crypto_core_ed25519_scalar_mul x y.

Definition order_minus_1 : ec_scalar := scalar_sub s_0 s_1.

Definition is_safe_point (x : ec_point_unsafe) : bool :=
  negb (crypto_core_ed25519_is_valid_point x =? 0).

Definition is_valid_group_element (x : ec_point_unsafe) : bool :=
  (x =? identity) || is_safe_point x.

Definition multBase (x : ec_scalar) : ec_point :=
  let '(r, p) := crypto_scalarmult_ed25519_base_noclamp x in p.

Definition mult8 (X : ec_point) : ec_point := mult s_8 X.

Definition multiplicative_inverse (x : ec_scalar) : ec_scalar :=
  let '(rc, r) := crypto_core_ed25519_scalar_invert x in r.

(** [reduce]: the 64-byte input is the scalar and 32 zero bytes. *)
Definition reduce (x : ec_scalar_unnormalized) : ec_scalar :=
  crypto_core_ed25519_scalar_reduce (le_Z (data_blob x ++ replicate 32 0)).

Definition is_reduced (x : ec_scalar_unnormalized) : bool := reduce x =? x.
Definition is_not_reduced (x : ec_scalar_unnormalized) : bool := negb (is_reduced x).

Definition maybeSafePoint (x : ec_point_unsafe) : option ec_point :=
  if is_safe_point x then Some x else None.

(** [int_to_scalar] and [scalar_to_int] copy the low eight bytes. *)
Definition int_to_scalar (x : Z) : ec_scalar := le_Z (le_bytes 8 x ++ replicate 24 0).
Definition scalar_to_int (x : ec_scalar) : Z := le_Z (take 8 (data_blob x)).

(** [mult8_fast], [viaField], [viaFieldMult8] *)
Definition mult8_fast (X : ec_point_unsafe) : ec_point :=
  let p3_in := ge_frombytes_vartime X in
  let p2_in := ge_p3_to_p2 p3_in in
  let p1_8 := ge_mul8 p2_in in
  let p2_out := ge_p1p1_to_p2 p1_8 in
  ge_tobytes p2_out.
Definition viaField (x : crypto_data) : ec_point_unsafe :=
  ge_tobytes (ge_fromfe_frombytes_vartime x).
Definition viaFieldMult8 (x : crypto_data) : ec_point := mult8_fast (viaField x).

End Operations.

Infix "+ₚ" := add (at level 50, left associativity) : Z_scope.
Infix "-ₚ" := sub (at level 50, left associativity) : Z_scope.
Notation "X ^ₚ s" := (mult s X) (at level 30, right associativity) : Z_scope.
Infix "+ₛ" := scalar_add (at level 50, left associativity) : Z_scope.
Infix "-ₛ" := scalar_sub (at level 50, left associativity) : Z_scope.
Infix "*ₛ" := scalar_mul (at level 40, left associativity) : Z_scope.

(** ** Congruence modulo [L] *)

Definition eqL (a b : Z) : Prop := a mod L = b mod L.
Infix "≡ₗ" := eqL (at level 70, no associativity) : Z_scope.

Lemma L_pos : 0 < L.
Proof. reflexivity. Qed.

Lemma L_fits : L < 2 ^ 253.
Proof. reflexivity. Qed.

#[export] Instance eqL_equiv : Equivalence eqL.
Proof. unfold eqL. split; repeat intro; congruence. Qed.

#[export] Instance eqL_add : Proper (eqL ==> eqL ==> eqL) Z.add.
Proof. intros a b E c d F. unfold eqL in *. rewrite Zplus_mod, E, F, <- Zplus_mod. reflexivity. Qed.

#[export] Instance eqL_sub : Proper (eqL ==> eqL ==> eqL) Z.sub.
Proof. intros a b E c d F. unfold eqL in *. rewrite Zminus_mod, E, F, <- Zminus_mod. reflexivity. Qed.

#[export] Instance eqL_mul : Proper (eqL ==> eqL ==> eqL) Z.mul.
Proof. intros a b E c d F. unfold eqL in *. rewrite Zmult_mod, E, F, <- Zmult_mod. reflexivity. Qed.

#[export] Instance eqL_opp : Proper (eqL ==> eqL) Z.opp.
Proof. intros a b E. rewrite <- !Z.sub_0_l. now rewrite E. Qed.

#[export] Instance eqL_dec a b : Decision (a ≡ₗ b).
Proof. unfold eqL. apply _. Defined.

Lemma eq_eqL a b : a = b -> a ≡ₗ b.
Proof. now intros ->. Qed.

Lemma eqL_mod a : a mod L ≡ₗ a.
Proof. apply Zmod_mod. Qed.

Lemma eqL_L : L ≡ₗ 0.
Proof. reflexivity. Qed.

(** Scalars the program handles are reduced. *)
Definition scalar_ok (x : Z) : Prop := 0 <= x < L.

Lemma scalar_mod_ok a : scalar_ok (a mod L).
Proof. apply Z.mod_pos_bound, L_pos. Qed.

Lemma eqL_scalar a b : scalar_ok a -> scalar_ok b -> a ≡ₗ b -> a = b.
Proof. unfold eqL, scalar_ok. intros. rewrite !Z.mod_small in *; assumption. Qed.

Lemma scalar_nonzero a : scalar_ok a -> a <> 0 -> ~ a ≡ₗ 0.
Proof. intros Ha Hn E. apply Hn, eqL_scalar; auto. split; [lia|apply L_pos]. Qed.

Lemma eqL_prime a b : a * b ≡ₗ 0 -> a ≡ₗ 0 \/ b ≡ₗ 0.
Proof.
  unfold eqL. rewrite !Z.mod_0_l by discriminate. intros E. apply Z.mod_divide in E; [|discriminate].
  apply prime_mult in E as [E|E]; [left|right|exact Primality.prime_L];
    now apply Z.mod_divide.
Qed.

Lemma eqL_mul_nonzero a b : ~ a ≡ₗ 0 -> ~ b ≡ₗ 0 -> ~ a * b ≡ₗ 0.
Proof. intros Ha Hb E. destruct (eqL_prime _ _ E); contradiction. Qed.

Lemma eqL_cancel a b c : ~ c ≡ₗ 0 -> c * a ≡ₗ c * b -> a ≡ₗ b.
Proof.
  intros Hc E. destruct (eqL_prime c (a - b)) as [|E']; [|contradiction|].
  - replace (c * (a - b)) with (c * a - c * b) by ring. rewrite E, Z.sub_diag. reflexivity.
  - replace a with (a - b + b) by ring. rewrite E'. reflexivity.
Qed.

Lemma L_inverse a : ~ a ≡ₗ 0 -> exists b, a * b ≡ₗ 1.
Proof.
  intros Ha. assert (Hr : rel_prime L a).
  { apply prime_rel_prime; [exact Primality.prime_L|]. intros Hd. apply Ha. unfold eqL.
    rewrite Z.mod_0_l by discriminate. apply Z.mod_divide; [discriminate|assumption]. }
  apply rel_prime_bezout in Hr as [u v E]. exists v.
  transitivity (u * L + v * a); [|now rewrite E].
  rewrite eqL_L. apply eq_eqL. ring.
Qed.

(** ** What the libraries promise

    [enc k] is the encoding of the [k]-th multiple of the base point.  The laws
    cover exactly the calls libsodium documents as successful: multiplication by
    a non-zero scalar of a point that is not the identity. *)
Class SodiumLaws `{Sodium} := {
  enc : Z -> ec_point;
  enc_proper : Proper (eqL ==> eq) enc;
  enc_inj j k : enc j = enc k -> j ≡ₗ k;
  enc_fits k : fits 256 (enc k);
  enc_0 : enc 0 = identity;
  enc_1 : enc 1 = generator;
  sodium_add a b : crypto_core_ed25519_add (enc a) (enc b) = (0, enc (a + b));
  sodium_sub a b : crypto_core_ed25519_sub (enc a) (enc b) = (0, enc (a - b));
  sodium_scalarmult s a : 0 < s < L -> ~ a ≡ₗ 0 ->
    crypto_scalarmult_ed25519_noclamp s (enc a) = (0, enc (s * a));
  sodium_scalarmult_base s : 0 < s < L ->
    crypto_scalarmult_ed25519_base_noclamp s = (0, enc s);
  sodium_valid x : crypto_core_ed25519_is_valid_point x = 1 <-> exists k, ~ k ≡ₗ 0 /\ x = enc k;
  sodium_valid_code x : crypto_core_ed25519_is_valid_point x = 0 \/
                        crypto_core_ed25519_is_valid_point x = 1;
  sodium_scalar_add x y : fits 256 x -> fits 256 y -> crypto_core_ed25519_scalar_add x y = (x + y) mod L;
  sodium_scalar_sub x y : fits 256 x -> fits 256 y -> crypto_core_ed25519_scalar_sub x y = (x - y) mod L;
  sodium_scalar_mul x y : fits 256 x -> fits 256 y -> crypto_core_ed25519_scalar_mul x y = (x * y) mod L;
  sodium_scalar_invert x : 0 < x < L -> exists y,
    crypto_core_ed25519_scalar_invert x = (0, y) /\ scalar_ok y /\ x * y ≡ₗ 1;
  sodium_scalar_reduce x : 0 <= x < 2 ^ 512 -> crypto_core_ed25519_scalar_reduce x = x mod L;
  H_valid : crypto_core_ed25519_is_valid_point H_point = 1;
  ge_mult8 k : mult8_fast (enc k) = enc (8 * k);
  ge_viaFieldMult8 x : exists k, viaFieldMult8 x = enc k;
}.
#[export] Existing Instance enc_proper.

Lemma scalar_ok_fits x : scalar_ok x -> fits 256 x.
Proof. unfold scalar_ok, fits. pose proof L_fits. assert (2 ^ 253 < 2 ^ 256) by reflexivity. lia. Qed.
Lemma scalar_ok_0 : scalar_ok 0.
Proof. split; [lia|apply L_pos]. Qed.
Lemma scalar_ok_1 : scalar_ok 1.
Proof. split; [lia|reflexivity]. Qed.
Lemma scalar_ok_small x : fits 64 x -> scalar_ok x.
Proof. unfold fits, scalar_ok. assert (2 ^ 64 < L) by reflexivity. lia. Qed.

#[export] Hint Resolve scalar_ok_fits scalar_mod_ok scalar_ok_0 scalar_ok_1 scalar_ok_small : machine.

Section Laws.
Context `{SL : SodiumLaws}.

Lemma add_enc a b : enc a +ₚ enc b = enc (a + b).
Proof. unfold add. now rewrite sodium_add. Qed.
Lemma sub_enc a b : enc a -ₚ enc b = enc (a - b).
Proof. unfold sub. now rewrite sodium_sub. Qed.

Lemma enc_eq j k : enc j = enc k <-> j ≡ₗ k.
Proof. split; [apply enc_inj|]. intros E. now rewrite E. Qed.

Lemma enc_mod k : enc (k mod L) = enc k.
Proof. now rewrite eqL_mod. Qed.

(** Multiplication is right unless a non-zero scalar meets the identity. *)
Lemma mult_enc s a : scalar_ok s -> s = 0 \/ ~ a ≡ₗ 0 -> enc a ^ₚ s = enc (s * a).
Proof.
  intros Hs Ha. unfold mult. change s_0 with 0. case_if; to_prop.
  - subst. rewrite Z.mul_0_l. symmetry. apply enc_0.
  - destruct Ha as [|Ha]; [contradiction|]. unfold scalar_ok in Hs.
    rewrite sodium_scalarmult by (auto; lia). reflexivity.
Qed.

Lemma multBase_enc s : scalar_ok s -> s <> 0 -> multBase s = enc s.
Proof. intros Hs Hn. unfold multBase, scalar_ok in *. rewrite sodium_scalarmult_base by lia. reflexivity. Qed.

Lemma is_safe_point_enc k : is_safe_point (enc k) = bool_decide (~ k ≡ₗ 0).
Proof.
  unfold is_safe_point. destruct (decide (k ≡ₗ 0)) as [Hk|Hk].
  - rewrite bool_decide_eq_false_2 by auto. apply negb_false_iff, Z.eqb_eq.
    destruct (sodium_valid_code (enc k)) as [|E]; [assumption|].
    apply sodium_valid in E as (j & Hj & E). apply enc_inj in E. rewrite <- E in Hj. contradiction.
  - rewrite bool_decide_eq_true_2 by auto. apply negb_true_iff, Z.eqb_neq.
    assert (E : crypto_core_ed25519_is_valid_point (enc k) = 1) by (apply sodium_valid; eauto).
    rewrite E. discriminate.
Qed.

Lemma is_safe_point_spec x : is_safe_point x = true <-> exists k, ~ k ≡ₗ 0 /\ x = enc k.
Proof.
  unfold is_safe_point. rewrite negb_true_iff, Z.eqb_neq, <- sodium_valid.
  destruct (sodium_valid_code x) as [->| ->]; split; congruence.
Qed.

Lemma maybeSafePoint_enc k : ~ k ≡ₗ 0 -> maybeSafePoint (enc k) = Some (enc k).
Proof. intros Hk. unfold maybeSafePoint. rewrite is_safe_point_enc, bool_decide_eq_true_2 by auto. reflexivity. Qed.

Lemma maybeSafePoint_Some x y : maybeSafePoint x = Some y -> x = y /\ exists k, ~ k ≡ₗ 0 /\ y = enc k.
Proof.
  unfold maybeSafePoint. destruct (is_safe_point x) eqn:E; [|discriminate]. intros [= ->].
  split; [reflexivity|]. now apply is_safe_point_spec.
Qed.

Lemma H_enc : exists h, ~ h ≡ₗ 0 /\ H_point = enc h.
Proof. apply sodium_valid, H_valid. Qed.

Lemma scalar_add_ok x y : scalar_ok x -> scalar_ok y -> x +ₛ y = (x + y) mod L.
Proof. intros. apply sodium_scalar_add; auto with machine. Qed.
Lemma scalar_sub_ok x y : scalar_ok x -> scalar_ok y -> x -ₛ y = (x - y) mod L.
Proof. intros. apply sodium_scalar_sub; auto with machine. Qed.
Lemma scalar_mul_ok x y : scalar_ok x -> scalar_ok y -> x *ₛ y = (x * y) mod L.
Proof. intros. apply sodium_scalar_mul; auto with machine. Qed.

Lemma scalar_add_closed x y : scalar_ok x -> scalar_ok y -> scalar_ok (x +ₛ y).
Proof. intros. rewrite scalar_add_ok; auto with machine. Qed.
Lemma scalar_sub_closed x y : scalar_ok x -> scalar_ok y -> scalar_ok (x -ₛ y).
Proof. intros. rewrite scalar_sub_ok; auto with machine. Qed.
Lemma scalar_mul_closed x y : scalar_ok x -> scalar_ok y -> scalar_ok (x *ₛ y).
Proof. intros. rewrite scalar_mul_ok; auto with machine. Qed.

Lemma scalar_add_eqL x y : scalar_ok x -> scalar_ok y -> x +ₛ y ≡ₗ x + y.
Proof. intros. rewrite scalar_add_ok by auto. apply eqL_mod. Qed.
Lemma scalar_sub_eqL x y : scalar_ok x -> scalar_ok y -> x -ₛ y ≡ₗ x - y.
Proof. intros. rewrite scalar_sub_ok by auto. apply eqL_mod. Qed.
Lemma scalar_mul_eqL x y : scalar_ok x -> scalar_ok y -> x *ₛ y ≡ₗ x * y.
Proof. intros. rewrite scalar_mul_ok by auto. apply eqL_mod. Qed.

Lemma multiplicative_inverse_ok x :
  scalar_ok x -> x <> 0 -> scalar_ok (multiplicative_inverse x) /\ x * multiplicative_inverse x ≡ₗ 1.
Proof.
  intros Hx Hn. unfold multiplicative_inverse. unfold scalar_ok in Hx.
  destruct (sodium_scalar_invert x ltac:(lia)) as (y & -> & Hy & E). auto.
Qed.

Lemma reduce_ok x : fits 256 x -> reduce x = x mod L.
Proof.
  intros Hx. unfold reduce, data_blob.
  rewrite (le_val_app 256), length_le_bytes, le_Z_bytes_small by exact Hx.
  change (le_Z (replicate 32 0)) with 0. rewrite Z.mul_0_r, Z.add_0_r.
  apply sodium_scalar_reduce. unfold fits in Hx. assert (2 ^ 256 < 2 ^ 512) by reflexivity. lia.
Qed.

Lemma reduce_closed x : fits 256 x -> scalar_ok (reduce x).
Proof. intros. rewrite reduce_ok; auto with machine. Qed.

Lemma is_reduced_spec x : fits 256 x -> is_reduced x = true <-> scalar_ok x.
Proof.
  intros Hx. unfold is_reduced. rewrite reduce_ok, Z.eqb_eq by assumption. split.
  - intros <-. apply scalar_mod_ok.
  - intros. now apply Z.mod_small.
Qed.

End Laws.

#[export] Hint Resolve scalar_add_closed scalar_sub_closed scalar_mul_closed reduce_closed : machine.

Lemma int_to_scalar_small x : fits 64 x -> int_to_scalar x = x.
Proof.
  intros Hx. unfold int_to_scalar.
  rewrite (le_val_app 256), length_le_bytes, le_Z_bytes_small by exact Hx.
  change (le_Z (replicate 24 0)) with 0. lia.
Qed.

Lemma scalar_to_int_wrap x : fits 256 x -> scalar_to_int x = wrap 64 x.
Proof.
  intros Hx. unfold scalar_to_int, data_blob, wrap.
  change 32%nat with (8 + 24)%nat.
  assert (E : forall n m y, take n (le_bytes (n + m) y) = le_bytes n y).
  { induction n as [|n IH]; intros m y; cbn; [reflexivity|]. now rewrite IH. }
  rewrite E, (le_val_digits 256) by lia. reflexivity.
Qed.

Lemma s_minus_one_ok : MINUS_ONE = L - 1.
Proof. reflexivity. Qed.
Lemma inv_eight_ok : 8 * INV_EIGHT ≡ₗ 1 /\ scalar_ok INV_EIGHT.
Proof. vm_compute. repeat split; congruence. Qed.
Lemma minus_inv_eight_ok : 8 * MINUS_INV_EIGHT ≡ₗ -1 /\ scalar_ok MINUS_INV_EIGHT.
Proof. vm_compute. repeat split; congruence. Qed.
