(* ===== verification/ModelGroup.v ===== *)
(** A concrete group that satisfies the laws of [Group.SodiumLaws].

    The multiples of the base point are numbered by the residues modulo [L], and
    a number is encoded so that the identity, the base point and [H] have the
    bytes the program gives them.  The theorems that assume the laws are
    evaluated on this instance. *)

From S2P Require Import Prelude Primality Group.
From Stdlib Require Import Znumtheory.

Module ModelGroup.

Definition encode (k : Z) : Z :=
  let r := k mod L in
  if r =? 0 then identity else if r =? 1 then generator else H_point - 2 + r.

Definition decode (x : Z) : option Z :=
  if x =? identity then Some 0
  else if x =? generator then Some 1
  else if (H_point <=? x) && (x <? H_point - 2 + L) then Some (x - H_point + 2)
  else None.

Definition decoded (x : Z) : Z := default 0 (decode x).

(** Inversion by the extended Euclidean algorithm. *)
Fixpoint egcd (fuel : nat) (r0 s0 r1 s1 : Z) : Z :=
  match fuel with
  | O => s0
  | S f => if r1 =? 0 then s0 else egcd f r1 s1 (r0 mod r1) ((s0 - r0 / r1 * s1) mod L)
  end.
Definition inverse (x : Z) : Z := egcd 512 L 0 x 1.

#[export] Instance model_sodium : Sodium := {|
  crypto_core_ed25519_add x y := (0, encode (decoded x + decoded y));
  crypto_core_ed25519_sub x y := (0, encode (decoded x - decoded y));
  crypto_core_ed25519_is_valid_point x :=
    match decode x with Some k => if k =? 0 then 0 else 1 | None => 0 end;
  crypto_scalarmult_ed25519_noclamp s x := (0, encode (s * decoded x));
  crypto_scalarmult_ed25519_base_noclamp s := (0, encode s);
  crypto_core_ed25519_scalar_add x y := (x + y) mod L;
  crypto_core_ed25519_scalar_sub x y := (x - y) mod L;
  crypto_core_ed25519_scalar_mul x y := (x * y) mod L;
  crypto_core_ed25519_scalar_invert x := (0, inverse x);
  crypto_core_ed25519_scalar_reduce x := x mod L;
  ge_p3 := Z; ge_p2 := Z; ge_p1p1 := Z;
  ge_frombytes_vartime x := decoded x;
  ge_fromfe_frombytes_vartime x := 3 + x mod 1000;
  ge_p3_to_p2 x := x;
  ge_mul8 x := 8 * x;
  ge_p1p1_to_p2 x := x;
  ge_tobytes x := encode x
|}.

Lemma constants_order : identity < generator /\ generator < H_point /\ H_point + L < 2 ^ 256.
Proof. vm_compute. auto. Qed.

Lemma decode_encode k : decode (encode k) = Some (k mod L).
Proof.
  destruct constants_order as (H1 & H2 & H3). pose proof (scalar_mod_ok k) as Hr.
  unfold encode, decode, scalar_ok in *. generalize dependent (k mod L). intros r Hr.
  generalize dependent L. intros l H3 Hr. generalize dependent H_point. intros h H2 H3.
  generalize dependent generator. intros g H1 H2. generalize dependent identity. intros i H1.
  destruct (r =? 0) eqn:E0; to_prop; subst; [now rewrite Z.eqb_refl|].
  destruct (r =? 1) eqn:E1; to_prop; subst.
  - rewrite (proj2 (Z.eqb_neq g i)), Z.eqb_refl by lia. reflexivity.
  - rewrite (proj2 (Z.eqb_neq _ i)), (proj2 (Z.eqb_neq _ g)), (proj2 (Z.leb_le h _)), (proj2 (Z.ltb_lt _ _))
      by lia. cbn [andb]. f_equal. lia.
Qed.

Lemma encode_decode x k : decode x = Some k -> x = encode k /\ scalar_ok k.
Proof.
  destruct constants_order as (H1 & H2 & H3). pose proof L_pos as Hl.
  assert (Hl1 : 1 < L) by reflexivity.
  unfold decode. destruct (x =? identity) eqn:E1; to_prop; [intros [= <-]; split; [subst; reflexivity|auto with machine]|].
  destruct (x =? generator) eqn:E2; to_prop; [intros [= <-]; split; [subst; reflexivity|auto with machine]|].
  destruct (_ && _) eqn:E3; [|discriminate]. intros [= <-]. to_prop.
  assert (Hk : scalar_ok (x - H_point + 2)) by (unfold scalar_ok; lia). split; [|assumption].
  unfold encode. unfold scalar_ok in Hk. rewrite Z.mod_small by assumption.
  rewrite (proj2 (Z.eqb_neq _ 0)), (proj2 (Z.eqb_neq _ 1)) by lia. lia.
Qed.

Lemma decoded_encode k : decoded (encode k) ≡ₗ k.
Proof. unfold decoded. rewrite decode_encode. cbn. apply eqL_mod. Qed.

Lemma encode_proper : Proper (eqL ==> eq) encode.
Proof. intros a b E. unfold encode. now rewrite E. Qed.
#[local] Existing Instance encode_proper.

Lemma encode_fits k : fits 256 (encode k).
Proof.
  destruct constants_order as (H1 & H2 & H3). pose proof (scalar_mod_ok k) as Hr.
  assert (0 <= identity) by discriminate. unfold encode, scalar_ok, fits in *.
  repeat case_if; lia.
Qed.

Lemma egcd_correct x n r0 s0 r1 s1 :
  0 <= r1 < r0 -> r0 * r1 < 2 ^ Z.of_nat n -> s0 * x ≡ₗ r0 -> s1 * x ≡ₗ r1 ->
  Z.gcd r0 r1 = 1 -> scalar_ok s0 -> scalar_ok s1 ->
  scalar_ok (egcd n r0 s0 r1 s1) /\ egcd n r0 s0 r1 s1 * x ≡ₗ 1.
Proof.
  revert r0 s0 r1 s1; induction n as [|n IH]; intros r0 s0 r1 s1 Hr Hn E0 E1 Hg O0 O1; cbn [egcd].
  - cbn in Hn. assert (r1 = 0) as -> by nia. rewrite Z.gcd_0_r, Z.abs_eq in Hg by lia. subst. auto.
  - destruct (r1 =? 0) eqn:Ez; to_prop.
    + subst. rewrite Z.gcd_0_r, Z.abs_eq in Hg by lia. subst. auto.
    + pose proof (Z.mod_pos_bound r0 r1 ltac:(lia)) as Hm. pose proof (Z.div_mod r0 r1 Ez) as Hdm.
      apply IH; auto with machine.
      * rewrite pow_S in Hn. assert (1 <= r0 / r1) by (apply Z.div_le_lower_bound; lia). nia.
      * rewrite eqL_mod. replace ((s0 - r0 / r1 * s1) * x) with (s0 * x - r0 / r1 * (s1 * x)) by ring.
        rewrite E0, E1. apply eq_eqL. lia.
      * rewrite Z.gcd_comm, Z.gcd_mod by lia. now rewrite Z.gcd_comm.
Qed.

Lemma inverse_correct x : 0 < x < L -> scalar_ok (inverse x) /\ x * inverse x ≡ₗ 1.
Proof.
  intros Hx. unfold inverse. rewrite (Z.mul_comm x). apply egcd_correct; auto with machine.
  - lia.
  - pose proof L_fits. assert (2 ^ 253 * 2 ^ 253 < 2 ^ Z.of_nat 512) by reflexivity. nia.
  - rewrite eqL_L. reflexivity.
  - apply eq_eqL. lia.
  - apply Zgcd_1_rel_prime, prime_rel_prime; [exact Primality.prime_L|].
    intros Hd%Z.divide_pos_le; unfold L in *; lia.
Qed.

#[export] Instance model_sodium_laws : SodiumLaws.
Proof.
  refine {| enc := encode; enc_proper := encode_proper |}.
  - intros j k E. apply (f_equal decode) in E. rewrite !decode_encode in E. now injection E.
  - exact encode_fits.
  - reflexivity.
  - reflexivity.
  - intros a b. cbn. now rewrite !decoded_encode.
  - intros a b. cbn. now rewrite !decoded_encode.
  - intros s a Hs Ha. cbn. now rewrite decoded_encode.
  - reflexivity.
  - intros x. cbn. split.
    + destruct (decode x) as [k|] eqn:E; [|discriminate]. destruct (k =? 0) eqn:Ek; [discriminate|].
      to_prop. intros _. apply encode_decode in E as [-> Hk]. exists k. split; [|reflexivity].
      now apply scalar_nonzero.
    + intros (k & Hk & ->). rewrite decode_encode. destruct (k mod L =? 0) eqn:Ek; [|reflexivity].
      to_prop. contradict Hk. exact Ek.
  - intros x. cbn. destruct (decode x) as [k|]; [destruct (k =? 0)|]; auto.
  - reflexivity.
  - reflexivity.
  - reflexivity.
  - intros x Hx. exists (inverse x). split; [reflexivity|]. now apply inverse_correct.
  - reflexivity.
  - vm_compute. reflexivity.
  - intros k. cbn. now rewrite decoded_encode.
  - intros x. cbn. eexists. reflexivity.
Defined.

(** Hashing to the model group never meets the identity. *)
Lemma model_viaFieldMult8 x : viaFieldMult8 x <> identity.
Proof.
  unfold viaFieldMult8, viaField, mult8_fast. cbn. rewrite decoded_encode.
  change identity with (encode 0). intros E%(f_equal decode). rewrite !decode_encode in E.
  injection E as E. pose proof (Z.mod_pos_bound x 1000 ltac:(lia)).
  assert (8100 < L) by reflexivity. rewrite (Z.mod_small (8 * _) L), (Z.mod_small 0 L) in E by lia. lia.
Qed.

End ModelGroup.
