(* ===== verification/Key.v ===== *)
(** Keys, shared secrets and subaddresses
    ([src/src/math/crypto/functional/key.cpp],
    [src/src/math/blockchain/functional/subaddress.cpp]). *)

From S2P Require Import Prelude Hash Config Varint Primality Group ModelGroup.

Abbreviation secret_key := Z.
Abbreviation public_key := Z.
Abbreviation ecdh_shared_secret := Z.
Abbreviation key_image := Z.

(** The casts of [key.hpp] reinterpret the same 32 bytes. *)
Definition h2d (x : hash) : crypto_data := le_Z x.

Module Key.
Import Config.

Definition null_pkey : public_key := 0.

(** [compare_3way] on the bytes of two keys. *)
Fixpoint compare_3way (a b : blob) : comparison :=
  match a, b with
  | x :: a', y :: b' =>
      if x <? y then Lt else if y <? x then Gt else compare_3way a' b'
  | _, _ => Eq
  end.

Section Keys.
Context `{Sha3} `{Sodium}.

Definition to_pk (sk : secret_key) : public_key := multBase sk.

(** [crypto::hash_to_scalar] *)
Definition hash_to_scalar (x : blob) : ec_scalar := reduce (h2d (sha3 x)).

Definition hash_to_point_via_field (k : crypto_data) : ec_point :=
  viaFieldMult8 (h2d (sha3 (data_blob k))).

Definition derive_key_image (sec : secret_key) : key_image :=
  hash_to_point_via_field (to_pk sec) ^ₚ sec.

Definition derive_tx_output_ecdh_shared_secret (pk : public_key) (sk : secret_key) : ecdh_shared_secret :=
  mult8_fast pk ^ₚ sk.

Definition hash_tx_output_shared_secret_to_scalar
    (tx_output_shared_secret : ecdh_shared_secret) (index : Z) : ec_scalar :=
  hash_to_scalar (data_blob tx_output_shared_secret ++ Varint.get_varint_data index).

Definition compute_output_secret_key_from_subaddress_spend_sk
    (tx_output_shared_secret : ecdh_shared_secret) (output_index : Z) (spend_sk : secret_key) : secret_key :=
  spend_sk +ₛ hash_tx_output_shared_secret_to_scalar tx_output_shared_secret output_index.

Definition compute_output_public_key_from_subaddress_spend_pk
    (tx_output_shared_secret : ecdh_shared_secret) (output_index : Z)
    (unsafe_spend_public_key : ec_point_unsafe) : option public_key :=
  spend_public_key ← maybeSafePoint unsafe_spend_public_key;
  let shared_secret_hash := hash_tx_output_shared_secret_to_scalar tx_output_shared_secret output_index in
  Some (multBase shared_secret_hash +ₚ spend_public_key).

Definition compute_subaddress_spend_pk_from_output_public_key
    (tx_output_shared_secret : ecdh_shared_secret) (output_index : Z)
    (output_public_key : ec_point) : option public_key :=
  let shared_secret_hash := hash_tx_output_shared_secret_to_scalar tx_output_shared_secret output_index in
  if shared_secret_hash =? s_0 then None
  else Some (output_public_key -ₚ multBase shared_secret_hash).

Definition maybeNotNull (x : public_key) : option public_key :=
  if x =? null_pkey then None else Some x.

Definition verify_keys (secret_key : ec_scalar_unnormalized) (pk : public_key) : bool :=
  if is_not_reduced secret_key then false else pk =? to_pk (reduce secret_key).

(** ** Subaddresses *)

Record subaddress_index := { major : Z; minor : Z }.
Definition is_zero (i : subaddress_index) : bool := (major i =? 0) && (minor i =? 0).

Record spend_view_secret_keys := { m_spend_secret_key : secret_key; m_view_secret_key : secret_key }.
Record spend_view_public_keys := { m_spend_public_key : public_key; m_view_public_key : public_key }.

Definition hash_secret_key_with_subaddress_index (sec : secret_key) (index : subaddress_index) : ec_scalar :=
  hash_to_scalar (HASH_KEY_SUBADDRESS ++ [0] ++ data_blob sec
                    ++ le_bytes 4 (major index) ++ le_bytes 4 (minor index)).

Definition get_subaddress_spend_secret_key (keys : spend_view_secret_keys) (index : subaddress_index) : secret_key :=
  if is_zero index then m_spend_secret_key keys
  else m_spend_secret_key keys +ₛ hash_secret_key_with_subaddress_index (m_view_secret_key keys) index.

Definition get_subaddress_view_secret_key_base_G
    (keys : spend_view_secret_keys) (index : subaddress_index) : secret_key :=
  if is_zero index then m_view_secret_key keys
  else m_view_secret_key keys *ₛ get_subaddress_spend_secret_key keys index.

Definition get_subaddress_spend_public_key (keys : spend_view_secret_keys) (index : subaddress_index) : public_key :=
  to_pk (get_subaddress_spend_secret_key keys index).

Definition get_subaddress_view_public_key (keys : spend_view_secret_keys) (index : subaddress_index) : public_key :=
  to_pk (get_subaddress_view_secret_key_base_G keys index).

Definition get_subaddress_spend_public_keys
    (keys : spend_view_secret_keys) (account begin_ end_ : Z) : result (list public_key) :=
  _ ← throw_unless (begin_ <=? end_);
  Returns ((fun idx => get_subaddress_spend_public_key keys {| major := account; minor := idx |})
             <$> seqZ begin_ (end_ - begin_)).

Definition get_subaddress (keys : spend_view_secret_keys) (index : subaddress_index) : spend_view_public_keys :=
  {| m_spend_public_key := get_subaddress_spend_public_key keys index;
     m_view_public_key := get_subaddress_view_public_key keys index |}.

End Keys.

(** ** Keys under the group laws *)

(** A usable secret key: a reduced, non-zero scalar. *)
Definition secret_ok (x : secret_key) : Prop := scalar_ok x /\ x <> 0.

#[export] Instance secret_ok_dec x : Decision (secret_ok x).
Proof. unfold secret_ok, scalar_ok. apply _. Defined.

Section KeyLaws.
Context `{HL : Sha3Laws} `{SL : SodiumLaws}.

Lemma sha3_fits x : fits 256 (h2d (sha3 x)).
Proof using HL. pose proof (le_Z_bound (sha3 x) (sha3_bytes x)) as Hb. now rewrite sha3_length in Hb. Qed.

Lemma hash_to_scalar_ok x : scalar_ok (hash_to_scalar x).
Proof using HL SL. apply reduce_closed, sha3_fits. Qed.

Lemma secret_nonzero x : secret_ok x -> ~ x ≡ₗ 0.
Proof. intros [Hx Hn]. now apply scalar_nonzero. Qed.

Lemma to_pk_enc x : secret_ok x -> to_pk x = enc x.
Proof. intros [Hx Hn]. now apply multBase_enc. Qed.

Lemma eight_nonzero : ~ 8 ≡ₗ 0.
Proof. vm_compute. discriminate. Qed.

Lemma shared_secret_enc p r : secret_ok r -> ~ p ≡ₗ 0 ->
  derive_tx_output_ecdh_shared_secret (enc p) r = enc (r * (8 * p)).
Proof.
  intros [Hr Hn] Hp. unfold derive_tx_output_ecdh_shared_secret. rewrite ge_mult8.
  apply mult_enc; [assumption|]. right. apply eqL_mul_nonzero; [apply eight_nonzero|assumption].
Qed.

Lemma subaddress_spend_ok keys index :
  secret_ok (m_spend_secret_key keys) -> scalar_ok (get_subaddress_spend_secret_key keys index).
Proof using HL SL.
  intros [Hs _]. unfold get_subaddress_spend_secret_key. destruct (is_zero index); [assumption|].
  apply scalar_add_closed; [assumption|apply hash_to_scalar_ok].
Qed.

Lemma output_key_recovered shared index s :
  let x := compute_output_secret_key_from_subaddress_spend_sk shared index s in
  secret_ok s -> secret_ok (hash_tx_output_shared_secret_to_scalar shared index) -> x <> 0 ->
  compute_output_public_key_from_subaddress_spend_pk shared index (to_pk s) = Some (to_pk x) /\
  compute_subaddress_spend_pk_from_output_public_key shared index (to_pk x) = Some (to_pk s).
Proof using HL SL.
  intros x Hs Hh Hx. pose proof (secret_nonzero _ Hs) as Hs0. assert (Hxo : secret_ok x).
  { split; [|assumption]. destruct Hs, Hh. now apply scalar_add_closed. }
  unfold compute_output_public_key_from_subaddress_spend_pk, compute_subaddress_spend_pk_from_output_public_key.
  fold (to_pk (hash_tx_output_shared_secret_to_scalar shared index)).
  set (h := hash_tx_output_shared_secret_to_scalar shared index) in *.
  rewrite !to_pk_enc, maybeSafePoint_enc by assumption.
  rewrite (proj2 (Z.eqb_neq h s_0)) by apply Hh.
  assert (Ex : x ≡ₗ s + h) by (destruct Hs, Hh; now apply scalar_add_eqL).
  cbn [mbind option_bind]. rewrite add_enc, sub_enc, !Ex.
  split; do 2 f_equal; ring.
Qed.

Lemma shared_secret_agree r v :
  secret_ok r -> secret_ok v ->
  derive_tx_output_ecdh_shared_secret (to_pk v) r = derive_tx_output_ecdh_shared_secret (to_pk r) v
  /\ is_safe_point (derive_tx_output_ecdh_shared_secret (to_pk v) r) = true.
Proof.
  intros Hr Hv. rewrite !to_pk_enc, !shared_secret_enc by auto using secret_nonzero.
  split; [apply enc_eq, eq_eqL; ring|].
  rewrite is_safe_point_enc, bool_decide_eq_true. repeat apply eqL_mul_nonzero;
    auto using secret_nonzero, eight_nonzero.
Qed.

Lemma subaddress_secret_agree keys index r :
  is_zero index = false ->
  secret_ok (m_spend_secret_key keys) -> secret_ok (m_view_secret_key keys) -> secret_ok r ->
  get_subaddress_spend_secret_key keys index <> 0 ->
  let address := get_subaddress keys index in
  derive_tx_output_ecdh_shared_secret (m_view_public_key address) r =
  derive_tx_output_ecdh_shared_secret (m_spend_public_key address ^ₚ r) (m_view_secret_key keys).
Proof using HL SL.
  intros Hi Hs Hv Hr Hd. cbn [get_subaddress m_view_public_key m_spend_public_key].
  unfold get_subaddress_view_public_key, get_subaddress_spend_public_key, get_subaddress_view_secret_key_base_G.
  rewrite Hi. set (d := get_subaddress_spend_secret_key keys index) in *.
  assert (Hdo : secret_ok d) by (split; [now apply subaddress_spend_ok|assumption]).
  pose proof (secret_nonzero _ Hdo). pose proof (secret_nonzero _ Hv). pose proof (secret_nonzero _ Hr).
  set (v := m_view_secret_key keys) in *.
  assert (Hc : secret_ok (v *ₛ d)).
  { destruct Hv, Hdo. split; [auto with machine|]. rewrite scalar_mul_ok by assumption.
    intros E. apply (eqL_mul_nonzero v d); [assumption|assumption|exact E]. }
  rewrite !to_pk_enc by assumption.
  rewrite mult_enc by (apply Hr || now right).
  rewrite !shared_secret_enc by auto using eqL_mul_nonzero, secret_nonzero.
  apply enc_eq. rewrite scalar_mul_eqL by (apply Hv || apply Hdo). apply eq_eqL. ring.
Qed.

End KeyLaws.

(** Diffie-Hellman agreement.  The sender (with the transaction secret key
    [r] and the receiver's view public key) and the receiver (with the view
    secret key [v] and the transaction public key) derive the same shared
    secret, and it is a non-identity element of the prime-order group. *)
Theorem ecdh_shared_secret_agreement `{SodiumLaws} r v :
  secret_ok r -> secret_ok v ->
  derive_tx_output_ecdh_shared_secret (to_pk v) r = derive_tx_output_ecdh_shared_secret (to_pk r) v
  /\ is_safe_point (derive_tx_output_ecdh_shared_secret (to_pk v) r) = true.
Proof. apply shared_secret_agree. Qed.

(** One-time output keys.  For an output sent to the spend key [to_pk s] with
    any shared secret, the public key the sender computes is the public key of
    the secret key the receiver computes, and the receiver recovers the spend
    public key from the output alone. *)
Theorem output_key_agreement `{Sha3Laws} `{SodiumLaws} shared index s :
  let x := compute_output_secret_key_from_subaddress_spend_sk shared index s in
  secret_ok s -> secret_ok (hash_tx_output_shared_secret_to_scalar shared index) -> x <> 0 ->
  compute_output_public_key_from_subaddress_spend_pk shared index (to_pk s) = Some (to_pk x) /\
  compute_subaddress_spend_pk_from_output_public_key shared index (to_pk x) = Some (to_pk s).
Proof. apply output_key_recovered. Qed.

(** Receiving on a subaddress.  A sender who pays the subaddress [(D, C)]
    with the transaction secret [r] publishes [D ^ r]; the shared secret the
    receiver derives from it with the main view key is the one the sender derives
    from [C]. *)
Theorem subaddress_shared_secret_agreement `{Sha3Laws} `{SodiumLaws} keys index r :
  is_zero index = false ->
  secret_ok (m_spend_secret_key keys) -> secret_ok (m_view_secret_key keys) -> secret_ok r ->
  get_subaddress_spend_secret_key keys index <> 0 ->
  let address := get_subaddress keys index in
  derive_tx_output_ecdh_shared_secret (m_view_public_key address) r =
  derive_tx_output_ecdh_shared_secret (m_spend_public_key address ^ₚ r) (m_view_secret_key keys).
Proof. apply subaddress_secret_agree. Qed.

Section Examples.
Import ModelGroup RollingDigest.

Lemma ecdh_shared_secret_agreement_witness :
  derive_tx_output_ecdh_shared_secret (to_pk 7) 5 = derive_tx_output_ecdh_shared_secret (to_pk 5) 7.
Proof. apply (ecdh_shared_secret_agreement 5 7); vm_compute; repeat split; congruence. Defined.

Lemma output_key_agreement_witness :
  compute_output_public_key_from_subaddress_spend_pk 9 1 (to_pk 7) =
  Some (to_pk (compute_output_secret_key_from_subaddress_spend_sk 9 1 7)).
Proof. apply (output_key_agreement 9 1 7); vm_compute; repeat split; congruence. Defined.

Definition example_keys : spend_view_secret_keys := {| m_spend_secret_key := 7; m_view_secret_key := 11 |}.
Definition example_index : subaddress_index := {| major := 0; minor := 3 |}.

Lemma subaddress_shared_secret_agreement_witness :
  derive_tx_output_ecdh_shared_secret (m_view_public_key (get_subaddress example_keys example_index)) 5 =
  derive_tx_output_ecdh_shared_secret (m_spend_public_key (get_subaddress example_keys example_index) ^ₚ 5) 11.
Proof.
  apply (subaddress_shared_secret_agreement example_keys example_index 5);
    vm_compute; repeat split; congruence.
Defined.

End Examples.

End Key.
