(* ===== verification/RctOps.v ===== *)
(** Commitments, data hashes and the amount mask
    ([src/src/math/ringct/functional/rctOps.cpp]). *)

From S2P Require Import Prelude Hash Config Varint Primality Group ModelGroup Key.

Module RctOps.
Import Config Key.

Abbreviation amount_t := Z.
Abbreviation inv8 := Z.

Definition s_zero := s_0.
Definition s_one := s_1.
Definition s_two := s_2.
Definition s_minus_one := MINUS_ONE.
Definition s_eight := s_8.
Definition s_inv_eight := INV_EIGHT.
Definition s_minus_inv_eight := MINUS_INV_EIGHT.

Section Ops.
Context `{Sha3} `{Sodium}.

Definition G_ (a : ec_scalar) : ec_point := multBase a.
Definition H_ (a : ec_scalar) : ec_point := H_point ^ₚ a.

(** [sum]: [std::reduce] from the identity *)
Definition sum (A : list ec_point) : ec_point := foldl add identity A.

Definition to_inv8 (x : ec_point) : inv8 := x ^ₚ s_inv_eight.

Definition maybe_from_inv8 (x : inv8) : option ec_point :=
  match maybeSafePoint x with
  | Some maybeSafeInv8 => Some (mult8_fast maybeSafeInv8)
  | None => None
  end.

Definition commit (amount : amount_t) (mask : ec_scalar) : ec_point :=
  G_ mask +ₚ H_ (int_to_scalar amount).

Definition dummyCommit (amount : amount_t) : ec_point := commit amount s_one.

Definition hash_data (x : crypto_data) : hash := sha3 (data_blob x).

(** [rct::hash_to_scalar] *)
Definition hash_data_to_scalar (x : crypto_data) : ec_scalar := reduce (h2d (hash_data x)).

Definition hash_dataV (keys : list crypto_data) : hash :=
  match keys with
  | [] => null_hash
  | _ => sha3 (concat (data_blob <$> keys))
  end.

Definition hash_dataV_to_scalar (keys : list crypto_data) : ec_scalar := reduce (h2d (hash_dataV keys)).

Definition maybe_hash_V_to_non_zero_scalar (keys : list crypto_data) : option ec_scalar :=
  let h := reduce (h2d (hash_dataV keys)) in
  if h =? s_0 then None else Some h.

(** Some data hashes to the scalar zero; only then a challenge cannot be drawn. *)
Definition zero_challenge : Prop := exists keys, maybe_hash_V_to_non_zero_scalar keys = None.

(** [hash_and_xor_int]: the low eight bytes are xored with the digest. *)
Definition hash_and_xor_int (x : Z) (y : ec_scalar) : Z :=
  let h := sha3 (ecdhHashPrefix ++ data_blob y) in
  let r := data_blob (int_to_scalar x) in
  let r' := zip_with Z.lxor (take 8 r) (take 8 h) ++ drop 8 r in
  scalar_to_int (le_Z r').

Definition encode_amount_by_hashed_ecdh_shared_secret := hash_and_xor_int.
Definition decode_amount_by_hashed_ecdh_shared_secret := hash_and_xor_int.

Definition get_blinding_factor_from_hashed_shared_secret (x : ec_scalar) : ec_scalar :=
  hash_to_scalar (commitmentMaskPrefix ++ data_blob x).

End Ops.

(** ** The amount mask *)

Lemma lxor_byte a b : is_byte a -> is_byte b -> is_byte (Z.lxor a b).
Proof.
  unfold is_byte. intros Ha Hb. split; [apply Z.lxor_nonneg; lia|].
  destruct (Z.eq_dec (Z.lxor a b) 0) as [->|Hn]; [lia|].
  assert (0 < Z.lxor a b) by (pose proof (Z.lxor_nonneg a b); lia).
  apply (Z.log2_lt_pow2 _ 8); [assumption|].
  pose proof (Z.log2_lxor a b ltac:(lia) ltac:(lia)) as Hl.
  assert (Z.log2 a < 8 /\ Z.log2 b < 8); [|lia].
  split; destruct (Z.eq_dec a 0) as [->|], (Z.eq_dec b 0) as [->|]; try reflexivity;
    apply Z.log2_lt_pow2; lia.
Qed.

Lemma zip_lxor_bytes l m : bytes_ok l -> bytes_ok m -> bytes_ok (zip_with Z.lxor l m).
Proof.
  intros Hl. revert m. induction Hl as [|x l Hx _ IH]; intros m Hm; cbn; [constructor|].
  destruct Hm; constructor; auto using lxor_byte. now apply IH.
Qed.

Lemma zip_lxor_involutive l m :
  (length l <= length m)%nat -> zip_with Z.lxor (zip_with Z.lxor l m) m = l.
Proof.
  revert m; induction l as [|x l IH]; intros [|y m] H; cbn in *; try reflexivity; try lia.
  rewrite Z.lxor_assoc, Z.lxor_nilpotent, Z.lxor_0_r. f_equal. apply IH. lia.
Qed.

Lemma data_blob_int x : fits 64 x -> data_blob (int_to_scalar x) = le_bytes 8 x ++ replicate 24 0.
Proof.
  intros Hx. unfold int_to_scalar, data_blob.
  rewrite <- (le_bytes_Z (le_bytes 8 x ++ replicate 24 0)) at 2.
  - rewrite length_app, length_le_bytes. reflexivity.
  - apply bytes_ok_app. split; [apply le_bytes_ok|]. now apply Forall_replicate.
Qed.

Section Mask.
Context `{HL : Sha3Laws}.

(** The mask as a function on the eight bytes of the amount. *)
Lemma hash_and_xor_bytes x y :
  fits 64 x ->
  hash_and_xor_int x y =
  le_Z (zip_with Z.lxor (le_bytes 8 x) (take 8 (sha3 (ecdhHashPrefix ++ data_blob y)))).
Proof using HL.
  intros Hx. unfold hash_and_xor_int. rewrite data_blob_int by assumption.
  rewrite take_app_length', drop_app_length' by now rewrite length_le_bytes.
  set (z := zip_with _ _ _).
  assert (Hz : bytes_ok z) by (apply zip_lxor_bytes; auto using le_bytes_ok, bytes_ok_take, sha3_bytes).
  assert (Hl : length z = 8%nat).
  { unfold z. rewrite length_zip_with, length_le_bytes, length_take, sha3_length. reflexivity. }
  unfold scalar_to_int, data_blob.
  assert (E : 32%nat = length (z ++ replicate 24 0)) by (rewrite length_app, Hl; reflexivity).
  rewrite E, le_bytes_Z by (apply bytes_ok_app; split; [assumption|now apply Forall_replicate]).
  now rewrite take_app_length' by auto.
Qed.

Lemma hash_and_xor_fits x y : fits 64 x -> fits 64 (hash_and_xor_int x y).
Proof using HL.
  intros Hx. rewrite hash_and_xor_bytes by assumption.
  match goal with |- fits 64 (le_Z ?z) => pose proof (le_Z_bound z) as Hb end.
  rewrite length_zip_with, length_le_bytes, length_take, sha3_length in Hb.
  apply Hb, zip_lxor_bytes; auto using le_bytes_ok, bytes_ok_take, sha3_bytes.
Qed.

Lemma hash_and_xor_involutive x y :
  fits 64 x -> hash_and_xor_int (hash_and_xor_int x y) y = x.
Proof using HL.
  intros Hx. pose proof (hash_and_xor_fits x y Hx) as Hf.
  rewrite (hash_and_xor_bytes _ _ Hf), hash_and_xor_bytes by assumption.
  set (h := take 8 (sha3 _)).
  assert (Hh : bytes_ok h /\ length h = 8%nat).
  { split; [apply bytes_ok_take, sha3_bytes|]. unfold h. rewrite length_take, sha3_length. reflexivity. }
  destruct Hh as [Hh Hl].
  assert (E : 8%nat = length (zip_with Z.lxor (le_bytes 8 x) h))
    by (rewrite length_zip_with, length_le_bytes, Hl; reflexivity).
  rewrite E at 1. rewrite le_bytes_Z by (apply zip_lxor_bytes; auto using le_bytes_ok).
  rewrite zip_lxor_involutive by (rewrite length_le_bytes; lia).
  apply le_Z_bytes_small. exact Hx.
Qed.

End Mask.

(** Encrypted amounts.  Masking an amount with the hashed shared secret
    yields a 64-bit value, and unmasking it with the same secret gives the amount
    back. *)
Theorem amount_mask_roundtrip `{Sha3Laws} amount secret :
  fits 64 amount ->
  fits 64 (encode_amount_by_hashed_ecdh_shared_secret amount secret) /\
  decode_amount_by_hashed_ecdh_shared_secret
    (encode_amount_by_hashed_ecdh_shared_secret amount secret) secret = amount.
Proof. intros Ha. split; [now apply hash_and_xor_fits | now apply hash_and_xor_involutive]. Qed.

(** ** Commitments *)

Section CommitLaws.
Context `{HL : Sha3Laws} `{SL : SodiumLaws}.

(** The discrete logarithm of [H], which nobody knows but which exists. *)
Lemma H_mult : exists h, ~ h ≡ₗ 0 /\ H_point = enc h /\ forall a, scalar_ok a -> H_ a = enc (a * h).
Proof.
  destruct H_enc as (h & Hh & E). exists h. repeat split; [assumption|assumption|].
  intros a Ha. unfold H_. rewrite E. now apply mult_enc; auto.
Qed.

Lemma to_inv8_enc k : ~ k ≡ₗ 0 -> to_inv8 (enc k) = enc (INV_EIGHT * k).
Proof. intros. apply mult_enc; [apply inv_eight_ok|auto]. Qed.

Lemma inv8_nonzero k : ~ k ≡ₗ 0 -> ~ INV_EIGHT * k ≡ₗ 0.
Proof. apply eqL_mul_nonzero. vm_compute. discriminate. Qed.

Lemma from_inv8_to_inv8 k : ~ k ≡ₗ 0 -> maybe_from_inv8 (to_inv8 (enc k)) = Some (enc k).
Proof.
  intros Hk. rewrite to_inv8_enc by assumption. unfold maybe_from_inv8.
  rewrite maybeSafePoint_enc, ge_mult8 by now apply inv8_nonzero.
  f_equal. apply enc_eq. rewrite Z.mul_assoc. rewrite (proj1 inv_eight_ok).
  apply eq_eqL. ring.
Qed.

Lemma from_inv8_safe x y : maybe_from_inv8 x = Some y -> exists k, ~ k ≡ₗ 0 /\ y = enc k /\ x = to_inv8 y.
Proof.
  unfold maybe_from_inv8. destruct (maybeSafePoint x) as [z|] eqn:E; [|discriminate]. intros [= <-].
  apply maybeSafePoint_Some in E as [-> (k & Hk & ->)]. exists (8 * k).
  assert (H8 : ~ 8 * k ≡ₗ 0) by (apply eqL_mul_nonzero; [apply eight_nonzero|assumption]).
  rewrite ge_mult8, to_inv8_enc by assumption. repeat split; [assumption|].
  apply enc_eq. rewrite Z.mul_assoc, (Z.mul_comm INV_EIGHT), (proj1 inv_eight_ok). apply eq_eqL. ring.
Qed.

Lemma maybe_hash_V_Some keys h :
  maybe_hash_V_to_non_zero_scalar keys = Some h -> secret_ok h.
Proof using HL SL.
  unfold maybe_hash_V_to_non_zero_scalar. destruct (_ =? s_0) eqn:E; [discriminate|].
  intros [= <-]. to_prop. split; [|assumption]. apply reduce_closed.
  destruct keys; cbn [hash_dataV]; [now vm_compute|apply sha3_fits].
Qed.

Lemma zero_challenge_of keys : maybe_hash_V_to_non_zero_scalar keys = None -> zero_challenge.
Proof. now exists keys. Qed.

Lemma sum_enc ks : sum (enc <$> ks) = enc (sumZ ks).
Proof.
  unfold sum. rewrite <- enc_0. change (sumZ ks) with (0 + sumZ ks). generalize 0.
  induction ks as [|k ks IH]; intros a; cbn; [f_equal; lia|].
  rewrite add_enc, IH. f_equal. unfold sumZ. lia.
Qed.

End CommitLaws.

(** Points are stored divided by eight: recovering a non-identity group
    element from its stored form is exact, and everything that is accepted from
    storage is a non-identity element of the prime-order group whose stored form
    is the one read. *)
Theorem inv8_roundtrip `{SodiumLaws} x y :
  is_safe_point x = true ->
  maybe_from_inv8 (to_inv8 x) = Some x /\
  (maybe_from_inv8 y = Some x -> y = to_inv8 x).
Proof.
  intros (k & Hk & ->)%is_safe_point_spec. split; [now apply from_inv8_to_inv8|].
  now intros (j & _ & _ & ?)%from_inv8_safe.
Qed.

(** Pedersen commitments are homomorphic: the sum of two commitments commits
    to the sum of the amounts under the sum of the masks, as long as the amounts
    do not overflow. *)
Theorem commit_homomorphic `{SodiumLaws} a b m n :
  fits 64 a -> fits 64 b -> fits 64 (a + b) ->
  secret_ok m -> secret_ok n -> m +ₛ n <> 0 ->
  commit a m +ₚ commit b n = commit (a + b) (m +ₛ n).
Proof.
  intros Ha Hb Hab Hm Hn Hmn. destruct H_mult as (h & _ & _ & HH).
  assert (Hs : secret_ok (m +ₛ n)) by (destruct Hm, Hn; split; auto with machine).
  unfold commit, G_. fold (to_pk m) (to_pk n) (to_pk (m +ₛ n)).
  rewrite !int_to_scalar_small, !HH, !to_pk_enc, !add_enc by auto with machine.
  apply enc_eq. rewrite scalar_add_eqL by (apply Hm || apply Hn). apply eq_eqL. ring.
Qed.

Section Examples.
Import ModelGroup RollingDigest.

Lemma amount_mask_roundtrip_witness :
  decode_amount_by_hashed_ecdh_shared_secret
    (encode_amount_by_hashed_ecdh_shared_secret 123456789 42) 42 = 123456789.
Proof. apply (amount_mask_roundtrip 123456789 42). unfold fits. lia. Defined.

Lemma inv8_roundtrip_witness : maybe_from_inv8 (to_inv8 H_point) = Some H_point.
Proof. apply (inv8_roundtrip H_point H_point). vm_compute. reflexivity. Defined.

Lemma commit_homomorphic_witness : commit 5 3 +ₚ commit 6 4 = commit 11 (3 +ₛ 4).
Proof.
  apply (commit_homomorphic 5 6 3 4); vm_compute; repeat split; congruence.
Defined.

End Examples.

End RctOps.
