(* ===== verification/VectorOps.v ===== *)
(** Vectors of scalars and points
    ([src/src/math/ringct/functional/vectorOps.cpp]), and the linear algebra
    modulo [L] the proofs about them use. *)

From S2P Require Import Prelude Hash Primality Group Key RctOps.

Module VectorOps.
Import RctOps.

Abbreviation scalarV := (list ec_scalar).
Abbreviation pointV := (list ec_point).

Section Ops.
Context `{Sha3} `{Sodium}.

(** [scalar_powers]: the generator lambda keeps [accum]. *)
Fixpoint scalar_powers_loop (accum x : ec_scalar) (n : nat) : scalarV :=
  match n with
  | O => []
  | S n' => accum :: scalar_powers_loop (accum *ₛ x) x n'
  end.
Definition scalar_powers (x : ec_scalar) (n : nat) : scalarV := scalar_powers_loop s_one x n.

(** [vector_sum] on scalars and on points *)
Definition vector_sum (xs : scalarV) : ec_scalar := foldl scalar_add s_zero xs.
Definition vector_sum_P (xs : pointV) : ec_point := foldl add identity xs.

Definition sum_of_scalar_powers (x : ec_scalar) (n : nat) : ec_scalar := vector_sum (scalar_powers x n).

Definition hadamard_product (a b : scalarV) : result scalarV :=
  _ ← throw_unless (length a <=? length b)%nat;
  Returns (zip_with scalar_mul a b).

Definition inner_product (a b : scalarV) : result ec_scalar :=
  _ ← throw_unless (length a <=? length b)%nat;
  h ← hadamard_product a b;
  Returns (vector_sum h).

(** [vector_add_V], [vector_subtract_V] on scalars, [vector_add_V] on points *)
Definition vector_add_V (a b : scalarV) : result scalarV :=
  _ ← throw_unless (length a <=? length b)%nat;
  Returns (zip_with scalar_add a b).

Definition vector_subtract_V (a b : scalarV) : result scalarV :=
  _ ← throw_unless (length a <=? length b)%nat;
  Returns (zip_with scalar_sub a b).

Definition vector_add_V_P (a b : pointV) : result pointV :=
  _ ← throw_unless (length a <=? length b)%nat;
  Returns (zip_with add a b).

Definition vector_add (a : scalarV) (b : ec_scalar) : scalarV := (fun x => x +ₛ b) <$> a.
Definition vector_subtract (a : scalarV) (b : ec_scalar) : scalarV := (fun x => x -ₛ b) <$> a.
Definition vector_mult (a : scalarV) (b : ec_scalar) : scalarV := (fun x => x *ₛ b) <$> a.

Definition multiplicative_inverse_V (v : scalarV) : scalarV := multiplicative_inverse <$> v.

Definition scalar_repeat (x : ec_scalar) (n : nat) : scalarV := vector_mult (scalar_powers s_1 n) x.

Definition vector_negate (a : scalarV) : result scalarV :=
  vector_subtract_V (scalar_repeat s_zero (length a)) a.

Definition vector_multP_V (a : scalarV) (p : pointV) : result pointV :=
  _ ← throw_unless (length a <=? length p)%nat;
  Returns (zip_with (fun x y => y ^ₚ x) a p).

Definition scalar_multP_V (a : ec_scalar) (p : pointV) : result pointV :=
  vector_multP_V (scalar_repeat a (length p)) p.

Definition vector_commit (a : scalarV) (p : pointV) : result ec_point :=
  _ ← throw_unless (length a <=? length p)%nat;
  xs ← vector_multP_V a p;
  Returns (foldl add identity xs).

Definition evaluate_polynomial (a : scalarV) (X : ec_scalar) : result ec_scalar :=
  inner_product a (scalar_powers X (length a)).

Definition evaluate_polynomial_P (a : pointV) (X : ec_scalar) : result ec_point :=
  vector_commit (scalar_powers X (length a)) a.

Definition split_vector {A} (v : list A) : result (list A * list A) :=
  _ ← throw_if (bool_decide (v = []));
  _ ← throw_unless (Nat.land (length v) 1 =? 0)%nat;
  let middle := (length v / 2)%nat in
  Returns (take middle v, drop middle v).

Definition homomorphic_hash (G H : pointV) (a b : scalarV) (u : ec_point) (c : ec_scalar) : result ec_point :=
  x ← vector_commit a G;
  y ← vector_commit b H;
  Returns (x +ₚ y +ₚ (u ^ₚ c)).

Definition homomorphic_hash_full (G H : pointV) (a_1 a_2 b_1 b_2 : scalarV)
    (u : ec_point) (c : ec_scalar) : result ec_point :=
  '(G_L, G_R) ← split_vector G;
  '(H_L, H_R) ← split_vector H;
  x1 ← vector_commit a_1 G_L;
  x2 ← vector_commit a_2 G_R;
  x3 ← vector_commit b_1 H_L;
  x4 ← vector_commit b_2 H_R;
  Returns (x1 +ₚ x2 +ₚ x3 +ₚ x4 +ₚ (u ^ₚ c)).

Definition vector_concat (xs : list scalarV) : scalarV := foldl (fun x y => x ++ y) [] xs.

Definition vector_mult_V_monadic (xs ys : scalarV) : list scalarV := (fun x => vector_mult ys x) <$> xs.

End Ops.

(** ** Integer vectors *)

Definition dot (a b : list Z) : Z := sumZ (zip_with Z.mul a b).
Definition vadd (a b : list Z) : list Z := zip_with Z.add a b.
Definition vscale (c : Z) (a : list Z) : list Z := Z.mul c <$> a.
Definition vhad (a b : list Z) : list Z := zip_with Z.mul a b.
Definition vmod (a : list Z) : list Z := (fun x => x mod L) <$> a.
Definition powers (x : Z) (n : nat) : list Z := (fun i => x ^ Z.of_nat i) <$> seq 0 n.

(** Component-wise congruence. *)
Definition eqV : list Z -> list Z -> Prop := Forall2 eqL.
Infix "≡ᵥ" := eqV (at level 70, no associativity) : Z_scope.

#[export] Instance eqV_equiv : Equivalence eqV.
Proof. unfold eqV. apply _. Qed.

Lemma eqV_length a b : a ≡ᵥ b -> length a = length b.
Proof. apply Forall2_length. Qed.

Lemma vmod_eqV a : vmod a ≡ᵥ a.
Proof. unfold vmod, eqV. apply Forall2_fmap_l, Forall_Forall2_diag, Forall_forall. intros x _. apply eqL_mod. Qed.

#[export] Instance dot_proper : Proper (eqV ==> eqV ==> eqL) dot.
Proof.
  intros a a' Ha. induction Ha as [|x x' a a' Hx _ IH]; intros b b' Hb; [reflexivity|].
  destruct Hb as [|y y' b b' Hy Hb]; [reflexivity|].
  assert (E : dot a b ≡ₗ dot a' b') by now apply IH.
  change (x * y + dot a b ≡ₗ x' * y' + dot a' b'). now rewrite Hx, Hy, E.
Qed.

#[export] Instance vadd_proper : Proper (eqV ==> eqV ==> eqV) vadd.
Proof.
  intros a a' Ha. induction Ha as [|x x' a a' Hx _ IH]; intros b b' Hb; [constructor|].
  destruct Hb as [|y y' b b' Hy Hb]; [constructor|]. constructor; [now rewrite Hx, Hy|now apply IH].
Qed.

#[export] Instance vhad_proper : Proper (eqV ==> eqV ==> eqV) vhad.
Proof.
  intros a a' Ha. induction Ha as [|x x' a a' Hx _ IH]; intros b b' Hb; [constructor|].
  destruct Hb as [|y y' b b' Hy Hb]; [constructor|]. constructor; [now rewrite Hx, Hy|now apply IH].
Qed.

#[export] Instance vscale_proper : Proper (eqL ==> eqV ==> eqV) vscale.
Proof.
  intros c c' Hc a a' Ha. unfold vscale. induction Ha as [|x x' a a' Hx _ IH]; [constructor|].
  constructor; [now rewrite Hc, Hx|assumption].
Qed.

#[export] Instance sumZ_proper : Proper (eqV ==> eqL) sumZ.
Proof.
  intros a a' Ha. unfold sumZ. induction Ha as [|x x' a a' Hx _ IH]; cbn; [reflexivity|]. now rewrite Hx, IH.
Qed.

#[export] Instance app_proper : Proper (eqV ==> eqV ==> eqV) (@app Z).
Proof. intros a a' Ha b b' Hb. unfold eqV in *. now apply Forall2_app. Qed.

Lemma length_vadd a b : length (vadd a b) = (length a `min` length b)%nat.
Proof. apply length_zip_with. Qed.
Lemma length_vscale c a : length (vscale c a) = length a.
Proof. apply length_fmap. Qed.
Lemma length_vmod a : length (vmod a) = length a.
Proof. apply length_fmap. Qed.
Lemma length_vhad a b : length (vhad a b) = (length a `min` length b)%nat.
Proof. apply length_zip_with. Qed.
Lemma length_powers x n : length (powers x n) = n.
Proof. unfold powers. now rewrite length_fmap, length_seq. Qed.

#[export] Hint Rewrite length_vadd length_vscale length_vmod length_vhad length_powers : machine_rw.

Lemma dot_cons x a y b : dot (x :: a) (y :: b) = x * y + dot a b.
Proof. reflexivity. Qed.

Lemma dot_comm a b : dot a b = dot b a.
Proof.
  revert b; induction a as [|x a IH]; intros [|y b]; try reflexivity. rewrite !dot_cons, IH. ring.
Qed.

Lemma dot_vadd_l a b c : length a = length b -> dot (vadd a b) c = dot a c + dot b c.
Proof.
  revert b c; induction a as [|x a IH]; intros [|y b] [|z c] Hl; try reflexivity; try discriminate.
  injection Hl as Hl. cbn [vadd zip_with]. rewrite !dot_cons. fold (vadd a b). rewrite IH by assumption. ring.
Qed.

Lemma dot_vadd_r a b c : length a = length b -> dot c (vadd a b) = dot c a + dot c b.
Proof. intros. now rewrite dot_comm, dot_vadd_l, (dot_comm a), (dot_comm b). Qed.

Lemma dot_vscale_l k a c : dot (vscale k a) c = k * dot a c.
Proof.
  revert c; induction a as [|x a IH]; intros [|z c]; try (cbn; ring).
  cbn [vscale fmap list_fmap]. rewrite !dot_cons. fold (vscale k a). rewrite IH. ring.
Qed.

Lemma dot_vscale_r k a c : dot c (vscale k a) = k * dot c a.
Proof. now rewrite dot_comm, dot_vscale_l, dot_comm. Qed.

Lemma dot_app a1 a2 b1 b2 : length a1 = length b1 -> dot (a1 ++ a2) (b1 ++ b2) = dot a1 b1 + dot a2 b2.
Proof. intros. unfold dot. now rewrite zip_with_app, sumZ_app by assumption. Qed.

Lemma vadd_vscale_distr k a b : vscale k (vadd a b) = vadd (vscale k a) (vscale k b).
Proof.
  revert b; induction a as [|x a IH]; intros [|y b]; try reflexivity.
  cbn. f_equal; [ring|apply IH].
Qed.

(** ** The operations as integer vectors modulo [L] *)

Definition scalars_ok (a : list Z) : Prop := Forall scalar_ok a.
Definition nonzeros (g : list Z) : Prop := Forall (fun k => ~ k ≡ₗ 0) g.

Lemma vmod_ok a : scalars_ok (vmod a).
Proof. apply Forall_fmap, Forall_forall. intros x _. apply scalar_mod_ok. Qed.

Lemma vmod_id a : scalars_ok a -> vmod a = a.
Proof.
  intros Ha. unfold vmod. rewrite <- (list_fmap_id a) at 2. apply Forall_fmap_ext_1.
  eapply Forall_impl; [exact Ha|]. intros x Hx. now apply Z.mod_small.
Qed.

Lemma eqV_vmod a b : a ≡ᵥ b -> vmod a = vmod b.
Proof. intros E. unfold vmod. induction E; cbn; [reflexivity|]. now f_equal. Qed.

Lemma scalars_ok_take n a : scalars_ok a -> scalars_ok (take n a).
Proof. apply Forall_take. Qed.
Lemma scalars_ok_drop n a : scalars_ok a -> scalars_ok (drop n a).
Proof. apply Forall_drop. Qed.
Lemma scalars_ok_app a b : scalars_ok (a ++ b) <-> scalars_ok a /\ scalars_ok b.
Proof. apply Forall_app. Qed.

#[export] Hint Resolve vmod_ok scalars_ok_take scalars_ok_drop : machine.

Lemma leb_ok (n m : nat) : (n <= m)%nat -> (n <=? m)%nat = true.
Proof. intros. now apply Nat.leb_le. Qed.

Section Laws.
Context `{SL : SodiumLaws}.

Lemma zip_scalar (f : Z -> Z -> Z) (g : Z -> Z -> Z) a b :
  (forall x y, scalar_ok x -> scalar_ok y -> f x y = g x y mod L) ->
  scalars_ok a -> scalars_ok b -> zip_with f a b = vmod (zip_with g a b).
Proof.
  intros Hf Ha. revert b. induction Ha as [|x a Hx _ IH]; intros b Hb; [reflexivity|].
  destruct Hb as [|y b Hy Hb]; [reflexivity|]. cbn. now rewrite Hf, IH by assumption.
Qed.

Lemma vector_add_V_ok a b : scalars_ok a -> scalars_ok b -> (length a <= length b)%nat ->
  vector_add_V a b = Returns (vmod (vadd a b)).
Proof.
  intros Ha Hb Hl. unfold vector_add_V. rewrite leb_ok by assumption. cbn. f_equal.
  apply zip_scalar; auto. apply scalar_add_ok.
Qed.

Lemma vector_subtract_V_ok a b : scalars_ok a -> scalars_ok b -> (length a <= length b)%nat ->
  vector_subtract_V a b = Returns (vmod (zip_with Z.sub a b)).
Proof.
  intros Ha Hb Hl. unfold vector_subtract_V. rewrite leb_ok by assumption. cbn. f_equal.
  apply zip_scalar; auto. apply scalar_sub_ok.
Qed.

Lemma hadamard_product_ok a b : scalars_ok a -> scalars_ok b -> (length a <= length b)%nat ->
  hadamard_product a b = Returns (vmod (vhad a b)).
Proof.
  intros Ha Hb Hl. unfold hadamard_product. rewrite leb_ok by assumption. cbn. f_equal.
  apply zip_scalar; auto. apply scalar_mul_ok.
Qed.

Lemma vector_sum_ok a : scalars_ok a -> vector_sum a = sumZ a mod L.
Proof.
  intros Ha. unfold vector_sum. change s_zero with 0.
  assert (Hs : forall s, scalar_ok s -> foldl scalar_add s a = (s + sumZ a) mod L); [|now apply Hs; auto with machine].
  induction Ha as [|x a Hx _ IH]; intros s Hs; cbn.
  - rewrite Z.add_0_r. symmetry. now apply Z.mod_small.
  - rewrite IH by auto with machine. unfold sumZ; cbn. rewrite scalar_add_ok by assumption.
    rewrite Zplus_mod_idemp_l. f_equal. lia.
Qed.

Lemma inner_product_ok a b : scalars_ok a -> scalars_ok b -> (length a <= length b)%nat ->
  inner_product a b = Returns (dot a b mod L).
Proof.
  intros Ha Hb Hl. unfold inner_product. rewrite leb_ok, hadamard_product_ok by assumption. cbn. f_equal.
  rewrite vector_sum_ok by apply vmod_ok. change (sumZ (vmod (vhad a b)) ≡ₗ sumZ (vhad a b)).
  now rewrite vmod_eqV.
Qed.

Lemma vector_mult_ok a c : scalars_ok a -> scalar_ok c -> vector_mult a c = vmod (vscale c a).
Proof.
  intros Ha Hc. unfold vector_mult. induction Ha as [|x a Hx _ IH]; cbn; [reflexivity|].
  rewrite scalar_mul_ok by assumption. f_equal; [f_equal; ring|exact IH].
Qed.

Lemma vector_add_ok a c : scalars_ok a -> scalar_ok c -> vector_add a c = vmod ((fun x => x + c) <$> a).
Proof.
  intros Ha Hc. unfold vector_add. induction Ha as [|x a Hx _ IH]; cbn; [reflexivity|].
  rewrite scalar_add_ok by assumption. f_equal. exact IH.
Qed.

Lemma vector_subtract_ok a c : scalars_ok a -> scalar_ok c -> vector_subtract a c = vmod ((fun x => x - c) <$> a).
Proof.
  intros Ha Hc. unfold vector_subtract. induction Ha as [|x a Hx _ IH]; cbn; [reflexivity|].
  rewrite scalar_sub_ok by assumption. f_equal. exact IH.
Qed.

Lemma scalar_powers_ok x n : scalar_ok x -> scalar_powers x n = vmod (powers x n).
Proof.
  intros Hx. unfold scalar_powers, powers. change s_one with 1.
  assert (Hk : forall k, scalar_powers_loop (x ^ Z.of_nat k mod L) x n = vmod ((fun i => x ^ Z.of_nat i) <$> seq k n)).
  { induction n as [|n IH]; intros k; cbn; [reflexivity|]. f_equal.
    rewrite scalar_mul_ok by auto with machine. rewrite Zmult_mod_idemp_l, Z.mul_comm, <- pow_S. apply IH. }
  specialize (Hk O). exact Hk.
Qed.

Lemma scalar_repeat_ok x n : scalar_ok x -> scalar_repeat x n = replicate n x.
Proof.
  intros Hx. unfold scalar_repeat. change s_1 with 1.
  rewrite scalar_powers_ok, vector_mult_ok by auto with machine.
  unfold powers. generalize 0%nat. induction n as [|n IH]; intros k; cbn; [reflexivity|].
  rewrite Z.pow_1_l by lia. change (1 mod L) with 1. rewrite Z.mul_1_r, Z.mod_small by exact Hx.
  f_equal. apply IH.
Qed.

(** *** Points *)

Lemma zip_add_enc g h : zip_with add (enc <$> g) (enc <$> h) = enc <$> vadd g h.
Proof.
  revert h; induction g as [|x g IH]; intros [|y h]; cbn; try reflexivity.
  rewrite add_enc. f_equal. apply IH.
Qed.

Lemma vector_add_V_P_ok g h : (length g <= length h)%nat ->
  vector_add_V_P (enc <$> g) (enc <$> h) = Returns (enc <$> vadd g h).
Proof.
  intros Hl. unfold vector_add_V_P. rewrite leb_ok by (rewrite !length_fmap; assumption). cbn.
  now rewrite zip_add_enc.
Qed.

Lemma vector_multP_V_ok a g : scalars_ok a -> nonzeros g -> (length a <= length g)%nat ->
  vector_multP_V a (enc <$> g) = Returns (enc <$> vhad a g).
Proof.
  intros Ha Hg Hl. unfold vector_multP_V. rewrite leb_ok by (rewrite length_fmap; assumption). cbn. f_equal.
  clear Hl. revert g Hg. induction Ha as [|x a Hx _ IH]; intros g Hg; [reflexivity|].
  destruct Hg as [|y g Hy Hg]; [reflexivity|]. cbn. rewrite mult_enc by auto. f_equal. now apply IH.
Qed.

Lemma scalar_multP_V_ok c g : scalar_ok c -> nonzeros g ->
  scalar_multP_V c (enc <$> g) = Returns (enc <$> vscale c g).
Proof.
  intros Hc Hg. unfold scalar_multP_V. rewrite scalar_repeat_ok, length_fmap by assumption.
  rewrite vector_multP_V_ok; [|now apply Forall_replicate|assumption|now rewrite length_replicate].
  do 2 f_equal. clear Hg. induction g as [|x g IH]; cbn; [reflexivity|]. now f_equal.
Qed.

Lemma vector_sum_P_enc ks : vector_sum_P (enc <$> ks) = enc (sumZ ks).
Proof. apply sum_enc. Qed.

Lemma vector_commit_ok a g : scalars_ok a -> nonzeros g -> (length a <= length g)%nat ->
  vector_commit a (enc <$> g) = Returns (enc (dot a g)).
Proof.
  intros Ha Hg Hl. unfold vector_commit. rewrite leb_ok by (rewrite length_fmap; assumption).
  rewrite vector_multP_V_ok by assumption. cbn. f_equal. apply vector_sum_P_enc.
Qed.

Lemma safe_points_enc G : forallb is_safe_point G = true -> exists g, G = enc <$> g /\ nonzeros g.
Proof.
  induction G as [|P G IH]; cbn; [exists []; split; [reflexivity|constructor]|].
  intros [HP HG]%andb_prop. destruct (IH HG) as (g & -> & Hg).
  apply is_safe_point_spec in HP as (k & Hk & ->). exists (k :: g). split; [reflexivity|now constructor].
Qed.

Lemma nonzeros_of_safe g : forallb is_safe_point (enc <$> g) = true -> nonzeros g.
Proof.
  induction g as [|k g IH]; cbn; [constructor|]. intros [Hk Hg]%andb_prop. constructor; [|now apply IH].
  rewrite is_safe_point_enc in Hk. now apply bool_decide_eq_true in Hk.
Qed.

Lemma nonzeros_safe g : nonzeros g -> forallb is_safe_point (enc <$> g) = true.
Proof.
  induction 1 as [|k g Hk _ IH]; cbn; [reflexivity|].
  rewrite is_safe_point_enc, bool_decide_eq_true_2 by assumption. exact IH.
Qed.

Lemma homomorphic_hash_ok g h a b w c :
  scalars_ok a -> scalars_ok b -> scalar_ok c -> nonzeros g -> nonzeros h -> ~ w ≡ₗ 0 ->
  (length a <= length g)%nat -> (length b <= length h)%nat ->
  homomorphic_hash (enc <$> g) (enc <$> h) a b (enc w) c = Returns (enc (dot a g + dot b h + c * w)).
Proof.
  intros. unfold homomorphic_hash. rewrite !vector_commit_ok by assumption. cbn.
  rewrite mult_enc, !add_enc by auto. reflexivity.
Qed.

End Laws.

(** *** Halving *)

Lemma nat_land_1 n : Nat.land n 1 = (n mod 2)%nat.
Proof. exact (Nat.land_ones n 1). Qed.

Lemma split_vector_ok {A} (v : list A) n :
  (0 < n)%nat -> length v = (n + n)%nat -> split_vector v = Returns (take n v, drop n v).
Proof.
  intros Hn Hl. unfold split_vector, throw_if. destruct v as [|x v]; [cbn in Hl; lia|].
  rewrite bool_decide_eq_false_2 by discriminate. cbn [negb throw_unless mbind result_bind].
  rewrite Hl, nat_land_1.
  replace (n + n)%nat with (n * 2)%nat by lia. rewrite Nat.Div0.mod_mul, Nat.div_mul by lia. reflexivity.
Qed.

Lemma split_vector_sizes {A} (v a b : list A) :
  split_vector v = Returns (a, b) -> v = a ++ b /\ length a = length b /\ (0 < length a)%nat.
Proof.
  unfold split_vector. intros H. apply throw_unless_inv in H as [H1 H].
  apply throw_unless_inv in H as [H2 H]. injection H as <- <-. to_prop.
  apply bool_decide_eq_false in H1. rewrite take_drop. split; [reflexivity|].
  rewrite nat_land_1 in H2.
  assert (length v <> 0)%nat by (destruct v; [contradiction|discriminate]).
  rewrite length_take, length_drop. pose proof (Nat.div_mod_eq (length v) 2) as E.
  rewrite H2 in E. change (Nat.divmod (length v) 1 0 1).1 with (length v / 2)%nat.
  set (m := (length v / 2)%nat) in *. clearbody m. lia.
Qed.

Lemma vector_concat_ok xs : vector_concat xs = concat xs.
Proof.
  unfold vector_concat. assert (H : forall acc, foldl (fun x y => x ++ y) acc xs = acc ++ concat xs); [|apply H].
  induction xs as [|x xs IH]; intros acc; cbn; [now rewrite app_nil_r|]. now rewrite IH, app_assoc.
Qed.

End VectorOps.
