(* ===== verification/InnerProduct.v ===== *)
(** The inner-product argument
    ([src/src/math/ringct/functional/innerProductArgument_gen.cpp] and
    [innerProductArgument_verify.cpp]). *)

From S2P Require Import Prelude Hash Primality Group ModelGroup Key RctOps VectorOps.

Module InnerProduct.
Import RctOps VectorOps.

Record InnerProductArgument := {
  ipa_P : ec_point; ipa_G : pointV; ipa_H : pointV;
  ipa_L : ec_point; ipa_R : ec_point; ipa_u : ec_point }.

Abbreviation LR_V := (list (ec_point * ec_point)).

Record RecursiveInnerProductArgument := {
  ripa_P : ec_point; ripa_G : pointV; ripa_H : pointV; ripa_LR : LR_V;
  ripa_a : ec_scalar; ripa_b : ec_scalar; ripa_u : ec_point }.

Section Protocol.
Context `{Sha3} `{Sodium}.

Definition init_inner_product_argument (G H : pointV) (a b : scalarV) (u : ec_point)
    : result InnerProductArgument :=
  '(a_L, a_R) ← split_vector a;
  '(b_L, b_R) ← split_vector b;
  c_L ← inner_product a_L b_R;
  c_R ← inner_product a_R b_L;
  '(G_L, G_R) ← split_vector G;
  '(H_L, H_R) ← split_vector H;
  L ← homomorphic_hash G_R H_L a_L b_R u c_L;
  R ← homomorphic_hash G_L H_R a_R b_L u c_R;
  t ← inner_product a b;
  P ← homomorphic_hash G H a b u t;
  Returns {| ipa_P := P; ipa_G := G; ipa_H := H; ipa_L := L; ipa_R := R; ipa_u := u |}.

Definition finish_inner_product_argument (a b : scalarV) (challenge : ec_scalar)
    : result (scalarV * scalarV) :=
  '(a_L, a_R) ← split_vector a;
  '(b_L, b_R) ← split_vector b;
  let challenge_inv := multiplicative_inverse challenge in
  new_a ← vector_add_V (vector_mult a_L challenge) (vector_mult a_R challenge_inv);
  new_b ← vector_add_V (vector_mult b_L challenge_inv) (vector_mult b_R challenge);
  Returns (new_a, new_b).

Definition split_generators_with_challenge (G H : pointV) (challenge : ec_scalar)
    : result (pointV * pointV) :=
  '(G_L, G_R) ← split_vector G;
  '(H_L, H_R) ← split_vector H;
  let challenge_inv := multiplicative_inverse challenge in
  g1 ← scalar_multP_V challenge_inv G_L;
  g2 ← scalar_multP_V challenge G_R;
  new_G ← vector_add_V_P g1 g2;
  h1 ← scalar_multP_V challenge H_L;
  h2 ← scalar_multP_V challenge_inv H_R;
  new_H ← vector_add_V_P h1 h2;
  Returns (new_G, new_H).

(** The ten-argument [make_recursive_inner_product_argument].  Every call halves
    [G], so the length of [G] is enough fuel. *)
Fixpoint make_recursive_inner_product_argument_loop (fuel : nat) (P : ec_point) (G_0 H_0 G H : pointV)
    (a b : scalarV) (u : ec_point) (challenge : ec_scalar) (LR : LR_V)
    : result (option RecursiveInnerProductArgument) :=
  match fuel with
  | O => Returns None
  | S fuel' =>
    if bool_decide (G = []) then Returns None
    else if (length G =? 1)%nat then
      Returns (Some {| ripa_P := P; ripa_G := G_0; ripa_H := H_0; ripa_LR := LR;
                       ripa_a := hd 0 a; ripa_b := hd 0 b; ripa_u := u |})
    else
      ipa ← init_inner_product_argument G H a b u;
      match maybe_hash_V_to_non_zero_scalar [challenge; to_inv8 (ipa_L ipa); to_inv8 (ipa_R ipa)] with
      | None => Returns None
      | Some new_challenge =>
        '(a_half, b_half) ← finish_inner_product_argument a b new_challenge;
        let new_LR := LR ++ [(ipa_L ipa, ipa_R ipa)] in
        '(G_half, H_half) ← split_generators_with_challenge G H new_challenge;
        make_recursive_inner_product_argument_loop fuel' P G_0 H_0 G_half H_half a_half b_half u
          new_challenge new_LR
      end
  end.

Definition make_recursive_inner_product_argument (G H : pointV) (a b : scalarV) (u : ec_point)
    (challenge : ec_scalar) : result (option RecursiveInnerProductArgument) :=
  t ← inner_product a b;
  P ← homomorphic_hash G H a b u t;
  make_recursive_inner_product_argument_loop (S (length G)) P G H G H a b u challenge [].

(** Verifier *)

Definition verify_half (P L R : ec_point) (challenge : ec_scalar) : ec_point :=
  let x := challenge in
  let x_inv := multiplicative_inverse x in
  (L ^ₚ (x *ₛ x)) +ₚ P +ₚ (R ^ₚ (x_inv *ₛ x_inv)).

Definition verify_inner_product_argument (ipa : InnerProductArgument) (challenge : ec_scalar)
    (a_half b_half : scalarV) : result bool :=
  let x := challenge in
  let x_inv := multiplicative_inverse x in
  c ← inner_product a_half b_half;
  h ← homomorphic_hash_full (ipa_G ipa) (ipa_H ipa)
        (vector_mult a_half x_inv) (vector_mult a_half x)
        (vector_mult b_half x) (vector_mult b_half x_inv) (ipa_u ipa) c;
  let p := verify_half (ipa_P ipa) (ipa_L ipa) (ipa_R ipa) x in
  Returns (h =? p).

Fixpoint verify_recursive_loop (LR : LR_V) (P : ec_point) (G H : pointV) (a b : ec_scalar)
    (u : ec_point) (challenge : ec_scalar) : result bool :=
  match LR with
  | [] => Returns false
  | (L, R) :: new_LR =>
    match maybe_hash_V_to_non_zero_scalar [challenge; to_inv8 L; to_inv8 R] with
    | None => Returns false
    | Some new_challenge =>
      match new_LR with
      | [] =>
        verify_inner_product_argument
          {| ipa_P := P; ipa_G := G; ipa_H := H; ipa_L := L; ipa_R := R; ipa_u := u |}
          new_challenge [a] [b]
      | _ =>
        '(G_half, H_half) ← split_generators_with_challenge G H new_challenge;
        verify_recursive_loop new_LR (verify_half P L R new_challenge) G_half H_half a b u new_challenge
      end
    end
  end.

Definition verify_recursive_inner_product_argument (ipa : RecursiveInnerProductArgument)
    (challenge : ec_scalar) : result bool :=
  verify_recursive_loop (ripa_LR ipa) (ripa_P ipa) (ripa_G ipa) (ripa_H ipa) (ripa_a ipa) (ripa_b ipa)
    (ripa_u ipa) challenge.

(** No point that is multiplied along the protocol is the identity.  (The curve
    library refuses to multiply the identity; with honest generators the
    condition fails with negligible probability.) *)
Fixpoint ipa_points_safe (fuel : nat) (G H : pointV) (a b : scalarV) (u : ec_point)
    (challenge : ec_scalar) : bool :=
  match fuel with
  | O => true
  | S fuel' =>
    if (length G <=? 1)%nat then true
    else
      forallb is_safe_point G && forallb is_safe_point H &&
      match init_inner_product_argument G H a b u with
      | Throws => true
      | Returns ipa =>
        is_safe_point (ipa_L ipa) && is_safe_point (ipa_R ipa) &&
        match maybe_hash_V_to_non_zero_scalar [challenge; to_inv8 (ipa_L ipa); to_inv8 (ipa_R ipa)] with
        | None => true
        | Some x =>
          match finish_inner_product_argument a b x, split_generators_with_challenge G H x with
          | Returns (a', b'), Returns (G', H') => ipa_points_safe fuel' G' H' a' b' u x
          | _, _ => true
          end
        end
      end
  end.

End Protocol.

(** ** Completeness *)

Definition half_size (n : nat) (l : list Z) : Prop := length l = (n + n)%nat.

(** The folding step on integer vectors. *)
Definition fold_vec (x y : Z) (n : nat) (v : list Z) : list Z :=
  vadd (vscale x (take n v)) (vscale y (drop n v)).

Lemma length_fold_vec x y n v : length v = (n + n)%nat -> length (fold_vec x y n v) = n.
Proof.
  intros Hl. unfold fold_vec. rewrite length_vadd, !length_vscale, length_take, length_drop. lia.
Qed.

Lemma dot_fold x y n a b :
  length a = (n + n)%nat -> length b = (n + n)%nat ->
  dot (fold_vec x y n a) (fold_vec y x n b) =
  x * y * dot a b + x * x * dot (take n a) (drop n b) + y * y * dot (drop n a) (take n b).
Proof.
  intros Ha Hb. unfold fold_vec.
  rewrite dot_vadd_l by (rewrite !length_vscale, length_take, length_drop; lia).
  rewrite !dot_vadd_r by (rewrite !length_vscale, length_take, length_drop; lia).
  rewrite !dot_vscale_l, !dot_vscale_r.
  rewrite <- (take_drop n a) at 5. rewrite <- (take_drop n b) at 5.
  rewrite dot_app by (rewrite !length_take; lia). ring.
Qed.

(** The relation between the two commitments of a round. *)
Definition ipa_value (a b g h : list Z) (w : Z) : Z := dot a g + dot b h + dot a b * w.

Lemma ipa_fold x y n a b g h w :
  x * y ≡ₗ 1 -> length a = (n + n)%nat -> length b = (n + n)%nat ->
  length g = (n + n)%nat -> length h = (n + n)%nat ->
  ipa_value (fold_vec x y n a) (fold_vec y x n b) (fold_vec y x n g) (fold_vec x y n h) w ≡ₗ
  x * x * (dot (take n a) (drop n g) + dot (drop n b) (take n h) + dot (take n a) (drop n b) * w)
  + ipa_value a b g h w
  + y * y * (dot (drop n a) (take n g) + dot (take n b) (drop n h) + dot (drop n a) (take n b) * w).
Proof.
  intros Hxy Ha Hb Hg Hh. unfold ipa_value. rewrite !dot_fold by assumption.
  rewrite (Z.mul_comm y x), Hxy. apply eq_eqL. ring.
Qed.

Section Completeness.
Context `{HL : Sha3Laws} `{SL : SodiumLaws}.

Section Round.
Context (n : nat) (a b g h : list Z) (w : Z).
Context (Hn : (0 < n)%nat) (Ha : length a = (n + n)%nat) (Hb : length b = (n + n)%nat)
        (Hg : length g = (n + n)%nat) (Hh : length h = (n + n)%nat)
        (Hao : scalars_ok a) (Hbo : scalars_ok b) (Hgo : nonzeros g) (Hho : nonzeros h)
        (Hw : ~ w ≡ₗ 0).

Definition round_L : Z :=
  dot (take n a) (drop n g) + dot (drop n b) (take n h) + dot (take n a) (drop n b) * w.
Definition round_R : Z :=
  dot (drop n a) (take n g) + dot (take n b) (drop n h) + dot (drop n a) (take n b) * w.

Lemma init_ok :
  init_inner_product_argument (enc <$> g) (enc <$> h) a b (enc w) =
  Returns {| ipa_P := enc (ipa_value a b g h w); ipa_G := enc <$> g; ipa_H := enc <$> h;
             ipa_L := enc round_L; ipa_R := enc round_R; ipa_u := enc w |}.
Proof using SL Hn Ha Hb Hg Hh Hao Hbo Hgo Hho Hw.
  unfold init_inner_product_argument.
  rewrite !(split_vector_ok _ n) by (rewrite ?length_fmap; assumption).
  cbn [mbind result_bind].
  rewrite <- !fmap_take, <- !fmap_drop.
  assert (Hto : forall m v, nonzeros v -> nonzeros (take m v)) by (intros; now apply Forall_take).
  assert (Hdo : forall m v, nonzeros v -> nonzeros (drop m v)) by (intros; now apply Forall_drop).
  rewrite !inner_product_ok by (auto with machine; rewrite ?length_take, ?length_drop; lia).
  cbn [mbind result_bind].
  rewrite !homomorphic_hash_ok by (auto with machine; rewrite ?length_take, ?length_drop; lia).
  cbn [mbind result_bind].
  do 2 f_equal; unfold round_L, round_R, ipa_value; apply enc_eq; rewrite eqL_mod; apply eq_eqL; ring.
Qed.

Context (x : Z) (Hx : Key.secret_ok x).
Let y := multiplicative_inverse x.

Lemma challenge_inv_ok : scalar_ok y /\ x * y ≡ₗ 1.
Proof using Hx SL. destruct Hx. now apply multiplicative_inverse_ok. Qed.

Definition folded_a : list Z := vmod (fold_vec x y n a).
Definition folded_b : list Z := vmod (fold_vec y x n b).

Lemma fold_vec_vmod (c d : Z) v :
  vmod (vadd (vmod (vscale c (take n v))) (vmod (vscale d (drop n v)))) = vmod (fold_vec c d n v).
Proof. apply eqV_vmod. now rewrite !vmod_eqV. Qed.

Lemma finish_ok : finish_inner_product_argument a b x = Returns (folded_a, folded_b).
Proof using SL Hn Ha Hb Hao Hbo Hx.
  clear Hg Hh.
  destruct challenge_inv_ok as [Hy _]. destruct Hx as [Hxo _].
  unfold finish_inner_product_argument. rewrite !(split_vector_ok _ n) by assumption.
  cbn [mbind result_bind]. fold y. rewrite !vector_mult_ok by auto with machine.
  rewrite !vector_add_V_ok by (auto with machine; autorewrite with machine_rw; rewrite !length_take, !length_drop; lia).
  cbn [mbind result_bind]. now rewrite !fold_vec_vmod.
Qed.

Lemma split_generators_ok :
  split_generators_with_challenge (enc <$> g) (enc <$> h) x =
  Returns (enc <$> fold_vec y x n g, enc <$> fold_vec x y n h).
Proof using SL Hn Hg Hh Hgo Hho Hx.
  clear Ha Hb.
  destruct challenge_inv_ok as [Hy _]. destruct Hx as [Hxo _].
  unfold split_generators_with_challenge.
  rewrite !(split_vector_ok _ n) by (rewrite ?length_fmap; assumption).
  cbn [mbind result_bind]. fold y. rewrite <- !fmap_take, <- !fmap_drop.
  assert (Hto : forall v, nonzeros v -> nonzeros (take n v)) by (intros; now apply Forall_take).
  assert (Hdo : forall v, nonzeros v -> nonzeros (drop n v)) by (intros; now apply Forall_drop).
  rewrite !scalar_multP_V_ok by auto. cbn [mbind result_bind].
  rewrite !vector_add_V_P_ok by (autorewrite with machine_rw; rewrite !length_take, !length_drop; lia).
  reflexivity.
Qed.

Lemma verify_half_ok :
  ~ round_L ≡ₗ 0 -> ~ round_R ≡ₗ 0 ->
  verify_half (enc (ipa_value a b g h w)) (enc round_L) (enc round_R) x =
  enc (ipa_value folded_a folded_b (fold_vec y x n g) (fold_vec x y n h) w).
Proof using SL Hn Ha Hb Hg Hh Hao Hbo Hgo Hho Hw Hx.
  intros HL0 HR0. destruct challenge_inv_ok as [Hy Hxy]. destruct Hx as [Hxo _].
  unfold verify_half. fold y. rewrite !mult_enc, !add_enc by auto with machine.
  apply enc_eq. rewrite !scalar_mul_eqL by assumption.
  unfold folded_a, folded_b, ipa_value at 2. rewrite !vmod_eqV.
  change (dot (fold_vec x y n a) (fold_vec y x n g) + dot (fold_vec y x n b) (fold_vec x y n h)
          + dot (fold_vec x y n a) (fold_vec y x n b) * w)
    with (ipa_value (fold_vec x y n a) (fold_vec y x n b) (fold_vec y x n g) (fold_vec x y n h) w).
  rewrite ipa_fold by assumption. reflexivity.
Qed.

Lemma dot_fold_r c d (v u : list Z) :
  length v = n -> length u = (n + n)%nat ->
  dot (vscale c v) (take n u) + dot (vscale d v) (drop n u) = dot v (fold_vec c d n u).
Proof.
  intros Hv Hu. unfold fold_vec.
  rewrite dot_vadd_r by (rewrite !length_vscale, length_take, length_drop; lia).
  now rewrite !dot_vscale_l, !dot_vscale_r.
Qed.

(** One round: the verifier accepts the folded vectors. *)
Lemma verify_round_ok :
  ~ round_L ≡ₗ 0 -> ~ round_R ≡ₗ 0 ->
  verify_inner_product_argument
    {| ipa_P := enc (ipa_value a b g h w); ipa_G := enc <$> g; ipa_H := enc <$> h;
       ipa_L := enc round_L; ipa_R := enc round_R; ipa_u := enc w |} x folded_a folded_b
  = Returns true.
Proof using SL Hn Ha Hb Hg Hh Hao Hbo Hgo Hho Hw Hx.
  intros HL0 HR0. unfold verify_inner_product_argument.
  destruct challenge_inv_ok as [Hy _]. pose proof Hx as [Hxo _]. fold y.
  assert (Hfa : scalars_ok folded_a /\ length folded_a = n)
    by (split; [apply vmod_ok|unfold folded_a; rewrite length_vmod; now apply length_fold_vec]).
  assert (Hfb : scalars_ok folded_b /\ length folded_b = n)
    by (split; [apply vmod_ok|unfold folded_b; rewrite length_vmod; now apply length_fold_vec]).
  destruct Hfa as [Hfa Hla], Hfb as [Hfb Hlb].
  rewrite inner_product_ok by (assumption || lia). cbn [mbind result_bind].
  unfold homomorphic_hash_full. cbn [ipa_G ipa_H ipa_u ipa_P ipa_L ipa_R].
  rewrite !(split_vector_ok _ n) by (rewrite ?length_fmap; assumption).
  cbn [mbind result_bind]. rewrite <- !fmap_take, <- !fmap_drop, !vector_mult_ok by assumption.
  assert (Hto : forall v, nonzeros v -> nonzeros (take n v)) by (intros; now apply Forall_take).
  assert (Hdo : forall v, nonzeros v -> nonzeros (drop n v)) by (intros; now apply Forall_drop).
  rewrite !vector_commit_ok by (auto with machine; autorewrite with machine_rw; rewrite ?length_take, ?length_drop; lia).
  cbn [mbind result_bind]. rewrite verify_half_ok by assumption.
  rewrite mult_enc, !add_enc by auto with machine. f_equal. apply Z.eqb_eq, enc_eq.
  rewrite !vmod_eqV, eqL_mod. unfold ipa_value.
  rewrite <- (dot_fold_r y x folded_a g), <- (dot_fold_r x y folded_b h) by assumption.
  apply eq_eqL. ring.
Qed.

End Round.

(** The recursion: what is left of the proof convinces the verifier at the state
    the prover is in. *)
Lemma make_recursive_ok k : forall fuel a b g h w P G_0 H_0 ch LR,
  length a = (2 ^ k)%nat -> length b = (2 ^ k)%nat -> length g = (2 ^ k)%nat -> length h = (2 ^ k)%nat ->
  scalars_ok a -> scalars_ok b -> ~ w ≡ₗ 0 -> (k < fuel)%nat ->
  ipa_points_safe fuel (enc <$> g) (enc <$> h) a b (enc w) ch = true ->
  exists res,
    make_recursive_inner_product_argument_loop fuel P G_0 H_0 (enc <$> g) (enc <$> h) a b (enc w) ch LR
      = Returns res /\ (res = None -> zero_challenge) /\
    forall arg, res = Some arg ->
      (ripa_P arg = P /\ ripa_G arg = G_0 /\ ripa_H arg = H_0 /\ ripa_u arg = enc w) /\
      scalar_ok (ripa_a arg) /\ scalar_ok (ripa_b arg) /\
      exists suffix, ripa_LR arg = LR ++ suffix /\ length suffix = k /\
        (k = O -> a = [ripa_a arg] /\ b = [ripa_b arg]) /\
        (k <> O -> verify_recursive_loop suffix (enc (ipa_value a b g h w)) (enc <$> g) (enc <$> h)
                     (ripa_a arg) (ripa_b arg) (enc w) ch = Returns true).
Proof using HL SL.
  induction k as [|k IH]; intros fuel a b g h w P G_0 H_0 ch LR Ha Hb Hg Hh Hao Hbo Hw Hf Hsafe;
    (destruct fuel as [|fuel]; [lia|]); cbn [make_recursive_inner_product_argument_loop].
  - cbn in Ha, Hb, Hg. destruct a as [|a0 [|]], b as [|b0 [|]], g as [|g0 [|]]; try discriminate.
    rewrite bool_decide_eq_false_2 by discriminate. cbn. eexists. split; [reflexivity|].
    split; [discriminate|]. intros arg [= <-]. cbn. apply Forall_cons in Hao as [Hao _], Hbo as [Hbo _].
    split; [auto|]. split; [exact Hao|]. split; [exact Hbo|].
    exists []. rewrite app_nil_r. repeat split; tauto.
  - set (n := (2 ^ k)%nat) in *. assert (Hn : (0 < n)%nat) by (unfold n; pose proof (Nat.pow_nonzero 2 k); lia).
    assert (E2 : (2 ^ S k)%nat = (n + n)%nat) by (cbn; unfold n; lia). rewrite E2 in *.
    rewrite bool_decide_eq_false_2 by (destruct g; [cbn in Hg; lia|discriminate]).
    rewrite length_fmap, Hg. rewrite (proj2 (Nat.eqb_neq (n + n) 1)) by lia.
    cbn [ipa_points_safe] in Hsafe. rewrite length_fmap, Hg in Hsafe.
    rewrite (proj2 (Nat.leb_gt (n + n) 1)) in Hsafe by lia.
    apply andb_prop in Hsafe as [HGH Hsafe]. apply andb_prop in HGH as [HG HH].
    apply nonzeros_of_safe in HG, HH.
    rewrite (init_ok n) in Hsafe |- * by assumption.
    cbn [mbind result_bind ipa_L ipa_R] in Hsafe |- *.
    apply andb_prop in Hsafe as [HLR Hsafe]. apply andb_prop in HLR as [HL0 HR0].
    rewrite is_safe_point_enc, bool_decide_eq_true in HL0, HR0.
    destruct (maybe_hash_V_to_non_zero_scalar _) as [x|] eqn:Ech;
      [|eexists; split; [reflexivity|]; split; [eauto using zero_challenge_of|discriminate]].
    pose proof (maybe_hash_V_Some _ _ Ech) as Hx.
    rewrite (finish_ok n a b), (split_generators_ok n g h) in Hsafe |- * by assumption.
    cbn [mbind result_bind] in Hsafe |- *.
    assert (Hfa : length (folded_a n a x) = n /\ scalars_ok (folded_a n a x)).
    { split; [|apply vmod_ok]. unfold folded_a. rewrite length_vmod. now apply length_fold_vec. }
    assert (Hfb : length (folded_b n b x) = n /\ scalars_ok (folded_b n b x)).
    { split; [|apply vmod_ok]. unfold folded_b. rewrite length_vmod. now apply length_fold_vec. }
    destruct Hfa as [Hla Hfa], Hfb as [Hlb Hfb].
    pose proof (IH fuel _ _ _ _ w P G_0 H_0 x
                  (LR ++ [(enc (round_L n a b g h w), enc (round_R n a b g h w))])
                  Hla Hlb (length_fold_vec _ _ n g Hg) (length_fold_vec _ _ n h Hh)
                  Hfa Hfb Hw ltac:(lia) Hsafe) as (res & Eres & HN & Hres).
    exists res. split; [exact Eres|]. split; [exact HN|]. intros arg Harg.
    destruct (Hres arg Harg) as (Hfix & Hoa & Hob & suf & Hsuf & Hlen & Hzero & Hver).
    split; [exact Hfix|]. split; [exact Hoa|]. split; [exact Hob|].
    exists ((enc (round_L n a b g h w), enc (round_R n a b g h w)) :: suf).
    rewrite Hsuf, <- app_assoc. split; [reflexivity|]. split; [cbn; lia|]. split; [discriminate|].
    intros _. cbn [verify_recursive_loop]. rewrite Ech. destruct suf as [|lr suf].
    + destruct k; [|discriminate]. destruct (Hzero eq_refl) as [<- <-]. now apply (verify_round_ok n).
    + rewrite (split_generators_ok n g h) by assumption. cbn [mbind result_bind].
      rewrite (verify_half_ok n) by assumption. apply Hver. destruct k; [discriminate|lia].
Qed.

Lemma make_recursive_complete k a b g h w challenge :
  (0 < k)%nat -> length g = (2 ^ k)%nat -> length h = (2 ^ k)%nat ->
  length a = (2 ^ k)%nat -> length b = (2 ^ k)%nat -> scalars_ok a -> scalars_ok b ->
  nonzeros g -> nonzeros h -> ~ w ≡ₗ 0 ->
  ipa_points_safe (S (length g)) (enc <$> g) (enc <$> h) a b (enc w) challenge = true ->
  exists res, make_recursive_inner_product_argument (enc <$> g) (enc <$> h) a b (enc w) challenge = Returns res /\
    (res = None -> zero_challenge) /\
    forall arg, res = Some arg ->
      length (ripa_LR arg) = k /\ ripa_P arg = enc (ipa_value a b g h w) /\
      ripa_G arg = enc <$> g /\ ripa_H arg = enc <$> h /\ ripa_u arg = enc w /\
      verify_recursive_loop (ripa_LR arg) (enc (ipa_value a b g h w)) (enc <$> g) (enc <$> h)
        (ripa_a arg) (ripa_b arg) (enc w) challenge = Returns true.
Proof using HL SL.
  intros Hk Lg Lh La Lb Ha Hb Hg Hh Hw Hsafe.
  unfold make_recursive_inner_product_argument.
  rewrite inner_product_ok by (assumption || lia). cbn [mbind result_bind].
  rewrite homomorphic_hash_ok by (auto with machine; lia). cbn [mbind result_bind].
  assert (EP : enc (dot a g + dot b h + dot a b mod L * w) = enc (ipa_value a b g h w))
    by (apply enc_eq; unfold ipa_value; now rewrite eqL_mod).
  rewrite EP, length_fmap.
  edestruct (make_recursive_ok k) as (res & E & HN & Hres); [exact La|exact Lb|exact Lg|exact Lh|..];
    try eassumption; [rewrite Lg; pose proof (Nat.pow_gt_lin_r 2 k); lia|].
  exists res. split; [exact E|]. split; [exact HN|]. intros arg Harg.
  destruct (Hres arg Harg) as ((HP & HG0 & HH0 & Hu0) & _ & _ & suf & Hsuf & Hlen & _ & Hver).
  cbn [app] in Hsuf. rewrite Hsuf. repeat split; try assumption. apply Hver. lia.
Qed.

End Completeness.

(** Completeness of the inner-product argument.  On vectors of any length
    [2 ^ k], [k > 0], with no identity among the points that are multiplied, the
    prover never throws; it produces an argument unless some data hashes to the
    scalar zero; and the argument has [k] rounds and the verifier accepts it. *)
Theorem inner_product_argument_complete `{Sha3Laws} `{SodiumLaws} k G_V H_V a b u challenge :
  (0 < k)%nat -> length G_V = (2 ^ k)%nat -> length H_V = (2 ^ k)%nat ->
  length a = (2 ^ k)%nat -> length b = (2 ^ k)%nat -> scalars_ok a -> scalars_ok b ->
  is_safe_point u = true ->
  ipa_points_safe (S (length G_V)) G_V H_V a b u challenge = true ->
  exists res, make_recursive_inner_product_argument G_V H_V a b u challenge = Returns res /\
    (res = None -> zero_challenge) /\
    forall arg, res = Some arg ->
      length (ripa_LR arg) = k /\
      verify_recursive_inner_product_argument arg challenge = Returns true.
Proof.
  intros Hk HG HH Ha Hb Hao Hbo Hu Hsafe.
  assert (HGH : forallb is_safe_point G_V = true /\ forallb is_safe_point H_V = true).
  { cbn [ipa_points_safe] in Hsafe. rewrite (proj2 (Nat.leb_gt (length G_V) 1)) in Hsafe.
    - apply andb_prop in Hsafe as [HGH _]. now apply andb_prop in HGH.
    - rewrite HG. destruct k; [lia|]. cbn. pose proof (Nat.pow_nonzero 2 k). lia. }
  destruct HGH as [[g [-> Hg]]%safe_points_enc [h [-> Hh]]%safe_points_enc].
  apply is_safe_point_spec in Hu as (w & Hw & ->). rewrite length_fmap in HG, HH, Hsafe.
  destruct (make_recursive_complete k a b g h w challenge) as (res & E & HN & Hres); try assumption.
  exists res. split; [exact E|]. split; [exact HN|]. intros arg Harg.
  destruct (Hres arg Harg) as (Hlen & HP & HG0 & HH0 & Hu0 & Hver). split; [exact Hlen|].
  unfold verify_recursive_inner_product_argument. now rewrite HP, HG0, HH0, Hu0.
Qed.

Section Examples.
Import ModelGroup RollingDigest.

Definition example_G : pointV := enc <$> [3; 5; 7; 11].
Definition example_H : pointV := enc <$> [13; 17; 19; 23].

Lemma inner_product_argument_complete_witness :
  exists res,
    make_recursive_inner_product_argument example_G example_H [1; 2; 3; 4] [5; 6; 7; 8] (enc 9) 77 = Returns res /\
    (res = None -> zero_challenge) /\
    forall arg, res = Some arg ->
      length (ripa_LR arg) = 2%nat /\ verify_recursive_inner_product_argument arg 77 = Returns true.
Proof.
  apply (inner_product_argument_complete 2 example_G example_H [1; 2; 3; 4] [5; 6; 7; 8] (enc 9) 77);
    [lia | reflexivity | reflexivity | reflexivity | reflexivity
    | repeat constructor; vm_compute; congruence | repeat constructor; vm_compute; congruence
    | vm_compute; reflexivity | vm_compute; reflexivity].
Defined.

End Examples.

End InnerProduct.
