(* ===== verification/Bulletproof.v ===== *)
(** Bulletproof range proofs
    ([src/src/math/ringct/functional/bulletproofs_gen.cpp],
    [bulletproofs_verify.cpp], [controller/bulletproofs_gen.cpp] and
    [pseudo_functional/bulletproofs_verify.cpp]). *)

From S2P Require Import Prelude Hash Config Varint Primality Group ModelGroup Key RctOps VectorOps InnerProduct.

Module Bulletproof.
Import Config Key RctOps VectorOps InnerProduct.

Definition bit_width : nat := AMOUNT_BIT_WIDTH.
Definition max_outputs : nat := BULLETPROOF_MAX_OUTPUTS.
Definition max_vector_length : nat := bit_width * max_outputs.

(** [struct Bulletproof] *)
Record Bulletproof := {
  A : ec_point; S_ : ec_point; T1 : ec_point; T2 : ec_point;
  tau : ec_scalar; mu : ec_scalar; LR : LR_V;
  bp_a : ec_scalar; bp_b : ec_scalar; bp_t : ec_scalar }.

(** [bp_input_t]: an amount and its blinding factor *)
Abbreviation bp_input_t := (Z * ec_scalar)%type.

(** [ceiling_log2_review]: the loop doubles [y] in a 64-bit word, so it ends
    within 64 rounds for every input up to 2^63 (and never for a larger one). *)
Fixpoint ceiling_log2_loop (fuel : nat) (x y _log : Z) : Z * Z :=
  match fuel with
  | O => (y, _log)
  | S fuel' => if y <? x then ceiling_log2_loop fuel' x (u64_shl y 1) (_log + 1) else (y, _log)
  end.
Definition ceiling_log2_review (x : Z) : Z * Z := ceiling_log2_loop 64 x 1 0.

(** [int_to_bits] *)
Fixpoint int_to_bits_loop (n : nat) (x i : Z) : scalarV :=
  match n with
  | O => []
  | S n' => (if 0 <? Z.land x i then s_1 else s_0) :: int_to_bits_loop n' x (u64_shl i 1)
  end.
Definition int_to_bits (x : Z) : scalarV := int_to_bits_loop 64 x 1.

Section Protocol.
Context `{Sha3} `{Sodium}.

Definition get_bp_generator (base : ec_point) (idx : Z) : result ec_point :=
  let hashed := data_blob base ++ HASH_KEY_BULLETPROOF_EXPONENT ++ Varint.get_varint_data idx in
  let e := hash_to_point_via_field (h2d (sha3 hashed)) in
  _ ← throw_if (e =? identity);
  Returns e.

Definition get_bp_generator_G (idx : Z) : result ec_point := get_bp_generator H_point (idx ⊠ 2 ⊞ 1).
Definition get_bp_generator_H (idx : Z) : result ec_point := get_bp_generator H_point (idx ⊠ 2).

Definition get_bp_generator_G_V (n : nat) : result pointV :=
  result_mapM (fun i => get_bp_generator_G (Z.of_nat i)) (seq 0 n).
Definition get_bp_generator_H_V (n : nat) : result pointV :=
  result_mapM (fun i => get_bp_generator_H (Z.of_nat i)) (seq 0 n).

Definition hash_V_A_S (commits : pointV) (x y : ec_point) : option (ec_scalar * ec_scalar) :=
  hash_data_commit ← maybe_hash_V_to_non_zero_scalar (to_inv8 <$> commits);
  challenge_y ← maybe_hash_V_to_non_zero_scalar [hash_data_commit; to_inv8 x; to_inv8 y];
  challenge_z ← maybe_hash_V_to_non_zero_scalar [challenge_y];
  Some (challenge_y, challenge_z).

(** The vectors of the proof and its first messages.  A [None] challenge makes
    the caller draw fresh randomness. *)
Record bp_vectors := {
  bv_l : scalarV; bv_r : scalarV; bv_ip_challenge : ec_scalar; bv_challenge_y : ec_scalar;
  bv_A : ec_point; bv_S : ec_point; bv_T1 : ec_point; bv_T2 : ec_point;
  bv_tau : ec_scalar; bv_mu : ec_scalar }.

Definition padded_number (n : nat) : nat := Z.to_nat (fst (ceiling_log2_review (Z.of_nat n))).

Definition get_bp_vectors_for_inner_product_argument (xs : list bp_input_t)
    (alpha : ec_scalar) (sL sR : scalarV) (rho tau1 tau2 : ec_scalar) : result (option bp_vectors) :=
  let padded_number_of_inputs := padded_number (length xs) in
  let bits := ((fun x => int_to_bits x.1) <$> xs)
                ++ replicate (padded_number_of_inputs - length xs) (scalar_repeat s_0 bit_width) in
  let V := (fun x => commit x.1 x.2) <$> xs in
  let aL := vector_concat bits in
  let aR := vector_subtract aL s_1 in
  let total_bit_width := (padded_number_of_inputs * bit_width)%nat in
  G_V ← get_bp_generator_G_V total_bit_width;
  H_V ← get_bp_generator_H_V total_bit_width;
  cLG ← vector_commit aL G_V;
  cRH ← vector_commit aR H_V;
  let A := cLG +ₚ cRH +ₚ G_ alpha in
  sLG ← vector_commit sL G_V;
  sRH ← vector_commit sR H_V;
  let S := sLG +ₚ sRH +ₚ G_ rho in
  match hash_V_A_S V A S with
  | None => Returns None
  | Some (challenge_y, challenge_z) =>
    let l0 := vector_subtract aL challenge_z in
    let l1 := sL in
    let y_powers := scalar_powers challenge_y total_bit_width in
    let z_powers := scalar_powers challenge_z (padded_number_of_inputs + 2) in
    let two_powers := scalar_powers s_two bit_width in
    let z_exp_mult_two_exp_flatten :=
      vector_concat (vector_mult_V_monadic (take padded_number_of_inputs (drop 2 z_powers)) two_powers) in
    yaR ← hadamard_product y_powers (vector_add aR challenge_z);
    r0 ← vector_add_V yaR z_exp_mult_two_exp_flatten;
    r1 ← hadamard_product y_powers sR;
    t1a ← inner_product l0 r1;
    t1b ← inner_product l1 r0;
    let t1 := t1a +ₛ t1b in
    t2 ← inner_product l1 r1;
    let T1 := G_ tau1 +ₚ H_ t1 in
    let T2 := G_ tau2 +ₚ H_ t2 in
    match maybe_hash_V_to_non_zero_scalar [challenge_z; challenge_z; to_inv8 T1; to_inv8 T2] with
    | None => Returns None
    | Some challenge_x =>
      let blinding_factors := snd <$> xs in
      tau0 ← inner_product blinding_factors (drop 2 z_powers);
      let x := challenge_x in
      tau ← evaluate_polynomial [tau0; tau1; tau2] x;
      let mu := x *ₛ rho +ₛ alpha in
      l ← vector_add_V l0 (vector_mult l1 x);
      r ← vector_add_V r0 (vector_mult r1 x);
      t ← inner_product l r;
      match maybe_hash_V_to_non_zero_scalar [x; x; tau; mu; t] with
      | None => Returns None
      | Some inner_product_challenge =>
        Returns (Some {| bv_l := l; bv_r := r; bv_ip_challenge := inner_product_challenge;
                         bv_challenge_y := challenge_y; bv_A := A; bv_S := S; bv_T1 := T1; bv_T2 := T2;
                         bv_tau := tau; bv_mu := mu |})
      end
    end
  end.

(** One turn of the loop of [bulletproof_MAKE], after the random draws. *)
Definition bulletproof_attempt (xs : list bp_input_t) (alpha : ec_scalar) (sL sR : scalarV)
    (rho tau1 tau2 : ec_scalar) : result (option Bulletproof) :=
  let total_bit_width := (padded_number (length xs) * bit_width)%nat in
  bp ← get_bp_vectors_for_inner_product_argument xs alpha sL sR rho tau1 tau2;
  match bp with
  | None => Returns None
  | Some v =>
    let challenge_y_inv_powers := scalar_powers (multiplicative_inverse (bv_challenge_y v)) total_bit_width in
    G_V ← get_bp_generator_G_V total_bit_width;
    H_V ← get_bp_generator_H_V total_bit_width;
    I_V ← vector_multP_V challenge_y_inv_powers H_V;
    ipa ← make_recursive_inner_product_argument G_V I_V (bv_l v) (bv_r v)
            (H_ (bv_ip_challenge v)) (bv_ip_challenge v);
    match ipa with
    | None => Returns None
    | Some ipa =>
      t ← inner_product (bv_l v) (bv_r v);
      Returns (Some {| A := bv_A v; S_ := bv_S v; T1 := bv_T1 v; T2 := bv_T2 v; tau := bv_tau v;
                       mu := bv_mu v; LR := ripa_LR ipa; bp_a := ripa_a ipa; bp_b := ripa_b ipa; bp_t := t |})
    end
  end.

(** [bulletproof_MAKE]: [random i] is the [i]-th scalar drawn; [attempts] bounds
    the number of turns of the loop. *)
Fixpoint bulletproof_MAKE_loop (attempts : nat) (xs : list bp_input_t) (random : nat -> ec_scalar)
    (used : nat) : result (option Bulletproof) :=
  match attempts with
  | O => Returns None
  | Datatypes.S attempts' =>
    let w := (padded_number (length xs) * bit_width)%nat in
    let alpha := random used in
    let sL := random <$> seq (used + 1) w in
    let sR := random <$> seq (used + 1 + w) w in
    let rho := random (used + 1 + w + w)%nat in
    let tau1 := random (used + 2 + w + w)%nat in
    let tau2 := random (used + 3 + w + w)%nat in
    proof ← bulletproof_attempt xs alpha sL sR rho tau1 tau2;
    match proof with
    | None => bulletproof_MAKE_loop attempts' xs random (used + 4 + w + w)
    | Some p => Returns (Some p)
    end
  end.

Definition bulletproof_MAKE (attempts : nat) (xs : list bp_input_t) (random : nat -> ec_scalar)
    : result (option Bulletproof) :=
  _ ← throw_unless (negb (bool_decide (xs = [])));
  _ ← throw_unless (length xs <=? max_outputs)%nat;
  _ ← result_mapM (fun x => throw_unless (is_reduced x.2)) xs;
  bulletproof_MAKE_loop attempts xs random 0.

(** *** Verification *)

Record HashChallenge := {
  V_A_S : ec_scalar; V_A_S_rehash : ec_scalar; V_A_S_T1_T2 : ec_scalar;
  inner_product_challenge : ec_scalar }.

Definition get_hash_challenges (commits : pointV) (proof : Bulletproof) : option HashChallenge :=
  '(challenge_y, challenge_z) ← hash_V_A_S commits (A proof) (S_ proof);
  challenge_x ← maybe_hash_V_to_non_zero_scalar
                  [challenge_z; challenge_z; to_inv8 (T1 proof); to_inv8 (T2 proof)];
  ip ← maybe_hash_V_to_non_zero_scalar [challenge_x; challenge_x; tau proof; mu proof; bp_t proof];
  Some {| V_A_S := challenge_y; V_A_S_rehash := challenge_z; V_A_S_T1_T2 := challenge_x;
          inner_product_challenge := ip |}.

(** The constant coefficient of the blinding check *)
Definition compute_coefficient_T_0 (commits : pointV) (z y : ec_scalar) : result ec_point :=
  let padded_number_of_inputs := padded_number (length commits) in
  let total_bit_width := (padded_number_of_inputs * bit_width)%nat in
  let delta_1 := (z -ₛ (z *ₛ z)) *ₛ sum_of_scalar_powers y total_bit_width in
  let z_powers := scalar_powers z (padded_number_of_inputs + 3) in
  let z_sum_skip_3 := vector_sum (take padded_number_of_inputs (drop 3 z_powers)) in
  let delta_2 := z_sum_skip_3 *ₛ sum_of_scalar_powers s_2 bit_width in
  let delta := delta_1 -ₛ delta_2 in
  zV ← vector_commit (take (length commits) (drop 2 z_powers)) commits;
  Returns (H_ delta +ₚ zV).

(** [bulletproof_VERIFY] with the generators *)
Definition bulletproof_VERIFY_with (commits : pointV) (proof : Bulletproof) (G_V H_V : pointV) : result bool :=
  if negb (1 <=? length commits)%nat then Returns false else
  if negb (0 <? length (LR proof))%nat then Returns false else
  if negb (length commits <=? max_outputs)%nat then Returns false else
  let log_bit_width := snd (ceiling_log2_review (Z.of_nat bit_width)) in
  let padded_number_of_inputs := padded_number (length commits) in
  let log_padded_number_of_inputs := snd (ceiling_log2_review (Z.of_nat (length commits))) in
  let rounds := log_padded_number_of_inputs + log_bit_width in
  if negb (Z.of_nat (length (LR proof)) =? rounds) then Returns false else
  match get_hash_challenges commits proof with
  | None => Returns false
  | Some challenges =>
    let blinding_terms_commit_L := H_ (bp_t proof) +ₚ G_ (tau proof) in
    let total_bit_width := (padded_number_of_inputs * bit_width)%nat in
    let z := V_A_S_rehash challenges in
    let y := V_A_S challenges in
    let z_powers := scalar_powers z (padded_number_of_inputs + 3) in
    coefficient_T_0 ← compute_coefficient_T_0 commits z y;
    let challenge_x := V_A_S_T1_T2 challenges in
    blinding_terms_commit_R ← evaluate_polynomial_P [coefficient_T_0; T1 proof; T2 proof] challenge_x;
    if negb (blinding_terms_commit_L =? blinding_terms_commit_R) then Returns false else
    let challenge_z := V_A_S_rehash challenges in
    let challenge_y := V_A_S challenges in
    let y_powers := scalar_powers challenge_y total_bit_width in
    let y_inv := multiplicative_inverse challenge_y in
    let y_inv_powers := scalar_powers y_inv total_bit_width in
    let two_powers := scalar_powers s_two bit_width in
    let z_exp_mult_two_exp_flatten :=
      vector_concat (vector_mult_V_monadic (take padded_number_of_inputs (drop 2 z_powers)) two_powers) in
    P_G ← vector_commit (scalar_repeat (s_zero -ₛ challenge_z) total_bit_width) G_V;
    I_V ← vector_multP_V y_inv_powers H_V;
    P_I_scalars ← vector_add_V z_exp_mult_two_exp_flatten (vector_mult y_powers challenge_z);
    P_I ← vector_commit P_I_scalars I_V;
    let u := H_ (inner_product_challenge challenges) in
    let P := vector_sum_P [A proof; S_ proof ^ₚ challenge_x; P_G; P_I; u ^ₚ bp_t proof;
                           G_ (s_zero -ₛ mu proof)] in
    verify_recursive_inner_product_argument
      {| ripa_P := P; ripa_G := take total_bit_width G_V; ripa_H := I_V; ripa_LR := LR proof;
         ripa_a := bp_a proof; ripa_b := bp_b proof; ripa_u := u |}
      (inner_product_challenge challenges)
  end.

(** [init_generators] fills the two global arrays once, with a value that does
    not depend on the state; [bulletproof_VERIFY] runs it first. *)
Definition init_generators : result (pointV * pointV) :=
  Gs ← get_bp_generator_G_V max_vector_length;
  Hs ← get_bp_generator_H_V max_vector_length;
  Returns (Gs, Hs).

Definition bulletproof_VERIFY (commits : pointV) (proof : Bulletproof) : result bool :=
  '(G_V, H_V) ← init_generators;
  bulletproof_VERIFY_with commits proof G_V H_V.

End Protocol.

(** ** Sizes and bits *)

Lemma ceiling_log2_loop_spec fuel x l :
  0 <= l -> l + Z.of_nat fuel = 64 -> 1 <= x <= 2 ^ 63 -> (l = 0 \/ 2 ^ (l - 1) < x) -> 2 ^ l <= 2 ^ 63 ->
  let '(y, k) := ceiling_log2_loop fuel x (2 ^ l) l in
  0 <= k <= 63 /\ y = 2 ^ k /\ x <= y /\ (k = 0 \/ 2 ^ (k - 1) < x).
Proof.
  revert l; induction fuel as [|fuel IH]; intros l Hl Hf Hx Hlow Hy; cbn [ceiling_log2_loop].
  - assert (l = 64) as -> by lia. cbn in Hy. lia.
  - destruct (2 ^ l <? x) eqn:E; to_prop.
    + assert (Hlt : 2 ^ l < 2 ^ 63) by lia. apply Z.pow_lt_mono_r_iff in Hlt; [|lia|lia].
      assert (Es : u64_shl (2 ^ l) 1 = 2 ^ (l + 1)).
      { unfold u64_shl. rewrite Z.shiftl_mul_pow2, <- Z.pow_add_r by lia. apply wrap_small.
        split; [apply Z.pow_nonneg; lia|apply Z.pow_lt_mono_r; lia]. }
      rewrite Es. apply IH; [lia|lia|lia| |apply Z.pow_le_mono_r; lia].
      right. now replace (l + 1 - 1) with l by lia.
    + repeat split; lia.
Qed.

(** [ceiling_log2_review] returns the least power of two that is at least [x],
    and its logarithm. *)
Lemma ceiling_log2_review_spec x :
  1 <= x <= 2 ^ 63 ->
  let '(y, k) := ceiling_log2_review x in
  0 <= k <= 63 /\ y = 2 ^ k /\ x <= y /\ (k = 0 \/ 2 ^ (k - 1) < x).
Proof. intros Hx. apply (ceiling_log2_loop_spec 64 x 0); lia. Qed.

Lemma padded_number_spec m :
  (1 <= m <= max_outputs)%nat ->
  exists k, (k <= 4)%nat /\ snd (ceiling_log2_review (Z.of_nat m)) = Z.of_nat k /\
            padded_number m = (2 ^ k)%nat /\ (m <= 2 ^ k)%nat.
Proof.
  intros Hm. pose proof (ceiling_log2_review_spec (Z.of_nat m)) as Hs.
  unfold padded_number, max_outputs, BULLETPROOF_MAX_OUTPUTS in *.
  destruct (ceiling_log2_review (Z.of_nat m)) as [y k]. cbn [fst snd].
  destruct Hs as (Hk & -> & Hle & Hlow); [lia|]. exists (Z.to_nat k).
  assert (Hk4 : k <= 4).
  { destruct Hlow as [->|Hlow]; [lia|]. assert (2 ^ (k - 1) < 2 ^ 4) as H4 by lia.
    apply Z.pow_lt_mono_r_iff in H4; lia. }
  assert (E : Z.to_nat (2 ^ k) = (2 ^ Z.to_nat k)%nat) by (rewrite Z2Nat.inj_pow by lia; reflexivity).
  rewrite Z2Nat.id by lia. repeat split; lia.
Qed.

Lemma int_to_bits_loop_digits n x i :
  0 <= i -> i + Z.of_nat n = 64 -> 0 <= x ->
  int_to_bits_loop n x (wrap 64 (2 ^ i)) = le_digits 2 n (x / 2 ^ i).
Proof.
  revert i; induction n as [|n IH]; intros i Hi Hn Hx; cbn [int_to_bits_loop le_digits]; [reflexivity|].
  assert (Hw : wrap 64 (2 ^ i) = 2 ^ i).
  { apply wrap_small. split; [apply Z.pow_nonneg; lia|apply Z.pow_lt_mono_r; lia]. }
  rewrite Hw. f_equal.
  - rewrite <- Z.testbit_spec' by lia.
    assert (E : Z.land x (2 ^ i) = Z.b2z (Z.testbit x i) * 2 ^ i).
    { apply Z.bits_inj'. intros k Hk. rewrite Z.land_spec, Z.pow2_bits_eqb by lia.
      destruct (Z.testbit x i) eqn:Eb; cbn [Z.b2z]; rewrite ?Z.mul_1_l, ?Z.mul_0_l, ?Z.bits_0, ?Z.pow2_bits_eqb by lia;
        destruct (i =? k) eqn:Ek; to_prop; subst; rewrite ?Eb, ?andb_false_r; reflexivity. }
    rewrite E. destruct (Z.testbit x i); cbn [Z.b2z]; [|reflexivity].
    rewrite Z.mul_1_l, (proj2 (Z.ltb_lt 0 (2 ^ i))) by (apply Z.pow_pos_nonneg; lia). reflexivity.
  - unfold u64_shl. rewrite Z.shiftl_mul_pow2, <- Z.pow_add_r by lia.
    rewrite IH by lia. rewrite Z.div_div by (try apply Z.pow_pos_nonneg; try apply Z.pow_nonzero; lia).
    rewrite Z.pow_add_r by lia. reflexivity.
Qed.

Lemma int_to_bits_digits x : fits 64 x -> int_to_bits x = le_digits 2 64 x.
Proof.
  intros Hx. unfold int_to_bits. change 1 with (wrap 64 (2 ^ 0)).
  rewrite int_to_bits_loop_digits by (unfold fits in Hx; lia). now rewrite Z.div_1_r.
Qed.

End Bulletproof.
