(* ===== verification/BulletproofComplete.v ===== *)
(** Completeness of the range proof: what [bulletproof_MAKE] produces,
    [bulletproof_VERIFY] accepts. *)

From S2P Require Import Prelude Hash Config Varint Primality Group ModelGroup Key RctOps VectorOps InnerProduct Bulletproof.

Module BulletproofComplete.
Import Config Key RctOps VectorOps InnerProduct Bulletproof.

(** ** The polynomial identities, over integer vectors *)

Abbreviation rep := (@replicate Z).

Lemma dot_rep n c v : length v = n -> dot (rep n c) v = c * sumZ v.
Proof.
  intros <-. induction v as [|x v IH]; cbn [length replicate]; [cbn; ring|].
  rewrite dot_cons, IH. unfold sumZ. cbn. ring.
Qed.

Lemma dot_firstn a b : dot a (take (length a) b) = dot a b.
Proof. revert b; induction a as [|x a IH]; intros [|y b]; try reflexivity. cbn [take length]. rewrite !dot_cons, IH. reflexivity. Qed.

Lemma dot_app_r a b1 b2 : length a = length b1 -> dot a (b1 ++ b2) = dot a b1.
Proof. intros Hl. rewrite <- dot_firstn, Hl, take_app_length. reflexivity. Qed.

Lemma dot_zeros_r a n : dot a (rep n 0) = 0.
Proof. revert n; induction a as [|x a IH]; intros [|n]; try reflexivity. cbn [replicate]. rewrite dot_cons, IH. ring. Qed.

Lemma sumZ_vscale c v : sumZ (vscale c v) = c * sumZ v.
Proof. unfold sumZ, vscale. induction v as [|x v IH]; cbn; [ring|]. rewrite IH. ring. Qed.

(** Multiplying by the powers of [y] undoes dividing the generators by them. *)
Lemma dot_unscale Y Yi v h :
  Forall2 (fun p q => p * q ≡ₗ 1) Y Yi -> length v = length Y -> length h = length Y ->
  dot (vhad Y v) (vhad Yi h) ≡ₗ dot v h.
Proof.
  intros HY. revert v h. induction HY as [|p q Y Yi Hpq _ IH]; intros [|a v] [|b h] Hv Hh; try discriminate; [reflexivity|].
  injection Hv as Hv. injection Hh as Hh. cbn [vhad zip_with]. rewrite !dot_cons.
  fold (vhad Y v) (vhad Yi h). rewrite (IH v h Hv Hh).
  replace (p * a * (q * b)) with (p * q * (a * b)) by ring. rewrite Hpq. apply eq_eqL. ring.
Qed.

Lemma dot_vhad_vadd Y u v h : length u = length v -> dot (vhad Y (vadd u v)) h = dot (vhad Y u) h + dot (vhad Y v) h.
Proof.
  revert u v h; induction Y as [|y Y IH]; intros [|a u] [|b v] [|c h] Hl; try discriminate; try reflexivity.
  injection Hl as Hl. cbn [vadd vhad zip_with]. rewrite !dot_cons. fold (vadd u v) (vhad Y (vadd u v)) (vhad Y u) (vhad Y v).
  rewrite IH by assumption. ring.
Qed.

(** A vector of bits is orthogonal to its complement. *)
Lemma dot_bits a Y z :
  Forall (fun b => b = 0 \/ b = 1) a -> length Y = length a ->
  dot (vadd a (rep (length a) (- z)))
      (vhad Y (vadd (vadd a (rep (length a) (-1))) (rep (length a) z))) = (z - z * z) * sumZ Y.
Proof.
  intros Ha. revert Y. induction Ha as [|b a Hb _ IH]; intros [|y Y] Hl; try discriminate; [cbn; ring|].
  injection Hl as Hl. cbn [length replicate vadd vhad zip_with]. rewrite dot_cons.
  change (sumZ (y :: Y)) with (y + sumZ Y). specialize (IH Y Hl). unfold vadd, vhad in IH. rewrite IH.
  destruct Hb as [->| ->]; ring.
Qed.

Lemma dot_blocks two Bs Zs :
  Forall (fun b => length b = length two) Bs -> length Bs = length Zs ->
  dot (concat Bs) (concat ((fun c => vscale c two) <$> Zs)) = dot Zs ((fun b => dot b two) <$> Bs).
Proof.
  intros HB. revert Zs. induction HB as [|b Bs Hb _ IH]; intros [|c Zs] Hl; try discriminate; [reflexivity|].
  injection Hl as Hl. cbn [concat fmap list_fmap]. rewrite dot_cons, dot_app by (now rewrite length_vscale).
  rewrite dot_vscale_r. f_equal. now apply IH.
Qed.

Lemma sumZ_blocks two Zs : sumZ (concat ((fun c => vscale c two) <$> Zs)) = sumZ Zs * sumZ two.
Proof.
  induction Zs as [|c Zs IH]; [reflexivity|]. cbn [fmap list_fmap concat]. rewrite sumZ_app, sumZ_vscale.
  change (sumZ (c :: Zs)) with (c + sumZ Zs). rewrite Z.mul_add_distr_r. f_equal. exact IH.
Qed.

Lemma length_blocks two Zs : length (concat ((fun c => vscale c two) <$> Zs)) = (length Zs * length two)%nat.
Proof.
  rewrite (length_concat_const (length two)); [now rewrite length_fmap|].
  apply Forall_fmap, Forall_forall. intros c _. apply length_vscale.
Qed.

(** The vectors of the proof as functions of the challenges. *)
Section Algebra.
Context (n : nat) (aL sL sR Y ZZ : list Z) (x z : Z).
Context (HaL : length aL = n) (HsL : length sL = n) (HsR : length sR = n)
        (HY : length Y = n) (HZZ : length ZZ = n).

Definition aR_ : list Z := vadd aL (rep n (-1)).
Definition l0_ : list Z := vadd aL (rep n (- z)).
Definition r0_ : list Z := vadd (vhad Y (vadd aR_ (rep n z))) ZZ.
Definition r1_ : list Z := vhad Y sR.
Definition l_ : list Z := vadd l0_ (vscale x sL).
Definition r_ : list Z := vadd r0_ (vscale x r1_).

Lemma lengths_ : length aR_ = n /\ length l0_ = n /\ length r0_ = n /\ length r1_ = n /\
                 length l_ = n /\ length r_ = n.
Proof using All.
  unfold l_, r_, l0_, r0_, r1_, aR_. autorewrite with machine_rw. rewrite !length_replicate. repeat split; lia.
Qed.

Lemma t_polynomial :
  dot l_ r_ = dot l0_ r0_ + (dot l0_ r1_ + dot sL r0_) * x + dot sL r1_ * (x * x).
Proof using All.
  destruct lengths_ as (H1 & H2 & H3 & H4 & _). unfold l_, r_.
  rewrite dot_vadd_l by (rewrite length_vscale; lia). rewrite !dot_vadd_r by (rewrite length_vscale; lia).
  rewrite !dot_vscale_l, !dot_vscale_r. ring.
Qed.

Lemma t0_value :
  Forall (fun b => b = 0 \/ b = 1) aL ->
  dot l0_ r0_ = (z - z * z) * sumZ Y + dot aL ZZ - z * sumZ ZZ.
Proof using All.
  intros Hbits. destruct lengths_ as (H1 & H2 & H3 & _). unfold r0_.
  rewrite dot_vadd_r by (rewrite length_vhad, length_vadd, H1, length_replicate; lia).
  unfold l0_ at 1. unfold aR_. rewrite <- HaL. rewrite dot_bits by (assumption || lia).
  unfold l0_. rewrite dot_vadd_l by (rewrite length_replicate; lia).
  rewrite (dot_rep n) by assumption. ring.
Qed.

(** The commitment the verifier assembles opens to [l] and [r]. *)
Lemma P_value g h Yi alpha rho :
  length g = n -> length h = n -> Forall2 (fun p q => p * q ≡ₗ 1) Y Yi ->
  (dot aL g + dot aR_ h + alpha) + x * (dot sL g + dot sR h + rho) + dot (rep n (- z)) g
  + dot (vadd ZZ (vscale z Y)) (vhad Yi h) - (x * rho + alpha)
  ≡ₗ dot l_ g + dot r_ (vhad Yi h).
Proof using All.
  intros Hg Hh HYi. destruct lengths_ as (H1 & H2 & H3 & H4 & _).
  unfold l_, r_. rewrite (dot_vadd_l l0_) by (rewrite length_vscale; lia).
  rewrite (dot_vadd_l r0_) by (rewrite length_vscale; lia). rewrite !dot_vscale_l.
  unfold l0_, r0_, r1_. rewrite (dot_vadd_l aL) by (rewrite length_replicate; lia).
  rewrite (dot_vadd_l (vhad Y _)) by (rewrite length_vhad, length_vadd, H1, length_replicate; lia).
  rewrite (dot_vadd_l ZZ) by (rewrite length_vscale; lia). rewrite dot_vscale_l.
  rewrite dot_vhad_vadd by (rewrite length_replicate; lia).
  rewrite (dot_unscale Y Yi aR_ h), (dot_unscale Y Yi sR h), (dot_unscale Y Yi (rep n z) h)
    by (rewrite ?length_replicate; assumption || lia).
  assert (E : dot Y (vhad Yi h) ≡ₗ sumZ h).
  { transitivity (dot (vhad Y (rep n 1)) (vhad Yi h)).
    - apply eq_eqL. f_equal. rewrite <- HY. clear. induction Y as [|y Y' IH]; cbn; [reflexivity|]. f_equal; [ring|exact IH].
    - rewrite (dot_unscale Y Yi) by (rewrite ?length_replicate; assumption || lia).
      rewrite dot_rep by assumption. apply eq_eqL. ring. }
  rewrite E, (dot_rep n z h) by assumption. apply eq_eqL. ring.
Qed.

End Algebra.

(** ** Normal forms of the scalar vectors *)

Lemma fmap_sub_rep c a : (fun x => x - c) <$> a = vadd a (rep (length a) (- c)).
Proof. induction a as [|x a IH]; cbn; [reflexivity|]. f_equal. exact IH. Qed.

Lemma fmap_add_rep c a : (fun x => x + c) <$> a = vadd a (rep (length a) c).
Proof. induction a as [|x a IH]; cbn; [reflexivity|]. f_equal. exact IH. Qed.

Lemma powers_S x n : powers x (S n) = 1 :: vscale x (powers x n).
Proof.
  unfold powers, vscale. cbn [seq fmap list_fmap]. f_equal.
  rewrite <- fmap_S_seq, <- !list_fmap_compose. apply list_fmap_ext. intros _ i _. unfold compose. apply pow_S.
Qed.

Lemma vscale_vscale c d v : vscale c (vscale d v) = vscale (c * d) v.
Proof. unfold vscale. rewrite <- list_fmap_compose. apply list_fmap_ext. intros. unfold compose. ring. Qed.

Lemma vscale_1 v : vscale 1 v = v.
Proof. unfold vscale. induction v as [|x v IH]; cbn [fmap list_fmap]; [reflexivity|]. f_equal; [ring|exact IH]. Qed.

Lemma take_vmod n v : take n (vmod v) = vmod (take n v).
Proof. unfold vmod. now rewrite fmap_take. Qed.
Lemma drop_vmod n v : drop n (vmod v) = vmod (drop n v).
Proof. unfold vmod. now rewrite fmap_drop. Qed.
Lemma take_vscale n c v : take n (vscale c v) = vscale c (take n v).
Proof. unfold vscale. now rewrite fmap_take. Qed.
Lemma drop_vscale n c v : drop n (vscale c v) = vscale c (drop n v).
Proof. unfold vscale. now rewrite fmap_drop. Qed.

Lemma take_powers x m n : (m <= n)%nat -> take m (powers x n) = powers x m.
Proof. intros Hmn. unfold powers. now rewrite <- fmap_take, take_seq, Nat.min_l by assumption. Qed.

Lemma drop_powers x d n : drop d (powers x (d + n)) = vscale (x ^ Z.of_nat d) (powers x n).
Proof.
  revert n; induction d as [|d IH]; intros n.
  - change (x ^ Z.of_nat 0) with 1. now rewrite drop_0, vscale_1.
  - cbn [Nat.add]. rewrite powers_S. cbn [drop]. rewrite drop_vscale, IH, vscale_vscale, pow_S. reflexivity.
Qed.

Lemma dot_powers_2 b : dot b (powers 2 (length b)) = le_val 2 b.
Proof.
  induction b as [|d b IH]; [reflexivity|]. cbn [length le_val]. rewrite powers_S, dot_cons, dot_vscale_r, IH. ring.
Qed.

Lemma powers_inverse x y n : x * y ≡ₗ 1 -> Forall2 (fun p q => p * q ≡ₗ 1) (powers x n) (powers y n).
Proof.
  intros Hxy. unfold powers. apply Forall2_fmap, Forall_Forall2_diag, Forall_forall. intros i _.
  induction i as [|i IH]; [reflexivity|]. rewrite !pow_S.
  replace (x * x ^ Z.of_nat i * (y * y ^ Z.of_nat i)) with ((x * y) * (x ^ Z.of_nat i * y ^ Z.of_nat i)) by ring.
  rewrite Hxy, IH. reflexivity.
Qed.

Lemma powers_inverse_vmod x y n : x * y ≡ₗ 1 -> Forall2 (fun p q => p * q ≡ₗ 1) (powers x n) (vmod (powers y n)).
Proof.
  intros Hxy. unfold vmod. apply Forall2_fmap_r. eapply Forall2_impl; [now apply powers_inverse|].
  intros p q Hpq. change (p * (q mod L) ≡ₗ 1). now rewrite eqL_mod.
Qed.

Lemma powers_nonzero x n : ~ x ≡ₗ 0 -> nonzeros (powers x n).
Proof.
  intros Hx. apply Forall_fmap, Forall_forall. intros i _. unfold compose. induction i as [|i IH].
  - discriminate.
  - rewrite pow_S. now apply eqL_mul_nonzero.
Qed.

Lemma vhad_nonzeros a b : nonzeros a -> nonzeros b -> nonzeros (vhad a b).
Proof.
  intros Ha. revert b. induction Ha as [|x a Hx _ IH]; intros b Hb; [constructor|].
  destruct Hb; [constructor|]. constructor; [now apply eqL_mul_nonzero|now apply IH].
Qed.

Lemma nonzeros_eqV a b : a ≡ᵥ b -> nonzeros b -> nonzeros a.
Proof.
  intros E. induction E as [|x y a b Hxy _ IH]; [constructor|]. intros [Hy Hb]%Forall_cons.
  constructor; [now rewrite Hxy|now apply IH].
Qed.

Lemma enc_fmap_eqV `{SodiumLaws} a b : a ≡ᵥ b -> enc <$> a = enc <$> b.
Proof. intros E. induction E as [|x y a b Hxy _ IH]; [reflexivity|]. cbn. rewrite Hxy. f_equal. exact IH. Qed.

Section NormalForms.
Context `{SL : SodiumLaws}.

Definition z_blocks (z : Z) (p : nat) : list Z :=
  concat ((fun c => vscale c (powers 2 bit_width)) <$> vscale (z * z) (powers z p)).

Lemma monadic_ok Zs two :
  scalars_ok Zs -> scalars_ok two ->
  vector_concat (vector_mult_V_monadic Zs two) = vmod (concat ((fun c => vscale c two) <$> Zs)).
Proof.
  intros HZ Ht. rewrite vector_concat_ok. unfold vector_mult_V_monadic.
  induction HZ as [|c Zs Hc _ IH]; [reflexivity|]. cbn [fmap list_fmap concat].
  unfold vmod at 1. rewrite fmap_app. fold (vmod (vscale c two)). rewrite vector_mult_ok by assumption.
  f_equal. exact IH.
Qed.

Lemma blocks_eqV Zs Zs' two two' : Zs ≡ᵥ Zs' -> two ≡ᵥ two' ->
  concat ((fun c => vscale c two) <$> Zs) ≡ᵥ concat ((fun c => vscale c two') <$> Zs').
Proof.
  intros HZ Ht. induction HZ as [|c c' Zs Zs' Hc _ IH]; [constructor|]. cbn [fmap list_fmap concat].
  apply app_proper; [now rewrite Hc, Ht|exact IH].
Qed.

(** The flattened [z^(2+j) 2^i] vector, from either side's powers of [z]. *)
Lemma z_blocks_ok z p e :
  scalar_ok z -> (2 <= e)%nat ->
  vector_concat (vector_mult_V_monadic (take p (drop 2 (scalar_powers z (p + e)))) (scalar_powers s_two bit_width))
  = vmod (z_blocks z p).
Proof.
  intros Hz He. rewrite !scalar_powers_ok by auto using scalar_ok_small with machine.
  rewrite drop_vmod, take_vmod. replace (p + e)%nat with (2 + (p + (e - 2)))%nat by lia.
  rewrite drop_powers, take_vscale, take_powers by lia. change (z ^ Z.of_nat 2) with (z ^ 2). rewrite Z.pow_2_r.
  rewrite monadic_ok by apply vmod_ok. apply eqV_vmod. unfold z_blocks.
  apply blocks_eqV; apply vmod_eqV.
Qed.

Lemma length_z_blocks z p : length (z_blocks z p) = (p * bit_width)%nat.
Proof. unfold z_blocks. rewrite length_blocks. autorewrite with machine_rw. reflexivity. Qed.

End NormalForms.

(** ** The generators *)

Lemma result_mapM_Returns {X Y} (f : X -> result Y) l r :
  result_mapM f l = Returns r <-> Forall2 (fun x y => f x = Returns y) l r.
Proof.
  revert r; induction l as [|x l IH]; intros r; cbn.
  - split; [intros [= <-]; constructor|]. now inversion 1.
  - split.
    + intros Hm. apply result_bind_inv in Hm as (y & Hy & Hm). apply result_bind_inv in Hm as (ys & Hys & Hm).
      injection Hm as <-. constructor; [assumption|]. now apply IH.
    + inversion 1 as [|? y ? ys Hy Hys]; subst. rewrite Hy. cbn. apply IH in Hys. now rewrite Hys.
Qed.

Lemma result_mapM_prefix {X Y} (f : X -> result Y) l1 l2 r :
  result_mapM f (l1 ++ l2) = Returns r ->
  result_mapM f l1 = Returns (take (length l1) r).
Proof.
  rewrite !result_mapM_Returns. intros (r1 & r2 & H1 & H2 & ->)%Forall2_app_inv_l.
  now rewrite take_app_length' by now apply Forall2_length in H1.
Qed.

Section Generators.
Context `{HL : Sha3Laws} `{SL : SodiumLaws}.

Lemma get_bp_generator_safe base i P :
  get_bp_generator base i = Returns P -> is_safe_point P = true.
Proof using HL SL.
  unfold get_bp_generator. cbv zeta. set (d := h2d (sha3 _)).
  destruct (ge_viaFieldMult8 (h2d (sha3 (data_blob d)))) as [k Ek].
  fold (hash_to_point_via_field d) in Ek. rewrite Ek. intros Hg.
  apply throw_unless_inv in Hg as [Hn Hg]. injection Hg as <-. to_prop.
  rewrite is_safe_point_enc, bool_decide_eq_true. intros E. apply Hn. rewrite E. apply enc_0.
Qed.

Lemma generators_safe (f : Z -> result ec_point) n r :
  (forall i P, f i = Returns P -> is_safe_point P = true) ->
  result_mapM (fun i => f (Z.of_nat i)) (seq 0 n) = Returns r ->
  exists g, r = enc <$> g /\ nonzeros g /\ length g = n.
Proof.
  intros Hf Hr%result_mapM_Returns. pose proof (Forall2_length _ _ _ Hr) as Hl. rewrite length_seq in Hl.
  destruct (safe_points_enc r) as (g & -> & Hg).
  - clear Hl. induction Hr as [|i P l r HP _ IH]; [reflexivity|]. cbn. now rewrite (Hf _ _ HP), IH.
  - exists g. rewrite length_fmap in Hl. auto.
Qed.

Lemma init_generators_ok n Gs Hs :
  init_generators = Returns (Gs, Hs) -> (n <= max_vector_length)%nat ->
  exists g h g' h', Gs = enc <$> (g ++ g') /\ Hs = enc <$> (h ++ h') /\
    nonzeros (g ++ g') /\ nonzeros (h ++ h') /\ length g = n /\ length h = n /\
    get_bp_generator_G_V n = Returns (enc <$> g) /\ get_bp_generator_H_V n = Returns (enc <$> h).
Proof using HL SL.
  unfold init_generators. intros Hi Hn.
  apply result_bind_inv in Hi as (Gs' & HG & Hi). apply result_bind_inv in Hi as (Hs' & HH & Hi).
  injection Hi as -> ->.
  destruct (generators_safe get_bp_generator_G _ _ (fun i P => get_bp_generator_safe _ _ P) HG) as (g & -> & Hg & Lg).
  destruct (generators_safe get_bp_generator_H _ _ (fun i P => get_bp_generator_safe _ _ P) HH) as (h & -> & Hh & Lh).
  exists (take n g), (take n h), (drop n g), (drop n h).
  rewrite !take_drop, !length_take, Lg, Lh, Nat.min_l by assumption.
  unfold get_bp_generator_G_V, get_bp_generator_H_V in *.
  replace max_vector_length with (n + (max_vector_length - n))%nat in HG, HH by lia.
  rewrite seq_app in HG, HH. apply result_mapM_prefix in HG, HH. rewrite length_seq, <- fmap_take in HG, HH.
  do 6 (split; [auto; fail|]). auto.
Qed.

End Generators.

(** ** The bits of the amounts *)

Definition padded_bits (xs : list bp_input_t) (p : nat) : list (list Z) :=
  ((fun x => le_digits 2 64 x.1) <$> xs) ++ replicate (p - length xs) (rep bit_width 0).

Definition padded_amounts (xs : list bp_input_t) (p : nat) : list Z :=
  (fst <$> xs) ++ rep (p - length xs) 0.

Section Bits.
Context (xs : list bp_input_t) (p : nat) (Hp : (length xs <= p)%nat)
        (Hxs : Forall (fun x => fits 64 x.1) xs).

Lemma padded_bits_blocks :
  length (padded_bits xs p) = p /\ Forall (fun b => length b = bit_width) (padded_bits xs p) /\
  Forall (fun d => 0 <= d < 2) (concat (padded_bits xs p)).
Proof using Hp.
  unfold padded_bits. rewrite length_app, length_fmap, length_replicate. split; [lia|]. split.
  - apply Forall_app. split; [apply Forall_fmap, Forall_forall; intros; apply length_le_digits|].
    now apply Forall_replicate.
  - apply Forall_concat, Forall_app. split.
    + apply Forall_fmap, Forall_forall. intros x _. apply (le_digits_ok 2). lia.
    + apply Forall_replicate. apply Forall_replicate. lia.
Qed.

Lemma padded_bits_ok :
  length (concat (padded_bits xs p)) = (p * bit_width)%nat /\ scalars_ok (concat (padded_bits xs p)) /\
  Forall (fun b => b = 0 \/ b = 1) (concat (padded_bits xs p)).
Proof using Hp.
  destruct padded_bits_blocks as (Hl & Hb & Hd). split; [|split].
  - now rewrite (length_concat_const bit_width), Hl.
  - eapply Forall_impl; [exact Hd|]. intros d Hd'. unfold scalar_ok. assert (2 < L) by reflexivity. cbn in Hd'. lia.
  - eapply Forall_impl; [exact Hd|]. cbn. lia.
Qed.

Lemma dot_padded_bits z :
  dot (concat (padded_bits xs p)) (z_blocks z p) =
  dot (vscale (z * z) (powers z p)) (padded_amounts xs p).
Proof using Hp Hxs.
  destruct padded_bits_blocks as (Hl & Hb & _). unfold z_blocks.
  rewrite dot_blocks; [|rewrite length_powers; exact Hb|rewrite Hl; now autorewrite with machine_rw].
  f_equal. unfold padded_bits, padded_amounts. rewrite fmap_app, fmap_replicate. f_equal.
  rewrite <- list_fmap_compose. apply Forall_fmap_ext_1. eapply Forall_impl; [exact Hxs|].
  intros [v g] Hv. unfold compose. cbn [fst] in *.
  change bit_width with 64%nat. rewrite <- (length_le_digits 2 64 v) at 2. rewrite dot_powers_2.
  apply le_val_digits_small; [lia|exact Hv].
Qed.

Lemma prover_bits `{SodiumLaws} :
  vector_concat (((fun x => int_to_bits x.1) <$> xs)
     ++ replicate (p - length xs) (scalar_repeat s_0 bit_width)) = concat (padded_bits xs p).
Proof using Hxs.
  rewrite vector_concat_ok, scalar_repeat_ok by auto with machine. unfold padded_bits. do 2 f_equal.
  apply Forall_fmap_ext_1. eapply Forall_impl; [exact Hxs|]. intros x Hx. now apply int_to_bits_digits.
Qed.

End Bits.

(** ** The prover *)

Lemma G_enc `{SodiumLaws} a : secret_ok a -> G_ a = enc a.
Proof. apply to_pk_enc. Qed.

Lemma scalar_poly3 `{SodiumLaws} t0 t1 t2 x :
  scalar_ok t0 -> scalar_ok t1 -> scalar_ok t2 -> scalar_ok x ->
  evaluate_polynomial [t0; t1; t2] x = Returns ((t0 + t1 * x + t2 * (x * x)) mod L).
Proof.
  intros H0' H1 H2 Hx. unfold evaluate_polynomial. cbn [length].
  rewrite scalar_powers_ok by assumption.
  rewrite inner_product_ok; [|now repeat apply Forall_cons_2; try apply Forall_nil_2|apply vmod_ok
    |rewrite length_vmod, length_powers; cbn; lia].
  f_equal. change (dot [t0; t1; t2] (vmod (powers x 3)) ≡ₗ t0 + t1 * x + t2 * (x * x)).
  rewrite vmod_eqV. apply eq_eqL. unfold powers. cbn [seq fmap list_fmap].
  change (x ^ Z.of_nat 0) with 1. change (x ^ Z.of_nat 1) with (x ^ 1). change (x ^ Z.of_nat 2) with (x ^ 2).
  rewrite Z.pow_1_r, Z.pow_2_r. unfold dot, sumZ. cbn. ring.
Qed.

Lemma ip_vmod `{SodiumLaws} a b : length a = length b -> inner_product (vmod a) (vmod b) = Returns (dot a b mod L).
Proof.
  intros Hl. rewrite inner_product_ok by (auto with machine; autorewrite with machine_rw; rewrite Hl; apply Nat.le_refl).
  f_equal. change (dot (vmod a) (vmod b) ≡ₗ dot a b). now rewrite !vmod_eqV.
Qed.

Lemma Zplus_mod_idemp_3 a b c m : (a mod m + b + c) mod m = (a + b + c) mod m.
Proof. rewrite <- !Z.add_assoc. apply Zplus_mod_idemp_l. Qed.

Lemma hash_V_A_S_Some `{Sha3Laws} `{SodiumLaws} V P Q y z :
  hash_V_A_S V P Q = Some (y, z) -> secret_ok y /\ secret_ok z.
Proof.
  unfold hash_V_A_S. destruct (maybe_hash_V_to_non_zero_scalar _); [|discriminate]. cbn [mbind option_bind].
  destruct (maybe_hash_V_to_non_zero_scalar [_; _; _]) as [y'|] eqn:E1; [|discriminate]. cbn [mbind option_bind].
  destruct (maybe_hash_V_to_non_zero_scalar [y']) as [z'|] eqn:E2; [|discriminate]. intros [= -> ->].
  split; eapply maybe_hash_V_Some; eassumption.
Qed.

Lemma hash_V_A_S_None `{Sha3Laws} `{SodiumLaws} V P Q : hash_V_A_S V P Q = None -> zero_challenge.
Proof.
  unfold hash_V_A_S.
  destruct (maybe_hash_V_to_non_zero_scalar _) as [c|] eqn:E0; [|eauto using zero_challenge_of]. cbn [mbind option_bind].
  destruct (maybe_hash_V_to_non_zero_scalar [_; _; _]) as [y|] eqn:E1; [|eauto using zero_challenge_of]. cbn [mbind option_bind].
  destruct (maybe_hash_V_to_non_zero_scalar [y]) as [z|] eqn:E2; [discriminate|eauto using zero_challenge_of].
Qed.

Lemma dot_commit_logs (xs : list bp_input_t) hh q :
  length q = length xs ->
  dot q ((fun i => i.2 + i.1 * hh) <$> xs) = dot (snd <$> xs) q + dot q (fst <$> xs) * hh.
Proof.
  revert q. induction xs as [|[a m] xs IH]; intros [|c q] Hl; try discriminate; [reflexivity|].
  injection Hl as Hl. cbn [fmap list_fmap]. rewrite !dot_cons. cbn [fst snd].
  specialize (IH q Hl). unfold fmap in IH |- *. rewrite IH. ring.
Qed.

Section Prover.
Context `{HL : Sha3Laws} `{SL : SodiumLaws}.
Context (xs : list bp_input_t) (p n : nat) (alpha rho tau1 tau2 : Z) (sL sR g h : list Z) (hh : Z).
Context (Hp : padded_number (length xs) = p) (Hm : (length xs <= p)%nat) (Hn : n = (p * bit_width)%nat)
        (Hxs : Forall (fun x => fits 64 x.1 /\ secret_ok x.2) xs)
        (Hal : secret_ok alpha) (Hrho : secret_ok rho) (Ht1 : secret_ok tau1) (Ht2 : secret_ok tau2)
        (HsL : scalars_ok sL) (HsR : scalars_ok sR) (LsL : length sL = n) (LsR : length sR = n)
        (Hg : nonzeros g) (Hh : nonzeros h) (Lg : length g = n) (Lh : length h = n)
        (EG : get_bp_generator_G_V n = Returns (enc <$> g))
        (EH : get_bp_generator_H_V n = Returns (enc <$> h))
        (Hhh : forall a, scalar_ok a -> H_ a = enc (a * hh)).

Definition bits_ : list Z := concat (padded_bits xs p).
Definition masks_ : list Z := snd <$> xs.
Definition z2_ (z : Z) : list Z := vscale (z * z) (powers z p).
Definition l0v (z : Z) := l0_ n bits_ z.
Definition r0v (y z : Z) := r0_ n bits_ (powers y n) (z_blocks z p) z.
Definition r1v (y : Z) := r1_ sR (powers y n).
Definition lv (z x : Z) := l_ n bits_ sL x z.
Definition rv (y z x : Z) := r_ n bits_ sR (powers y n) (z_blocks z p) x z.

(** What an attempt that is not restarted has computed. *)
Record prover_facts (v : bp_vectors) (y z x : Z) : Prop := {
  pf_y : secret_ok y; pf_z : secret_ok z; pf_x : secret_ok x;
  pf_hash_yz : hash_V_A_S ((fun x => commit x.1 x.2) <$> xs) (bv_A v) (bv_S v) = Some (y, z);
  pf_hash_x : maybe_hash_V_to_non_zero_scalar [z; z; to_inv8 (bv_T1 v); to_inv8 (bv_T2 v)] = Some x;
  pf_hash_ip : maybe_hash_V_to_non_zero_scalar [x; x; bv_tau v; bv_mu v; dot (lv z x) (rv y z x) mod L]
               = Some (bv_ip_challenge v);
  pf_challenge_y : bv_challenge_y v = y;
  pf_A : bv_A v = enc (dot bits_ g + dot (aR_ n bits_) h + alpha);
  pf_S : bv_S v = enc (dot sL g + dot sR h + rho);
  pf_T1 : bv_T1 v = enc (tau1 + (dot (l0v z) (r1v y) + dot sL (r0v y z)) * hh);
  pf_T2 : bv_T2 v = enc (tau2 + dot sL (r1v y) * hh);
  pf_tau : bv_tau v = (dot masks_ (z2_ z) + tau1 * x + tau2 * (x * x)) mod L;
  pf_mu : bv_mu v = (x * rho + alpha) mod L;
  pf_l : bv_l v = vmod (lv z x);
  pf_r : bv_r v = vmod (rv y z x) }.

Lemma bits_facts : length bits_ = n /\ scalars_ok bits_ /\ Forall (fun b => b = 0 \/ b = 1) bits_.
Proof using Hm Hn. rewrite Hn. now apply padded_bits_ok. Qed.

(** The vectors [r0], [r1], [l], [r] of the code, reduced. *)
Lemma prover_r y z :
  scalar_ok y -> scalar_ok z ->
  (yaR ← hadamard_product (scalar_powers y n) (vector_add (vector_subtract bits_ s_1) z);
   vector_add_V yaR (vector_concat (vector_mult_V_monadic (take p (drop 2 (scalar_powers z (p + 2))))
                                      (scalar_powers s_two bit_width)))) = Returns (vmod (r0v y z)) /\
  hadamard_product (scalar_powers y n) sR = Returns (vmod (r1v y)) /\
  vector_subtract bits_ z = vmod (l0v z).
Proof using All.
  intros Hy Hz. destruct bits_facts as (Lb & Ob & _).
  rewrite vector_subtract_ok by auto using scalar_ok_1.
  rewrite z_blocks_ok by (assumption || lia). rewrite vector_add_ok, (scalar_powers_ok y) by auto with machine.
  rewrite !hadamard_product_ok by (auto with machine; unfold vmod, powers; rewrite ?length_fmap, ?length_seq; lia).
  cbn [mbind result_bind].
  rewrite vector_add_V_ok by (auto with machine; autorewrite with machine_rw;
    rewrite ?length_z_blocks, ?length_fmap, ?length_vmod, ?length_fmap; lia).
  rewrite vector_subtract_ok by assumption.
  split; [|split]; [f_equal| |].
  - apply eqV_vmod. unfold r0v, r0_, aR_. rewrite !vmod_eqV. rewrite fmap_add_rep, length_vmod, length_fmap, Lb.
    rewrite !vmod_eqV. rewrite fmap_sub_rep, Lb. reflexivity.
  - f_equal. apply eqV_vmod. unfold r1v, r1_. now rewrite vmod_eqV.
  - rewrite fmap_sub_rep, Lb. reflexivity.
Qed.

Lemma masks_ok : scalars_ok masks_ /\ length masks_ = length xs.
Proof using Hxs.
  unfold masks_. split; [|apply length_fmap]. apply Forall_fmap. eapply Forall_impl; [exact Hxs|]. intros x [_ [? _]]. assumption.
Qed.

Lemma tau0_ok z : scalar_ok z ->
  inner_product masks_ (drop 2 (scalar_powers z (p + 2))) = Returns (dot masks_ (z2_ z) mod L).
Proof using All.
  intros Hz. destruct masks_ok as [Om Lm]. rewrite scalar_powers_ok, drop_vmod by assumption.
  replace (p + 2)%nat with (2 + p)%nat by lia. rewrite drop_powers.
  change (z ^ Z.of_nat 2) with (z ^ 2). rewrite Z.pow_2_r.
  rewrite inner_product_ok; [|assumption|apply vmod_ok|autorewrite with machine_rw; lia].
  f_equal. change (dot masks_ (vmod (z2_ z)) ≡ₗ dot masks_ (z2_ z)). now rewrite vmod_eqV.
Qed.

Lemma l_r_facts y z x :
  length (r0v y z) = n /\ length (r1v y) = n /\ length (l0v z) = n /\ length (lv z x) = n /\ length (rv y z x) = n.
Proof using All.
  destruct bits_facts as (Lb & _). pose proof (length_powers y n). pose proof (length_z_blocks z p).
  destruct (lengths_ n bits_ sL sR (powers y n) (z_blocks z p) x z) as (_ & ? & ? & ? & ? & ?); try assumption; [lia|].
  repeat split; assumption.
Qed.

Lemma vectors_lr y z x : scalar_ok x ->
  vector_add_V (vmod (l0v z)) (vector_mult sL x) = Returns (vmod (lv z x)) /\
  vector_add_V (vmod (r0v y z)) (vector_mult (vmod (r1v y)) x) = Returns (vmod (rv y z x)).
Proof using All.
  intros Hx. destruct (l_r_facts y z x) as (? & ? & ? & ? & ?).
  rewrite !vector_mult_ok by auto with machine.
  rewrite !vector_add_V_ok by (auto with machine; autorewrite with machine_rw; lia).
  split; f_equal; apply eqV_vmod; unfold lv, rv, l_, r_; rewrite !vmod_eqV; reflexivity.
Qed.

Lemma mu_ok x : scalar_ok x -> x *ₛ rho +ₛ alpha = (x * rho + alpha) mod L.
Proof using SL Hal Hrho.
  destruct Hal, Hrho. intros. rewrite scalar_add_ok, scalar_mul_ok by auto with machine. apply Zplus_mod_idemp_l.
Qed.

Lemma prover_vectors_ok :
  exists res, get_bp_vectors_for_inner_product_argument xs alpha sL sR rho tau1 tau2 = Returns res /\
    (res = None -> zero_challenge) /\
    forall v, res = Some v -> exists y z x, prover_facts v y z x.
Proof using All.
  destruct bits_facts as (Lb & Ob & _).
  unfold get_bp_vectors_for_inner_product_argument. rewrite Hp, <- Hn, EG, EH. cbn [mbind result_bind].
  assert (Hfit : Forall (fun x => fits 64 x.1) xs) by (eapply Forall_impl; [exact Hxs|]; now intros ? []).
  rewrite (prover_bits xs p Hfit).
  fold bits_. rewrite (vector_subtract_ok bits_) by auto using scalar_ok_1.
  rewrite fmap_sub_rep, Lb. change (- s_1) with (-1). fold (aR_ n bits_).
  assert (LaR : length (aR_ n bits_) = n) by (unfold aR_; rewrite length_vadd, length_replicate; lia).
  rewrite !vector_commit_ok by (auto with machine; autorewrite with machine_rw; lia). cbn [mbind result_bind].
  rewrite !G_enc, !add_enc by assumption.
  assert (EA : enc (dot bits_ g + dot (vmod (aR_ n bits_)) h + alpha) = enc (dot bits_ g + dot (aR_ n bits_) h + alpha))
    by (apply enc_eq; now rewrite vmod_eqV).
  rewrite EA. destruct (hash_V_A_S _ _ _) as [[y z]|] eqn:Eyz;
    [|eexists; split; [reflexivity|]; split; [eauto using hash_V_A_S_None|discriminate]].
  pose proof (hash_V_A_S_Some _ _ _ _ _ Eyz) as [[Oy Ny] [Oz Nz]].
  destruct (prover_r y z Oy Oz) as (Er0 & Er1 & El0).
  rewrite (vector_subtract_ok bits_ s_1), fmap_sub_rep, Lb in Er0 by auto using scalar_ok_1.
  change (- s_1) with (-1) in Er0. fold (aR_ n bits_) in Er0.
  apply result_bind_inv in Er0 as (yaR & EyaR & Er0).
  destruct (l_r_facts y z 0) as (L1 & L2 & L3 & _).
  rewrite EyaR. cbn [mbind result_bind]. rewrite Er0. cbn [mbind result_bind].
  rewrite Er1. cbn [mbind result_bind]. rewrite El0.
  rewrite <- (vmod_id sL) by assumption. rewrite !ip_vmod by lia. cbn [mbind result_bind].
  rewrite scalar_add_ok, !Hhh, !add_enc by auto with machine.
  assert (ET1 : enc (tau1 + (dot (l0v z) (r1v y) mod L + dot sL (r0v y z) mod L) mod L * hh)
                = enc (tau1 + (dot (l0v z) (r1v y) + dot sL (r0v y z)) * hh))
    by (apply enc_eq; now rewrite !eqL_mod).
  assert (ET2 : enc (tau2 + dot sL (r1v y) mod L * hh) = enc (tau2 + dot sL (r1v y) * hh))
    by (apply enc_eq; now rewrite !eqL_mod).
  rewrite ET1, ET2.
  destruct (maybe_hash_V_to_non_zero_scalar [z; z; _; _]) as [x|] eqn:Ex;
    [|eexists; split; [reflexivity|]; split; [eauto using zero_challenge_of|discriminate]].
  pose proof (maybe_hash_V_Some _ _ Ex) as [Ox Nx].
  fold masks_. rewrite tau0_ok by assumption. cbn [mbind result_bind].
  rewrite scalar_poly3 by (auto with machine; apply Ht1 || apply Ht2). cbn [mbind result_bind].
  destruct (vectors_lr y z x Ox) as [El Er]. rewrite (vmod_id sL) by assumption.
  rewrite El. cbn [mbind result_bind]. rewrite Er. cbn [mbind result_bind].
  destruct (l_r_facts y z x) as (_ & _ & _ & L4 & L5). rewrite ip_vmod by lia. cbn [mbind result_bind].
  rewrite mu_ok, Zplus_mod_idemp_3 by assumption.
  destruct (maybe_hash_V_to_non_zero_scalar [x; x; _; _; _]) as [w|] eqn:Ew; (eexists; split; [reflexivity|]);
    (split; [discriminate || eauto using zero_challenge_of|]); [|discriminate].
  intros v [= <-]. exists y, z, x. split; try reflexivity; try assumption; now split.
Qed.

(** ** The verifier on what the prover sent *)

Context (Hhh0 : ~ hh ≡ₗ 0).
Context (v : bp_vectors) (y z x : Z) (PF : prover_facts v y z x).

Definition commit_logs : list Z := (fun i => i.2 + i.1 * hh) <$> xs.
Definition T0_log : Z :=
  ((z - z * z) * sumZ (powers y n) - z * (z * z) * sumZ (powers z p) * sumZ (powers 2 bit_width)) * hh
  + dot (vscale (z * z) (powers z (length xs))) commit_logs.

Lemma commits_enc : (fun x => commit x.1 x.2) <$> xs = enc <$> commit_logs.
Proof using SL Hxs Hhh.
  unfold commit_logs. rewrite <- list_fmap_compose. apply Forall_fmap_ext_1. eapply Forall_impl; [exact Hxs|].
  intros [a m] [Ha Hmk]. unfold compose, commit. cbn [fst snd] in *.
  now rewrite G_enc, int_to_scalar_small, Hhh, add_enc by auto with machine.
Qed.

Lemma coefficient_T_0_ok :
  nonzeros commit_logs -> compute_coefficient_T_0 (enc <$> commit_logs) z y = Returns (enc T0_log).
Proof using All.
  intros Hc. destruct PF as [[Oy _] [Oz _] _ _ _ _ _ _ _ _ _ _ _ _ _].
  assert (Lc : length commit_logs = length xs) by apply length_fmap.
  unfold compute_coefficient_T_0. rewrite length_fmap, Lc, Hp, <- Hn. unfold sum_of_scalar_powers.
  assert (O2 : scalar_ok s_2) by (split; [discriminate|reflexivity]).
  rewrite !scalar_powers_ok, !drop_vmod, !take_vmod by assumption.
  replace (p + 3)%nat with (3 + p)%nat by lia. rewrite drop_powers, take_vscale, take_powers by lia.
  replace (3 + p)%nat with (2 + (1 + p))%nat by lia. rewrite drop_powers, take_vscale, take_powers by lia.
  rewrite !vector_sum_ok by apply vmod_ok.
  rewrite vector_commit_ok by (auto with machine; autorewrite with machine_rw; lia). cbn [mbind result_bind].
  rewrite Hhh, add_enc by auto 20 with machine. f_equal. apply enc_eq. unfold T0_log.
  rewrite !scalar_sub_eqL, !scalar_mul_eqL, !scalar_sub_eqL, !scalar_mul_eqL by auto 20 with machine.
  rewrite !eqL_mod, !vmod_eqV, sumZ_vscale.
  change (z ^ Z.of_nat 2) with (z ^ 2). change (z ^ Z.of_nat 3) with (z ^ 3). change s_2 with 2.
  rewrite Z.pow_2_r. apply eq_eqL. ring.
Qed.

(** The constant term of [t] as the verifier computes it. *)
Lemma t0_delta :
  dot (l0v z) (r0v y z) =
  (z - z * z) * sumZ (powers y n) + dot (vscale (z * z) (powers z (length xs))) (fst <$> xs)
  - z * (z * z) * sumZ (powers z p) * sumZ (powers 2 bit_width).
Proof using All.
  destruct bits_facts as (Lb & _ & Hbits).
  assert (Hfit : Forall (fun x => fits 64 x.1) xs) by (eapply Forall_impl; [exact Hxs|]; now intros ? []).
  unfold l0v, r0v. rewrite (t0_value n bits_ sL sR (powers y n) (z_blocks z p) x z);
    [|assumption|assumption|assumption|apply length_powers|rewrite length_z_blocks; lia|assumption].
  unfold bits_. rewrite dot_padded_bits by assumption.
  unfold z_blocks. rewrite sumZ_blocks, sumZ_vscale. unfold padded_amounts.
  replace (powers z p) with (powers z (length xs) ++ drop (length xs) (powers z p)) at 1
    by (rewrite <- (take_powers z (length xs) p) by assumption; apply take_drop).
  unfold vscale at 1. rewrite fmap_app. fold (vscale (z * z) (powers z (length xs))).
  rewrite dot_app by (autorewrite with machine_rw; now rewrite length_fmap).
  rewrite dot_zeros_r. ring.
Qed.

Lemma blinding_identity :
  (dot (lv z x) (rv y z x)) * hh + (dot masks_ (z2_ z) + tau1 * x + tau2 * (x * x)) =
  T0_log + x * (tau1 + (dot (l0v z) (r1v y) + dot sL (r0v y z)) * hh)
  + x * x * (tau2 + dot sL (r1v y) * hh).
Proof using All.
  destruct bits_facts as (Lb & _ & _). unfold lv, rv.
  rewrite t_polynomial; [|assumption|assumption|assumption|apply length_powers|rewrite length_z_blocks; lia].
  fold (l0v z) (r0v y z) (r1v y). rewrite t0_delta. unfold T0_log, commit_logs.
  rewrite dot_commit_logs by (autorewrite with machine_rw; reflexivity). fold masks_.
  destruct masks_ok as [_ Lm].
  replace (dot masks_ (z2_ z)) with (dot masks_ (vscale (z * z) (powers z (length xs)))); [ring|].
  rewrite <- (dot_firstn masks_ (z2_ z)), Lm. unfold z2_. now rewrite take_vscale, take_powers by assumption.
Qed.

Definition yi : Z := multiplicative_inverse y.
Definition I_logs : list Z := vhad (vmod (powers yi n)) h.
Definition w_log : Z := bv_ip_challenge v * hh.

Lemma y_inverse : scalar_ok yi /\ y * yi ≡ₗ 1 /\ ~ yi ≡ₗ 0.
Proof using All.
  destruct PF as [[Oy Ny] _ _ _ _ _ _ _ _ _ _ _ _ _ _].
  destruct (multiplicative_inverse_ok y Oy Ny) as [Oi Ei]. split; [exact Oi|]. split; [exact Ei|].
  intros E. unfold yi in E. rewrite E, Z.mul_0_r in Ei. discriminate.
Qed.

Lemma I_logs_ok : length I_logs = n /\ nonzeros I_logs.
Proof using All.
  destruct y_inverse as (_ & _ & Ni). unfold I_logs. split.
  - rewrite length_vhad, length_vmod, length_powers. lia.
  - apply vhad_nonzeros; [|assumption]. eapply nonzeros_eqV; [apply vmod_eqV|]. now apply powers_nonzero.
Qed.

Lemma w_log_ok : secret_ok (bv_ip_challenge v) /\ ~ w_log ≡ₗ 0 /\ H_ (bv_ip_challenge v) = enc w_log.
Proof using All.
  destruct PF as [_ _ _ _ _ Eip _ _ _ _ _ _ _ _ _]. apply maybe_hash_V_Some in Eip. destruct Eip as [Oi Ni].
  split; [now split|]. split; [|now apply Hhh].
  apply eqL_mul_nonzero; [now apply scalar_nonzero|assumption].
Qed.

(** The generators of the second vector, from the prefix or the whole array. *)
Lemma I_V_ok h' : nonzeros (h ++ h') ->
  vector_multP_V (scalar_powers yi n) (enc <$> (h ++ h')) = Returns (enc <$> I_logs).
Proof using All.
  intros Hhh'. destruct y_inverse as (Oi & _ & _). rewrite scalar_powers_ok by assumption.
  rewrite vector_multP_V_ok by (auto with machine; autorewrite with machine_rw; rewrite length_app; lia).
  do 2 f_equal. unfold I_logs, vhad. rewrite <- (app_nil_r (vmod (powers yi n))) at 1.
  rewrite zip_with_app by (autorewrite with machine_rw; lia). cbn. apply app_nil_r.
Qed.

(** The commitment the verifier reconstructs. *)
Lemma verifier_P g' t :
  nonzeros (g ++ g') -> ~ dot sL g + dot sR h + rho ≡ₗ 0 -> bv_mu v <> 0 ->
  scalar_ok t -> t ≡ₗ dot (lv z x) (rv y z x) ->
  (P_G ← vector_commit (scalar_repeat (s_zero -ₛ z) n) (enc <$> (g ++ g'));
   P_I_scalars ← vector_add_V (vmod (z_blocks z p)) (vector_mult (scalar_powers y n) z);
   P_I ← vector_commit P_I_scalars (enc <$> I_logs);
   Returns (vector_sum_P [bv_A v; bv_S v ^ₚ x; P_G; P_I; enc w_log ^ₚ t; G_ (s_zero -ₛ bv_mu v)]))
  = Returns (enc (ipa_value (vmod (lv z x)) (vmod (rv y z x)) g I_logs w_log)).
Proof using All.
  intros Hgg HS Hmu Ot Et. destruct bits_facts as (Lb & _ & _). destruct I_logs_ok as [LI NI].
  destruct w_log_ok as (_ & Hw & _). destruct y_inverse as (_ & Eyi & _).
  destruct PF as [[Oy _] [Oz _] [Ox _] _ _ _ _ EA ES _ _ _ Emu _ _].
  assert (Ozz : scalar_ok s_zero) by apply scalar_ok_0.
  assert (Omu : secret_ok (s_zero -ₛ bv_mu v)).
  { rewrite Emu in Hmu |- *. split; [auto with machine|]. rewrite scalar_sub_ok by auto with machine.
    intros E. apply Hmu. apply eqL_scalar; auto with machine. change (0 - (x * rho + alpha) mod L ≡ₗ 0) in E.
    replace ((x * rho + alpha) mod L) with (0 - (0 - (x * rho + alpha) mod L)) by ring. rewrite E. reflexivity. }
  rewrite scalar_repeat_ok, scalar_powers_ok, vector_mult_ok by auto with machine.
  rewrite (vector_commit_ok (replicate n _)); [|apply Forall_replicate; auto with machine|assumption
    |rewrite length_replicate, length_app; lia]. cbn [mbind result_bind].
  rewrite vector_add_V_ok by (auto with machine; autorewrite with machine_rw; rewrite length_z_blocks; lia).
  cbn [mbind result_bind].
  rewrite vector_commit_ok by (auto with machine; autorewrite with machine_rw; rewrite length_z_blocks; lia).
  cbn [mbind result_bind]. rewrite EA, ES, !mult_enc, G_enc by auto.
  change [enc ?a; enc ?b; enc ?c; enc ?d; enc ?e; enc ?f] with (enc <$> [a; b; c; d; e; f]).
  rewrite vector_sum_P_enc. f_equal. apply enc_eq. unfold ipa_value. rewrite !vmod_eqV.
  rewrite <- (P_value n bits_ sL sR (powers y n) (z_blocks z p) x z Lb LsL LsR (length_powers y n)
                ltac:(rewrite length_z_blocks; lia) g h (vmod (powers yi n)) alpha rho Lg Lh)
    by now apply powers_inverse_vmod.
  rewrite dot_app_r by (rewrite length_replicate; lia). fold I_logs.
  assert (Ez : dot (rep n (s_zero -ₛ z)) g ≡ₗ dot (rep n (- z)) g)
    by (rewrite !dot_rep by assumption; rewrite scalar_sub_eqL by assumption; reflexivity).
  unfold sumZ; cbn [foldr]. rewrite Ez, Et.
  assert (Em : s_zero -ₛ bv_mu v ≡ₗ - (x * rho + alpha))
    by (rewrite Emu, scalar_sub_eqL by auto with machine; rewrite eqL_mod; reflexivity).
  rewrite Em. apply eq_eqL. ring.
Qed.

Definition t_ : Z := dot (lv z x) (rv y z x) mod L.

Definition sent (LRs : LR_V) (a b : Z) : Bulletproof :=
  {| A := bv_A v; S_ := bv_S v; T1 := bv_T1 v; T2 := bv_T2 v; tau := bv_tau v; mu := bv_mu v;
     LR := LRs; bp_a := a; bp_b := b; bp_t := t_ |}.

Lemma challenges_ok LRs a b :
  get_hash_challenges (enc <$> commit_logs) (sent LRs a b) =
  Some {| V_A_S := y; V_A_S_rehash := z; V_A_S_T1_T2 := x; inner_product_challenge := bv_ip_challenge v |}.
Proof using All.
  destruct PF as [_ _ _ Eyz Ex Eip _ _ _ _ _ _ _ _ _]. rewrite commits_enc in Eyz.
  unfold get_hash_challenges, sent. cbn [A S_ T1 T2 tau mu bp_t]. rewrite Eyz. cbn [mbind option_bind].
  rewrite Ex. cbn [mbind option_bind]. unfold t_. rewrite Eip. reflexivity.
Qed.

(** The first check: the blinding terms. *)
Lemma blinding_check :
  ~ T0_log ≡ₗ 0 -> is_safe_point (bv_T1 v) = true -> is_safe_point (bv_T2 v) = true -> bv_tau v <> 0 ->
  evaluate_polynomial_P [enc T0_log; bv_T1 v; bv_T2 v] x = Returns (H_ t_ +ₚ G_ (bv_tau v)).
Proof using All.
  intros N0 N1 N2 Nt. destruct PF as [_ _ [Ox _] _ _ _ _ _ _ E1 E2 Etau _ _ _].
  rewrite E1, is_safe_point_enc, bool_decide_eq_true in N1. rewrite E2, is_safe_point_enc, bool_decide_eq_true in N2.
  assert (Ot : secret_ok (bv_tau v)) by (split; [rewrite Etau; auto with machine|assumption]).
  unfold evaluate_polynomial_P. cbn [length]. rewrite scalar_powers_ok by assumption. rewrite E1, E2.
  change [enc ?a; enc ?b; enc ?c] with (enc <$> [a; b; c]).
  rewrite vector_commit_ok; [|apply vmod_ok|repeat apply Forall_cons_2; assumption || apply Forall_nil_2
    |rewrite length_vmod, length_powers; cbn; lia].
  rewrite Hhh, G_enc, add_enc by (unfold t_; auto with machine). f_equal. apply enc_eq.
  rewrite vmod_eqV. unfold t_. rewrite Etau, !eqL_mod, blinding_identity.
  apply eq_eqL. rewrite !powers_S. change (powers x 0) with (@nil Z). unfold vscale; cbn [fmap list_fmap].
  rewrite !dot_cons. cbn. ring.
Qed.

Lemma verify_ok k g' h' LRs a b :
  (1 <= length xs <= max_outputs)%nat -> snd (ceiling_log2_review (Z.of_nat (length xs))) = Z.of_nat k ->
  nonzeros (g ++ g') -> nonzeros (h ++ h') -> nonzeros commit_logs ->
  ~ T0_log ≡ₗ 0 -> is_safe_point (bv_S v) = true ->
  is_safe_point (bv_T1 v) = true -> is_safe_point (bv_T2 v) = true ->
  bv_tau v <> 0 -> bv_mu v <> 0 -> length LRs = (k + 6)%nat ->
  verify_recursive_loop LRs (enc (ipa_value (vmod (lv z x)) (vmod (rv y z x)) g I_logs w_log))
    (enc <$> g) (enc <$> I_logs) a b (enc w_log) (bv_ip_challenge v) = Returns true ->
  bulletproof_VERIFY_with (enc <$> commit_logs) (sent LRs a b) (enc <$> (g ++ g')) (enc <$> (h ++ h'))
  = Returns true.
Proof using All.
  intros Hx1 Hk Ngg Nhh Nc N0 NS N1 N2 Ntau Nmu HLR Hipa. unfold bulletproof_VERIFY_with.
  assert (Lc : length commit_logs = length xs) by apply length_fmap.
  rewrite length_fmap, Lc, Hp, <- Hn. cbn [LR sent A S_ T1 T2 tau mu bp_t bp_a bp_b].
  rewrite Hk, HLR, challenges_ok.
  change (snd (ceiling_log2_review (Z.of_nat bit_width))) with 6.
  rewrite !leb_ok, (proj2 (Nat.ltb_lt 0 (k + 6))), (proj2 (Z.eqb_eq _ (Z.of_nat k + 6))) by lia.
  cbn [negb V_A_S V_A_S_rehash V_A_S_T1_T2 inner_product_challenge].
  rewrite coefficient_T_0_ok by assumption. cbn [mbind result_bind].
  rewrite blinding_check by assumption. cbn [mbind result_bind]. rewrite Z.eqb_refl. cbn [negb].
  destruct w_log_ok as (_ & _ & EH'). rewrite EH'.
  destruct PF as [_ [Oz _] _ _ _ _ _ _ ES _ _ _ _ _ _].
  rewrite z_blocks_ok by (assumption || lia).
  rewrite ES, is_safe_point_enc, bool_decide_eq_true in NS.
  pose proof (verifier_P g' t_ Ngg NS Nmu (scalar_mod_ok _) (eqL_mod _)) as HP.
  apply result_bind_inv in HP as (PG & EPG & HP). rewrite EPG. cbn [mbind result_bind].
  fold yi. rewrite I_V_ok by assumption. cbn [mbind result_bind].
  apply result_bind_inv in HP as (PIs & EPIs & HP). rewrite EPIs. cbn [mbind result_bind].
  apply result_bind_inv in HP as (PI & EPI & HP). rewrite EPI. cbn [mbind result_bind].
  injection HP as HP. rewrite HP. unfold verify_recursive_inner_product_argument.
  cbn [ripa_LR ripa_P ripa_G ripa_H ripa_a ripa_b ripa_u].
  rewrite <- fmap_take, take_app_length' by auto. exact Hipa.
Qed.

(** The rest of an attempt once the vectors are there. *)
Lemma sent_complete k g' h' :
  (1 <= length xs <= max_outputs)%nat -> snd (ceiling_log2_review (Z.of_nat (length xs))) = Z.of_nat k ->
  n = (2 ^ (k + 6))%nat -> nonzeros (g ++ g') -> nonzeros (h ++ h') ->
  forallb is_safe_point ((fun x => commit x.1 x.2) <$> xs) = true ->
  is_safe_point (bv_S v) = true -> is_safe_point (bv_T1 v) = true -> is_safe_point (bv_T2 v) = true ->
  bv_tau v <> 0 -> bv_mu v <> 0 -> is_safe_point (enc T0_log) = true ->
  ipa_points_safe (S n) (enc <$> g) (enc <$> I_logs) (bv_l v) (bv_r v)
    (H_ (bv_ip_challenge v)) (bv_ip_challenge v) = true ->
  exists res,
    (ipa ← make_recursive_inner_product_argument (enc <$> g) (enc <$> I_logs) (bv_l v) (bv_r v)
             (H_ (bv_ip_challenge v)) (bv_ip_challenge v);
     match ipa with
     | None => Returns None
     | Some ipa =>
       t ← inner_product (bv_l v) (bv_r v);
       Returns (Some {| A := bv_A v; S_ := bv_S v; T1 := bv_T1 v; T2 := bv_T2 v; tau := bv_tau v;
                        mu := bv_mu v; LR := ripa_LR ipa; bp_a := ripa_a ipa; bp_b := ripa_b ipa; bp_t := t |})
     end) = Returns res /\
    (res = None -> zero_challenge) /\
    forall proof, res = Some proof ->
      bulletproof_VERIFY_with ((fun x => commit x.1 x.2) <$> xs) proof (enc <$> (g ++ g')) (enc <$> (h ++ h'))
      = Returns true.
Proof using All.
  intros Hx1 Hk En Ngg Nhh Nc NS N1 N2 Ntau Nmu N0 Hipa. rewrite commits_enc in Nc |- *.
  rewrite is_safe_point_enc, bool_decide_eq_true in N0.
  destruct w_log_ok as (_ & Hw & EH'). rewrite EH' in Hipa |- *. destruct I_logs_ok as [LI NI].
  destruct (l_r_facts y z x) as (_ & _ & _ & L4 & L5).
  pose proof PF as [_ _ _ _ _ _ _ _ _ _ _ _ _ El Er]. rewrite El, Er in Hipa |- *.
  destruct (make_recursive_complete (k + 6) (vmod (lv z x)) (vmod (rv y z x)) g I_logs w_log (bv_ip_challenge v))
    as (res & E & HN & Hres); try assumption; try apply vmod_ok; try (rewrite ?length_vmod; lia); [now rewrite Lg|].
  rewrite E. cbn [mbind result_bind]. destruct res as [arg|];
    [|eexists; split; [reflexivity|]; split; [intros _; now apply HN|discriminate]].
  rewrite ip_vmod by lia. cbn [mbind result_bind]. eexists. split; [reflexivity|]. split; [discriminate|]. intros proof [= <-].
  destruct (Hres arg eq_refl) as (Hlen & _ & _ & _ & _ & Hver).
  apply (verify_ok k g' h' (ripa_LR arg) (ripa_a arg) (ripa_b arg)); try assumption.
  now apply nonzeros_of_safe.
Qed.

End Prover.

(** ** Completeness *)

(** No point multiplied by the prover or the verifier in this attempt is the
    identity, and no scalar given to the base-point multiplication is zero. *)
Definition bulletproof_points_safe `{Sha3} `{Sodium} (xs : list bp_input_t) (alpha : Z) (sL sR : list Z)
    (rho tau1 tau2 : Z) : bool :=
  let commits := (fun x => commit x.1 x.2) <$> xs in
  let n := (padded_number (length xs) * bit_width)%nat in
  match get_bp_vectors_for_inner_product_argument xs alpha sL sR rho tau1 tau2,
        get_bp_generator_G_V n, get_bp_generator_H_V n with
  | Returns (Some v), Returns G_V, Returns H_V =>
    forallb is_safe_point commits && is_safe_point (bv_S v) && is_safe_point (bv_T1 v)
    && is_safe_point (bv_T2 v) && negb (bv_tau v =? 0) && negb (bv_mu v =? 0)
    && match hash_V_A_S commits (bv_A v) (bv_S v) with
       | None => true
       | Some (y, z) =>
         match compute_coefficient_T_0 commits z y with Returns T0 => is_safe_point T0 | Throws => true end
       end
    && match vector_multP_V (scalar_powers (multiplicative_inverse (bv_challenge_y v)) n) H_V with
       | Returns I_V => ipa_points_safe (S (length G_V)) G_V I_V (bv_l v) (bv_r v)
                          (H_ (bv_ip_challenge v)) (bv_ip_challenge v)
       | Throws => true
       end
  | _, _, _ => true
  end.

(** What an attempt is given: at least one and at most sixteen amounts with
    usable masks, and the random scalars of the prover. *)
Record attempt_ok (xs : list bp_input_t) (alpha : Z) (sL sR : list Z) (rho tau1 tau2 : Z) : Prop := {
  ao_length : (1 <= length xs <= max_outputs)%nat;
  ao_inputs : Forall (fun x => fits 64 x.1 /\ secret_ok x.2) xs;
  ao_alpha : secret_ok alpha; ao_rho : secret_ok rho; ao_tau1 : secret_ok tau1; ao_tau2 : secret_ok tau2;
  ao_sL : scalars_ok sL; ao_sR : scalars_ok sR;
  ao_length_sL : length sL = (padded_number (length xs) * bit_width)%nat;
  ao_length_sR : length sR = (padded_number (length xs) * bit_width)%nat }.

Section Attempt.
Context `{HL : Sha3Laws} `{SL : SodiumLaws}.
Context (xs : list bp_input_t) (alpha : Z) (sL sR : list Z) (rho tau1 tau2 : Z)
        (AO : attempt_ok xs alpha sL sR rho tau1 tau2) (Hinit : init_generators <> Throws)
        (Hsafe : bulletproof_points_safe xs alpha sL sR rho tau1 tau2 = true).

Lemma attempt_complete :
  exists res, bulletproof_attempt xs alpha sL sR rho tau1 tau2 = Returns res /\
    (res = None -> zero_challenge) /\
    forall proof, res = Some proof ->
      bulletproof_VERIFY ((fun x => commit x.1 x.2) <$> xs) proof = Returns true.
Proof using All.
  destruct AO as [Hxs1 Hxs Hal Hrho Ht1 Ht2 OsL OsR LsL LsR].
  destruct (padded_number_spec _ Hxs1) as (k & Hk4 & Hlog & Hpad & Hm).
  unfold bulletproof_VERIFY. destruct init_generators as [[Gs Hs]|] eqn:Einit; [|contradiction].
  assert (En : (padded_number (length xs) * bit_width = 2 ^ (k + 6))%nat)
    by (rewrite Hpad, Nat.pow_add_r; reflexivity).
  assert (Hle : (2 ^ (k + 6) <= max_vector_length)%nat)
    by (change max_vector_length with (2 ^ 10)%nat; apply Nat.pow_le_mono_r; lia).
  destruct (init_generators_ok (2 ^ (k + 6)) Gs Hs Einit Hle) as (g & h & g' & h' & -> & -> & Ngg & Nhh & Lg & Lh & EG & EH).
  pose proof (proj1 (Forall_app _ _ _) Ngg) as [Ng _]. pose proof (proj1 (Forall_app _ _ _) Nhh) as [Nh _].
  destruct H_mult as (hh & Hhh0 & _ & Hhh).
  rewrite En in LsL, LsR. rewrite <- Hpad in Hm. symmetry in En.
  destruct (prover_vectors_ok xs _ _ alpha rho tau1 tau2 sL sR g h hh eq_refl Hm En Hxs Hal Hrho Ht1 Ht2 OsL OsR
              LsL LsR Ng Nh Lg Lh EG EH Hhh) as (res & Eres & HN & Hres).
  unfold bulletproof_points_safe in Hsafe. unfold bulletproof_attempt.
  rewrite <- En in Hsafe |- *. rewrite Eres, EG, EH in Hsafe. rewrite Eres. cbn [mbind result_bind].
  destruct res as [v|]; [|eexists; split; [reflexivity|]; split; [intros _; now apply HN|discriminate]].
  destruct (Hres v eq_refl) as (y & z & x & PF). clear Hres. pose proof PF as [_ _ _ Eyz _ _ Ey _ _ _ _ _ _ _ _].
  rewrite EG. cbn [mbind result_bind]. rewrite EH. cbn [mbind result_bind].
  pose proof (I_V_ok xs _ _ alpha rho tau1 tau2 sL sR g h hh eq_refl Hm En Hxs Hal Hrho Ht1 Ht2 OsL OsR
                LsL LsR Ng Nh Lg Lh EG EH Hhh Hhh0 v y z x PF []) as EI.
  rewrite app_nil_r in EI. specialize (EI Nh). unfold yi in EI.
  rewrite Ey. rewrite Eyz, Ey, EI, length_fmap, Lg in Hsafe. rewrite EI. cbn [mbind result_bind].
  apply andb_prop in Hsafe as [Hsafe Hipa]. apply andb_prop in Hsafe as [Hsafe HT0].
  to_prop.
  eapply (sent_complete xs _ _ alpha rho tau1 tau2 sL sR g h hh eq_refl Hm En Hxs Hal Hrho Ht1 Ht2 OsL OsR
            LsL LsR Ng Nh Lg Lh EG EH Hhh Hhh0 v y z x PF); try eassumption; try reflexivity.
  rewrite (commits_enc xs hh Hxs Hhh) in HT0.
  rewrite (coefficient_T_0_ok xs _ _ alpha rho tau1 tau2 sL sR g h hh eq_refl Hm En Hxs Hal Hrho Ht1 Ht2 OsL OsR
             LsL LsR Ng Nh Lg Lh EG EH Hhh Hhh0 v y z x PF) in HT0; [exact HT0|].
  apply nonzeros_of_safe. now rewrite <- (commits_enc xs hh Hxs Hhh).
Qed.

End Attempt.

(** The attempt that starts at the [used]-th draw is safe. *)
Definition draws_safe `{Sha3} `{Sodium} (xs : list bp_input_t) (random : nat -> Z) (used : nat) : bool :=
  let w := (padded_number (length xs) * bit_width)%nat in
  bulletproof_points_safe xs (random used) (random <$> seq (used + 1) w) (random <$> seq (used + 1 + w) w)
    (random (used + 1 + w + w)%nat) (random (used + 2 + w + w)%nat) (random (used + 3 + w + w)%nat).

Lemma make_loop_complete `{Sha3Laws} `{SodiumLaws} attempts xs random used :
  let w := (padded_number (length xs) * bit_width)%nat in
  (1 <= length xs <= max_outputs)%nat -> Forall (fun x => fits 64 x.1 /\ secret_ok x.2) xs ->
  (forall i, secret_ok (random i)) -> init_generators <> Throws ->
  (forall j, (j < attempts)%nat -> draws_safe xs random (used + j * (4 + w + w)) = true) ->
  exists res, bulletproof_MAKE_loop attempts xs random used = Returns res /\
    (res = None -> attempts = O \/ zero_challenge) /\
    forall proof, res = Some proof ->
      bulletproof_VERIFY ((fun x => commit x.1 x.2) <$> xs) proof = Returns true.
Proof.
  intros w Hl Hxs Hr Hi. assert (Hs : forall a m, scalars_ok (random <$> seq a m)).
  { intros a m. apply Forall_fmap, Forall_forall. intros i _. apply Hr. }
  revert used; induction attempts as [|attempts IH]; intros used Hj; cbn [bulletproof_MAKE_loop].
  - eexists. split; [reflexivity|]. split; [auto|discriminate].
  - fold w. pose proof (Hj O ltac:(lia)) as H0j. rewrite Nat.mul_0_l, Nat.add_0_r in H0j.
    unfold draws_safe in H0j. fold w in H0j.
    edestruct (attempt_complete xs) as (res & E & HN & Hres); [|exact Hi|exact H0j|].
    { split; auto; unfold w; now rewrite length_fmap, length_seq. }
    rewrite E. cbn [mbind result_bind]. destruct res as [pf|].
    + eexists. split; [reflexivity|]. split; [discriminate|]. intros proof [= <-]. now apply Hres.
    + edestruct (IH (used + 4 + w + w)%nat) as (res & E' & _ & Hres'); [|exists res; auto]. intros j Hlt. replace (used + 4 + w + w + j * (4 + w + w))%nat
        with (used + S j * (4 + w + w))%nat by lia. apply Hj. lia.
Qed.

Lemma MAKE_complete `{Sha3Laws} `{SodiumLaws} attempts xs random :
  let w := (padded_number (length xs) * bit_width)%nat in
  (1 <= length xs <= max_outputs)%nat -> Forall (fun x => fits 64 x.1 /\ secret_ok x.2) xs ->
  (forall i, secret_ok (random i)) -> init_generators <> Throws ->
  (forall j, (j < attempts)%nat -> draws_safe xs random (j * (4 + w + w)) = true) ->
  exists res, bulletproof_MAKE attempts xs random = Returns res /\
    (res = None -> attempts = O \/ zero_challenge) /\
    forall proof, res = Some proof ->
      bulletproof_VERIFY ((fun x => commit x.1 x.2) <$> xs) proof = Returns true.
Proof.
  intros w Hl Hxs Hr Hi Hj. unfold bulletproof_MAKE.
  rewrite bool_decide_eq_false_2 by (destruct xs; [cbn in Hl; lia|discriminate]). cbn [negb throw_unless mbind result_bind].
  rewrite leb_ok by lia. cbn [throw_unless mbind result_bind].
  assert (E : exists us, result_mapM (fun x => throw_unless (is_reduced x.2)) xs = Returns us).
  { clear Hl Hj w. induction Hxs as [|x xs [Hx [Ox _]] _ [us IH]]; [now exists []|]. exists (tt :: us). cbn [result_mapM].
    rewrite (proj2 (is_reduced_spec x.2 (scalar_ok_fits _ Ox)) Ox), IH. reflexivity. }
  destruct E as [us ->]. cbn [mbind result_bind]. now apply make_loop_complete.
Qed.

(** C16: Completeness of the range proof.  For one to sixteen 64-bit amounts with
    non-zero reduced masks and any stream of non-zero random scalars,
    provided the decomposition in bits, the polynomial commitments and the folding
    meet no identity point, [bulletproof_MAKE] does not throw; it returns a proof
    at its first attempt unless some data hashes to the scalar zero; and the proof
    is accepted by [bulletproof_VERIFY] against the commitments to the amounts. *)
Theorem bulletproof_complete `{Sha3Laws} `{SodiumLaws} attempts xs random :
  let w := (padded_number (length xs) * bit_width)%nat in
  (1 <= length xs <= max_outputs)%nat -> Forall (fun x => fits 64 x.1 /\ secret_ok x.2) xs ->
  (forall i, secret_ok (random i)) -> init_generators <> Throws ->
  (forall j, (j < attempts)%nat -> draws_safe xs random (j * (4 + w + w)) = true) ->
  exists res, bulletproof_MAKE attempts xs random = Returns res /\
    (res = None -> attempts = O \/ zero_challenge) /\
    forall proof, res = Some proof ->
      bulletproof_VERIFY ((fun x => commit x.1 x.2) <$> xs) proof = Returns true.
Proof. apply MAKE_complete. Qed.

Section Examples.
Import ModelGroup UnitDigest.

Lemma result_mapM_total {X Y} (f : X -> result Y) l : (forall x, f x <> Throws) -> result_mapM f l <> Throws.
Proof.
  intros Hf. induction l as [|x l IH]; cbn; [discriminate|].
  specialize (Hf x). destruct (f x); [|contradiction]. cbn. destruct (result_mapM f l); [discriminate|contradiction].
Qed.

Lemma model_generator base i : get_bp_generator base i <> Throws.
Proof.
  unfold get_bp_generator, hash_to_point_via_field. cbv zeta.
  rewrite (proj2 (Z.eqb_neq _ _) (model_viaFieldMult8 _)). discriminate.
Qed.

Lemma result_bind_total {X Y} (m : result X) (k : X -> result Y) :
  m <> Throws -> (forall x, k x <> Throws) -> (m ≫= k) <> Throws.
Proof. destruct m; cbn; [auto|contradiction]. Qed.

Lemma model_init_generators : init_generators <> Throws.
Proof.
  apply result_bind_total; [apply result_mapM_total; intros; apply model_generator|intros Gs].
  apply result_bind_total; [apply result_mapM_total; intros; apply model_generator|discriminate].
Qed.

Definition example_random (i : nat) : Z := 2 + Z.of_nat i mod 1000.

Lemma example_random_ok i : secret_ok (example_random i).
Proof.
  unfold example_random, secret_ok, scalar_ok. pose proof (Z.mod_pos_bound (Z.of_nat i) 1000 ltac:(lia)).
  assert (2000 < L) by reflexivity. lia.
Qed.

Lemma bulletproof_complete_witness :
  exists res, bulletproof_MAKE 1 [(5, 3)] example_random = Returns res /\
    (res = None -> 1%nat = O \/ zero_challenge) /\
    forall proof, res = Some proof -> bulletproof_VERIFY [commit 5 3] proof = Returns true.
Proof.
  apply (bulletproof_complete 1 [(5, 3)] example_random).
  - change max_outputs with 16%nat. cbn. lia.
  - constructor; [|constructor]. vm_compute. repeat split; congruence.
  - exact example_random_ok.
  - exact model_init_generators.
  - intros j Hj. assert (j = 0)%nat as -> by lia. vm_compute. reflexivity.
Defined.

End Examples.

End BulletproofComplete.
