(* ===== verification/Clsag.v ===== *)
(** CLSAG ring signatures ([src/src/math/ringct/controller/clsagGen.cpp],
    [src/src/math/ringct/pseudo_functional/clsag.cpp]). *)

From S2P Require Import Prelude Hash Config Primality Group ModelGroup Key RctOps.

Module Clsag.
Import Config Key RctOps.

Record output_public_data := { output_public_key : ec_point; decoy_commit : ec_point }.
Definition no_data : output_public_data := {| output_public_key := 0; decoy_commit := 0 |}.

(** [struct clsag] *)
Record clsag := {
  s : list ec_scalar; c1 : ec_scalar;
  signer_key_image : ec_point; blinding_factor_surplus_key_image : ec_point }.

(** A domain separator copied to the front of 32 zero bytes. *)
Definition domain (key : blob) : crypto_data := le_Z (key ++ replicate (32 - length key) 0).

Section Protocol.
Context `{Sha3} `{Sodium}.

Definition hash_clsag_data_with_key (signer_key_image blinding_factor_surplus_key_image pseudo_input_commit : ec_point)
    (decoys : list output_public_data) (hash_key : blob) : ec_scalar :=
  hash_dataV_to_scalar
    ([domain hash_key] ++ (output_public_key <$> decoys) ++ (decoy_commit <$> decoys)
       ++ [signer_key_image; to_inv8 blinding_factor_surplus_key_image; pseudo_input_commit]).

(** The vector [c_to_hash] before the two round points are set. *)
Definition round_data (message : hash) (decoys : list output_public_data) (pseudo_input_commit : ec_point)
    : list crypto_data :=
  [domain HASH_KEY_CLSAG_ROUND] ++ (output_public_key <$> decoys) ++ (decoy_commit <$> decoys)
    ++ [pseudo_input_commit; h2d message].

(** [c_to_hash[2*n+3] = L; c_to_hash[2*n+4] = R] *)
Definition set_round_points (n : nat) (L R : ec_point) (c_to_hash : list crypto_data) : list crypto_data :=
  <[(2 * n + 4)%nat := R]> (<[(2 * n + 3)%nat := L]> c_to_hash).

(** The loop of the signer over the decoys, from [i] round to the signer's index.
    [draw] counts the random scalars taken. *)
Fixpoint sign_loop (fuel : nat) (decoys : list output_public_data) (decoy_commit_surplus : list ec_point)
    (key_image D : ec_point) (mu_P mu_C : ec_scalar) (index_in_decoys : nat) (random : nat -> ec_scalar)
    (draw i : nat) (c sig_c1 : ec_scalar) (sv : list ec_scalar) (c_to_hash : list crypto_data)
    : ec_scalar * ec_scalar * list ec_scalar :=
  match fuel with
  | O => (c, sig_c1, sv)
  | S fuel' =>
    if (i =? index_in_decoys)%nat then (c, sig_c1, sv)
    else
      let n := length decoys in
      let c_p := mu_P *ₛ c in
      let c_c := mu_C *ₛ c in
      let sk := random draw in
      let P := output_public_key (nth i decoys no_data) in
      let L := sum [G_ sk; P ^ₚ c_p; nth i decoy_commit_surplus 0 ^ₚ c_c] in
      let A := hash_to_point_via_field P in
      let R := sum [A ^ₚ sk; key_image ^ₚ c_p; D ^ₚ c_c] in
      let sv' := <[i := sk]> sv in
      let c_to_hash' := set_round_points n L R c_to_hash in
      let c' := hash_dataV_to_scalar c_to_hash' in
      let i' := ((i + 1) mod n)%nat in
      let sig_c1' := if (i' =? 0)%nat then c' else sig_c1 in
      sign_loop fuel' decoys decoy_commit_surplus key_image D mu_P mu_C index_in_decoys random
        (S draw) i' c' sig_c1' sv' c_to_hash'
  end.

(** [sig_c1] is uninitialised in the code until the loop passes index 0. *)
Definition generate_clsag_signature_internal (message : hash) (signer_sk signer_blinding_factor_surplus : ec_scalar)
    (index_in_decoys : nat) (pseudo_input_commit : ec_point) (decoys : list output_public_data)
    (decoy_commit_surplus : list ec_point) (random : nat -> ec_scalar) : result clsag :=
  let n := length decoys in
  _ ← throw_unless (n =? length decoy_commit_surplus)%nat;
  _ ← throw_unless (index_in_decoys <? n)%nat;
  let signer_pk_hash := hash_to_point_via_field (output_public_key (nth index_in_decoys decoys no_data)) in
  let sig_signer_key_image := signer_pk_hash ^ₚ signer_sk in
  let D := signer_pk_hash ^ₚ signer_blinding_factor_surplus in
  let mu_P := hash_clsag_data_with_key sig_signer_key_image D pseudo_input_commit decoys HASH_KEY_CLSAG_AGG_0 in
  let mu_C := hash_clsag_data_with_key sig_signer_key_image D pseudo_input_commit decoys HASH_KEY_CLSAG_AGG_1 in
  let a := random 0%nat in
  let c_to_hash := round_data message decoys pseudo_input_commit ++ [G_ a; signer_pk_hash ^ₚ a] in
  let c := hash_dataV_to_scalar c_to_hash in
  let i := ((index_in_decoys + 1) mod n)%nat in
  let sig_c1 := if (i =? 0)%nat then c else 0 in
  let '(c, sig_c1, sv) :=
    sign_loop n decoys decoy_commit_surplus sig_signer_key_image D mu_P mu_C index_in_decoys random
      1 i c sig_c1 (replicate n 0) c_to_hash in
  let s_signer := a -ₛ c *ₛ (mu_C *ₛ signer_blinding_factor_surplus +ₛ mu_P *ₛ signer_sk) in
  Returns {| s := <[index_in_decoys := s_signer]> sv; c1 := sig_c1;
             signer_key_image := sig_signer_key_image; blinding_factor_surplus_key_image := D |}.

Definition generate_clsag_signature (message : hash) (signer_sk signer_blinding_factor : ec_scalar)
    (index_in_decoys : nat) (pseudo_input_blinding_factor : ec_scalar) (pseudo_input_commit : ec_point)
    (decoys : list output_public_data) (random : nat -> ec_scalar) : result clsag :=
  _ ← throw_if (length decoys =? 0)%nat;
  let decoy_commit_surplus := (fun x => decoy_commit x -ₚ pseudo_input_commit) <$> decoys in
  let signer_blinding_factor_surplus := signer_blinding_factor -ₛ pseudo_input_blinding_factor in
  generate_clsag_signature_internal message signer_sk signer_blinding_factor_surplus index_in_decoys
    pseudo_input_commit decoys decoy_commit_surplus random.

(** The verifier's loop; [None] is the early return on a zero challenge. *)
Fixpoint verify_loop (todo : nat) (decoys : list output_public_data) (pseudo_input_commit : ec_point)
    (sig : clsag) (mu_P mu_C : ec_scalar) (i : nat) (c : ec_scalar) (c_to_hash : list crypto_data)
    : option ec_scalar :=
  match todo with
  | O => Some c
  | S todo' =>
    let n := length decoys in
    let c_p := mu_P *ₛ c in
    let c_c := mu_C *ₛ c in
    let P := output_public_key (nth i decoys no_data) in
    let decoy_commit_surplus := decoy_commit (nth i decoys no_data) -ₚ pseudo_input_commit in
    let L := sum [G_ (nth i (s sig) 0); P ^ₚ c_p; decoy_commit_surplus ^ₚ c_c] in
    let k := hash_to_point_via_field P in
    let R := sum [k ^ₚ nth i (s sig) 0; signer_key_image sig ^ₚ c_p;
                  blinding_factor_surplus_key_image sig ^ₚ c_c] in
    let c_to_hash' := set_round_points n L R c_to_hash in
    let c' := hash_dataV_to_scalar c_to_hash' in
    if c' =? s_zero then None
    else verify_loop todo' decoys pseudo_input_commit sig mu_P mu_C (S i) c' c_to_hash'
  end.

Definition verify_clsag_signature (message : hash) (sig : clsag) (decoys : list output_public_data)
    (pseudo_input_commit : ec_point) : bool :=
  let n := length decoys in
  if negb (1 <=? n)%nat then false else
  if negb (n =? length (s sig))%nat then false else
  let mu_P := hash_clsag_data_with_key (signer_key_image sig) (blinding_factor_surplus_key_image sig)
                pseudo_input_commit decoys HASH_KEY_CLSAG_AGG_0 in
  let mu_C := hash_clsag_data_with_key (signer_key_image sig) (blinding_factor_surplus_key_image sig)
                pseudo_input_commit decoys HASH_KEY_CLSAG_AGG_1 in
  let c_to_hash := round_data message decoys pseudo_input_commit ++ [0; 0] in
  match verify_loop n decoys pseudo_input_commit sig mu_P mu_C 0 (c1 sig) c_to_hash with
  | None => false
  | Some c => c =? c1 sig
  end.

End Protocol.

(** ** Rounds *)

Lemma set_round_points_data message decoys P X Y L R :
  set_round_points (length decoys) L R (round_data message decoys P ++ [X; Y]) = round_data message decoys P ++ [L; R].
Proof.
  unfold set_round_points, round_data.
  assert (Hl : length (([domain HASH_KEY_CLSAG_ROUND] ++ (output_public_key <$> decoys) ++ (decoy_commit <$> decoys)
    ++ [P; h2d message])) = (2 * length decoys + 3)%nat).
  { rewrite !length_app, !length_fmap. cbn. lia. }
  set (d := [domain HASH_KEY_CLSAG_ROUND] ++ _) in *.
  rewrite insert_app_r_alt by lia. rewrite insert_app_r_alt by lia.
  rewrite Hl. replace (2 * length decoys + 3 - (2 * length decoys + 3))%nat with 0%nat by lia.
  replace (2 * length decoys + 4 - (2 * length decoys + 3))%nat with 1%nat by lia. reflexivity.
Qed.

Section Chain.
Context `{Sha3} `{Sodium}.
Context (message : hash) (decoys : list output_public_data) (pseudo : ec_point)
        (key_image D : ec_point) (mu_P mu_C : ec_scalar).
Let n := length decoys.

(** The challenge after round [i] with response [r] and challenge [c]. *)
Definition round_points (i : nat) (r c : ec_scalar) : ec_point * ec_point :=
  let P := output_public_key (nth i decoys no_data) in
  (sum [G_ r; P ^ₚ (mu_P *ₛ c); (decoy_commit (nth i decoys no_data) -ₚ pseudo) ^ₚ (mu_C *ₛ c)],
   sum [hash_to_point_via_field P ^ₚ r; key_image ^ₚ (mu_P *ₛ c); D ^ₚ (mu_C *ₛ c)]).
Definition challenge_of (LR : ec_point * ec_point) : ec_scalar :=
  hash_dataV_to_scalar (round_data message decoys pseudo ++ [LR.1; LR.2]).
Definition round (i : nat) (r c : ec_scalar) : ec_scalar := challenge_of (round_points i r c).

(** The challenges of the rounds [i], [i+1], ... *)
Fixpoint challenges (i : nat) (rs : list ec_scalar) (c : ec_scalar) : list ec_scalar :=
  match rs with
  | [] => []
  | r :: rs' => let c' := round i r c in c' :: challenges (S i) rs' c'
  end.
Definition last_challenge (i : nat) (rs : list ec_scalar) (c : ec_scalar) : ec_scalar :=
  List.last (c :: challenges i rs c) 0.

Lemma last_challenge_cons i r rs c : last_challenge i (r :: rs) c = last_challenge (S i) rs (round i r c).
Proof. reflexivity. Qed.

Lemma last_challenge_app i rs1 rs2 c :
  last_challenge i (rs1 ++ rs2) c = last_challenge (i + length rs1) rs2 (last_challenge i rs1 c).
Proof.
  revert i c; induction rs1 as [|r rs1 IH]; intros i c; cbn [app length].
  - rewrite Nat.add_0_r. reflexivity.
  - rewrite !last_challenge_cons, IH. f_equal. lia.
Qed.

(** The verifier runs the chain of challenges. *)
Lemma verify_loop_chain sig X Y todo i c :
  signer_key_image sig = key_image -> blinding_factor_surplus_key_image sig = D ->
  (i + todo = length (s sig))%nat ->
  verify_loop todo decoys pseudo sig mu_P mu_C i c (round_data message decoys pseudo ++ [X; Y]) =
  (if forallb (fun c => negb (c =? s_zero)) (challenges i (drop i (s sig)) c)
   then Some (last_challenge i (drop i (s sig)) c) else None).
Proof.
  intros Ek Ed. revert X Y i c; induction todo as [|todo IH]; intros X Y i c Hi; cbn [verify_loop].
  - rewrite drop_ge by lia. reflexivity.
  - rewrite set_round_points_data. rewrite Ek, Ed.
    destruct (lookup_lt_is_Some_2 (s sig) i) as [r Hr]; [lia|].
    rewrite (drop_S _ r) by assumption. cbn [challenges forallb].
    rewrite (nth_lookup_Some _ _ 0 r) by assumption.
    change (hash_dataV_to_scalar _) with (round i r c).
    destruct (round i r c =? s_zero); cbn [negb andb]; [reflexivity|].
    rewrite last_challenge_cons. apply IH. lia.
Qed.

(** *** The signer's loop *)

Context (index : nat) (random : nat -> ec_scalar) (Hindex : (index < n)%nat).
Let surplus := (fun x => decoy_commit x -ₚ pseudo) <$> decoys.

Lemma nth_surplus i : (i < n)%nat -> nth i surplus 0 = decoy_commit (nth i decoys no_data) -ₚ pseudo.
Proof.
  intros Hi. unfold surplus. destruct (lookup_lt_is_Some_2 decoys i Hi) as [x Hx].
  rewrite (nth_lookup_Some decoys i no_data x) by assumption.
  apply nth_lookup_Some. now rewrite list_lookup_fmap, Hx.
Qed.

(** One turn of the loop, away from the signer's index. *)
Lemma sign_loop_step fuel draw i c sig_c1 sv X Y :
  i <> index -> (i < n)%nat -> exists X' Y',
  sign_loop (S fuel) decoys surplus key_image D mu_P mu_C index random draw i c sig_c1 sv
    (round_data message decoys pseudo ++ [X; Y]) =
  let c' := round i (random draw) c in
  let i' := ((i + 1) mod n)%nat in
  sign_loop fuel decoys surplus key_image D mu_P mu_C index random (S draw) i' c'
    (if (i' =? 0)%nat then c' else sig_c1) (<[i := random draw]> sv)
    (round_data message decoys pseudo ++ [X'; Y']).
Proof.
  intros Hne Hi. cbn [sign_loop]. rewrite (proj2 (Nat.eqb_neq i index)) by assumption.
  rewrite set_round_points_data, nth_surplus by assumption. eexists _, _. reflexivity.
Qed.

(** From [i] up to the signer's index, without passing 0. *)
Lemma sign_loop_up k fuel draw i c sig_c1 sv X Y :
  (i + k = index)%nat -> (k < fuel)%nat -> length sv = n ->
  sign_loop fuel decoys surplus key_image D mu_P mu_C index random draw i c sig_c1 sv
    (round_data message decoys pseudo ++ [X; Y]) =
  (last_challenge i (random <$> seq draw k) c, sig_c1,
   take i sv ++ (random <$> seq draw k) ++ drop index sv).
Proof using Hindex.
  revert fuel draw i c sv X Y; induction k as [|k IH]; intros fuel draw i c sv X Y Hi Hf Hsv;
    (destruct fuel as [|fuel]; [lia|]).
  - cbn [sign_loop]. rewrite (proj2 (Nat.eqb_eq i index)) by lia. cbn. do 2 f_equal.
    assert (i = index) as -> by lia. now rewrite take_drop.
  - destruct (sign_loop_step fuel draw i c sig_c1 sv X Y) as (X' & Y' & ->); [lia|lia|]. cbv zeta.
    rewrite Nat.mod_small by lia. rewrite (proj2 (Nat.eqb_neq (i + 1) 0)) by lia.
    rewrite IH by (rewrite ?length_insert; lia). cbn [seq fmap list_fmap]. rewrite last_challenge_cons.
    replace (S i) with (i + 1)%nat by lia. f_equal. rewrite drop_insert_lt by lia.
    replace (i + 1)%nat with (S i) by lia.
    rewrite (take_S_r _ _ (random draw)) by (apply list_lookup_insert_eq; lia).
    rewrite take_insert_ge by lia. now rewrite <- app_assoc.
Qed.

(** From [i] beyond the signer's index, past the end of the ring. *)
Lemma sign_loop_wrap k fuel draw i c sig_c1 sv X Y :
  (i + k = n)%nat -> (index < i)%nat -> (0 < k)%nat -> (k + index < fuel)%nat -> length sv = n ->
  let rs1 := random <$> seq draw k in
  let c1' := last_challenge i rs1 c in
  let rs2 := random <$> seq (draw + k) index in
  sign_loop fuel decoys surplus key_image D mu_P mu_C index random draw i c sig_c1 sv
    (round_data message decoys pseudo ++ [X; Y]) =
  (last_challenge 0 rs2 c1', c1', rs2 ++ drop index (take i sv) ++ rs1).
Proof using Hindex.
  revert fuel draw i c sig_c1 sv X Y; induction k as [|k IH]; intros fuel draw i c sig_c1 sv X Y Hi Hlt Hk Hf Hsv; [lia|].
  destruct fuel as [|fuel]; [lia|]. cbv zeta.
  destruct (sign_loop_step fuel draw i c sig_c1 sv X Y) as (X' & Y' & ->); [lia|lia|]. cbv zeta.
  cbn [seq fmap list_fmap]. rewrite last_challenge_cons.
  assert (Hins : take (S i) (<[i := random draw]> sv) = take i sv ++ [random draw]).
  { rewrite (take_S_r _ _ (random draw)) by (apply list_lookup_insert_eq; lia). now rewrite take_insert_ge by lia. }
  destruct (decide (k = 0)%nat) as [->|Hk0].
  - replace (i + 1)%nat with n by lia. rewrite Nat.Div0.mod_same. cbn [Nat.eqb].
    rewrite (sign_loop_up index) by (rewrite ?length_insert; lia). cbn [take app seq fmap list_fmap last_challenge].
    replace (S draw) with (draw + 1)%nat by lia.
    rewrite (take_ge _ (S i)) in Hins by (rewrite length_insert; lia).
    rewrite Hins, drop_app_le by (rewrite length_take; lia). reflexivity.
  - rewrite Nat.mod_small by lia. rewrite (proj2 (Nat.eqb_neq (i + 1) 0)) by lia.
    rewrite IH by (rewrite ?length_insert; lia). cbv zeta.
    replace (S draw + k)%nat with (draw + S k)%nat by lia. replace (i + 1)%nat with (S i) by lia.
    do 2 f_equal. rewrite Hins, drop_app_le by (rewrite length_take; lia). now rewrite <- app_assoc.
Qed.

(** The whole loop: the responses of the decoys are the draws in order. *)
Lemma sign_loop_all c X Y :
  let i0 := ((index + 1) mod n)%nat in
  let rs1 := random <$> seq 1 (n - 1 - index) in
  let c1' := last_challenge (index + 1) rs1 c in
  let rs2 := random <$> seq (n - index) index in
  exists x,
  sign_loop n decoys surplus key_image D mu_P mu_C index random 1 i0 c
    (if (i0 =? 0)%nat then c else 0) (replicate n 0) (round_data message decoys pseudo ++ [X; Y]) =
  (last_challenge 0 rs2 c1', c1', rs2 ++ x :: rs1).
Proof using Hindex.
  cbv zeta. destruct (decide (index + 1 = n)%nat) as [En|En].
  - rewrite En, Nat.Div0.mod_same. replace (n - 1 - index)%nat with 0%nat by lia. cbn [Nat.eqb seq fmap list_fmap].
    exists 0. rewrite (sign_loop_up index) by (rewrite ?length_replicate; lia). cbn [take app].
    rewrite drop_replicate. replace (n - index)%nat with 1%nat by lia. reflexivity.
  - rewrite Nat.mod_small by lia. rewrite (proj2 (Nat.eqb_neq (index + 1) 0)) by lia.
    exists 0. rewrite (sign_loop_wrap (n - 1 - index)) by (rewrite ?length_replicate; lia). cbv zeta.
    replace (1 + (n - 1 - index))%nat with (n - index)%nat by lia.
    rewrite take_replicate, drop_replicate. replace ((index + 1) `min` n - index)%nat with 1%nat by lia. reflexivity.
Qed.

End Chain.

(** The challenges the verifier computes, one per member of the ring. *)
Definition round_challenges `{Sha3} `{Sodium} (message : hash) (sig : clsag) (decoys : list output_public_data)
    (pseudo : ec_point) : list ec_scalar :=
  let mu k := hash_clsag_data_with_key (signer_key_image sig) (blinding_factor_surplus_key_image sig) pseudo decoys k in
  challenges message decoys pseudo (signer_key_image sig) (blinding_factor_surplus_key_image sig)
    (mu HASH_KEY_CLSAG_AGG_0) (mu HASH_KEY_CLSAG_AGG_1) 0 (s sig) (c1 sig).

Lemma verify_chain `{Sha3} `{Sodium} message sig decoys pseudo :
  (1 <= length decoys)%nat -> length (s sig) = length decoys ->
  verify_clsag_signature message sig decoys pseudo =
  forallb (fun c => negb (c =? s_zero)) (round_challenges message sig decoys pseudo)
  && (List.last (c1 sig :: round_challenges message sig decoys pseudo) 0 =? c1 sig).
Proof.
  intros Hn Hs. unfold verify_clsag_signature. rewrite (proj2 (Nat.leb_le 1 _)) by assumption.
  rewrite Hs, Nat.eqb_refl. cbn [negb].
  rewrite (verify_loop_chain message decoys pseudo (signer_key_image sig) (blinding_factor_surplus_key_image sig))
    by (auto; lia).
  rewrite drop_0. unfold round_challenges, last_challenge. now destruct (forallb _ _).
Qed.

Section Completeness.
Context `{HL : Sha3Laws} `{SL : SodiumLaws}.

Lemma hash_dataV_to_scalar_ok keys : scalar_ok (hash_dataV_to_scalar keys).
Proof using HL SL.
  apply reduce_closed. destruct keys; cbn [hash_dataV]; [now vm_compute|apply sha3_fits].
Qed.

Lemma commit_surplus amount bf pbf :
  fits 64 amount -> secret_ok bf -> secret_ok pbf ->
  commit amount bf -ₚ commit amount pbf = enc (bf - pbf).
Proof using SL.
  intros Ha Hb Hp. destruct H_mult as (h & _ & _ & HH). unfold commit, G_.
  fold (to_pk bf) (to_pk pbf).
  rewrite int_to_scalar_small, HH, !to_pk_enc, !add_enc, sub_enc by auto with machine.
  f_equal. ring.
Qed.

(** The signer's response closes the ring. *)
Lemma signer_round message decoys pseudo mu_P mu_C sk z k a c index :
  secret_ok sk -> secret_ok z -> secret_ok a -> ~ k ≡ₗ 0 -> scalar_ok mu_P -> scalar_ok mu_C -> scalar_ok c ->
  output_public_key (nth index decoys no_data) = enc sk ->
  decoy_commit (nth index decoys no_data) -ₚ pseudo = enc z ->
  hash_to_point_via_field (enc sk) = enc k ->
  let r := a -ₛ c *ₛ (mu_C *ₛ z +ₛ mu_P *ₛ sk) in
  r <> 0 ->
  round message decoys pseudo (enc k ^ₚ sk) (enc k ^ₚ z) mu_P mu_C index r c =
  hash_dataV_to_scalar (round_data message decoys pseudo ++ [G_ a; enc k ^ₚ a]).
Proof using SL.
  intros [Osk Nsk] [Oz Nz] [Oa Na] Hk OP OC Oc EP EC Eh r Hr.
  assert (Or : scalar_ok r) by (unfold r; auto 10 with machine).
  unfold round, round_points, challenge_of. rewrite EP, EC, Eh. cbn [fst snd].
  assert (Er : r ≡ₗ a - c * (mu_C * z + mu_P * sk)).
  { unfold r. rewrite scalar_sub_eqL, scalar_mul_eqL, scalar_add_eqL, !scalar_mul_eqL by auto 10 with machine. reflexivity. }
  assert (Nk : forall q, scalar_ok q -> enc k ^ₚ q = enc (q * k)) by (intros; apply mult_enc; auto).
  rewrite !Nk by assumption.
  assert (Hprod : forall q, scalar_ok q -> q <> 0 -> ~ q * k ≡ₗ 0) by (intros; apply eqL_mul_nonzero; auto using scalar_nonzero).
  unfold G_. rewrite !multBase_enc, !mult_enc by auto 10 using scalar_nonzero with machine.
  change [enc ?x; enc ?y; enc ?w] with (enc <$> [x; y; w]). rewrite !sum_enc.
  do 3 f_equal; [|f_equal]; apply enc_eq; unfold sumZ; cbn [foldr];
    rewrite !scalar_mul_eqL, Er by assumption; apply eq_eqL; ring.
Qed.

Lemma generate_internal_ok message sk z index pseudo decoys random :
  (index < length decoys)%nat ->
  let Hp := hash_to_point_via_field (output_public_key (nth index decoys no_data)) in
  let mu k := hash_clsag_data_with_key (Hp ^ₚ sk) (Hp ^ₚ z) pseudo decoys k in
  let rnd := last_challenge message decoys pseudo (Hp ^ₚ sk) (Hp ^ₚ z)
               (mu HASH_KEY_CLSAG_AGG_0) (mu HASH_KEY_CLSAG_AGG_1) in
  let c0 := hash_dataV_to_scalar (round_data message decoys pseudo ++ [G_ (random O); Hp ^ₚ random O]) in
  let rs1 := random <$> seq 1 (length decoys - 1 - index) in
  let rs2 := random <$> seq (length decoys - index) index in
  let c1' := rnd (index + 1)%nat rs1 c0 in
  let c' := rnd 0%nat rs2 c1' in
  generate_clsag_signature_internal message sk z index pseudo decoys
    ((fun x => decoy_commit x -ₚ pseudo) <$> decoys) random =
  Returns {| s := rs2 ++ (random O -ₛ c' *ₛ (mu HASH_KEY_CLSAG_AGG_1 *ₛ z +ₛ mu HASH_KEY_CLSAG_AGG_0 *ₛ sk)) :: rs1;
             c1 := c1'; signer_key_image := Hp ^ₚ sk; blinding_factor_surplus_key_image := Hp ^ₚ z |}.
Proof.
  intros Hi. cbv zeta. unfold generate_clsag_signature_internal.
  rewrite length_fmap, Nat.eqb_refl, (proj2 (Nat.ltb_lt _ _)) by assumption. cbn [throw_unless mbind result_bind].
  edestruct (sign_loop_all message decoys pseudo) as [x ->]; [assumption|]. cbv zeta. do 2 f_equal.
  rewrite insert_app_r_alt by (rewrite length_fmap, length_seq; lia).
  rewrite length_fmap, length_seq, Nat.sub_diag. reflexivity.
Qed.

Lemma last_challenge_ok message decoys pseudo ki D mp mc i rs c :
  scalar_ok c -> scalar_ok (last_challenge message decoys pseudo ki D mp mc i rs c).
Proof using HL SL.
  revert i c; induction rs as [|r rs IH]; intros i c Hc; [exact Hc|].
  rewrite last_challenge_cons. apply IH, hash_dataV_to_scalar_ok.
Qed.

Lemma generate_verify message sk bf pbf amount index decoys random :
  let pseudo := commit amount pbf in
  decoys !! index = Some {| output_public_key := to_pk sk; decoy_commit := commit amount bf |} ->
  secret_ok sk -> secret_ok bf -> secret_ok pbf -> bf <> pbf -> fits 64 amount -> secret_ok (random O) ->
  is_safe_point (hash_to_point_via_field (to_pk sk)) = true ->
  exists sig,
    generate_clsag_signature message sk bf index pbf pseudo decoys random = Returns sig /\
    signer_key_image sig = derive_key_image sk /\ length (s sig) = length decoys /\
    (nth index (s sig) 0 <> 0 ->
     verify_clsag_signature message sig decoys pseudo =
     forallb (fun c => negb (c =? s_zero)) (round_challenges message sig decoys pseudo)).
Proof using HL SL.
  intros pseudo Hd Hsk Hbf Hpbf Hne Ha Hr Hsafe.
  pose proof (lookup_lt_Some _ _ _ Hd) as Hi. pose proof (nth_lookup_Some _ _ no_data _ Hd) as Hnth.
  unfold generate_clsag_signature, throw_if. rewrite (proj2 (Nat.eqb_neq _ 0)) by lia. cbn [negb throw_unless mbind result_bind].
  rewrite generate_internal_ok by assumption. cbv zeta. eexists. split; [reflexivity|].
  rewrite Hnth. cbn [output_public_key signer_key_image s]. split; [reflexivity|].
  split; [rewrite length_app; cbn; rewrite !length_fmap, !length_seq; lia|].
  intros Hnz. rewrite app_nth2 in Hnz by (rewrite length_fmap, length_seq; lia).
  rewrite length_fmap, length_seq, Nat.sub_diag in Hnz. cbn [nth] in Hnz.
  rewrite verify_chain; [|lia|cbn; rewrite length_app; cbn; rewrite !length_fmap, !length_seq; lia].
  rewrite (proj2 (Z.eqb_eq _ _)); [apply andb_true_r|].
  rewrite to_pk_enc in * by assumption. apply is_safe_point_spec in Hsafe as (k & Hk & Ek). rewrite Ek in *.
  unfold round_challenges. cbn [signer_key_image blinding_factor_surplus_key_image s c1].
  match goal with |- List.last (?c :: challenges ?m ?d ?p ?ki ?D ?mp ?mc 0 ?rs ?c) 0 = _ =>
    change (last_challenge m d p ki D mp mc 0 rs c = c) end.
  rewrite last_challenge_app, last_challenge_cons, length_fmap, length_seq, Nat.add_0_l.
  rewrite (signer_round message decoys pseudo); auto using hash_dataV_to_scalar_ok.
  - now rewrite Nat.add_1_r.
  - split; [destruct Hbf, Hpbf; auto with machine|]. destruct Hbf as [Obf _], Hpbf as [Opbf _].
    rewrite scalar_sub_ok by assumption. intros E. apply Hne, eqL_scalar; try assumption.
    change (bf - pbf ≡ₗ 0) in E. replace bf with (bf - pbf + pbf) by ring. rewrite E. reflexivity.
  - apply hash_dataV_to_scalar_ok.
  - apply hash_dataV_to_scalar_ok.
  - apply last_challenge_ok, last_challenge_ok, hash_dataV_to_scalar_ok.
  - now rewrite Hnth.
  - rewrite Hnth. cbn [decoy_commit]. unfold pseudo. rewrite commit_surplus by assumption. apply enc_eq.
    destruct Hbf, Hpbf. now rewrite scalar_sub_eqL.
Qed.

End Completeness.

(** C15: Completeness of the ring signature.  A signer whose output (key
    [to_pk sk], commitment to [amount] under [bf]) is at [index] in the ring, and
    whose pseudo-output commits to the same amount under another mask, always
    obtains a signature; it carries the key image of [sk], has one response per
    ring member, and, when the signer's own response is not zero, the verifier
    accepts it exactly when no round challenge hashes to zero. *)
Theorem clsag_complete `{Sha3Laws} `{SodiumLaws} message sk bf pbf amount index decoys random :
  let pseudo := commit amount pbf in
  decoys !! index = Some {| output_public_key := to_pk sk; decoy_commit := commit amount bf |} ->
  secret_ok sk -> secret_ok bf -> secret_ok pbf -> bf <> pbf -> fits 64 amount -> secret_ok (random O) ->
  is_safe_point (hash_to_point_via_field (to_pk sk)) = true ->
  exists sig,
    generate_clsag_signature message sk bf index pbf pseudo decoys random = Returns sig /\
    signer_key_image sig = derive_key_image sk /\ length (s sig) = length decoys /\
    (nth index (s sig) 0 <> 0 ->
     verify_clsag_signature message sig decoys pseudo =
     forallb (fun c => negb (c =? s_zero)) (round_challenges message sig decoys pseudo)).
Proof. apply generate_verify. Qed.
Section Examples.
Import ModelGroup RollingDigest.

Definition example_ring : list output_public_data :=
  [ {| output_public_key := to_pk 21; decoy_commit := commit 9 4 |};
    {| output_public_key := to_pk 5; decoy_commit := commit 70 11 |};
    {| output_public_key := to_pk 33; decoy_commit := commit 1 6 |} ].

Definition example_random (i : nat) : Z := 100 + Z.of_nat i.

Lemma clsag_complete_witness :
  exists sig,
    generate_clsag_signature null_hash 5 11 1 8 (commit 70 8) example_ring example_random = Returns sig /\
    signer_key_image sig = derive_key_image 5 /\ length (s sig) = 3%nat /\
    (nth 1 (s sig) 0 <> 0 ->
     verify_clsag_signature null_hash sig example_ring (commit 70 8) =
     forallb (fun c => negb (c =? s_zero)) (round_challenges null_hash sig example_ring (commit 70 8))).
Proof.
  apply (clsag_complete null_hash 5 11 8 70 1 example_ring example_random);
    [reflexivity|..]; vm_compute; repeat split; congruence.
Defined.

(** The example signature is accepted. *)
Example example_ring_accepts :
  match generate_clsag_signature null_hash 5 11 1 8 (commit 70 8) example_ring example_random with
  | Returns sig => verify_clsag_signature null_hash sig example_ring (commit 70 8)
  | Throws => false
  end = true.
Proof. vm_compute. reflexivity. Qed.

End Examples.

End Clsag.
