(* ===== verification/Serialization.v ===== *)
(** The binary archive ([src/src/tools/serialization]).

    The program describes each wire format once, with the macros [FIELD],
    [FIELDS] and [VARINT_FIELD], and runs the description with a saving or a
    loading archive.  Here a description is an [archived] value: its saving run,
    its loading run and the values it is meant for.  A saving run is [None] when
    [do_serialize] returns false; a loading run is a function of the unread bytes
    that is [None] when [do_serialize] returns false or leaves the stream failed.
    [tag], [begin_object], [delimit_array] and the other structure calls write
    nothing in the binary archive. *)

From S2P Require Import Prelude Varint.
Import Varint.

(** * Loading runs *)

Definition reader (A : Type) : Type := blob -> option (A * blob).

#[export] Instance reader_ret : MRet reader := fun A x l => Some (x, l).
#[export] Instance reader_bind : MBind reader := fun A B f m l =>
  match m l with Some (x, l') => f x l' | None => None end.

Definition read_fail {A} : reader A := fun _ => None.
Definition read_guard {A} (b : bool) (k : reader A) : reader A := if b then k else read_fail.

(** A description of a wire format for the values of [A]. *)
Record archived (A : Type) := {
  save : A -> option blob;
  load : reader A;
  wf : A -> Prop;
}.
Arguments save {A}.
Arguments load {A}.
Arguments wf {A}.

(** What a format promises to the formats built from it: a value it is meant for
    is always written, and read back whatever follows; and whatever is read is
    such a value. *)
Class ArchivedLaws {A} (c : archived A) : Prop := {
  save_load x : wf c x -> exists b, save c x = Some b /\ bytes_ok b /\
    forall rest, load c (b ++ rest) = Some (x, rest);
  load_wf l x rest : bytes_ok l -> load c l = Some (x, rest) -> wf c x /\ bytes_ok rest;
}.

(** The elements of a counted sequence take at least one byte each. *)
Class NonEmpty {A} (c : archived A) : Prop :=
  save_nonempty x b : wf c x -> save c x = Some b -> (0 < length b)%nat.

Module Archive.

(** ** The archive's primitives *)

(** [binary_archive<false>::serialize_uint]: [get] fails at the end of the stream. *)
Fixpoint load_uint (w : nat) : reader Z :=
  match w with
  | O => mret 0
  | S w' => fun l =>
      match l with
      | [] => None
      | b :: l' => (load_uint w' ≫= fun v => mret (b + 256 * v)) l'
      end
  end.

(** [binary_archive<true>::serialize_uint]: the low byte, then [v >>= 8]. *)
Fixpoint save_uint (w : nat) (v : Z) : blob :=
  match w with
  | O => []
  | S w' => Z.land v 0xff :: save_uint w' (Z.shiftr v 8)
  end.

Definition serialize_uint (w : nat) : archived Z := {|
  save v := Some (save_uint w v);
  load := load_uint w;
  wf := fits (8 * Z.of_nat w);
|}.

(** [serialize_blob] of [n] bytes *)
Definition serialize_blob (n : nat) : archived blob := {|
  save b := Some b;
  load l := if (length l <? n)%nat then None else Some (take n l, drop n l);
  wf b := bytes_ok b /\ length b = n;
|}.

(** [serialize_uvarint] of a [bits]-wide type: the stream fails when
    [read_varint] reports an error. *)
Definition serialize_varint (bits : Z) : archived Z := {|
  save v := Some (write_varint v);
  load l := let '(n, v, rest) := read_varint bits l in
            if n <? 0 then None else Some (v, rest);
  wf := fits bits;
|}.

(** ** Sequencing *)

(** Two fields, one after the other. *)
Definition serialize_pair {A B} (c : archived A) (d : archived B) : archived (A * B) := {|
  save x := b1 ← save c x.1; b2 ← save d x.2; Some (b1 ++ b2);
  load := x ← load c; y ← load d; mret (x, y);
  wf x := wf c x.1 /\ wf d x.2;
|}.

(** Fields whose format depends on the ones before. *)
Definition serialize_dep {A B} (c : archived A) (d : A -> archived B) : archived (A * B) := {|
  save x := b1 ← save c x.1; b2 ← save (d x.1) x.2; Some (b1 ++ b2);
  load := x ← load c; y ← load (d x); mret (x, y);
  wf x := wf c x.1 /\ wf (d x.1) x.2;
|}.

(** A struct is its fields. *)
Definition serialize_as {A B} (f : A -> B) (g : B -> A) (c : archived B) : archived A := {|
  save x := save c (f x);
  load := y ← load c; mret (g y);
  wf x := wf c (f x);
|}.

(** [if (!ok) return false;] after a field *)
Definition serialize_checked {A} (ok : A -> bool) (c : archived A) : archived A := {|
  save x := b ← save c x; if ok x then Some b else None;
  load := x ← load c; read_guard (ok x) (mret x);
  wf x := wf c x /\ ok x = true;
|}.

(** A member that is not serialized: loading leaves the one the object had. *)
Definition not_serialized {A} (v : A) : archived A := {|
  save _ := Some [];
  load := mret v;
  wf x := x = v;
|}.

(** [return false] *)
Definition serialize_fails {A} : archived A := {|
  save _ := None;
  load := read_fail;
  wf _ := False;
|}.

(** ** Containers *)

Fixpoint save_elements {A} (c : archived A) (v : list A) : option blob :=
  match v with
  | [] => Some []
  | e :: v' => b1 ← save c e; b2 ← save_elements c v'; Some (b1 ++ b2)
  end.

Fixpoint load_elements {A} (c : archived A) (cnt : nat) : reader (list A) :=
  match cnt with
  | O => mret []
  | S cnt' => e ← load c; v ← load_elements c cnt'; mret (e :: v)
  end.

(** [do_serialize_container]: the count, the sanity check of the loader, the elements. *)
Definition do_serialize_container {A} (c : archived A) : archived (list A) := {|
  save v := b ← save_elements c v; Some (write_varint (Z.of_nat (length v)) ++ b);
  load := cnt ← load (serialize_varint 64);
    (fun l => if Z.of_nat (length l) <? cnt then None
              else load_elements c (Z.to_nat cnt) l) : reader (list A);
  wf v := Forall (wf c) v /\ fits 64 (Z.of_nat (length v));
|}.

(** A vector without its count, one format per position
    ([PREPARE_CUSTOM_VECTOR_SERIALIZATION] and the loop over the positions):
    saving fails when the size is not the expected one. *)
Fixpoint save_each {A} (cs : list (archived A)) (v : list A) : option blob :=
  match cs, v with
  | [], [] => Some []
  | c :: cs', e :: v' => b1 ← save c e; b2 ← save_each cs' v'; Some (b1 ++ b2)
  | _, _ => None
  end.

Fixpoint load_each {A} (cs : list (archived A)) : reader (list A) :=
  match cs with
  | [] => mret []
  | c :: cs' => e ← load c; v ← load_each cs'; mret (e :: v)
  end.

Definition serialize_custom_vector {A} (cs : list (archived A)) : archived (list A) := {|
  save := save_each cs;
  load := load_each cs;
  wf v := Forall2 wf cs v;
|}.

(** [vec.resize(size)] *)
Definition resize {A} (size : nat) (d : A) (vec : list A) : list A :=
  take size vec ++ replicate (size - length vec) d.

(** ** Entry points ([binary_utils.h]) *)

(** [serialize], [check_stream_state]: the loader requires the end of the input. *)
Definition parse_binary {A} (c : archived A) (l : blob) : option A :=
  match load c l with Some (x, []) => Some x | _ => None end.

Definition dump_binary {A} (c : archived A) (x : A) : option blob := save c x.

(** * Laws *)

Lemma reader_bind_Some {A B} (m : reader A) (f : A -> reader B) l r :
  (m ≫= f) l = Some r <-> exists x l', m l = Some (x, l') /\ f x l' = Some r.
Proof.
  unfold mbind, reader_bind. destruct (m l) as [[x l']|]; [|split; [discriminate|now intros (? & ? & ? & ?)]].
  split; [eauto|]. intros (? & ? & [= -> ->] & ?). assumption.
Qed.

Lemma reader_bind_eq {A B} (m : reader A) (f : A -> reader B) l x l' :
  m l = Some (x, l') -> (m ≫= f) l = f x l'.
Proof. unfold mbind, reader_bind. now intros ->. Qed.

Lemma save_uint_le w v : save_uint w v = le_bytes w v.
Proof.
  revert v; induction w as [|w IH]; intros v; cbn [save_uint le_digits]; [reflexivity|].
  rewrite IH, Z.shiftr_div_pow2 by lia. f_equal. change 0xff with (Z.ones 8). now rewrite Z.land_ones by lia.
Qed.

Lemma load_uint_le w l : load_uint w l = if (length l <? w)%nat then None else Some (le_Z (take w l), drop w l).
Proof.
  revert l; induction w as [|w IH]; intros [|b l]; try reflexivity.
  cbn [load_uint length take drop le_val]. unfold mbind, reader_bind. rewrite IH.
  change (S (length l) <? S w)%nat with (length l <? w)%nat. now destruct (length l <? w)%nat.
Qed.

Lemma pow256 w : 256 ^ Z.of_nat w = 2 ^ (8 * Z.of_nat w).
Proof. rewrite Z.pow_mul_r by lia. reflexivity. Qed.

Lemma read_varint_fits bits l n v rest :
  0 < bits -> bytes_ok l -> read_varint bits l = (n, v, rest) -> 0 <= n -> fits bits v /\ bytes_ok rest.
Proof.
  intros Hb Hl Hr Hn. unfold read_varint in Hr.
  eapply read_varint_loop_sound in Hr as (c & i & -> & _ & Hi & Hv & Hlt & _); try lia; auto.
  apply bytes_ok_app in Hl as [_ Hl]. split; [unfold fits; lia|assumption].
Qed.

Lemma split_at_enough (n : nat) (l : blob) x rest :
  (if (length l <? n)%nat then None else Some (take n l, drop n l)) = Some (x, rest) ->
  length x = n /\ l = x ++ rest.
Proof.
  destruct (Nat.ltb_spec (length l) n); [discriminate|]. intros [= <- <-].
  rewrite length_take, take_drop. split; [lia|reflexivity].
Qed.

#[export] Instance serialize_uint_laws w : ArchivedLaws (serialize_uint w).
Proof.
  split; cbn.
  - intros x Hx. eexists. split; [reflexivity|]. rewrite save_uint_le. split; [apply le_bytes_ok|].
    intros rest. rewrite load_uint_le, length_app, length_le_bytes.
    destruct (Nat.ltb_spec (w + length rest) w); [lia|].
    rewrite take_app_length', drop_app_length' by (symmetry; apply length_le_bytes).
    now rewrite le_Z_bytes_small by (rewrite pow256; exact Hx).
  - intros l x rest Hl E. rewrite load_uint_le in E. destruct (Nat.ltb_spec (length l) w); [discriminate|].
    injection E as <- <-. split; [|auto with machine].
    unfold fits. rewrite <- pow256. pose proof (le_Z_bound (take w l)) as Hb.
    rewrite length_take, Nat.min_l in Hb by lia. auto with machine.
Qed.

#[export] Instance serialize_blob_laws n : ArchivedLaws (serialize_blob n).
Proof.
  split; cbn [save load wf serialize_blob].
  - intros x [Hx Hn]. exists x. split; [reflexivity|]. split; [assumption|]. intros rest.
    rewrite length_app. destruct (Nat.ltb_spec (length x + length rest) n); [lia|].
    rewrite take_app_length', drop_app_length' by auto. reflexivity.
  - intros l x rest Hl E. apply split_at_enough in E as [<- ->]. apply bytes_ok_app in Hl as [? ?]. auto.
Qed.

#[export] Instance serialize_varint_laws bits : TCEq (0 <? bits) true -> ArchivedLaws (serialize_varint bits).
Proof.
  intros Hb%TCEq_eq%Z.ltb_lt. split; cbn.
  - intros x [H1 H2]. eexists. split; [reflexivity|]. split; [now apply write_varint_ok|].
    intros rest. unfold read_varint. rewrite read_write_varint_loop; rewrite ?Z.sub_0_r; try lia.
    destruct (Z.ltb_spec (0 + Z.of_nat (length (write_varint x))) 0); [lia|].
    do 2 f_equal. lia.
  - intros l x rest Hl. destruct (read_varint bits l) as [[n v] r] eqn:E.
    destruct (Z.ltb_spec n 0); [discriminate|]. intros [= -> ->]. now eapply read_varint_fits in E.
Qed.

#[export] Instance serialize_dep_laws {A B} (c : archived A) (d : A -> archived B) :
  ArchivedLaws c -> (forall x, ArchivedLaws (d x)) -> ArchivedLaws (serialize_dep c d).
Proof.
  intros Hc Hd. split; cbn.
  - intros [x y] [Hx Hy]. cbn in *. destruct (save_load x Hx) as (b1 & -> & B1 & L1).
    destruct (save_load y Hy) as (b2 & -> & B2 & L2). cbn. eexists. split; [reflexivity|].
    split; [apply bytes_ok_app; auto|]. intros rest. rewrite <- app_assoc.
    rewrite (reader_bind_eq _ _ _ _ _ (L1 _)), (reader_bind_eq _ _ _ _ _ (L2 _)). reflexivity.
  - intros l [x y] rest Hl E. apply reader_bind_Some in E as (x' & l1 & E1 & E).
    apply reader_bind_Some in E as (y' & l2 & E2 & E). injection E as -> -> ->.
    apply load_wf in E1 as [? Hl1]; [|assumption]. apply load_wf in E2 as [? ?]; auto.
Qed.

#[export] Instance serialize_pair_laws {A B} (c : archived A) (d : archived B) :
  ArchivedLaws c -> ArchivedLaws d -> ArchivedLaws (serialize_pair c d).
Proof. intros ? ?. exact (serialize_dep_laws c (fun _ => d) _ _). Qed.

Lemma serialize_as_laws {A B} (f : A -> B) (g : B -> A) (c : archived B) :
  (forall x, g (f x) = x) -> (forall y, f (g y) = y) -> ArchivedLaws c -> ArchivedLaws (serialize_as f g c).
Proof.
  intros Hgf Hfg Hc. split; cbn.
  - intros x Hx. destruct (save_load _ Hx) as (b & -> & Bb & Lb). exists b. split; [reflexivity|].
    split; [assumption|]. intros rest. rewrite (reader_bind_eq _ _ _ _ _ (Lb _)). cbn. now rewrite Hgf.
  - intros l x rest Hl E. apply reader_bind_Some in E as (y & l1 & E1 & E). injection E as <- <-.
    rewrite Hfg. now apply load_wf in E1.
Qed.

#[export] Instance serialize_checked_laws {A} (ok : A -> bool) (c : archived A) :
  ArchivedLaws c -> ArchivedLaws (serialize_checked ok c).
Proof.
  intros Hc. split; cbn.
  - intros x [Hx Hok]. destruct (save_load x Hx) as (b & -> & Bb & Lb). cbn. rewrite Hok.
    exists b. split; [reflexivity|]. split; [assumption|]. intros rest.
    rewrite (reader_bind_eq _ _ _ _ _ (Lb _)). now rewrite Hok.
  - intros l x rest Hl E. apply reader_bind_Some in E as (y & l1 & E1 & E).
    destruct (ok y) eqn:Hok; [|discriminate]. injection E as -> ->. apply load_wf in E1 as [? ?]; auto.
Qed.

#[export] Instance not_serialized_laws {A} (v : A) : ArchivedLaws (not_serialized v).
Proof.
  split; cbn.
  - intros x ->. exists []. split; [reflexivity|]. split; [constructor|]. reflexivity.
  - intros l x rest Hl [= <- <-]. auto.
Qed.

#[export] Instance serialize_fails_laws {A} : ArchivedLaws (@serialize_fails A).
Proof. split; cbn; [contradiction|discriminate]. Qed.

#[export] Instance serialize_uint_nonempty w : NonEmpty (serialize_uint (S w)).
Proof. intros x b _ [= <-]. cbn. lia. Qed.
#[export] Instance serialize_blob_nonempty n : NonEmpty (serialize_blob (S n)).
Proof. intros x b [_ Hx] [= <-]. cbn in *. lia. Qed.
#[export] Instance serialize_varint_nonempty bits : NonEmpty (serialize_varint bits).
Proof. intros x b [Hx _] [= <-]. now apply write_varint_nonempty. Qed.
#[export] Instance serialize_dep_nonempty {A B} (c : archived A) (d : A -> archived B) :
  NonEmpty c -> NonEmpty (serialize_dep c d).
Proof.
  intros Hc [x y] b [Hx Hy] E. cbn in *. destruct (save c x) as [b1|] eqn:E1; [|discriminate].
  destruct (save (d x) y) as [b2|]; [|discriminate]. injection E as <-.
  rewrite length_app. specialize (Hc x b1 Hx E1). lia.
Qed.
#[export] Instance serialize_pair_nonempty {A B} (c : archived A) (d : archived B) :
  NonEmpty c -> NonEmpty (serialize_pair c d).
Proof. intros Hc. exact (serialize_dep_nonempty c (fun _ => d) Hc). Qed.
#[export] Instance serialize_as_nonempty {A B} (f : A -> B) (g : B -> A) (c : archived B) :
  NonEmpty c -> NonEmpty (serialize_as f g c).
Proof. intros Hc x b Hx E. now apply (Hc (f x)). Qed.
#[export] Instance serialize_checked_nonempty {A} ok (c : archived A) :
  NonEmpty c -> NonEmpty (serialize_checked ok c).
Proof.
  intros Hc x b [Hx _] E. cbn in E. destruct (save c x) as [b1|] eqn:E1; [|discriminate]. cbn in E.
  destruct (ok x); [|discriminate]. injection E as <-. now apply (Hc x).
Qed.

Lemma elements_load {A} (c : archived A) `{!ArchivedLaws c} v :
  Forall (wf c) v ->
  exists b, save_elements c v = Some b /\ bytes_ok b /\
    forall rest, load_elements c (length v) (b ++ rest) = Some (v, rest).
Proof.
  induction 1 as [|e v He _ (b2 & E2 & B2 & L2)]; cbn [save_elements load_elements length].
  - exists []. split; [reflexivity|]. split; [constructor|]. reflexivity.
  - destruct (save_load e He) as (b1 & -> & B1 & L1). rewrite E2. cbn. eexists. split; [reflexivity|].
    split; [apply bytes_ok_app; auto|]. intros rest. rewrite <- app_assoc.
    rewrite (reader_bind_eq _ _ _ _ _ (L1 _)), (reader_bind_eq _ _ _ _ _ (L2 _)). reflexivity.
Qed.

Lemma elements_length {A} (c : archived A) `{!NonEmpty c} v b :
  Forall (wf c) v -> save_elements c v = Some b -> (length v <= length b)%nat.
Proof.
  intros Hv. revert b; induction Hv as [|e v He _ IH]; intros b E; cbn in *; [lia|].
  destruct (save c e) as [b1|] eqn:E1; [|discriminate]. destruct (save_elements c v) as [b2|]; [|discriminate].
  injection E as <-. rewrite length_app. specialize (IH b2 eq_refl). pose proof (save_nonempty e b1 He E1). lia.
Qed.

Lemma elements_wf {A} (c : archived A) `{!ArchivedLaws c} n l v rest :
  bytes_ok l -> load_elements c n l = Some (v, rest) ->
  Forall (wf c) v /\ length v = n /\ bytes_ok rest.
Proof.
  revert l v; induction n as [|n IH]; intros l v Hl E.
  - injection E as <- <-. auto.
  - apply reader_bind_Some in E as (e & l1 & E1 & E). apply reader_bind_Some in E as (v' & l2 & E2 & E).
    injection E as <- <-. apply load_wf in E1 as [? Hl1]; [|assumption]. apply IH in E2 as (? & ? & ?); [|assumption].
    cbn. auto.
Qed.

#[export] Instance do_serialize_container_laws {A} (c : archived A) :
  ArchivedLaws c -> NonEmpty c -> ArchivedLaws (do_serialize_container c).
Proof.
  intros Hc Hn. pose proof (serialize_varint_laws 64 (TCEq_refl _)) as Hv. split; cbn [save load wf do_serialize_container].
  - intros v [Hv1 Hv2]. destruct (elements_load c v Hv1) as (b & E & B & Lb). rewrite E. cbn [mbind option_bind].
    destruct (save_load (c := serialize_varint 64) _ Hv2) as (b1 & E1 & B1 & L1). injection E1 as <-.
    eexists. split; [reflexivity|]. split; [apply bytes_ok_app; auto|]. intros rest. rewrite <- app_assoc.
    rewrite (reader_bind_eq _ _ _ _ _ (L1 _)). apply (elements_length c) in E; [|assumption].
    rewrite length_app. destruct (Z.ltb_spec (Z.of_nat (length b + length rest)) (Z.of_nat (length v))); [lia|].
    rewrite Nat2Z.id. apply Lb.
  - intros l v rest Hl E. apply reader_bind_Some in E as (cnt & l1 & E1 & E).
    apply load_wf in E1 as [Hcnt Hl1]; [|assumption]. destruct (Z.of_nat (length l1) <? cnt); [discriminate|].
    apply (elements_wf c) in E as (? & Hlen & ?); [|assumption]. cbn in Hcnt. split; [|assumption]. split; [assumption|].
    rewrite Hlen, Z2Nat.id by (unfold fits in Hcnt; lia). exact Hcnt.
Qed.

#[export] Instance do_serialize_container_nonempty {A} (c : archived A) : NonEmpty (do_serialize_container c).
Proof.
  intros v b _ E. cbn in E. destruct (save_elements c v) as [b1|]; [|discriminate]. injection E as <-.
  rewrite length_app. pose proof (write_varint_nonempty (Z.of_nat (length v)) ltac:(lia)). lia.
Qed.

#[export] Instance serialize_custom_vector_laws {A} (cs : list (archived A)) :
  TCForall ArchivedLaws cs -> ArchivedLaws (serialize_custom_vector cs).
Proof.
  rewrite TCForall_Forall. intros Hcs. split; cbn [save load wf serialize_custom_vector].
  - intros v Hv. revert Hcs. induction Hv as [|c e cs v He _ IH]; intros Hcs; cbn [save_each load_each].
    + exists []. split; [reflexivity|]. split; [constructor|]. reflexivity.
    + inversion_clear Hcs as [|? ? Hc Hcs']. destruct (IH Hcs') as (b2 & E2 & B2 & L2).
      destruct (save_load e He) as (b1 & -> & B1 & L1). rewrite E2. cbn. eexists. split; [reflexivity|].
      split; [apply bytes_ok_app; auto|]. intros rest. rewrite <- app_assoc.
      rewrite (reader_bind_eq _ _ _ _ _ (L1 _)), (reader_bind_eq _ _ _ _ _ (L2 _)). reflexivity.
  - induction Hcs as [|c cs Hc Hcs IH]; intros l v rest Hl E; cbn [load_each] in E.
    + injection E as <- <-. auto.
    + apply reader_bind_Some in E as (e & l1 & E1 & E). apply reader_bind_Some in E as (v' & l2 & E2 & E).
      injection E as <- <-. apply load_wf in E1 as [? Hl1]; [|assumption]. apply IH in E2 as [? ?]; auto.
Qed.

Lemma TCForall_fmap_laws {A B} (f : B -> archived A) (l : list B) :
  (forall x, ArchivedLaws (f x)) -> TCForall ArchivedLaws (f <$> l).
Proof. intros Hf. apply TCForall_Forall, Forall_fmap, Forall_true. exact Hf. Qed.

#[export] Instance replicate_laws {A} n (c : archived A) : ArchivedLaws c -> TCForall ArchivedLaws (replicate n c).
Proof. intros Hc. apply TCForall_Forall, Forall_replicate. exact Hc. Qed.

(** ** Entry points *)

Lemma dump_parse {A} (c : archived A) `{!ArchivedLaws c} x :
  wf c x -> exists b, dump_binary c x = Some b /\ parse_binary c b = Some x.
Proof.
  intros Hx. destruct (save_load x Hx) as (b & E & _ & Lb). exists b. split; [exact E|].
  unfold parse_binary. specialize (Lb []). rewrite app_nil_r in Lb. now rewrite Lb.
Qed.

Lemma parse_wf {A} (c : archived A) `{!ArchivedLaws c} l x :
  bytes_ok l -> parse_binary c l = Some x -> wf c x.
Proof.
  intros Hl. unfold parse_binary. destruct (load c l) as [[y [|]]|] eqn:E; try discriminate.
  intros [= ->]. now apply load_wf in E.
Qed.

End Archive.
