(* ===== verification/RctTypes.v ===== *)
(** The ring-CT data of a transaction ([src/src/math/ringct/functional/rctTypes.cpp],
    [rctTypesUnsafe.hpp] and [rctTypesUnsafe.cpp]): the structures as they are
    parsed, their wire format, and the conversions between parsed ("unsafe") and
    checked data. *)

From S2P Require Import Prelude Hash Config Varint Serialization Primality Group ModelGroup Key RctOps VectorOps InnerProduct Bulletproof Clsag.

(** What the compiled [1 << n] leaves in an [int] when [n] is not below 32: the
    language does not define it, and nothing below depends on it. *)
Class UndefinedShift := undefined_shift : Z -> Z.

Module RctTypes.
Import Config Varint Key RctOps VectorOps InnerProduct Bulletproof Clsag Archive.

(** ** Structures *)

Abbreviation inv8V := (list inv8).

Record clsag_unsafe := {
  u_s : list ec_scalar_unnormalized; u_c1 : ec_scalar_unnormalized;
  u_signer_key_image : ec_point; u_blinding_factor_surplus_key_image : inv8 }.

Record Bulletproof_unsafe := {
  u_A : inv8; u_S : inv8; u_T1 : inv8; u_T2 : inv8;
  u_tau : ec_scalar_unnormalized; u_mu : ec_scalar_unnormalized;
  u_L : inv8V; u_R : inv8V;
  u_a : ec_scalar_unnormalized; u_b : ec_scalar_unnormalized; u_t : ec_scalar_unnormalized }.

Definition RCTTypeNull : Z := 0.
Definition RCTTypeCLSAG : Z := 5.

(** [ecdh_encrypted_data_t] and [output_commit] have one member each. *)
Record rctDataBasic := {
  type : Z; message : hash; decoys : list (list output_public_data);
  ecdh_encrypted_data : list Z; output_commits : pointV; fee : amount_t }.

Record rctDataPrunable := {
  bulletproofs : list Bulletproof_unsafe; CLSAGs : list clsag_unsafe; pseudo_input_commits : pointV }.

Record rctData := { basic : rctDataBasic; p : rctDataPrunable }.

Record rctDataSizeChecked := {
  sc_basic : rctDataBasic; sc_bulletproof : Bulletproof_unsafe;
  sc_CLSAGs : list clsag_unsafe; sc_pseudo_input_commits : pointV }.

(** ** Conversions *)

Section Conversions.
Context `{Sodium}.

Definition to_inv8V (xs : pointV) : inv8V := to_inv8 <$> xs.

Definition zipLR (L R : pointV) : option LR_V :=
  if (length L =? length R)%nat then Some (zip L R) else None.

Definition splitLR (LR : LR_V) : pointV * pointV := (fst <$> LR, snd <$> LR).

(** The loops that check every element and return at the first bad one. *)
Fixpoint maybe_each {A B} (f : A -> option B) (l : list A) : option (list B) :=
  match l with
  | [] => Some []
  | x :: l' => y ← f x; ys ← maybe_each f l'; Some (y :: ys)
  end.

Definition maybe_reduced (x : ec_scalar_unnormalized) : option ec_scalar :=
  if is_reduced x then Some (reduce x) else None.

Definition maybeSafeBulletproof (proof : Bulletproof_unsafe) : option Bulletproof :=
  proof_A ← maybe_from_inv8 (u_A proof);
  proof_S ← maybe_from_inv8 (u_S proof);
  proof_T1 ← maybe_from_inv8 (u_T1 proof);
  proof_T2 ← maybe_from_inv8 (u_T2 proof);
  proof_L ← maybe_each maybe_from_inv8 (u_L proof);
  proof_R ← maybe_each maybe_from_inv8 (u_R proof);
  proof_tau ← maybe_reduced (u_tau proof);
  proof_mu ← maybe_reduced (u_mu proof);
  proof_a ← maybe_reduced (u_a proof);
  proof_b ← maybe_reduced (u_b proof);
  proof_t ← maybe_reduced (u_t proof);
  LR ← zipLR proof_L proof_R;
  Some {| A := proof_A; S_ := proof_S; T1 := proof_T1; T2 := proof_T2; tau := proof_tau; mu := proof_mu;
          LR := LR; bp_a := proof_a; bp_b := proof_b; bp_t := proof_t |}.

Definition toUnsafeBulletproof (proof : Bulletproof) : Bulletproof_unsafe :=
  let '(L, R) := splitLR (LR proof) in
  {| u_A := to_inv8 (A proof); u_S := to_inv8 (S_ proof); u_T1 := to_inv8 (T1 proof); u_T2 := to_inv8 (T2 proof);
     u_tau := tau proof; u_mu := mu proof; u_L := to_inv8V L; u_R := to_inv8V R;
     u_a := bp_a proof; u_b := bp_b proof; u_t := bp_t proof |}.

Definition maybeSafeCLSAG (sig : clsag_unsafe) : option clsag :=
  clsag_s ← maybe_each maybe_reduced (u_s sig);
  clsag_c1 ← maybe_reduced (u_c1 sig);
  D ← maybe_from_inv8 (u_blinding_factor_surplus_key_image sig);
  Some {| s := clsag_s; c1 := clsag_c1; signer_key_image := u_signer_key_image sig;
          blinding_factor_surplus_key_image := D |}.

Definition toUnsafeCLSAG (sig : clsag) : clsag_unsafe :=
  {| u_s := s sig; u_c1 := c1 sig; u_signer_key_image := signer_key_image sig;
     u_blinding_factor_surplus_key_image := to_inv8 (blinding_factor_surplus_key_image sig) |}.

End Conversions.

(** [consensus::rule_17] *)
Definition rule_17_ringct_should_contain_only_one_range_proof (proofs : list Bulletproof_unsafe)
    : option Bulletproof_unsafe :=
  if (length proofs =? 1)%nat then head proofs else None.

Definition maybeSizeCheckedRctData (x : rctData) : option rctDataSizeChecked :=
  if negb (type (basic x) =? RCTTypeCLSAG) then None else
  proof ← rule_17_ringct_should_contain_only_one_range_proof (bulletproofs (p x));
  if negb (length (pseudo_input_commits (p x)) =? length (CLSAGs (p x)))%nat then None else
  if negb (length (output_commits (basic x)) =? length (ecdh_encrypted_data (basic x)))%nat then None else
  Some {| sc_basic := basic x; sc_bulletproof := proof; sc_CLSAGs := CLSAGs (p x);
          sc_pseudo_input_commits := pseudo_input_commits (p x) |}.

Definition toRctData (x : rctDataSizeChecked) : rctData :=
  {| basic := sc_basic x;
     p := {| bulletproofs := [sc_bulletproof x]; CLSAGs := sc_CLSAGs x;
             pseudo_input_commits := sc_pseudo_input_commits x |} |}.

(** ** Wire format *)

(** [BLOB_SERIALIZER(crypto::ec_point)] and the other 32-byte types *)
Definition serialize_data : archived crypto_data := {|
  save x := Some (data_blob x);
  load := b ← load (serialize_blob 32); mret (le_Z b);
  wf := fits 256;
|}.

#[export] Instance serialize_data_laws : ArchivedLaws serialize_data.
Proof.
  split; cbn [save load wf serialize_data].
  - intros x Hx. eexists. split; [reflexivity|]. split; [apply le_bytes_ok|]. intros rest.
    destruct (save_load (c := serialize_blob 32) (data_blob x)) as (b & E & _ & Lb);
      [split; [apply le_bytes_ok|apply length_le_bytes]|]. injection E as <-.
    rewrite (reader_bind_eq _ _ _ _ _ (Lb _)). unfold data_blob. now rewrite le_Z_bytes_small by exact Hx.
  - intros l x rest Hl E. apply reader_bind_Some in E as (b & l1 & E1 & E). injection E as <- <-.
    apply load_wf in E1 as [[Hb Hn] ?]; [|assumption]. split; [|assumption].
    pose proof (le_Z_bound b Hb) as Hz. rewrite Hn in Hz. exact Hz.
Qed.

#[export] Instance serialize_data_nonempty : NonEmpty serialize_data.
Proof. intros x b _ [= <-]. unfold data_blob. rewrite length_le_bytes. lia. Qed.

Definition bulletproof_ok (b : Bulletproof_unsafe) : bool :=
  negb ((length (u_L b) =? 0)%nat || negb (length (u_L b) =? length (u_R b))%nat).

Definition serialize_bulletproof : archived Bulletproof_unsafe :=
  let d := serialize_data in let dV := do_serialize_container serialize_data in
  serialize_checked bulletproof_ok
   (serialize_as
     (fun b => (u_A b, (u_S b, (u_T1 b, (u_T2 b, (u_tau b, (u_mu b, (u_L b, (u_R b, (u_a b, (u_b b, u_t b)))))))))))
     (fun '(xA, (xS, (xT1, (xT2, (xtau, (xmu, (xL, (xR, (xa, (xb, xt)))))))))) =>
        {| u_A := xA; u_S := xS; u_T1 := xT1; u_T2 := xT2; u_tau := xtau; u_mu := xmu;
           u_L := xL; u_R := xR; u_a := xa; u_b := xb; u_t := xt |})
     (serialize_pair d (serialize_pair d (serialize_pair d (serialize_pair d (serialize_pair d (serialize_pair d
       (serialize_pair dV (serialize_pair dV (serialize_pair d (serialize_pair d d))))))))))).

#[export] Instance serialize_bulletproof_laws : ArchivedLaws serialize_bulletproof.
Proof.
  apply serialize_checked_laws, serialize_as_laws; [now intros []| |apply _].
  now intros (? & ? & ? & ? & ? & ? & ? & ? & ? & ? & ?).
Qed.

(** [rctDataBasic::serialize_rctsig_base], of an object that held [init] *)
Definition serialize_rctsig_base (init : rctDataBasic) (inputs outputs : nat) : archived rctDataBasic :=
  serialize_as
    (fun x => (type x, (fee x, (ecdh_encrypted_data x, (output_commits x, (message x, decoys x))))))
    (fun '(type, (fee, (ecdh, (commits, (message, decoys))))) =>
       {| type := type; message := message; decoys := decoys; ecdh_encrypted_data := ecdh;
          output_commits := commits; fee := fee |})
    (serialize_dep (serialize_uint 1) (fun type =>
       let rest := serialize_pair (not_serialized (message init)) (not_serialized (decoys init)) in
       if type =? RCTTypeNull
       then serialize_pair (not_serialized (fee init))
             (serialize_pair (not_serialized (ecdh_encrypted_data init))
               (serialize_pair (not_serialized (output_commits init)) rest))
       else if negb (type =? RCTTypeCLSAG) then serialize_fails
       else serialize_pair (serialize_varint 64)
             (serialize_pair (serialize_custom_vector (replicate outputs (serialize_uint 8)))
               (serialize_pair (serialize_custom_vector (replicate outputs serialize_data)) rest)))).

#[export] Instance serialize_rctsig_base_laws init inputs outputs :
  ArchivedLaws (serialize_rctsig_base init inputs outputs).
Proof.
  apply serialize_as_laws; [now intros []|now intros (? & ? & ? & ? & ? & ?)|].
  apply serialize_dep_laws; [apply _|]. intros type. destruct (type =? RCTTypeNull); [apply _|].
  destruct (negb (type =? RCTTypeCLSAG)); apply _.
Qed.

(** [1 << (L.size() - 6)] in [int], then converted to [size_t] *)
Definition n_bulletproof_max_commit_size `{UndefinedShift} (proof : Bulletproof_unsafe) : Z :=
  let n := Z.of_nat (length (u_L proof)) ⊟ 6 in
  let shifted := if n <? 31 then Z.shiftl 1 n else if n =? 31 then - 2 ^ 31 else undefined_shift n in
  wrap 64 shifted.

(** One ring signature: the responses without their count; the key image is not
    saved, so that loading leaves the one [sig] had. *)
Definition serialize_clsag (mixin : nat) (sig : clsag_unsafe) : archived clsag_unsafe :=
  serialize_as
    (fun x => (u_s x, (u_c1 x, (u_blinding_factor_surplus_key_image x, u_signer_key_image x))))
    (fun '(xs, (xc1, (xD, xki))) =>
       {| u_s := xs; u_c1 := xc1; u_signer_key_image := xki; u_blinding_factor_surplus_key_image := xD |})
    (serialize_pair (serialize_custom_vector (replicate (mixin + 1) serialize_data))
      (serialize_pair serialize_data
        (serialize_pair serialize_data (not_serialized (u_signer_key_image sig))))).

#[export] Instance serialize_clsag_laws mixin sig : ArchivedLaws (serialize_clsag mixin sig).
Proof. apply serialize_as_laws; [now intros []|now intros (? & ? & ? & ?)|apply _]. Qed.

(** The value-initialized element [resize] appends. *)
Definition no_clsag : clsag_unsafe :=
  {| u_s := []; u_c1 := 0; u_signer_key_image := 0; u_blinding_factor_surplus_key_image := 0 |}.

(** The range proofs: their number in a 32-bit variable, checked, and as many
    proofs. *)
Definition range_proofs_number_ok (outputs : nat) (n : Z) : bool :=
  negb (n >? Z.of_nat outputs) && negb (negb (n =? 1)).

Definition serialize_range_proofs (outputs : nat) : archived (list Bulletproof_unsafe) := {|
  save proofs :=
    let n := wrap 32 (Z.of_nat (length proofs)) in
    if range_proofs_number_ok outputs n
    then b ← save_elements serialize_bulletproof (take (Z.to_nat n) proofs); Some (write_varint n ++ b)
    else None;
  load := n ← load (serialize_varint 32);
    read_guard (range_proofs_number_ok outputs n) (load_elements serialize_bulletproof (Z.to_nat n));
  wf proofs := length proofs = 1%nat /\ (1 <= outputs)%nat /\ Forall (wf serialize_bulletproof) proofs;
|}.

(** The first proof must be large enough for the outputs. *)
Definition range_proof_covers `{UndefinedShift} (outputs : nat) (proofs : list Bulletproof_unsafe) : bool :=
  match proofs with
  | [] => false
  | proof :: _ => negb (Z.of_nat outputs >? n_bulletproof_max_commit_size proof)
  end.

(** [rctDataPrunable::serialize_ringct_prunable], of an object that held [init] *)
Definition serialize_ringct_prunable `{UndefinedShift} (init : rctDataPrunable) (type : Z)
    (inputs outputs : nat) (mixin : Z) : archived rctDataPrunable :=
  if Z.of_nat inputs >=? 0xffffffff then serialize_fails else
  if Z.of_nat outputs >=? 0xffffffff then serialize_fails else
  if mixin >=? 0xffffffff then serialize_fails else
  if type =? RCTTypeNull then not_serialized init else
  if negb (type =? RCTTypeCLSAG) then serialize_fails else
  serialize_as
    (fun x => (bulletproofs x, (CLSAGs x, pseudo_input_commits x)))
    (fun '(bps, (sigs, commits)) => {| bulletproofs := bps; CLSAGs := sigs; pseudo_input_commits := commits |})
    (serialize_pair (serialize_checked (range_proof_covers outputs) (serialize_range_proofs outputs))
      (serialize_pair
        (serialize_custom_vector (serialize_clsag (Z.to_nat mixin) <$> resize inputs no_clsag (CLSAGs init)))
        (serialize_custom_vector (replicate inputs serialize_data)))).

#[export] Instance serialize_range_proofs_laws outputs : ArchivedLaws (serialize_range_proofs outputs).
Proof.
  pose proof (serialize_varint_laws 32 (TCEq_refl _)) as Hv. split; cbn [save load wf serialize_range_proofs].
  - intros proofs (H1 & Ho & Hp). rewrite H1. change (wrap 32 (Z.of_nat 1)) with 1.
    assert (Hok : range_proofs_number_ok outputs 1 = true).
    { unfold range_proofs_number_ok. cbn. rewrite andb_true_r. apply negb_true_iff.
      rewrite Z.gtb_ltb. apply Z.ltb_ge. lia. }
    rewrite Hok, take_ge by (change (Z.to_nat 1) with 1%nat; lia).
    destruct (elements_load serialize_bulletproof proofs Hp) as (b & E & B & Lb). rewrite E. cbn [mbind option_bind].
    destruct (save_load (c := serialize_varint 32) 1) as (b1 & E1 & B1 & L1); [cbn; unfold fits; lia|].
    injection E1 as <-. eexists. split; [reflexivity|]. split; [apply bytes_ok_app; auto|]. intros rest.
    rewrite <- app_assoc, (reader_bind_eq _ _ _ _ _ (L1 _)). cbn [read_guard]. rewrite Hok.
    change (Z.to_nat 1) with 1%nat. rewrite <- H1. apply Lb.
  - intros l proofs rest Hl E. apply reader_bind_Some in E as (n & l1 & E1 & E).
    apply load_wf in E1 as [Hn Hl1]; [|assumption]. unfold read_guard in E.
    destruct (range_proofs_number_ok outputs n) eqn:Hok; [|discriminate].
    unfold range_proofs_number_ok in Hok. rewrite negb_involutive, Z.gtb_ltb in Hok. to_prop. subst n.
    apply (elements_wf serialize_bulletproof) in E as (? & ? & ?); [|assumption].
    repeat split; [assumption| lia |assumption|assumption].
Qed.

#[export] Instance serialize_ringct_prunable_laws `{UndefinedShift} init type inputs outputs mixin :
  ArchivedLaws (serialize_ringct_prunable init type inputs outputs mixin).
Proof.
  unfold serialize_ringct_prunable. repeat case_match; try apply _.
  apply serialize_as_laws; [now intros []|now intros (? & ? & ?)|].
  pose proof (TCForall_fmap_laws (serialize_clsag (Z.to_nat mixin)) (resize inputs no_clsag (CLSAGs init)) _).
  apply _.
Qed.

(** ** Parsed data and checked data *)

Lemma maybe_each_iff {A B} (f : A -> option B) (P : B -> Prop) (g : B -> A) (Q : A -> Prop) l ys :
  (forall x y, Q x -> f x = Some y <-> P y /\ x = g y) -> Forall Q l ->
  maybe_each f l = Some ys <-> Forall P ys /\ l = g <$> ys.
Proof.
  intros Hf HQ. revert ys; induction HQ as [|x l Hx HQ IH]; intros ys; cbn [maybe_each].
  - split; [intros [= <-]; auto|]. destruct ys; [reflexivity|now intros [_ ?]].
  - split.
    + intros E. apply bind_Some in E as (y & E1 & E). apply bind_Some in E as (ys' & E2 & [= <-]).
      apply Hf in E1 as [? ->]; [|assumption]. apply IH in E2 as [? ->]. cbn. auto.
    + destruct ys as [|y ys]; [now intros [_ ?]|]. intros [Hys [= E1 E2]].
      apply Forall_cons in Hys as [Hy Hys]. rewrite (proj2 (Hf x y Hx)) by auto. cbn.
      now rewrite (proj2 (IH ys)).
Qed.

Section Checked.
Context `{SL : SodiumLaws}.

Definition safe (x : ec_point) : Prop := is_safe_point x = true.

Lemma maybe_from_inv8_iff x y : maybe_from_inv8 x = Some y <-> safe y /\ x = to_inv8 y.
Proof.
  unfold safe. split.
  - intros (k & Hk & -> & Ex)%from_inv8_safe. split; [|assumption]. apply is_safe_point_spec. eauto.
  - intros [(k & Hk & ->)%is_safe_point_spec ->]. now apply from_inv8_to_inv8.
Qed.

Lemma maybe_reduced_iff x y : fits 256 x -> maybe_reduced x = Some y <-> scalar_ok y /\ x = y.
Proof.
  intros Hx. unfold maybe_reduced. pose proof (is_reduced_spec x Hx) as Hr.
  destruct (is_reduced x) eqn:E.
  - unfold is_reduced in E. to_prop. rewrite E. destruct Hr as [Hr _]. specialize (Hr eq_refl).
    split; [intros [= ->]; auto|intros [_ ->]; auto].
  - split; [discriminate|]. intros [Hy ->]. apply Hr in Hy. discriminate.
Qed.

Lemma maybe_reduced_ok x : scalar_ok x -> maybe_reduced x = Some x.
Proof. intros Hx. apply maybe_reduced_iff; auto with machine. Qed.

Lemma zipLR_iff L R LR : zipLR L R = Some LR <-> (L, R) = splitLR LR.
Proof.
  unfold zipLR, splitLR. split.
  - destruct (Nat.eqb_spec (length L) (length R)); [|discriminate]. intros [= <-].
    rewrite fst_zip, snd_zip by lia. reflexivity.
  - intros [= -> ->]. rewrite !length_fmap, Nat.eqb_refl. now rewrite zip_fst_snd.
Qed.

(** A checked proof: points of the prime-order group, reduced scalars. *)
Definition safe_bulletproof (pf : Bulletproof) : Prop :=
  Forall safe [A pf; S_ pf; T1 pf; T2 pf] /\ Forall (fun lr => safe lr.1 /\ safe lr.2) (LR pf) /\
  Forall scalar_ok [tau pf; mu pf; bp_a pf; bp_b pf; bp_t pf].

Definition safe_clsag (sig : clsag) : Prop :=
  Forall scalar_ok (s sig) /\ scalar_ok (c1 sig) /\ safe (blinding_factor_surplus_key_image sig).

Lemma safe_LR (l : LR_V) : Forall (fun lr => safe lr.1 /\ safe lr.2) l <-> Forall safe l.*1 /\ Forall safe l.*2.
Proof. rewrite !Forall_fmap, <- Forall_and. reflexivity. Qed.

Lemma maybe_each_inv8 l ys : maybe_each maybe_from_inv8 l = Some ys <-> Forall safe ys /\ l = to_inv8V ys.
Proof.
  apply (maybe_each_iff maybe_from_inv8 safe to_inv8 (fun _ => True)); [|now apply Forall_true].
  intros x y _. apply maybe_from_inv8_iff.
Qed.

Lemma maybe_each_reduced l ys :
  Forall (fits 256) l -> maybe_each maybe_reduced l = Some ys <-> Forall scalar_ok ys /\ l = ys.
Proof.
  intros Hl. rewrite (maybe_each_iff maybe_reduced scalar_ok id (fits 256)); [|exact maybe_reduced_iff|assumption].
  now rewrite list_fmap_id.
Qed.

Lemma bulletproof_safe_iff (u : Bulletproof_unsafe) (pf : Bulletproof) :
  Forall (fits 256) [u_tau u; u_mu u; u_a u; u_b u; u_t u] ->
  maybeSafeBulletproof u = Some pf <-> safe_bulletproof pf /\ u = toUnsafeBulletproof pf.
Proof.
  intros Hf. repeat rewrite Forall_cons in Hf. destruct Hf as (? & ? & ? & ? & ? & _).
  unfold maybeSafeBulletproof, safe_bulletproof, toUnsafeBulletproof. split.
  - intros E. repeat (apply bind_Some in E as (? & ?%maybe_from_inv8_iff & E)).
    do 2 (apply bind_Some in E as (? & ?%maybe_each_inv8 & E)).
    do 5 (apply bind_Some in E as (? & ?%maybe_reduced_iff & E); [|assumption]).
    apply bind_Some in E as (l & El%zipLR_iff & [= <-]). cbn [A S_ T1 T2 LR tau mu bp_a bp_b bp_t].
    unfold splitLR in *. injection El as -> ->. rewrite safe_LR. destruct u; cbn in *.
    destruct_and!. subst. repeat (assumption || split || apply Forall_cons || apply Forall_nil).
  - intros [(Hp & Hl & Hs) ->]. repeat rewrite Forall_cons in Hp. repeat rewrite Forall_cons in Hs.
    rewrite safe_LR in Hl. destruct_and!.
    unfold splitLR in *. cbn [u_A u_S u_T1 u_T2 u_tau u_mu u_L u_R u_a u_b u_t] in *.
    repeat (rewrite (proj2 (maybe_from_inv8_iff _ _)) by eauto; cbn [mbind option_bind]).
    do 2 (rewrite (proj2 (maybe_each_inv8 _ _)) by eauto; cbn [mbind option_bind]).
    repeat (rewrite maybe_reduced_ok by assumption; cbn [mbind option_bind]).
    rewrite (proj2 (zipLR_iff _ _ (LR pf))) by reflexivity. cbn [mbind option_bind]. now destruct pf.
Qed.

Lemma clsag_safe_iff (u : clsag_unsafe) (sig : clsag) :
  Forall (fits 256) (u_c1 u :: u_s u) ->
  maybeSafeCLSAG u = Some sig <-> safe_clsag sig /\ u = toUnsafeCLSAG sig.
Proof.
  intros [Hc Hs]%Forall_cons. unfold maybeSafeCLSAG, safe_clsag, toUnsafeCLSAG. split.
  - intros E. apply bind_Some in E as (? & Es%maybe_each_reduced & E); [|assumption].
    apply bind_Some in E as (? & ?%maybe_reduced_iff & E); [|assumption].
    apply bind_Some in E as (? & ?%maybe_from_inv8_iff & [= <-]). cbn. destruct u; cbn in *.
    destruct_and!. subst. repeat (assumption || split).
  - intros [(? & ? & ?) ->]. cbn [u_s u_c1 u_signer_key_image u_blinding_factor_surplus_key_image] in *.
    rewrite (proj2 (maybe_each_reduced _ _ Hs)) by eauto. cbn [mbind option_bind].
    rewrite maybe_reduced_ok by assumption. cbn [mbind option_bind].
    rewrite (proj2 (maybe_from_inv8_iff _ _)) by eauto. cbn [mbind option_bind]. now destruct sig.
Qed.

Lemma clsag_unsafe_safe (sig : clsag) : safe_clsag sig -> maybeSafeCLSAG (toUnsafeCLSAG sig) = Some sig.
Proof.
  intros Hs. apply clsag_safe_iff; [|auto]. destruct Hs as (Hs & Hc & _).
  constructor; [auto with machine|]. eapply Forall_impl; [exact Hs|]. apply scalar_ok_fits.
Qed.

Lemma bulletproof_unsafe_safe (pf : Bulletproof) :
  safe_bulletproof pf -> maybeSafeBulletproof (toUnsafeBulletproof pf) = Some pf.
Proof.
  intros Hs. apply bulletproof_safe_iff; [|auto]. destruct Hs as (_ & _ & Hs).
  eapply Forall_impl; [exact Hs|]. apply scalar_ok_fits.
Qed.

End Checked.

(** The check of a parsed range proof is exact.  [maybeSafeBulletproof]
    succeeds with a proof exactly when that proof holds points of the prime-order
    group other than the identity and reduced scalars only, and the parsed data is
    its stored form: no checked proof has two parsed forms, none is lost, and
    [toUnsafeBulletproof] is the inverse. *)
Theorem bulletproof_check_exact `{SodiumLaws} (u : Bulletproof_unsafe) (pf : Bulletproof) :
  Forall (fits 256) [u_tau u; u_mu u; u_a u; u_b u; u_t u] ->
  maybeSafeBulletproof u = Some pf <-> safe_bulletproof pf /\ u = toUnsafeBulletproof pf.
Proof. apply bulletproof_safe_iff. Qed.

(** The check of a parsed ring signature is exact in the same sense:
    [maybeSafeCLSAG] and [toUnsafeCLSAG] are inverse between the accepted parsed
    signatures and the checked ones. *)
Theorem clsag_check_exact `{SodiumLaws} (u : clsag_unsafe) (sig : clsag) :
  Forall (fits 256) (u_c1 u :: u_s u) ->
  maybeSafeCLSAG u = Some sig <-> safe_clsag sig /\ u = toUnsafeCLSAG sig.
Proof. apply clsag_safe_iff. Qed.

(** The layout check of parsed ring-CT data accepts exactly the data of type
    CLSAG with one range proof, one ring signature per pseudo-output and one
    encrypted amount per output commitment, and changes nothing: the result
    converts back to the data it was made from. *)
Theorem size_check_exact (x : rctData) (y : rctDataSizeChecked) :
  maybeSizeCheckedRctData x = Some y <->
  x = toRctData y /\ type (sc_basic y) = RCTTypeCLSAG /\
  length (sc_pseudo_input_commits y) = length (sc_CLSAGs y) /\
  length (output_commits (sc_basic y)) = length (ecdh_encrypted_data (sc_basic y)).
Proof.
  unfold maybeSizeCheckedRctData, toRctData, rule_17_ringct_should_contain_only_one_range_proof. split.
  - destruct x as [b [bps sigs cs]]. cbn. destruct (Z.eqb_spec (type b) RCTTypeCLSAG); [|discriminate]. cbn.
    destruct bps as [|bp [|]]; [discriminate| |discriminate]. cbn.
    destruct (Nat.eqb_spec (length cs) (length sigs)); [|discriminate].
    destruct (Nat.eqb_spec (length (output_commits b)) (length (ecdh_encrypted_data b))); [|discriminate].
    intros [= <-]. cbn. auto.
  - intros (-> & Ht & Hs & Ho). cbn. rewrite Ht, Hs, Ho, !Nat.eqb_refl. cbn. now destruct y.
Qed.

Section Examples.
Import ModelGroup RollingDigest.

Definition example_proof : Bulletproof :=
  {| A := to_pk 3; S_ := to_pk 5; T1 := to_pk 7; T2 := to_pk 9; tau := 11; mu := 12;
     LR := [(to_pk 4, to_pk 6)]; bp_a := 13; bp_b := 14; bp_t := 15 |}.

Lemma bulletproof_check_exact_witness :
  maybeSafeBulletproof (toUnsafeBulletproof example_proof) = Some example_proof.
Proof.
  apply (bulletproof_check_exact (toUnsafeBulletproof example_proof) example_proof).
  - repeat constructor; vm_compute; congruence.
  - split; [|reflexivity]. repeat split; repeat constructor; vm_compute; congruence.
Defined.

Definition example_clsag : clsag :=
  {| s := [4; 5]; c1 := 6; signer_key_image := to_pk 7; blinding_factor_surplus_key_image := to_pk 8 |}.

Lemma clsag_check_exact_witness : maybeSafeCLSAG (toUnsafeCLSAG example_clsag) = Some example_clsag.
Proof.
  apply (clsag_check_exact (toUnsafeCLSAG example_clsag) example_clsag).
  - repeat constructor; vm_compute; congruence.
  - split; [|reflexivity]. repeat split; repeat constructor; vm_compute; congruence.
Defined.

End Examples.

End RctTypes.
