(* ===== verification/TxTypes.v ===== *)
(** Transactions and blocks ([src/src/cryptonote/basic/functional/base.hpp]): the
    structures and their wire format, with the theorem that a serialized
    transaction or block parses back to itself. *)

From S2P Require Import Prelude Hash Config Varint Serialization Primality Group ModelGroup Key RctOps VectorOps InnerProduct Bulletproof Clsag RctTypes.

Module TxTypes.
Import Config Varint Archive RctTypes.

(** ** Structures *)

Record txin_from_key_t := {
  in_amount : Z; output_relative_offsets : list Z; output_key_image : key_image }.

(** [txin_v = boost::variant<txin_gen, txin_from_key>] *)
Inductive txin_v :=
| txin_gen (height : Z)
| txin_from_key (x : txin_from_key_t).

(** [txout_target_v = boost::variant<txout_to_key>] *)
Inductive txout_target_v :=
| txout_to_key (out_public_key : public_key).

Record tx_out := { amount : Z; target : txout_target_v }.

Record transaction_prefix := {
  version : Z; unlock_height : Z; vin : list txin_v; vout : list tx_out; extra : blob }.

(** The two cached sizes of the C++ struct are derived from the serialized form
    and are computed from it where they are used. *)
Record transaction := { prefix : transaction_prefix; ringct : rctData }.

Record block_header := {
  major_version : Z; minor_version : Z; timestamp : Z; prev_id : hash; nonce : Z }.

Record block := { header : block_header; miner_tx : transaction; tx_hashes : list hash }.

Definition CRYPTONOTE_MAX_TX_PER_BLOCK : Z := 0x10000000.

(** ** Wire format *)

(** [VARIANT_TAG(binary_archive, ...)] *)
Definition txin_gen_tag : Z := 0xff.
Definition txin_from_key_tag : Z := 0x2.
Definition txout_to_key_tag : Z := 0x2.

Definition serialize_txin_gen : archived Z := serialize_varint 64.

Definition serialize_txin_from_key : archived txin_from_key_t :=
  serialize_as
    (fun x => (in_amount x, (output_relative_offsets x, output_key_image x)))
    (fun '(a, (o, k)) => {| in_amount := a; output_relative_offsets := o; output_key_image := k |})
    (serialize_pair (serialize_varint 64)
      (serialize_pair (do_serialize_container (serialize_varint 64)) serialize_data)).

(** [serializer<Archive, boost::variant<...>>]: the writer's visitor and the
    reader's chain of tags *)
Definition serialize_txin : archived txin_v := {|
  save x :=
    match x with
    | txin_gen h => t ← save (serialize_uint 1) txin_gen_tag; b ← save serialize_txin_gen h; Some (t ++ b)
    | txin_from_key k => t ← save (serialize_uint 1) txin_from_key_tag; b ← save serialize_txin_from_key k; Some (t ++ b)
    end;
  load := t ← load (serialize_uint 1);
    if txin_gen_tag =? t then x ← load serialize_txin_gen; mret (txin_gen x)
    else if txin_from_key_tag =? t then x ← load serialize_txin_from_key; mret (txin_from_key x)
    else read_fail;
  wf x :=
    match x with
    | txin_gen h => wf serialize_txin_gen h
    | txin_from_key k => wf serialize_txin_from_key k
    end;
|}.

Definition serialize_txout_target : archived txout_target_v := {|
  save '(txout_to_key k) := t ← save (serialize_uint 1) txout_to_key_tag; b ← save serialize_data k; Some (t ++ b);
  load := t ← load (serialize_uint 1);
    if txout_to_key_tag =? t then k ← load serialize_data; mret (txout_to_key k) else read_fail;
  wf '(txout_to_key k) := wf serialize_data k;
|}.

Definition serialize_tx_out : archived tx_out :=
  serialize_as (fun x => (amount x, target x)) (fun '(a, t) => {| amount := a; target := t |})
    (serialize_pair (serialize_varint 64) serialize_txout_target).

Definition serialize_tx_prefix : archived transaction_prefix :=
  serialize_as
    (fun x => (version x, (unlock_height x, (vin x, (vout x, extra x)))))
    (fun '(v, (u, (i, (o, e)))) =>
       {| version := v; unlock_height := u; vin := i; vout := o; extra := e |})
    (serialize_pair (serialize_checked (fun v => negb (v =? 0)) (serialize_varint 64))
      (serialize_pair (serialize_varint 64)
        (serialize_pair (do_serialize_container serialize_txin)
          (serialize_pair (do_serialize_container serialize_tx_out)
            (do_serialize_container (serialize_uint 1)))))).

(** The ring size minus one, from the first input; [size() - 1] wraps around. *)
Definition mixin_of (vin : list txin_v) : Z :=
  match vin with
  | txin_from_key x :: _ => Z.of_nat (length (output_relative_offsets x)) ⊟ 1
  | _ => 0
  end.

(** The part of [transaction::do_serialize_object] after the prefix. *)
Definition serialize_tx_ringct `{UndefinedShift} (init : rctData) (t : transaction_prefix) : archived rctData :=
  if version t =? 1 then not_serialized init else
  match vin t with
  | [] => not_serialized init
  | _ =>
    serialize_as (fun x => (basic x, p x)) (fun '(b, q) => {| basic := b; p := q |})
      (serialize_dep (serialize_rctsig_base (basic init) (length (vin t)) (length (vout t)))
        (fun b =>
           if negb (type b =? RCTTypeNull)
           then serialize_ringct_prunable (p init) (type b) (length (vin t)) (length (vout t)) (mixin_of (vin t))
           else not_serialized (p init)))
  end.

(** [transaction::do_serialize_object], of an object whose ring-CT data was [init] *)
Definition serialize_transaction `{UndefinedShift} (init : rctData) : archived transaction :=
  serialize_as (fun x => (prefix x, ringct x)) (fun '(t, r) => {| prefix := t; ringct := r |})
    (serialize_dep serialize_tx_prefix (serialize_tx_ringct init)).

(** [transaction::serialize_base] *)
Definition serialize_base (init : rctData) : archived transaction :=
  serialize_as (fun x => (prefix x, ringct x)) (fun '(t, r) => {| prefix := t; ringct := r |})
    (serialize_dep serialize_tx_prefix (fun t =>
       if negb (version t =? 1) && negb (length (vin t) =? 0)%nat
       then serialize_as (fun x => (basic x, p x)) (fun '(b, q) => {| basic := b; p := q |})
              (serialize_pair (serialize_rctsig_base (basic init) (length (vin t)) (length (vout t)))
                (not_serialized (p init)))
       else not_serialized init)).

Definition serialize_block_header : archived block_header :=
  serialize_as
    (fun x => (major_version x, (minor_version x, (timestamp x, (prev_id x, nonce x)))))
    (fun '(a, (b, (t, (i, n)))) =>
       {| major_version := a; minor_version := b; timestamp := t; prev_id := i; nonce := n |})
    (serialize_pair (serialize_varint 8)
      (serialize_pair (serialize_varint 8)
        (serialize_pair (serialize_varint 64)
          (serialize_pair (serialize_blob HASH_SIZE) (serialize_uint 8))))).

Definition serialize_block `{UndefinedShift} (init : rctData) : archived block :=
  serialize_as
    (fun x => (header x, (miner_tx x, tx_hashes x)))
    (fun '(h, (m, t)) => {| header := h; miner_tx := m; tx_hashes := t |})
    (serialize_pair serialize_block_header
      (serialize_pair (serialize_transaction init)
        (serialize_checked (fun t => negb (Z.of_nat (length t) >? CRYPTONOTE_MAX_TX_PER_BLOCK))
          (do_serialize_container (serialize_blob HASH_SIZE))))).

(** ** The formats keep their promise *)

#[export] Instance serialize_txin_from_key_laws : ArchivedLaws serialize_txin_from_key.
Proof. apply serialize_as_laws; [now intros []|now intros (? & ? & ?)|apply _]. Qed.

(** A one-byte tag in front of a format *)
Lemma tagged_save_load {A B} (c : archived A) `{!ArchivedLaws c} (tag : Z) (x : A) (y : B) (k : Z -> reader B) :
  is_byte tag -> wf c x ->
  (forall l rest, load c l = Some (x, rest) -> k tag l = Some (y, rest)) ->
  exists b, (t ← save (serialize_uint 1) tag; b ← save c x; Some (t ++ b)) = Some b /\ bytes_ok b /\
    forall rest, (load (serialize_uint 1) ≫= k) (b ++ rest) = Some (y, rest).
Proof.
  intros Ht Hx Hk. destruct (save_load (c := serialize_uint 1) tag) as (b1 & -> & B1 & L1); [exact Ht|].
  destruct (save_load x Hx) as (b2 & -> & B2 & L2). cbn. eexists. split; [reflexivity|].
  split; [apply bytes_ok_app; auto|]. intros rest. rewrite <- app_assoc.
  rewrite (reader_bind_eq _ _ _ _ _ (L1 _)). now apply Hk.
Qed.

#[export] Instance serialize_txin_laws : ArchivedLaws serialize_txin.
Proof.
  split; cbn [save load wf serialize_txin].
  - intros [h|k] Hx.
    + eapply (tagged_save_load serialize_txin_gen); [unfold is_byte, txin_gen_tag; lia|exact Hx|].
      intros l rest E. rewrite Z.eqb_refl. now rewrite (reader_bind_eq _ _ _ _ _ E).
    + eapply (tagged_save_load serialize_txin_from_key); [unfold is_byte, txin_from_key_tag; lia|exact Hx|].
      intros l rest E. change (txin_gen_tag =? txin_from_key_tag) with false. cbv iota.
      rewrite Z.eqb_refl. now rewrite (reader_bind_eq _ _ _ _ _ E).
  - intros l x rest Hl E. apply reader_bind_Some in E as (t & l1 & E1 & E).
    apply load_wf in E1 as [_ Hl1]; [|assumption].
    destruct (txin_gen_tag =? t); [|destruct (txin_from_key_tag =? t); [|discriminate]];
      apply reader_bind_Some in E as (y & l2 & E2 & E); injection E as <- <-; now apply load_wf in E2.
Qed.

#[export] Instance serialize_txin_nonempty : NonEmpty serialize_txin.
Proof.
  intros [h|k] b _ E; cbn [save serialize_txin] in E;
    apply bind_Some in E as (t & [= <-] & E); apply bind_Some in E as (b2 & _ & [= <-]); cbn; lia.
Qed.

#[export] Instance serialize_txout_target_laws : ArchivedLaws serialize_txout_target.
Proof.
  split; cbn [save load wf serialize_txout_target].
  - intros [k] Hx. eapply (tagged_save_load serialize_data); [unfold is_byte, txout_to_key_tag; lia|exact Hx|].
    intros l rest E. rewrite Z.eqb_refl. now rewrite (reader_bind_eq _ _ _ _ _ E).
  - intros l x rest Hl E. apply reader_bind_Some in E as (t & l1 & E1 & E).
    apply load_wf in E1 as [_ Hl1]; [|assumption]. destruct (txout_to_key_tag =? t); [|discriminate].
    apply reader_bind_Some in E as (y & l2 & E2 & E). injection E as <- <-. now apply load_wf in E2.
Qed.

#[export] Instance serialize_tx_out_laws : ArchivedLaws serialize_tx_out.
Proof. apply serialize_as_laws; [now intros []|now intros []|apply _]. Qed.

#[export] Instance serialize_tx_prefix_laws : ArchivedLaws serialize_tx_prefix.
Proof. apply serialize_as_laws; [now intros []|now intros (? & ? & ? & ? & ?)|apply _]. Qed.

#[export] Instance serialize_tx_ringct_laws `{UndefinedShift} init t : ArchivedLaws (serialize_tx_ringct init t).
Proof.
  unfold serialize_tx_ringct. destruct (version t =? 1); [apply _|]. destruct (vin t) eqn:E; [apply _|].
  apply serialize_as_laws; [now intros []|now intros []|].
  apply serialize_dep_laws; [apply _|]. intros b. destruct (negb (type b =? RCTTypeNull)); apply _.
Qed.

#[export] Instance serialize_transaction_laws `{UndefinedShift} init : ArchivedLaws (serialize_transaction init).
Proof. apply serialize_as_laws; [now intros []|now intros []|apply _]. Qed.

#[export] Instance serialize_base_laws init : ArchivedLaws (serialize_base init).
Proof.
  apply serialize_as_laws; [now intros []|now intros []|]. apply serialize_dep_laws; [apply _|].
  intros t. destruct (_ && _); [|apply _]. apply serialize_as_laws; [now intros []|now intros []|apply _].
Qed.

#[export] Instance serialize_block_header_laws : ArchivedLaws serialize_block_header.
Proof. apply serialize_as_laws; [now intros []|now intros (? & ? & ? & ? & ?)|apply _]. Qed.

#[export] Instance serialize_block_laws `{UndefinedShift} init : ArchivedLaws (serialize_block init).
Proof.
  apply serialize_as_laws; [now intros []|now intros (? & ? & ?)|].
  pose proof (serialize_blob_nonempty 31 : NonEmpty (serialize_blob HASH_SIZE)). apply _.
Qed.

End TxTypes.
