(* ===== verification/Consensus.v ===== *)
(** The consensus rules ([src/src/math/consensus/consensus.hpp] and
    [consensus.cpp]), with the emission of coins. *)

From stdpp Require Import gmap sorting.
From S2P Require Import Prelude Hash Config Varint Serialization Difficulty Primality Group ModelGroup Key RctOps VectorOps InnerProduct Bulletproof Clsag RctTypes TxTypes.

Module Consensus.
Import Config Key RctOps VectorOps Bulletproof Clsag RctTypes TxTypes.

(** ** Block rules *)

Definition rule_1_you_don_t_talk_about_memero : bool := true.

Definition get_block_reward (already_generated_coins : Z) : Z :=
  let remaining :=
    if already_generated_coins >=? get_money_supply then 0
    else get_money_supply ⊟ already_generated_coins in
  Z.shiftr remaining get_emission_speed_factor.

Definition rule_5_block_reward_uses_memero_emission_curve : bool :=
  get_block_reward 0 =? Z.shiftr get_money_supply get_emission_speed_factor.

Definition get_minimum_block_size_bound : Z := 128 ⊠ 1024.

Definition get_block_size_bound (height : Z) : Z := Z.max get_minimum_block_size_bound height.

Definition rule_6_block_size_should_be_bounded_by_height (height block_size : Z) : bool :=
  block_size <=? get_block_size_bound height.

Definition is_block_size_valid (height block_size : Z) : bool :=
  rule_6_block_size_should_be_bounded_by_height height block_size.

Definition rule_16_next_difficulty := Difficulty.next_difficulty.

(** ** Ring-CT rules *)

Section RingCTRules.
Context `{Sha3} `{Sodium}.

Definition rule_2_ringct_output_amounts_should_not_overflow_amount_type
    (outputs : pointV) (proof : Bulletproof) : result bool :=
  bulletproof_VERIFY outputs proof.

Definition rule_3_ringct_should_be_balanced (inputs outputs : pointV) (fee : amount_t) : bool :=
  sum inputs =? sum outputs +ₚ H_ (int_to_scalar fee).

Definition rule_4_ringct_input_should_be_from_a_key (message : hash) (sig : clsag)
    (decoys : list output_public_data) (pseudo_input_commit : ec_point) : bool :=
  verify_clsag_signature message sig decoys pseudo_input_commit.

Definition rule_7_ringct_input_decoys_offsets_should_not_be_zero_except_the_first_one (offsets : list Z) : bool :=
  match offsets with
  | [] => true
  | _ :: rest => forallb (fun x => negb (x =? 0)) rest
  end.

(** The size of [std::set<key_image>] built from the list. *)
Definition rule_8_ringct_input_key_images_should_be_unique (xs : list key_image) : bool :=
  (size (list_to_set (data_blob <$> xs) : gset blob) =? length xs)%nat.

Definition rule_9_range_proof_should_not_contain_invalid_data (x : Bulletproof_unsafe) : option Bulletproof :=
  maybeSafeBulletproof x.

Definition rule_10_ring_signature_should_not_contain_invalid_data (x : clsag_unsafe) : option clsag :=
  maybeSafeCLSAG x.

(** Transform, check that every element has a value, unwrap. *)
Definition are_points_safe (xs : list ec_point_unsafe) : option (list ec_point) :=
  all_present (maybeSafePoint <$> xs).

Definition rule_11_tx_output_public_keys_should_be_safe_points (xs : list ec_point_unsafe)
    : option (list public_key) :=
  are_points_safe xs.

Definition rule_12_tx_output_target_should_be_output_public_key (x : txout_target_v) : option public_key :=
  match x with txout_to_key k => Some k end.

Definition are_tx_output_targets_valid (xs : list txout_target_v) : option (list public_key) :=
  all_present (rule_12_tx_output_target_should_be_output_public_key <$> xs).

Definition rule_13_tx_output_commits_should_be_safe_points := are_points_safe.
Definition rule_14_tx_pseudo_input_commits_should_be_safe_points := are_points_safe.

Definition rule_15_ringct_input_type_should_be_from_key (x : txin_v) : option txin_from_key_t :=
  match x with txin_from_key k => Some k | _ => None end.

Definition are_ringct_input_types_valid (xs : list txin_v) : option (list txin_from_key_t) :=
  all_present (rule_15_ringct_input_type_should_be_from_key <$> xs).

(** [std::is_sorted] with [std::greater_equal]: no element is [>=] the one before it. *)
Fixpoint is_sorted_by {A} (comp : A -> A -> bool) (xs : list A) : bool :=
  match xs with
  | x :: (y :: _) as rest => negb (comp y x) && is_sorted_by comp rest
  | _ => true
  end.

(** [key_image::operator<=>] is not less *)
Definition greater_equal (x y : key_image) : bool :=
  match compare_3way (data_blob x) (data_blob y) with Lt => false | _ => true end.

Definition rule_18_ringct_input_key_images_should_be_sorted (xs : list key_image) : bool :=
  is_sorted_by greater_equal xs.

Definition rule_21_ringct_should_have_at_least_two_outputs (xs : list tx_out) : bool := (2 <=? length xs)%nat.

Definition rule_25_ringct_should_have_at_least_one_input (xs : list txin_v) : option txin_v := head xs.

End RingCTRules.

(** ** Coinbase rules *)

Definition rule_19_coinbase_tx_should_be_balanced (xs : list amount_t) (fee : amount_t)
    (already_generated_coins : Z) : bool :=
  get_block_reward already_generated_coins ⊞ fee =? foldl u64_add 0 xs.

Definition get_coinbase_unlock_height (height : Z) : Z := height ⊞ get_coinbase_unlock_time.

Definition rule_20_coinbase_outputs_are_locked_for_60_blocks (height unlock_height : Z) : bool :=
  height ⊞ get_coinbase_unlock_time =? unlock_height.

Definition rule_22_coinbase_tx_should_have_only_one_input (xs : list txin_v) : option txin_v :=
  if (length xs =? 1)%nat then head xs else None.

Definition rule_23_coinbase_tx_input_type_should_be_gen (x : txin_v) : option Z :=
  match x with txin_gen h => Some h | _ => None end.

(** The sum is taken in 128 bits. *)
Definition rule_24_coinbase_output_amount_sum_should_not_overflow_amount_t (xs : list Z) : option Z :=
  let sum := foldl (fun a x => wrap 128 (a + x)) 0 xs in
  if sum <=? u64_max then Some (wrap 64 sum) else None.

(** ** The emission curve *)

(** [Blockchain::handle_block_to_main_chain]: the coins after a block. *)
Definition next_already_generated_coins (coins_before_this_block : Z) : Z :=
  let base_reward := get_block_reward coins_before_this_block in
  coins_before_this_block ⊞ base_reward.

(** The coins after [n] blocks. *)
Fixpoint coins_after (n : nat) : Z :=
  match n with
  | O => 0
  | S n' => next_already_generated_coins (coins_after n')
  end.

(** The reward as a formula on integers. *)
Lemma get_block_reward_spec c :
  0 <= c -> get_block_reward c = Z.max 0 (get_money_supply - c) / 2 ^ 19.
Proof.
  intros Hc. unfold get_block_reward. rewrite Z.shiftr_div_pow2 by (cbv; discriminate).
  change get_emission_speed_factor with 19. destruct (Z.geb_spec c get_money_supply) as [Hge|Hlt].
  - rewrite Z.max_l by lia. reflexivity.
  - rewrite u64_sub_small, Z.max_r; [reflexivity|lia|].
    rewrite money_supply_value in *. unfold fits. lia.
Qed.

Lemma get_block_reward_bounds c :
  0 <= c <= get_money_supply -> 0 <= get_block_reward c <= get_money_supply - c.
Proof.
  intros Hc. rewrite get_block_reward_spec, Z.max_r by lia. split; [apply Z.div_pos; lia|].
  transitivity ((get_money_supply - c) / 1); [|now rewrite Z.div_1_r].
  apply Z.div_le_compat_l; lia.
Qed.

Lemma next_coins_exact c :
  0 <= c <= get_money_supply ->
  next_already_generated_coins c = c + get_block_reward c /\
  c <= next_already_generated_coins c <= get_money_supply.
Proof.
  intros Hc. pose proof (get_block_reward_bounds c Hc) as Hr. unfold next_already_generated_coins. cbv zeta.
  rewrite u64_add_small; [lia|]. rewrite money_supply_value in *. unfold fits. lia.
Qed.

Lemma coins_after_bounds n : 0 <= coins_after n <= get_money_supply.
Proof.
  induction n as [|n IH]; cbn [coins_after]; [rewrite money_supply_value; lia|].
  pose proof (next_coins_exact _ IH). lia.
Qed.

Lemma coins_after_progress n :
  get_money_supply - coins_after n >= 2 ^ 19 -> coins_after n < coins_after (S n).
Proof.
  intros Hr. pose proof (coins_after_bounds n) as Hb. cbn [coins_after].
  destruct (next_coins_exact _ Hb) as [-> _]. rewrite get_block_reward_spec, Z.max_r by lia.
  assert (1 <= (get_money_supply - coins_after n) / 2 ^ 19) by (apply Z.div_le_lower_bound; lia). lia.
Qed.

Lemma coins_after_reaches n : get_money_supply - coins_after n < 2 ^ 19 \/ Z.of_nat n <= coins_after n.
Proof.
  induction n as [|n IH]; [right; reflexivity|].
  destruct (Z_lt_le_dec (get_money_supply - coins_after n) (2 ^ 19)) as [Hl|Hl].
  - left. pose proof (coins_after_bounds n) as Hb. cbn [coins_after]. pose proof (next_coins_exact _ Hb). lia.
  - destruct IH as [|IH]; [lia|]. right. pose proof (coins_after_progress n ltac:(lia)). lia.
Qed.

Lemma coins_after_stops n : get_money_supply - coins_after n < 2 ^ 19 -> coins_after (S n) = coins_after n.
Proof.
  intros Hr. pose proof (coins_after_bounds n) as Hb. cbn [coins_after].
  destruct (next_coins_exact _ Hb) as [-> _].
  rewrite get_block_reward_spec, Z.max_r, Z.div_small by lia. lia.
Qed.

(** C13: The emission is capped and never wraps.  Along the main chain, after any
    number of blocks the coins are at most the money supply, each block adds
    exactly its reward (the 64-bit addition does not overflow), and the reward is
    the 2^19-th part of what is left. *)
Theorem emission_capped (n : nat) :
  0 <= coins_after n <= get_money_supply /\
  coins_after (S n) = coins_after n + get_block_reward (coins_after n) /\
  get_block_reward (coins_after n) = (get_money_supply - coins_after n) / 2 ^ 19.
Proof.
  pose proof (coins_after_bounds n) as Hb. repeat split; [lia|lia| |].
  - cbn [coins_after]. now apply next_coins_exact.
  - rewrite get_block_reward_spec, Z.max_r by lia. reflexivity.
Qed.

(** C39: The emission ends.  From some block on, fewer than 2^19 atomic units are
    left and no further coin is created; until then every block creates at least
    one. *)
Theorem emission_ends :
  exists N : nat,
    (forall n, (N <= n)%nat -> get_money_supply - coins_after n < 2 ^ 19 /\ coins_after (S n) = coins_after n) /\
    (forall n, get_money_supply - coins_after n >= 2 ^ 19 -> coins_after n < coins_after (S n)).
Proof.
  exists (Z.to_nat get_money_supply). split; [|exact coins_after_progress]. intros n Hn.
  assert (Hl : get_money_supply - coins_after n < 2 ^ 19).
  { pose proof (coins_after_bounds n). destruct (coins_after_reaches n) as [|Hr]; [assumption|].
    assert (0 <= get_money_supply) by (rewrite money_supply_value; lia). lia. }
  auto using coins_after_stops.
Qed.

(** ** Key images *)

Lemma compare_3way_be a b :
  bytes_ok a -> bytes_ok b -> length a = length b ->
  compare_3way a b = (be_val 256 a ?= be_val 256 b).
Proof.
  intros Ha. revert b; induction Ha as [|x a Hx Ha IH]; intros [|y b] Hb Hl; try discriminate; [reflexivity|].
  apply Forall_cons in Hb as [Hy Hb]. injection Hl as Hl. cbn [compare_3way].
  rewrite !(be_val_cons 256), Hl, IH by assumption.
  pose proof (be_val_bound 256 ltac:(lia) a Ha) as Ba. pose proof (be_val_bound 256 ltac:(lia) b Hb) as Bb.
  rewrite Hl in Ba. set (P := 256 ^ Z.of_nat (length b)) in *.
  destruct (Z.ltb_spec x y), (Z.ltb_spec y x); symmetry.
  - lia.
  - apply Z.compare_lt_iff. nia.
  - apply Z.compare_gt_iff. nia.
  - assert (x = y) as -> by lia. rewrite (Z.add_comm (be_val 256 a)), (Z.add_comm (be_val 256 b)).
    apply Z.add_compare_mono_l.
Qed.

(** The number the order of key images compares. *)
Definition key_rank (x : key_image) : Z := be_val 256 (data_blob x).

Lemma greater_equal_rank x y : greater_equal x y = (key_rank y <=? key_rank x).
Proof.
  unfold greater_equal, key_rank, data_blob.
  rewrite compare_3way_be by (rewrite ?length_le_bytes; auto using le_bytes_ok).
  unfold Z.leb. rewrite (Z.compare_antisym (be_val 256 (le_bytes 32 x)) (be_val 256 (le_bytes 32 y))).
  now destruct (_ ?= _).
Qed.

Lemma rule_18_decreasing xs :
  rule_18_ringct_input_key_images_should_be_sorted xs = true ->
  StronglySorted (fun x y => key_rank y < key_rank x) xs.
Proof.
  unfold rule_18_ringct_input_key_images_should_be_sorted. intros Hs. apply Sorted_StronglySorted; [intros x y z; lia|].
  induction xs as [|x [|y xs] IH]; [constructor|repeat constructor|].
  cbn [is_sorted_by] in Hs. rewrite greater_equal_rank in Hs. to_prop.
  constructor; [auto|constructor; lia].
Qed.

Lemma rule_18_NoDup xs : rule_18_ringct_input_key_images_should_be_sorted xs = true -> NoDup (data_blob <$> xs).
Proof.
  intros Hs%rule_18_decreasing. induction Hs as [|x xs _ IH Hx]; [constructor|]. rewrite fmap_cons. constructor; [|assumption].
  intros (y & E & Hy)%list_elem_of_fmap. rewrite Forall_forall in Hx. specialize (Hx y Hy).
  unfold key_rank in Hx. rewrite E in Hx. lia.
Qed.

(** Sorted key images are distinct.  A transaction whose key images pass the
    ordering rule 18 passes the uniqueness rule 8, so that no output is spent
    twice inside it; and reordering does not help: the order is strict. *)
Theorem sorted_key_images_unique (xs : list key_image) :
  rule_18_ringct_input_key_images_should_be_sorted xs = true ->
  rule_8_ringct_input_key_images_should_be_unique xs = true /\ NoDup xs /\
  forall i j x y, (i < j)%nat -> xs !! i = Some x -> xs !! j = Some y ->
    greater_equal y x = false.
Proof.
  intros Hs. pose proof (rule_18_NoDup xs Hs) as Hn. repeat split.
  - unfold rule_8_ringct_input_key_images_should_be_unique.
    rewrite size_list_to_set, length_fmap by assumption. apply Nat.eqb_refl.
  - now apply NoDup_fmap_1 in Hn.
  - intros i j x y Hij Hi Hj. rewrite greater_equal_rank. apply Z.leb_gt.
    apply rule_18_decreasing in Hs. clear Hn. revert i j Hij Hi Hj.
    induction Hs as [|z xs _ IH Hz]; intros [|i] [|j] Hij Hi Hj; cbn in *; try discriminate; try lia.
    + injection Hi as ->. rewrite Forall_forall in Hz. apply Hz. eapply list_elem_of_lookup_2, Hj.
    + eapply IH; [|eassumption..]. lia.
Qed.

(** ** Safe points and balances *)

Section Balance.
Context `{HL : Sha3Laws} `{SL : SodiumLaws}.

Lemma are_points_safe_iff xs ys : are_points_safe xs = Some ys <-> xs = ys /\ Forall safe xs.
Proof.
  unfold are_points_safe. rewrite all_present_Some. split.
  - revert ys; induction xs as [|x xs IH]; intros [|y ys] E; try discriminate; [auto|].
    cbn in E. injection E as E1 E2. apply IH in E2 as [-> ?].
    unfold maybeSafePoint in E1. destruct (is_safe_point x) eqn:Hx; [|discriminate]. injection E1 as ->. auto.
  - intros [<- Hx]. apply list_fmap_ext. intros i x Hi. eapply Forall_lookup_1 in Hx; [|eassumption].
    unfold maybeSafePoint. now rewrite Hx.
Qed.

(** A commitment of [rctOps.cpp] as an exponent of the base point. *)
Lemma commit_enc : exists h, ~ h ≡ₗ 0 /\ (forall f, fits 64 f -> H_ (int_to_scalar f) = enc (f * h)) /\
  forall a m, fits 64 a -> secret_ok m -> commit a m = enc (m + a * h).
Proof using SL.
  destruct H_mult as (h & Hh & _ & HH). exists h. split; [assumption|]. split.
  - intros f Hf. rewrite int_to_scalar_small by assumption. apply HH. auto with machine.
  - intros a m Ha Hm. unfold commit, G_. fold (to_pk m).
    rewrite int_to_scalar_small, HH, to_pk_enc, add_enc by auto with machine. reflexivity.
Qed.

Lemma sum_commits h xs :
  (forall a m, fits 64 a -> secret_ok m -> commit a m = enc (m + a * h)) ->
  Forall (fun x => fits 64 x.1 /\ secret_ok x.2) xs ->
  sum ((fun x => commit x.1 x.2) <$> xs) = enc (sumZ xs.*2 + sumZ xs.*1 * h).
Proof using SL.
  intros Hc Hxs. transitivity (sum (enc <$> ((fun x => x.2 + x.1 * h) <$> xs))).
  - f_equal. rewrite <- list_fmap_compose. apply list_fmap_ext. intros i x Hi.
    eapply Forall_lookup_1 in Hxs as [? ?]; [|eassumption]. now apply Hc.
  - rewrite sum_enc. f_equal. unfold sumZ. clear Hxs. induction xs as [|x xs IH]; cbn; [reflexivity|].
    rewrite IH. ring.
Qed.

Lemma rule_3_commits ins outs fee :
  Forall (fun x => fits 64 x.1 /\ secret_ok x.2) ins -> Forall (fun x => fits 64 x.1 /\ secret_ok x.2) outs ->
  fits 64 fee -> sumZ ins.*2 ≡ₗ sumZ outs.*2 ->
  rule_3_ringct_should_be_balanced ((fun x => commit x.1 x.2) <$> ins) ((fun x => commit x.1 x.2) <$> outs) fee = true
  <-> sumZ ins.*1 ≡ₗ sumZ outs.*1 + fee.
Proof using SL.
  intros Hi Ho Hf Hm. destruct commit_enc as (h & Hh & HF & HC). unfold rule_3_ringct_should_be_balanced.
  rewrite !(sum_commits h), HF, add_enc, Z.eqb_eq, enc_eq by assumption. split.
  - intros E. apply (eqL_cancel _ _ h); [assumption|].
    transitivity (sumZ ins.*2 + sumZ ins.*1 * h - sumZ ins.*2); [apply eq_eqL; ring|].
    rewrite E, Hm. apply eq_eqL. ring.
  - intros E. rewrite Hm, E. apply eq_eqL. ring.
Qed.

Lemma sumZ_amounts_bound (xs : list (Z * Z)) :
  Forall (fun x => fits 64 x.1 /\ secret_ok x.2) xs -> 0 <= sumZ xs.*1 <= Z.of_nat (length xs) * 2 ^ 64.
Proof.
  induction 1 as [|x xs [Hx _] _ IH]; [cbn; lia|]. unfold sumZ, fits in *. cbn [fmap list_fmap foldr length]. lia.
Qed.

End Balance.

(** C14: No inflation through a balanced transaction.  For commitments to 64-bit
    amounts whose masks sum to the same scalar on both sides, the balance rule
    accepts exactly when the input amounts equal the output amounts plus the fee as
    integers: neither the scalar arithmetic nor the group can wrap around, for any
    number of inputs and outputs below 2^100. *)
Theorem balanced_iff_amounts_equal `{SodiumLaws} (ins outs : list (amount_t * ec_scalar)) (fee : amount_t) :
  Forall (fun x => fits 64 x.1 /\ secret_ok x.2) ins ->
  Forall (fun x => fits 64 x.1 /\ secret_ok x.2) outs -> fits 64 fee ->
  Z.of_nat (length ins) < 2 ^ 100 -> Z.of_nat (length outs) < 2 ^ 100 ->
  sumZ ins.*2 ≡ₗ sumZ outs.*2 ->
  rule_3_ringct_should_be_balanced ((fun x => commit x.1 x.2) <$> ins) ((fun x => commit x.1 x.2) <$> outs) fee = true
  <-> sumZ ins.*1 = sumZ outs.*1 + fee.
Proof.
  intros Hi Ho Hf Li Lo Hm. rewrite rule_3_commits by assumption.
  pose proof (sumZ_amounts_bound ins Hi). pose proof (sumZ_amounts_bound outs Ho). unfold fits in Hf.
  assert (2 ^ 100 * 2 ^ 64 + 2 ^ 64 < L) by reflexivity.
  split; [|now intros ->]. intros E. apply eqL_scalar in E; [assumption|split; nia|split; nia].
Qed.

(** The point check is exact: a list of parsed points is accepted precisely
    when each of them is a non-identity element of the prime-order group, and then
    it is returned unchanged. *)
Theorem points_check_exact `{SodiumLaws} (xs ys : list ec_point) :
  are_points_safe xs = Some ys <-> xs = ys /\ Forall (fun x => exists k, ~ k ≡ₗ 0 /\ x = enc k) xs.
Proof.
  rewrite are_points_safe_iff. split; intros [E Hx]; (split; [assumption|]);
    (eapply Forall_impl; [exact Hx|]); intros x; apply is_safe_point_spec.
Qed.

(** ** The coinbase sum *)

Lemma rule_24_sum_128 xs a :
  Forall (fits 64) xs -> 0 <= a -> a + Z.of_nat (length xs) * 2 ^ 64 <= 2 ^ 128 ->
  foldl (fun a x => wrap 128 (a + x)) a xs = a + sumZ xs.
Proof.
  intros Hx. revert a; induction Hx as [|x xs Hx _ IH]; intros a Ha Hb; cbn [foldl sumZ foldr length] in *; [lia|].
  unfold fits in Hx. rewrite wrap_small by (unfold fits; lia). rewrite IH by lia. unfold sumZ. lia.
Qed.

Lemma rule_24_exact xs r :
  Forall (fits 64) xs -> Z.of_nat (length xs) < 2 ^ 64 ->
  rule_24_coinbase_output_amount_sum_should_not_overflow_amount_t xs = Some r <-> r = sumZ xs /\ sumZ xs < 2 ^ 64.
Proof.
  intros Hx Hl. unfold rule_24_coinbase_output_amount_sum_should_not_overflow_amount_t.
  assert (Hs : 0 <= sumZ xs) by (apply sumZ_nonneg; eapply Forall_impl; [exact Hx|]; unfold fits; lia).
  rewrite rule_24_sum_128 by (assumption || lia). rewrite Z.add_0_l. unfold u64_max.
  destruct (Z.leb_spec (sumZ xs) (2 ^ 64 - 1)).
  - rewrite wrap_small by (unfold fits; lia). split; [intros [= <-]; lia|intros [-> _]; reflexivity].
  - split; [discriminate|lia].
Qed.

Section Examples.
Import ModelGroup RollingDigest.

Lemma sorted_key_images_unique_witness :
  rule_8_ringct_input_key_images_should_be_unique [7; 258; 1] = true.
Proof.
  destruct (sorted_key_images_unique [7; 258; 1]) as [E _]; [vm_compute; reflexivity|exact E].
Defined.

Lemma balanced_iff_amounts_equal_witness :
  rule_3_ringct_should_be_balanced [commit 9 5; commit 4 6] [commit 10 11] 3 = true.
Proof.
  refine (proj2 (balanced_iff_amounts_equal [(9, 5); (4, 6)] [(10, 11)] 3 _ _ _ _ _ _) _).
  - constructor; [|constructor; [|constructor]]; vm_compute; repeat split; congruence.
  - constructor; [|constructor]; vm_compute; repeat split; congruence.
  - vm_compute; split; congruence.
  - vm_compute; reflexivity.
  - vm_compute; reflexivity.
  - vm_compute; reflexivity.
  - vm_compute; reflexivity.
Defined.

End Examples.

End Consensus.
