(* ===== verification/Coinbase.v ===== *)
(** The coinbase transaction ([src/src/math/blockchain/functional/tx_common.cpp],
    [coinbase_tx.cpp] and the two miner-transaction checks of
    [src/src/cryptonote/core/blockchain.cpp]). *)

From S2P Require Import Prelude Hash Config Varint Serialization Primality Group ModelGroup Key RctOps VectorOps InnerProduct Bulletproof Clsag RctTypes TxTypes Consensus.

Module Coinbase.
Import Config Key RctOps VectorOps RctTypes TxTypes Consensus.

Record coinbase_output := { co_amount : Z; co_output_public_key : public_key }.

(** [coinbase_tx: tx_common] *)
Record coinbase_tx := {
  cb_unlock_height : Z; cb_extra : blob; cb_height : Z; cb_outputs : list coinbase_output }.

Section Checks.
Context `{Sodium}.

(** [is_coinbase] *)
Definition is_coinbase (tx : transaction) : bool :=
  match rule_22_coinbase_tx_should_have_only_one_input (vin (prefix tx)) with
  | None => false
  | Some x => match rule_23_coinbase_tx_input_type_should_be_gen x with None => false | Some _ => true end
  end.

Definition check_tx_output_points (tx : transaction) : option (list public_key) :=
  targets ← are_tx_output_targets_valid (target <$> vout (prefix tx));
  rule_11_tx_output_public_keys_should_be_safe_points targets.

Definition check_ringct_points (tx : transaction) : bool :=
  let valid_output_commits :=
    match rule_13_tx_output_commits_should_be_safe_points (output_commits (basic (ringct tx))) with
    | Some _ => true | None => false end in
  let valid_pseudo_input_commits :=
    match rule_14_tx_pseudo_input_commits_should_be_safe_points (pseudo_input_commits (p (ringct tx))) with
    | Some _ => true | None => false end in
  valid_output_commits && valid_pseudo_input_commits.

Definition maybe_coinbase_tx (tx : transaction) : option coinbase_tx :=
  if negb (version (prefix tx) =? 2) then None else
  if negb (type (basic (ringct tx)) =? RCTTypeNull) then None else
  maybe_vin ← rule_22_coinbase_tx_should_have_only_one_input (vin (prefix tx));
  height ← rule_23_coinbase_tx_input_type_should_be_gen maybe_vin;
  output_public_keys ← check_tx_output_points tx;
  let amounts := amount <$> vout (prefix tx) in
  _ ← rule_24_coinbase_output_amount_sum_should_not_overflow_amount_t amounts;
  if negb (rule_20_coinbase_outputs_are_locked_for_60_blocks height (unlock_height (prefix tx))) then None else
  Some {| cb_unlock_height := unlock_height (prefix tx); cb_extra := extra (prefix tx); cb_height := height;
          cb_outputs := zip_with Build_coinbase_output amounts output_public_keys |}.

(** [Blockchain::prevalidate_miner_transaction] *)
Definition prevalidate_miner_transaction (b : block) (height : Z) : option coinbase_tx :=
  if height =? 0 then None else
  coinbase ← maybe_coinbase_tx (miner_tx b);
  if negb (cb_height coinbase =? height) then None else Some coinbase.

(** [Blockchain::validate_miner_transaction] *)
Definition validate_miner_transaction (height : Z) (tx : coinbase_tx) (cumulative_block_weight fee
    already_generated_coins : Z) : option coinbase_tx :=
  if height =? 0 then None else
  if negb (is_block_size_valid height cumulative_block_weight) then None else
  let output_amount := co_amount <$> cb_outputs tx in
  if negb (rule_19_coinbase_tx_should_be_balanced output_amount fee already_generated_coins) then None else
  Some tx.

End Checks.

(** ** What an accepted coinbase transaction is *)

Section Accepted.
Context `{SL : SodiumLaws}.

Definition out_key (o : tx_out) : public_key := match target o with txout_to_key k => k end.

Lemma check_tx_output_points_iff tx ks :
  check_tx_output_points tx = Some ks <-> ks = out_key <$> vout (prefix tx) /\ Forall safe ks.
Proof.
  unfold check_tx_output_points, rule_11_tx_output_public_keys_should_be_safe_points, are_tx_output_targets_valid.
  rewrite (proj2 (all_present_Some _ (out_key <$> vout (prefix tx)))).
  - cbn [mbind option_bind]. rewrite are_points_safe_iff. split; [intros [<- ?]|intros [-> ?]]; auto.
  - rewrite <- !list_fmap_compose. apply list_fmap_ext. intros _ [a [k]] _. reflexivity.
Qed.

(** The outputs of a transaction as coinbase outputs. *)
Definition coinbase_outputs_of (os : list tx_out) : list coinbase_output :=
  (fun o => Build_coinbase_output (amount o) (out_key o)) <$> os.

Lemma zip_coinbase_outputs os :
  zip_with Build_coinbase_output (amount <$> os) (out_key <$> os) = coinbase_outputs_of os.
Proof. induction os as [|o os IH]; cbn; [reflexivity|]. now rewrite IH. Qed.

Lemma coinbase_outputs_amounts os : co_amount <$> coinbase_outputs_of os = amount <$> os.
Proof. unfold coinbase_outputs_of. rewrite <- list_fmap_compose. reflexivity. Qed.

Lemma maybe_coinbase_tx_iff tx c :
  Forall (fits 64) (amount <$> vout (prefix tx)) -> Z.of_nat (length (vout (prefix tx))) < 2 ^ 64 ->
  maybe_coinbase_tx tx = Some c <->
  version (prefix tx) = 2 /\ type (basic (ringct tx)) = RCTTypeNull /\ vin (prefix tx) = [txin_gen (cb_height c)] /\
  Forall safe (out_key <$> vout (prefix tx)) /\ sumZ (amount <$> vout (prefix tx)) < 2 ^ 64 /\
  unlock_height (prefix tx) = get_coinbase_unlock_height (cb_height c) /\
  c = {| cb_unlock_height := unlock_height (prefix tx); cb_extra := extra (prefix tx); cb_height := cb_height c;
         cb_outputs := coinbase_outputs_of (vout (prefix tx)) |}.
Proof using SL.
  intros Ha Hl. unfold maybe_coinbase_tx, rule_22_coinbase_tx_should_have_only_one_input,
    rule_20_coinbase_outputs_are_locked_for_60_blocks. split.
  - destruct (Z.eqb_spec (version (prefix tx)) 2); [|discriminate].
    destruct (Z.eqb_spec (type (basic (ringct tx))) RCTTypeNull); [|discriminate]. cbn [negb].
    destruct (vin (prefix tx)) as [|[h|k] [|]]; try discriminate. cbn [length Nat.eqb head mbind option_bind].
    intros E. apply bind_Some in E as (h' & [= <-] & E).
    apply bind_Some in E as (ks & (-> & Hs)%check_tx_output_points_iff & E).
    apply bind_Some in E as (r & [_ Hr]%rule_24_exact & E); [|assumption|now rewrite length_fmap].
    destruct (Z.eqb_spec (h ⊞ get_coinbase_unlock_time) (unlock_height (prefix tx))) as [Hu|]; [|discriminate].
    injection E as <-. cbn [cb_height]. rewrite zip_coinbase_outputs. auto 10.
  - intros (-> & -> & -> & Hs & Hr & Hu & Hc). cbn [negb length Nat.eqb head mbind option_bind cb_height
      rule_23_coinbase_tx_input_type_should_be_gen Z.eqb Pos.eqb].
    rewrite (proj2 (check_tx_output_points_iff tx _)) by eauto. cbn [mbind option_bind].
    rewrite (proj2 (rule_24_exact _ (sumZ (amount <$> vout (prefix tx))) Ha ltac:(now rewrite length_fmap))) by auto.
    cbn [mbind option_bind]. unfold get_coinbase_unlock_height in Hu. rewrite <- Hu, !Z.eqb_refl. cbn [negb].
    rewrite zip_coinbase_outputs. f_equal. symmetry. exact Hc.
Qed.

End Accepted.

(** The coinbase check is exact.  A parsed transaction is accepted as a
    coinbase transaction precisely when it has version 2, no ring-CT data, one
    input, which is a generation input, output keys that are non-identity elements
    of the prime-order group, amounts that sum below 2^64, and the unlock height 60
    blocks above its height; and the result repeats its fields unchanged. *)
Theorem coinbase_check_exact `{SodiumLaws} (tx : transaction) (c : coinbase_tx) :
  Forall (fits 64) (amount <$> vout (prefix tx)) -> Z.of_nat (length (vout (prefix tx))) < 2 ^ 64 ->
  maybe_coinbase_tx tx = Some c <->
  version (prefix tx) = 2 /\ type (basic (ringct tx)) = RCTTypeNull /\ vin (prefix tx) = [txin_gen (cb_height c)] /\
  Forall safe (out_key <$> vout (prefix tx)) /\ sumZ (amount <$> vout (prefix tx)) < 2 ^ 64 /\
  unlock_height (prefix tx) = get_coinbase_unlock_height (cb_height c) /\
  c = {| cb_unlock_height := unlock_height (prefix tx); cb_extra := extra (prefix tx); cb_height := cb_height c;
         cb_outputs := coinbase_outputs_of (vout (prefix tx)) |}.
Proof. apply maybe_coinbase_tx_iff. Qed.

(** C12: An accepted miner transaction creates exactly the block reward and the
    fees.  When both miner-transaction checks pass for a block at a height with the
    coins generated so far within the supply, and the fees fit beside the reward in
    64 bits, the outputs of the miner transaction sum, as integers, to the reward
    plus the fees: the wrapping sum of the balance rule cannot hide a larger total. *)
Theorem miner_tx_creates_reward_plus_fee `{SodiumLaws} (b : block) (height weight fee coins : Z) (c c' : coinbase_tx) :
  Forall (fits 64) (amount <$> vout (prefix (miner_tx b))) ->
  Z.of_nat (length (vout (prefix (miner_tx b)))) < 2 ^ 64 ->
  0 <= coins <= get_money_supply -> 0 <= fee -> get_block_reward coins + fee < 2 ^ 64 ->
  prevalidate_miner_transaction b height = Some c ->
  validate_miner_transaction height c weight fee coins = Some c' ->
  sumZ (amount <$> vout (prefix (miner_tx b))) = get_block_reward coins + fee /\
  vin (prefix (miner_tx b)) = [txin_gen height] /\ weight <= Z.max (128 * 1024) height.
Proof.
  intros Ha Hl Hc Hf Hrf Hp Hv. unfold prevalidate_miner_transaction, validate_miner_transaction in *.
  destruct (height =? 0); [discriminate|]. apply bind_Some in Hp as (c0 & Hc0 & Hp).
  destruct (Z.eqb_spec (cb_height c0) height) as [<-|]; [|discriminate]. injection Hp as ->.
  apply maybe_coinbase_tx_iff in Hc0 as (_ & _ & Hvin & _ & Hsum & _ & Hc0%(f_equal cb_outputs)); [|assumption|assumption].
  cbn [cb_outputs] in Hc0. destruct (is_block_size_valid (cb_height c) weight) eqn:Hw; [|discriminate].
  destruct (rule_19_coinbase_tx_should_be_balanced _ fee coins) eqn:E; [|discriminate].
  unfold rule_19_coinbase_tx_should_be_balanced in E. rewrite Hc0, coinbase_outputs_amounts in E. to_prop.
  pose proof (get_block_reward_bounds coins Hc) as Hr.
  assert (Hs : 0 <= sumZ (amount <$> vout (prefix (miner_tx b))))
    by (apply sumZ_nonneg; eapply Forall_impl; [exact Ha|]; unfold fits; lia).
  rewrite foldl_u64_add, wrap_small, u64_add_small in E by (unfold fits; lia).
  split; [lia|]. split; [assumption|]. unfold is_block_size_valid, rule_6_block_size_should_be_bounded_by_height in Hw.
  to_prop. exact Hw.
Qed.

Section Examples.
Import ModelGroup RollingDigest.

Definition no_rct : rctData :=
  {| basic := {| type := 0; message := null_hash; decoys := []; ecdh_encrypted_data := []; output_commits := []; fee := 0 |};
     p := {| bulletproofs := []; CLSAGs := []; pseudo_input_commits := [] |} |}.

Definition example_coinbase : transaction :=
  {| prefix := {| version := 2; unlock_height := 67; vin := [txin_gen 7];
                  vout := [ {| amount := 3509521484375; target := txout_to_key (to_pk 5) |};
                            {| amount := 100; target := txout_to_key (to_pk 9) |} ]; extra := [] |};
     ringct := no_rct |}.

Definition example_block : block :=
  {| header := {| major_version := 1; minor_version := 1; timestamp := 9; prev_id := null_hash; nonce := 3 |};
     miner_tx := example_coinbase; tx_hashes := [] |}.

Definition example_checked : coinbase_tx :=
  {| cb_unlock_height := 67; cb_extra := []; cb_height := 7;
     cb_outputs := coinbase_outputs_of (vout (prefix example_coinbase)) |}.

Lemma coinbase_check_exact_witness : maybe_coinbase_tx example_coinbase = Some example_checked.
Proof.
  refine (proj2 (coinbase_check_exact example_coinbase example_checked _ _) _).
  - constructor; [|constructor; [|constructor]]; vm_compute; split; congruence.
  - vm_compute; reflexivity.
  - split; [reflexivity|]. split; [reflexivity|]. split; [reflexivity|].
    split; [constructor; [|constructor; [|constructor]]; vm_compute; reflexivity|].
    split; [vm_compute; reflexivity|]. split; [vm_compute; reflexivity|reflexivity].
Defined.

Lemma miner_tx_creates_reward_plus_fee_witness :
  sumZ (amount <$> vout (prefix (miner_tx example_block))) = get_block_reward 0 + 100 /\
  vin (prefix (miner_tx example_block)) = [txin_gen 7] /\ 2000 <= Z.max (128 * 1024) 7.
Proof.
  apply (miner_tx_creates_reward_plus_fee example_block 7 2000 100 0 example_checked example_checked).
  - constructor; [|constructor; [|constructor]]; vm_compute; split; congruence.
  - vm_compute; reflexivity.
  - vm_compute; split; congruence.
  - lia.
  - vm_compute; reflexivity.
  - vm_compute; reflexivity.
  - vm_compute; reflexivity.
Defined.

End Examples.

End Coinbase.
