(* ===== verification/FormatUtils.v ===== *)
(** Blobs, hashes and scanning of transactions and blocks
    ([src/src/cryptonote/basic/functional/format_utils.cpp] and [.hpp]). *)

From stdpp Require Import gmap sorting.
From S2P Require Import Prelude Hash Config Varint TreeHash Serialization Primality Group ModelGroup Key RctOps VectorOps InnerProduct Bulletproof Clsag RctTypes TxTypes Consensus Coinbase.

Module FormatUtils.
Import Config Varint Archive Key RctOps RctTypes TxTypes Consensus Coinbase.

(** [keypair], [subaddress_receive_info] *)
Record keypair := { sec : secret_key; pub : public_key }.
Record subaddress_receive_info := { ri_index : subaddress_index; ri_tx_output_shared_secret : ecdh_shared_secret }.

Section Scanning.
Context `{Sha3} `{Sodium}.

Definition check_output_for_subaddresses (subaddresses : gmap public_key subaddress_index)
    (tx_output_public_key : public_key) (tx_output_shared_secret : ecdh_shared_secret) (output_index : Z)
    : option subaddress_receive_info :=
  spend_pk_1 ← compute_subaddress_spend_pk_from_output_public_key
                 tx_output_shared_secret output_index tx_output_public_key;
  found_1 ← subaddresses !! spend_pk_1;
  Some {| ri_index := found_1; ri_tx_output_shared_secret := tx_output_shared_secret |}.

Definition derive_output_key_pair_and_key_image (account_keys : spend_view_secret_keys) (out_key : public_key)
    (recv_tx_output_shared_secret : ecdh_shared_secret) (real_output_index : Z)
    (received_index : subaddress_index) : option (keypair * key_image) :=
  let spend_sk := get_subaddress_spend_secret_key account_keys received_index in
  let output_secret_key :=
    compute_output_secret_key_from_subaddress_spend_sk recv_tx_output_shared_secret real_output_index spend_sk in
  let output_key_pair := {| sec := output_secret_key; pub := to_pk output_secret_key |} in
  if negb (pub output_key_pair =? out_key) then None else
  let ki := derive_key_image (sec output_key_pair) in
  Some (output_key_pair, ki).

Definition derive_with_internal_checking_output_key_pair_and_key_image (ack : spend_view_secret_keys)
    (subaddresses : gmap public_key subaddress_index) (out_key : public_key) (tx_public_key : option public_key)
    (output_public_keys : list public_key) (real_output_index : Z) : option (keypair * key_image) :=
  let output_shared_secret :=
    if (real_output_index >=? 0) && (real_output_index <? Z.of_nat (length output_public_keys))
    then Some (derive_tx_output_ecdh_shared_secret
                 (nth (Z.to_nat real_output_index) output_public_keys 0) (m_view_secret_key ack))
    else match tx_public_key with
         | Some k => Some (derive_tx_output_ecdh_shared_secret k (m_view_secret_key ack))
         | None => None
         end in
  secret ← output_shared_secret;
  recv ← check_output_for_subaddresses subaddresses out_key secret real_output_index;
  derive_output_key_pair_and_key_image ack out_key (ri_tx_output_shared_secret recv) real_output_index (ri_index recv).

Definition encrypt_key (key : secret_key) (passphrase : blob) : secret_key := key +ₛ hash_to_scalar passphrase.
Definition decrypt_key (key : secret_key) (passphrase : blob) : secret_key := key -ₛ hash_to_scalar passphrase.

End Scanning.

(** ** Blobs and hashes *)

Section Blobs.
Context `{Sha3} `{UndefinedShift}.

Definition maybe_to_blob {A} (c : archived A) (to : A) : option blob := dump_binary c to.

(** [t_serializable_object_to_blob] throws. *)
Definition t_serializable_object_to_blob {A} (c : archived A) (to : A) : result blob :=
  match maybe_to_blob c to with Some b => Returns b | None => Throws end.

Definition maybe_from_blob {A} (c : archived A) (b : blob) : option A := parse_binary c b.

Definition get_blob_hash (b : blob) : hash := sha3 b.

Definition get_object_hash {A} (c : archived A) (o : A) : result hash :=
  b ← t_serializable_object_to_blob c o; Returns (get_blob_hash b).

(** Saving does not look at what the object held before. *)
Definition tx_archive (t : transaction) : archived transaction := serialize_transaction (ringct t).

Definition tx_to_blob (t : transaction) : result blob := t_serializable_object_to_blob (tx_archive t) t.

Definition block_to_blob (b : block) : result blob :=
  t_serializable_object_to_blob (serialize_block (ringct (miner_tx b))) b.

Definition get_transaction_prefix_hash (t : transaction) : result hash :=
  bd ← t_serializable_object_to_blob serialize_tx_prefix (prefix t); Returns (sha3 bd).

(** The members [prefix_size] and [prefix_and_ringct_basic_size] that saving the
    transaction leaves, [unsigned int]; the second one stays as it was ([cached])
    when there is no input. *)
Definition serialized_sizes (t : transaction) (cached : Z) : option (Z * Z) :=
  b ← save serialize_tx_prefix (prefix t);
  let prefix_size := wrap 32 (Z.of_nat (length b)) in
  if version (prefix t) =? 1 then Some (prefix_size, prefix_size) else
  match vin (prefix t) with
  | [] => Some (prefix_size, cached)
  | _ =>
    r ← save (serialize_rctsig_base (basic (ringct t)) (length (vin (prefix t))) (length (vout (prefix t))))
          (basic (ringct t));
    Some (prefix_size, wrap 32 (Z.of_nat (length b + length r)))
  end.

Definition calculate_transaction_prunable_hash (t : transaction) (prefix_and_ringct_basic_size : Z) (b : blob)
    : result hash :=
  _ ← throw_if (version (prefix t) =? 1);
  _ ← throw_unless (prefix_and_ringct_basic_size <=? Z.of_nat (length b));
  Returns (get_blob_hash (drop (Z.to_nat prefix_and_ringct_basic_size) b)).

(** [std::string::substr] throws beyond the end; the count is an [unsigned int]. *)
Definition substr (pos count : Z) (b : blob) : result blob :=
  _ ← throw_unless (pos <=? Z.of_nat (length b));
  Returns (take (Z.to_nat count) (drop (Z.to_nat pos) b)).

Definition get_transaction_hash (t : transaction) (cached : Z) : result hash :=
  if version (prefix t) =? 1 then get_object_hash (tx_archive t) t else
  h0 ← get_transaction_prefix_hash t;
  b ← tx_to_blob t;
  match serialized_sizes t cached with
  | None => Throws
  | Some (prefix_size, prefix_and_ringct_basic_size) =>
    (* an inconsistency of the sizes is only logged *)
    s ← substr prefix_size (wrap 32 (prefix_and_ringct_basic_size - prefix_size)) b;
    h2 ← (if type (basic (ringct t)) =? RCTTypeNull then Returns null_hash
          else calculate_transaction_prunable_hash t prefix_and_ringct_basic_size b);
    Returns (sha3 (h0 ++ get_blob_hash s ++ h2))
  end.

Definition get_tx_tree_hash (tx_hashes : list hash) : result hash :=
  r ← TreeHash.tree_hash tx_hashes;
  Returns (match r with Some h => h | None => null_hash end).

Definition get_block_tx_tree_hash (b : block) (cached : Z) : result hash :=
  h ← get_transaction_hash (miner_tx b) cached;
  get_tx_tree_hash (h :: tx_hashes b).

Definition get_transaction_weight (t : transaction) : result Z :=
  b ← tx_to_blob t; Returns (Z.of_nat (length b)).

Definition get_tx_fee (t : transaction) : Z := fee (basic (ringct t)).

Definition get_mining_blob_tail (b : block) (cached : Z) : result blob :=
  tree_root_hash ← get_block_tx_tree_hash b cached;
  Returns (tree_root_hash ++ get_varint_data (Z.of_nat (length (tx_hashes b)) ⊞ 1)).

Definition get_mining_blob_head (b : block) : result blob :=
  t_serializable_object_to_blob serialize_block_header (header b).

Definition get_mining_blob (b : block) (cached : Z) : result blob :=
  h ← get_mining_blob_head b; t ← get_mining_blob_tail b cached; Returns (h ++ t).

(** [do_serialize] of a string: its size and its bytes ([string.h]). *)
Definition serialize_string (s : blob) : blob := write_varint (Z.of_nat (length s)) ++ s.

Definition get_block_hash (b : block) (cached : Z) : result hash :=
  s ← get_mining_blob b cached; Returns (get_blob_hash (serialize_string s)).

Definition get_mining_hash (b : block) (cached : Z) : result hash :=
  s ← get_mining_blob b cached; Returns (sha3 s).

(** ** Parsing *)

Definition expand_transaction (t : transaction) : option transaction :=
  if version (prefix t) <? 2 then Some t else
  if is_coinbase t then Some t else
  let rv := ringct t in
  if type (basic rv) =? RCTTypeNull then Some t else
  if negb (length (output_commits (basic rv)) =? length (vout (prefix t)))%nat then None else
  match maybeSizeCheckedRctData rv with None => None | Some _ => Some t end.

(** [init] is the fresh object's ring-CT data. *)
Definition maybe_tx_from_blob (init : rctData) (tx_blob : blob) : option transaction :=
  t ← maybe_from_blob (serialize_transaction init) tx_blob;
  expand_transaction t.

(** [serialize_noeof] *)
Definition maybe_tx_prefix_from_blob (tx_blob : blob) : option transaction_prefix :=
  fst <$> load serialize_tx_prefix tx_blob.

Definition maybe_block_from_blob (init : rctData) (b_blob : blob) : option block :=
  maybe_from_blob (serialize_block init) b_blob.

End Blobs.

(** ** Checks and amounts *)

Section Amounts.
Context `{Sodium}.

Definition get_block_height (b : block) : Z :=
  if negb (is_coinbase (miner_tx b)) then 0 else
  match vin (prefix (miner_tx b)) with txin_gen h :: _ => h | _ => 0 end.

Definition check_inputs_types_supported (t : transaction) : bool :=
  forallb (fun i => match i with txin_from_key _ => true | _ => false end) (vin (prefix t)).

Definition check_outs_valid (t : transaction) : bool :=
  match are_tx_output_targets_valid (target <$> vout (prefix t)) with
  | None => false
  | Some targets =>
    if negb (forallb (fun o => negb (version (prefix t) =? 1) || (0 <? amount o)) (vout (prefix t))) then false else
    match rule_11_tx_output_public_keys_should_be_safe_points targets with Some _ => true | None => false end
  end.

Definition check_output_amount_sum_overflow (t : transaction) : bool :=
  match rule_24_coinbase_output_amount_sum_should_not_overflow_amount_t (amount <$> vout (prefix t)) with
  | Some _ => true | None => false end.

Definition get_tx_outputs_money_amount (t : transaction) : Z :=
  foldl (fun a o => a ⊞ amount o) 0 (vout (prefix t)).

Definition get_inputs_money_amount (t : transaction) : Z :=
  foldl u64_add 0 ((fun i => match i with txin_from_key x => in_amount x | _ => 0 end) <$> vin (prefix t)).

End Amounts.

(** ** Ring offsets *)

Fixpoint absolute_loop (prev : Z) (off : list Z) : list Z :=
  match off with
  | [] => []
  | x :: off' => let y := x ⊞ prev in y :: absolute_loop y off'
  end.

Definition relative_output_offsets_to_absolute (off : list Z) : list Z :=
  match off with [] => [] | x :: off' => x :: absolute_loop x off' end.

(** The backward loop subtracts from each element the one before it, which it has
    not changed yet. *)
Fixpoint relative_loop (prev : Z) (off : list Z) : list Z :=
  match off with
  | [] => []
  | x :: off' => (x ⊟ prev) :: relative_loop x off'
  end.

Definition absolute_output_offsets_to_relative (off : list Z) : list Z :=
  match merge_sort Z.le off with [] => [] | x :: off' => x :: relative_loop x off' end.

(** ** Ring offsets: proofs *)

Lemma absolute_relative_loop prev l :
  Forall (fits 64) l -> absolute_loop prev (relative_loop prev l) = l.
Proof.
  intros Hl. revert prev; induction Hl as [|x l Hx _ IH]; intros prev; cbn; [reflexivity|].
  assert (E : x ⊟ prev ⊞ prev = x).
  { unfold u64_add, u64_sub, wrap. rewrite Zplus_mod_idemp_l. replace (x - prev + prev) with x by lia. now apply wrap_small. }
  now rewrite E, IH.
Qed.

Lemma relative_absolute_loop prev l :
  Forall (fits 64) l -> relative_loop prev (absolute_loop prev l) = l.
Proof.
  intros Hl. revert prev; induction Hl as [|x l Hx _ IH]; intros prev; cbn; [reflexivity|].
  rewrite IH. f_equal. unfold u64_add, u64_sub, wrap. rewrite Zminus_mod_idemp_l.
  replace (x + prev - prev) with x by lia. now apply wrap_small.
Qed.

(** Without overflow the running sums are ordered as the increments order them. *)
Lemma absolute_loop_sorted (R : relation Z) prev l :
  Forall (fun x => fits 64 x /\ forall a, R a (a + x)) l ->
  0 <= prev -> prev + sumZ l < 2 ^ 64 -> Sorted R (prev :: absolute_loop prev l).
Proof.
  intros Hl. revert prev; induction Hl as [|x l [Hx HR] Hl IH]; intros prev Hp Hs; cbn [absolute_loop].
  - repeat constructor.
  - change (sumZ (x :: l)) with (x + sumZ l) in Hs. unfold fits in Hx.
    assert (0 <= sumZ l) by (apply sumZ_nonneg; eapply Forall_impl; [exact Hl|]; cbv beta; unfold fits; intros ? [? _]; lia).
    rewrite u64_add_small by (unfold fits; lia). constructor; [apply IH; lia|].
    constructor. rewrite Z.add_comm. apply HR.
Qed.

Lemma absolute_sorted (R : relation Z) off :
  Forall (fun x => fits 64 x) off -> Forall (fun x => forall a, R a (a + x)) (tail off) -> sumZ off < 2 ^ 64 ->
  Sorted R (relative_output_offsets_to_absolute off).
Proof.
  intros Hf Hr Hs. destruct off as [|x off]; cbn [relative_output_offsets_to_absolute tail] in *; [constructor|].
  apply Forall_cons in Hf as [Hx Hf]. change (sumZ (x :: off)) with (x + sumZ off) in Hs. unfold fits in Hx.
  apply absolute_loop_sorted; [now apply Forall_and|lia|assumption].
Qed.

Lemma merge_sort_sorted l : Sorted Z.le l -> merge_sort Z.le l = l.
Proof.
  intros Hl. apply (Sorted_unique Z.le); [|assumption|apply merge_sort_Permutation].
  apply Sorted_merge_sort. intros x y. lia.
Qed.

(** Ring offsets round trip.  Converting absolute output indices to relative
    offsets and back gives the indices in ascending order; converting relative
    offsets whose sum fits 64 bits to indices and back gives the offsets. *)
Theorem ring_offsets_roundtrip (off : list Z) :
  Forall (fits 64) off ->
  relative_output_offsets_to_absolute (absolute_output_offsets_to_relative off) = merge_sort Z.le off /\
  (sumZ off < 2 ^ 64 -> absolute_output_offsets_to_relative (relative_output_offsets_to_absolute off) = off).
Proof.
  intros Hf. split.
  - assert (Hs : Forall (fits 64) (merge_sort Z.le off)) by now rewrite merge_sort_Permutation.
    unfold absolute_output_offsets_to_relative. destruct (merge_sort Z.le off) as [|x l]; [reflexivity|].
    apply Forall_cons in Hs as [_ Hs]. cbn [relative_output_offsets_to_absolute]. now rewrite absolute_relative_loop.
  - intros Hsum. unfold absolute_output_offsets_to_relative. rewrite merge_sort_sorted.
    + destruct off as [|x off]; [reflexivity|]. apply Forall_cons in Hf as [_ Hf].
      cbn [relative_output_offsets_to_absolute]. now rewrite relative_absolute_loop.
    + apply absolute_sorted; [assumption| |assumption]. destruct off; [constructor|].
      apply Forall_cons in Hf as [_ Hf]. eapply Forall_impl; [exact Hf|]. unfold fits. intros; lia.
Qed.

(** Rule 7 makes ring members distinct.  When the relative offsets of an
    input pass rule 7 and their sum fits 64 bits, the absolute indices are strictly
    increasing, one per offset, so no output appears twice in the ring. *)
Theorem rule_7_ring_members_distinct (off : list Z) :
  Forall (fits 64) off -> sumZ off < 2 ^ 64 ->
  rule_7_ringct_input_decoys_offsets_should_not_be_zero_except_the_first_one off = true ->
  StronglySorted Z.lt (relative_output_offsets_to_absolute off) /\
  NoDup (relative_output_offsets_to_absolute off) /\
  length (relative_output_offsets_to_absolute off) = length off.
Proof.
  intros Hf Hs H7. assert (HS : StronglySorted Z.lt (relative_output_offsets_to_absolute off)).
  { apply Sorted_StronglySorted; [intros ?; lia|]. apply absolute_sorted; [assumption| |assumption].
    destruct off as [|x off]; [constructor|]. apply Forall_cons in Hf as [_ Hf]. cbn in *.
    rewrite forallb_forall in H7. apply Forall_forall. intros y Hy a.
    specialize (H7 y ltac:(now apply list_elem_of_In)). to_prop.
    rewrite Forall_forall in Hf. specialize (Hf y Hy). unfold fits in Hf. lia. }
  split; [assumption|]. split.
  - induction HS as [|x l _ IH Hx]; constructor; [|assumption]. intros Hin.
    rewrite Forall_forall in Hx. specialize (Hx x Hin). lia.
  - destruct off as [|x off]; [reflexivity|]. cbn. f_equal. clear. revert x.
    induction off as [|y off IH]; intros x; cbn; [reflexivity|]. now rewrite IH.
Qed.

(** ** Wallet keys *)

(** Wallet secrets encrypted with a passphrase decrypt to themselves. *)
Theorem key_encryption_roundtrip `{Sha3Laws} `{SodiumLaws} (key : secret_key) (passphrase : blob) :
  scalar_ok key ->
  scalar_ok (encrypt_key key passphrase) /\ decrypt_key (encrypt_key key passphrase) passphrase = key.
Proof.
  intros Hk. pose proof (hash_to_scalar_ok passphrase) as Hh. unfold encrypt_key, decrypt_key.
  assert (He : scalar_ok (key +ₛ hash_to_scalar passphrase)) by auto with machine.
  split; [assumption|]. apply eqL_scalar; [auto with machine|assumption|].
  rewrite scalar_sub_eqL, scalar_add_eqL by assumption. apply eq_eqL. ring.
Qed.

(** What the sender publishes for an output to the address with [index]: the
    transaction key for the main address, a key made from the spend key for a
    subaddress. *)
Definition published_key `{Sodium} (index : subaddress_index) (address : spend_view_public_keys) (r : secret_key)
    : public_key :=
  if is_zero index then to_pk r else m_spend_public_key address ^ₚ r.

Section Receiving.
Context `{HL : Sha3Laws} `{SL : SodiumLaws}.

Lemma receiver_secret keys index r :
  secret_ok (m_spend_secret_key keys) -> secret_ok (m_view_secret_key keys) -> secret_ok r ->
  get_subaddress_spend_secret_key keys index <> 0 ->
  derive_tx_output_ecdh_shared_secret (published_key index (get_subaddress keys index) r) (m_view_secret_key keys) =
  derive_tx_output_ecdh_shared_secret (m_view_public_key (get_subaddress keys index)) r.
Proof using HL SL.
  intros Hs Hv Hr Hd. unfold published_key. destruct (is_zero index) eqn:Hi.
  - cbn [get_subaddress m_view_public_key]. unfold get_subaddress_view_public_key, get_subaddress_view_secret_key_base_G.
    rewrite Hi. symmetry. now apply shared_secret_agree.
  - symmetry. now apply subaddress_secret_agree.
Qed.

End Receiving.

(** The wallet finds and can spend what is sent to it.  For a payment to any
    of its addresses, made with a transaction secret [r] as the [i]-th output, the
    scanning code derives, from the published key and its own view key, the secret
    key of exactly the output key the sender computed, together with the key
    image. *)
Theorem wallet_finds_its_output `{Sha3Laws} `{SodiumLaws} (keys : spend_view_secret_keys) (index : subaddress_index)
    (subaddresses : gmap public_key subaddress_index) (r : secret_key) (i : nat) (tx_public_key : option public_key)
    (output_public_keys : list public_key) :
  let address := get_subaddress keys index in
  let shared := derive_tx_output_ecdh_shared_secret (m_view_public_key address) r in
  let spend_sk := get_subaddress_spend_secret_key keys index in
  let x := compute_output_secret_key_from_subaddress_spend_sk shared (Z.of_nat i) spend_sk in
  secret_ok (m_spend_secret_key keys) -> secret_ok (m_view_secret_key keys) -> secret_ok r ->
  spend_sk <> 0 -> secret_ok (hash_tx_output_shared_secret_to_scalar shared (Z.of_nat i)) -> x <> 0 ->
  subaddresses !! m_spend_public_key address = Some index ->
  output_public_keys !! i = Some (published_key index address r) ->
  exists out_key,
    compute_output_public_key_from_subaddress_spend_pk shared (Z.of_nat i) (m_spend_public_key address) = Some out_key /\
    derive_with_internal_checking_output_key_pair_and_key_image keys subaddresses out_key tx_public_key
      output_public_keys (Z.of_nat i) = Some ({| sec := x; pub := out_key |}, derive_key_image x) /\
    to_pk x = out_key.
Proof.
  intros address shared spend_sk x Hs Hv Hr Hd Hh Hx Hsub Hpub.
  assert (Hsk : secret_ok spend_sk) by (split; [now apply subaddress_spend_ok|assumption]).
  destruct (output_key_recovered shared (Z.of_nat i) spend_sk Hsk Hh Hx) as [Ho Hb].
  exists (to_pk x). split; [exact Ho|]. split; [|reflexivity].
  unfold derive_with_internal_checking_output_key_pair_and_key_image.
  pose proof (lookup_lt_Some _ _ _ Hpub) as Hlt. rewrite (proj2 (Z.geb_le _ _)), (proj2 (Z.ltb_lt _ _)) by lia.
  cbn [andb]. rewrite Nat2Z.id, (nth_lookup_Some _ _ _ _ Hpub). cbn [mbind option_bind].
  unfold address. rewrite receiver_secret by assumption. fold address shared.
  unfold check_output_for_subaddresses. fold x in Hb. rewrite Hb. cbn [mbind option_bind].
  change (to_pk spend_sk) with (m_spend_public_key address). rewrite Hsub.
  cbn [mbind option_bind ri_index ri_tx_output_shared_secret]. unfold derive_output_key_pair_and_key_image.
  cbn [pub sec]. fold spend_sk x. now rewrite Z.eqb_refl.
Qed.

(** ** The blob of a transaction *)

(** Saving does not depend on what an object held before loading. *)
Lemma save_rctsig_base_init i j inputs outputs x :
  save (serialize_rctsig_base i inputs outputs) x = save (serialize_rctsig_base j inputs outputs) x.
Proof.
  unfold serialize_rctsig_base. cbn [save serialize_as serialize_dep fst snd].
  destruct (type x =? RCTTypeNull); [reflexivity|]. destruct (negb (type x =? RCTTypeCLSAG)); reflexivity.
Qed.

Lemma save_each_ext {A} (cs ds : list (archived A)) v :
  Forall2 (fun c d => forall x, save c x = save d x) cs ds -> save_each cs v = save_each ds v.
Proof.
  intros HF. revert v; induction HF as [|c d cs ds Hcd _ IH]; intros [|x v]; cbn [save_each]; try reflexivity.
  now rewrite Hcd, IH.
Qed.

Lemma length_resize {A} n (d : A) l : length (resize n d l) = n.
Proof. unfold resize. rewrite length_app, length_take, length_replicate. lia. Qed.

Lemma save_prunable_init `{UndefinedShift} i j t inputs outputs mixin x :
  save (serialize_ringct_prunable i t inputs outputs mixin) x =
  save (serialize_ringct_prunable j t inputs outputs mixin) x.
Proof.
  unfold serialize_ringct_prunable. repeat case_match; try reflexivity.
  cbn [save serialize_as serialize_pair serialize_custom_vector fst snd].
  rewrite (save_each_ext _ (serialize_clsag (Z.to_nat mixin) <$> resize inputs no_clsag (CLSAGs j))); [reflexivity|].
  apply Forall2_fmap. apply Forall2_same_length_lookup_2; [now rewrite !length_resize|]. reflexivity.
Qed.

Lemma save_transaction_init `{UndefinedShift} i j x :
  save (serialize_transaction i) x = save (serialize_transaction j) x.
Proof.
  unfold serialize_transaction, serialize_tx_ringct. cbn [save serialize_as serialize_dep fst snd].
  destruct (version (prefix x) =? 1); [reflexivity|]. destruct (vin (prefix x)) eqn:Ev; [reflexivity|].
  cbn [save serialize_as serialize_dep fst snd]. rewrite (save_rctsig_base_init _ (basic j)).
  destruct (negb (type (basic (ringct x)) =? RCTTypeNull)); [|reflexivity].
  now rewrite (save_prunable_init _ (p j)).
Qed.

Lemma save_block_init `{UndefinedShift} i j x : save (serialize_block i) x = save (serialize_block j) x.
Proof.
  unfold serialize_block. cbn [save serialize_as serialize_pair fst snd].
  now rewrite (save_transaction_init i j).
Qed.

Section BlobRoundTrip.
Context `{UndefinedShift}.

Lemma tx_blob init t :
  wf (serialize_transaction init) t ->
  exists b, tx_to_blob t = Returns b /\ bytes_ok b /\ maybe_from_blob (serialize_transaction init) b = Some t.
Proof.
  intros Hw. destruct (save_load t Hw) as (b & E & B & Lb). exists b.
  unfold tx_to_blob, t_serializable_object_to_blob, maybe_to_blob, dump_binary, tx_archive.
  rewrite (save_transaction_init _ init), E. split; [reflexivity|]. split; [assumption|].
  unfold maybe_from_blob, parse_binary. specialize (Lb []). rewrite app_nil_r in Lb. now rewrite Lb.
Qed.

Lemma block_blob init b :
  wf (serialize_block init) b ->
  exists l, block_to_blob b = Returns l /\ bytes_ok l /\ maybe_block_from_blob init l = Some b.
Proof.
  intros Hw. destruct (save_load b Hw) as (l & E & B & Lb). exists l.
  unfold block_to_blob, t_serializable_object_to_blob, maybe_to_blob, dump_binary.
  rewrite (save_block_init _ init), E. split; [reflexivity|]. split; [assumption|].
  unfold maybe_block_from_blob, maybe_from_blob, parse_binary. specialize (Lb []). rewrite app_nil_r in Lb. now rewrite Lb.
Qed.

End BlobRoundTrip.

(** C29: Transactions round trip through blobs.  Every transaction with members in
    the ranges of their types and vector sizes that fit together serializes without
    an exception, and the blob parses to the same transaction (into an object that
    agrees on the members that are not serialized: the message, the decoys and the
    key images); conversely every transaction the parser accepts from bytes is such
    a transaction, so it serializes again and parses to itself. *)
Theorem transaction_blob_roundtrip `{UndefinedShift} (init : rctData) :
  (forall t, wf (serialize_transaction init) t ->
     exists b, tx_to_blob t = Returns b /\ maybe_from_blob (serialize_transaction init) b = Some t) /\
  (forall l t, bytes_ok l -> maybe_from_blob (serialize_transaction init) l = Some t ->
     exists b, tx_to_blob t = Returns b /\ maybe_from_blob (serialize_transaction init) b = Some t).
Proof.
  assert (Hw : forall t, wf (serialize_transaction init) t ->
    exists b, tx_to_blob t = Returns b /\ maybe_from_blob (serialize_transaction init) b = Some t).
  { intros t Ht. destruct (tx_blob init t Ht) as (b & ? & _ & ?). eauto. }
  split; [exact Hw|]. intros l t Hl E. apply Hw. now apply (parse_wf _ l).
Qed.

(** Blocks round trip through blobs in the same sense. *)
Theorem block_blob_roundtrip `{UndefinedShift} (init : rctData) :
  (forall b, wf (serialize_block init) b ->
     exists l, block_to_blob b = Returns l /\ maybe_block_from_blob init l = Some b) /\
  (forall l b, bytes_ok l -> maybe_block_from_blob init l = Some b ->
     exists l', block_to_blob b = Returns l' /\ maybe_block_from_blob init l' = Some b).
Proof.
  assert (Hw : forall b, wf (serialize_block init) b ->
    exists l, block_to_blob b = Returns l /\ maybe_block_from_blob init l = Some b).
  { intros b Hb. destruct (block_blob init b Hb) as (l & ? & _ & ?). eauto. }
  split; [exact Hw|]. intros l b Hl E. apply Hw. now apply (parse_wf _ l).
Qed.

(** ** What the parser returns *)

Definition typed_input (i : txin_v) : Prop :=
  match i with
  | txin_gen h => fits 64 h
  | txin_from_key x => fits 64 (in_amount x) /\ Forall (fits 64) (output_relative_offsets x) /\ fits 256 (output_key_image x)
  end.
Definition typed_output (o : tx_out) : Prop := fits 64 (amount o) /\ let '(txout_to_key k) := target o in fits 256 k.
Definition typed_prefix (t : transaction_prefix) : Prop :=
  fits 64 (version t) /\ version t <> 0 /\ fits 64 (unlock_height t) /\ Forall typed_input (vin t) /\ Forall typed_output (vout t) /\ bytes_ok (extra t).

(** The vectors of the ring-CT data have the sizes that the prefix asks for. *)
Record typed_ringct `{UndefinedShift} (t : transaction_prefix) (rv : rctDataSizeChecked) : Prop := {
  tr_type : type (sc_basic rv) = RCTTypeCLSAG;
  tr_fee : fits 64 (fee (sc_basic rv));
  tr_amounts : length (ecdh_encrypted_data (sc_basic rv)) = length (vout t) /\ Forall (fits 64) (ecdh_encrypted_data (sc_basic rv));
  tr_commits : length (output_commits (sc_basic rv)) = length (vout t) /\ Forall (fits 256) (output_commits (sc_basic rv));
  tr_proof : wf serialize_bulletproof (sc_bulletproof rv) /\ Z.of_nat (length (vout t)) <= n_bulletproof_max_commit_size (sc_bulletproof rv);
  tr_pseudo : length (sc_pseudo_input_commits rv) = length (vin t) /\ Forall (fits 256) (sc_pseudo_input_commits rv);
  tr_signatures : length (sc_CLSAGs rv) = length (vin t) /\
    Forall (fun c => Z.of_nat (length (u_s c)) = mixin_of (vin t) + 1 /\ Forall (fits 256) (u_s c) /\ fits 256 (u_c1 c)) (sc_CLSAGs rv) }.

Lemma prefix_typed t : wf serialize_tx_prefix t -> typed_prefix t.
Proof.
  intros ([Hv Hv0] & Hu & [Hi _] & [Ho _] & [He _]). cbn in *. to_prop. split_and!; auto.
  - eapply Forall_impl; [exact Hi|]. intros [h|x]; [easy|]. intros (Ha & [Hr _] & Hk). now split_and!.
Qed.

Lemma Forall2_replicate_wf {A} (c : archived A) n v : Forall2 wf (replicate n c) v -> length v = n /\ Forall (wf c) v.
Proof. intros Hv. pose proof (Forall2_length _ _ _ Hv) as Hl. rewrite length_replicate in Hl. split; [easy|]. revert v Hl Hv. induction n; intros [|x v] Hl Hv; inversion Hv; subst; constructor; auto. Qed.

Lemma ringct_typed `{UndefinedShift} init t r : version t <> 1 -> vin t <> [] -> wf (serialize_tx_ringct init t) r ->
  type (basic r) = RCTTypeNull \/ exists rv, r = toRctData rv /\ typed_ringct t rv /\ maybeSizeCheckedRctData r = Some rv.
Proof.
  intros Hv Hi. unfold serialize_tx_ringct. rewrite (proj2 (Z.eqb_neq _ _)) by assumption. destruct (vin t) as [|i0 ins] eqn:Ei; [congruence|]. rewrite <- Ei. clear Hi.
  destruct r as [b q]. intros [Hb Hq]. cbn [fst snd basic p] in *. destruct Hb as [Ht Hb]. cbn [fst snd] in *.
  destruct (Z.eqb_spec (type b) RCTTypeNull) as [|Hn]; [now left|right]. cbn [negb] in Hq.
  destruct (Z.eqb_spec (type b) RCTTypeCLSAG) as [Hc|Hc]; [|destruct Hb]. cbn [negb] in Hb.
  destruct Hb as (Hfee & Hecdh & Hcom & _). cbn [fst snd] in *. apply Forall2_replicate_wf in Hecdh, Hcom.
  unfold serialize_ringct_prunable in Hq. rewrite (proj2 (Z.eqb_neq _ _)), (proj2 (Z.eqb_eq _ _)) in Hq by assumption.
  destruct (_ >=? _); [destruct Hq|]. destruct (_ >=? _); [destruct Hq|]. destruct (mixin_of (vin t) >=? _) eqn:Hmix; [destruct Hq|]. cbn [negb] in Hq.
  destruct Hq as ([(Hone & _ & Hbp) Hcov] & Hsig & Hps). cbn [fst snd] in *. apply Forall2_replicate_wf in Hps.
  destruct (bulletproofs q) as [|proof [|? ?]] eqn:Ebp; try discriminate. apply Forall_cons in Hbp as [Hbp _].
  exists {| sc_basic := b; sc_bulletproof := proof; sc_CLSAGs := CLSAGs q; sc_pseudo_input_commits := pseudo_input_commits q |}.
  assert (Hs : length (CLSAGs q) = length (vin t) /\ Forall (fun c => Z.of_nat (length (u_s c)) = mixin_of (vin t) + 1 /\ Forall (fits 256) (u_s c) /\ fits 256 (u_c1 c)) (CLSAGs q)).
  { pose proof (Forall2_length _ _ _ Hsig) as Hl. rewrite length_fmap, length_resize in Hl. split; [easy|].
    apply Forall_lookup. intros k x Hk. destruct (Forall2_lookup_r _ _ _ _ _ Hsig Hk) as (c & Hc' & Hx). apply list_lookup_fmap_Some in Hc' as (c0 & -> & _).
    destruct Hx as (Hx1 & Hx2 & _). cbn [fst snd] in *.
    apply Forall2_replicate_wf in Hx1 as [Hl1 Hx1]. split_and!; auto. rewrite Hl1. assert (0 <= mixin_of (vin t)); [|lia].
    rewrite Ei. cbn. destruct i0; [lia|apply u64_sub_fits]. }
  split; [destruct q; cbn in *; subst; reflexivity|]. split; [split; cbn; try assumption|].
  - split; [assumption|]. cbn in Hcov. rewrite Z.gtb_ltb in Hcov. to_prop. lia.
  - unfold maybeSizeCheckedRctData. cbn [basic p]. rewrite Hc, Ebp. cbn. rewrite (proj1 Hs), (proj1 Hps), (proj1 Hecdh), (proj1 Hcom), !Nat.eqb_refl. reflexivity.
Qed.

Lemma no_ringct_read `{UndefinedShift} init t r : version t = 1 \/ vin t = [] -> wf (serialize_tx_ringct init t) r -> r = init.
Proof.
  unfold serialize_tx_ringct. intros [-> | ->]; [intros Hw; exact Hw|]. destruct (version t =? 1); intros Hw; exact Hw.
Qed.

(** C30: Whatever the parser accepts is well typed.  A transaction read from bytes has every integer of its prefix in the range of its type and a
    version that is not zero.  Without inputs, and in version 1, its ring-CT data is that of the fresh object ([init], whose type is the null type in the
    code).  When it has inputs and carries ring-CT data, it has exactly one range proof, large enough for the
    outputs, an encrypted amount and a commitment for each output, a pseudo-output commitment and a signature for
    each input, each signature with as many responses as the ring of the first input has members.  So the
    size checks of [expand_transaction] never refuse what the archive has read, for a fresh object of the null type
    whatever was read, and for any other when the transaction has inputs. *)
Theorem parsed_transaction_typed `{UndefinedShift} (init : rctData) (l : blob) (tx : transaction) :
  bytes_ok l -> maybe_from_blob (serialize_transaction init) l = Some tx ->
  typed_prefix (prefix tx) /\
  (version (prefix tx) = 1 \/ vin (prefix tx) = [] -> ringct tx = init) /\
  (vin (prefix tx) <> [] \/ type (basic init) = RCTTypeNull -> maybe_tx_from_blob init l = Some tx) /\
  (version (prefix tx) = 1 \/ vin (prefix tx) = [] \/ type (basic (ringct tx)) = RCTTypeNull \/
   exists rv, ringct tx = toRctData rv /\ typed_ringct (prefix tx) rv).
Proof.
  intros Hl E. unfold maybe_tx_from_blob. rewrite E. apply (parse_wf _ l) in E as [Hp Hr]; [|assumption]. cbn [fst snd] in *.
  pose proof (no_ringct_read init (prefix tx) (ringct tx)) as Hnone.
  split; [now apply prefix_typed|]. split; [auto|]. cbn [mbind option_bind]. unfold expand_transaction.
  destruct (decide (version (prefix tx) = 1)) as [Hv|Hv]; [split; [now rewrite Hv|now left]|].
  destruct (decide (vin (prefix tx) = [])) as [Hi|Hi].
  { split; [|auto]. intros [?|Ht]; [contradiction|]. rewrite Hnone by auto. rewrite Ht, Z.eqb_refl. now repeat case_match. }
  destruct (ringct_typed init (prefix tx) (ringct tx) Hv Hi Hr) as [Ht|(rv & Erv & Hrv & Hs)].
  - split; [|auto]. rewrite Ht, Z.eqb_refl. now repeat case_match.
  - split; [|right; right; right; eauto]. rewrite Hs, (proj2 (Nat.eqb_eq _ _)) by (rewrite Erv; apply Hrv). now repeat case_match.
Qed.

(** Saving a transaction, region by region. *)
Lemma save_transaction_eq `{UndefinedShift} init t :
  save (serialize_transaction init) t =
  (b0 ← save serialize_tx_prefix (prefix t);
   b ← save (serialize_tx_ringct init (prefix t)) (ringct t); Some (b0 ++ b)).
Proof. reflexivity. Qed.

Lemma save_tx_ringct_eq `{UndefinedShift} init t r :
  version t <> 1 -> vin t <> [] -> type (basic r) <> RCTTypeNull ->
  save (serialize_tx_ringct init t) r =
  (b1 ← save (serialize_rctsig_base (basic init) (length (vin t)) (length (vout t))) (basic r);
   b2 ← save (serialize_ringct_prunable (p init) (type (basic r)) (length (vin t)) (length (vout t)) (mixin_of (vin t)))
          (p r); Some (b1 ++ b2)).
Proof.
  intros Hv Hi Ht. unfold serialize_tx_ringct. rewrite (proj2 (Z.eqb_neq _ _) Hv).
  destruct (vin t); [contradiction|]. cbn [save serialize_as serialize_dep fst snd].
  rewrite (proj2 (Z.eqb_neq _ _) Ht). reflexivity.
Qed.

(** The three regions of the blob of a ring-CT transaction: the prefix, the basic
    ring-CT data and the prunable data. *)
Lemma tx_regions `{UndefinedShift} t b :
  version (prefix t) <> 1 -> vin (prefix t) <> [] -> type (basic (ringct t)) <> RCTTypeNull ->
  tx_to_blob t = Returns b ->
  exists b0 b1 b2,
    save serialize_tx_prefix (prefix t) = Some b0 /\
    save (serialize_rctsig_base (basic (ringct t)) (length (vin (prefix t))) (length (vout (prefix t))))
      (basic (ringct t)) = Some b1 /\
    b = b0 ++ b1 ++ b2.
Proof.
  intros Hv Hi Ht E. unfold tx_to_blob, t_serializable_object_to_blob, maybe_to_blob, dump_binary, tx_archive in E.
  rewrite save_transaction_eq, save_tx_ringct_eq in E by assumption.
  destruct (save serialize_tx_prefix (prefix t)) as [b0|]; [|discriminate].
  destruct (save (serialize_rctsig_base _ _ _) _) as [b1|]; [|discriminate].
  destruct (save (serialize_ringct_prunable _ _ _ _ _) _) as [b2|]; [|discriminate].
  injection E as <-. exists b0, b1, b2. auto.
Qed.


Section Examples.
Import ModelGroup RollingDigest.

Lemma ring_offsets_roundtrip_witness :
  relative_output_offsets_to_absolute (absolute_output_offsets_to_relative [9; 2; 5]) = [2; 5; 9].
Proof.
  destruct (ring_offsets_roundtrip [9; 2; 5]) as [E _].
  - repeat (constructor; [unfold fits; lia|]). constructor.
  - exact E.
Defined.

Lemma rule_7_ring_members_distinct_witness : NoDup (relative_output_offsets_to_absolute [0; 3; 1]).
Proof.
  refine (proj1 (proj2 (rule_7_ring_members_distinct [0; 3; 1] _ _ _))); [|vm_compute; reflexivity..].
  repeat (constructor; [unfold fits; lia|]). constructor.
Defined.

Lemma key_encryption_roundtrip_witness : decrypt_key (encrypt_key 77 [1; 2; 3]) [1; 2; 3] = 77.
Proof. apply (key_encryption_roundtrip 77 [1; 2; 3]). vm_compute. split; congruence. Defined.

Definition example_table : gmap public_key subaddress_index :=
  {[ m_spend_public_key (get_subaddress example_keys example_index) := example_index ]}.

Lemma wallet_finds_its_output_witness :
  let address := get_subaddress example_keys example_index in
  let shared := derive_tx_output_ecdh_shared_secret (m_view_public_key address) 5 in
  let x := compute_output_secret_key_from_subaddress_spend_sk shared 0
             (get_subaddress_spend_secret_key example_keys example_index) in
  exists out_key,
    compute_output_public_key_from_subaddress_spend_pk shared 0 (m_spend_public_key address) = Some out_key /\
    derive_with_internal_checking_output_key_pair_and_key_image example_keys example_table out_key None
      [published_key example_index address 5] 0 = Some ({| sec := x; pub := out_key |}, derive_key_image x) /\
    to_pk x = out_key.
Proof.
  apply (wallet_finds_its_output example_keys example_index example_table 5 0 None
    [published_key example_index (get_subaddress example_keys example_index) 5]).
  1-6: vm_compute; repeat split; congruence.
  - apply lookup_singleton_eq.
  - reflexivity.
Defined.

#[local] Instance zero_shift : UndefinedShift := fun _ => 0.

Definition example_ringct_tx : transaction :=
  {| prefix := {| version := 2; unlock_height := 0;
                  vin := [txin_from_key {| in_amount := 0; output_relative_offsets := [3]; output_key_image := 5 |}];
                  vout := [ {| amount := 0; target := txout_to_key 8 |} ]; extra := [1; 2] |};
     ringct := {| basic := {| type := RCTTypeCLSAG; message := null_hash; decoys := []; ecdh_encrypted_data := [9];
                              output_commits := [11]; fee := 7 |};
                  p := {| bulletproofs := [ {| u_A := 1; u_S := 2; u_T1 := 3; u_T2 := 4; u_tau := 5; u_mu := 6;
                                               u_L := replicate 6 7; u_R := replicate 6 8; u_a := 9; u_b := 10; u_t := 11 |} ];
                          CLSAGs := [ {| u_s := [12]; u_c1 := 13; u_signer_key_image := 0;
                                         u_blinding_factor_surplus_key_image := 14 |} ];
                          pseudo_input_commits := [15] |} |} |}.

Definition example_blob : blob :=
  Eval vm_compute in match tx_to_blob example_ringct_tx with Returns b => b | Throws => [] end.


(** The example parses back, also into an object that held other data. *)
Example example_ringct_tx_parses :
  maybe_tx_from_blob (ringct example_ringct_tx) example_blob = Some example_ringct_tx.
Proof. vm_compute. reflexivity. Qed.

Lemma transaction_blob_roundtrip_witness :
  exists b, tx_to_blob example_ringct_tx = Returns b /\
    maybe_from_blob (serialize_transaction (ringct example_ringct_tx)) b = Some example_ringct_tx.
Proof.
  apply (proj2 (transaction_blob_roundtrip (ringct example_ringct_tx)) example_blob example_ringct_tx).
  - apply (bool_decide_unpack _). vm_compute. exact I.
  - vm_compute. reflexivity.
Defined.

Lemma parsed_transaction_typed_witness :
  typed_prefix (prefix example_ringct_tx) /\ maybe_tx_from_blob (ringct example_ringct_tx) example_blob = Some example_ringct_tx.
Proof.
  destruct (parsed_transaction_typed (ringct example_ringct_tx) example_blob example_ringct_tx) as (Hp & _ & E & _).
  - apply (bool_decide_unpack _). vm_compute. exact I.
  - vm_compute. reflexivity.
  - split; [exact Hp|apply E; left; discriminate].
Defined.

Definition example_block_blob : blob :=
  Eval vm_compute in match block_to_blob example_block with Returns b => b | Throws => [] end.

Lemma block_blob_roundtrip_witness :
  exists l, block_to_blob example_block = Returns l /\ maybe_block_from_blob no_rct l = Some example_block.
Proof.
  apply (proj2 (block_blob_roundtrip no_rct) example_block_blob example_block).
  - apply (bool_decide_unpack _). vm_compute. exact I.
  - vm_compute. reflexivity.
Defined.

(** A blob cut off before the last count is accepted as well: the reader takes an
    empty varint for zero, so that the encoding is not unique. *)
Example truncated_block_accepted :
  maybe_block_from_blob no_rct (removelast example_block_blob) = Some example_block /\
  removelast example_block_blob <> example_block_blob.
Proof. split; [vm_compute; reflexivity|vm_compute; discriminate]. Qed.

End Examples.

End FormatUtils.
