(* ===== verification/TxExtra.v ===== *)
(** The extra field of transactions ([src/src/cryptonote/basic/functional/tx_extra.cpp],
    [tx_extra.hpp] and [basic/type/tx_extra.hpp]): a sequence of tagged records
    that carry the Diffie-Hellman keys of the transaction. *)

From S2P Require Import Prelude Hash Config Varint Serialization Primality Group ModelGroup Key RctOps VectorOps InnerProduct Bulletproof Clsag RctTypes TxTypes.

Module TxExtra.
Import Varint Archive Key RctTypes TxTypes.

Definition TX_EXTRA_TAG_TX_PUBKEY : Z := 0x01.
Definition TX_EXTRA_TAG_TX_OUTPUT_PUBKEYS : Z := 0x04.

(** [tx_extra_field = boost::variant<...>] *)
Inductive tx_extra_field :=
| tx_extra_tx_public_key (pub_key_unsafe : ec_point_unsafe)
| tx_extra_output_ecdh_public_keys (pub_keys_unsafe : list ec_point_unsafe).

(** [typeid] of the alternatives *)
Inductive tx_extra_type := type_tx_public_key | type_output_ecdh_public_keys.

Definition tx_extra_type_eqb (a b : tx_extra_type) : bool :=
  match a, b with
  | type_tx_public_key, type_tx_public_key => true
  | type_output_ecdh_public_keys, type_output_ecdh_public_keys => true
  | _, _ => false
  end.

Definition field_type (f : tx_extra_field) : tx_extra_type :=
  match f with
  | tx_extra_tx_public_key _ => type_tx_public_key
  | tx_extra_output_ecdh_public_keys _ => type_output_ecdh_public_keys
  end.

Definition serialize_extra_field : archived tx_extra_field := {|
  save f :=
    match f with
    | tx_extra_tx_public_key k =>
        t ← save (serialize_uint 1) TX_EXTRA_TAG_TX_PUBKEY; b ← save serialize_data k; Some (t ++ b)
    | tx_extra_output_ecdh_public_keys ks =>
        t ← save (serialize_uint 1) TX_EXTRA_TAG_TX_OUTPUT_PUBKEYS;
        b ← save (do_serialize_container serialize_data) ks; Some (t ++ b)
    end;
  load := t ← load (serialize_uint 1);
    if TX_EXTRA_TAG_TX_PUBKEY =? t then k ← load serialize_data; mret (tx_extra_tx_public_key k)
    else if TX_EXTRA_TAG_TX_OUTPUT_PUBKEYS =? t
    then ks ← load (do_serialize_container serialize_data); mret (tx_extra_output_ecdh_public_keys ks)
    else read_fail;
  wf f :=
    match f with
    | tx_extra_tx_public_key k => wf serialize_data k
    | tx_extra_output_ecdh_public_keys ks => wf (do_serialize_container serialize_data) ks
    end;
|}.

(** The loop of [parse_tx_extra]: every turn reads one field, at least its tag
    byte, so the length of the input is enough fuel. *)
Fixpoint parse_tx_extra_loop (fuel : nat) (l : blob) : option (list tx_extra_field) :=
  match fuel with
  | O => None
  | S fuel' =>
      match load serialize_extra_field l with
      | None => None
      | Some (f, l') =>
          if (length l' =? 0)%nat then Some [f]
          else fs ← parse_tx_extra_loop fuel' l'; Some (f :: fs)
      end
  end.

Definition parse_tx_extra (tx_extra : blob) : option (list tx_extra_field) :=
  match tx_extra with [] => Some [] | _ => parse_tx_extra_loop (length tx_extra) tx_extra end.

(** [find_tx_extra_field_by_type], at its two instances *)
Fixpoint find_tx_public_key (fs : list tx_extra_field) : option ec_point_unsafe :=
  match fs with
  | [] => None
  | tx_extra_tx_public_key k :: _ => Some k
  | _ :: fs' => find_tx_public_key fs'
  end.

Fixpoint find_output_ecdh_public_keys (fs : list tx_extra_field) : option (list ec_point_unsafe) :=
  match fs with
  | [] => None
  | tx_extra_output_ecdh_public_keys ks :: _ => Some ks
  | _ :: fs' => find_output_ecdh_public_keys fs'
  end.

Section Extra.
Context `{Sodium}.

Definition get_tx_ecdh_public_key_from_extra (tx_extra : blob) : option public_key :=
  fields ← parse_tx_extra tx_extra;
  k ← find_tx_public_key fields;
  maybeSafePoint k.

Definition get_output_ecdh_public_keys_from_extra (tx_extra : blob) : option (list public_key) :=
  fields ← parse_tx_extra tx_extra;
  unsafe_keys ← find_output_ecdh_public_keys fields;
  let output_pub_keys := omap maybeSafePoint unsafe_keys in
  if negb (length output_pub_keys =? length unsafe_keys)%nat then None else Some output_pub_keys.

Definition get_all_output_ecdh_public_keys_from_extra (tx_extra : blob) (output_count : nat)
    : option (list public_key) :=
  let fallback :=
    match get_tx_ecdh_public_key_from_extra tx_extra with
    | Some x => Some (replicate output_count x)
    | None => None
    end in
  match get_output_ecdh_public_keys_from_extra tx_extra with
  | Some ks => if (length ks =? output_count)%nat then Some ks else fallback
  | None => fallback
  end.

End Extra.

(** The loop of [remove_field_from_tx_extra]: the fields of other types are
    written to a new archive. *)
Fixpoint remove_field_loop (fuel : nat) (ty : tx_extra_type) (l newar : blob) : option blob :=
  match fuel with
  | O => None
  | S fuel' =>
      match load serialize_extra_field l with
      | None => None
      | Some (f, l') =>
          let newar := if tx_extra_type_eqb (field_type f) ty then newar
                       else newar ++ default [] (save serialize_extra_field f) in
          if (length l' =? 0)%nat then Some newar else remove_field_loop fuel' ty l' newar
      end
  end.

(** The new archive is appended to the copy of the input. *)
Definition remove_field_from_tx_extra (tx_extra_in : blob) (ty : tx_extra_type) : option blob :=
  match tx_extra_in with
  | [] => Some []
  | _ => s ← remove_field_loop (length tx_extra_in) ty tx_extra_in []; Some (tx_extra_in ++ s)
  end.

Definition add_tx_ecdh_public_key_to_extra (tx_extra_in : blob) (tx_pub_key : public_key) : blob :=
  tx_extra_in ++ [TX_EXTRA_TAG_TX_PUBKEY] ++ data_blob tx_pub_key.

Definition add_output_ecdh_public_keys_to_extra (tx_extra_in : blob) (output_pub_keys : list public_key) : blob :=
  match save serialize_extra_field (tx_extra_output_ecdh_public_keys output_pub_keys) with
  | None => tx_extra_in
  | Some s => tx_extra_in ++ s
  end.

(** ** Laws *)

#[export] Instance serialize_extra_field_laws : ArchivedLaws serialize_extra_field.
Proof.
  split; cbn [save load wf serialize_extra_field].
  - intros [k|ks] Hx.
    + eapply (tagged_save_load serialize_data); [unfold is_byte, TX_EXTRA_TAG_TX_PUBKEY; lia|exact Hx|].
      intros l rest E. rewrite Z.eqb_refl. now rewrite (reader_bind_eq _ _ _ _ _ E).
    + eapply (tagged_save_load (do_serialize_container serialize_data));
        [unfold is_byte, TX_EXTRA_TAG_TX_OUTPUT_PUBKEYS; lia|exact Hx|].
      intros l rest E. change (TX_EXTRA_TAG_TX_PUBKEY =? TX_EXTRA_TAG_TX_OUTPUT_PUBKEYS) with false. cbv iota.
      rewrite Z.eqb_refl. now rewrite (reader_bind_eq _ _ _ _ _ E).
  - intros l x rest Hl E. apply reader_bind_Some in E as (t & l1 & E1 & E).
    apply load_wf in E1 as [_ Hl1]; [|assumption].
    destruct (TX_EXTRA_TAG_TX_PUBKEY =? t); [|destruct (TX_EXTRA_TAG_TX_OUTPUT_PUBKEYS =? t); [|discriminate]];
      apply reader_bind_Some in E as (y & l2 & E2 & E); injection E as <- <-; now apply load_wf in E2.
Qed.

#[export] Instance serialize_extra_field_nonempty : NonEmpty serialize_extra_field.
Proof.
  intros [k|ks] b _ E; cbn [save serialize_extra_field] in E;
    apply bind_Some in E as (t & [= <-] & E); apply bind_Some in E as (b2 & _ & [= <-]); cbn; lia.
Qed.

(** The extra field that holds the given records. *)
Abbreviation extra_of := (save_elements serialize_extra_field).

Lemma extra_of_app fs gs b c : extra_of fs = Some b -> extra_of gs = Some c -> extra_of (fs ++ gs) = Some (b ++ c).
Proof.
  revert b; induction fs as [|f fs IH]; intros b Eb Ec; cbn [app save_elements] in *.
  - now injection Eb as <-.
  - apply bind_Some in Eb as (b1 & E1 & Eb). apply bind_Some in Eb as (b2 & E2 & [= <-]).
    rewrite E1, (IH b2) by assumption. cbn. now rewrite app_assoc.
Qed.

Lemma extra_of_cons f fs b :
  extra_of (f :: fs) = Some b -> wf serialize_extra_field f ->
  exists b1 b2, b = b1 ++ b2 /\ save serialize_extra_field f = Some b1 /\ extra_of fs = Some b2 /\
    (0 < length b1)%nat /\ load serialize_extra_field b = Some (f, b2).
Proof.
  intros E Hf. cbn [save_elements] in E. apply bind_Some in E as (b1 & E1 & E). apply bind_Some in E as (b2 & E2 & [= <-]).
  exists b1, b2. repeat split; auto; [exact (save_nonempty f b1 Hf E1)|].
  destruct (save_load f Hf) as (b' & E' & _ & L'). rewrite E1 in E'. injection E' as <-. apply L'.
Qed.

(** Induction over the turns of the two loops. *)
Lemma extra_loop_ind (P : list tx_extra_field -> blob -> nat -> Prop) :
  (forall f b fuel, wf serialize_extra_field f -> load serialize_extra_field b = Some (f, []) -> P [f] b (S fuel)) ->
  (forall f fs b b2 fuel, wf serialize_extra_field f -> load serialize_extra_field b = Some (f, b2) -> b2 <> [] ->
     P fs b2 fuel -> P (f :: fs) b (S fuel)) ->
  forall fs b fuel, fs <> [] -> Forall (wf serialize_extra_field) fs -> extra_of fs = Some b ->
    (length b <= fuel)%nat -> P fs b fuel.
Proof.
  intros Hone Hmore fs. induction fs as [|f fs IH]; intros b fuel Hne Hw E Hf; [contradiction|].
  apply Forall_cons in Hw as [Hf0 Hw]. destruct (extra_of_cons f fs b E Hf0) as (b1 & b2 & -> & _ & E2 & Hp & HL).
  rewrite length_app in Hf. destruct fuel as [|fuel]; [lia|].
  destruct fs as [|g fs].
  - injection E2 as <-. now apply Hone.
  - assert (Hb2 : b2 <> []).
    { intros ->. apply Forall_cons in Hw as [Hg _].
      destruct (extra_of_cons g fs [] E2 Hg) as (c1 & c2 & Ec & _ & _ & Hc & _).
      symmetry in Ec. apply app_eq_nil in Ec as [-> _]. cbn in Hc. lia. }
    eapply Hmore; [assumption|exact HL|assumption|]. apply IH; [discriminate|assumption|assumption|lia].
Qed.

Lemma nonempty_length (l : blob) : l <> [] -> (length l =? 0)%nat = false.
Proof. destruct l; [contradiction|reflexivity]. Qed.

Lemma parse_extra_of fs b :
  Forall (wf serialize_extra_field) fs -> extra_of fs = Some b -> parse_tx_extra b = Some fs.
Proof.
  intros Hw E. destruct fs as [|f fs]; [now injection E as <-|].
  assert (HP : parse_tx_extra_loop (length b) b = Some (f :: fs)).
  { revert Hw E. generalize (le_n (length b)). generalize (length b) at 2 3. intros fuel Hl Hw E.
    apply (extra_loop_ind (fun fs b fuel => parse_tx_extra_loop fuel b = Some fs)); [| |discriminate|assumption|assumption|assumption].
    - intros g c n _ HL. cbn [parse_tx_extra_loop]. now rewrite HL.
    - intros g gs c c2 n _ HL Hc IH. cbn [parse_tx_extra_loop]. rewrite HL, nonempty_length, IH by assumption. reflexivity. }
  unfold parse_tx_extra. destruct b; [discriminate|exact HP].
Qed.

Lemma extra_of_total fs : Forall (wf serialize_extra_field) fs -> exists b, extra_of fs = Some b.
Proof. intros Hw. destruct (elements_load serialize_extra_field fs Hw) as (b & E & _). eauto. Qed.

Lemma add_tx_key_extra_of fs b k :
  fits 256 k -> extra_of fs = Some b ->
  extra_of (fs ++ [tx_extra_tx_public_key k]) = Some (add_tx_ecdh_public_key_to_extra b k).
Proof.
  intros Hk E. unfold add_tx_ecdh_public_key_to_extra. apply extra_of_app; [assumption|].
  change (Some (([TX_EXTRA_TAG_TX_PUBKEY] ++ data_blob k) ++ []) = Some ([TX_EXTRA_TAG_TX_PUBKEY] ++ data_blob k)).
  now rewrite app_nil_r.
Qed.

Lemma add_output_keys_extra_of fs b ks :
  wf serialize_extra_field (tx_extra_output_ecdh_public_keys ks) -> extra_of fs = Some b ->
  extra_of (fs ++ [tx_extra_output_ecdh_public_keys ks]) = Some (add_output_ecdh_public_keys_to_extra b ks).
Proof.
  intros Hk E. unfold add_output_ecdh_public_keys_to_extra. destruct (save_load _ Hk) as (c & Ec & _).
  rewrite Ec. apply extra_of_app; [assumption|]. cbn [save_elements]. rewrite Ec. cbn. now rewrite app_nil_r.
Qed.

Lemma find_output_keys_app fs ks :
  Forall (fun f => field_type f = type_tx_public_key) fs ->
  find_output_ecdh_public_keys (fs ++ [tx_extra_output_ecdh_public_keys ks]) = Some ks.
Proof. induction 1 as [|[k|ks'] fs Hf _ IH]; cbn; [reflexivity|assumption|discriminate]. Qed.

(** Keys that were added are found again. *)
Lemma added_output_keys `{SodiumLaws} fs b ks :
  Forall (wf serialize_extra_field) fs -> extra_of fs = Some b -> Forall safe ks -> Z.of_nat (length ks) < 2 ^ 64 ->
  Forall (fun f => field_type f = type_tx_public_key) fs ->
  get_output_ecdh_public_keys_from_extra (add_output_ecdh_public_keys_to_extra b ks) = Some ks.
Proof.
  intros Hw E Hks Hn Ht.
  assert (Hkw : wf serialize_extra_field (tx_extra_output_ecdh_public_keys ks)).
  { split; [|unfold fits; lia]. eapply Forall_impl; [exact Hks|]. intros x (i & _ & ->)%is_safe_point_spec. apply enc_fits. }
  unfold get_output_ecdh_public_keys_from_extra.
  rewrite (parse_extra_of (fs ++ [tx_extra_output_ecdh_public_keys ks]));
    [|apply Forall_app; split; [assumption|now constructor]|now apply add_output_keys_extra_of].
  cbn [mbind option_bind]. rewrite find_output_keys_app by assumption. cbn [mbind option_bind].
  assert (Eo : omap maybeSafePoint ks = ks).
  { clear Hn Hkw. induction Hks as [|x xs Hx _ IH]; [reflexivity|]. cbn. unfold maybeSafePoint at 1. rewrite Hx. now rewrite IH. }
  rewrite Eo, Nat.eqb_refl. reflexivity.
Qed.

(** The extra field round trips.  The records written one after the other
    parse back to the same records, and appending a transaction key or the output
    keys to such a field appends exactly that record: the added key or keys are
    found again, as the transaction key and as the per-output keys. *)
Theorem extra_roundtrip `{SodiumLaws} (fs : list tx_extra_field) (b : blob) (k : public_key) (ks : list public_key) :
  Forall (wf serialize_extra_field) fs -> extra_of fs = Some b ->
  is_safe_point k = true -> Forall safe ks -> Z.of_nat (length ks) < 2 ^ 64 ->
  Forall (fun f => field_type f = type_tx_public_key) fs ->
  parse_tx_extra b = Some fs /\
  parse_tx_extra (add_tx_ecdh_public_key_to_extra b k) = Some (fs ++ [tx_extra_tx_public_key k]) /\
  get_all_output_ecdh_public_keys_from_extra (add_output_ecdh_public_keys_to_extra b ks) (length ks) = Some ks.
Proof.
  intros Hw E Hk Hks Hn Ht. apply is_safe_point_spec in Hk as (j & _ & ->).
  assert (Hk : wf serialize_extra_field (tx_extra_tx_public_key (enc j))) by apply enc_fits.
  split; [now apply parse_extra_of|]. split.
  - apply parse_extra_of; [apply Forall_app; split; [assumption|now constructor]|].
    apply add_tx_key_extra_of; [apply enc_fits|assumption].
  - unfold get_all_output_ecdh_public_keys_from_extra. rewrite (added_output_keys fs) by assumption. now rewrite Nat.eqb_refl.
Qed.

(** The records that are not of type [ty]. *)
Definition other_fields (ty : tx_extra_type) (fs : list tx_extra_field) : list tx_extra_field :=
  filter (fun f => tx_extra_type_eqb (field_type f) ty = false) fs.

(** What one turn of the removing loop adds to the new archive. *)
Lemma removed_turn ty f fs c :
  wf serialize_extra_field f -> extra_of (other_fields ty fs) = Some c ->
  exists c1, extra_of (other_fields ty (f :: fs)) = Some (c1 ++ c) /\
    forall newar, (if tx_extra_type_eqb (field_type f) ty then newar
                   else newar ++ default [] (save serialize_extra_field f)) = newar ++ c1.
Proof.
  intros Hf Ec. unfold other_fields. rewrite filter_cons.
  destruct (tx_extra_type_eqb (field_type f) ty) eqn:Et.
  - rewrite decide_False by congruence. exists []. split; [exact Ec|]. intros. now rewrite app_nil_r.
  - rewrite decide_True by reflexivity. destruct (save_load f Hf) as (c1 & E1 & _). exists c1.
    cbn [save_elements]. unfold other_fields in Ec. rewrite E1, Ec. split; reflexivity.
Qed.

Lemma remove_loop_extra_of ty fs b fuel :
  fs <> [] -> Forall (wf serialize_extra_field) fs -> extra_of fs = Some b -> (length b <= fuel)%nat ->
  exists c, extra_of (other_fields ty fs) = Some c /\
    forall newar, remove_field_loop fuel ty b newar = Some (newar ++ c).
Proof.
  revert fs b fuel. apply (extra_loop_ind (fun fs b fuel => exists c, extra_of (other_fields ty fs) = Some c /\
    forall newar, remove_field_loop fuel ty b newar = Some (newar ++ c))).
  - intros f b fuel Hf HL. destruct (removed_turn ty f [] [] Hf eq_refl) as (c1 & Ec & Hn). rewrite app_nil_r in Ec.
    exists c1. split; [exact Ec|]. intros newar. cbn [remove_field_loop]. rewrite HL. cbv zeta. now rewrite Hn.
  - intros f fs b b2 fuel Hf HL Hb (c & Ec & IH). destruct (removed_turn ty f fs c Hf Ec) as (c1 & Ec1 & Hn).
    exists (c1 ++ c). split; [exact Ec1|]. intros newar. cbn [remove_field_loop]. rewrite HL. cbv zeta.
    rewrite Hn, nonempty_length, IH, app_assoc by assumption. reflexivity.
Qed.

(** [remove_field_from_tx_extra] keeps what it is asked to remove.  For an
    extra field that holds the records [fs], the result parses to all of [fs]
    followed by those of other types once more: the rebuilt field is appended to
    the old one instead of replacing it. *)
Theorem remove_field_appends (fs : list tx_extra_field) (b : blob) (ty : tx_extra_type) :
  Forall (wf serialize_extra_field) fs -> extra_of fs = Some b ->
  exists r, remove_field_from_tx_extra b ty = Some r /\
    parse_tx_extra r = Some (fs ++ other_fields ty fs).
Proof.
  intros Hw E. destruct fs as [|f fs]; [injection E as <-; exists []; split; reflexivity|].
  destruct (remove_loop_extra_of ty (f :: fs) b (length b)) as (c & Ec & HL); [discriminate|assumption|assumption|lia|].
  exists (b ++ c). split.
  - unfold remove_field_from_tx_extra. destruct b as [|x b]; [discriminate (HL [])|]. now rewrite HL.
  - apply parse_extra_of; [|now apply extra_of_app]. apply Forall_app. split; [assumption|].
    rewrite Forall_forall in Hw |- *. intros g [_ Hg]%list_elem_of_filter. auto.
Qed.

Section Examples.
Import ModelGroup RollingDigest.

Definition example_fields : list tx_extra_field := [tx_extra_tx_public_key (to_pk 5)].
Definition example_extra : blob := Eval vm_compute in default [] (extra_of example_fields).

Lemma example_fields_ok : Forall (wf serialize_extra_field) example_fields.
Proof. constructor; [|constructor]. vm_compute. split; congruence. Qed.

Lemma extra_roundtrip_witness :
  parse_tx_extra example_extra = Some example_fields /\
  parse_tx_extra (add_tx_ecdh_public_key_to_extra example_extra (to_pk 9))
    = Some (example_fields ++ [tx_extra_tx_public_key (to_pk 9)]) /\
  get_all_output_ecdh_public_keys_from_extra (add_output_ecdh_public_keys_to_extra example_extra [to_pk 3; to_pk 4]) 2
    = Some [to_pk 3; to_pk 4].
Proof.
  apply (extra_roundtrip example_fields example_extra (to_pk 9) [to_pk 3; to_pk 4]).
  - exact example_fields_ok.
  - vm_compute. reflexivity.
  - vm_compute. reflexivity.
  - constructor; [|constructor; [|constructor]]; vm_compute; reflexivity.
  - vm_compute. reflexivity.
  - constructor; [reflexivity|constructor].
Defined.

Lemma remove_field_appends_witness :
  exists r, remove_field_from_tx_extra example_extra type_tx_public_key = Some r /\
    parse_tx_extra r = Some (example_fields ++ other_fields type_tx_public_key example_fields).
Proof.
  apply (remove_field_appends example_fields example_extra type_tx_public_key); [exact example_fields_ok|].
  vm_compute. reflexivity.
Defined.

End Examples.

End TxExtra.
