(* ===== verification/RingCT.v ===== *)
(** Ring-CT transactions as a whole ([src/src/math/ringct/pseudo_functional/ringCT.cpp]
    and [controller/ringCT_Gen.cpp]): generation and verification. *)

From S2P Require Import Prelude Hash Config Varint Serialization Primality Group ModelGroup Key RctOps VectorOps InnerProduct Bulletproof BulletproofComplete Clsag RctTypes TxTypes Consensus Coinbase FormatUtils.

Module RingCT.
Import Config Archive Key RctOps VectorOps InnerProduct Bulletproof BulletproofComplete Clsag RctTypes TxTypes
  Consensus FormatUtils.

Section Protocol.
Context `{Sha3} `{Sodium}.

(** ** Verification *)

(** The members of the range proof in the order they are hashed. *)
Definition bulletproof_members (b : Bulletproof_unsafe) : list crypto_data :=
  [u_A b; u_S b; u_T1 b; u_T2 b; u_tau b; u_mu b] ++ u_L b ++ u_R b ++ [u_a b; u_b b; u_t b].

Definition get_ring_signature_message (rv : rctDataSizeChecked) : option hash :=
  if (length (decoys (sc_basic rv)) =? 0)%nat then None else
  let inputs := length (decoys (sc_basic rv)) in
  let outputs := length (ecdh_encrypted_data (sc_basic rv)) in
  ss ← save (serialize_rctsig_base (sc_basic rv) inputs outputs) (sc_basic rv);
  let h := get_blob_hash ss in
  let kv := bulletproof_members (sc_bulletproof rv) in
  Some (hash_dataV [h2d (message (sc_basic rv)); h2d h; h2d (hash_dataV kv)]).

Definition verify_unsafe_clsag_signature (message : hash) (sig : clsag_unsafe) (decoys : list output_public_data)
    (pseudo_input_commit : ec_point) : bool :=
  match rule_10_ring_signature_should_not_contain_invalid_data sig with
  | None => false
  | Some safe_sig => rule_4_ringct_input_should_be_from_a_key message safe_sig decoys pseudo_input_commit
  end.

Definition verify_ringct_balance (rv : rctDataSizeChecked) : bool :=
  rule_3_ringct_should_be_balanced (sc_pseudo_input_commits rv) (output_commits (sc_basic rv)) (fee (sc_basic rv)).

Definition verify_range_proof (rv : rctDataSizeChecked) : result bool :=
  match rule_9_range_proof_should_not_contain_invalid_data (sc_bulletproof rv) with
  | None => Returns false
  | Some proof =>
      rule_2_ringct_output_amounts_should_not_overflow_amount_type (output_commits (sc_basic rv)) proof
  end.

(** The jobs of the thread pool: each writes its own slot of [results].  [order] is
    the order in which the pool finishes them. *)
Definition run_jobs (job : nat -> bool) (order : list nat) (results : list bool) : list bool :=
  foldl (fun res i => <[i := job i]> res) results order.

Definition verify_clsag_signatures (order : list nat) (rv : rctDataSizeChecked) : bool :=
  if negb (length (sc_pseudo_input_commits rv) =? length (decoys (sc_basic rv)))%nat then false else
  match get_ring_signature_message rv with
  | None => false
  | Some message =>
    let job i := verify_unsafe_clsag_signature message (nth i (sc_CLSAGs rv) no_clsag)
                   (nth i (decoys (sc_basic rv)) []) (nth i (sc_pseudo_input_commits rv) 0) in
    let results := run_jobs job order (replicate (length (decoys (sc_basic rv))) false) in
    forallb id results
  end.

Definition verify_ringct (order : list nat) (rv : rctDataSizeChecked) : result bool :=
  r ← verify_range_proof rv;
  Returns (r && verify_ringct_balance rv && verify_clsag_signatures order rv).

Definition decode_ringct_commitment (rv : rctDataSizeChecked) (ecdh_shared_secret_hashed_by_index : ec_scalar)
    (output_index : nat) : result (amount_t * ec_scalar) :=
  _ ← throw_unless (output_index <? length (ecdh_encrypted_data (sc_basic rv)))%nat;
  let blinding_factor := get_blinding_factor_from_hashed_shared_secret ecdh_shared_secret_hashed_by_index in
  let amount := decode_amount_by_hashed_ecdh_shared_secret
                  (nth output_index (ecdh_encrypted_data (sc_basic rv)) 0) ecdh_shared_secret_hashed_by_index in
  let C := nth output_index (output_commits (sc_basic rv)) 0 in
  _ ← throw_if (negb (C =? commit amount blinding_factor));
  Returns (amount, blinding_factor).

(** ** Generation *)

Record rctInputData := {
  i_amount : amount_t; i_signer_sk : ec_scalar; i_signer_blinding_factor : ec_scalar;
  i_index_in_decoys : nat; i_decoys : list output_public_data }.

Record rctOutputData := { o_amount : amount_t; o_ecdh_shared_secret_hashed_by_index : ec_scalar }.

Definition range_proof_inputs (outputs : list rctOutputData) : list bp_input_t :=
  (fun x => (o_amount x, get_blinding_factor_from_hashed_shared_secret (o_ecdh_shared_secret_hashed_by_index x)))
    <$> outputs.

(** [generate_range_proof]: [None] when the attempts of [bulletproof_MAKE] are used up *)
Definition generate_range_proof (attempts : nat) (random : nat -> ec_scalar) (outputs : list rctOutputData)
    : result (option (ec_scalar * pointV * Bulletproof)) :=
  let xs := range_proof_inputs outputs in
  maybe_proof ← bulletproof_MAKE attempts xs random;
  match maybe_proof with
  | None => Returns None
  | Some proof =>
    let output_blinding_factors_sum := foldl scalar_add s_zero xs.*2 in
    let output_commits := (fun x => commit x.1 x.2) <$> xs in
    Returns (Some (output_blinding_factors_sum, output_commits, proof))
  end.

(** The masks of the pseudo-outputs: random ones and the one that is left. *)
Definition matching_masks (match_ : ec_scalar) (random : nat -> ec_scalar) (n : nat) : scalarV :=
  let bs := random <$> seq 0 (n - 1) in
  let last := match_ -ₛ foldl scalar_add s_zero bs in
  bs ++ [last].

Definition generate_matching_input_commits (match_ : ec_scalar) (random : nat -> ec_scalar) (xs : list amount_t)
    : list (ec_scalar * ec_point) :=
  match xs with
  | [] => []
  | _ => zip_with (fun b x => (b, commit x b)) (matching_masks match_ random (length xs)) xs
  end.

(** The random draws: those of the range proof, of the masks, and those of each
    ring signature. *)
Record draws := { d_proof : nat -> ec_scalar; d_masks : nat -> ec_scalar; d_sig : nat -> nat -> ec_scalar }.

Definition sign_inputs (full_message : hash) (d : draws) (inputs : list rctInputData)
    (pseudo_inputs : list (ec_scalar * ec_point)) : result (list clsag_unsafe) :=
  result_mapM (fun '(k, (i, q)) =>
      sig ← generate_clsag_signature full_message (i_signer_sk i) (i_signer_blinding_factor i) (i_index_in_decoys i)
              q.1 q.2 (i_decoys i) (d_sig d k);
      Returns (toUnsafeCLSAG sig))
    (zip (seq 0 (length inputs)) (zip inputs pseudo_inputs)).

Definition generate_ringct (attempts : nat) (d : draws) (message : hash) (inputs : list rctInputData)
    (outputs : list rctOutputData) (fee : amount_t) : result (option rctDataSizeChecked) :=
  _ ← throw_unless (0 <? length inputs)%nat;
  _ ← throw_unless (forallb (fun i => i_index_in_decoys i <? length (i_decoys i))%nat inputs);
  range ← generate_range_proof attempts (d_proof d) outputs;
  match range with
  | None => Returns None
  | Some (output_blinding_factors_sum, commits, proof) =>
    let ecdh := (fun x => encode_amount_by_hashed_ecdh_shared_secret (o_amount x)
                            (o_ecdh_shared_secret_hashed_by_index x)) <$> outputs in
    let rct_data_basic := {| type := RCTTypeCLSAG; message := message; decoys := i_decoys <$> inputs;
                             ecdh_encrypted_data := ecdh; output_commits := commits; fee := fee |} in
    let pseudo_inputs := generate_matching_input_commits output_blinding_factors_sum (d_masks d) (i_amount <$> inputs) in
    let pseudo_commits := pseudo_inputs.*2 in
    let unsafe_proof := toUnsafeBulletproof proof in
    let dummy := {| sc_basic := rct_data_basic; sc_bulletproof := unsafe_proof; sc_CLSAGs := [];
                    sc_pseudo_input_commits := pseudo_commits |} in
    match get_ring_signature_message dummy with
    | None => Throws
    | Some full_message =>
      clsags ← sign_inputs full_message d inputs pseudo_inputs;
      Returns (Some {| sc_basic := rct_data_basic; sc_bulletproof := unsafe_proof; sc_CLSAGs := clsags;
                       sc_pseudo_input_commits := pseudo_commits |})
    end
  end.

End Protocol.

(** ** The thread pool's order does not matter *)

Lemma length_run_jobs job order results : length (run_jobs job order results) = length results.
Proof.
  unfold run_jobs. revert results; induction order as [|i order IH]; intros results; cbn; [reflexivity|].
  now rewrite IH, length_insert.
Qed.

Lemma run_jobs_lookup job order results i :
  (i < length results)%nat ->
  run_jobs job order results !! i = if bool_decide (i ∈ order) then Some (job i) else results !! i.
Proof.
  unfold run_jobs. revert results; induction order as [|j order IH]; intros results Hi; cbn [foldl].
  - now rewrite bool_decide_eq_false_2 by apply not_elem_of_nil.
  - rewrite IH by now rewrite length_insert. destruct (decide (i ∈ order)) as [Hin|Hin].
    + rewrite !bool_decide_eq_true_2; [reflexivity|now right|assumption].
    + rewrite (bool_decide_eq_false_2 (i ∈ order)) by assumption. destruct (decide (i = j)) as [->|Hn].
      * rewrite bool_decide_eq_true_2 by now left. now apply list_lookup_insert_eq.
      * rewrite bool_decide_eq_false_2 by now (intros [|]%elem_of_cons). now apply list_lookup_insert_ne.
Qed.

Lemma run_jobs_permutation job order n :
  order ≡ₚ seq 0 n -> run_jobs job order (replicate n false) = job <$> seq 0 n.
Proof.
  intros Hp. apply list_eq_same_length with (n := n); [now rewrite length_fmap, length_seq|
    now rewrite length_run_jobs, length_replicate|].
  intros i x y Hi Hx Hy. rewrite run_jobs_lookup in Hx by now rewrite length_replicate.
  rewrite bool_decide_eq_true_2 in Hx by (rewrite Hp; apply elem_of_seq; lia).
  rewrite list_lookup_fmap, lookup_seq_lt in Hy by assumption. cbn in Hy. congruence.
Qed.

(** ** Masks, balance and message *)

Section Parts.
Context `{HL : Sha3Laws} `{SL : SodiumLaws}.

Lemma foldl_scalar_add a l :
  scalar_ok a -> Forall scalar_ok l -> scalar_ok (foldl scalar_add a l) /\ foldl scalar_add a l ≡ₗ a + sumZ l.
Proof using SL.
  intros Ha Hl. revert a Ha; induction Hl as [|x l Hx _ IH]; intros a Ha; cbn [foldl].
  - unfold sumZ. cbn. rewrite Z.add_0_r. split; [assumption|reflexivity].
  - destruct (IH (a +ₛ x)) as [? E]; [auto with machine|]. split; [assumption|]. rewrite E, scalar_add_eqL by assumption.
    apply eq_eqL. unfold sumZ. cbn. ring.
Qed.

Lemma length_matching_masks m random n : (0 < n)%nat -> length (matching_masks m random n) = n.
Proof. intros. unfold matching_masks. rewrite length_app, length_fmap, length_seq. cbn. lia. Qed.

Lemma matching_masks_sum m random n :
  scalar_ok m -> (forall i, scalar_ok (random i)) -> sumZ (matching_masks m random n) ≡ₗ m.
Proof using SL.
  intros Hm Hr. unfold matching_masks. rewrite sumZ_app. set (bs := random <$> seq 0 (n - 1)).
  assert (Hb : Forall scalar_ok bs) by (apply Forall_fmap, Forall_true; auto).
  destruct (foldl_scalar_add s_zero bs scalar_ok_0 Hb) as [Ho E]. unfold sumZ at 2. cbn [foldr].
  rewrite Z.add_0_r, scalar_sub_eqL, E by assumption. apply eq_eqL. change s_zero with 0. ring.
Qed.

Lemma pseudo_commits m random xs :
  (0 < length xs)%nat ->
  (generate_matching_input_commits m random xs).*2 =
  (fun x => commit x.1 x.2) <$> zip xs (matching_masks m random (length xs)).
Proof.
  intros Hx. unfold generate_matching_input_commits. destruct xs as [|x xs]; [cbn in Hx; lia|].
  generalize (matching_masks m random (length (x :: xs))). generalize (x :: xs). clear.
  intros l ms; revert ms; induction l as [|a l IH]; intros [|b ms]; cbn; try reflexivity. now rewrite IH.
Qed.

Lemma range_proof_masks outputs :
  (range_proof_inputs outputs).*2 =
  get_blinding_factor_from_hashed_shared_secret ∘ o_ecdh_shared_secret_hashed_by_index <$> outputs.
Proof. unfold range_proof_inputs. now rewrite <- list_fmap_compose. Qed.

Lemma range_proof_amounts outputs : (range_proof_inputs outputs).*1 = o_amount <$> outputs.
Proof. unfold range_proof_inputs. now rewrite <- list_fmap_compose. Qed.

Lemma save_each_replicate {A} (c : archived A) v :
  (forall x, exists b, save c x = Some b) -> exists b, save_each (replicate (length v) c) v = Some b.
Proof.
  intros Hc. induction v as [|x v [b2 IH]]; cbn [length replicate save_each]; [now exists []|].
  destruct (Hc x) as [b1 E1]. rewrite E1, IH. now exists (b1 ++ b2).
Qed.

Lemma message_exists rv :
  decoys (sc_basic rv) <> [] -> type (sc_basic rv) = RCTTypeCLSAG ->
  length (output_commits (sc_basic rv)) = length (ecdh_encrypted_data (sc_basic rv)) ->
  exists m, get_ring_signature_message rv = Some m.
Proof.
  intros Hd Ht Hl. unfold get_ring_signature_message.
  assert (E0 : (length (decoys (sc_basic rv)) =? 0)%nat = false)
    by (destruct (decoys (sc_basic rv)); [contradiction|reflexivity]).
  rewrite E0. unfold serialize_rctsig_base. cbn [save serialize_as serialize_dep fst snd].
  rewrite Ht. change (RCTTypeCLSAG =? RCTTypeNull) with false. change (negb (RCTTypeCLSAG =? RCTTypeCLSAG)) with false.
  cbv iota. cbn [save serialize_pair serialize_custom_vector not_serialized fst snd].
  destruct (save_each_replicate (serialize_uint 8) (ecdh_encrypted_data (sc_basic rv))) as [b1 ->]; [cbn; eauto|].
  rewrite <- Hl. destruct (save_each_replicate serialize_data (output_commits (sc_basic rv))) as [b2 ->];
    [intros; eexists; reflexivity|].
  eexists. cbn [mbind option_bind save serialize_uint serialize_varint]. reflexivity.
Qed.

(** A signature the generator made is one the check of parsed data accepts. *)
Lemma generated_clsag_safe message sk bf pbf amount index decoys random sig :
  let pseudo := commit amount pbf in
  decoys !! index = Some {| output_public_key := to_pk sk; decoy_commit := commit amount bf |} ->
  secret_ok sk -> secret_ok bf -> secret_ok pbf -> bf <> pbf -> (forall i, secret_ok (random i)) ->
  is_safe_point (hash_to_point_via_field (to_pk sk)) = true ->
  generate_clsag_signature message sk bf index pbf pseudo decoys random = Returns sig -> safe_clsag sig.
Proof using HL SL.
  intros pseudo Hd Hsk Hbf Hpbf Hne Hr Hsafe E.
  pose proof (lookup_lt_Some _ _ _ Hd) as Hi. pose proof (nth_lookup_Some _ _ no_data _ Hd) as Hnth.
  unfold generate_clsag_signature, throw_if in E. rewrite (proj2 (Nat.eqb_neq _ 0)) in E by lia.
  cbn [negb throw_unless mbind result_bind] in E. rewrite generate_internal_ok in E by assumption. cbv zeta in E.
  injection E as <-. rewrite Hnth. cbn [output_public_key].
  assert (Hrs : forall a m, Forall scalar_ok (random <$> seq a m)).
  { intros. apply Forall_fmap, Forall_true. intros x. apply Hr. }
  destruct Hsk, Hbf as [Obf _], Hpbf as [Opbf _]. pose proof (Hr O) as [Hr0 _].
  split; [|split]; cbn [s c1 blinding_factor_surplus_key_image].
  - apply Forall_app. split; [apply Hrs|]. constructor; [|apply Hrs].
    apply scalar_sub_closed, scalar_mul_closed; [assumption| |apply scalar_add_closed; apply scalar_mul_closed];
      first [apply last_challenge_ok, last_challenge_ok, hash_dataV_to_scalar_ok | apply hash_dataV_to_scalar_ok
            | auto with machine].
  - apply last_challenge_ok, hash_dataV_to_scalar_ok.
  - apply is_safe_point_spec in Hsafe as (k & Hk & ->). apply is_safe_point_spec.
    assert (Hz : ~ bf -ₛ pbf ≡ₗ 0).
    { rewrite scalar_sub_eqL by assumption. intros Ez. apply Hne, eqL_scalar; try assumption.
      replace bf with (bf - pbf + pbf) by ring. rewrite Ez. reflexivity. }
    exists ((bf -ₛ pbf) * k). split; [now apply eqL_mul_nonzero|]. apply mult_enc; auto with machine.
Qed.

End Parts.

(** ** Verification of all inputs *)

Lemma verify_clsag_signatures_all `{Sha3} `{Sodium} order rv message :
  order ≡ₚ seq 0 (length (decoys (sc_basic rv))) ->
  length (sc_pseudo_input_commits rv) = length (decoys (sc_basic rv)) ->
  get_ring_signature_message rv = Some message ->
  verify_clsag_signatures order rv =
  forallb (fun i => verify_unsafe_clsag_signature message (nth i (sc_CLSAGs rv) no_clsag)
                      (nth i (decoys (sc_basic rv)) []) (nth i (sc_pseudo_input_commits rv) 0))
    (seq 0 (length (decoys (sc_basic rv)))).
Proof.
  intros Hp Hl Hm. unfold verify_clsag_signatures. rewrite Hl, Nat.eqb_refl, Hm. cbn [negb]. cbv zeta.
  rewrite run_jobs_permutation by assumption.
  generalize (seq 0 (length (decoys (sc_basic rv)))). intros l. induction l as [|i l IH]; [reflexivity|].
  cbn [fmap list_fmap forallb]. now rewrite IH.
Qed.

(** The verdict on the ring signatures does not depend on the thread pool.
    Whatever the order in which the jobs of the pool finish, as long as each runs
    once, [verify_clsag_signatures] returns the same boolean, namely whether every
    input's signature is accepted. *)
Theorem clsag_verdict_schedule_independent `{Sha3} `{Sodium} (order : list nat) (rv : rctDataSizeChecked) :
  order ≡ₚ seq 0 (length (decoys (sc_basic rv))) ->
  verify_clsag_signatures order rv = verify_clsag_signatures (seq 0 (length (decoys (sc_basic rv)))) rv /\
  (verify_clsag_signatures order rv = true <->
   length (sc_pseudo_input_commits rv) = length (decoys (sc_basic rv)) /\
   exists message, get_ring_signature_message rv = Some message /\
     forall i, (i < length (decoys (sc_basic rv)))%nat ->
       verify_unsafe_clsag_signature message (nth i (sc_CLSAGs rv) no_clsag)
         (nth i (decoys (sc_basic rv)) []) (nth i (sc_pseudo_input_commits rv) 0) = true).
Proof.
  intros Hp. destruct (decide (length (sc_pseudo_input_commits rv) = length (decoys (sc_basic rv)))) as [Hl|Hl].
  - destruct (get_ring_signature_message rv) as [m|] eqn:Em.
    + rewrite !(verify_clsag_signatures_all _ rv m) by auto. split; [reflexivity|]. rewrite forallb_forall. split.
      * intros Hall. split; [assumption|]. exists m. split; [reflexivity|]. intros i Hi. apply Hall, in_seq. lia.
      * intros (_ & m' & [= <-] & Hall) i Hi%in_seq. apply Hall. lia.
    + unfold verify_clsag_signatures. rewrite Em. case_if; (split; [reflexivity|]); (split; [discriminate|]);
        intros (_ & m & ? & _); discriminate.
  - unfold verify_clsag_signatures. rewrite (proj2 (Nat.eqb_neq _ _) Hl). cbn [negb].
    split; [reflexivity|]. split; [discriminate|]. intros [? _]. contradiction.
Qed.

(** ** Completeness *)

(** An input the sender can spend: the output at its index in the ring is the
    sender's and commits to the amount; the mask of the pseudo-output differs from
    the output's; the draws of its signature are usable. *)
Definition input_ok `{Sha3} `{Sodium} (random : nat -> ec_scalar) (i : rctInputData) (mask : ec_scalar) : Prop :=
  i_decoys i !! i_index_in_decoys i =
    Some {| output_public_key := to_pk (i_signer_sk i);
            decoy_commit := commit (i_amount i) (i_signer_blinding_factor i) |} /\
  secret_ok (i_signer_sk i) /\ secret_ok (i_signer_blinding_factor i) /\ secret_ok mask /\
  i_signer_blinding_factor i <> mask /\ fits 64 (i_amount i) /\ (forall j, secret_ok (random j)) /\
  is_safe_point (hash_to_point_via_field (to_pk (i_signer_sk i))) = true.

(** The masks of the pseudo-outputs of a generated transaction. *)
Definition pseudo_masks `{Sha3} `{Sodium} (d : draws) (inputs : list rctInputData) (outputs : list rctOutputData) : scalarV :=
  matching_masks (foldl scalar_add s_zero (range_proof_inputs outputs).*2) (d_masks d) (length inputs).

(** The events of negligible probability in which a signature is refused. *)
Definition lucky_signature `{Sha3} `{Sodium} (message : hash) (i : rctInputData) (pseudo : ec_point) (sig : clsag) : Prop :=
  nth (i_index_in_decoys i) (s sig) 0 <> 0 /\
  forallb (fun c => negb (c =? s_zero)) (round_challenges message sig (i_decoys i) pseudo) = true.

Lemma result_mapM_Forall2 {A B} (f : A -> result B) l :
  Forall (fun x => exists y, f x = Returns y) l ->
  exists ys, result_mapM f l = Returns ys /\ Forall2 (fun x y => f x = Returns y) l ys.
Proof.
  induction 1 as [|x l [y Ey] _ (ys & E & HF)]; cbn [result_mapM]; [exists []; auto|].
  rewrite Ey, E. exists (y :: ys). cbn. auto.
Qed.

Section Complete.
Context `{HL : Sha3Laws} `{SL : SodiumLaws}.
Context (d : draws) (inputs : list rctInputData) (outputs : list rctOutputData).
Context (Hin : inputs <> []).
Context (Hinputs : forall k i m, inputs !! k = Some i -> pseudo_masks d inputs outputs !! k = Some m -> input_ok (d_sig d k) i m).
Context (Houtputs : Forall (fun x => fits 64 x.1 /\ secret_ok x.2) (range_proof_inputs outputs)).

Let pseudo_inputs :=
  generate_matching_input_commits (foldl scalar_add s_zero (range_proof_inputs outputs).*2) (d_masks d) (i_amount <$> inputs).

Lemma inputs_length : (0 < length inputs)%nat.
Proof using Hin. clear -Hin. destruct inputs; [contradiction|cbn; lia]. Qed.

Lemma length_pseudo_masks : length (pseudo_masks d inputs outputs) = length inputs.
Proof using Hin. apply length_matching_masks, inputs_length. Qed.

Lemma pseudo_input_lookup k i m :
  inputs !! k = Some i -> pseudo_masks d inputs outputs !! k = Some m ->
  pseudo_inputs !! k = Some (m, commit (i_amount i) m).
Proof using Hin.
  intros Hi Hm. pose proof inputs_length as Hpos. unfold pseudo_inputs, generate_matching_input_commits.
  destruct (i_amount <$> inputs) eqn:E; [apply (f_equal length) in E; rewrite length_fmap in E; cbn in E; lia|].
  rewrite <- E, length_fmap. fold (pseudo_masks d inputs outputs).
  rewrite lookup_zip_with, Hm, list_lookup_fmap, Hi. reflexivity.
Qed.

Lemma length_pseudo_inputs : length pseudo_inputs = length inputs.
Proof using Hin.
  pose proof inputs_length as Hpos. unfold pseudo_inputs, generate_matching_input_commits.
  destruct (i_amount <$> inputs) eqn:E; [apply (f_equal length) in E; rewrite length_fmap in E; cbn in E; lia|].
  rewrite <- E, length_zip_with, length_matching_masks, !length_fmap by (rewrite length_fmap; lia). lia.
Qed.

Lemma mask_exists k i : inputs !! k = Some i -> exists m, pseudo_masks d inputs outputs !! k = Some m.
Proof using Hin.
  intros Hi. apply lookup_lt_is_Some. rewrite length_pseudo_masks. now apply lookup_lt_Some in Hi.
Qed.

(** Every input is signed. *)
Lemma sign_inputs_ok message :
  exists clsags, sign_inputs message d inputs pseudo_inputs = Returns clsags /\ length clsags = length inputs /\
    forall k i m, inputs !! k = Some i -> pseudo_masks d inputs outputs !! k = Some m ->
      exists sig, clsags !! k = Some (toUnsafeCLSAG sig) /\
        generate_clsag_signature message (i_signer_sk i) (i_signer_blinding_factor i) (i_index_in_decoys i) m
          (commit (i_amount i) m) (i_decoys i) (d_sig d k) = Returns sig.
Proof using All.
  set (f := fun '(k, (i, q)) => sig ← generate_clsag_signature message (i_signer_sk i) (i_signer_blinding_factor i)
      (i_index_in_decoys i) (fst q) (snd q) (i_decoys i) (d_sig d k); Returns (toUnsafeCLSAG sig)).
  assert (Hlook : forall k i m, inputs !! k = Some i -> pseudo_masks d inputs outputs !! k = Some m ->
    zip (seq 0 (length inputs)) (zip inputs pseudo_inputs) !! k = Some (k, (i, (m, commit (i_amount i) m)))).
  { intros k i m Hi Hm. rewrite !lookup_zip_with, Hi, (pseudo_input_lookup k i m) by assumption.
    rewrite lookup_seq_lt by now apply lookup_lt_Some in Hi. reflexivity. }
  destruct (result_mapM_Forall2 f (zip (seq 0 (length inputs)) (zip inputs pseudo_inputs))) as (clsags & E & HF).
  - apply Forall_lookup. intros k x Hx.
    assert (exists i, inputs !! k = Some i) as [i Hi].
    { apply lookup_lt_is_Some. apply lookup_lt_Some in Hx. rewrite !length_zip_with, length_seq in Hx. lia. }
    destruct (mask_exists k i Hi) as [m Hm]. rewrite (Hlook k i m) in Hx by assumption. injection Hx as <-.
    destruct (Hinputs k i m Hi Hm) as (Hd & Hsk & Hbf & Hm0 & Hne & Ha & Hr & Hs).
    destruct (generate_verify message (i_signer_sk i) (i_signer_blinding_factor i) m (i_amount i) (i_index_in_decoys i)
      (i_decoys i) (d_sig d k)) as (sig & Es & _); auto.
    exists (toUnsafeCLSAG sig). unfold f. cbn [fst snd]. now rewrite Es.
  - exists clsags. split; [exact E|]. split.
    + rewrite <- (Forall2_length _ _ _ HF), !length_zip_with, length_seq, length_pseudo_inputs. lia.
    + intros k i m Hi Hm. destruct (Forall2_lookup_l _ _ _ _ _ HF (Hlook k i m Hi Hm)) as (u & Hu & Eu).
      unfold f in Eu. cbn [fst snd] in Eu. apply result_bind_inv in Eu as (sig & Es & [= <-]). eauto.
Qed.

(** A signature of a generated transaction is accepted. *)
Lemma generated_signature_verifies message k i m sig :
  inputs !! k = Some i -> pseudo_masks d inputs outputs !! k = Some m ->
  generate_clsag_signature message (i_signer_sk i) (i_signer_blinding_factor i) (i_index_in_decoys i) m
    (commit (i_amount i) m) (i_decoys i) (d_sig d k) = Returns sig ->
  lucky_signature message i (commit (i_amount i) m) sig ->
  verify_unsafe_clsag_signature message (toUnsafeCLSAG sig) (i_decoys i) (commit (i_amount i) m) = true.
Proof using All.
  intros Hi Hm Es [Hn Hc]. destruct (Hinputs k i m Hi Hm) as (Hd & Hsk & Hbf & Hm0 & Hne & Ha & Hr & Hs).
  assert (Hsafe : safe_clsag sig) by (eapply (generated_clsag_safe message (i_signer_sk i)); eauto).
  unfold verify_unsafe_clsag_signature, rule_10_ring_signature_should_not_contain_invalid_data.
  rewrite clsag_unsafe_safe by assumption.
  destruct (generate_verify message (i_signer_sk i) (i_signer_blinding_factor i) m (i_amount i) (i_index_in_decoys i)
    (i_decoys i) (d_sig d k)) as (sig' & Es' & _ & _ & Hv); auto.
  rewrite Es in Es'. injection Es' as <-. unfold rule_4_ringct_input_should_be_from_a_key. now rewrite Hv.
Qed.

(** The commitments of the inputs balance those of the outputs. *)
Lemma generated_balance fee :
  (forall j, scalar_ok (d_masks d j)) -> fits 64 fee -> sumZ (i_amount <$> inputs) = sumZ (o_amount <$> outputs) + fee ->
  rule_3_ringct_should_be_balanced pseudo_inputs.*2
    ((fun x => commit x.1 x.2) <$> range_proof_inputs outputs) fee = true.
Proof using All.
  intros Hr Hf Hsum. unfold pseudo_inputs. rewrite pseudo_commits, length_fmap by (rewrite length_fmap; apply inputs_length).
  fold (pseudo_masks d inputs outputs). pose proof length_pseudo_masks as Hlm. apply rule_3_commits; auto.
  - apply Forall_lookup. intros k [a m] Hk. rewrite lookup_zip_with in Hk. apply bind_Some in Hk as (a' & Ha & Hk).
    apply bind_Some in Hk as (m' & Hm & [= <- <-]). rewrite list_lookup_fmap in Ha.
    destruct (inputs !! k) as [i|] eqn:Hi; [|discriminate]. injection Ha as <-.
    destruct (Hinputs k i m' Hi Hm) as (_ & _ & _ & ? & _ & ? & _). auto.
  - rewrite snd_zip by (rewrite length_fmap; lia).
    destruct (foldl_scalar_add s_zero (range_proof_inputs outputs).*2) as [Ho E]; [apply scalar_ok_0| |].
    { apply Forall_fmap. eapply Forall_impl; [exact Houtputs|]. intros x [_ [? _]]. assumption. }
    unfold pseudo_masks. rewrite matching_masks_sum, E by auto. apply eq_eqL. change s_zero with 0. ring.
  - rewrite fst_zip by (rewrite length_fmap; lia). rewrite range_proof_amounts, Hsum. reflexivity.
Qed.

(** The data a generated transaction has. *)
Definition generated_basic (message : hash) (fee : amount_t) : rctDataBasic :=
  {| type := RCTTypeCLSAG; message := message; decoys := i_decoys <$> inputs;
     ecdh_encrypted_data := (fun x => encode_amount_by_hashed_ecdh_shared_secret (o_amount x)
                               (o_ecdh_shared_secret_hashed_by_index x)) <$> outputs;
     output_commits := (fun x => commit x.1 x.2) <$> range_proof_inputs outputs; fee := fee |}.

Lemma generate_ringct_shape attempts message fee :
  let w := (padded_number (length outputs) * bit_width)%nat in
  (1 <= length outputs <= max_outputs)%nat -> (forall i, secret_ok (d_proof d i)) -> init_generators <> Throws ->
  (forall j, (j < attempts)%nat -> draws_safe (range_proof_inputs outputs) (d_proof d) (j * (4 + w + w)) = true) ->
  exists res, generate_ringct attempts d message inputs outputs fee = Returns res /\
    (res = None -> attempts = O \/ zero_challenge) /\
    forall rv, res = Some rv -> exists proof full_message clsags,
      rv = {| sc_basic := generated_basic message fee; sc_bulletproof := toUnsafeBulletproof proof;
              sc_CLSAGs := clsags; sc_pseudo_input_commits := pseudo_inputs.*2 |} /\
      bulletproof_VERIFY ((fun x => commit x.1 x.2) <$> range_proof_inputs outputs) proof = Returns true /\
      get_ring_signature_message rv = Some full_message /\
      sign_inputs full_message d inputs pseudo_inputs = Returns clsags.
Proof using All.
  intros w Hl Hr Hi Hj. assert (Hlen : length (range_proof_inputs outputs) = length outputs) by apply length_fmap.
  unfold generate_ringct. rewrite throw_unless_true by (apply Nat.ltb_lt, inputs_length).
  rewrite throw_unless_true.
  2: { apply forallb_forall. intros i Hx%list_elem_of_In. apply list_elem_of_lookup in Hx as [k Hk].
       destruct (mask_exists k i Hk) as [m Hm]. destruct (Hinputs k i m Hk Hm) as [Hd _].
       apply Nat.ltb_lt. now apply lookup_lt_Some in Hd. }
  destruct (MAKE_complete attempts (range_proof_inputs outputs) (d_proof d)) as (res & E & HN & Hv);
    [now rewrite Hlen|exact Houtputs|exact Hr|exact Hi|now rewrite Hlen|].
  unfold generate_range_proof. rewrite E. cbn [mbind result_bind].
  destruct res as [proof|]; [|eexists; split; [reflexivity|]; split; [intros _; now apply HN|discriminate]]. cbn [mbind result_bind].
  fold pseudo_inputs. fold (generated_basic message fee).
  destruct (message_exists {| sc_basic := generated_basic message fee; sc_bulletproof := toUnsafeBulletproof proof;
    sc_CLSAGs := []; sc_pseudo_input_commits := pseudo_inputs.*2 |}) as [full Ef];
    [cbn; destruct inputs; [contradiction|discriminate]|reflexivity|cbn; now rewrite !length_fmap|].
  rewrite Ef. destruct (sign_inputs_ok full) as (clsags & Ec & _). rewrite Ec. cbn [mbind result_bind].
  eexists. split; [reflexivity|]. split; [discriminate|]. intros rv [= <-]. exists proof, full, clsags.
  split; [reflexivity|]. split; [now apply Hv|]. split; [exact Ef|exact Ec].
Qed.

Lemma generated_inputs_verify order message fee proof full clsags :
  let rv := {| sc_basic := generated_basic message fee; sc_bulletproof := toUnsafeBulletproof proof;
               sc_CLSAGs := clsags; sc_pseudo_input_commits := pseudo_inputs.*2 |} in
  order ≡ₚ seq 0 (length inputs) ->
  get_ring_signature_message rv = Some full -> sign_inputs full d inputs pseudo_inputs = Returns clsags ->
  (forall k i q sig, inputs !! k = Some i -> pseudo_inputs.*2 !! k = Some q -> clsags !! k = Some (toUnsafeCLSAG sig) ->
     lucky_signature full i q sig) ->
  verify_clsag_signatures order rv = true.
Proof using All.
  intros rv Hp Hm Hs Hlucky. assert (Hlen : length (decoys (sc_basic rv)) = length inputs) by apply length_fmap.
  rewrite (verify_clsag_signatures_all order rv full); [|now rewrite Hlen| |exact Hm].
  2: { rewrite Hlen. cbn. now rewrite length_fmap, length_pseudo_inputs. }
  rewrite Hlen. apply forallb_forall. intros k Hk%in_seq. destruct (sign_inputs_ok full) as (clsags' & Ec & _ & Hsig).
  rewrite Hs in Ec. injection Ec as <-.
  destruct (lookup_lt_is_Some_2 inputs k ltac:(lia)) as [i Hi]. destruct (mask_exists k i Hi) as [m Hm0].
  destruct (Hsig k i m Hi Hm0) as (sig & Hc & Es).
  assert (Hq : pseudo_inputs.*2 !! k = Some (commit (i_amount i) m))
    by (now rewrite list_lookup_fmap, (pseudo_input_lookup k i m)).
  assert (Hdec : (i_decoys <$> inputs) !! k = Some (i_decoys i)) by (now rewrite list_lookup_fmap, Hi).
  unfold rv. cbn [sc_basic sc_CLSAGs sc_pseudo_input_commits decoys generated_basic].
  rewrite (nth_lookup_Some _ _ _ _ Hc), (nth_lookup_Some _ _ _ _ Hq), (nth_lookup_Some _ _ _ _ Hdec).
  eapply generated_signature_verifies; eauto.
Qed.

End Complete.

(** C11: A generated transaction verifies.  For inputs the sender can spend, one to
    sixteen outputs with 64-bit amounts, and amounts that balance with the fee,
    [generate_ringct] does not throw, and returns a transaction unless some data
    hashes to the scalar zero; what it returns balances for every verifier,
    whatever the order of the verifying threads, and is accepted as a whole when the
    points of the range proof are not the identity and no signature challenge or
    response hashes to zero. *)
Theorem ringct_complete `{Sha3Laws} `{SodiumLaws} attempts d message inputs outputs fee order :
  let w := (padded_number (length outputs) * bit_width)%nat in
  inputs <> [] -> (1 <= length outputs <= max_outputs)%nat -> fits 64 fee ->
  (forall k i m, inputs !! k = Some i -> pseudo_masks d inputs outputs !! k = Some m -> input_ok (d_sig d k) i m) ->
  Forall (fun x => fits 64 x.1 /\ secret_ok x.2) (range_proof_inputs outputs) ->
  sumZ (i_amount <$> inputs) = sumZ (o_amount <$> outputs) + fee ->
  (forall i, secret_ok (d_proof d i)) -> (forall i, scalar_ok (d_masks d i)) -> init_generators <> Throws ->
  (forall j, (j < attempts)%nat -> draws_safe (range_proof_inputs outputs) (d_proof d) (j * (4 + w + w)) = true) ->
  order ≡ₚ seq 0 (length inputs) ->
  exists res, generate_ringct attempts d message inputs outputs fee = Returns res /\
    (res = None -> attempts = O \/ zero_challenge) /\
    forall rv, res = Some rv ->
      verify_ringct_balance rv = true /\
      exists proof full_message,
        sc_bulletproof rv = toUnsafeBulletproof proof /\ get_ring_signature_message rv = Some full_message /\
        (safe_bulletproof proof ->
         (forall k i q sig, inputs !! k = Some i -> sc_pseudo_input_commits rv !! k = Some q ->
            sc_CLSAGs rv !! k = Some (toUnsafeCLSAG sig) -> lucky_signature full_message i q sig) ->
         verify_ringct order rv = Returns true).
Proof.
  intros w Hin Hl Hf Hinputs Hout Hsum Hrp Hrm Hg Hj Hord.
  destruct (generate_ringct_shape d inputs outputs Hin Hinputs Hout attempts message fee) as (res & E & HN & Hres); auto.
  exists res. split; [exact E|]. split; [exact HN|]. intros rv Hrv. destruct (Hres rv Hrv) as (proof & full & clsags & -> & Hv & Hm & Hs).
  assert (Hb : verify_ringct_balance {| sc_basic := generated_basic inputs outputs message fee;
    sc_bulletproof := toUnsafeBulletproof proof; sc_CLSAGs := clsags; sc_pseudo_input_commits :=
    (generate_matching_input_commits (foldl scalar_add s_zero (range_proof_inputs outputs).*2) (d_masks d)
       (i_amount <$> inputs)).*2 |} = true) by (apply (generated_balance d inputs outputs); auto).
  split; [exact Hb|]. exists proof, full. split; [reflexivity|]. split; [exact Hm|]. intros Hsafe Hlucky.
  unfold verify_ringct, verify_range_proof, rule_9_range_proof_should_not_contain_invalid_data.
  cbn [sc_bulletproof]. rewrite bulletproof_unsafe_safe by assumption.
  unfold rule_2_ringct_output_amounts_should_not_overflow_amount_type. cbn [sc_basic output_commits generated_basic].
  rewrite Hv. cbn [mbind result_bind]. rewrite Hb.
  rewrite (generated_inputs_verify d inputs outputs Hin Hinputs Hout order message fee proof full clsags); auto.
Qed.

Lemma generate_ringct_basic `{Sha3} `{Sodium} attempts d message inputs outputs fee rv :
  generate_ringct attempts d message inputs outputs fee = Returns (Some rv) ->
  sc_basic rv = generated_basic inputs outputs message fee.
Proof.
  unfold generate_ringct. intros E. apply throw_unless_inv in E as [_ E]. apply throw_unless_inv in E as [_ E].
  apply result_bind_inv in E as ([[[bsum commits] proof]|] & Er & E); [|discriminate].
  unfold generate_range_proof in Er. apply result_bind_inv in Er as ([pf|] & _ & Er); [|discriminate].
  injection Er as <- <- <-. destruct (get_ring_signature_message _) as [m|]; [|discriminate].
  apply result_bind_inv in E as (clsags & _ & [= <-]). reflexivity.
Qed.

(** Decoding reads the encrypted amount and the commitment. *)
Lemma generated_basic_decodes `{Sha3Laws} `{SodiumLaws} message inputs outputs fee rv k o :
  ecdh_encrypted_data (sc_basic rv) = ecdh_encrypted_data (generated_basic inputs outputs message fee) ->
  output_commits (sc_basic rv) = output_commits (generated_basic inputs outputs message fee) ->
  outputs !! k = Some o -> fits 64 (o_amount o) ->
  decode_ringct_commitment rv (o_ecdh_shared_secret_hashed_by_index o) k =
  Returns (o_amount o, get_blinding_factor_from_hashed_shared_secret (o_ecdh_shared_secret_hashed_by_index o)).
Proof.
  intros Ee Ec Hk Ha. unfold decode_ringct_commitment. rewrite Ee, Ec. cbn [ecdh_encrypted_data output_commits generated_basic].
  rewrite throw_unless_true by (apply Nat.ltb_lt; rewrite length_fmap; now apply lookup_lt_Some in Hk). cbv zeta.
  erewrite nth_lookup_Some by (rewrite list_lookup_fmap, Hk; reflexivity).
  erewrite nth_lookup_Some by (unfold range_proof_inputs; rewrite !list_lookup_fmap, Hk; reflexivity).
  cbn [fst snd]. unfold decode_amount_by_hashed_ecdh_shared_secret, encode_amount_by_hashed_ecdh_shared_secret.
  rewrite hash_and_xor_involutive, Z.eqb_refl by assumption. reflexivity.
Qed.

(** The receiver decodes the output.  From a generated transaction, whoever
    knows the hashed shared secret of an output recovers its amount and the mask
    under which the commitment opens; no exception is raised. *)
Theorem generated_output_decodes `{Sha3Laws} `{SodiumLaws} attempts d message inputs outputs fee rv k o :
  generate_ringct attempts d message inputs outputs fee = Returns (Some rv) ->
  outputs !! k = Some o -> fits 64 (o_amount o) ->
  decode_ringct_commitment rv (o_ecdh_shared_secret_hashed_by_index o) k =
  Returns (o_amount o, get_blinding_factor_from_hashed_shared_secret (o_ecdh_shared_secret_hashed_by_index o)).
Proof.
  intros E. apply generate_ringct_basic in E. apply (generated_basic_decodes message inputs outputs fee); now rewrite E.
Qed.

Section Examples.
Import ModelGroup UnitDigest.

Definition example_draws : draws :=
  {| d_proof := BulletproofComplete.example_random; d_masks := fun _ => 3; d_sig := fun k j => 40 + Z.of_nat (k + j) mod 100 |}.

Definition example_inputs : list rctInputData :=
  [ {| i_amount := 8; i_signer_sk := 5; i_signer_blinding_factor := 11; i_index_in_decoys := 1;
       i_decoys := [ {| output_public_key := to_pk 21; decoy_commit := commit 9 4 |};
                     {| output_public_key := to_pk 5; decoy_commit := commit 8 11 |} ] |} ].

Definition example_outputs : list rctOutputData := [ {| o_amount := 5; o_ecdh_shared_secret_hashed_by_index := 77 |} ].

Definition example_rv : option rctDataSizeChecked :=
  Eval vm_compute in
    match generate_ringct 1 example_draws null_hash example_inputs example_outputs 3 with
    | Returns r => r | Throws => None end.

Lemma generated_output_decodes_witness :
  match example_rv with
  | Some rv => decode_ringct_commitment rv 77 0 = Returns (5, get_blinding_factor_from_hashed_shared_secret 77)
  | None => False
  end.
Proof.
  unfold example_rv. 
  apply (generated_output_decodes 1 example_draws null_hash example_inputs example_outputs 3 _ 0
           {| o_amount := 5; o_ecdh_shared_secret_hashed_by_index := 77 |}).
  - vm_compute. reflexivity.
  - reflexivity.
  - vm_compute. split; congruence.
Defined.

Definition example_two_inputs : rctDataSizeChecked :=
  {| sc_basic := {| type := RCTTypeCLSAG; message := null_hash; decoys := [[no_data]; [no_data]];
                    ecdh_encrypted_data := []; output_commits := []; fee := 0 |};
     sc_bulletproof := toUnsafeBulletproof example_proof; sc_CLSAGs := [no_clsag; no_clsag];
     sc_pseudo_input_commits := [1; 2] |}.

Lemma clsag_verdict_schedule_independent_witness :
  verify_clsag_signatures [1; 0]%nat example_two_inputs = verify_clsag_signatures [0; 1]%nat example_two_inputs.
Proof. exact (proj1 (clsag_verdict_schedule_independent [1; 0]%nat example_two_inputs (perm_swap 0%nat 1%nat []))). Defined.

Lemma ringct_complete_witness :
  exists res, generate_ringct 1 example_draws null_hash example_inputs example_outputs 3 = Returns res /\
    (res = None -> 1%nat = O \/ zero_challenge) /\
    forall rv, res = Some rv ->
      verify_ringct_balance rv = true /\
      exists proof full_message,
        sc_bulletproof rv = toUnsafeBulletproof proof /\ get_ring_signature_message rv = Some full_message /\
        (safe_bulletproof proof ->
         (forall k i q sig, example_inputs !! k = Some i -> sc_pseudo_input_commits rv !! k = Some q ->
            sc_CLSAGs rv !! k = Some (toUnsafeCLSAG sig) -> lucky_signature full_message i q sig) ->
         verify_ringct [0%nat] rv = Returns true).
Proof.
  refine (ringct_complete 1 example_draws null_hash example_inputs example_outputs 3 [0%nat] _ _ _ _ _ _ _ _ _ _ _).
  - discriminate.
  - change max_outputs with 16%nat. cbn [example_outputs length]. lia.
  - unfold fits. lia.
  - intros [|k] i m Hi Hm; [|destruct k; discriminate]. injection Hi as <-.
    assert (m = 1) as -> by (vm_compute in Hm; now injection Hm).
    split; [reflexivity|]. do 5 (split; [vm_compute; repeat split; congruence|]).
    split; [|vm_compute; reflexivity]. intros j. cbn [example_draws d_sig].
    pose proof (Z.mod_pos_bound (Z.of_nat (0 + j)) 100 ltac:(lia)). assert (500 < L) by reflexivity.
    unfold secret_ok, scalar_ok. lia.
  - constructor; [|constructor]. vm_compute. repeat split; congruence.
  - reflexivity.
  - exact BulletproofComplete.example_random_ok.
  - intros i. vm_compute. split; congruence.
  - exact model_init_generators.
  - intros j Hj. assert (j = 0)%nat as -> by lia. vm_compute. reflexivity.
  - reflexivity.
Defined.

(** The conditions are met by this example: the whole transaction verifies. *)
Example example_ringct_accepted :
  match generate_ringct 1 example_draws null_hash example_inputs example_outputs 3 with
  | Returns (Some rv) =>
    bool_decide (is_Some (maybeSafeBulletproof (sc_bulletproof rv))) &&
    match verify_ringct [0%nat] rv with Returns b => b | Throws => false end
  | _ => false
  end = true.
Proof. vm_cast_no_check (eq_refl true). Qed.

End Examples.

End RingCT.
