(* ===== verification/TxUtils.v ===== *)
(** Construction of transactions ([src/src/cryptonote/tx/functional/tx_utils.cpp]):
    the keys of an output and the miner's transaction. *)

From S2P Require Import Prelude Hash Config Varint Serialization Primality Group ModelGroup Key RctOps VectorOps InnerProduct Bulletproof Clsag RctTypes TxTypes Consensus Coinbase FormatUtils TxExtra.

Module TxUtils.
Import Config Key RctOps VectorOps RctTypes TxTypes Consensus Coinbase FormatUtils TxExtra.

Record tx_destination_entry := {
  dst_amount : Z; dst_addr : spend_view_public_keys; dst_is_subaddress : bool }.

Section Construct.
Context `{Sha3} `{Sodium}.

(** [generate_output_key_pairs]: the accumulated keys and secrets, and the output key *)
Definition generate_output_key_pairs (dst_entr : tx_destination_entry) (output_index : nat)
    (output_secret_keys : list secret_key) (output_public_keys_in : list public_key)
    (output_shared_secrets_hashed_by_index_in : scalarV) : option (list public_key * scalarV * public_key) :=
  let sk := nth output_index output_secret_keys 0 in
  let txkey :=
    {| sec := sk;
       pub := if dst_is_subaddress dst_entr then m_spend_public_key (dst_addr dst_entr) ^ₚ sk else to_pk sk |} in
  let tx_output_shared_secret := derive_tx_output_ecdh_shared_secret (m_view_public_key (dst_addr dst_entr)) (sec txkey) in
  let tx_output_shared_secret_indexed_hash :=
    hash_tx_output_shared_secret_to_scalar tx_output_shared_secret (Z.of_nat output_index) in
  eph_pk ← compute_output_public_key_from_subaddress_spend_pk tx_output_shared_secret (Z.of_nat output_index)
             (m_spend_public_key (dst_addr dst_entr));
  Some (output_public_keys_in ++ [pub txkey],
        output_shared_secrets_hashed_by_index_in ++ [tx_output_shared_secret_indexed_hash], eph_pk).

(** The loop over the destinations of [construct_tx_with_tx_key]. *)
Fixpoint generate_outputs (destinations : list tx_destination_entry) (output_index : nat)
    (output_secret_keys : list secret_key) (output_public_keys : list public_key) (secrets : scalarV)
    (vout : list tx_out) (summary_outs_money : Z) : option (list public_key * scalarV * list tx_out * Z) :=
  match destinations with
  | [] => Some (output_public_keys, secrets, vout, summary_outs_money)
  | dst :: rest =>
      '(keys, secrets', out_eph_public_key) ←
        generate_output_key_pairs dst output_index output_secret_keys output_public_keys secrets;
      generate_outputs rest (S output_index) output_secret_keys keys secrets'
        (vout ++ [ {| amount := dst_amount dst; target := txout_to_key out_eph_public_key |} ])
        (summary_outs_money ⊞ dst_amount dst)
  end.

(** [construct_miner_tx]: [txkey_sec] is the random key; [init] the ring-CT data of
    the fresh object. *)
Definition construct_miner_tx (init : rctData) (txkey_sec : secret_key) (height current_block_weight fee : Z)
    (miner_address : spend_view_public_keys) (already_generated_coins : Z) : option transaction :=
  let txkey := {| sec := txkey_sec; pub := to_pk txkey_sec |} in
  let extra := add_tx_ecdh_public_key_to_extra [] (pub txkey) in
  if negb (is_block_size_valid height current_block_weight) then None else
  let block_reward := get_block_reward already_generated_coins ⊞ fee in
  let tx_output_shared_secret := derive_tx_output_ecdh_shared_secret (m_view_public_key miner_address) (sec txkey) in
  out_eph_public_key ← compute_output_public_key_from_subaddress_spend_pk tx_output_shared_secret 0
                         (m_spend_public_key miner_address);
  Some {| prefix := {| version := 2; unlock_height := get_coinbase_unlock_height height; vin := [txin_gen height];
                       vout := [ {| amount := block_reward; target := txout_to_key out_eph_public_key |} ];
                       extra := extra |};
          ringct := init |}.

End Construct.

Section Accepted.
Context `{HL : Sha3Laws} `{SL : SodiumLaws}.

Lemma output_key_safe shared index s :
  let x := compute_output_secret_key_from_subaddress_spend_sk shared index s in
  secret_ok s -> secret_ok (hash_tx_output_shared_secret_to_scalar shared index) -> x <> 0 -> safe (to_pk x).
Proof using HL SL.
  intros x [Hs _] [Hh _] Hx. assert (Ox : secret_ok x) by (split; [now apply scalar_add_closed|assumption]).
  unfold safe. rewrite to_pk_enc by assumption. apply is_safe_point_spec. exists x. auto using secret_nonzero.
Qed.

End Accepted.

(** A miner's transaction is accepted.  When the block is not too large and
    the reward and fees fit 64 bits, [construct_miner_tx] succeeds for an address
    whose spend key the miner knows; any block with it passes both
    miner-transaction checks at that height, and the miner's one output holds the
    reward and the fees. *)
Theorem mined_coinbase_accepted `{Sha3Laws} `{SodiumLaws} init r height weight fee address spend_sk coins :
  let shared := derive_tx_output_ecdh_shared_secret (m_view_public_key address) r in
  m_spend_public_key address = to_pk spend_sk -> secret_ok spend_sk ->
  secret_ok (hash_tx_output_shared_secret_to_scalar shared 0) ->
  compute_output_secret_key_from_subaddress_spend_sk shared 0 spend_sk <> 0 ->
  type (basic init) = RCTTypeNull -> height <> 0 -> is_block_size_valid height weight = true ->
  0 <= coins <= get_money_supply -> 0 <= fee -> get_block_reward coins + fee < 2 ^ 64 ->
  exists tx c,
    construct_miner_tx init r height weight fee address coins = Some tx /\
    (forall hd hashes, prevalidate_miner_transaction {| header := hd; miner_tx := tx; tx_hashes := hashes |} height = Some c) /\
    validate_miner_transaction height c weight fee coins = Some c /\
    amount <$> vout (prefix tx) = [get_block_reward coins + fee].
Proof.
  intros shared Hspend Hs Hh Hx Ht H0h Hw Hc Hf Hfit.
  set (x := compute_output_secret_key_from_subaddress_spend_sk shared 0 spend_sk) in *.
  pose proof (output_key_recovered shared 0 spend_sk Hs Hh Hx) as [Ho _].
  pose proof (output_key_safe shared 0 spend_sk Hs Hh Hx) as Hsafe. fold x in Ho, Hsafe.
  pose proof (get_block_reward_bounds coins Hc) as Hr.
  unfold construct_miner_tx. rewrite Hw. cbn [negb sec]. fold shared. rewrite Hspend, Ho. cbn [mbind option_bind].
  rewrite u64_add_small by (unfold fits; lia). eexists. set (tx := Build_transaction _ _).
  exists {| cb_unlock_height := unlock_height (prefix tx); cb_extra := extra (prefix tx); cb_height := height;
            cb_outputs := coinbase_outputs_of (vout (prefix tx)) |}.
  assert (Ha : Forall (fits 64) (amount <$> vout (prefix tx))) by (unfold tx; cbn [prefix vout fmap list_fmap amount]; constructor; [unfold fits; lia|constructor]).
  assert (Hl : Z.of_nat (length (vout (prefix tx))) < 2 ^ 64) by (cbn; lia).
  split; [reflexivity|]. split; [|split; [|reflexivity]].
  - intros hd hashes. unfold prevalidate_miner_transaction. rewrite (proj2 (Z.eqb_neq _ _) H0h). cbn [miner_tx].
    rewrite (proj2 (maybe_coinbase_tx_iff tx {| cb_unlock_height := unlock_height (prefix tx); cb_extra := extra (prefix tx);
      cb_height := height; cb_outputs := coinbase_outputs_of (vout (prefix tx)) |} Ha Hl)).
    + cbn [mbind option_bind cb_height]. now rewrite Z.eqb_refl.
    + repeat split; auto; [now constructor|]. unfold tx, sumZ. cbn. lia.
  - unfold validate_miner_transaction. rewrite (proj2 (Z.eqb_neq _ _) H0h), Hw. cbn [negb cb_outputs].
    unfold rule_19_coinbase_tx_should_be_balanced. rewrite coinbase_outputs_amounts. unfold tx. cbn [prefix vout fmap list_fmap amount foldl].
    rewrite !u64_add_small by (unfold fits; lia). now rewrite Z.add_0_l, Z.eqb_refl.
Qed.

Section Examples.
Import ModelGroup RollingDigest.

Lemma mined_coinbase_accepted_witness :
  exists tx c,
    construct_miner_tx no_rct 5 7 2000 100 (get_subaddress example_keys {| major := 0; minor := 0 |}) 0 = Some tx /\
    (forall hd hashes, prevalidate_miner_transaction {| header := hd; miner_tx := tx; tx_hashes := hashes |} 7 = Some c) /\
    validate_miner_transaction 7 c 2000 100 0 = Some c /\ amount <$> vout (prefix tx) = [get_block_reward 0 + 100].
Proof.
  apply (mined_coinbase_accepted no_rct 5 7 2000 100 (get_subaddress example_keys {| major := 0; minor := 0 |}) 7 0).
  - vm_compute. reflexivity.
  - vm_compute. repeat split; congruence.
  - vm_compute. repeat split; congruence.
  - vm_compute. congruence.
  - reflexivity.
  - discriminate.
  - vm_compute. reflexivity.
  - vm_compute. split; congruence.
  - lia.
  - vm_compute. reflexivity.
Defined.

End Examples.

End TxUtils.
