(* ===== verification/BlockQueue.v ===== *)
(** The queue of downloaded blocks
    ([src/src/cryptonote/protocol/block_queue.cpp] and [.h]): batches of blocks
    received from the connections, waiting to be added to the chain.  Every
    operation holds [batch_mutex], so that concurrent calls are a sequence of the
    operations below. *)

From S2P Require Import Prelude Hash.

Module BlockQueue.

(** [block_complete_entry] and [tx_blob_entry] of [cryptonote_protocol_defs.h] *)
Record tx_blob_entry := { te_blob : blob; te_prunable_hash : hash }.
Record block_complete_entry := {
  pruned : bool; bce_block : blob; block_weight : Z; txs : list tx_blob_entry }.

Section Queue.
(** Connection identifiers, network addresses, the floating-point rate and the
    clock's time points are opaque to the queue. *)
Context {uuid address float time_point : Type} `{EqDecision uuid} (time_min : time_point).

Record block_batch := {
  start_block_height : Z; blocks : list block_complete_entry; connection_id : uuid;
  block_rate : float; data_size : Z; time : time_point; origin : address }.

(** [struct block_queue { std::list<block_batch> batches; }] *)
Definition block_queue := list block_batch.

(** [batches.emplace_back(height, xs, connection_id, addr, rate, size)] *)
Definition add_blocks (q : block_queue) (height : Z) (xs : list block_complete_entry) (id : uuid) (addr : address)
    (rate : float) (size : Z) : block_queue :=
  match xs with
  | [] => q
  | _ => q ++ [{| start_block_height := height; blocks := xs; connection_id := id; block_rate := rate;
                  data_size := size; time := time_min; origin := addr |}]
  end.

Fixpoint remove_batches_from_connection (id : uuid) (q : block_queue) : block_queue :=
  match q with
  | [] => []
  | x :: q' =>
    if bool_decide (connection_id x <> id) then x :: remove_batches_from_connection id q'
    else remove_batches_from_connection id q'
  end.

(** The overload with a height *)
Fixpoint remove_batches_up_to (id : uuid) (height : Z) (q : block_queue) : block_queue :=
  match q with
  | [] => []
  | x :: q' =>
    if bool_decide (connection_id x = id) && (start_block_height x <=? height)
    then remove_batches_up_to id height q'
    else x :: remove_batches_up_to id height q'
  end.

(** The [while] loop that advances through the hashes: [i] is what is left. *)
Fixpoint span_length_loop {A} (i : list A) (span_length max_blocks : Z) : Z :=
  match i with
  | [] => span_length
  | _ :: i' =>
    if span_length <? max_blocks then span_length_loop i' (span_length ⊞ 1) max_blocks else span_length
  end.

(** The queue, the connection, the address, the height of the chain and the time
    are arguments the code only logs. *)
Definition reserve_blocks (first_block_height last_block_height max_blocks : Z) (block_hashes : list (hash * Z))
    : option (Z * Z) :=
  let size := Z.of_nat (length block_hashes) in
  if (last_block_height <? first_block_height) || (max_blocks =? 0) then None else
  if size >? last_block_height then None else
  let span_start_height := last_block_height ⊟ size ⊞ 1 in
  let block_hashes_start_height := last_block_height ⊟ size ⊞ 1 in
  if span_start_height >=? size ⊞ block_hashes_start_height then None else
  let i := drop (Z.to_nat (span_start_height ⊟ block_hashes_start_height)) block_hashes in
  let span_length := span_length_loop i 0 max_blocks in
  if span_length =? 0 then None else Some (span_start_height, span_length).

Definition get_next_span_if_scheduled (q : block_queue) : option (Z * Z) :=
  match q with
  | [] => None
  | x :: _ => Some (start_block_height x, Z.of_nat (length (blocks x)))
  end.

Definition reset_next_batch_time (t : time_point) (q : block_queue) : block_queue :=
  match q with
  | [] => []
  | x :: q' =>
    {| start_block_height := start_block_height x; blocks := blocks x; connection_id := connection_id x;
       block_rate := block_rate x; data_size := data_size x; time := t; origin := origin x |} :: q'
  end.

Definition get_next_batch (q : block_queue) : option (Z * list block_complete_entry * uuid * address) :=
  match q with
  | [] => None
  | x :: _ => Some (start_block_height x, blocks x, connection_id x, origin x)
  end.

Definition has_next_batch (height : Z) (q : block_queue) : bool :=
  match q with [] => false | x :: _ => start_block_height x <=? height end.

(** ** Runs

    The calls that change the queue, and the queue after a sequence of them. *)
Inductive call :=
| AddBlocks (height : Z) (xs : list block_complete_entry) (id : uuid) (addr : address) (rate : float) (size : Z)
| RemoveConnection (id : uuid)
| RemoveUpTo (id : uuid) (height : Z)
| ResetTime (t : time_point).

Definition run_call (q : block_queue) (c : call) : block_queue :=
  match c with
  | AddBlocks h xs id addr rate size => add_blocks q h xs id addr rate size
  | RemoveConnection id => remove_batches_from_connection id q
  | RemoveUpTo id h => remove_batches_up_to id h q
  | ResetTime t => reset_next_batch_time t q
  end.

Definition run (cs : list call) : block_queue := foldl run_call [] cs.

(** The specification: the batches that were added and not removed since, in the
    order they arrived, whatever the clock did. *)
Definition without_time (x : block_batch) : Z * list block_complete_entry * uuid * float * Z * address :=
  (start_block_height x, blocks x, connection_id x, block_rate x, data_size x, origin x).

Definition removes (c : call) (id : uuid) (height : Z) : bool :=
  match c with
  | RemoveConnection i => bool_decide (id = i)
  | RemoveUpTo i h => bool_decide (id = i) && (height <=? h)
  | _ => false
  end.

Fixpoint survivors (cs : list call) : list (Z * list block_complete_entry * uuid * float * Z * address) :=
  match cs with
  | [] => []
  | AddBlocks h xs id addr rate size :: later =>
    if bool_decide (xs = []) || existsb (fun c => removes c id h) later then survivors later
    else (h, xs, id, rate, size, addr) :: survivors later
  | _ :: later => survivors later
  end.

(** ** Reserving a span of hashes *)

Lemma span_length_loop_min {A} (i : list A) n m :
  0 <= n <= m -> m < 2 ^ 64 -> span_length_loop i n m = Z.min (n + Z.of_nat (length i)) m.
Proof.
  revert n; induction i as [|x i IH]; intros n Hn Hm; cbn [span_length_loop length]; [lia|].
  destruct (n <? m) eqn:E; to_prop; [|lia].
  rewrite u64_add_small by (unfold fits; lia). rewrite IH by lia. lia.
Qed.

(** Reserving a span.  For a request that ends below the last 64-bit height,
    [reserve_blocks] fails exactly when the range or the limit is empty or the
    hashes do not fit below the last height; otherwise the span starts where the
    hashes start, is as long as the hashes and the limit allow, and ends at the
    last height at most: no computation of heights wraps. *)
Theorem reserve_blocks_exact (first last max : Z) (hashes : list (hash * Z)) :
  let size := Z.of_nat (length hashes) in
  0 <= first -> 0 <= last < 2 ^ 64 - 1 -> fits 64 max ->
  (reserve_blocks first last max hashes = None <-> last < first \/ max = 0 \/ size = 0 \/ last < size) /\
  forall start len, reserve_blocks first last max hashes = Some (start, len) ->
    start = last - size + 1 /\ len = Z.min size max /\ 0 < len /\ start + len <= last + 1.
Proof.
  intros size Hf Hl [Hm0 Hm]. unfold reserve_blocks. fold size. assert (0 <= size) by lia.
  destruct ((last <? first) || (max =? 0)) eqn:E1; to_prop;
    [split; [split; [intros _; lia|reflexivity]|discriminate]|].
  rewrite Z.gtb_ltb. destruct (last <? size) eqn:E2; to_prop;
    [split; [split; [intros _; lia|reflexivity]|discriminate]|].
  rewrite (u64_sub_small last) by (unfold fits; lia). rewrite (u64_add_small (last - size)) by (unfold fits; lia).
  rewrite (u64_add_small size) by (unfold fits; lia). rewrite Z.geb_leb.
  destruct (size + (last - size + 1) <=? last - size + 1) eqn:E3; to_prop; [split; [split; [lia|reflexivity]|discriminate]|].
  rewrite u64_sub_small by (unfold fits; lia). rewrite Z.sub_diag, drop_0, span_length_loop_min by lia.
  fold size. rewrite !Z.add_0_l. destruct (Z.min size max =? 0) eqn:E4; to_prop; [lia|].
  split; [split; [intros [=]|lia]|]. intros start len [= <- <-]. lia.
Qed.
(** ** The queue is what was added and not removed *)

Lemma survivors_add cs h xs id addr rate size :
  xs <> [] -> survivors (cs ++ [AddBlocks h xs id addr rate size]) = survivors cs ++ [(h, xs, id, rate, size, addr)].
Proof.
  intros Hx. induction cs as [|c cs IH]; cbn.
  - now rewrite bool_decide_eq_false_2.
  - destruct c; try exact IH. rewrite existsb_app. cbn. rewrite orb_false_r, IH. now destruct (_ || _).
Qed.

Lemma survivors_skip cs c :
  (forall id h, removes c id h = false) -> survivors [c] = [] -> survivors (cs ++ [c]) = survivors cs.
Proof.
  intros Hc H0. induction cs as [|c' cs IH]; [exact H0|]. cbn [app survivors].
  destruct c'; try exact IH. rewrite existsb_app. cbn [existsb]. now rewrite Hc, !orb_false_r, IH.
Qed.

Lemma survivors_remove cs c :
  survivors [c] = [] ->
  survivors (cs ++ [c]) = List.filter (fun '(h, _, id, _, _, _) => negb (removes c id h)) (survivors cs).
Proof.
  intros H0. induction cs as [|c' cs IH]; [exact H0|]. cbn [app survivors].
  destruct c' as [h xs id addr rate size|?|? ?|?]; try exact IH.
  rewrite existsb_app. cbn [existsb]. rewrite orb_false_r, IH.
  destruct (bool_decide (xs = [])), (existsb _ cs), (removes c id h) eqn:E; cbn [orb List.filter]; rewrite ?E; reflexivity.
Qed.

Lemma remove_connection_filter id q :
  without_time <$> remove_batches_from_connection id q =
  List.filter (fun '(h, _, i, _, _, _) => negb (removes (RemoveConnection id) i h)) (without_time <$> q).
Proof.
  induction q as [|x q IH]; [reflexivity|]. cbn. case_bool_decide as E; case_bool_decide as E'; try tauto; cbn; now rewrite IH.
Qed.

Lemma remove_up_to_filter id h q :
  without_time <$> remove_batches_up_to id h q =
  List.filter (fun '(h', _, i, _, _, _) => negb (removes (RemoveUpTo id h) i h')) (without_time <$> q).
Proof.
  induction q as [|x q IH]; [reflexivity|]. cbn. destruct (bool_decide _ && _); cbn; now rewrite IH.
Qed.

Lemma run_snoc cs c : run (cs ++ [c]) = run_call (run cs) c.
Proof. unfold run. now rewrite foldl_app. Qed.

Lemma run_survivors cs : without_time <$> run cs = survivors cs.
Proof.
  induction cs as [|c cs IH] using rev_ind; [reflexivity|]. rewrite run_snoc.
  destruct c as [h xs id addr rate size|id|id h|t]; cbn [run_call].
  - destruct xs as [|x xs]; cbn [add_blocks].
    + now rewrite survivors_skip by reflexivity.
    + rewrite survivors_add by discriminate. now rewrite fmap_app, IH.
  - now rewrite remove_connection_filter, IH, <- survivors_remove.
  - now rewrite remove_up_to_filter, IH, <- survivors_remove.
  - rewrite survivors_skip, <- IH by reflexivity. now destruct (run cs).
Qed.

(** C38: The block queue refines its specification.  After any sequence of calls, in
    whatever order the threads took the lock, the queue holds exactly the non-empty
    batches that were added and not removed by a later call, in the order of their
    arrival; the clock changes none of their other members. *)
Theorem queue_refines_survivors (cs : list call) : without_time <$> run cs = survivors cs.
Proof. apply run_survivors. Qed.

Lemma survivors_nonempty cs h xs id rate size addr :
  (h, xs, id, rate, size, addr) ∈ survivors cs -> xs <> [].
Proof.
  induction cs as [|c cs IH]; cbn; [now intros ?%not_elem_of_nil|].
  destruct c; try exact IH. case_bool_decide as E; cbn [orb]; [exact IH|].
  destruct (existsb _ _); [exact IH|]. intros [[= <- <- <- <- <- <-]|]%elem_of_cons; auto.
Qed.

Lemma remove_up_to_length id h q : (length (remove_batches_up_to id h q) <= length q)%nat.
Proof. induction q as [|x q IH]; cbn; [lia|]. destruct (_ && _); cbn; lia. Qed.

Lemma remove_up_to_keeps id h q x :
  x ∈ remove_batches_up_to id h q <-> x ∈ q /\ ~ (connection_id x = id /\ start_block_height x <= h).
Proof.
  induction q as [|y q IH]; cbn; [split; [intros ?%not_elem_of_nil; tauto|intros [?%not_elem_of_nil _]; tauto]|].
  case_bool_decide as E1; cbn [andb]; [destruct (start_block_height y <=? h) eqn:E2; to_prop|];
    rewrite ?elem_of_cons, IH; [| |]; split; try (intros [->|[? ?]]; split; auto; lia || tauto); try tauto.
  all: intros [[->|Hq] Hn]; auto; exfalso; apply Hn; auto.
Qed.

(** Processing makes progress.  The next batch of a queue that any calls produced
    has at least one block; removing it, as the protocol handler does when it has
    processed or rejected the batch, shortens the queue, and exactly the batches of
    that connection that start no higher are gone. *)
Theorem next_batch_removed (cs : list call) (h : Z) (xs : list block_complete_entry) (id : uuid) (addr : address) :
  get_next_batch (run cs) = Some (h, xs, id, addr) ->
  xs <> [] /\ get_next_span_if_scheduled (run cs) = Some (h, Z.of_nat (length xs)) /\
  (length (remove_batches_up_to id h (run cs)) < length (run cs))%nat /\
  forall x, x ∈ remove_batches_up_to id h (run cs) <->
            x ∈ run cs /\ ~ (connection_id x = id /\ start_block_height x <= h).
Proof.
  intros E. pose proof (remove_up_to_keeps id h (run cs)) as Hk. pose proof (run_survivors cs) as Hs.
  destruct (run cs) as [|x q]; [discriminate|]. injection E as <- <- <- <-.
  split; [|split; [reflexivity|split; [|exact Hk]]].
  - eapply survivors_nonempty. rewrite <- Hs. left.
  - cbn. rewrite bool_decide_eq_true_2, Z.leb_refl by reflexivity. cbn.
    pose proof (remove_up_to_length (connection_id x) (start_block_height x) q). lia.
Qed.

End Queue.

(** ** Examples *)

Definition example_entry : block_complete_entry := {| pruned := false; bce_block := [1]; block_weight := 1; txs := [] |}.

(** Connections 1 and 2 deliver blocks, the clock ticks, connection 2 is dropped
    and delivers again. *)
Definition example_calls : list (@call nat unit unit nat) :=
  [AddBlocks 10 [example_entry] 1%nat tt tt 1; AddBlocks 20 [example_entry; example_entry] 2%nat tt tt 2;
   ResetTime 5%nat; AddBlocks 30 [] 1%nat tt tt 0; RemoveConnection 2%nat;
   AddBlocks 40 [example_entry] 2%nat tt tt 1; AddBlocks 12 [example_entry] 1%nat tt tt 1].

Lemma reserve_blocks_exact_witness :
  reserve_blocks 5 100 3 (replicate 10 (null_hash, 0)) = Some (91, 3) /\ 91 = 100 - 10 + 1.
Proof.
  split; [reflexivity|].
  refine (proj1 (proj2 (reserve_blocks_exact 5 100 3 (replicate 10 (null_hash, 0)) _ _ _) 91 3 eq_refl)).
  all: unfold fits; lia.
Defined.

Lemma next_batch_removed_witness :
  (length (remove_batches_up_to 1%nat 10 (run 0%nat example_calls)) < length (run 0%nat example_calls))%nat.
Proof. eapply (next_batch_removed 0%nat example_calls 10 [example_entry] 1%nat tt). reflexivity. Defined.
End BlockQueue.
