(* ===== verification/PoolTable.v ===== *)
(** The tables of the transaction pool: the metadata record of a pooled
    transaction ([src/src/daemon/database/interface/blockchain.hpp] and [.cpp]),
    the operations of the LMDB back end on them
    ([src/src/daemon/database/instance/lmdb/lmdb.cpp]) and the batch guard
    ([src/src/daemon/database/interface/locked_txn.h]).

    LMDB is a third-party store; the two tables are finite maps from transaction
    ids.  They are opened without [MDB_DUPSORT], so that [mdb_cursor_put]
    with [MDB_NODUPDATA] replaces the value of an existing key. *)

From stdpp Require Import gmap sorting.
From S2P Require Import Prelude Hash.

Module PoolTable.

(** ** Relay methods and metadata *)

Inductive relay_method := none | local | block | fluff.
Inductive relay_category := broadcasted | relayable | legacy | all.

#[export] Instance relay_method_eq_dec : EqDecision relay_method.
Proof. solve_decision. Defined.
#[export] Instance relay_category_eq_dec : EqDecision relay_category.
Proof. solve_decision. Defined.

Definition matches_category (method : relay_method) (category : relay_category) : bool :=
  match category with
  | all => true
  | relayable => match method with none => false | _ => true end
  | broadcasted | legacy =>
    match method with
    | local => false
    | block | fluff => true
    | none => match category with legacy => true | _ => false end
    end
  end.

(** The flag bytes and bit fields only hold 0 and 1; the padding is zeroed. *)
Record txpool_tx_meta_t := {
  max_used_block_id : hash;
  last_failed_id : hash;
  weight : Z;
  fee : Z;
  max_used_block_height : Z;
  last_failed_height : Z;
  receive_time : Z;
  last_relayed_time : Z;
  tx_from_block : bool;
  relayed : bool;
  do_not_relay : bool;
  double_spend_seen : bool;
  pruned : bool;
  is_local : bool }.

#[export] Instance txpool_tx_meta_eq_dec : EqDecision txpool_tx_meta_t.
Proof. solve_decision. Defined.

Definition set_relay_method (method : relay_method) (m : txpool_tx_meta_t) : txpool_tx_meta_t :=
  {| max_used_block_id := max_used_block_id m; last_failed_id := last_failed_id m; weight := weight m;
     fee := fee m; max_used_block_height := max_used_block_height m; last_failed_height := last_failed_height m;
     receive_time := receive_time m; last_relayed_time := last_relayed_time m; relayed := relayed m;
     double_spend_seen := double_spend_seen m; pruned := pruned m;
     do_not_relay := match method with none => true | _ => false end;
     is_local := match method with local => true | _ => false end;
     tx_from_block := match method with block => true | _ => false end |}.

Definition get_relay_method (m : txpool_tx_meta_t) : relay_method :=
  if tx_from_block m then block else if do_not_relay m then none else if is_local m then local else fluff.

Definition matches (m : txpool_tx_meta_t) (category : relay_category) : bool :=
  matches_category (get_relay_method m) category.

(** Assignments to single members. *)
Definition set_double_spend_seen (b : bool) (m : txpool_tx_meta_t) : txpool_tx_meta_t :=
  {| max_used_block_id := max_used_block_id m; last_failed_id := last_failed_id m; weight := weight m;
     fee := fee m; max_used_block_height := max_used_block_height m; last_failed_height := last_failed_height m;
     receive_time := receive_time m; last_relayed_time := last_relayed_time m; relayed := relayed m;
     double_spend_seen := b; pruned := pruned m; do_not_relay := do_not_relay m; is_local := is_local m;
     tx_from_block := tx_from_block m |}.

Definition set_relayed_at (now : Z) (m : txpool_tx_meta_t) : txpool_tx_meta_t :=
  {| max_used_block_id := max_used_block_id m; last_failed_id := last_failed_id m; weight := weight m;
     fee := fee m; max_used_block_height := max_used_block_height m; last_failed_height := last_failed_height m;
     receive_time := receive_time m; last_relayed_time := now; relayed := true;
     double_spend_seen := double_spend_seen m; pruned := pruned m; do_not_relay := do_not_relay m;
     is_local := is_local m; tx_from_block := tx_from_block m |}.

Definition set_max_used (h : Z) (id : hash) (m : txpool_tx_meta_t) : txpool_tx_meta_t :=
  {| max_used_block_id := id; last_failed_id := last_failed_id m; weight := weight m;
     fee := fee m; max_used_block_height := h; last_failed_height := last_failed_height m;
     receive_time := receive_time m; last_relayed_time := last_relayed_time m; relayed := relayed m;
     double_spend_seen := double_spend_seen m; pruned := pruned m; do_not_relay := do_not_relay m;
     is_local := is_local m; tx_from_block := tx_from_block m |}.

Definition set_last_failed (h : Z) (id : hash) (m : txpool_tx_meta_t) : txpool_tx_meta_t :=
  {| max_used_block_id := max_used_block_id m; last_failed_id := id; weight := weight m;
     fee := fee m; max_used_block_height := max_used_block_height m; last_failed_height := h;
     receive_time := receive_time m; last_relayed_time := last_relayed_time m; relayed := relayed m;
     double_spend_seen := double_spend_seen m; pruned := pruned m; do_not_relay := do_not_relay m;
     is_local := is_local m; tx_from_block := tx_from_block m |}.

(** ** Tables *)

Record tables := { txpool_meta : gmap hash txpool_tx_meta_t; txpool_blob : gmap hash blob }.

Definition add_txpool_tx (txid : hash) (bd : blob) (meta : txpool_tx_meta_t) (t : tables) : tables :=
  {| txpool_meta := <[txid := meta]> (txpool_meta t); txpool_blob := <[txid := bd]> (txpool_blob t) |}.

Definition update_txpool_tx (txid : hash) (meta : txpool_tx_meta_t) (t : tables) : result tables :=
  match txpool_meta t !! txid with
  | None => Throws
  | Some _ => Returns {| txpool_meta := <[txid := meta]> (txpool_meta t); txpool_blob := txpool_blob t |}
  end.

Definition remove_txpool_tx (txid : hash) (t : tables) : tables :=
  {| txpool_meta := delete txid (txpool_meta t); txpool_blob := delete txid (txpool_blob t) |}.

Definition get_txpool_tx_meta (txid : hash) (t : tables) : option txpool_tx_meta_t := txpool_meta t !! txid.

Definition get_txpool_tx_blob_opt (txid : hash) (category : relay_category) (t : tables) : option blob :=
  if bool_decide (category = all) then txpool_blob t !! txid else
  match txpool_meta t !! txid with
  | None => None
  | Some meta => if matches meta category then txpool_blob t !! txid else None
  end.

Definition get_txpool_tx_blob (txid : hash) (category : relay_category) (t : tables) : result blob :=
  match get_txpool_tx_blob_opt txid category t with Some bd => Returns bd | None => Throws end.

Definition txpool_has_tx (txid : hash) (category : relay_category) (t : tables) : bool :=
  match txpool_meta t !! txid with
  | None => false
  | Some meta => if bool_decide (category = all) then true else matches meta category
  end.

Definition txpool_tx_matches_category (txid : hash) (category : relay_category) (t : tables) : bool :=
  match get_txpool_tx_meta txid t with None => false | Some meta => matches meta category end.

(** The cursor visits the keys in the order of [compare_hash32]: eight 32-bit words,
    the last one first, each in the machine's little-endian order. *)
Definition word32 (h : hash) (n : nat) : Z := le_Z (take 4 (drop (4 * n) h)).

Fixpoint compare_words (n : nat) (a b : hash) : comparison :=
  match n with
  | O => Eq
  | S n' => if word32 a n' =? word32 b n' then compare_words n' a b
            else if word32 a n' <? word32 b n' then Lt else Gt
  end.

Definition compare_hash32 (a b : hash) : comparison := compare_words 8 a b.

Definition key_le (x y : hash * txpool_tx_meta_t) : Prop := compare_hash32 x.1 y.1 <> Gt.

#[export] Instance key_le_dec : RelDecision key_le.
Proof. intros x y. unfold key_le. apply _. Defined.

Definition cursor (t : tables) : list (hash * txpool_tx_meta_t) := merge_sort key_le (map_to_list (txpool_meta t)).

Definition get_txpool_tx_count (category : relay_category) (t : tables) : Z :=
  if bool_decide (category = all) then Z.of_nat (size (txpool_meta t))
  else Z.of_nat (length (List.filter (fun x => matches x.2 category) (cursor t))).

(** [for_all_txpool_txes f include_blob category]: the callback runs on each row
    and stops the loop by returning [false]; its effects are the state [S].  A row
    without its blob throws. *)
Fixpoint for_all_rows {S} (f : hash -> txpool_tx_meta_t -> blob -> S -> S * bool) (include_blob : bool)
    (category : relay_category) (t : tables) (rows : list (hash * txpool_tx_meta_t)) (s : S) : result (S * bool) :=
  match rows with
  | [] => Returns (s, true)
  | (txid, meta) :: rows' =>
    if negb (matches meta category) then for_all_rows f include_blob category t rows' s else
    bd ← (if include_blob then match txpool_blob t !! txid with Some b => Returns b | None => Throws end
          else Returns []);
    match f txid meta bd s with
    | (s', false) => Returns (s', false)
    | (s', true) => for_all_rows f include_blob category t rows' s'
    end
  end.

Definition for_all_txpool_txes {S} (f : hash -> txpool_tx_meta_t -> blob -> S -> S * bool) (include_blob : bool)
    (category : relay_category) (t : tables) (s : S) : result (S * bool) :=
  for_all_rows f include_blob category t (cursor t) s.

(** ** Batches and [LockedTXN]

    [batch_start] opens a write batch unless one is active; a guard that did not
    open the batch neither commits nor aborts it. *)

Record store := { now : tables; batch : option tables }.

Definition on_tables (f : tables -> tables) (d : store) : store := {| now := f (now d); batch := batch d |}.

(** The constructor; the boolean is [m_batch]. *)
Definition locked_txn (d : store) : store * bool :=
  match batch d with
  | Some _ => (d, false)
  | None => ({| now := now d; batch := Some (now d) |}, true)
  end.

Definition txn_commit (m_batch : bool) (d : store) : store :=
  if m_batch then {| now := now d; batch := None |} else d.

(** [abort], which the destructor calls too. *)
Definition txn_abort (m_batch : bool) (d : store) : store :=
  if m_batch then match batch d with Some t => {| now := t; batch := None |} | None => d end else d.

(** ** Lemmas *)

Lemma get_set_relay_method method m : get_relay_method (set_relay_method method m) = method.
Proof. now destruct method. Qed.

Lemma cursor_perm t : cursor t ≡ₚ map_to_list (txpool_meta t).
Proof. apply merge_sort_Permutation. Qed.

Lemma elem_of_cursor t id m : (id, m) ∈ cursor t <-> txpool_meta t !! id = Some m.
Proof. rewrite cursor_perm. apply elem_of_map_to_list. Qed.

Lemma NoDup_cursor t : NoDup (cursor t).*1.
Proof. rewrite cursor_perm. apply NoDup_fst_map_to_list. Qed.

(** A loop whose callback never stops is a fold over the rows of its category. *)
Lemma for_all_rows_fold {S} (g : S -> hash * txpool_tx_meta_t -> S) f category t rows (s : S) :
  (forall txid meta bd s, f txid meta bd s = (g s (txid, meta), true)) ->
  for_all_rows f false category t rows s =
    Returns (foldl g s (List.filter (fun x => matches x.2 category) rows), true).
Proof.
  intros Hf. revert s. induction rows as [|[id m] rows IH]; intros s; [reflexivity|].
  cbn [for_all_rows List.filter snd]. destruct (matches m category); cbn [negb]; [|apply IH].
  cbn [mbind result_bind]. rewrite Hf. cbn [foldl]. apply IH.
Qed.

Lemma matches_all m : matches m all = true.
Proof. reflexivity. Qed.

Lemma filter_matches_all rows :
  List.filter (fun x : hash * txpool_tx_meta_t => matches x.2 all) rows = rows.
Proof. induction rows as [|[id m] rows IH]; [reflexivity|]. cbn [List.filter snd]. rewrite matches_all. now f_equal. Qed.

(** [compare_hash32] is the order of the 256-bit little-endian integers. *)
Lemma word32_split h n : (4 * S n <= length h)%nat ->
  le_Z (take (4 * S n) h) = le_Z (take (4 * n) h) + 256 ^ Z.of_nat (4 * n) * word32 h n.
Proof.
  intros Hl. unfold word32. replace (4 * S n)%nat with (4 * n + 4)%nat by lia.
  replace (take (4 * n + 4) h) with (take (4 * n) h ++ take 4 (drop (4 * n) h)).
  - rewrite le_val_app, length_take_le by lia. reflexivity.
  - rewrite take_drop_commute. rewrite <- (take_drop (4 * n) (take (4 * n + 4) h)) at 2.
    now rewrite take_take, Nat.min_l by lia.
Qed.

Lemma compare_words_spec a b n :
  bytes_ok a -> bytes_ok b -> (4 * n <= length a)%nat -> (4 * n <= length b)%nat ->
  compare_words n a b = (le_Z (take (4 * n) a) ?= le_Z (take (4 * n) b)).
Proof.
  intros Ha Hb. induction n as [|n IH]; intros La Lb; [reflexivity|].
  rewrite (word32_split a), (word32_split b) by assumption. cbn [compare_words].
  assert (Ba : 0 <= le_Z (take (4 * n) a) < 256 ^ Z.of_nat (4 * n)).
  { pose proof (le_Z_bound (take (4 * n) a) (bytes_ok_take _ _ Ha)) as B. rewrite length_take_le in B by lia. exact B. }
  assert (Bb : 0 <= le_Z (take (4 * n) b) < 256 ^ Z.of_nat (4 * n)).
  { pose proof (le_Z_bound (take (4 * n) b) (bytes_ok_take _ _ Hb)) as B. rewrite length_take_le in B by lia. exact B. }
  set (P := 256 ^ Z.of_nat (4 * n)) in *.
  destruct (Z.eqb_spec (word32 a n) (word32 b n)) as [->|Hne].
  - rewrite IH by lia. destruct (Z.compare_spec (le_Z (take (4 * n) a)) (le_Z (take (4 * n) b))); symmetry.
    + apply Z.compare_eq_iff. lia.
    + apply Z.compare_lt_iff. lia.
    + apply Z.compare_gt_iff. lia.
  - destruct (Z.ltb_spec (word32 a n) (word32 b n)); symmetry;
      [apply Z.compare_lt_iff | apply Z.compare_gt_iff]; nia.
Qed.

Lemma compare_hash32_spec a b :
  bytes_ok a -> bytes_ok b -> length a = HASH_SIZE -> length b = HASH_SIZE ->
  compare_hash32 a b = (le_Z a ?= le_Z b).
Proof.
  intros Ha Hb La Lb. unfold HASH_SIZE in *. unfold compare_hash32. rewrite compare_words_spec by (assumption || lia).
  rewrite !take_ge by lia. reflexivity.
Qed.

End PoolTable.
