(* ===== verification/TxPool.v ===== *)
(** The transaction pool ([src/src/cryptonote/core/tx_pool.h] and [.cpp]): the
    index of spent key images, the container sorted by fee per byte, the pool
    weight, and every operation that changes them.

    The pool calls the blockchain; what it calls is the class [Chain].  Clock
    readings are arguments.  Uninitialised memory and the iteration order of a hash table are
    arguments as well. *)

From stdpp Require Import gmap sorting.
From Stdlib Require Import Floats.SpecFloat.
From S2P Require Import Prelude Hash Config Varint Serialization Primality Group ModelGroup Key RctOps VectorOps InnerProduct Bulletproof Clsag RctTypes TxTypes Consensus Coinbase FormatUtils PoolTable.

Module TxPool.
Import Config Serialization.Archive RctTypes TxTypes Consensus Coinbase FormatUtils PoolTable.

(** ** Constants *)

Definition MIN_RELAY_TIME : Z := 60 * 5.
Definition MAX_RELAY_TIME : Z := 60 * 60 * 4.
Definition CRYPTONOTE_MEMPOOL_TX_LIVETIME : Z := 86400 * 3.
Definition CRYPTONOTE_MEMPOOL_TX_FROM_ALT_BLOCK_LIVETIME : Z := 604800.
Definition DEFAULT_TXPOOL_MAX_WEIGHT : Z := 648000000.

(** [time_t] is signed: the division truncates. *)
Definition get_relay_delay (now received : Z) : Z :=
  let d := (now - received + MIN_RELAY_TIME) ÷ MIN_RELAY_TIME * MIN_RELAY_TIME in
  wrap 64 (if MAX_RELAY_TIME <? d then MAX_RELAY_TIME else d).

Definition get_transaction_weight_limit : Z :=
  get_minimum_block_size_bound / 2 ⊟ CRYPTONOTE_COINBASE_BLOB_RESERVED_SIZE.

(** ** Verification context *)

Record tx_verification_context := {
  m_should_be_relayed : bool;
  m_verifivation_failed : bool;
  m_verifivation_impossible : bool;
  m_added_to_pool : bool;
  m_low_mixin : bool;
  m_double_spend : bool;
  m_invalid_input : bool;
  m_invalid_output : bool;
  m_too_big : bool;
  m_overspend : bool;
  m_fee_too_low : bool;
  m_too_few_outputs : bool }.

Inductive tvc_flag :=
| should_be_relayed | verifivation_failed | verifivation_impossible | added_to_pool | low_mixin | double_spend
| invalid_input | invalid_output | too_big | overspend | fee_too_low | too_few_outputs.

#[export] Instance tvc_flag_eq_dec : EqDecision tvc_flag.
Proof. solve_decision. Defined.

(** [tvc.m_<f> = v] *)
Definition assign (f : tvc_flag) (v : bool) (t : tx_verification_context) : tx_verification_context :=
  let upd g old := if bool_decide (f = g) then v else old in
  {| m_should_be_relayed := upd should_be_relayed (m_should_be_relayed t);
     m_verifivation_failed := upd verifivation_failed (m_verifivation_failed t);
     m_verifivation_impossible := upd verifivation_impossible (m_verifivation_impossible t);
     m_added_to_pool := upd added_to_pool (m_added_to_pool t);
     m_low_mixin := upd low_mixin (m_low_mixin t);
     m_double_spend := upd double_spend (m_double_spend t);
     m_invalid_input := upd invalid_input (m_invalid_input t);
     m_invalid_output := upd invalid_output (m_invalid_output t);
     m_too_big := upd too_big (m_too_big t);
     m_overspend := upd overspend (m_overspend t);
     m_fee_too_low := upd fee_too_low (m_fee_too_low t);
     m_too_few_outputs := upd too_few_outputs (m_too_few_outputs t) |}.

Definition raise (fs : list tvc_flag) (t : tx_verification_context) : tx_verification_context :=
  foldl (fun t f => assign f true t) t fs.

(** ** The blockchain as the pool sees it *)

Class Chain := {
  (** [check_fee tx_weight fee] *)
  chain_check_fee : Z -> Z -> bool;
  chain_check_ringct_outputs : transaction -> tx_verification_context -> bool * tx_verification_context;
  (** [check_ringct_inputs tx max_used_block_height max_used_block_id tvc tx_from_block] changes its first four
      arguments. *)
  chain_check_ringct_inputs : transaction -> Z -> hash -> tx_verification_context -> bool ->
    bool * (transaction * Z * hash * tx_verification_context);
  chain_current_height : Z;
  chain_block_id_by_height : Z -> hash;
  chain_have_tx_keyimges_as_spent : transaction -> bool;
  chain_have_tx : hash -> bool;
  chain_already_generated_coins : Z -> Z }.

(** What the pool relies on: checking the inputs fills in ring-CT data only. *)
Class ChainLaws `{Chain} : Prop :=
  check_ringct_inputs_prefix tx h id tvc b : prefix (chain_check_ringct_inputs tx h id tvc b).2.1.1.1 = prefix tx.

(** ** State *)

(** [fee / (double) weight] *)
Definition double_of (x : Z) : spec_float := binary_normalize 53 1024 x 0 false.
Definition fee_per_weight (fee weight : Z) : spec_float := SFdiv 53 1024 (double_of fee) (double_of weight).

Record sorted_entry := { e_rate : spec_float; e_time : Z; e_id : hash }.

#[export] Instance spec_float_eq_dec : EqDecision spec_float.
Proof. solve_decision. Defined.
#[export] Instance sorted_entry_eq_dec : EqDecision sorted_entry.
Proof. solve_decision. Defined.

Definition txCompare (a b : sorted_entry) : bool :=
  if SFltb (e_rate b) (e_rate a) then true else
  if SFltb (e_rate a) (e_rate b) then false else
  if e_time a <? e_time b then true else
  if e_time b <? e_time a then false else
  bool_decide (e_id a <> e_id b).

(** [std::set::emplace]: the position before the first element that [txCompare]
    puts after the new one, unless the element in front of it is
    equivalent. *)
Fixpoint sorted_emplace_after (prev : option sorted_entry) (e : sorted_entry) (l : list sorted_entry) : list sorted_entry :=
  let here := match prev with Some p => txCompare p e | None => true end in
  match l with
  | [] => if here then [e] else []
  | x :: l' => if txCompare e x then (if here then e :: l else l) else x :: sorted_emplace_after (Some x) e l'
  end.
Definition sorted_emplace := sorted_emplace_after None.

Fixpoint sorted_erase_first (id : hash) (l : list sorted_entry) : list sorted_entry :=
  match l with
  | [] => []
  | x :: l' => if bool_decide (e_id x = id) then l' else x :: sorted_erase_first id l'
  end.

Record pool := {
  m_spent_output_key_images : gmap key_image (gset hash);
  m_txs_by_fee_and_receive_time : list sorted_entry;
  m_cookie : Z;
  m_timed_out_transactions : gset hash;
  m_txpool_max_weight : Z;
  m_txpool_weight : Z;
  m_parsed_tx_cache : gmap hash transaction;
  m_db : store }.

Definition with_index i (s : pool) : pool :=
  {| m_spent_output_key_images := i; m_txs_by_fee_and_receive_time := m_txs_by_fee_and_receive_time s;
     m_cookie := m_cookie s; m_timed_out_transactions := m_timed_out_transactions s;
     m_txpool_max_weight := m_txpool_max_weight s; m_txpool_weight := m_txpool_weight s;
     m_parsed_tx_cache := m_parsed_tx_cache s; m_db := m_db s |}.
Definition with_sorted l (s : pool) : pool :=
  {| m_spent_output_key_images := m_spent_output_key_images s; m_txs_by_fee_and_receive_time := l;
     m_cookie := m_cookie s; m_timed_out_transactions := m_timed_out_transactions s;
     m_txpool_max_weight := m_txpool_max_weight s; m_txpool_weight := m_txpool_weight s;
     m_parsed_tx_cache := m_parsed_tx_cache s; m_db := m_db s |}.
Definition with_cookie c (s : pool) : pool :=
  {| m_spent_output_key_images := m_spent_output_key_images s;
     m_txs_by_fee_and_receive_time := m_txs_by_fee_and_receive_time s;
     m_cookie := c; m_timed_out_transactions := m_timed_out_transactions s;
     m_txpool_max_weight := m_txpool_max_weight s; m_txpool_weight := m_txpool_weight s;
     m_parsed_tx_cache := m_parsed_tx_cache s; m_db := m_db s |}.
Definition with_timed_out t (s : pool) : pool :=
  {| m_spent_output_key_images := m_spent_output_key_images s;
     m_txs_by_fee_and_receive_time := m_txs_by_fee_and_receive_time s;
     m_cookie := m_cookie s; m_timed_out_transactions := t;
     m_txpool_max_weight := m_txpool_max_weight s; m_txpool_weight := m_txpool_weight s;
     m_parsed_tx_cache := m_parsed_tx_cache s; m_db := m_db s |}.
Definition with_max_weight w (s : pool) : pool :=
  {| m_spent_output_key_images := m_spent_output_key_images s;
     m_txs_by_fee_and_receive_time := m_txs_by_fee_and_receive_time s;
     m_cookie := m_cookie s; m_timed_out_transactions := m_timed_out_transactions s;
     m_txpool_max_weight := w; m_txpool_weight := m_txpool_weight s;
     m_parsed_tx_cache := m_parsed_tx_cache s; m_db := m_db s |}.
Definition with_weight w (s : pool) : pool :=
  {| m_spent_output_key_images := m_spent_output_key_images s;
     m_txs_by_fee_and_receive_time := m_txs_by_fee_and_receive_time s;
     m_cookie := m_cookie s; m_timed_out_transactions := m_timed_out_transactions s;
     m_txpool_max_weight := m_txpool_max_weight s; m_txpool_weight := w;
     m_parsed_tx_cache := m_parsed_tx_cache s; m_db := m_db s |}.
Definition with_cache c (s : pool) : pool :=
  {| m_spent_output_key_images := m_spent_output_key_images s;
     m_txs_by_fee_and_receive_time := m_txs_by_fee_and_receive_time s;
     m_cookie := m_cookie s; m_timed_out_transactions := m_timed_out_transactions s;
     m_txpool_max_weight := m_txpool_max_weight s; m_txpool_weight := m_txpool_weight s;
     m_parsed_tx_cache := c; m_db := m_db s |}.
Definition with_db d (s : pool) : pool :=
  {| m_spent_output_key_images := m_spent_output_key_images s;
     m_txs_by_fee_and_receive_time := m_txs_by_fee_and_receive_time s;
     m_cookie := m_cookie s; m_timed_out_transactions := m_timed_out_transactions s;
     m_txpool_max_weight := m_txpool_max_weight s; m_txpool_weight := m_txpool_weight s;
     m_parsed_tx_cache := m_parsed_tx_cache s; m_db := d |}.

Definition tick (s : pool) : pool := with_cookie (m_cookie s ⊞ 1) s.
Definition map_db (f : store -> store) (s : pool) : pool := with_db (f (m_db s)) s.
Definition tbl (s : pool) : tables := PoolTable.now (m_db s).

(** [LockedTXN lock(db)] *)
Definition lock_db (s : pool) : pool * bool := let '(d, b) := locked_txn (m_db s) in (with_db d s, b).

Abbreviation index := (gmap key_image (gset hash)).

(** ** The index of spent key images *)

(** The loop of [insert_output_key_images]; [m_spent_output_key_images[k]]
    creates the empty set of a missing key before anything is checked. *)
Fixpoint insert_key_images (ins : list txin_v) (id : hash) (tx_relay : relay_method) (t : tables) (ix : index) : index * bool :=
  match ins with
  | [] => (ix, true)
  | txin_from_key x :: ins' =>
    let k := output_key_image x in
    let st := default ∅ (ix !! k) in
    let one_txid := bool_decide (st = ∅) || bool_decide (st = {[ id ]}) in
    if negb (bool_decide (tx_relay = block)) && negb one_txid then (<[k := st]> ix, false) else
    let ix' := <[k := {[ id ]} ∪ st]> ix in
    let new_or_previously_private :=
      negb (bool_decide (id ∈ st)) || negb (txpool_tx_matches_category id legacy t) in
    if negb new_or_previously_private then (ix', false) else
    insert_key_images ins' id tx_relay t ix'
  | _ :: _ => (ix, false)
  end.

Definition insert_output_key_images (tx : transaction_prefix) (id : hash) (tx_relay : relay_method) (s : pool) : pool * bool :=
  let '(ix, ok) := insert_key_images (vin tx) id tx_relay (tbl s) (m_spent_output_key_images s) in
  let s := with_index ix s in
  if ok then (tick s, true) else (s, false).

Fixpoint remove_key_images (ins : list txin_v) (actual_hash : hash) (ix : index) : index * bool :=
  match ins with
  | [] => (ix, true)
  | txin_from_key x :: ins' =>
    let k := output_key_image x in
    match ix !! k with
    | None => (ix, false)
    | Some st =>
      if bool_decide (st = ∅) then (ix, false) else
      if negb (bool_decide (actual_hash ∈ st)) then (ix, false) else
      let st' := st ∖ {[ actual_hash ]} in
      remove_key_images ins' actual_hash (if bool_decide (st' = ∅) then delete k ix else <[k := st']> ix)
    end
  | _ :: _ => (ix, false)
  end.

Definition remove_transaction_keyimages (tx : transaction_prefix) (actual_hash : hash) (s : pool) : pool * bool :=
  let '(ix, ok) := remove_key_images (vin tx) actual_hash (m_spent_output_key_images s) in
  let s := with_index ix s in
  if ok then (tick s, true) else (s, false).

Definition have_tx_keyimg_as_spent (key_im : key_image) (txid : hash) (s : pool) : bool :=
  match m_spent_output_key_images s !! key_im with
  | None => false
  | Some st =>
    if bool_decide (st = ∅) then false else
    if bool_decide (st = {[ txid ]}) then txpool_tx_matches_category txid legacy (tbl s) else true
  end.

Fixpoint have_inputs_as_spent (ins : list txin_v) (txid : hash) (s : pool) : bool :=
  match ins with
  | [] => false
  | txin_from_key x :: ins' => if have_tx_keyimg_as_spent (output_key_image x) txid s then true else have_inputs_as_spent ins' txid s
  | _ :: _ => true
  end.
Definition have_tx_keyimges_as_spent (tx : transaction) (txid : hash) (s : pool) : bool :=
  have_inputs_as_spent (vin (prefix tx)) txid s.

(** One id of [mark_double_spend]: failures are logged and ignored. *)
Definition mark_one (st : tables * bool) (txid : hash) : tables * bool :=
  let '(t, changed) := st in
  match get_txpool_tx_meta txid t with
  | None => (t, changed)
  | Some meta =>
    if double_spend_seen meta then (t, changed) else
    match update_txpool_tx txid (set_double_spend_seen true meta) t with Returns t' => (t', true) | Throws => (t, true) end
  end.

(** The boolean is [false] on the early return at an input of another type. *)
Fixpoint mark_inputs (ins : list txin_v) (ix : index) (st : tables * bool) : (tables * bool) * bool :=
  match ins with
  | [] => (st, true)
  | txin_from_key x :: ins' =>
    mark_inputs ins' ix (match ix !! output_key_image x with None => st | Some ids => foldl mark_one st (elements ids) end)
  | _ :: _ => (st, false)
  end.

Definition mark_double_spend (tx : transaction) (s : pool) : pool :=
  let '(s, lock) := lock_db s in
  let '((t, changed), done) := mark_inputs (vin (prefix tx)) (m_spent_output_key_images s) (tbl s, false) in
  let s := map_db (on_tables (fun _ => t)) s in
  if negb done then map_db (txn_abort lock) s else
  let s := map_db (txn_commit lock) s in
  if changed then tick s else s.

(** ** Pruning *)

(** The iterator goes backwards: [todo] are the entries from it towards the front,
    without the first one, [kept] the entries behind it.  The boolean is [false] when an
    error path returned. *)
Fixpoint prune_loop (bytes : Z) (first : sorted_entry) (todo kept : list sorted_entry) (changed : bool) (s : pool)
    : pool * bool * bool :=
  match todo with
  | [] => (with_sorted (first :: kept) s, changed, true)
  | e :: todo' =>
    let stop := with_sorted (first :: reverse todo ++ kept) s in
    if m_txpool_weight s <=? bytes then (stop, changed, true) else
    let txid := e_id e in
    match get_txpool_tx_meta txid (tbl s) with
    | None => (stop, changed, false)
    | Some meta =>
      if tx_from_block meta then prune_loop bytes first todo' (e :: kept) changed s else
      match get_txpool_tx_blob txid all (tbl s) with
      | Throws => (stop, changed, false)
      | Returns txblob =>
        match maybe_tx_prefix_from_blob txblob with
        | None => (stop, changed, false)
        | Some tx =>
          let s := map_db (on_tables (remove_txpool_tx txid)) s in
          let s := with_weight (m_txpool_weight s ⊟ weight meta) s in
          let '(s, _) := remove_transaction_keyimages tx txid s in
          prune_loop bytes first todo' kept true s
        end
      end
    end
  end.

(** On an empty container [--end()] is the end again and the loop does not run. *)
Definition prune (bytes : Z) (s : pool) : pool :=
  let bytes := if bytes =? 0 then m_txpool_max_weight s else bytes in
  let '(s, lock) := lock_db s in
  match m_txs_by_fee_and_receive_time s with
  | [] => map_db (txn_commit lock) s
  | first :: rest =>
    let '(s, changed, ok) := prune_loop bytes first (reverse rest) [] false s in
    if negb ok then map_db (txn_abort lock) s else
    let s := map_db (txn_commit lock) s in
    if changed then tick s else s
  end.

(** ** Adding *)

Section Operations.
Context `{UndefinedShift} `{Sha3} `{Chain}.

(** [init] is the ring-CT data of a fresh transaction object. *)
Context (init : rctData).

Definition tx_fee_v1_checked (tx : transaction) : Z + list tvc_flag :=
  if version (prefix tx) =? 1 then
    let inputs_amount := get_inputs_money_amount tx in
    let outputs_amount := get_tx_outputs_money_amount tx in
    if inputs_amount <? outputs_amount then inr [verifivation_failed; overspend] else
    if outputs_amount =? inputs_amount then inr [verifivation_failed; fee_too_low] else
    inl (inputs_amount ⊟ outputs_amount)
  else inl (RctTypes.fee (basic (ringct tx))).

Definition fresh_meta (tx_weight fee : Z) (max_used_block_id : hash) (max_used_block_height receive_time relay_time : Z)
    (relayed : bool) (tx_relay : relay_method) (double_spend_seen : bool) : txpool_tx_meta_t :=
  set_relay_method tx_relay
    {| PoolTable.max_used_block_id := max_used_block_id; last_failed_id := null_hash; weight := tx_weight; PoolTable.fee := fee;
       PoolTable.max_used_block_height := max_used_block_height; last_failed_height := 0;
       PoolTable.receive_time := receive_time; last_relayed_time := relay_time; tx_from_block := false;
       PoolTable.relayed := relayed; do_not_relay := false; PoolTable.double_spend_seen := double_spend_seen;
       pruned := false; is_local := false |}.

(** The [try] block of [add_tx]; [remove_first] is the branch whose inputs passed.
    [emplace] and the tables cannot throw here. *)
Definition store_tx (remove_first : bool) (tx : transaction) (id : hash) (bd : blob) (tx_weight fee receive_time : Z)
    (tx_relay : relay_method) (meta : txpool_tx_meta_t) (s : pool) : pool * bool :=
  let s := if bool_decide (tx_relay = block)
           then with_cache (match m_parsed_tx_cache s !! id with Some _ => m_parsed_tx_cache s
                                                              | None => <[id := tx]> (m_parsed_tx_cache s) end) s
           else s in
  let '(s, lock) := lock_db s in
  let s := if remove_first then map_db (on_tables (remove_txpool_tx id)) s else s in
  let '(s, ok) := insert_output_key_images (prefix tx) id tx_relay s in
  if negb ok then (map_db (txn_abort lock) s, false) else
  let s := map_db (on_tables (add_txpool_tx id bd meta)) s in
  let e := {| e_rate := fee_per_weight fee (if tx_weight =? 0 then 1 else tx_weight);
              e_time := receive_time; e_id := id |} in
  let s := with_sorted (sorted_emplace e (m_txs_by_fee_and_receive_time s)) s in
  (map_db (txn_commit lock) s, true).

(** The end of [add_tx], after both branches. *)
Definition finish_add (tx_weight : Z) (s : pool) : pool :=
  let s := with_weight (m_txpool_weight s ⊞ tx_weight) s in
  let s := tick s in
  prune (m_txpool_max_weight s) s.

Definition add_tx (now : Z * Z) (tx : transaction) (id : hash) (bd : blob) (tx_weight : Z) (tvc : tx_verification_context)
    (tx_relay : relay_method) (relayed : bool) (s : pool) : pool * tx_verification_context * bool :=
  let from_block := bool_decide (tx_relay = block) in
  if version (prefix tx) =? 0 then (s, raise [verifivation_failed] tvc, false) else
  if negb from_block && bool_decide (id ∈ m_timed_out_transactions s) then (s, raise [verifivation_failed] tvc, false) else
  if negb (check_inputs_types_supported tx) then (s, raise [verifivation_failed; invalid_input] tvc, false) else
  match tx_fee_v1_checked tx with
  | inr flags => (s, raise flags tvc, false)
  | inl fee =>
    if negb from_block && negb (chain_check_fee tx_weight fee)
    then (s, raise [verifivation_failed; fee_too_low] tvc, false) else
    if get_transaction_weight_limit <? tx_weight then (s, raise [verifivation_failed; too_big] tvc, false) else
    if negb from_block && have_tx_keyimges_as_spent tx id s
    then (mark_double_spend tx s, raise [verifivation_failed; double_spend] tvc, false) else
    let '(out_ok, tvc) := chain_check_ringct_outputs tx tvc in
    if negb out_ok then (s, raise [verifivation_failed; invalid_output] tvc, false) else
    let tvc := raise [verifivation_failed] tvc in
    let '(receive_time, relay_time) := now in
    let '(in_ok, (tx, max_used_block_height, max_used_block_id, tvc)) :=
      chain_check_ringct_inputs tx 0 null_hash tvc from_block in
    if negb in_ok then
      if negb from_block then (s, raise [verifivation_failed; invalid_input] tvc, false) else
      let meta := fresh_meta tx_weight fee null_hash 0 receive_time relay_time relayed tx_relay
                    (have_tx_keyimges_as_spent tx id s) in
      let '(s, ok) := store_tx false tx id bd tx_weight fee receive_time tx_relay meta s in
      if negb ok then (s, tvc, false) else
      let tvc := assign verifivation_failed false (raise [verifivation_impossible; added_to_pool] tvc) in
      (finish_add tx_weight s, tvc, true)
    else
      let meta := fresh_meta tx_weight fee max_used_block_id max_used_block_height receive_time relay_time relayed tx_relay false in
      let '(s, ok) := store_tx true tx id bd tx_weight fee receive_time tx_relay meta s in
      if negb ok then (s, tvc, false) else
      let tvc := raise [added_to_pool] tvc in
      let tvc := if (0 <? fee) && negb (bool_decide (tx_relay = none)) then raise [should_be_relayed] tvc else tvc in
      (finish_add tx_weight s, assign verifivation_failed false tvc, true)
  end.

(** The overload that computes blob, hash and weight itself. *)
Definition add_tx_computed (now : Z * Z) (cached : Z) (tx : transaction) (tvc : tx_verification_context)
    (tx_relay : relay_method) (relayed : bool) (s : pool) : result (pool * tx_verification_context * bool) :=
  tx_blob ← tx_to_blob tx;
  if (length tx_blob =? 0)%nat then Returns (s, tvc, false) else
  h ← get_transaction_hash tx cached;
  Returns (add_tx now tx h tx_blob (Z.of_nat (length tx_blob)) tvc tx_relay relayed s).

Definition get_txpool_weight (s : pool) : Z := m_txpool_weight s.
Definition set_txpool_max_weight (bytes : Z) (s : pool) : pool := with_max_weight bytes s.

(** ** Taking *)

Record taken := { t_tx : transaction; t_blob : blob; t_weight : Z; t_fee : Z; t_relayed : bool; t_do_not_relay : bool;
                  t_double_spend_seen : bool; t_pruned : bool }.

Definition cached_or_parsed (id : hash) (txblob : blob) (s : pool) : option transaction :=
  match m_parsed_tx_cache s !! id with Some tx => Some tx | None => maybe_tx_from_blob init txblob end.

(** [None] is the return value [false]. *)
Definition take_tx (id : hash) (s : pool) : pool * option taken :=
  let '(s, lock) := lock_db s in
  match get_txpool_tx_meta id (tbl s) with
  | None => (map_db (txn_abort lock) s, None)
  | Some meta =>
    match get_txpool_tx_blob id all (tbl s) with
    | Throws => (map_db (txn_abort lock) s, None)
    | Returns txblob =>
      match cached_or_parsed id txblob s with
      | None => (map_db (txn_abort lock) s, None)
      | Some tx =>
        let s := map_db (on_tables (remove_txpool_tx id)) s in
        let s := with_weight (m_txpool_weight s ⊟ weight meta) s in
        let '(s, _) := remove_transaction_keyimages (prefix tx) id s in
        let s := map_db (txn_commit lock) s in
        let s := with_sorted (sorted_erase_first id (m_txs_by_fee_and_receive_time s)) s in
        (tick s, Some {| t_tx := tx; t_blob := txblob; t_weight := weight meta; t_fee := fee meta; t_relayed := relayed meta;
                         t_do_not_relay := do_not_relay meta; t_double_spend_seen := double_spend_seen meta;
                         t_pruned := pruned meta |})
      end
    end
  end.

(** ** Stuck transactions *)

Definition is_stuck (now : Z) (meta : txpool_tx_meta_t) : bool :=
  let tx_age := now ⊟ receive_time meta in
  ((CRYPTONOTE_MEMPOOL_TX_LIVETIME <? tx_age) && negb (tx_from_block meta)) ||
  ((CRYPTONOTE_MEMPOOL_TX_FROM_ALT_BLOCK_LIVETIME <? tx_age) && tx_from_block meta).

(** The first loop erases the sorted entries and collects what is to be removed. *)
Definition collect_stuck (now : Z) (txid : hash) (meta : txpool_tx_meta_t) (_ : blob)
    (st : pool * list (hash * Z)) : (pool * list (hash * Z)) * bool :=
  let '(s, remove) := st in
  if negb (is_stuck now meta) then (st, true) else
  let s := with_sorted (sorted_erase_first txid (m_txs_by_fee_and_receive_time s)) s in
  let s := with_timed_out ({[ txid ]} ∪ m_timed_out_transactions s) s in
  ((s, remove ++ [(txid, weight meta)]), true).

Definition remove_one_stuck (s : pool) (entry : hash * Z) : pool :=
  match get_txpool_tx_blob entry.1 all (tbl s) with
  | Throws => s
  | Returns bd =>
    match maybe_tx_prefix_from_blob bd with
    | None => s
    | Some tx =>
      let s := map_db (on_tables (remove_txpool_tx entry.1)) s in
      let s := with_weight (m_txpool_weight s ⊟ entry.2) s in
      (remove_transaction_keyimages tx entry.1 s).1
    end
  end.

Definition remove_stuck_transactions (now : Z) (s : pool) : result pool :=
  r ← for_all_txpool_txes (collect_stuck now) false all (tbl s) (s, []);
  let '((s, remove), _) := r in
  match remove with
  | [] => Returns s
  | _ =>
    let '(s, lock) := lock_db s in
    let s := foldl remove_one_stuck s remove in
    Returns (tick (map_db (txn_commit lock) s))
  end.

(** ** Relaying *)

Definition relay_due (now : Z) (meta : txpool_tx_meta_t) : bool :=
  negb (pruned meta) && (0 <? fee meta) && negb (do_not_relay meta) &&
  (get_relay_delay now (receive_time meta) <? now ⊟ last_relayed_time meta) &&
  (let max_age := if tx_from_block meta then CRYPTONOTE_MEMPOOL_TX_FROM_ALT_BLOCK_LIVETIME
                  else CRYPTONOTE_MEMPOOL_TX_LIVETIME in
   now ⊟ receive_time meta <=? max_age / 2).

Definition get_relayable_transactions (now : Z) (s : pool) : result (list (hash * blob * relay_method)) :=
  r ← for_all_txpool_txes
        (fun txid meta _ txs =>
           if negb (relay_due now meta) then (txs, true) else
           match get_txpool_tx_blob txid all (tbl s) with
           | Returns bd => (txs ++ [(txid, bd, get_relay_method meta)], true)
           | Throws => (txs, true)
           end) false relayable (tbl s) [];
  Returns r.1.

Definition set_relayed_one (now : Z) (method : relay_method) (t : tables) (h : hash) : tables :=
  match get_txpool_tx_meta h t with
  | None => t
  | Some meta =>
    match update_txpool_tx h (set_relay_method method (set_relayed_at now meta)) t with Returns t' => t' | Throws => t end
  end.

Definition set_relayed (now : Z) (hashes : list hash) (method : relay_method) (s : pool) : pool :=
  let '(s, lock) := lock_db s in
  let s := map_db (on_tables (fun t => foldl (set_relayed_one now method) t hashes)) s in
  map_db (txn_commit lock) s.

(** ** Queries *)

Definition category_of (include_sensitive : bool) : relay_category := if include_sensitive then all else broadcasted.

Definition get_transactions_count (include_sensitive : bool) (s : pool) : Z :=
  get_txpool_tx_count (category_of include_sensitive) (tbl s).

Definition get_transactions (include_sensitive : bool) (s : pool) : result (list transaction) :=
  r ← for_all_txpool_txes
        (fun _ _ bd txs => match maybe_tx_from_blob init bd with None => (txs, true) | Some tx => (txs ++ [tx], true) end)
        true (category_of include_sensitive) (tbl s) [];
  Returns r.1.

Definition get_transaction_hashes (include_sensitive : bool) (s : pool) : result (list hash) :=
  r ← for_all_txpool_txes (fun txid _ _ txs => (txs ++ [txid], true)) false (category_of include_sensitive) (tbl s) [];
  Returns r.1.

Definition get_complement (hashes : list hash) (s : pool) : result (list blob) :=
  r ← for_all_txpool_txes
        (fun txid meta _ txes =>
           if negb (bool_decide (get_relay_method meta = block)) && negb (bool_decide (get_relay_method meta = fluff))
           then (txes, true) else
           if bool_decide (txid ∈ hashes) then (txes, true) else
           match get_txpool_tx_blob_opt txid broadcasted (tbl s) with
           | Some bd => (txes ++ [bd], true)
           | None => (txes, true)
           end) false broadcasted (tbl s) [];
  Returns r.1.

Record tx_details := { d_tx : transaction; d_blob_size : Z; d_meta : txpool_tx_meta_t }.

Definition get_transaction_info (txid : hash) (s : pool) : option tx_details :=
  match get_txpool_tx_meta txid (tbl s) with
  | None => None
  | Some meta =>
    match get_txpool_tx_blob txid all (tbl s) with
    | Throws => None
    | Returns txblob =>
      tx ← cached_or_parsed txid txblob s;
      Some {| d_tx := tx; d_blob_size := Z.of_nat (length txblob); d_meta := meta |}
    end
  end.

Definition get_transaction (id : hash) (category : relay_category) (s : pool) : option blob :=
  get_txpool_tx_blob_opt id category (tbl s).

Definition have_tx (id : hash) (category : relay_category) (s : pool) : bool := txpool_has_tx id category (tbl s).

Definition check_for_output_key_images (images : list key_image) (s : pool) : list bool :=
  (fun image =>
     match m_spent_output_key_images s !! image with
     | None => false
     | Some ids => existsb (fun h => txpool_tx_matches_category h broadcasted (tbl s)) (elements ids)
     end) <$> images.

Definition on_blockchain_inc (s : pool) : pool := with_cache ∅ s.
Definition on_blockchain_dec (s : pool) : pool := with_cache ∅ s.

(** ** Validation and start-up *)

Definition collect_invalid (txid : hash) (meta : txpool_tx_meta_t) (_ : blob) (st : Z * gset hash) : (Z * gset hash) * bool :=
  let '(w, remove) := st in
  let w := w ⊞ weight meta in
  if get_transaction_weight_limit <? weight meta then ((w, {[ txid ]} ∪ remove), true) else
  if chain_have_tx txid then ((w, {[ txid ]} ∪ remove), true) else ((w, remove), true).

Definition remove_one_invalid (st : pool * Z) (txid : hash) : pool * Z :=
  let '(s, n_removed) := st in
  match get_txpool_tx_blob txid all (tbl s) with
  | Throws => (s, n_removed)
  | Returns txblob =>
    match maybe_tx_from_blob init txblob with
    | None => (s, n_removed)
    | Some tx =>
      let s := map_db (on_tables (remove_txpool_tx txid)) s in
      let s := with_weight (m_txpool_weight s ⊟ Z.of_nat (length txblob)) s in
      let '(s, _) := remove_transaction_keyimages (prefix tx) txid s in
      let s := with_sorted (sorted_erase_first txid (m_txs_by_fee_and_receive_time s)) s in
      (s, n_removed ⊞ 1)
    end
  end.

(** [order] is the iteration order of the [unordered_set]. *)
Definition validate (order : gset hash -> list hash) (s : pool) : result (pool * Z) :=
  r ← for_all_txpool_txes collect_invalid false all (tbl s) (0, ∅);
  let '((w, remove), _) := r in
  let s := with_weight w s in
  let '(s, n_removed) :=
    if bool_decide (remove = ∅) then (s, 0) else
    let '(s, lock) := lock_db s in
    let '(s, n) := foldl remove_one_invalid (s, 0) (order remove) in
    (map_db (txn_commit lock) s, n) in
  Returns (if 0 <? n_removed then tick s else s, n_removed).

(** The callback of [init] in the pass [kept]. *)
Definition init_row (kept : bool) (txid : hash) (meta : txpool_tx_meta_t) (bd : blob) (st : pool * list hash)
    : (pool * list hash) * bool :=
  let '(s, remove) := st in
  if negb (Bool.eqb kept (tx_from_block meta)) then (st, true) else
  match maybe_tx_prefix_from_blob bd with
  | None => ((s, remove ++ [txid]), true)
  | Some tx =>
    let '(s, ok) := insert_output_key_images tx txid (get_relay_method meta) s in
    if negb ok then ((s, remove), false) else
    let e := {| e_rate := fee_per_weight (fee meta) (weight meta); e_time := receive_time meta; e_id := txid |} in
    let s := with_sorted (sorted_emplace e (m_txs_by_fee_and_receive_time s)) s in
    ((with_weight (m_txpool_weight s ⊞ weight meta) s, remove), true)
  end.

Definition init_pool (max_txpool_weight : Z) (s : pool) : result (pool * bool) :=
  let s := with_max_weight (if max_txpool_weight =? 0 then DEFAULT_TXPOOL_MAX_WEIGHT else max_txpool_weight) s in
  let s := with_weight 0 (with_index ∅ (with_sorted [] s)) in
  r0 ← for_all_txpool_txes (init_row false) true all (tbl s) (s, []);
  if negb r0.2 then Returns (r0.1.1, false) else
  r1 ← for_all_txpool_txes (init_row true) true all (tbl s) r0.1;
  let '((s, remove), r) := r1 in
  if negb r then Returns (s, false) else
  let s := match remove with
           | [] => s
           | _ =>
             let '(s, lock) := lock_db s in
             map_db (txn_commit lock) (map_db (on_tables (fun t => foldl (fun t h => remove_txpool_tx h t) t remove)) s)
           end in
  Returns (with_cookie 0 s, true).

End Operations.

End TxPool.
