(* ===== verification/TxPoolInv.v ===== *)
(** Invariants of the transaction pool: the index of key images is exact for the
    stored transactions, the weight is the sum of the stored weights and the sorted
    container lists the stored ids, through every operation. *)

From stdpp Require Import gmap sorting.
From Stdlib Require Import Floats.SpecFloat.
From S2P Require Import Prelude Hash Config Varint Serialization Primality Group ModelGroup Key RctOps VectorOps InnerProduct Bulletproof Clsag RctTypes TxTypes Consensus Coinbase FormatUtils PoolTable TxPool.

Module TxPoolInv.
Import Config Serialization.Archive RctTypes TxTypes Consensus Coinbase FormatUtils PoolTable TxPool.

(** ** The invariant *)

(** The key images of a list of inputs that are all spends. *)
Fixpoint input_images (ins : list txin_v) : option (list key_image) :=
  match ins with
  | [] => Some []
  | txin_from_key x :: ins' => ks ← input_images ins'; Some (output_key_image x :: ks)
  | _ :: _ => None
  end.

(** The index holds the function [f], without empty sets. *)
Definition index_is (ix : index) (f : key_image -> gset hash) : Prop :=
  forall k, ix !! k = if decide (f k = ∅) then None else Some (f k).

Definition total_weight (m : gmap hash txpool_tx_meta_t) : Z := map_fold (fun _ x acc => weight x + acc) 0 m.

Section Invariant.
Context `{UndefinedShift} (init : rctData).

(** A transaction id stands for one transaction: [images_of] are its key images. *)
Context (images_of : hash -> list key_image).

Definition spenders (ids : gset hash) (k : key_image) : gset hash := filter (fun id => k ∈ images_of id) ids.

(** A stored blob parses to a transaction with the images of its id. *)
Definition stored (id : hash) (bd : blob) : Prop :=
  exists t, maybe_tx_from_blob init bd = Some t /\ input_images (vin (prefix t)) = Some (images_of id).

Record pool_ok (s : pool) : Prop := {
  ok_dom : dom (txpool_meta (tbl s)) = dom (txpool_blob (tbl s));
  ok_blob id bd : txpool_blob (tbl s) !! id = Some bd -> stored id bd;
  ok_nodup id : id ∈ dom (txpool_meta (tbl s)) -> NoDup (images_of id);
  ok_cache id tx : m_parsed_tx_cache s !! id = Some tx -> input_images (vin (prefix tx)) = Some (images_of id);
  ok_index : index_is (m_spent_output_key_images s) (spenders (dom (txpool_meta (tbl s)))) }.

(** [ids] are the stored ids, each once; the pool weight is the sum of their
    weights, and a weight is the size of the blob. *)
Record books (s : pool) (ids : list hash) : Prop := {
  bk_ids : ids ≡ₚ elements (dom (txpool_meta (tbl s)));
  bk_weight : m_txpool_weight s = total_weight (txpool_meta (tbl s));
  bk_size id m bd : txpool_meta (tbl s) !! id = Some m -> txpool_blob (tbl s) !! id = Some bd ->
    weight m = Z.of_nat (length bd);
  bk_fits : fits 64 (m_txpool_weight s) }.

Definition sorted_ids (s : pool) : list hash := e_id <$> m_txs_by_fee_and_receive_time s.

Definition pool_inv (s : pool) : Prop := pool_ok s /\ books s (sorted_ids s).

End Invariant.

(** ** The index *)

Definition f_insert (ks : list key_image) (id : hash) (f : key_image -> gset hash) : key_image -> gset hash :=
  fun k => if decide (k ∈ ks) then {[ id ]} ∪ f k else f k.
Definition f_remove (ks : list key_image) (id : hash) (f : key_image -> gset hash) : key_image -> gset hash :=
  fun k => if decide (k ∈ ks) then f k ∖ {[ id ]} else f k.

Lemma index_is_ext ix f g : (forall k, f k = g k) -> index_is ix f -> index_is ix g.
Proof. intros Hfg Hf k. rewrite Hf, Hfg. reflexivity. Qed.

Lemma index_default ix f k : index_is ix f -> default ∅ (ix !! k) = f k.
Proof. intros Hf. rewrite Hf. case_decide; auto. Qed.

Lemma index_insert ix f k id :
  index_is ix f -> index_is (<[k := {[ id ]} ∪ f k]> ix) (f_insert [k] id f).
Proof.
  intros Hf k'. unfold f_insert. destruct (decide (k' = k)) as [->|Hne].
  - rewrite lookup_insert_eq, (decide_True (P := k ∈ [k])) by set_solver. rewrite decide_False; [reflexivity|]. set_solver.
  - rewrite lookup_insert_ne by congruence. rewrite (decide_False (P := k' ∈ [k])) by set_solver. apply Hf.
Qed.

Lemma index_remove ix f k id :
  index_is ix f -> id ∈ f k ->
  index_is (if bool_decide (f k ∖ {[ id ]} = ∅) then delete k ix else <[k := f k ∖ {[ id ]}]> ix) (f_remove [k] id f).
Proof.
  intros Hf Hid k'. unfold f_remove. destruct (decide (k' = k)) as [->|Hne].
  - rewrite (decide_True (P := k ∈ [k])) by set_solver. case_bool_decide as Hc.
    + rewrite lookup_delete_eq, decide_True by assumption. reflexivity.
    + rewrite lookup_insert_eq, decide_False by assumption. reflexivity.
  - rewrite (decide_False (P := k' ∈ [k])) by set_solver. case_bool_decide.
    + rewrite lookup_delete_ne by congruence. apply Hf.
    + rewrite lookup_insert_ne by congruence. apply Hf.
Qed.

(** Removal of all images of an id that the index lists under each of them. *)
Lemma remove_key_images_spec ins ks id : forall ix f,
  input_images ins = Some ks -> NoDup ks -> index_is ix f -> (forall k, k ∈ ks -> id ∈ f k) ->
  exists ix', remove_key_images ins id ix = (ix', true) /\ index_is ix' (f_remove ks id f).
Proof.
  revert ks. induction ins as [|[h|x] ins IH]; intros ks ix f Hi Hn Hf Hin; cbn in Hi; [|discriminate|].
  - injection Hi as <-. exists ix. split; [reflexivity|]. exact (index_is_ext _ _ _ (fun k => eq_refl) Hf).
  - destruct (input_images ins) as [ks'|] eqn:E; [|discriminate]. injection Hi as <-. set (k := output_key_image x) in *.
    apply NoDup_cons in Hn as [Hk Hn]. assert (Hid : id ∈ f k) by (apply Hin; set_solver).
    cbn [remove_key_images]. fold k. rewrite (Hf k), decide_False by set_solver.
    rewrite bool_decide_false by set_solver. rewrite bool_decide_true by assumption. cbn [negb].
    destruct (IH ks' _ _ eq_refl Hn (index_remove _ _ k id Hf Hid)) as (ix' & -> & Hix').
    { intros k' Hk'. unfold f_remove. rewrite decide_False by set_solver. apply Hin. set_solver. }
    exists ix'. split; [reflexivity|]. refine (index_is_ext _ _ _ _ Hix'). intros k'. unfold f_remove.
    destruct (decide (k' = k)) as [->|Hne].
    + rewrite (decide_False (P := k ∈ ks')), !decide_True by set_solver. reflexivity.
    + rewrite (decide_False (P := k' ∈ [k])) by set_solver. destruct (decide (k' ∈ ks')).
      * rewrite decide_True by set_solver. reflexivity.
      * rewrite decide_False by set_solver. reflexivity.
Qed.

(** Insertion succeeds when the id may join every image and is not already listed
    as a public transaction. *)
Lemma insert_key_images_spec ins ks id relay t : forall ix f,
  input_images ins = Some ks -> index_is ix f ->
  (relay <> block -> forall k, k ∈ ks -> f k ⊆ {[ id ]}) ->
  txpool_tx_matches_category id legacy t = false \/ (NoDup ks /\ forall k, k ∈ ks -> id ∉ f k) ->
  exists ix', insert_key_images ins id relay t ix = (ix', true) /\ index_is ix' (f_insert ks id f).
Proof.
  revert ks. induction ins as [|[h|x] ins IH]; intros ks ix f Hi Hf Hone Hnew; cbn in Hi; [|discriminate|].
  - injection Hi as <-. exists ix. split; [reflexivity|]. exact (index_is_ext _ _ _ (fun k => eq_refl) Hf).
  - destruct (input_images ins) as [ks'|] eqn:E; [|discriminate]. injection Hi as <-. set (k := output_key_image x) in *.
    cbn [insert_key_images]. fold k. rewrite (index_default _ f k Hf).
    assert (Hfirst : negb (bool_decide (relay = block)) && negb (bool_decide (f k = ∅) || bool_decide (f k = {[id]})) = false).
    { case_bool_decide as Hr; [reflexivity|]. cbn. specialize (Hone Hr k ltac:(set_solver)).
      destruct (decide (id ∈ f k)).
      - rewrite (bool_decide_true (f k = {[id]})) by set_solver. now rewrite orb_true_r.
      - rewrite (bool_decide_true (f k = ∅)) by set_solver. reflexivity. }
    rewrite Hfirst.
    assert (Hsecond : negb (bool_decide (id ∈ f k)) || negb (txpool_tx_matches_category id legacy t) = true).
    { destruct Hnew as [->|[_ Hnew]]; [now rewrite orb_true_r|]. rewrite bool_decide_false; [reflexivity|]. apply Hnew. set_solver. }
    rewrite Hsecond. cbn [negb].
    destruct (IH ks' _ _ eq_refl (index_insert _ _ k id Hf)) as (ix' & -> & Hix').
    { intros Hr k' Hk'. specialize (Hone Hr k' ltac:(set_solver)). unfold f_insert.
      destruct (decide (k' ∈ [k])); [|assumption]. now apply union_subseteq. }
    { destruct Hnew as [Hnew|[Hn Hnew]]; [now left|right]. apply NoDup_cons in Hn as [Hk Hn]. split; [assumption|].
      intros k' Hk'. unfold f_insert. rewrite decide_False by set_solver. apply Hnew. set_solver. }
    exists ix'. split; [reflexivity|]. refine (index_is_ext _ _ _ _ Hix'). intros k'. unfold f_insert.
    destruct (decide (k' = k)) as [->|Hne].
    + rewrite (decide_True (P := k ∈ [k])), (decide_True (P := k ∈ k :: ks')) by set_solver.
      destruct (decide (k ∈ ks')); [|reflexivity]. now rewrite assoc_L, union_idemp_L by apply _.
    + rewrite (decide_False (P := k' ∈ [k])) by set_solver. destruct (decide (k' ∈ ks')).
      * rewrite decide_True by set_solver. reflexivity.
      * rewrite decide_False by set_solver. reflexivity.
Qed.

(** ** Sums of weights *)

Lemma total_weight_insert id m ms : ms !! id = None -> total_weight (<[id := m]> ms) = weight m + total_weight ms.
Proof. intros Hn. unfold total_weight. rewrite map_fold_insert_L; [reflexivity|intros; lia|assumption]. Qed.

Lemma total_weight_delete id m ms : ms !! id = Some m -> total_weight (delete id ms) = total_weight ms - weight m.
Proof. intros Hm. unfold total_weight. rewrite (map_fold_delete_L _ 0 id m ms); [lia|intros; lia|assumption]. Qed.

Lemma total_weight_nonneg ms : (forall id m, ms !! id = Some m -> 0 <= weight m) -> 0 <= total_weight ms.
Proof.
  unfold total_weight. apply (map_fold_weak_ind (fun r ms => (forall id m, ms !! id = Some m -> 0 <= weight m) -> 0 <= r)).
  - intros _. lia.
  - intros id m ms' r Hn IH Hw. assert (0 <= weight m) by (apply (Hw id); apply lookup_insert_eq).
    enough (0 <= r) by lia. apply IH. intros id' m' E. apply (Hw id').
    rewrite lookup_insert_ne; [assumption|congruence].
Qed.

(** Metadata updates that keep the weights. *)
Lemma total_weight_update id m m' ms :
  ms !! id = Some m -> weight m' = weight m -> total_weight (<[id := m']> ms) = total_weight ms.
Proof.
  intros Hm Hw. rewrite <- insert_delete_eq, total_weight_insert by apply lookup_delete_eq.
  rewrite (total_weight_delete _ m) by assumption. lia.
Qed.

Lemma elements_without (id : hash) (ids : list hash) (X : gset hash) :
  id :: ids ≡ₚ elements X -> ids ≡ₚ elements (X ∖ {[ id ]}).
Proof.
  intros Hp. assert (Hin : id ∈ X) by (apply elem_of_elements; rewrite <- Hp; apply list_elem_of_here).
  apply (Permutation_cons_inv (a := id)). rewrite Hp, <- (elements_union_singleton (X ∖ {[ id ]}) id) by set_solver.
  rewrite <- union_difference_singleton_L by assumption. reflexivity.
Qed.

(** ** Parsing *)

Lemma tx_prefix_of_blob `{UndefinedShift} init bd t :
  maybe_tx_from_blob init bd = Some t -> maybe_tx_prefix_from_blob bd = Some (prefix t).
Proof.
  unfold maybe_tx_from_blob. intros E. apply bind_Some in E as (t' & E & Ex).
  assert (t' = t) as ->.
  { unfold expand_transaction in Ex. repeat (case_match; try (now injection Ex); try discriminate). }
  unfold maybe_from_blob, parse_binary in E. destruct (load (serialize_transaction init) bd) as [[t' r]|] eqn:L; [|discriminate].
  destruct r; [|discriminate]. injection E as ->. unfold maybe_tx_prefix_from_blob.
  cbn in L. apply reader_bind_Some in L as ([pr rc] & l1 & L & Et). injection Et as E1 E2. subst t l1.
  apply reader_bind_Some in L as (pr' & l2 & L & L'). apply reader_bind_Some in L' as (rc' & l3 & L' & Ep).
  injection Ep as -> -> ->. cbn. now rewrite L.
Qed.

(** ** Removing one transaction *)

(** What pruning, taking, time-outs and validation do to one stored transaction. *)
Definition evict (id : hash) (w : Z) (p : transaction_prefix) (s : pool) : pool :=
  (remove_transaction_keyimages p id (with_weight (m_txpool_weight s ⊟ w) (map_db (on_tables (remove_txpool_tx id)) s))).1.

Lemma evict_fields id w p s :
  m_db (evict id w p s) = on_tables (remove_txpool_tx id) (m_db s) /\
  m_txpool_weight (evict id w p s) = m_txpool_weight s ⊟ w /\
  m_txs_by_fee_and_receive_time (evict id w p s) = m_txs_by_fee_and_receive_time s /\
  m_parsed_tx_cache (evict id w p s) = m_parsed_tx_cache s /\
  m_txpool_max_weight (evict id w p s) = m_txpool_max_weight s /\
  m_timed_out_transactions (evict id w p s) = m_timed_out_transactions s.
Proof. unfold evict, remove_transaction_keyimages. destruct (remove_key_images _ _ _) as [ix [|]]; cbn; auto 8. Qed.

Section Evict.
Context `{UndefinedShift} (init : rctData) (images_of : hash -> list key_image).

Lemma evict_ok id w p s :
  pool_ok init images_of s -> id ∈ dom (txpool_meta (tbl s)) -> input_images (vin p) = Some (images_of id) ->
  pool_ok init images_of (evict id w p s).
Proof.
  intros [Hd Hb Hn Hc Hx] Hid Hi. destruct (evict_fields id w p s) as (Edb & _ & _ & Ec & _).
  assert (Et : tbl (evict id w p s) = remove_txpool_tx id (tbl s)) by (unfold tbl; rewrite Edb; reflexivity).
  split; rewrite ?Et, ?Ec; cbn [remove_txpool_tx txpool_meta txpool_blob].
  - now rewrite !dom_delete_L, Hd.
  - intros id' bd E. apply lookup_delete_Some in E as [_ E]. eauto.
  - intros id'. rewrite dom_delete_L. intros. apply Hn. set_solver.
  - exact Hc.
  - destruct (remove_key_images_spec (vin p) (images_of id) id _ _ Hi (Hn _ Hid) Hx) as (ix & E & Hix).
    { intros k Hk. now apply elem_of_filter. }
    unfold evict, remove_transaction_keyimages. cbn [m_spent_output_key_images with_weight map_db with_db].
    rewrite E. cbn. refine (index_is_ext _ _ _ _ Hix). intros k. unfold f_remove, spenders. rewrite dom_delete_L.
    apply set_eq. intros x. case_decide; rewrite ?elem_of_difference, !elem_of_filter, ?elem_of_difference, ?elem_of_singleton.
    + tauto.
    + split; [|tauto]. intros [Hk ?]. repeat split; auto. intros ->. contradiction.
Qed.

Lemma evict_no_underflow id m s ids :
  pool_ok init images_of s -> books s ids -> txpool_meta (tbl s) !! id = Some m ->
  fits 64 (m_txpool_weight s - weight m).
Proof.
  intros Hok [Hp Hw Hs Hf] Hm.
  assert (Hpos : forall id m, txpool_meta (tbl s) !! id = Some m -> 0 <= weight m).
  { intros id' m' E. assert (is_Some (txpool_blob (tbl s) !! id')) as [bd Hbd].
    { apply elem_of_dom. rewrite <- (ok_dom _ _ _ Hok). apply elem_of_dom. eauto. }
    rewrite (Hs _ _ _ E Hbd). lia. }
  assert (Hdel : 0 <= total_weight (delete id (txpool_meta (tbl s)))).
  { apply total_weight_nonneg. intros id' m' E. apply lookup_delete_Some in E as [_ E]. eauto. }
  rewrite (total_weight_delete _ m) in Hdel by assumption. pose proof (Hpos _ _ Hm) as Hp0.
  rewrite Hw in *. mlia.
Qed.

Lemma evict_books id m p s ids :
  pool_ok init images_of s -> books s (id :: ids) -> txpool_meta (tbl s) !! id = Some m ->
  books (evict id (weight m) p s) ids.
Proof.
  intros Hok Hbk Hm. pose proof (evict_no_underflow _ _ _ _ Hok Hbk Hm) as Efits. destruct Hbk as [Hp Hw Hs Hf].
  destruct (evict_fields id (weight m) p s) as (Edb & Ew & _).
  assert (Et : tbl (evict id (weight m) p s) = remove_txpool_tx id (tbl s)) by (unfold tbl; rewrite Edb; reflexivity).
  split; rewrite ?Et, ?Ew; cbn [remove_txpool_tx txpool_meta txpool_blob].
  - rewrite dom_delete_L. now apply elements_without.
  - rewrite u64_sub_small, (total_weight_delete _ m) by assumption. lia.
  - intros id' m' bd E Eb. apply lookup_delete_Some in E as [_ E]. apply lookup_delete_Some in Eb as [_ Eb]. eauto.
  - rewrite u64_sub_small; assumption.
Qed.

(** A stored transaction has metadata, a blob, and both parses succeed. *)
Lemma stored_lookup s id :
  pool_ok init images_of s -> id ∈ dom (txpool_meta (tbl s)) ->
  exists m bd t, txpool_meta (tbl s) !! id = Some m /\ txpool_blob (tbl s) !! id = Some bd /\
    maybe_tx_from_blob init bd = Some t /\ maybe_tx_prefix_from_blob bd = Some (prefix t) /\
    input_images (vin (prefix t)) = Some (images_of id).
Proof.
  intros Hok Hid. pose proof Hid as Hid'. rewrite (ok_dom _ _ _ Hok) in Hid'.
  apply elem_of_dom in Hid as [m Hm]. apply elem_of_dom in Hid' as [bd Hbd].
  destruct (ok_blob _ _ _ Hok _ _ Hbd) as (t & Ht & Hi). exists m, bd, t. repeat split; auto. now apply tx_prefix_of_blob in Ht.
Qed.

(** The invariant only reads the tables, the index, the cache, the weight. *)
Lemma pool_ok_ext s s' :
  tbl s = tbl s' -> m_spent_output_key_images s = m_spent_output_key_images s' -> m_parsed_tx_cache s = m_parsed_tx_cache s' ->
  pool_ok init images_of s -> pool_ok init images_of s'.
Proof. intros E1 E2 E3 [????]. split; rewrite <- ?E1, <- ?E2, <- ?E3; assumption. Qed.

Lemma books_ext s s' ids ids' :
  tbl s = tbl s' -> m_txpool_weight s = m_txpool_weight s' -> ids ≡ₚ ids' -> books s ids -> books s' ids'.
Proof. intros E1 E2 E3 [????]. split; rewrite <- ?E1, <- ?E2, <- ?E3; assumption. Qed.

End Evict.

(** ** Pruning *)

Definition entry_from_block (t : tables) (e : sorted_entry) : bool :=
  match txpool_meta t !! e_id e with Some m => tx_from_block m | None => false end.
Definition entry_weight (t : tables) (e : sorted_entry) : Z :=
  match txpool_meta t !! e_id e with Some m => weight m | None => 0 end.

(** What the backward loop did to the entries [todo], with the tables [t] it
    started from: it went over [seen], kept those from a block and evicted the others, and
    stopped at [rest].  It evicted none too many: without the last eviction the
    pool was too heavy. *)
Record pruned_to (t : tables) (bytes : Z) (w : Z) (seen : list sorted_entry) (s' : pool) : Prop := {
  pt_none : List.filter (fun e => negb (entry_from_block t e)) seen = [] -> m_txpool_weight s' = w;
  pt_needed e : last (List.filter (fun e => negb (entry_from_block t e)) seen) = Some e ->
    bytes < m_txpool_weight s' + entry_weight t e }.

Section Prune.
Context `{UndefinedShift} (init : rctData) (images_of : hash -> list key_image).
Context (bytes : Z) (first : sorted_entry).

Lemma books_NoDup s ids : books s ids -> NoDup ids.
Proof. intros [Hp _ _ _]. rewrite Hp. apply NoDup_elements. Qed.

Lemma books_member s ids id : books s ids -> id ∈ ids -> id ∈ dom (txpool_meta (tbl s)).
Proof. intros [Hp _ _ _] Hid. apply elem_of_elements. now rewrite <- Hp. Qed.

(** One eviction of the loop. *)
Lemma prune_loop_evict e todo kept changed s m bd p :
  m_txpool_weight s <=? bytes = false -> txpool_meta (tbl s) !! e_id e = Some m -> tx_from_block m = false ->
  txpool_blob (tbl s) !! e_id e = Some bd -> maybe_tx_prefix_from_blob bd = Some p ->
  prune_loop bytes first (e :: todo) kept changed s = prune_loop bytes first todo kept true (evict (e_id e) (weight m) p s).
Proof.
  intros Hw Hm Hb Hbd Hp. cbn [prune_loop]. rewrite Hw. unfold get_txpool_tx_meta. rewrite Hm, Hb.
  unfold get_txpool_tx_blob, get_txpool_tx_blob_opt. cbn [bool_decide decide]. rewrite bool_decide_true by reflexivity.
  rewrite Hbd, Hp. unfold evict. cbn [m_txpool_weight map_db with_db]. now destruct (remove_transaction_keyimages _ _ _).
Qed.

Definition loop_post (t : tables) (todo kept : list sorted_entry) (s : pool) (r : pool * bool * bool) : Prop :=
  exists seen rest s' changed', r = (s', changed', true) /\ todo = seen ++ rest /\
    m_txs_by_fee_and_receive_time s' = first :: reverse rest ++ reverse (List.filter (entry_from_block t) seen) ++ kept /\
    pool_ok init images_of s' /\ books s' (sorted_ids s') /\
    (m_txpool_weight s' <= bytes \/ rest = []) /\ pruned_to t bytes (m_txpool_weight s) seen s' /\
    batch (m_db s') = batch (m_db s).

Lemma loop_post_stop t todo kept s changed :
  pool_ok init images_of s -> books s (e_id <$> (first :: todo ++ kept)) ->
  (m_txpool_weight s <= bytes \/ todo = []) ->
  loop_post t todo kept s (with_sorted (first :: reverse todo ++ kept) s, changed, true).
Proof.
  intros Hok Hbk Hend. exists [], todo, (with_sorted (first :: reverse todo ++ kept) s), changed.
  repeat split; auto; try discriminate; try apply Hok; try apply Hbk.
  cbn [m_txs_by_fee_and_receive_time with_sorted sorted_ids]. rewrite <- (bk_ids _ _ Hbk).
  unfold sorted_ids. apply fmap_Permutation. cbn [m_txs_by_fee_and_receive_time with_sorted]. now rewrite (reverse_Permutation todo).
Qed.

Lemma loop_post_keep t e todo kept s r :
  entry_from_block t e = true -> loop_post t todo (e :: kept) s r -> loop_post t (e :: todo) kept s r.
Proof.
  intros Hb (seen & rest & s' & c' & -> & -> & El & Hok & Hbk & Hend & [Hnone Hneed] & Hba).
  exists (e :: seen), rest, s', c'. cbn [List.filter]. rewrite Hb.
  rewrite reverse_cons, <- !app_assoc. split_and!; auto. split; cbn [List.filter]; rewrite Hb; auto.
Qed.

Lemma loop_post_evict t e todo kept s s1 r :
  entry_from_block t e = false -> bytes < m_txpool_weight s -> m_txpool_weight s1 = m_txpool_weight s - entry_weight t e ->
  batch (m_db s1) = batch (m_db s) -> loop_post t todo kept s1 r -> loop_post t (e :: todo) kept s r.
Proof.
  intros Hb Hw Hw1 Hba1 (seen & rest & s' & c' & -> & -> & El & Hok & Hbk & Hend & [Hnone Hneed] & Hba).
  exists (e :: seen), rest, s', c'. cbn [List.filter]. rewrite Hb. split_and!; auto; [split|congruence].
  - cbn [List.filter]. rewrite Hb. discriminate.
  - intros e' El'. cbn [List.filter] in El'. rewrite Hb in El'. cbn [negb] in El'.
    destruct (List.filter (fun e => negb (entry_from_block t e)) seen) eqn:Ef; [|now apply Hneed].
    injection El' as <-. rewrite (Hnone eq_refl). lia.
Qed.

Lemma prune_loop_spec t todo : forall kept changed s,
  pool_ok init images_of s -> books s (e_id <$> (first :: todo ++ kept)) ->
  (forall e, e ∈ todo -> txpool_meta (tbl s) !! e_id e = txpool_meta t !! e_id e) ->
  loop_post t todo kept s (prune_loop bytes first todo kept changed s).
Proof.
  induction todo as [|e todo IH]; intros kept changed s Hok Hbk Ht; [now apply loop_post_stop; auto|].
  destruct (m_txpool_weight s <=? bytes) eqn:Ew.
  { cbn [prune_loop]. rewrite Ew. apply loop_post_stop; auto. left. lia. }
  assert (Hid : e_id e ∈ dom (txpool_meta (tbl s))) by (apply (books_member _ _ _ Hbk), list_elem_of_fmap_2; set_solver).
  destruct (stored_lookup _ _ _ _ Hok Hid) as (m & bd & tx & Hm & Hbd & _ & Hp & Hi).
  assert (Hmt : txpool_meta t !! e_id e = Some m) by (rewrite <- Ht; [assumption|set_solver]).
  assert (Hfb : entry_from_block t e = tx_from_block m) by (unfold entry_from_block; now rewrite Hmt).
  destruct (tx_from_block m) eqn:Eb.
  - cbn [prune_loop]. rewrite Ew. unfold get_txpool_tx_meta. rewrite Hm, Eb. apply loop_post_keep, IH; auto.
    + apply (books_ext s _ _ _ eq_refl eq_refl) with (2 := Hbk). apply fmap_Permutation. cbn. now rewrite Permutation_middle.
    + intros e' He'. apply Ht. set_solver.
  - rewrite (prune_loop_evict e todo kept changed s m bd (prefix tx)) by assumption.
    assert (Hnd : e_id e ∉ e_id <$> todo).
    { apply books_NoDup in Hbk. cbn in Hbk. rewrite fmap_app in Hbk. apply NoDup_cons in Hbk as [_ Hbk].
      apply NoDup_cons in Hbk as [Hbk _]. set_solver. }
    destruct (evict_fields (e_id e) (weight m) (prefix tx) s) as (Edb & Ewt & _).
    assert (Hbk1 : books s (e_id <$> e :: first :: todo ++ kept)).
    { apply (books_ext s _ _ _ eq_refl eq_refl) with (2 := Hbk). apply Permutation_swap. }
    apply (loop_post_evict t e _ _ _ (evict (e_id e) (weight m) (prefix tx) s)); auto; [lia| |now rewrite Edb|].
    + unfold entry_weight. rewrite Ewt, Hmt. apply u64_sub_small. exact (evict_no_underflow _ _ _ _ _ _ Hok Hbk1 Hm).
    + apply IH; [now apply evict_ok|now apply (evict_books init images_of)|].
      intros e' He'. unfold tbl. rewrite Edb. cbn. rewrite lookup_delete_ne; [apply Ht; set_solver|].
      intros Eq. apply Hnd. rewrite Eq. now apply list_elem_of_fmap_2.
Qed.

End Prune.

(** ** Batches *)

Lemma lock_db_fields s s1 l : lock_db s = (s1, l) ->
  tbl s1 = tbl s /\ m_spent_output_key_images s1 = m_spent_output_key_images s /\
  m_parsed_tx_cache s1 = m_parsed_tx_cache s /\ m_txpool_weight s1 = m_txpool_weight s /\
  m_txs_by_fee_and_receive_time s1 = m_txs_by_fee_and_receive_time s /\
  m_txpool_max_weight s1 = m_txpool_max_weight s /\ m_timed_out_transactions s1 = m_timed_out_transactions s /\
  (l = true -> batch (m_db s1) = Some (tbl s)).
Proof.
  unfold lock_db, locked_txn. destruct (batch (m_db s)) eqn:E; intros [= <- <-]; cbn; unfold tbl; cbn; auto 10.
  repeat split; auto. discriminate.
Qed.

Lemma tbl_commit l s : tbl (map_db (txn_commit l) s) = tbl s.
Proof. unfold tbl, map_db, txn_commit. now destruct l. Qed.

Lemma tbl_on f s : tbl (map_db (on_tables f) s) = f (tbl s).
Proof. reflexivity. Qed.

(** Updates of the metadata that leave blobs and weights alone. *)
Definition meta_upd (t t' : tables) : Prop :=
  txpool_blob t' = txpool_blob t /\ weight <$> txpool_meta t' = weight <$> txpool_meta t.

#[export] Instance meta_upd_preorder : PreOrder meta_upd.
Proof. split; [split; reflexivity|]. intros t1 t2 t3 [? ?] [? ?]. split; congruence. Qed.

Lemma update_meta_upd id m m' t t' :
  txpool_meta t !! id = Some m -> weight m' = weight m -> update_txpool_tx id m' t = Returns t' -> meta_upd t t'.
Proof.
  unfold update_txpool_tx. intros Hm Hw. rewrite Hm. intros [= <-]. split; [reflexivity|]. cbn.
  rewrite fmap_insert, Hw. apply insert_id. now rewrite lookup_fmap, Hm.
Qed.

Lemma total_weight_fmap m : total_weight m = map_fold (fun _ w acc => w + acc) 0 (weight <$> m).
Proof. unfold total_weight. now rewrite map_fold_fmap. Qed.

Section MetaUpdates.
Context `{UndefinedShift} (init : rctData) (images_of : hash -> list key_image).

Lemma meta_upd_inv s s' :
  meta_upd (tbl s) (tbl s') -> m_spent_output_key_images s = m_spent_output_key_images s' ->
  m_parsed_tx_cache s = m_parsed_tx_cache s' -> m_txpool_weight s = m_txpool_weight s' ->
  m_txs_by_fee_and_receive_time s = m_txs_by_fee_and_receive_time s' ->
  pool_inv init images_of s -> pool_inv init images_of s'.
Proof.
  intros [Eb Em] E1 E2 E3 E4 [[Hd Hb Hn Hc Hx] [Hi Hw Hs Hf]].
  assert (Ed : dom (txpool_meta (tbl s')) = dom (txpool_meta (tbl s))).
  { rewrite <- (dom_fmap_L weight (txpool_meta (tbl s'))), Em. apply dom_fmap_L. }
  split; split; rewrite <- ?E1, <- ?E2, <- ?E3, ?Eb, ?Ed; auto.
  - unfold sorted_ids. now rewrite <- E4.
  - rewrite Hw, !total_weight_fmap, Em. reflexivity.
  - intros id m bd Hm Hbd. assert (E : weight <$> (txpool_meta (tbl s) !! id) = Some (weight m)).
    { rewrite <- lookup_fmap, <- Em, lookup_fmap, Hm. reflexivity. }
    destruct (txpool_meta (tbl s) !! id) eqn:E'; [|discriminate]. injection E as <-. eauto.
Qed.

End MetaUpdates.

(** ** The sorted container *)

Lemma txCompare_total a b : e_id a <> e_id b -> txCompare a b = false -> txCompare b a = true.
Proof.
  intros Hne. unfold txCompare. destruct (SFltb (e_rate b) (e_rate a)); [discriminate|].
  destruct (SFltb (e_rate a) (e_rate b)); [reflexivity|].
  destruct (Z.ltb_spec (e_time a) (e_time b)), (Z.ltb_spec (e_time b) (e_time a)); try discriminate; try lia; auto.
  rewrite bool_decide_true by assumption. discriminate.
Qed.

Lemma sorted_emplace_fresh e l : e_id e ∉ e_id <$> l -> sorted_emplace e l ≡ₚ e :: l.
Proof.
  unfold sorted_emplace. assert (Hh : match @None sorted_entry with Some p => txCompare p e | None => true end = true) by reflexivity.
  revert Hh. generalize (@None sorted_entry). induction l as [|x l IH]; intros prev Hh Hn; cbn [sorted_emplace_after].
  - now rewrite Hh.
  - rewrite Hh. destruct (txCompare e x) eqn:E; [reflexivity|]. rewrite (IH (Some x)).
    + apply Permutation_swap.
    + apply txCompare_total; [|assumption]. set_solver.
    + set_solver.
Qed.

Lemma sorted_erase_ids id l : NoDup (e_id <$> l) -> id ∈ e_id <$> l -> e_id <$> l ≡ₚ id :: (e_id <$> sorted_erase_first id l).
Proof.
  induction l as [|x l IH]; cbn; intros Hn Hin; [set_solver|]. apply NoDup_cons in Hn as [Hx Hn].
  case_bool_decide as E; [now rewrite E|]. cbn. rewrite IH by set_solver. apply Permutation_swap.
Qed.

(** ** Operations preserve the invariant *)

Lemma filter_reverse {A} (f : A -> bool) l : List.filter f (reverse l) = reverse (List.filter f l).
Proof.
  induction l as [|x l IH]; [reflexivity|]. rewrite reverse_cons, List.filter_app, IH. cbn [List.filter].
  destruct (f x); rewrite ?reverse_cons; [reflexivity|apply app_nil_r].
Qed.

Section Preservation.
Context `{UndefinedShift} `{Sha3} `{Chain} `{!ChainLaws} (init : rctData) (images_of : hash -> list key_image).
Abbreviation inv := (pool_inv init images_of).

Lemma inv_tick s : inv s -> inv (tick s).
Proof. intros [Ho Hb]. split; [now apply (pool_ok_ext _ _ s)|now apply (books_ext s _ (sorted_ids s))]. Qed.

Lemma inv_commit l s : inv s -> inv (map_db (txn_commit l) s).
Proof.
  intros [Ho Hb]. split; [apply (pool_ok_ext _ _ s); auto|apply (books_ext s _ (sorted_ids s)); auto]; now rewrite tbl_commit.
Qed.

Lemma inv_lock s s1 l : lock_db s = (s1, l) -> inv s -> inv s1.
Proof.
  intros E [Ho Hb]. destruct (lock_db_fields _ _ _ E) as (E1 & E2 & E3 & E4 & E5 & _).
  split; [now apply (pool_ok_ext _ _ s)|]. apply (books_ext s _ (sorted_ids s)); auto. unfold sorted_ids. now rewrite E5.
Qed.

Lemma prune_spec b s (bytes := if b =? 0 then m_txpool_max_weight s else b) :
  inv s ->
  inv (prune b s) /\ forall first rest, m_txs_by_fee_and_receive_time s = first :: rest ->
    exists front back, rest = front ++ back /\
      m_txs_by_fee_and_receive_time (prune b s) = first :: front ++ List.filter (entry_from_block (tbl s)) back /\
      (m_txpool_weight (prune b s) <= bytes \/ front = []) /\
      pruned_to (tbl s) bytes (m_txpool_weight s) (reverse back) (prune b s).
Proof.
  intros Hinv. unfold prune. fold bytes. destruct (lock_db s) as [s1 l] eqn:El. pose proof (inv_lock _ _ _ El Hinv) as [Hok Hbk].
  destruct (lock_db_fields _ _ _ El) as (E1 & _ & _ & E4 & E5 & _). rewrite E5. unfold sorted_ids in Hbk. rewrite E5 in Hbk.
  destruct (m_txs_by_fee_and_receive_time s) as [|first rest].
  { split; [|discriminate]. apply inv_commit. split; [assumption|]. unfold sorted_ids. now rewrite E5. }
  destruct (prune_loop_spec init images_of bytes first (tbl s) (reverse rest) [] false s1) as
    (seen & todo & s' & c' & -> & Er & Esort & Hok' & Hbk' & Hend & Hpt & _).
  { assumption. }
  { rewrite app_nil_r. apply (books_ext s1 _ _ _ eq_refl eq_refl) with (2 := Hbk). cbn. now rewrite reverse_Permutation. }
  { intros e _. now rewrite E1. }
  cbn [negb]. assert (Hf : forall s2, m_txpool_weight s2 = m_txpool_weight s' -> m_txs_by_fee_and_receive_time s2 = m_txs_by_fee_and_receive_time s' ->
    forall first0 rest0, first :: rest = first0 :: rest0 -> exists front back, rest0 = front ++ back /\
      m_txs_by_fee_and_receive_time s2 = first0 :: front ++ List.filter (entry_from_block (tbl s)) back /\
      (m_txpool_weight s2 <= bytes \/ front = []) /\ pruned_to (tbl s) bytes (m_txpool_weight s) (reverse back) s2).
  { intros s2 Ew Es _ _ [= <- <-]. exists (reverse todo), (reverse seen). rewrite Ew, Es, reverse_involutive, filter_reverse. split_and!.
    - rewrite <- reverse_app, <- Er, reverse_involutive. reflexivity.
    - rewrite Esort, app_nil_r. reflexivity.
    - destruct Hend as [|Hend]; [auto|right]. now rewrite Hend.
    - destruct Hpt as [P1 P2]. rewrite E4 in P1. split; rewrite Ew; assumption. }
  destruct c'; (split; [|now apply Hf]); [apply inv_tick|]; apply inv_commit; now split.
Qed.

(** *** Adding *)

Lemma have_inputs_as_spent_false ins ks id s :
  input_images ins = Some ks -> have_inputs_as_spent ins id s = false ->
  forall k, k ∈ ks -> have_tx_keyimg_as_spent k id s = false.
Proof.
  revert ks. induction ins as [|[h|x] ins IH]; cbn; intros ks Hi Hh k Hk; [|discriminate|].
  - injection Hi as <-. set_solver.
  - destruct (input_images ins) as [ks'|] eqn:E; [|discriminate]. injection Hi as <-.
    destruct (have_tx_keyimg_as_spent (output_key_image x) id s) eqn:E1; [discriminate|].
    apply list_elem_of_In in Hk as [<-|Hk]; [assumption|]. eapply IH; eauto. now apply list_elem_of_In.
Qed.

Lemma have_tx_keyimg_false s k id :
  pool_ok init images_of s -> have_tx_keyimg_as_spent k id s = false -> spenders images_of (dom (txpool_meta (tbl s))) k ⊆ {[ id ]}.
Proof.
  intros Hok. unfold have_tx_keyimg_as_spent. rewrite (ok_index _ _ _ Hok k). case_decide as E0; [rewrite E0; set_solver|].
  rewrite bool_decide_false by assumption. case_bool_decide as E1; [rewrite E1; set_solver|discriminate].
Qed.

(** The arguments of an addition belong together. *)
Record tx_args (tx : transaction) (id : hash) (bd : blob) (w : Z) : Prop := {
  ta_images : input_images (vin (prefix tx)) = Some (images_of id);
  ta_stored : stored init images_of id bd;
  ta_nodup : NoDup (images_of id);
  ta_weight : w = Z.of_nat (length bd) }.

Lemma spenders_insert (ids : gset hash) id k :
  spenders images_of ({[ id ]} ∪ ids) k = f_insert (images_of id) id (spenders images_of ids) k.
Proof.
  unfold spenders, f_insert. apply set_eq. intros x. case_decide; rewrite ?elem_of_union, !elem_of_filter, ?elem_of_union, ?elem_of_singleton.
  - split; [tauto|]. intros [->|?]; tauto.
  - split; [|tauto]. intros [? [->|?]]; tauto.
Qed.

(** The invariant after a fresh id joined the tables, the index and the container. *)
Lemma inv_insert s s' id bd w m ix :
  inv s -> stored init images_of id bd -> NoDup (images_of id) -> w = Z.of_nat (length bd) -> weight m = w ->
  txpool_meta (tbl s) !! id = None -> fits 64 (m_txpool_weight s + w) ->
  index_is ix (f_insert (images_of id) id (spenders images_of (dom (txpool_meta (tbl s))))) ->
  m_spent_output_key_images s' = ix -> tbl s' = add_txpool_tx id bd m (tbl s) ->
  m_txpool_weight s' = m_txpool_weight s ⊞ w -> sorted_ids s' ≡ₚ id :: sorted_ids s ->
  (forall id tx, m_parsed_tx_cache s' !! id = Some tx -> input_images (vin (prefix tx)) = Some (images_of id)) ->
  inv s'.
Proof.
  intros [Hok Hbk] Ts Tn Tw Hw Hfresh Hfit Hix Ei Et Ew Es Hc.
  split; split; rewrite ?Et, ?Ew, ?Ei; cbn [add_txpool_tx txpool_meta txpool_blob]; auto.
  - now rewrite !dom_insert_L, (ok_dom _ _ _ Hok).
  - intros id' bd' E. apply lookup_insert_Some in E as [[<- <-]|[_ E]]; [assumption|now apply (ok_blob _ _ _ Hok)].
  - intros id'. rewrite dom_insert_L. intros [->%elem_of_singleton|?]%elem_of_union; [assumption|now apply (ok_nodup _ _ _ Hok)].
  - rewrite dom_insert_L. refine (index_is_ext _ _ _ _ Hix). intros k. symmetry. apply spenders_insert.
  - rewrite Es, dom_insert_L, elements_union_singleton by now apply not_elem_of_dom. now rewrite (bk_ids _ _ Hbk).
  - rewrite u64_add_small, total_weight_insert, (bk_weight _ _ Hbk) by assumption. lia.
  - intros id' m' bd' E Eb. apply lookup_insert_Some in E as [[<- <-]|[Hne E]].
    + rewrite lookup_insert_eq in Eb. injection Eb as <-. congruence.
    + rewrite lookup_insert_ne in Eb by assumption. now apply (bk_size _ _ Hbk _ _ _ E).
  - rewrite u64_add_small by assumption. assumption.
Qed.

(** Filling the cache of parsed transactions. *)
Definition cache_tx (relay : relay_method) (id : hash) (tx : transaction) (s : pool) : pool :=
  if bool_decide (relay = block)
  then with_cache (match m_parsed_tx_cache s !! id with Some _ => m_parsed_tx_cache s | None => <[id := tx]> (m_parsed_tx_cache s) end) s
  else s.

Lemma cache_tx_inv relay id tx s :
  inv s -> input_images (vin (prefix tx)) = Some (images_of id) -> inv (cache_tx relay id tx s) /\ tbl (cache_tx relay id tx s) = tbl s.
Proof.
  intros [Hok Hbk] Hi. unfold cache_tx. case_bool_decide; [|split; [now split|reflexivity]]. split; [|reflexivity].
  split; [destruct Hok as [? ? ? Hc ?]; split; auto|now apply (books_ext s _ (sorted_ids s))].
  cbn. intros id' tx' E. destruct (m_parsed_tx_cache s !! id); [now apply Hc|].
  apply lookup_insert_Some in E as [[<- <-]|[_ E]]; [assumption|now apply Hc].
Qed.

(** Removing an id that is not stored changes nothing. *)
Lemma remove_absent s id : pool_ok init images_of s -> txpool_meta (tbl s) !! id = None -> remove_txpool_tx id (tbl s) = tbl s.
Proof.
  intros Hok Hn. unfold remove_txpool_tx. rewrite !delete_id; [now destruct (tbl s)| |assumption].
  apply not_elem_of_dom. rewrite <- (ok_dom _ _ _ Hok). now apply not_elem_of_dom.
Qed.

Lemma store_tx_spec (rm : bool) tx id bd w fee time relay meta s :
  inv s -> tx_args tx id bd w -> weight meta = w -> txpool_meta (tbl s) !! id = None ->
  (relay <> block -> forall k, k ∈ images_of id -> spenders images_of (dom (txpool_meta (tbl s))) k = ∅) ->
  fits 64 (m_txpool_weight s + w) ->
  exists s', store_tx rm tx id bd w fee time relay meta s = (s', true) /\ inv (with_weight (m_txpool_weight s' ⊞ w) s') /\
    tbl s' = add_txpool_tx id bd meta (tbl s).
Proof.
  intros Hinv [Ti Ts Tn Tw] Hw Hfresh Hone Hfit. unfold store_tx. fold (cache_tx relay id tx s).
  destruct (cache_tx_inv relay id tx s Hinv Ti) as [Hinv0 A1].
  assert (A3 : m_txpool_weight (cache_tx relay id tx s) = m_txpool_weight s) by (unfold cache_tx; now case_bool_decide).
  destruct (lock_db (cache_tx relay id tx s)) as [s1 l] eqn:El. pose proof (inv_lock _ _ _ El Hinv0) as [Hok1 Hbk1].
  destruct (lock_db_fields _ _ _ El) as (B1 & _ & _ & B4 & _). rewrite A1 in B1. rewrite A3 in B4.
  set (s2 := if rm then _ else s1).
  assert (E2 : tbl s2 = tbl s1 /\ m_spent_output_key_images s2 = m_spent_output_key_images s1 /\ m_txpool_weight s2 = m_txpool_weight s1 /\
    m_txs_by_fee_and_receive_time s2 = m_txs_by_fee_and_receive_time s1 /\ m_parsed_tx_cache s2 = m_parsed_tx_cache s1).
  { subst s2. destruct rm; split_and!; auto. rewrite tbl_on. apply remove_absent; [assumption|]. now rewrite B1. }
  clearbody s2. destruct E2 as (C1 & C2 & C3 & C4 & C5).
  unfold insert_output_key_images. rewrite C1, C2.
  destruct (insert_key_images_spec (vin (prefix tx)) (images_of id) id relay (tbl s1) _ _ Ti (ok_index _ _ _ Hok1)) as (ix & -> & Hix).
  { intros Hr k Hk. rewrite B1, (Hone Hr k Hk). set_solver. }
  { right. split; [assumption|]. intros k _ [_ Hin]%elem_of_filter. rewrite B1 in Hin. apply elem_of_dom in Hin as [? Hin]. congruence. }
  cbn [negb]. eexists. split; [reflexivity|]. set (s3 := map_db (txn_commit l) _).
  assert (D1 : tbl s3 = add_txpool_tx id bd meta (tbl s)) by (subst s3; rewrite tbl_commit; unfold tbl in *; cbn; congruence).
  split; [|exact D1]. apply (inv_insert s1 _ id bd w meta ix); auto; rewrite ?B1, ?B4; auto.
  - now split.
  - subst s3. cbn. now rewrite C3, B4.
  - subst s3. unfold sorted_ids. cbn. rewrite C4, sorted_emplace_fresh; [reflexivity|]. cbn. intros Hin.
    apply (books_member _ _ _ Hbk1) in Hin. rewrite B1 in Hin. apply elem_of_dom in Hin as [? Hin]. congruence.
  - subst s3. cbn. rewrite C5. apply (ok_cache _ _ _ Hok1).
Qed.

Lemma finish_add_inv w s : inv (with_weight (m_txpool_weight s ⊞ w) s) -> inv (finish_add w s).
Proof. intros Hs. unfold finish_add. apply prune_spec. now apply inv_tick. Qed.

(** *** Marking double spends *)

Lemma mark_one_upd st id : meta_upd st.1 (mark_one st id).1.
Proof.
  destruct st as [t c]. unfold mark_one, get_txpool_tx_meta. destruct (txpool_meta t !! id) as [m|] eqn:E; [|reflexivity].
  destruct (double_spend_seen m); [reflexivity|].
  destruct (update_txpool_tx id (set_double_spend_seen true m) t) as [t'|] eqn:Eu; [|reflexivity].
  now apply (update_meta_upd id m _ t t' E) in Eu.
Qed.

Lemma mark_all_upd ids st : meta_upd st.1 (foldl mark_one st ids).1.
Proof. revert st. induction ids as [|id ids IH]; intros st; [reflexivity|]. cbn. etransitivity; [apply mark_one_upd|apply IH]. Qed.

Lemma mark_inputs_upd ins ix st : meta_upd st.1 (mark_inputs ins ix st).1.1.
Proof.
  revert st. induction ins as [|[h|x] ins IH]; intros st; [reflexivity|reflexivity|]. cbn [mark_inputs].
  destruct (ix !! output_key_image x); [|apply IH]. etransitivity; [apply mark_all_upd|apply IH].
Qed.

(** An operation that takes the lock, updates metadata and commits or aborts. *)
Lemma inv_abort_fresh l s s1 t :
  lock_db s = (s1, l) -> meta_upd (tbl s) t -> inv s -> inv (map_db (txn_abort l) (map_db (on_tables (fun _ => t)) s1)).
Proof.
  intros El Hu Hinv. destruct (lock_db_fields _ _ _ El) as (E1 & E2 & E3 & E4 & E5 & _ & _ & E6).
  apply (meta_upd_inv _ _ s); auto. destruct l; unfold tbl; cbn; [|assumption].
  rewrite (E6 eq_refl). reflexivity.
Qed.

Lemma inv_commit_upd l s s1 t :
  lock_db s = (s1, l) -> meta_upd (tbl s) t -> inv s -> inv (map_db (txn_commit l) (map_db (on_tables (fun _ => t)) s1)).
Proof.
  intros El Hu Hinv. destruct (lock_db_fields _ _ _ El) as (E1 & E2 & E3 & E4 & E5 & _ & _ & _).
  apply (meta_upd_inv _ _ s); auto. rewrite tbl_commit. exact Hu.
Qed.

Lemma mark_double_spend_inv tx s : inv s -> inv (mark_double_spend tx s).
Proof.
  intros Hinv. unfold mark_double_spend. destruct (lock_db s) as [s1 l] eqn:El.
  destruct (lock_db_fields _ _ _ El) as (E1 & _).
  pose proof (mark_inputs_upd (vin (prefix tx)) (m_spent_output_key_images s1) (tbl s1, false)) as Hu. rewrite E1 in Hu.
  rewrite E1. destruct (mark_inputs _ _ _) as [[t c] d]. cbn in Hu. destruct d; cbn [negb]; [|eapply inv_abort_fresh; eauto].
  destruct c; [apply inv_tick|]; eapply inv_commit_upd; eauto.
Qed.

Lemma mark_double_spend_upd tx s :
  meta_upd (tbl s) (tbl (mark_double_spend tx s)) /\
  m_spent_output_key_images (mark_double_spend tx s) = m_spent_output_key_images s /\
  m_txs_by_fee_and_receive_time (mark_double_spend tx s) = m_txs_by_fee_and_receive_time s /\
  m_txpool_weight (mark_double_spend tx s) = m_txpool_weight s.
Proof.
  unfold mark_double_spend. destruct (lock_db s) as [s1 l] eqn:El.
  destruct (lock_db_fields _ _ _ El) as (E1 & E2 & _ & E4 & E5 & _ & _ & E6).
  pose proof (mark_inputs_upd (vin (prefix tx)) (m_spent_output_key_images s1) (tbl s1, false)) as Hu. rewrite E1 in Hu.
  rewrite E1. destruct (mark_inputs _ _ _) as [[t c] d]. cbn in Hu. destruct d; cbn [negb].
  - destruct c; cbn; split_and!; auto; (change (tbl (tick ?x)) with (tbl x) || idtac); now rewrite tbl_commit.
  - split_and!; auto. unfold tbl. cbn. destruct l; cbn; [now rewrite (E6 eq_refl)|exact Hu].
Qed.

(** Pruning only removes. *)
Lemma finish_add_dom w s :
  inv (with_weight (m_txpool_weight s ⊞ w) s) -> dom (txpool_meta (tbl (finish_add w s))) ⊆ dom (txpool_meta (tbl s)).
Proof.
  intros Hs. apply inv_tick in Hs. unfold finish_add. set (s1 := tick _) in *.
  destruct (prune_spec (m_txpool_max_weight s1) s1 Hs) as [Hp Hrest]. intros id Hid.
  apply elem_of_elements in Hid. rewrite <- (bk_ids _ _ (proj2 Hp)) in Hid. apply elem_of_elements.
  change (tbl s) with (tbl s1). rewrite <- (bk_ids _ _ (proj2 Hs)). unfold sorted_ids in *.
  destruct (m_txs_by_fee_and_receive_time s1) as [|first rest] eqn:El.
  - exfalso. revert Hid. unfold prune. destruct (lock_db s1) as [s2 l] eqn:Elk. destruct (lock_db_fields _ _ _ Elk) as (_ & _ & _ & _ & E5 & _).
    rewrite E5, El. cbn. rewrite E5, El. set_solver.
  - destruct (Hrest first rest eq_refl) as (front & back & -> & E2 & _). rewrite E2 in Hid. cbn in Hid |- *.
    rewrite fmap_app in *. apply elem_of_cons in Hid as [->|Hid]; [apply list_elem_of_here|]. apply list_elem_of_further.
    apply elem_of_app in Hid as [Hid|Hid]; apply elem_of_app; [now left|right].
    apply list_elem_of_fmap in Hid as (e & -> & He). apply list_elem_of_fmap_2. apply list_elem_of_In, List.filter_In in He as [He _].
    now apply list_elem_of_In.
Qed.

(** *** The outcome of [add_tx] *)

Definition refused (tx : transaction) (s : pool) (r : pool * tx_verification_context * bool) : Prop :=
  exists s' tvc', r = (s', tvc', false) /\ m_verifivation_failed tvc' = true /\ m_added_to_pool tvc' = false /\
    (s' = s \/ s' = mark_double_spend tx s).

Definition no_spender (s : pool) (id : hash) : Prop :=
  forall k, k ∈ images_of id -> spenders images_of (dom (txpool_meta (tbl s))) k = ∅.

Definition accepted (id : hash) (bd : blob) (w : Z) (relay : relay_method) (s : pool)
    (r : pool * tx_verification_context * bool) : Prop :=
  exists s1 tvc' meta, r = (finish_add w s1, tvc', true) /\ inv (with_weight (m_txpool_weight s1 ⊞ w) s1) /\
    tbl s1 = add_txpool_tx id bd meta (tbl s) /\ m_verifivation_failed tvc' = false /\ m_added_to_pool tvc' = true /\
    weight meta = w /\ get_relay_method meta = relay /\ (relay <> block -> no_spender s id).

(** The chain's checks may set flags of the context, but not these two. *)
Definition chain_keeps_flags : Prop :=
  (forall tx tvc, m_added_to_pool (chain_check_ringct_outputs tx tvc).2 = m_added_to_pool tvc) /\
  (forall tx h id tvc b, m_added_to_pool (chain_check_ringct_inputs tx h id tvc b).2.2 = m_added_to_pool tvc).

Lemma keyimages_free s tx id :
  inv s -> txpool_meta (tbl s) !! id = None -> input_images (vin (prefix tx)) = Some (images_of id) ->
  have_tx_keyimges_as_spent tx id s = false -> no_spender s id.
Proof.
  intros [Hok _] Hn Hi Hh k Hk. pose proof (have_inputs_as_spent_false _ _ _ _ Hi Hh k Hk) as Hs.
  apply (have_tx_keyimg_false _ _ _ Hok) in Hs. apply set_eq. intros x. split; [|set_solver]. intros Hx.
  pose proof (Hs _ Hx) as ->%elem_of_singleton. apply elem_of_filter in Hx as [_ Hx]. apply elem_of_dom in Hx as [? Hx]. congruence.
Qed.

Lemma tx_args_prefix tx tx' id bd w : prefix tx' = prefix tx -> tx_args tx id bd w -> tx_args tx' id bd w.
Proof. intros E [????]. split; auto. now rewrite E. Qed.

Ltac refuse := match goal with |- refused _ _ _ \/ _ => left; eexists _, _; split_and!; [reflexivity|reflexivity|assumption|auto] end.

Lemma add_tx_outcome now tx id bd w tvc relay rel s :
  chain_keeps_flags -> inv s -> tx_args tx id bd w -> txpool_meta (tbl s) !! id = None -> fits 64 (m_txpool_weight s + w) ->
  m_added_to_pool tvc = false ->
  refused tx s (add_tx now tx id bd w tvc relay rel s) \/ accepted id bd w relay s (add_tx now tx id bd w tvc relay rel s).
Proof.
  intros [Kout Kin] Hinv Ha Hn Hf Hadd. unfold add_tx. destruct (version (prefix tx) =? 0); [refuse|].
  destruct (_ && bool_decide (id ∈ _)); [refuse|]. destruct (check_inputs_types_supported tx); cbn [negb]; [|refuse].
  destruct (tx_fee_v1_checked tx) as [fee|flags] eqn:Efee.
  2: { unfold tx_fee_v1_checked in Efee. repeat case_match; try discriminate; injection Efee as <-; refuse. }
  destruct (_ && negb (chain_check_fee w fee)); [refuse|]. destruct (_ <? w); [refuse|].
  destruct (negb (bool_decide (relay = block)) && have_tx_keyimges_as_spent tx id s) eqn:Ek; [refuse|].
  assert (Hfree : relay <> block -> no_spender s id).
  { intros Hr. rewrite bool_decide_false in Ek by assumption. now apply (keyimages_free s tx id Hinv Hn (ta_images _ _ _ _ Ha)). }
  pose proof (Kout tx tvc) as K1. rewrite Hadd in K1. destruct (chain_check_ringct_outputs tx tvc) as [[] tvc1]; cbn [negb snd] in *; [|refuse].
  destruct now as [t1 t2]. pose proof (check_ringct_inputs_prefix tx 0 null_hash (raise [verifivation_failed] tvc1) (bool_decide (relay = block))) as Hp.
  pose proof (Kin tx 0 null_hash (raise [verifivation_failed] tvc1) (bool_decide (relay = block))) as K2.
  destruct (chain_check_ringct_inputs _ _ _ _ _) as [ok [[[tx' h] bid] tvc2]]. cbn [fst snd] in Hp, K2.
  change (m_added_to_pool (raise _ tvc1)) with (m_added_to_pool tvc1) in K2. rewrite K1 in K2. apply (tx_args_prefix _ _ _ _ _ Hp) in Ha.
  destruct ok; cbn [negb].
  - destruct (store_tx_spec true tx' id bd w fee t1 relay (fresh_meta w fee bid h t1 t2 rel relay false) s Hinv Ha) as (s1 & -> & Hi1 & Et); auto.
    right. cbn [negb]. exists s1. eexists _, _. split_and!; [reflexivity|exact Hi1|exact Et|reflexivity| |reflexivity|apply get_set_relay_method|exact Hfree].
    now destruct (0 <? fee), relay.
  - case_bool_decide as Er; cbn [negb]; [|refuse].
    destruct (store_tx_spec false tx' id bd w fee t1 relay (fresh_meta w fee null_hash 0 t1 t2 rel relay (have_tx_keyimges_as_spent tx' id s)) s Hinv Ha) as (s1 & -> & Hi1 & Et); auto.
    right. cbn [negb]. exists s1. eexists _, _. split_and!; [reflexivity|exact Hi1|exact Et|reflexivity|reflexivity|reflexivity|apply get_set_relay_method|exact Hfree].
Qed.

Lemma add_tx_inv now tx id bd w tvc relay rel s :
  chain_keeps_flags -> inv s -> tx_args tx id bd w -> txpool_meta (tbl s) !! id = None -> fits 64 (m_txpool_weight s + w) ->
  m_added_to_pool tvc = false -> inv (add_tx now tx id bd w tvc relay rel s).1.1.
Proof.
  intros Hk Hinv Ha Hn Hf Hadd. destruct (add_tx_outcome now tx id bd w tvc relay rel s Hk Hinv Ha Hn Hf Hadd) as
    [(s' & tvc' & -> & _ & _ & [->| ->])|(s1 & tvc' & m & -> & Hi & _)].
  - assumption.
  - now apply mark_double_spend_inv.
  - now apply finish_add_inv.
Qed.

End Preservation.

End TxPoolInv.
