(* ===== verification/BlockTemplate.v ===== *)
(** The choice of transactions for a new block
    ([tx_memory_pool::fill_block_template] and the helpers it calls, in
    [src/src/cryptonote/core/tx_pool.cpp]). *)

From stdpp Require Import gmap sorting.
From Stdlib Require Import Floats.SpecFloat.
From S2P Require Import Prelude Hash Config Varint Serialization Primality Group ModelGroup Key RctOps VectorOps InnerProduct Bulletproof Clsag RctTypes TxTypes Consensus Coinbase FormatUtils PoolTable TxPool TxPoolInv.

Module BlockTemplate.
Import Config Serialization.Archive RctTypes TxTypes Consensus Coinbase FormatUtils PoolTable TxPool TxPoolInv.

(** [amount * ACCEPT_THRESHOLD] with [float ACCEPT_THRESHOLD = 1.0f]: the amount is
    rounded to 24 bits, and the product is cut to an integer. *)
Definition float_of (x : Z) : spec_float := binary_normalize 24 128 x 0 false.
Definition ACCEPT_THRESHOLD : spec_float := float_of 1.
Definition float_trunc (f : spec_float) : Z :=
  match f with
  | S754_finite sg m e =>
    let v := if 0 <=? e then Z.pos m * 2 ^ e else Z.pos m / 2 ^ (- e) in if sg then - v else v
  | _ => 0
  end.
Definition template_accept_threshold (amount : Z) : Z :=
  float_trunc (SFmul 24 128 (float_of amount) ACCEPT_THRESHOLD).

Fixpoint have_output_key_images (seen : gset key_image) (ins : list txin_v) : bool :=
  match ins with
  | [] => false
  | txin_from_key x :: ins' => if bool_decide (output_key_image x ∈ seen) then true else have_output_key_images seen ins'
  | _ :: _ => false
  end.

(** Stops at the first duplicate; the caller ignores the result. *)
Fixpoint append_output_key_images (seen : gset key_image) (ins : list txin_v) : gset key_image * bool :=
  match ins with
  | [] => (seen, true)
  | txin_from_key x :: ins' =>
    if bool_decide (output_key_image x ∈ seen) then (seen, false)
    else append_output_key_images ({[ output_key_image x ]} ∪ seen) ins'
  | _ :: _ => (seen, false)
  end.

Definition fresh_tvc : tx_verification_context :=
  {| m_should_be_relayed := false; m_verifivation_failed := false; m_verifivation_impossible := false;
     m_added_to_pool := false; m_low_mixin := false; m_double_spend := false; m_invalid_input := false;
     m_invalid_output := false; m_too_big := false; m_overspend := false; m_fee_too_low := false;
     m_too_few_outputs := false |}.

Section Template.
Context `{UndefinedShift} `{Sha3} `{Chain}.
Context (init : rctData).

(** What [m_blockchain.check_ringct_inputs] does to the metadata of a transaction
    when it fails: it may have changed the height and id, and the failure is
    recorded. *)
Definition check_inputs_again (txd : txpool_tx_meta_t) (tx : transaction) : bool * txpool_tx_meta_t * transaction :=
  let '(ok, (tx, h, id, _)) :=
    chain_check_ringct_inputs tx (max_used_block_height txd) (max_used_block_id txd) fresh_tvc false in
  let txd := set_max_used h id txd in
  if ok then (true, txd, tx) else
  let failed := chain_current_height ⊟ 1 in
  (false, set_last_failed failed (chain_block_id_by_height failed) txd, tx).

(** The end of [is_transaction_ready_to_go]. *)
Definition check_unspent (txd : txpool_tx_meta_t) (tx : transaction) : bool * txpool_tx_meta_t * option transaction :=
  if chain_have_tx_keyimges_as_spent tx then (false, set_double_spend_seen true txd, Some tx) else (true, txd, Some tx).

(** [Throws] when the blob does not parse; nothing was changed by then.  The
    transaction is parsed when it is first used. *)
Definition is_transaction_ready_to_go (txd : txpool_tx_meta_t) (txblob : blob)
    : result (bool * txpool_tx_meta_t * option transaction) :=
  let recheck :=
    match maybe_tx_from_blob init txblob with
    | None => Throws
    | Some tx =>
      let '(ok, txd, tx) := check_inputs_again txd tx in
      Returns (if ok then check_unspent txd tx else (false, txd, Some tx))
    end in
  if bool_decide (max_used_block_id txd = null_hash) then
    if negb (bool_decide (last_failed_id txd = null_hash)) && (last_failed_height txd <? chain_current_height) &&
       bool_decide (last_failed_id txd = chain_block_id_by_height (last_failed_height txd))
    then Returns (false, txd, None) else recheck
  else
    if chain_current_height <=? max_used_block_height txd then Returns (false, txd, None) else
    if bool_decide (last_failed_id txd = chain_block_id_by_height (last_failed_height txd))
    then Returns (false, txd, None) else recheck.

Record template := {
  tx_hashes_out : list hash; total_weight_out : Z; fee_out : Z; best_coinbase : Z; coinbase : Z;
  seen_images : gset key_image; tables_out : tables }.

Definition with_tables (t : tables) (st : template) : template :=
  {| tx_hashes_out := tx_hashes_out st; total_weight_out := total_weight_out st; fee_out := fee_out st;
     best_coinbase := best_coinbase st; coinbase := coinbase st; seen_images := seen_images st; tables_out := t |}.
Definition with_coinbase (c : Z) (st : template) : template :=
  {| tx_hashes_out := tx_hashes_out st; total_weight_out := total_weight_out st; fee_out := fee_out st;
     best_coinbase := best_coinbase st; coinbase := c; seen_images := seen_images st; tables_out := tables_out st |}.

(** The readiness check of one entry: exceptions count as not ready, changed metadata
    are written back. *)
Definition check_ready (txid : hash) (meta : txpool_tx_meta_t) (txblob : blob) (t : tables)
    : tables * option (txpool_tx_meta_t * transaction) :=
  match is_transaction_ready_to_go meta txblob with
  | Throws => (t, None)
  | Returns (ready, meta', tx) =>
    let t := if bool_decide (meta = meta') then t
             else match update_txpool_tx txid meta' t with Returns t' => t' | Throws => t end in
    (t, if ready then (fun tx => (meta', tx)) <$> tx else None)
  end.

Definition include_tx (txid : hash) (meta : txpool_tx_meta_t) (tx : transaction) (st : template) : template :=
  {| tx_hashes_out := tx_hashes_out st ++ [txid]; total_weight_out := total_weight_out st ⊞ weight meta;
     fee_out := fee_out st ⊞ fee meta; best_coinbase := coinbase st; coinbase := coinbase st;
     seen_images := (append_output_key_images (seen_images st) (vin (prefix tx))).1; tables_out := tables_out st |}.

(** One round of the loop; the boolean is [false] when an exception leaves it.
    [garbage] is the uninitialised local [meta], which the failed lookup leaves as it
    is; the condition that guards it is the source's. *)
Definition template_step (height already_generated_coins max_total_weight : Z) (garbage : txpool_tx_meta_t)
    (st : template) (e : sorted_entry) : template * bool :=
  let txid := e_id e in
  let found := get_txpool_tx_meta txid (tables_out st) in
  let meta := default garbage found in
  if negb (bool_decide (is_Some found)) && negb (matches meta legacy) then (st, true) else
  if pruned meta then (st, true) else
  if max_total_weight <? total_weight_out st ⊞ weight meta then (st, true) else
  if negb (is_block_size_valid height (total_weight_out st ⊞ weight meta)) then (st, true) else
  let st := with_coinbase (get_block_reward already_generated_coins ⊞ fee_out st ⊞ fee meta) st in
  if coinbase st <? template_accept_threshold (best_coinbase st) then (st, true) else
  match get_txpool_tx_blob txid all (tables_out st) with
  | Throws => (st, false)
  | Returns txblob =>
    let '(t, ready) := check_ready txid meta txblob (tables_out st) in
    let st := with_tables t st in
    match ready with
    | None => (st, true)
    | Some (meta', tx) =>
      if have_output_key_images (seen_images st) (vin (prefix tx)) then (st, true) else (include_tx txid meta' tx st, true)
    end
  end.

Fixpoint template_loop (height coins max_total_weight : Z) (garbage : txpool_tx_meta_t) (es : list sorted_entry)
    (st : template) : template * bool :=
  match es with
  | [] => (st, true)
  | e :: es' =>
    let '(st', ok) := template_step height coins max_total_weight garbage st e in
    if ok then template_loop height coins max_total_weight garbage es' st' else (st', false)
  end.

Definition template_start (best : Z) (t : tables) : template :=
  {| tx_hashes_out := []; total_weight_out := 0; fee_out := 0; best_coinbase := best; coinbase := 0;
     seen_images := ∅; tables_out := t |}.

(** [None]: an exception left the function, the guard rolls its batch back. *)
Definition fill_block_template (height : Z) (garbage : txpool_tx_meta_t) (s : pool) : pool * option (template * bool) :=
  let already_generated_coins := chain_already_generated_coins height in
  if negb (is_block_size_valid height 0) then (s, Some (template_start 0 (tbl s), false)) else
  let best := get_block_reward already_generated_coins in
  let max_total_weight := get_block_size_bound height ⊟ CRYPTONOTE_COINBASE_BLOB_RESERVED_SIZE in
  let '(s, lock) := lock_db s in
  let '(st, ok) := template_loop height already_generated_coins max_total_weight garbage
                     (m_txs_by_fee_and_receive_time s) (template_start best (tbl s)) in
  let s := map_db (on_tables (fun _ => tables_out st)) s in
  if ok then (map_db (txn_commit lock) s, Some (st, true)) else (map_db (txn_abort lock) s, None).

End Template.

(** ** Sums over ids *)

Definition term (f : txpool_tx_meta_t -> Z) (t : tables) (id : hash) : Z :=
  match txpool_meta t !! id with Some m => f m | None => 0 end.
Definition sum_of (f : txpool_tx_meta_t -> Z) (t : tables) (ids : list hash) : Z := foldr (fun id a => term f t id + a) 0 ids.

Lemma sum_of_app f t l1 l2 : sum_of f t (l1 ++ l2) = sum_of f t l1 + sum_of f t l2.
Proof. unfold sum_of. induction l1 as [|x l1 IH]; cbn in *; lia. Qed.

Lemma sum_of_perm f t l1 l2 : l1 ≡ₚ l2 -> sum_of f t l1 = sum_of f t l2.
Proof. unfold sum_of. induction 1; cbn in *; lia. Qed.

Lemma total_weight_sum (ms : gmap hash txpool_tx_meta_t) :
  total_weight ms = foldr (fun id a => match ms !! id with Some m => weight m | None => 0 end + a) 0 (elements (dom ms)).
Proof.
  unfold total_weight. assert (Hp : elements (dom ms) ≡ₚ (map_to_list ms).*1).
  { apply NoDup_Permutation; [apply NoDup_elements|apply NoDup_fst_map_to_list|]. intros id. rewrite elem_of_elements, elem_of_dom. split.
    - intros [m Hm]. apply list_elem_of_fmap. exists (id, m). now rewrite elem_of_map_to_list.
    - intros ([id' m] & -> & Hm)%list_elem_of_fmap. apply elem_of_map_to_list in Hm. eauto. }
  rewrite map_fold_foldr.
  transitivity (foldr (fun id a => match ms !! id with Some m => weight m | None => 0 end + a) 0 (map_to_list ms).*1).
  2: { revert Hp. generalize (elements (dom ms)), (map_to_list ms).*1. intros l1 l2 Hp. symmetry in Hp. induction Hp; cbn in *; lia. }
  assert (Hl : forall id m, (id, m) ∈ map_to_list ms -> ms !! id = Some m) by (intros; now apply elem_of_map_to_list).
  clear Hp. induction (map_to_list ms) as [|[id m] l IH]; [reflexivity|]. cbn.
  rewrite (Hl id m) by apply list_elem_of_here. rewrite IH; [reflexivity|]. intros id' m' Hin. apply Hl. now apply list_elem_of_further.
Qed.

(** ** Properties of the choice *)

Section Choice.
Context `{UndefinedShift} `{Sha3} `{Chain} `{!ChainLaws} (init : rctData) (images_of : hash -> list key_image).
Abbreviation inv := (pool_inv init images_of).

(** Weight and fee of every entry are those of the tables [t]. *)
Definition same_terms (t t' : tables) : Prop :=
  txpool_blob t' = txpool_blob t /\
  (fun m => (weight m, fee m)) <$> txpool_meta t' = (fun m => (weight m, fee m)) <$> txpool_meta t.

Lemma same_terms_upd t t' : same_terms t t' -> meta_upd t t'.
Proof.
  intros [Eb Em]. split; [assumption|]. apply (f_equal (fmap fst)) in Em. rewrite <- !map_fmap_compose in Em. exact Em.
Qed.

Lemma same_terms_lookup t t' id m' :
  same_terms t t' -> txpool_meta t' !! id = Some m' ->
  exists m, txpool_meta t !! id = Some m /\ weight m' = weight m /\ fee m' = fee m.
Proof.
  intros [_ Em] Hm. apply (f_equal (fun x => x !! id)) in Em. rewrite !lookup_fmap, Hm in Em.
  destruct (txpool_meta t !! id) as [m|]; [|discriminate]. injection Em as -> ->. eauto.
Qed.

Lemma same_terms_update t t' t'' id m m' :
  same_terms t t' -> txpool_meta t' !! id = Some m -> weight m' = weight m -> fee m' = fee m ->
  update_txpool_tx id m' t' = Returns t'' -> same_terms t t''.
Proof.
  unfold update_txpool_tx. intros [Eb Em] Hm Hw Hf. rewrite Hm. intros [= <-]. split; [exact Eb|]. cbn. rewrite <- Em, fmap_insert, Hw, Hf.
  apply insert_id. now rewrite lookup_fmap, Hm.
Qed.

(** The readiness check keeps weight and fee; a ready transaction is the parsed
    one and unspent on the chain. *)
Lemma ready_spec txd bd r txd' tx :
  is_transaction_ready_to_go init txd bd = Returns (r, txd', tx) ->
  weight txd' = weight txd /\ fee txd' = fee txd /\
  (r = true -> exists t t', maybe_tx_from_blob init bd = Some t /\ tx = Some t' /\ prefix t' = prefix t /\
     chain_have_tx_keyimges_as_spent t' = false).
Proof.
  assert (Hrec : match maybe_tx_from_blob init bd with
                 | None => Throws
                 | Some tx0 => let '(ok, txd0, tx1) := check_inputs_again txd tx0 in
                               Returns (if ok then check_unspent txd0 tx1 else (false, txd0, Some tx1))
                 end = Returns (r, txd', tx) ->
    weight txd' = weight txd /\ fee txd' = fee txd /\
    (r = true -> exists t t', maybe_tx_from_blob init bd = Some t /\ tx = Some t' /\ prefix t' = prefix t /\
       chain_have_tx_keyimges_as_spent t' = false)).
  { destruct (maybe_tx_from_blob init bd) as [t|]; [|discriminate]. unfold check_inputs_again.
    pose proof (check_ringct_inputs_prefix t (max_used_block_height txd) (max_used_block_id txd) fresh_tvc false) as Hp.
    destruct (chain_check_ringct_inputs _ _ _ _ _) as [ok [[[t' h] bid] tvc]]. cbn in Hp.
    destruct ok; [|intros [= <- <- <-]; repeat split; discriminate]. unfold check_unspent.
    destruct (chain_have_tx_keyimges_as_spent t') eqn:Ec; intros [= <- <- <-]; repeat split; try discriminate.
    intros _. exists t, t'. auto. }
  unfold is_transaction_ready_to_go. repeat case_match; try exact Hrec; intros [= <- <- <-]; repeat split; discriminate.
Qed.

Lemma check_ready_spec t t0 id m bd :
  same_terms t t0 -> txpool_meta t0 !! id = Some m ->
  same_terms t (check_ready init id m bd t0).1 /\
  forall m' tx, (check_ready init id m bd t0).2 = Some (m', tx) ->
    weight m' = weight m /\ fee m' = fee m /\
    exists t, maybe_tx_from_blob init bd = Some t /\ prefix tx = prefix t /\ chain_have_tx_keyimges_as_spent tx = false.
Proof.
  intros Hs Hm. unfold check_ready. destruct (is_transaction_ready_to_go init m bd) as [[[r m'] tx]|] eqn:Er; [|now split].
  apply ready_spec in Er as (Hw & Hf & Hr). cbn [fst snd]. split.
  - case_bool_decide; [assumption|]. destruct (update_txpool_tx id m' t0) eqn:Eu; [|assumption]. eapply same_terms_update; eauto.
  - intros m'' tx'' E. destruct r; [|discriminate]. destruct (Hr eq_refl) as (t1 & t2 & E1 & -> & E3 & E4).
    injection E as <- <-. eauto 8.
Qed.

(** ** The images already used *)

Lemma have_output_key_images_false seen ins ks :
  input_images ins = Some ks -> have_output_key_images seen ins = false -> forall k, k ∈ ks -> k ∉ seen.
Proof.
  revert ks. induction ins as [|[h|x] ins IH]; cbn; intros ks Hi Hh k Hk; [|discriminate|].
  - injection Hi as <-. set_solver.
  - destruct (input_images ins) as [ks'|]; [|discriminate]. injection Hi as <-. case_bool_decide; [discriminate|].
    apply elem_of_cons in Hk as [->|Hk]; eauto.
Qed.

Lemma append_output_key_images_spec seen ins ks :
  input_images ins = Some ks -> NoDup ks -> (forall k, k ∈ ks -> k ∉ seen) ->
  append_output_key_images seen ins = (list_to_set ks ∪ seen, true).
Proof.
  revert ks seen. induction ins as [|[h|x] ins IH]; cbn; intros ks seen Hi Hn Hd; [|discriminate|].
  - injection Hi as <-. cbn. now rewrite union_empty_l_L.
  - destruct (input_images ins) as [ks'|]; [|discriminate]. injection Hi as <-. apply NoDup_cons in Hn as [Hk Hn].
    rewrite bool_decide_false by (apply Hd; set_solver). rewrite (IH ks' _ eq_refl Hn).
    + cbn. f_equal. set_solver.
    + intros k Hin. specialize (Hd k). set_solver.
Qed.

(** ** The loop *)

Record template_ok (T : tables) (coins max_weight : Z) (done : list hash) (st : template) : Prop := {
  tm_terms : same_terms T (tables_out st);
  tm_sub : tx_hashes_out st `sublist_of` done;
  tm_weight : total_weight_out st = sum_of weight T (tx_hashes_out st);
  tm_bound : total_weight_out st <= max_weight;
  tm_fee : fee_out st = wrap 64 (sum_of fee T (tx_hashes_out st));
  tm_best : best_coinbase st = get_block_reward coins ⊞ fee_out st;
  tm_seen : seen_images st = list_to_set (tx_hashes_out st ≫= images_of);
  tm_images : NoDup (tx_hashes_out st ≫= images_of);
  tm_unspent : Forall (fun id => exists tx, input_images (vin (prefix tx)) = Some (images_of id) /\
                                            chain_have_tx_keyimges_as_spent tx = false) (tx_hashes_out st) }.

Lemma sum_of_sublist f t l1 l2 : (forall id, 0 <= term f t id) -> l1 `sublist_of` l2 -> sum_of f t l1 <= sum_of f t l2.
Proof. intros Hp. unfold sum_of. induction 1 as [|x l1 l2 _ IH|x l1 l2 _ IH]; cbn; [lia|lia|]. specialize (Hp x). lia. Qed.

Lemma u64_add_assoc a b c : a ⊞ b ⊞ c = a ⊞ (b ⊞ c).
Proof. unfold u64_add, wrap. rewrite Zplus_mod_idemp_l, Zplus_mod_idemp_r. f_equal. lia. Qed.

(** Reading only: the coinbase candidate and the tables. *)
Lemma template_ok_touch T coins mw done st c t :
  same_terms T t -> template_ok T coins mw done st -> template_ok T coins mw done (with_tables t (with_coinbase c st)).
Proof. intros Ht [? ? ? ? ? ? ? ? ?]. now split. Qed.

Lemma template_ok_skip T coins mw done id st :
  template_ok T coins mw done st -> template_ok T coins mw (done ++ [id]) st.
Proof. intros [? ? ? ? ? ? ? ? ?]. split; auto. now apply sublist_inserts_r. Qed.

(** An entry that is included. *)
Lemma template_ok_include T coins mw done id st m m' tx :
  template_ok T coins mw done st -> txpool_meta T !! id = Some m -> weight m' = weight m -> fee m' = fee m ->
  fits 64 (total_weight_out st + weight m) -> total_weight_out st + weight m <= mw ->
  coinbase st = get_block_reward coins ⊞ fee_out st ⊞ fee m ->
  input_images (vin (prefix tx)) = Some (images_of id) -> NoDup (images_of id) ->
  have_output_key_images (seen_images st) (vin (prefix tx)) = false -> chain_have_tx_keyimges_as_spent tx = false ->
  template_ok T coins mw (done ++ [id]) (include_tx id m' tx st).
Proof.
  intros [K1 K2 K3 K4 K5 K6 K7 K8 K9] Hm Hw Hf Hfit Hle Hc Hi Hn Hh Hu.
  pose proof (have_output_key_images_false _ _ _ Hi Hh) as Hd.
  assert (Et : forall f, term f T id = f m) by (intros f; unfold term; now rewrite Hm).
  split; cbn [include_tx tables_out tx_hashes_out total_weight_out fee_out best_coinbase seen_images]; rewrite ?Hw, ?Hf; auto.
  - now apply sublist_app.
  - rewrite u64_add_small, sum_of_app by assumption. unfold sum_of at 2. cbn. rewrite Et. lia.
  - rewrite u64_add_small by assumption. lia.
  - rewrite sum_of_app. unfold sum_of at 2. cbn [foldr]. rewrite Et, K5. unfold u64_add, wrap. rewrite Zplus_mod_idemp_l. f_equal. lia.
  - rewrite Hc. apply u64_add_assoc.
  - rewrite (append_output_key_images_spec _ _ _ Hi Hn Hd). cbn [fst]. rewrite K7, bind_app, list_to_set_app_L. cbn. rewrite app_nil_r. set_solver.
  - rewrite bind_app. cbn. rewrite app_nil_r. apply NoDup_app. split_and!; [assumption| |assumption].
    intros k Hk Hk'. apply (Hd k Hk'). rewrite K7. now apply elem_of_list_to_set.
  - apply Forall_app. split; [assumption|]. constructor; [eauto|constructor].
Qed.

Lemma stored_weight_pos s : inv s -> forall id, 0 <= term weight (tbl s) id.
Proof.
  intros [Hok Hbk] id. unfold term. destruct (txpool_meta (tbl s) !! id) as [m|] eqn:E; [|lia].
  destruct (stored_lookup _ _ s id Hok) as (m2 & bd2 & _ & E2 & Eb & _); [apply elem_of_dom; eauto|].
  rewrite (bk_size _ _ Hbk _ _ _ E Eb). lia.
Qed.

(** The next candidate does not overflow the sum. *)
Lemma template_fits s coins mw done st id m :
  inv s -> template_ok (tbl s) coins mw done st -> txpool_meta (tbl s) !! id = Some m ->
  sum_of weight (tbl s) (done ++ [id]) < 2 ^ 64 -> fits 64 (total_weight_out st + weight m).
Proof.
  intros Hinv Hst Hm Hsum. pose proof (stored_weight_pos s Hinv) as Hpos.
  rewrite (tm_weight _ _ _ _ _ Hst). rewrite sum_of_app in Hsum.
  assert (E : sum_of weight (tbl s) [id] = weight m) by (unfold sum_of; cbn; unfold term; rewrite Hm; lia). rewrite E in Hsum.
  pose proof (sum_of_sublist _ _ _ _ Hpos (tm_sub _ _ _ _ _ Hst)).
  pose proof (sum_of_sublist weight (tbl s) [] _ Hpos (sublist_nil_l (tx_hashes_out st))) as Hz. cbn in Hz.
  specialize (Hpos id). unfold term in Hpos. rewrite Hm in Hpos. mlia.
Qed.

Lemma template_step_ok s height coins mw garbage done e st :
  inv s -> template_ok (tbl s) coins mw done st -> e_id e ∈ dom (txpool_meta (tbl s)) ->
  sum_of weight (tbl s) (done ++ [e_id e]) < 2 ^ 64 ->
  exists st', template_step init height coins mw garbage st e = (st', true) /\
    template_ok (tbl s) coins mw (done ++ [e_id e]) st'.
Proof.
  intros Hinv Hst Hid Hsum. pose proof (template_ok_skip _ _ _ _ (e_id e) _ Hst) as Hskip.
  destruct (stored_lookup _ _ _ _ (proj1 Hinv) Hid) as (m0 & bd & t & Hm0 & Hbd & Ht & _ & Hi).
  assert (is_Some (txpool_meta (tables_out st) !! e_id e)) as [m Hm].
  { apply elem_of_dom. rewrite <- (dom_fmap_L weight), (proj2 (same_terms_upd _ _ (tm_terms _ _ _ _ _ Hst))), dom_fmap_L. assumption. }
  destruct (same_terms_lookup _ _ _ _ (tm_terms _ _ _ _ _ Hst) Hm) as (m0' & Hm0' & Hw & Hf). rewrite Hm0 in Hm0'. injection Hm0' as <-.
  pose proof (template_fits _ _ _ _ _ _ _ Hinv Hst Hm0 Hsum) as Hfit. rewrite <- Hw in Hfit.
  unfold template_step, get_txpool_tx_meta. rewrite Hm. change (default garbage (Some m)) with m. rewrite bool_decide_true by eauto. cbn [negb andb].
  destruct (pruned m); [eauto|]. rewrite u64_add_small by assumption.
  destruct (Z.ltb_spec mw (total_weight_out st + weight m)); [eauto|]. destruct (is_block_size_valid _ _); cbn [negb]; [|eauto].
  set (c := _ ⊞ _ ⊞ _). cbn zeta.
  assert (Htouch : forall t, same_terms (tbl s) t -> template_ok (tbl s) coins mw done (with_tables t (with_coinbase c st)))
    by (intros; now apply template_ok_touch).
  destruct (coinbase (with_coinbase c st) <? _).
  { eexists. split; [reflexivity|]. apply template_ok_skip. exact (Htouch _ (tm_terms _ _ _ _ _ Hst)). }
  cbn [tables_out with_coinbase]. unfold get_txpool_tx_blob, get_txpool_tx_blob_opt. rewrite bool_decide_true by reflexivity.
  rewrite (proj1 (tm_terms _ _ _ _ _ Hst)), Hbd.
  destruct (check_ready_spec (tbl s) (tables_out st) (e_id e) m bd (tm_terms _ _ _ _ _ Hst) Hm) as [Hsame Hready].
  destruct (check_ready init (e_id e) m bd (tables_out st)) as [t' [[m' tx]|]]; cbn [fst snd] in *.
  2: { eexists. split; [reflexivity|]. now apply template_ok_skip, Htouch. }
  destruct (Hready m' tx eq_refl) as (Hw' & Hf' & t1 & Ht1 & Hp & Hu). rewrite Ht in Ht1. injection Ht1 as <-.
  destruct (have_output_key_images _ _) eqn:Eh; eexists; (split; [reflexivity|]); [now apply template_ok_skip, Htouch|].
  apply (template_ok_include (tbl s) coins mw done (e_id e) (with_tables t' (with_coinbase c st)) m0); try (cbn; subst c; congruence).
  - now apply Htouch.
  - now apply (ok_nodup _ _ _ (proj1 Hinv)).
  - exact Eh.
Qed.

Lemma template_loop_ok s height coins mw garbage es : forall done st,
  inv s -> template_ok (tbl s) coins mw done st -> (forall e, e ∈ es -> e_id e ∈ dom (txpool_meta (tbl s))) ->
  sum_of weight (tbl s) (done ++ (e_id <$> es)) < 2 ^ 64 ->
  exists st', template_loop init height coins mw garbage es st = (st', true) /\
    template_ok (tbl s) coins mw (done ++ (e_id <$> es)) st'.
Proof.
  induction es as [|e es IH]; intros done st Hinv Hst Hin Hsum.
  { exists st. split; [reflexivity|]. cbn. now rewrite app_nil_r. }
  replace (done ++ (e_id <$> e :: es)) with ((done ++ [e_id e]) ++ (e_id <$> es)) in * by (rewrite <- app_assoc; reflexivity).
  assert (Hsum1 : sum_of weight (tbl s) (done ++ [e_id e]) < 2 ^ 64).
  { refine (Z.le_lt_trans _ _ _ _ Hsum). apply sum_of_sublist; [now apply stored_weight_pos|]. now apply sublist_inserts_r. }
  destruct (template_step_ok s height coins mw garbage done e st Hinv Hst (Hin e ltac:(set_solver)) Hsum1) as (st1 & E1 & Hst1).
  cbn [template_loop]. rewrite E1. apply IH; auto. set_solver.
Qed.

Lemma get_block_reward_fits coins : fits 64 coins -> fits 64 (get_block_reward coins).
Proof.
  intros Hc. unfold get_block_reward. cbn zeta.
  assert (Hs : forall r, fits 64 r -> fits 64 (Z.shiftr r get_emission_speed_factor)).
  { intros r [Hr0 Hr1]. rewrite Z.shiftr_div_pow2 by (vm_compute; discriminate).
    change (2 ^ get_emission_speed_factor) with 524288. split; [apply Z.div_pos; lia|]. apply Z.div_lt_upper_bound; lia. }
  destruct (coins >=? get_money_supply); apply Hs; [mlia|apply u64_sub_fits].
Qed.
Lemma fill_block_template_ok (s : pool) (height : Z) (garbage : txpool_tx_meta_t) :
  inv s -> fits 64 height -> fits 64 (chain_already_generated_coins height) ->
  exists s' st, fill_block_template init height garbage s = (s', Some (st, true)) /\ inv s' /\
    tx_hashes_out st `sublist_of` sorted_ids s /\
    NoDup (tx_hashes_out st ≫= images_of) /\
    Forall (fun id => exists tx, input_images (vin (prefix tx)) = Some (images_of id) /\
                                 chain_have_tx_keyimges_as_spent tx = false) (tx_hashes_out st) /\
    total_weight_out st = sum_of weight (tbl s) (tx_hashes_out st) /\
    total_weight_out st + CRYPTONOTE_COINBASE_BLOB_RESERVED_SIZE <= get_block_size_bound height /\
    fee_out st = wrap 64 (sum_of fee (tbl s) (tx_hashes_out st)) /\
    best_coinbase st = get_block_reward (chain_already_generated_coins height) ⊞ fee_out st.
Proof.
  intros Hinv Hh Hc. unfold fill_block_template.
  assert (Hv : is_block_size_valid height 0 = true).
  { apply Z.leb_le. unfold get_block_size_bound. change get_minimum_block_size_bound with 131072. lia. }
  rewrite Hv. cbn [negb]. destruct (lock_db s) as [s1 l] eqn:El. destruct (lock_db_fields _ _ _ El) as (E1 & E2 & E3 & E4 & E5 & _).
  assert (Hmw : get_block_size_bound height ⊟ CRYPTONOTE_COINBASE_BLOB_RESERVED_SIZE = get_block_size_bound height - 600).
  { apply u64_sub_small. unfold get_block_size_bound. change get_minimum_block_size_bound with 131072.
    change CRYPTONOTE_COINBASE_BLOB_RESERVED_SIZE with 600. mlia. }
  rewrite Hmw, E1, E5. set (coins := chain_already_generated_coins height) in *.
  destruct (template_loop_ok s height coins (get_block_size_bound height - 600) garbage (m_txs_by_fee_and_receive_time s) []
    (template_start (get_block_reward coins) (tbl s)) Hinv) as (st & -> & Hst).
  - split; cbn; auto; try constructor; try reflexivity.
    + unfold get_block_size_bound. change get_minimum_block_size_bound with 131072. lia.
    + rewrite u64_add_small; rewrite Z.add_0_r; [reflexivity|]. now apply get_block_reward_fits.
  - intros e He. apply (books_member _ _ _ (proj2 Hinv)). now apply list_elem_of_fmap_2.
  - cbn [app]. rewrite (sum_of_perm _ _ _ _ (bk_ids _ _ (proj2 Hinv))). unfold sum_of, term. rewrite <- total_weight_sum.
    rewrite <- (bk_weight _ _ (proj2 Hinv)). apply (bk_fits _ _ (proj2 Hinv)).
  - eexists _, st. split; [reflexivity|]. split.
    { eapply inv_commit_upd; eauto. apply same_terms_upd, Hst. }
    split_and!; try apply Hst. change CRYPTONOTE_COINBASE_BLOB_RESERVED_SIZE with 600. pose proof (tm_bound _ _ _ _ _ Hst). lia.
Qed.


End Choice.

End BlockTemplate.
