(* ===== verification/TxPoolSteps.v ===== *)
(** The transaction pool as a transition system: every operation preserves the
    invariant of [TxPoolInv], in particular taking transactions for a block,
    time-outs, relaying and validation; the theorems about the pool. *)

From stdpp Require Import gmap sorting.
From Stdlib Require Import Floats.SpecFloat.
From S2P Require Import Prelude Hash Config Varint Serialization Primality Group ModelGroup Key RctOps VectorOps InnerProduct Bulletproof Clsag RctTypes TxTypes Consensus Coinbase FormatUtils PoolTable TxPool TxPoolInv BlockTemplate.

Module TxPoolSteps.
Import Config Serialization.Archive RctTypes TxTypes Consensus Coinbase FormatUtils PoolTable TxPool TxPoolInv BlockTemplate.

Section Preservation.
Context `{UndefinedShift} `{Sha3} `{Chain} `{!ChainLaws} (init : rctData) (images_of : hash -> list key_image).
Abbreviation inv := (pool_inv init images_of).

(** ** Taking *)

Lemma blob_all t id : get_txpool_tx_blob id all t = match txpool_blob t !! id with Some b => Returns b | None => Throws end.
Proof. unfold get_txpool_tx_blob, get_txpool_tx_blob_opt. now rewrite bool_decide_true. Qed.

Lemma inv_abort_locked s s1 l : lock_db s = (s1, l) -> inv s -> inv (map_db (txn_abort l) s1) /\ tbl (map_db (txn_abort l) s1) = tbl s.
Proof.
  intros El Hinv. destruct (lock_db_fields _ _ _ El) as (E1 & E2 & E3 & E4 & E5 & _ & _ & E6).
  assert (Et : tbl (map_db (txn_abort l) s1) = tbl s).
  { unfold tbl in *. destruct l; cbn; [|assumption]. now rewrite (E6 eq_refl). }
  split; [|assumption]. apply (meta_upd_inv _ _ s); auto. rewrite Et. reflexivity.
Qed.

(** The parse that [take_tx] uses, cached or not, has the images of its id. *)
Lemma cached_or_parsed_images s id m bd :
  pool_ok init images_of s -> txpool_meta (tbl s) !! id = Some m -> txpool_blob (tbl s) !! id = Some bd ->
  exists tx, cached_or_parsed init id bd s = Some tx /\ input_images (vin (prefix tx)) = Some (images_of id).
Proof.
  intros Hok Hm Hbd. unfold cached_or_parsed. destruct (m_parsed_tx_cache s !! id) as [tx|] eqn:E.
  - exists tx. split; [reflexivity|]. now apply (ok_cache _ _ _ Hok).
  - exact (ok_blob _ _ _ Hok _ _ Hbd).
Qed.

Lemma inv_evict s s' id m p :
  inv s -> txpool_meta (tbl s) !! id = Some m -> input_images (vin p) = Some (images_of id) ->
  tbl s' = remove_txpool_tx id (tbl s) -> m_txpool_weight s' = m_txpool_weight s ⊟ weight m ->
  m_spent_output_key_images s' = m_spent_output_key_images (evict id (weight m) p s) ->
  m_parsed_tx_cache s' = m_parsed_tx_cache s ->
  m_txs_by_fee_and_receive_time s' = sorted_erase_first id (m_txs_by_fee_and_receive_time s) -> inv s'.
Proof.
  intros [Hok Hbk] Hm Hi Et Ew Ex Ec Es. destruct (evict_fields id (weight m) p s) as (Fdb & Fw & _ & Fc & _).
  assert (Ft : tbl (evict id (weight m) p s) = remove_txpool_tx id (tbl s)) by (unfold tbl; now rewrite Fdb).
  assert (Hid : id ∈ dom (txpool_meta (tbl s))) by (apply elem_of_dom; eauto).
  split.
  - apply (pool_ok_ext _ _ (evict id (weight m) p s)); [congruence..|]. now apply evict_ok.
  - apply (books_ext (evict id (weight m) p s) _ (sorted_ids s')); [congruence..|reflexivity|].
    apply (evict_books init images_of); auto. apply (books_ext s _ (sorted_ids s)); auto. unfold sorted_ids. rewrite Es.
    apply sorted_erase_ids; [exact (books_NoDup _ _ Hbk)|]. unfold sorted_ids in Hbk. rewrite (bk_ids _ _ Hbk). now apply elem_of_elements.
Qed.

Lemma take_tx_spec id m s :
  inv s -> txpool_meta (tbl s) !! id = Some m ->
  exists s' tk, take_tx init id s = (s', Some tk) /\ inv s' /\ tbl s' = remove_txpool_tx id (tbl s) /\
    txpool_blob (tbl s) !! id = Some (t_blob tk) /\ t_weight tk = weight m /\ t_fee tk = fee m /\
    input_images (vin (prefix (t_tx tk))) = Some (images_of id).
Proof.
  intros Hinv Hm. unfold take_tx. destruct (lock_db s) as [s1 l] eqn:El. pose proof (inv_lock _ _ _ _ _ El Hinv) as Hinv1.
  destruct (lock_db_fields _ _ _ El) as (E1 & _). unfold get_txpool_tx_meta. rewrite blob_all, E1, Hm. rewrite <- E1 in Hm.
  assert (Hid : id ∈ dom (txpool_meta (tbl s1))) by (apply elem_of_dom; eauto).
  destruct (stored_lookup _ _ _ _ (proj1 Hinv1) Hid) as (m' & bd & _ & _ & Hbd & _). rewrite <- E1, Hbd.
  destruct (cached_or_parsed_images _ _ _ _ (proj1 Hinv1) Hm Hbd) as (tx & -> & Hi).
  destruct (remove_transaction_keyimages _ _ _) as [s2 ok] eqn:Er.
  assert (Es2 : s2 = evict id (weight m) (prefix tx) s1) by (unfold evict; cbn in Er |- *; now rewrite Er). subst s2.
  destruct (evict_fields id (weight m) (prefix tx) s1) as (Fdb & Fw & Fs & Fc & _).
  eexists _, _. split; [reflexivity|]. split.
  { apply inv_tick, (inv_evict s1 _ id m (prefix tx)); auto.
    - unfold tbl in *. cbn. rewrite Fdb. now destruct l.
    - cbn. now rewrite Fs. }
  split_and!; auto; unfold tbl in *; cbn; rewrite ?Fdb, <- ?E1; auto; now destruct l; cbn; rewrite ?E1.
Qed.

Lemma take_tx_inv id s : inv s -> inv (take_tx init id s).1.
Proof.
  intros Hinv. destruct (txpool_meta (tbl s) !! id) as [m|] eqn:Hm.
  - destruct (take_tx_spec id m s Hinv Hm) as (s' & tk & -> & Hs & _). exact Hs.
  - unfold take_tx. destruct (lock_db s) as [s1 l] eqn:El. destruct (lock_db_fields _ _ _ El) as (E1 & _).
    unfold get_txpool_tx_meta. rewrite E1, Hm. exact (proj1 (inv_abort_locked _ _ _ El Hinv)).
Qed.

(** ** Time-outs *)

Definition stuck_rows (now : Z) (rows : list (hash * txpool_tx_meta_t)) : list (hash * Z) :=
  (fun x => (x.1, weight x.2)) <$> List.filter (fun x => is_stuck now x.2) rows.

Definition collect_step (now : Z) (st : pool * list (hash * Z)) (row : hash * txpool_tx_meta_t) :=
  (collect_stuck now row.1 row.2 [] st).1.

Lemma collect_stuck_fold now rows : forall s rem,
  NoDup rows.*1 -> NoDup (sorted_ids s) -> (forall id, id ∈ rows.*1 -> id ∈ sorted_ids s) ->
  exists s', foldl (collect_step now) (s, rem) rows = (s', rem ++ stuck_rows now rows) /\
    m_db s' = m_db s /\ m_spent_output_key_images s' = m_spent_output_key_images s /\
    m_parsed_tx_cache s' = m_parsed_tx_cache s /\ m_txpool_weight s' = m_txpool_weight s /\
    sorted_ids s ≡ₚ (stuck_rows now rows).*1 ++ sorted_ids s'.
Proof.
  induction rows as [|[id m] rows IH]; intros s rem Hn Hs Hin.
  { exists s. cbn. rewrite app_nil_r. auto 8. }
  apply NoDup_cons in Hn as [Hid Hn]. cbn [foldl]. unfold collect_step at 2, collect_stuck, stuck_rows. cbn [fst snd List.filter].
  destruct (is_stuck now m) eqn:Em; cbn [negb fst].
  - set (s1 := with_timed_out _ _). assert (Hp : sorted_ids s ≡ₚ id :: sorted_ids s1).
    { apply sorted_erase_ids; [exact Hs|]. apply Hin. set_solver. }
    destruct (IH s1 (rem ++ [(id, weight m)]) Hn) as (s' & -> & E1 & E2 & E3 & E4 & E5).
    { rewrite Hp in Hs. now apply NoDup_cons in Hs as [_ ?]. }
    { intros id' Hid'. specialize (Hin id' ltac:(set_solver)). rewrite Hp in Hin. apply elem_of_cons in Hin as [->|]; [contradiction|assumption]. }
    exists s'. rewrite <- app_assoc. split_and!; auto. cbn. rewrite Hp, E5. reflexivity.
  - destruct (IH s rem Hn Hs) as (s' & -> & E); [intros; apply Hin; set_solver|]. exists s'. split; [reflexivity|exact E].
Qed.

(** One removal: the id was already erased from the sorted container. *)
Lemma remove_one_stuck_spec s id m ids :
  pool_ok init images_of s -> books s (id :: ids) -> txpool_meta (tbl s) !! id = Some m ->
  pool_ok init images_of (remove_one_stuck s (id, weight m)) /\ books (remove_one_stuck s (id, weight m)) ids /\
  tbl (remove_one_stuck s (id, weight m)) = remove_txpool_tx id (tbl s) /\
  m_txs_by_fee_and_receive_time (remove_one_stuck s (id, weight m)) = m_txs_by_fee_and_receive_time s.
Proof.
  intros Hok Hbk Hm. assert (Hid : id ∈ dom (txpool_meta (tbl s))) by (apply elem_of_dom; eauto).
  destruct (stored_lookup _ _ _ _ Hok Hid) as (m' & bd & tx & _ & Hbd & _ & Hp & Hi).
  assert (E : remove_one_stuck s (id, weight m) = evict id (weight m) (prefix tx) s).
  { unfold remove_one_stuck. cbn [fst snd]. now rewrite blob_all, Hbd, Hp. }
  destruct (evict_fields id (weight m) (prefix tx) s) as (Fdb & _ & Fs & _). rewrite E. split_and!; auto.
  - now apply evict_ok.
  - now apply (evict_books init images_of).
  - unfold tbl. now rewrite Fdb.
Qed.

Lemma remove_stuck_fold rows : forall s ids,
  pool_ok init images_of s -> books s (rows.*1 ++ ids) ->
  (forall id w, (id, w) ∈ rows -> exists m, txpool_meta (tbl s) !! id = Some m /\ weight m = w) ->
  pool_ok init images_of (foldl remove_one_stuck s rows) /\ books (foldl remove_one_stuck s rows) ids /\
  m_txs_by_fee_and_receive_time (foldl remove_one_stuck s rows) = m_txs_by_fee_and_receive_time s.
Proof.
  induction rows as [|[id w] rows IH]; intros s ids Hok Hbk Hrows; [auto|].
  destruct (Hrows id w ltac:(set_solver)) as (m & Hm & <-). cbn [foldl].
  pose proof (books_NoDup _ _ Hbk) as Hnd. cbn in Hnd. apply NoDup_cons in Hnd as [Hnd _].
  destruct (remove_one_stuck_spec s id m _ Hok Hbk Hm) as (Hok1 & Hbk1 & Et & Es). rewrite <- Es. apply IH; auto.
  intros id' w' Hin. destruct (Hrows id' w' ltac:(set_solver)) as (m' & Hm' & Hw'). exists m'. split; [|assumption].
  rewrite Et. cbn. rewrite lookup_delete_ne; [assumption|]. intros ->. apply Hnd, elem_of_app. left.
  now apply (list_elem_of_fmap_2 fst) in Hin.
Qed.

Lemma remove_stuck_transactions_inv now s : inv s -> exists s', remove_stuck_transactions now s = Returns s' /\ inv s'.
Proof.
  intros [Hok Hbk]. unfold remove_stuck_transactions, for_all_txpool_txes.
  rewrite (for_all_rows_fold (collect_step now)) by (intros ??? [s1 rem]; unfold collect_step, collect_stuck; now destruct (is_stuck _ _)).
  rewrite filter_matches_all. cbn [mbind result_bind].
  destruct (collect_stuck_fold now (cursor (tbl s)) s [] (NoDup_cursor _) (books_NoDup _ _ Hbk)) as (s1 & -> & E1 & E2 & E3 & E4 & E5).
  { intros id Hid. apply list_elem_of_fmap_1 in Hid as ([id' m] & -> & Hin). apply elem_of_cursor in Hin.
    rewrite (bk_ids _ _ Hbk). apply elem_of_elements, elem_of_dom. eauto. }
  cbn [app]. assert (Hok1 : pool_ok init images_of s1) by (apply (pool_ok_ext _ _ s); auto; unfold tbl; now rewrite E1).
  assert (Hbk1 : books s1 ((stuck_rows now (cursor (tbl s))).*1 ++ sorted_ids s1)).
  { apply (books_ext s _ (sorted_ids s)); auto. unfold tbl. now rewrite E1. }
  destruct (stuck_rows now (cursor (tbl s))) as [|r rs] eqn:Er; [exists s1; split; [reflexivity|now split]|]. rewrite <- Er in Hbk1 |- *.
  destruct (lock_db s1) as [s2 l] eqn:El. destruct (lock_db_fields _ _ _ El) as (F1 & F2 & F3 & F4 & F5 & _).
  assert (Ess : sorted_ids s2 = sorted_ids s1) by (unfold sorted_ids; now rewrite F5).
  destruct (remove_stuck_fold (stuck_rows now (cursor (tbl s))) s2 (sorted_ids s1)) as (Hok3 & Hbk3 & Es3).
  - now apply (pool_ok_ext _ _ s1).
  - now apply (books_ext s1 _ _ _) with (4 := Hbk1).
  - intros id w Hin. apply list_elem_of_fmap_1 in Hin as ([id' m] & [= -> ->] & Hin). apply list_elem_of_In, List.filter_In in Hin as [Hin _].
    apply list_elem_of_In, elem_of_cursor in Hin. exists m. split; [|reflexivity]. rewrite F1. unfold tbl. now rewrite E1.
  - eexists. split; [reflexivity|]. apply inv_tick, inv_commit. split; [assumption|]. unfold sorted_ids. rewrite Es3. fold (sorted_ids s2). now rewrite Ess.
Qed.

(** ** Relaying *)

Lemma set_relayed_one_upd now method t h : meta_upd t (set_relayed_one now method t h).
Proof.
  unfold set_relayed_one, get_txpool_tx_meta. destruct (txpool_meta t !! h) as [m|] eqn:E; [|reflexivity].
  destruct (update_txpool_tx h _ t) as [t'|] eqn:Eu; [|reflexivity]. now apply (update_meta_upd h m _ t t' E) in Eu.
Qed.

Lemma set_relayed_inv now hashes method s : inv s -> inv (set_relayed now hashes method s).
Proof.
  intros Hinv. unfold set_relayed. destruct (lock_db s) as [s1 l] eqn:El. destruct (lock_db_fields _ _ _ El) as (E1 & _).
  apply inv_commit, (meta_upd_inv _ _ s); try (apply (lock_db_fields _ _ _ El)); auto.
  all: try (symmetry; apply (lock_db_fields _ _ _ El)).
  rewrite tbl_on, E1. induction hashes as [|h hs IH] using rev_ind; [reflexivity|]. rewrite foldl_snoc.
  etransitivity; [apply IH|apply set_relayed_one_upd].
Qed.

(** ** Validation *)

Definition rows_weight (rows : list (hash * txpool_tx_meta_t)) : Z := foldr (fun x a => weight x.2 + a) 0 rows.

Lemma rows_weight_perm r1 r2 : r1 ≡ₚ r2 -> rows_weight r1 = rows_weight r2.
Proof. unfold rows_weight. induction 1; cbn in *; lia. Qed.

Lemma rows_weight_cursor t : rows_weight (cursor t) = total_weight (txpool_meta t).
Proof.
  rewrite (rows_weight_perm _ _ (cursor_perm t)). unfold total_weight. rewrite map_fold_foldr. unfold rows_weight.
  induction (map_to_list (txpool_meta t)) as [|[id m] l IH]; [reflexivity|]. cbn. now rewrite IH.
Qed.

Definition invalid (x : hash * txpool_tx_meta_t) : bool := (get_transaction_weight_limit <? weight x.2) || chain_have_tx x.1.

Lemma collect_invalid_fold rows : forall w rem,
  foldl (fun st row => (collect_invalid row.1 row.2 [] st).1) (w, rem) rows =
  (match rows with [] => w | _ => wrap 64 (w + rows_weight rows) end,
   rem ∪ list_to_set (List.filter invalid rows).*1).
Proof.
  induction rows as [|[id m] rows IH]; intros w rem; cbn [foldl].
  { cbn. now rewrite union_empty_r_L. }
  assert (E : (collect_invalid id m [] (w, rem)).1 = (w ⊞ weight m, if invalid (id, m) then {[ id ]} ∪ rem else rem)).
  { unfold collect_invalid, invalid. cbn [fst snd]. destruct (_ <? _), (chain_have_tx id); reflexivity. }
  cbn [fst snd]. rewrite E, IH. f_equal.
  - destruct rows; cbn [rows_weight foldr snd]; unfold u64_add, wrap; [f_equal; lia|].
    rewrite Zplus_mod_idemp_l. f_equal. lia.
  - cbn [List.filter]. destruct (invalid (id, m)); [|reflexivity]. cbn. set_solver.
Qed.

Lemma remove_one_invalid_spec s n id :
  inv s -> id ∈ dom (txpool_meta (tbl s)) ->
  exists s', remove_one_invalid init (s, n) id = (s', n ⊞ 1) /\ inv s' /\ tbl s' = remove_txpool_tx id (tbl s).
Proof.
  intros Hinv Hid. destruct (stored_lookup _ _ _ _ (proj1 Hinv) Hid) as (m & bd & tx & Hm & Hbd & Htx & _ & Hi).
  unfold remove_one_invalid. rewrite blob_all, Hbd, Htx. rewrite <- (bk_size _ _ (proj2 Hinv) _ _ _ Hm Hbd).
  destruct (remove_transaction_keyimages _ _ _) as [s2 ok] eqn:Er.
  assert (Es2 : s2 = evict id (weight m) (prefix tx) s) by (unfold evict; cbn in Er |- *; now rewrite Er). subst s2.
  destruct (evict_fields id (weight m) (prefix tx) s) as (Fdb & Fw & Fs & Fc & _).
  assert (Et : tbl (evict id (weight m) (prefix tx) s) = remove_txpool_tx id (tbl s)) by (unfold tbl; now rewrite Fdb).
  eexists. split; [reflexivity|]. split; [|exact Et].
  apply (inv_evict s _ id m (prefix tx)); auto. cbn. now rewrite Fs.
Qed.

Lemma remove_invalid_fold ids : forall s n,
  inv s -> NoDup ids -> (forall id, id ∈ ids -> id ∈ dom (txpool_meta (tbl s))) ->
  exists s' n', foldl (remove_one_invalid init) (s, n) ids = (s', n') /\ inv s' /\
    dom (txpool_meta (tbl s')) = dom (txpool_meta (tbl s)) ∖ list_to_set ids.
Proof.
  induction ids as [|id ids IH]; intros s n Hinv Hn Hin.
  { exists s, n. split_and!; auto. cbn. set_solver. }
  apply NoDup_cons in Hn as [Hid Hn]. cbn [foldl].
  destruct (remove_one_invalid_spec s n id Hinv (Hin id (list_elem_of_here _ _))) as (s1 & -> & Hinv1 & Et).
  destruct (IH s1 (n ⊞ 1) Hinv1 Hn) as (s' & n' & E & Hinv' & Ed).
  { intros id' Hid'. rewrite Et. cbn. rewrite dom_delete_L. specialize (Hin id'). set_solver. }
  exists s', n'. split_and!; auto. rewrite Ed, Et. cbn. rewrite dom_delete_L. set_solver.
Qed.

(** [validate] keeps the invariant and leaves exactly the valid transactions. *)
Lemma validate_spec order s :
  (forall X, order X ≡ₚ elements X) -> inv s ->
  exists s' n, validate init order s = Returns (s', n) /\ inv s' /\
    dom (txpool_meta (tbl s')) = dom (txpool_meta (tbl s)) ∖ list_to_set (List.filter invalid (cursor (tbl s))).*1.
Proof.
  intros Ho Hinv. unfold validate, for_all_txpool_txes.
  rewrite (for_all_rows_fold (fun st row => (collect_invalid row.1 row.2 [] st).1)) by
    (intros txid meta bd [w rem]; unfold collect_invalid; cbn [fst snd]; now destruct (_ <? _), (chain_have_tx txid)).
  rewrite filter_matches_all, collect_invalid_fold. cbn [mbind result_bind]. set (rem := ∅ ∪ _). set (w := match _ with [] => _ | _ => _ end).
  assert (Ew : w = m_txpool_weight s).
  { rewrite (bk_weight _ _ (proj2 Hinv)), <- rows_weight_cursor. subst w. destruct (cursor (tbl s)) eqn:Ec; [reflexivity|].
    rewrite <- Ec, Z.add_0_l, rows_weight_cursor, <- (bk_weight _ _ (proj2 Hinv)). apply wrap_small, (bk_fits _ _ (proj2 Hinv)). }
  assert (Hinv0 : inv (with_weight w s)).
  { rewrite Ew. destruct Hinv. split; [now apply (pool_ok_ext _ _ s)|now apply (books_ext s _ (sorted_ids s))]. }
  assert (Er : rem = list_to_set (List.filter invalid (cursor (tbl s))).*1) by (subst rem; set_solver).
  case_bool_decide as Hrem.
  - exists (with_weight w s), 0. split; [reflexivity|]. split; [exact Hinv0|]. change (tbl (with_weight w s)) with (tbl s). set_solver.
  - destruct (lock_db (with_weight w s)) as [s1 l] eqn:El. pose proof (inv_lock _ _ _ _ _ El Hinv0) as Hinv1.
    destruct (lock_db_fields _ _ _ El) as (E1 & _). change (tbl (with_weight w s)) with (tbl s) in E1.
    destruct (remove_invalid_fold (order rem) s1 0 Hinv1) as (s' & n' & -> & Hinv' & Ed).
    + rewrite Ho. apply NoDup_elements.
    + intros id Hid. rewrite Ho, elem_of_elements, Er, elem_of_list_to_set in Hid. apply list_elem_of_fmap_1 in Hid as ([id' m] & -> & Hin).
      apply list_elem_of_In, List.filter_In in Hin as [Hin _]. apply list_elem_of_In, elem_of_cursor in Hin. rewrite E1. apply elem_of_dom. eauto.
    + assert (Hd : dom (txpool_meta (tbl (map_db (txn_commit l) s'))) = dom (txpool_meta (tbl s)) ∖ list_to_set (List.filter invalid (cursor (tbl s))).*1).
      { rewrite tbl_commit, Ed, E1, <- Er. f_equal. apply set_eq. intros x. now rewrite elem_of_list_to_set, Ho, elem_of_elements. }
      exists (if 0 <? n' then tick (map_db (txn_commit l) s') else map_db (txn_commit l) s'), n'. split; [reflexivity|].
      apply (inv_commit _ _ l) in Hinv'. destruct (0 <? n'); split; auto. now apply inv_tick.
Qed.

(** ** Start-up *)

(** An insertion that succeeds has listed the id under every image. *)
Lemma insert_key_images_true id relay t ins : forall ks ix f ix',
  input_images ins = Some ks -> index_is ix f -> insert_key_images ins id relay t ix = (ix', true) -> index_is ix' (f_insert ks id f).
Proof.
  induction ins as [|[h|x] ins IH]; intros ks ix f ix' Hi Hf E; cbn in Hi; [|discriminate|].
  - injection Hi as <-. injection E as <-. exact (index_is_ext _ _ _ (fun k => eq_refl) Hf).
  - destruct (input_images ins) as [ks'|]; [|discriminate]. injection Hi as <-. cbn [insert_key_images] in E. set (k := output_key_image x) in *.
    rewrite (index_default _ f k Hf) in E. case_match; [discriminate|]. case_match; [discriminate|].
    refine (index_is_ext _ _ _ _ (IH ks' _ _ ix' eq_refl (index_insert _ _ k id Hf) E)). intros k'. unfold f_insert.
    destruct (decide (k' = k)) as [->|Hne].
    + rewrite (decide_True (P := k ∈ [k])), (decide_True (P := k ∈ k :: ks')) by set_solver.
      destruct (decide (k ∈ ks')); [|reflexivity]. now rewrite assoc_L, union_idemp_L by apply _.
    + rewrite (decide_False (P := k' ∈ [k])) by set_solver. destruct (decide (k' ∈ ks')).
      * rewrite decide_True by set_solver. reflexivity.
      * rewrite decide_False by set_solver. reflexivity.
Qed.

(** The pool [s] after the rows [done] of the tables of [s0] were loaded. *)
Record loaded (s0 : pool) (done : list (hash * txpool_tx_meta_t)) (s : pool) : Prop := {
  ld_db : m_db s = m_db s0;
  ld_cache : m_parsed_tx_cache s = m_parsed_tx_cache s0;
  ld_index : index_is (m_spent_output_key_images s) (spenders images_of (list_to_set done.*1));
  ld_sorted : sorted_ids s ≡ₚ done.*1;
  ld_weight : m_txpool_weight s = wrap 64 (rows_weight done) }.

Lemma load_row kept s0 done s s' id m bd :
  loaded s0 done s -> stored init images_of id bd -> id ∉ done.*1 -> tx_from_block m = kept ->
  init_row kept id m bd (s, []) = (s', true) -> s'.2 = [] /\ loaded s0 (done ++ [(id, m)]) s'.1.
Proof.
  intros [L1 L2 L3 L4 L5] (t & Ht & Hi) Hid <- E. unfold init_row in E. rewrite eqb_reflx in E. cbn [negb] in E.
  rewrite (tx_prefix_of_blob _ _ _ Ht) in E. unfold insert_output_key_images in E.
  destruct (insert_key_images _ _ _ _ _) as [ix []] eqn:Ei; [|discriminate]. cbn [negb] in E. injection E as <-. split; [reflexivity|].
  pose proof (insert_key_images_true _ _ _ _ _ _ _ _ Hi L3 Ei) as Hix. split; cbn; auto.
  - refine (index_is_ext _ _ _ _ Hix). intros k. rewrite <- spenders_insert. f_equal. rewrite fmap_app. cbn. set_solver.
  - unfold sorted_ids in *. cbn. rewrite sorted_emplace_fresh; cbn; [|now rewrite L4]. rewrite fmap_app, L4. cbn. now rewrite (comm (++)).
  - rewrite L5. unfold rows_weight. rewrite foldr_app. cbn [foldr snd]. unfold u64_add, wrap. rewrite Zplus_mod_idemp_l. f_equal.
    generalize done. intros l. induction l as [|x l IH]; cbn; lia.
Qed.

Lemma load_rows kept s0 rows : forall done s st,
  loaded s0 done s -> pool_ok init images_of s0 -> NoDup rows.*1 ->
  (forall id m, (id, m) ∈ rows -> tx_from_block m = kept -> id ∉ done.*1) ->
  for_all_rows (init_row kept) true all (tbl s0) rows (s, []) = Returns (st, true) ->
  st.2 = [] /\ loaded s0 (done ++ List.filter (fun x => Bool.eqb kept (tx_from_block x.2)) rows) st.1.
Proof.
  induction rows as [|[id m] rows IH]; intros done s st Hl Hok Hn Hin E; cbn [for_all_rows] in E.
  { injection E as <-. cbn [List.filter]. now rewrite app_nil_r. }
  rewrite matches_all in E. cbn [negb] in E. apply result_bind_inv in E as (bd & Eb & E).
  assert (Hbd : txpool_blob (tbl s0) !! id = Some bd) by (destruct (txpool_blob (tbl s0) !! id); congruence).
  rewrite fmap_cons in Hn. apply NoDup_cons in Hn as [Hid Hn]. cbn [List.filter snd].
  destruct (Bool.eqb kept (tx_from_block m)) eqn:Ek.
  - apply eqb_prop in Ek. destruct (init_row kept id m bd (s, [])) as [st1 []] eqn:Er; [|discriminate].
    destruct (load_row _ _ _ _ _ _ _ _ Hl (ok_blob _ _ _ Hok _ _ Hbd) (Hin id m (list_elem_of_here _ _) (eq_sym Ek)) (eq_sym Ek) Er) as [E2 Hl1].
    destruct st1 as [s1 rem]. cbn in E2, Hl1. subst rem.
    destruct (IH (done ++ [(id, m)]) s1 st Hl1 Hok Hn) as [R1 R2]; [|exact E|rewrite <- app_assoc in R2; auto].
    intros i x Hx Hk. rewrite fmap_app, not_elem_of_app. split; [apply (Hin i x); [apply list_elem_of_further, Hx|exact Hk]|].
    cbn. intros ->%list_elem_of_singleton. apply Hid. exact (list_elem_of_fmap_2 fst _ _ Hx).
  - unfold init_row at 1 in E. rewrite Ek in E. cbn [negb] in E. apply (IH done s st); auto.
    intros i x Hx. apply Hin. now apply list_elem_of_further.
Qed.

(** The rows of both passes are all the rows. *)
Lemma both_passes (rows : list (hash * txpool_tx_meta_t)) :
  List.filter (fun x => Bool.eqb false (tx_from_block x.2)) rows ++ List.filter (fun x => Bool.eqb true (tx_from_block x.2)) rows ≡ₚ rows.
Proof.
  induction rows as [|[id m] rows IH]; [reflexivity|]. cbn [List.filter snd]. destruct (tx_from_block m); cbn [Bool.eqb].
  - now rewrite <- Permutation_middle, IH.
  - cbn. now rewrite IH.
Qed.

(** Loading the stored pool again gives the invariant, when it succeeds. *)
Lemma init_pool_inv w s s' : inv s -> init_pool w s = Returns (s', true) -> inv s'.
Proof.
  intros [Hok Hbk] E. unfold init_pool, for_all_txpool_txes in E. set (s0 := with_weight 0 _) in E.
  change (tbl s0) with (tbl s) in E. assert (Hl0 : loaded s [] s0).
  { split; try reflexivity. intros k. cbn. unfold spenders. rewrite lookup_empty, decide_True; [reflexivity|]. set_solver. }
  apply result_bind_inv in E as ([st0 r0] & E0 & E). destruct r0; cbn [negb snd] in E; [|discriminate].
  destruct (load_rows false s _ [] s0 st0 Hl0 Hok (NoDup_cursor _) ltac:(set_solver) E0) as [R0 L0]. destruct st0 as [s1 rem0]. cbn in R0, L0. subst rem0.
  apply result_bind_inv in E as ([[s2 rem] r1] & E1 & E). destruct r1; cbn [negb] in E; [|discriminate]. cbn [fst] in E1.
  destruct (load_rows true s _ _ s1 (s2, rem) L0 Hok (NoDup_cursor (tbl s))) as [R1 L1]; [|exact E1|].
  { intros id m Hx Hk Hd. apply list_elem_of_fmap_1 in Hd as ([id' m'] & -> & Hd). apply list_elem_of_In, List.filter_In in Hd as [Hd Hk'].
    apply list_elem_of_In, elem_of_cursor in Hd. apply elem_of_cursor in Hx. cbn in *. rewrite Hd in Hx. injection Hx as ->. now rewrite Hk in Hk'. }
  cbn in R1, L1. subst rem. injection E as <-. destruct L1 as [L1 L2 L3 L4 L5]. rewrite both_passes in L4.
  assert (Ew : forall l1 l2, l1 ≡ₚ l2 -> rows_weight l1 = rows_weight l2) by apply rows_weight_perm.
  rewrite (Ew _ _ (both_passes _)), rows_weight_cursor, <- (bk_weight _ _ Hbk), wrap_small in L5 by apply (bk_fits _ _ Hbk).
  assert (Et : tbl s2 = tbl s) by (unfold tbl; now rewrite L1).
  assert (Hids : (cursor (tbl s)).*1 ≡ₚ elements (dom (txpool_meta (tbl s)))).
  { apply NoDup_Permutation; [apply NoDup_cursor|apply NoDup_elements|]. intros id. rewrite elem_of_elements, elem_of_dom. split.
    - intros ([i m] & -> & Hx)%list_elem_of_fmap_1. apply elem_of_cursor in Hx. eauto.
    - intros [m Hm]. apply elem_of_cursor in Hm. now apply (list_elem_of_fmap_2 fst) in Hm. }
  split; split; change (tbl (with_cookie 0 s2)) with (tbl s2); rewrite ?Et; cbn; try apply Hok; try apply Hbk.
  - rewrite L2. apply (ok_cache _ _ _ Hok).
  - refine (index_is_ext _ _ _ _ L3). intros k. f_equal. apply set_eq. intros id. rewrite elem_of_list_to_set, both_passes, Hids. apply elem_of_elements.
  - change (sorted_ids (with_cookie 0 s2)) with (sorted_ids s2). now rewrite L4, Hids.
  - rewrite L5. apply (bk_weight _ _ Hbk).
  - rewrite L5. apply (bk_fits _ _ Hbk).
Qed.

(** ** What the calls do to the tables *)

(** The rows by themselves: both tables have the same ids, a blob parses to a transaction with the images of its
    id, each image once, and a weight is the size of the blob. *)
Record rows_ok (t : tables) : Prop := {
  ro_dom : dom (txpool_meta t) = dom (txpool_blob t);
  ro_blob id bd : txpool_blob t !! id = Some bd -> stored init images_of id bd;
  ro_nodup id : id ∈ dom (txpool_meta t) -> NoDup (images_of id);
  ro_size id m bd : txpool_meta t !! id = Some m -> txpool_blob t !! id = Some bd -> weight m = Z.of_nat (length bd) }.

(** The rows now, and those that a roll-back restores. *)
Definition store_ok (d : store) : Prop := rows_ok (PoolTable.now d) /\ forall t, batch d = Some t -> rows_ok t.

(** All that a call does to the database of the pool. *)
Inductive move : store -> store -> Prop :=
| move_remove id d : move d (on_tables (remove_txpool_tx id) d)
| move_upd t d : meta_upd (PoolTable.now d) t -> move d (on_tables (fun _ => t) d)
| move_add id bd m d : stored init images_of id bd -> NoDup (images_of id) -> weight m = Z.of_nat (length bd) ->
    move d (on_tables (add_txpool_tx id bd m) d)
| move_lock d : move d (locked_txn d).1
| move_commit l d : move d (txn_commit l d)
| move_abort l d : move d (txn_abort l d).

Lemma rows_upd t t' : meta_upd t t' -> rows_ok t -> rows_ok t'.
Proof.
  intros [Eb Em] [Hd Hb Hn Hs]. assert (Ed : dom (txpool_meta t') = dom (txpool_meta t)) by (rewrite <- (dom_fmap_L weight (txpool_meta t')), Em; apply dom_fmap_L).
  split; rewrite ?Eb, ?Ed; auto. intros id m bd Hm Hbd.
  assert (E : weight <$> (txpool_meta t !! id) = Some (weight m)) by (rewrite <- lookup_fmap, <- Em, lookup_fmap, Hm; reflexivity).
  destruct (txpool_meta t !! id) eqn:E'; [|discriminate]. injection E as <-. eauto.
Qed.

Lemma move_ok d d' : move d d' -> store_ok d -> store_ok d'.
Proof.
  intros Hm [Hr Hb]. destruct Hm as [id d|t d Hu|id bd m d Hst Hnd Hw|d|l d|l d]; unfold locked_txn, txn_commit, txn_abort in *.
  - split; [|exact Hb]. destruct Hr as [Hd Hbl Hn Hs]. split; cbn.
    + now rewrite !dom_delete_L, Hd.
    + intros i bd E. apply lookup_delete_Some in E as [_ E]. eauto.
    + intros i. rewrite dom_delete_L. set_solver.
    + intros i m bd E E'. apply lookup_delete_Some in E as [_ E], E' as [_ E']. eauto.
  - split; [|exact Hb]. now apply (rows_upd (PoolTable.now d)).
  - split; [|exact Hb]. destruct Hr as [Hd Hbl Hn Hs]. split; cbn.
    + now rewrite !dom_insert_L, Hd.
    + intros i b E. apply lookup_insert_Some in E as [[<- <-]|[_ E]]; eauto.
    + intros i. rewrite dom_insert_L. intros [->%elem_of_singleton|?]%elem_of_union; auto.
    + intros i m' b E E'. apply lookup_insert_Some in E as [[<- <-]|[Hne E]].
      * rewrite lookup_insert_eq in E'. now injection E' as <-.
      * rewrite lookup_insert_ne in E' by assumption. eauto.
  - destruct (batch d) eqn:E; cbn [fst]; [split; [exact Hr|rewrite E; exact Hb]|]. split; [assumption|]. cbn. now intros t [= <-].
  - destruct l; [|now split]. split; [assumption|discriminate].
  - destruct l; [|now split]. destruct (batch d) as [t|] eqn:E; [|split; [assumption|congruence]]. split; [now apply Hb|discriminate].
Qed.

Lemma moves_ok d d' : rtc move d d' -> store_ok d -> store_ok d'.
Proof. induction 1; eauto using move_ok. Qed.

Lemma moves_lock s s1 l : lock_db s = (s1, l) -> rtc move (m_db s) (m_db s1).
Proof.
  unfold lock_db. destruct (locked_txn (m_db s)) as [d b] eqn:E. intros [= <- _]. apply rtc_once. cbn.
  change d with (d, b).1. rewrite <- E. apply move_lock.
Qed.

Lemma moves_then d d1 d2 : move d1 d2 -> rtc move d d1 -> rtc move d d2.
Proof. intros. eapply rtc_r; eauto. Qed.

Lemma images_db p id s : m_db (remove_transaction_keyimages p id s).1 = m_db s.
Proof. unfold remove_transaction_keyimages. now destruct (remove_key_images _ _ _) as [? []]. Qed.

Lemma moves_prune_loop bytes first todo : forall kept changed s,
  rtc move (m_db s) (m_db (prune_loop bytes first todo kept changed s).1.1).
Proof.
  induction todo as [|e todo IH]; intros kept changed s; cbn [prune_loop]; [reflexivity|]. cbv zeta.
  destruct (_ <=? _); [reflexivity|]. destruct (get_txpool_tx_meta _ _) as [m|]; [|reflexivity]. destruct (tx_from_block m); [apply IH|].
  destruct (get_txpool_tx_blob _ _ _) as [bd|]; [|reflexivity]. destruct (maybe_tx_prefix_from_blob bd) as [p|]; [|reflexivity].
  destruct (remove_transaction_keyimages _ _ _) as [s1 b] eqn:E. etransitivity; [|apply IH].
  change s1 with (s1, b).1. rewrite <- E, images_db. apply rtc_once, move_remove.
Qed.

Lemma moves_prune bytes s : rtc move (m_db s) (m_db (prune bytes s)).
Proof.
  unfold prune. destruct (lock_db s) as [s1 l] eqn:El. apply moves_lock in El. destruct (m_txs_by_fee_and_receive_time s1) as [|first rest].
  { apply (moves_then _ (m_db s1)); [apply move_commit|assumption]. }
  set (n := if bytes =? 0 then _ else _). pose proof (moves_prune_loop n first (reverse rest) [] false s1) as Hp.
  destruct (prune_loop _ _ _ _ _ _) as [[s2 c] ok]. cbn in Hp. assert (Hm2 : rtc move (m_db s) (m_db s2)) by (etransitivity; eassumption).
  destruct ok; cbn [negb]; [|apply (moves_then _ (m_db s2)); [apply move_abort|assumption]].
  destruct c; (eapply rtc_r; [exact Hm2|apply move_commit]).
Qed.

Lemma moves_insert p id r s : m_db (insert_output_key_images p id r s).1 = m_db s.
Proof. unfold insert_output_key_images. now destruct (insert_key_images _ _ _ _ _) as [? []]. Qed.

Lemma moves_store rm tx id bd w fee time relay meta s : tx_args init images_of tx id bd w -> weight meta = w ->
  rtc move (m_db s) (m_db (store_tx rm tx id bd w fee time relay meta s).1).
Proof.
  intros [_ Ts Tn Tw] Hw. unfold store_tx. set (sc := if bool_decide _ then _ else _). assert (Ec : m_db sc = m_db s) by (subst sc; now case_bool_decide).
  rewrite <- Ec. clearbody sc. destruct (lock_db sc) as [s1 l] eqn:El. apply moves_lock in El.
  set (s2 := if rm then _ else s1). assert (Hm2 : rtc move (m_db sc) (m_db s2)) by (subst s2; destruct rm; [eapply rtc_r; [exact El|apply move_remove]|exact El]).
  clearbody s2. pose proof (moves_insert (prefix tx) id relay s2) as Ei. destruct (insert_output_key_images _ _ _ _) as [s3 ok]. cbn in Ei. rewrite <- Ei in Hm2.
  destruct ok; cbn [negb fst]; [|apply (moves_then _ (m_db s3)); [apply move_abort|assumption]].
  eapply rtc_r; [eapply rtc_r; [exact Hm2|]|]; [apply (move_add id bd meta); auto; congruence|apply move_commit].
Qed.

Lemma moves_finish w s : rtc move (m_db s) (m_db (finish_add w s)).
Proof. unfold finish_add. etransitivity; [|apply moves_prune]. reflexivity. Qed.

(** An operation that takes the lock and updates metadata. *)
Lemma moves_upd s s1 l t : lock_db s = (s1, l) -> meta_upd (tbl s) t -> rtc move (m_db s) (on_tables (fun _ => t) (m_db s1)).
Proof.
  intros El Hu. destruct (lock_db_fields _ _ _ El) as (E1 & _). apply moves_lock in El. eapply rtc_r; [exact El|]. apply move_upd. fold (tbl s1). now rewrite E1.
Qed.

Lemma moves_mark tx s : rtc move (m_db s) (m_db (mark_double_spend tx s)).
Proof.
  unfold mark_double_spend. destruct (lock_db s) as [s1 l] eqn:El. destruct (lock_db_fields _ _ _ El) as (E1 & _).
  pose proof (mark_inputs_upd (vin (prefix tx)) (m_spent_output_key_images s1) (tbl s1, false)) as Hu. cbn [fst] in Hu. rewrite E1 in Hu |- *.
  destruct (mark_inputs _ _ _) as [[t c] d]. cbn in Hu. apply (moves_upd _ _ _ _ El) in Hu.
  destruct d; cbn [negb]; [|eapply rtc_r; [exact Hu|apply move_abort]]. destruct c; (eapply rtc_r; [exact Hu|apply move_commit]).
Qed.

Lemma moves_add now tx id bd w tvc relay rel s : tx_args init images_of tx id bd w ->
  rtc move (m_db s) (m_db (add_tx now tx id bd w tvc relay rel s).1.1).
Proof.
  intros Ha. unfold add_tx. do 3 (case_match; [reflexivity|]). destruct (tx_fee_v1_checked tx); [|reflexivity]. do 2 (case_match; [reflexivity|]).
  case_match; [apply moves_mark|]. destruct (chain_check_ringct_outputs _ _) as [[] tvc1]; cbn [negb]; [|reflexivity]. destruct now as [t1 t2].
  match goal with |- context [chain_check_ringct_inputs ?a ?b ?c ?d ?e] => pose proof (check_ringct_inputs_prefix a b c d e) as Hp;
    destruct (chain_check_ringct_inputs a b c d e) as [ok [[[tx' h] bid] tvc2]] end.
  cbn in Hp. apply (tx_args_prefix images_of _ tx' _ _ _ Hp) in Ha || apply (tx_args_prefix init images_of _ tx' _ _ _ Hp) in Ha.
  destruct ok; cbn [negb].
  - match goal with |- context [store_tx ?rm ?a ?b ?c ?d ?e ?f ?g ?m ?s] => pose proof (moves_store rm a b c d e f g m s Ha eq_refl) as Hm; destruct (store_tx rm a b c d e f g m s) as [s1 ok1] end.
    cbn in Hm. destruct ok1; cbn [negb fst]; [|assumption]. etransitivity; [exact Hm|apply moves_finish].
  - case_match; [reflexivity|].
    match goal with |- context [store_tx ?rm ?a ?b ?c ?d ?e ?f ?g ?m ?s] => pose proof (moves_store rm a b c d e f g m s Ha eq_refl) as Hm; destruct (store_tx rm a b c d e f g m s) as [s1 ok1] end.
    cbn in Hm. destruct ok1; cbn [negb fst]; [|assumption]. etransitivity; [exact Hm|apply moves_finish].
Qed.

Lemma moves_take id s : rtc move (m_db s) (m_db (take_tx init id s).1).
Proof.
  unfold take_tx. destruct (lock_db s) as [s1 l] eqn:El. apply moves_lock in El.
  assert (Ha : rtc move (m_db s) (m_db (map_db (txn_abort l) s1))) by (eapply rtc_r; [exact El|apply move_abort]).
  destruct (get_txpool_tx_meta _ _) as [m|]; [|exact Ha]. destruct (get_txpool_tx_blob _ _ _) as [bd|]; [|exact Ha].
  destruct (cached_or_parsed _ _ _ _) as [tx|]; [|exact Ha]. destruct (remove_transaction_keyimages _ _ _) as [s2 b] eqn:E.
  pose proof (f_equal (fun r => m_db r.1) E) as Ed. cbv beta in Ed. rewrite images_db in Ed. cbn in Ed |- *. rewrite <- Ed.
  eapply rtc_r; [eapply rtc_r; [exact El|apply (move_remove id)]|apply move_commit].
Qed.

Lemma moves_remove_stuck l : forall s, rtc move (m_db s) (m_db (foldl remove_one_stuck s l)).
Proof.
  induction l as [|[id w] l IH]; intros s; [reflexivity|]. cbn [foldl]. etransitivity; [|apply IH]. unfold remove_one_stuck. cbn [fst snd].
  destruct (get_txpool_tx_blob _ _ _) as [bd|]; [|reflexivity]. destruct (maybe_tx_prefix_from_blob bd) as [p|]; [|reflexivity].
  rewrite images_db. apply rtc_once, move_remove.
Qed.

Lemma collect_stuck_db now rows : forall s rem, m_db (foldl (collect_step now) (s, rem) rows).1 = m_db s.
Proof.
  induction rows as [|[id m] rows IH]; intros s rem; [reflexivity|]. cbn [foldl]. unfold collect_step at 2, collect_stuck. cbn [fst snd].
  destruct (is_stuck now m); cbn [negb fst]; now rewrite IH.
Qed.

Lemma moves_stuck now s s' : remove_stuck_transactions now s = Returns s' -> rtc move (m_db s) (m_db s').
Proof.
  unfold remove_stuck_transactions, for_all_txpool_txes.
  rewrite (for_all_rows_fold (collect_step now)) by (intros ??? [s1 rem]; unfold collect_step, collect_stuck; now destruct (is_stuck _ _)).
  cbn [mbind result_bind]. pose proof (collect_stuck_db now (List.filter (fun x => matches x.2 all) (cursor (tbl s))) s []) as Ed.
  destruct (foldl (collect_step now) _ _) as [s1 rem]. cbn in Ed. rewrite <- Ed. destruct rem as [|r rem]; [now intros [= <-]|].
  destruct (lock_db s1) as [s2 l] eqn:El. apply moves_lock in El. intros [= <-]. cbn [tick with_cookie m_db].
  eapply rtc_r; [etransitivity; [exact El|apply (moves_remove_stuck (r :: rem))]|apply move_commit].
Qed.

Lemma moves_relayed now hashes method s : rtc move (m_db s) (m_db (set_relayed now hashes method s)).
Proof.
  unfold set_relayed. destruct (lock_db s) as [s1 l] eqn:El. destruct (lock_db_fields _ _ _ El) as (E1 & _).
  assert (Hu : meta_upd (tbl s) (foldl (set_relayed_one now method) (tbl s1) hashes)).
  { rewrite E1. induction hashes as [|h hs IH] using rev_ind; [reflexivity|]. rewrite foldl_snoc. etransitivity; [apply IH|apply set_relayed_one_upd]. }
  eapply rtc_r; [exact (moves_upd _ _ _ _ El Hu)|apply move_commit].
Qed.

Lemma moves_invalid ids : forall s n, rtc move (m_db s) (m_db (foldl (remove_one_invalid init) (s, n) ids).1).
Proof.
  induction ids as [|id ids IH]; intros s n; [reflexivity|]. cbn [foldl]. unfold remove_one_invalid at 2.
  destruct (get_txpool_tx_blob _ _ _) as [bd|]; [|apply IH]. destruct (maybe_tx_from_blob init bd) as [tx|]; [|apply IH].
  destruct (remove_transaction_keyimages _ _ _) as [s2 b] eqn:E. pose proof (f_equal (fun r => m_db r.1) E) as Ed. cbv beta in Ed. rewrite images_db in Ed.
  etransitivity; [|apply IH]. cbn in Ed |- *. rewrite <- Ed. apply rtc_once, move_remove.
Qed.

Lemma moves_validate order s s' n : validate init order s = Returns (s', n) -> rtc move (m_db s) (m_db s').
Proof.
  unfold validate. intros E. apply result_bind_inv in E as ([[w rem] b] & _ & E). cbv zeta in E.
  set (r := if bool_decide (rem = ∅) then _ else _) in E. assert (Hr : rtc move (m_db s) (m_db r.1)).
  { subst r. case_bool_decide; [reflexivity|]. destruct (lock_db (with_weight w s)) as [s1 l] eqn:El. apply moves_lock in El.
    pose proof (moves_invalid (order rem) s1 0) as Hi. destruct (foldl _ _ _) as [s2 k]. eapply rtc_r; [etransitivity; [exact El|exact Hi]|apply move_commit]. }
  destruct r as [s1 k]. injection E as <- _. now destruct (0 <? k).
Qed.

(** Of a row that is not there, nothing is written. *)
Lemma check_ready_upd id m bd t : (forall m', txpool_meta t !! id = Some m' -> m' = m) -> meta_upd t (check_ready init id m bd t).1.
Proof.
  intros Hm. unfold check_ready. destruct (is_transaction_ready_to_go init m bd) as [[[r m'] tx]|] eqn:Er; [|reflexivity].
  apply ready_spec in Er as (Hw & _). cbn [fst]. case_bool_decide; [reflexivity|]. destruct (update_txpool_tx id m' t) as [t'|] eqn:Eu; [|reflexivity].
  destruct (txpool_meta t !! id) as [m0|] eqn:E0; [|unfold update_txpool_tx in Eu; now rewrite E0 in Eu].
  rewrite (Hm _ eq_refl) in E0. exact (update_meta_upd id m m' t t' E0 Hw Eu).
Qed.

Lemma template_step_upd height coins mw garbage st e :
  meta_upd (tables_out st) (tables_out (template_step init height coins mw garbage st e).1).
Proof.
  unfold template_step. cbv zeta. do 4 (case_match; [reflexivity|]). case_match; [reflexivity|].
  destruct (get_txpool_tx_blob _ _ _) as [bd|]; [|reflexivity]. cbn [with_coinbase tables_out].
  set (m := default garbage _). assert (Hm : forall m', txpool_meta (tables_out st) !! e_id e = Some m' -> m' = m) by (intros m' Em; subst m; unfold get_txpool_tx_meta; now rewrite Em).
  pose proof (check_ready_upd (e_id e) m bd (tables_out st) Hm) as Hu. destruct (check_ready _ _ _ _ _) as [t [[m' tx]|]]; cbn in Hu |- *; [|exact Hu].
  case_match; exact Hu.
Qed.

Lemma template_loop_upd height coins mw garbage es : forall st,
  meta_upd (tables_out st) (tables_out (template_loop init height coins mw garbage es st).1).
Proof.
  induction es as [|e es IH]; intros st; [reflexivity|]. cbn [template_loop]. pose proof (template_step_upd height coins mw garbage st e) as Hu.
  destruct (template_step _ _ _ _ _ _ _) as [st' []]; [|exact Hu]. etransitivity; [exact Hu|apply IH].
Qed.

Lemma moves_template height garbage s : rtc move (m_db s) (m_db (fill_block_template init height garbage s).1).
Proof.
  unfold fill_block_template. cbv zeta. case_match; [reflexivity|]. destruct (lock_db s) as [s1 l] eqn:El. destruct (lock_db_fields _ _ _ El) as (E1 & _).
  match goal with |- context [template_loop ?i ?h ?c ?mw ?g ?es ?st] => pose proof (template_loop_upd h c mw g es st) as Hu; destruct (template_loop i h c mw g es st) as [st' ok] end.
  cbn [template_start tables_out fst] in Hu. rewrite E1 in Hu. apply (moves_upd _ _ _ _ El) in Hu.
  destruct ok; (eapply rtc_r; [exact Hu|]); [apply move_commit|apply move_abort].
Qed.

Lemma init_row_db kept t rows : forall s rem st, for_all_rows (init_row kept) true all t rows (s, rem) = Returns st -> m_db st.1.1 = m_db s.
Proof.
  induction rows as [|[id m] rows IH]; intros s rem st E; cbn [for_all_rows] in E; [now injection E as <-|].
  rewrite matches_all in E. cbn [negb] in E. apply result_bind_inv in E as (bd & _ & E). unfold init_row in E at 1.
  destruct (negb _); [exact (IH _ _ _ E)|]. destruct (maybe_tx_prefix_from_blob bd) as [p|]; [|exact (IH _ _ _ E)].
  pose proof (moves_insert p id (get_relay_method m) s) as Ei. destruct (insert_output_key_images _ _ _ _) as [s1 ok]. cbn in Ei.
  destruct ok; cbn [negb] in E; [rewrite (IH _ _ _ E); exact Ei|now injection E as <-].
Qed.

Lemma moves_removals l ids : forall d d1, rtc move d d1 ->
  rtc move d (txn_commit l (on_tables (fun t => foldl (fun t h => remove_txpool_tx h t) t ids) d1)).
Proof.
  intros d d1 Hd. eapply rtc_r; [|apply move_commit]. revert d1 Hd. induction ids as [|id ids IH]; intros d1 Hd; [now destruct d1|].
  apply (IH (on_tables (remove_txpool_tx id) d1)). eapply rtc_r; [exact Hd|apply move_remove].
Qed.

Lemma moves_init w s s' b : init_pool w s = Returns (s', b) -> rtc move (m_db s) (m_db s').
Proof.
  unfold init_pool, for_all_txpool_txes. intros E. apply result_bind_inv in E as ([[s1 rem1] b1] & E1 & E). apply init_row_db in E1. cbn in E1.
  destruct b1; cbn [negb snd fst] in E; [|injection E as <- _; now rewrite E1].
  apply result_bind_inv in E as ([[s2 rem2] b2] & E2 & E). apply init_row_db in E2. cbn in E2. rewrite E1 in E2.
  destruct b2; cbn [negb] in E; [|injection E as <- _; now rewrite E2]. injection E as <- _. destruct rem2 as [|h rem2]; [cbn; now rewrite E2|].
  destruct (lock_db s2) as [s3 l] eqn:El. apply moves_lock in El. rewrite E2 in El. exact (moves_removals l (h :: rem2) _ _ El).
Qed.

(** ** The transition system *)

Lemma template_inv s height garbage :
  inv s -> fits 64 height -> fits 64 (chain_already_generated_coins height) -> inv (fill_block_template init height garbage s).1.
Proof.
  intros Hinv Hh Hc. destruct (fill_block_template_ok init images_of s height garbage Hinv Hh Hc) as (s' & st & -> & Hs & _). exact Hs.
Qed.

(** Calls of the pool. A transaction is added with the size of its blob as weight, as [core::add_new_tx] does.
    In a [regular] sequence no transaction is added while it is stored, the weight of the pool does
    not overflow, and the stored pool can be loaded.  ([core::add_new_tx] asks
    for the first, except for a stored transaction that was not yet public: [readded_tx_counted_twice].) *)
Inductive pool_step (regular : bool) : pool -> pool -> Prop :=
| step_add now tx id bd w tvc relay rel s :
    tx_args init images_of tx id bd w -> m_added_to_pool tvc = false ->
    (regular = true -> txpool_meta (tbl s) !! id = None /\ fits 64 (m_txpool_weight s + w)) ->
    pool_step regular s (add_tx now tx id bd w tvc relay rel s).1.1
| step_take id s : pool_step regular s (take_tx init id s).1
| step_prune bytes s : pool_step regular s (prune bytes s)
| step_stuck now s s' : remove_stuck_transactions now s = Returns s' -> pool_step regular s s'
| step_relayed now hashes method s : pool_step regular s (set_relayed now hashes method s)
| step_validate order s s' n :
    (forall X, order X ≡ₚ elements X) -> validate init order s = Returns (s', n) -> pool_step regular s s'
| step_template height garbage s :
    fits 64 height -> fits 64 (chain_already_generated_coins height) ->
    pool_step regular s (fill_block_template init height garbage s).1
| step_mark tx s : pool_step regular s (mark_double_spend tx s)
| step_inc s : pool_step regular s (on_blockchain_inc s)
| step_dec s : pool_step regular s (on_blockchain_dec s)
| step_max bytes s : pool_step regular s (set_txpool_max_weight bytes s)
| step_init w s s' b : init_pool w s = Returns (s', b) -> (regular = true -> b = true) -> pool_step regular s s'.

Lemma clear_cache_inv s : inv s -> inv (with_cache ∅ s).
Proof.
  intros [[? ? ? ? ?] Hbk]. split; [split; auto; intros id tx E; cbn in E; now rewrite lookup_empty in E|].
  now apply (books_ext s _ (sorted_ids s)).
Qed.

Lemma pool_step_inv s s' : chain_keeps_flags -> inv s -> pool_step true s s' -> inv s'.
Proof.
  intros Hk Hinv Hstep. destruct Hstep as [clock tx id bd w tvc relay rel s Ha Hadd Hreg| | |clock s s' Hr| |order s s' k Ho Hv| | | | | |w s s' b Hi Hb].
  - destruct (Hreg eq_refl). now apply add_tx_inv.
  - now apply take_tx_inv.
  - now apply prune_spec.
  - destruct (remove_stuck_transactions_inv clock s Hinv) as (s2 & E & Hs). congruence.
  - now apply set_relayed_inv.
  - destruct (validate_spec order s Ho Hinv) as (s2 & n2 & E & Hs & _). congruence.
  - now apply template_inv.
  - now apply mark_double_spend_inv.
  - now apply clear_cache_inv.
  - now apply clear_cache_inv.
  - destruct Hinv. split; [now apply (pool_ok_ext _ _ s)|now apply (books_ext s _ (sorted_ids s))].
  - rewrite (Hb eq_refl) in Hi. now apply (init_pool_inv w s).
Qed.

Lemma pool_step_moves regular s s' : pool_step regular s s' -> rtc move (m_db s) (m_db s').
Proof.
  destruct 1; try reflexivity; eauto using moves_add, moves_take, moves_prune, moves_stuck, moves_relayed, moves_validate, moves_template, moves_mark, moves_init.
Qed.

Definition empty_pool (max_weight : Z) : pool :=
  {| m_spent_output_key_images := ∅; m_txs_by_fee_and_receive_time := []; m_cookie := 0; m_timed_out_transactions := ∅;
     m_txpool_max_weight := max_weight; m_txpool_weight := 0; m_parsed_tx_cache := ∅;
     m_db := {| PoolTable.now := {| txpool_meta := ∅; txpool_blob := ∅ |}; batch := None |} |}.

Lemma empty_pool_inv w : inv (empty_pool w).
Proof.
  split; split; cbn.
  - now rewrite !dom_empty_L.
  - intros id bd E. now rewrite lookup_empty in E.
  - intros id. rewrite dom_empty_L. set_solver.
  - intros id tx E. now rewrite lookup_empty in E.
  - intros k. unfold spenders. rewrite lookup_empty, decide_True; [reflexivity|]. set_solver.
  - now rewrite dom_empty_L, elements_empty.
  - reflexivity.
  - intros id m bd E. now rewrite lookup_empty in E.
  - mlia.
Qed.

Lemma empty_store_ok w : store_ok (m_db (empty_pool w)).
Proof.
  split; [|discriminate]. pose proof (empty_pool_inv w) as [Hok Hbk]. split.
  - exact (ok_dom _ _ _ Hok).
  - exact (ok_blob _ _ _ Hok).
  - exact (ok_nodup _ _ _ Hok).
  - exact (bk_size _ _ Hbk).
Qed.

(** C17: The invariant of the transaction pool.  Calls are additions from any source of transactions with the size of their blob
    as weight (a hash stands for one transaction), transactions taken for a block, pruning, time-outs, relaying, validation, block
    templates, double-spend marks and loading the stored pool.  Through every sequence of them that
    starts from the empty pool, also when a stored transaction is added again: every stored transaction has its metadata and a
    blob that parses to a transaction with its key images, each once, and its weight is the size of the blob.  Through every sequence in which
    no transaction is added while it is stored, the sum of the weights fits 64 bits, and loading succeeds: also,
    the index of spent key images lists under each image exactly
    the stored transactions that spend it; the container sorted by fee lists each
    stored transaction exactly once; and the pool weight is the sum of
    the stored weights.  (The core adds a stored transaction again when it was local until then; the weight, the
    container and in the end the index then go wrong, [readded_tx_counted_twice], [readded_tx_breaks_index].) *)
Theorem pool_invariant (w : Z) (s : pool) :
  (rtc (pool_step false) (empty_pool w) s -> rows_ok (tbl s)) /\
  (chain_keeps_flags -> rtc (pool_step true) (empty_pool w) s -> inv s).
Proof.
  split.
  - intros Hr. enough (store_ok (m_db s)) as [Hs _] by exact Hs. pose proof (empty_store_ok w) as Hok.
    induction Hr as [|s1 s2 s3 Hs _ IH]; [assumption|]. apply IH. eapply moves_ok; [eapply pool_step_moves, Hs|exact Hok].
  - intros Hk Hr. pose proof (empty_pool_inv w) as Hinv. induction Hr as [|s1 s2 s3 Hs _ IH]; [assumption|].
    apply IH. now apply (pool_step_inv s1).
Qed.

(** C21: A double spend is refused.  In a pool that satisfies the invariant, a transaction that was not part of a block and
    shares a key image with another stored transaction is never added: the call
    returns [false] with the verification marked as failed, and leaves the stored
    transactions, the index, the container and the weight as they were (only the
    double-spend marks of the metadata may change). *)
Theorem double_spend_refused now tx id bd w tvc relay rel (s : pool) (k : key_image) (id' : hash) :
  inv s -> relay <> block -> input_images (vin (prefix tx)) = Some (images_of id) ->
  id' ∈ dom (txpool_meta (tbl s)) -> id' <> id -> k ∈ images_of id' -> k ∈ images_of id ->
  exists s' tvc', add_tx now tx id bd w tvc relay rel s = (s', tvc', false) /\ m_verifivation_failed tvc' = true /\
    meta_upd (tbl s) (tbl s') /\ m_spent_output_key_images s' = m_spent_output_key_images s /\
    m_txs_by_fee_and_receive_time s' = m_txs_by_fee_and_receive_time s /\ m_txpool_weight s' = m_txpool_weight s.
Proof.
  intros Hinv Hr Hi Hid Hne Hk' Hk.
  assert (Hspent : have_tx_keyimges_as_spent tx id s = true).
  { destruct (have_tx_keyimges_as_spent tx id s) eqn:E; [reflexivity|].
    pose proof (have_tx_keyimg_false init images_of _ _ _ (proj1 Hinv) (have_inputs_as_spent_false _ _ _ _ Hi E k Hk)) as Hs.
    assert (Hin : id' ∈ spenders images_of (dom (txpool_meta (tbl s))) k) by now apply elem_of_filter.
    apply Hs, elem_of_singleton in Hin. contradiction. }
  assert (Hsame : meta_upd (tbl s) (tbl s)) by reflexivity.
  unfold add_tx. rewrite Hspent, bool_decide_false by assumption. cbn [negb andb].
  destruct (version (prefix tx) =? 0); [eauto 10|]. case_bool_decide; [eauto 10|].
  destruct (check_inputs_types_supported tx); cbn [negb]; [|eauto 10].
  destruct (tx_fee_v1_checked tx) as [fee|flags] eqn:Efee.
  2: { eexists _, _. split; [reflexivity|]. split; [|auto]. unfold tx_fee_v1_checked in Efee.
       repeat case_match; try discriminate; injection Efee as <-; reflexivity. }
  destruct (chain_check_fee w fee); cbn [negb]; [|eauto 10]. destruct (_ <? w); [eauto 10|].
  eexists _, _. split; [reflexivity|]. split; [reflexivity|]. now apply mark_double_spend_upd.
Qed.

(** What the pool accepts from the network does not conflict with it.  When
    [add_tx] accepts a transaction under a fresh id and it was not part of a
    block, then the pool contains afterwards no other transaction that
    spends one of its key images; the call reports the addition and clears the failure flag,
    and every transaction in the pool afterwards was there before or is the new one. *)
Theorem accepted_tx_conflict_free now tx id bd w tvc relay rel (s : pool) s' tvc' :
  chain_keeps_flags -> inv s -> tx_args init images_of tx id bd w -> txpool_meta (tbl s) !! id = None ->
  fits 64 (m_txpool_weight s + w) -> m_added_to_pool tvc = false -> relay <> block ->
  add_tx now tx id bd w tvc relay rel s = (s', tvc', true) ->
  m_verifivation_failed tvc' = false /\ m_added_to_pool tvc' = true /\
  dom (txpool_meta (tbl s')) ⊆ {[ id ]} ∪ dom (txpool_meta (tbl s)) /\
  forall id' k, id' ∈ dom (txpool_meta (tbl s')) -> k ∈ images_of id' -> k ∈ images_of id -> id' = id.
Proof.
  intros Hk Hinv Ha Hn Hf Hadd Hr E.
  destruct (add_tx_outcome init images_of now tx id bd w tvc relay rel s Hk Hinv Ha Hn Hf Hadd) as
    [(s1 & tvc1 & E1 & _)|(s1 & tvc1 & m & E1 & Hi & Et & Hfail & Hadded & Hw & _ & Hfree)]; rewrite E in E1; [discriminate|].
  injection E1 as -> ->.
  assert (Hsub : dom (txpool_meta (tbl (finish_add w s1))) ⊆ {[ id ]} ∪ dom (txpool_meta (tbl s))).
  { etransitivity; [apply (finish_add_dom init images_of w s1 Hi)|]. rewrite Et. cbn. rewrite dom_insert_L. reflexivity. }
  split_and!; auto. intros id' k Hid Hk1 Hk2. apply Hsub, elem_of_union in Hid as [->%elem_of_singleton|Hid]; [reflexivity|].
  exfalso. apply (not_elem_of_empty (C := gset hash) id'). rewrite <- (Hfree Hr k Hk2). now apply elem_of_filter.
Qed.

(** Pruning removes what pays least, and no more than needed.  In a pool that
    satisfies the invariant, [prune] splits the container in two: the front part is
    kept; of the back part, which pays less, exactly the transactions that came from a block
    are kept.  Afterwards the weight is within the limit, or only the
    first transaction and those from blocks are left; and before the last removal
    the pool was too heavy.  The invariant holds again. *)
Theorem prune_keeps_best (b : Z) (s : pool) (first : sorted_entry) (rest : list sorted_entry) :
  inv s -> m_txs_by_fee_and_receive_time s = first :: rest ->
  let bytes := if b =? 0 then m_txpool_max_weight s else b in
  inv (prune b s) /\ exists front back, rest = front ++ back /\
    m_txs_by_fee_and_receive_time (prune b s) = first :: front ++ List.filter (entry_from_block (tbl s)) back /\
    (m_txpool_weight (prune b s) <= bytes \/ front = []) /\
    (forall e, head (List.filter (fun e => negb (entry_from_block (tbl s) e)) back) = Some e ->
       bytes < m_txpool_weight (prune b s) + entry_weight (tbl s) e).
Proof.
  intros Hinv Hs bytes. destruct (prune_spec init images_of b s Hinv) as [Hp Hrest]. split; [exact Hp|].
  destruct (Hrest first rest Hs) as (front & back & E1 & E2 & E3 & [_ E4]). exists front, back. split_and!; auto.
  intros e He. apply E4. rewrite filter_reverse, last_reverse. exact He.
Qed.

(** C19: The block template.  In a pool that satisfies the invariant,
    [fill_block_template] returns without an exception and keeps the invariant (it only
    updates metadata); the chosen transactions are stored ones, in the
    order of the container; together they spend no key image twice and none that
    the chain has as spent; the reported weight is the sum of their weights and
    leaves room for the coinbase transaction under the size bound of the block; the
    reported fee is the sum of their fees (modulo 2^64, the type) and the expected
    reward is the block reward plus that fee.  The uninitialised metadata is
    never used. *)
Theorem fill_block_template_sound (s : pool) (height : Z) (garbage : txpool_tx_meta_t) :
  inv s -> fits 64 height -> fits 64 (chain_already_generated_coins height) ->
  exists s' st, fill_block_template init height garbage s = (s', Some (st, true)) /\ inv s' /\
    tx_hashes_out st `sublist_of` sorted_ids s /\
    NoDup (tx_hashes_out st ≫= images_of) /\
    Forall (fun id => exists tx, input_images (vin (prefix tx)) = Some (images_of id) /\
                                 chain_have_tx_keyimges_as_spent tx = false) (tx_hashes_out st) /\
    total_weight_out st = sum_of weight (tbl s) (tx_hashes_out st) /\
    total_weight_out st + CRYPTONOTE_COINBASE_BLOB_RESERVED_SIZE <= get_block_size_bound height /\
    fee_out st = wrap 64 (sum_of fee (tbl s) (tx_hashes_out st)) /\
    best_coinbase st = get_block_reward (chain_already_generated_coins height) ⊞ fee_out st.
Proof. apply fill_block_template_ok; assumption. Qed.

End Preservation.

(** ** Examples *)

Section Examples.
#[local] Existing Instance RollingDigest.rolling_sha3.
#[local] Instance zero_shift : UndefinedShift := fun _ => 0.

(** A chain of ten blocks that accepts everything. *)
#[local] Instance toy_chain : Chain := {|
  chain_check_fee _ _ := true;
  chain_check_ringct_outputs _ tvc := (true, tvc);
  chain_check_ringct_inputs tx _ _ tvc _ := (true, (tx, 3, le_bytes 32 3, tvc));
  chain_current_height := 10;
  chain_block_id_by_height h := le_bytes 32 (h + 1);
  chain_have_tx_keyimges_as_spent _ := false;
  chain_have_tx _ := false;
  chain_already_generated_coins _ := 0 |}.
#[local] Instance toy_chain_laws : ChainLaws.
Proof. intros tx h id tvc b. reflexivity. Qed.

Lemma toy_keeps_flags : chain_keeps_flags.
Proof. split; reflexivity. Qed.

Definition spend (image : key_image) : transaction :=
  {| prefix := {| version := 2; unlock_height := 0;
                  vin := [txin_from_key {| in_amount := 0; output_relative_offsets := [3]; output_key_image := image |}];
                  vout := vout (prefix example_ringct_tx); extra := [] |};
     ringct := ringct example_ringct_tx |}.
Definition spend_blob (image : key_image) : blob := match tx_to_blob (spend image) with Returns b => b | Throws => [] end.
Definition id_of (n : Z) : hash := le_bytes 32 n.

(** The transactions 1, 2 and 3 spend the images 101, 102 and 101. *)
Definition example_images (id : hash) : list key_image := if bool_decide (id = id_of 2) then [102] else [101].
Definition example_tx (n : Z) : transaction := spend (if n =? 2 then 102 else 101).
Definition example_tx_blob (n : Z) : blob := spend_blob (if n =? 2 then 102 else 101).

Definition example_init : rctData := ringct example_ringct_tx.

Definition example_add (n : Z) (relay : relay_method) (s : pool) : pool * tx_verification_context * bool :=
  add_tx (1000, 1000) (example_tx n) (id_of n) (example_tx_blob n) (Z.of_nat (length (example_tx_blob n))) fresh_tvc relay false s.

Definition example_add_at (time n : Z) (relay : relay_method) (s : pool) : pool * tx_verification_context * bool :=
  add_tx (time, time) (example_tx n) (id_of n) (example_tx_blob n) (Z.of_nat (length (example_tx_blob n))) fresh_tvc relay false s.

Definition example_pool : pool := (example_add 2 fluff (example_add 1 local (empty_pool 100000)).1.1).1.1.

Lemma example_args n : n ∈ [1; 2; 3] ->
  tx_args example_init example_images (example_tx n) (id_of n) (example_tx_blob n) (Z.of_nat (length (example_tx_blob n))).
Proof.
  intros Hn. repeat (apply elem_of_cons in Hn as [->|Hn]); [..|now apply elem_of_nil in Hn].
  all: split; [reflexivity| |apply NoDup_singleton|reflexivity].
  all: eexists; split; [vm_compute; reflexivity|reflexivity].
Qed.

Lemma example_pool_steps : rtc (pool_step example_init example_images true) (empty_pool 100000) example_pool.
Proof.
  apply rtc_l with (example_add 1 local (empty_pool 100000)).1.1; [|apply rtc_once]; (apply step_add; [apply example_args; set_solver|reflexivity|intros _]).
  all: split; vm_compute; (reflexivity || (split; congruence)).
Qed.

Definition readded_pool : pool := (example_add_at 2000 1 fluff (example_add 1 local (empty_pool 100000)).1.1).1.1.

Lemma readded_pool_steps : rtc (pool_step example_init example_images false) (empty_pool 100000) readded_pool.
Proof.
  apply rtc_l with (example_add 1 local (empty_pool 100000)).1.1; [|apply rtc_once]; (apply step_add; [apply example_args; set_solver|reflexivity|discriminate]).
Qed.

Lemma pool_invariant_witness :
  pool_inv example_init example_images example_pool /\ rows_ok example_init example_images (tbl readded_pool).
Proof.
  split.
  - exact (proj2 (pool_invariant example_init example_images 100000 example_pool) toy_keeps_flags example_pool_steps).
  - exact (proj1 (pool_invariant example_init example_images 100000 readded_pool) readded_pool_steps).
Defined.

Lemma example_inv : pool_inv example_init example_images example_pool.
Proof.
  eapply (add_tx_inv example_init example_images); [exact toy_keeps_flags| |apply example_args; set_solver|vm_compute; reflexivity|vm_compute; split; congruence|reflexivity].
  eapply (add_tx_inv example_init example_images); [exact toy_keeps_flags|apply empty_pool_inv|apply example_args; set_solver|vm_compute; reflexivity|vm_compute; split; congruence|reflexivity].
Qed.

Lemma double_spend_refused_witness :
  exists s' tvc', example_add 3 fluff example_pool = (s', tvc', false) /\ m_verifivation_failed tvc' = true /\
    meta_upd (tbl example_pool) (tbl s') /\
    m_spent_output_key_images s' = m_spent_output_key_images example_pool /\
    m_txs_by_fee_and_receive_time s' = m_txs_by_fee_and_receive_time example_pool /\
    m_txpool_weight s' = m_txpool_weight example_pool.
Proof.
  apply (double_spend_refused example_init example_images (1000, 1000) (example_tx 3) (id_of 3) _ _ fresh_tvc fluff false
    example_pool 101 (id_of 1)); [exact example_inv|discriminate|reflexivity|..].
  - apply elem_of_dom. vm_compute. eauto.
  - vm_compute. congruence.
  - vm_compute. left.
  - vm_compute. left.
Defined.

Lemma accepted_tx_conflict_free_witness :
  let r := example_add 2 fluff (example_add 1 local (empty_pool 100000)).1.1 in
  m_verifivation_failed r.1.2 = false /\ m_added_to_pool r.1.2 = true /\
  dom (txpool_meta (tbl r.1.1)) ⊆ {[ id_of 2 ]} ∪ dom (txpool_meta (tbl (example_add 1 local (empty_pool 100000)).1.1)) /\
  forall id' k, id' ∈ dom (txpool_meta (tbl r.1.1)) -> k ∈ example_images id' -> k ∈ example_images (id_of 2) -> id' = id_of 2.
Proof.
  intros r. apply (accepted_tx_conflict_free example_init example_images (1000, 1000) (example_tx 2) (id_of 2)
    (example_tx_blob 2) (Z.of_nat (length (example_tx_blob 2))) fresh_tvc fluff false (example_add 1 local (empty_pool 100000)).1.1).
  - exact toy_keeps_flags.
  - eapply (add_tx_inv example_init example_images);
      [exact toy_keeps_flags|apply empty_pool_inv|apply example_args; set_solver|vm_compute; reflexivity|vm_compute; split; congruence|reflexivity].
  - apply example_args. set_solver.
  - vm_compute. reflexivity.
  - vm_compute. split; congruence.
  - reflexivity.
  - discriminate.
  - unfold r, example_add. vm_compute. reflexivity.
Defined.

Lemma prune_keeps_best_witness :
  exists first rest, m_txs_by_fee_and_receive_time example_pool = first :: rest /\
    m_txs_by_fee_and_receive_time (prune 700 example_pool) = [first] /\
    pool_inv example_init example_images (prune 700 example_pool).
Proof.
  eexists _, _. split; [vm_compute; reflexivity|]. split; [vm_compute; reflexivity|].
  eapply (prune_keeps_best example_init example_images 700 example_pool); [exact example_inv|vm_compute; reflexivity].
Defined.

Definition zero_meta : txpool_tx_meta_t := fresh_meta 0 0 null_hash 0 0 0 false fluff false.

Lemma fill_block_template_sound_witness :
  exists s' st, fill_block_template example_init 10 zero_meta example_pool = (s', Some (st, true)) /\
    pool_inv example_init example_images s' /\ fee_out st = 14 /\ tx_hashes_out st = [id_of 2; id_of 1].
Proof.
  destruct (fill_block_template_sound example_init example_images example_pool 10 zero_meta example_inv) as (s' & st & E & Hs & _);
    [vm_compute; split; congruence|vm_compute; split; congruence|].
  exists s', st. split; [exact E|]. split; [exact Hs|].
  assert (Ev : exists st1, fill_block_template example_init 10 zero_meta example_pool = (s', Some (st1, true)) /\
     fee_out st1 = 14 /\ tx_hashes_out st1 = [id_of 2; id_of 1]) by (rewrite E; exists st; revert E; vm_compute; intros [= <- <-]; auto).
  destruct Ev as (st1 & E1 & ? & ?). rewrite E in E1. injection E1 as <-. auto.
Defined.

(** A transaction that the comments call filtered: one submitted with the method
    [local] is chosen for the template, since the condition of the first guard is a conjunction. *)
Example local_tx_in_template :
  get_relay_method <$> get_txpool_tx_meta (id_of 1) (tbl example_pool) = Some local /\
  exists s' st, fill_block_template example_init 10 zero_meta example_pool = (s', Some (st, true)) /\ id_of 1 ∈ tx_hashes_out st.
Proof.
  split; [vm_compute; reflexivity|]. destruct (fill_block_template example_init 10 zero_meta example_pool) as [s' [[st b]|]] eqn:E;
    revert E; vm_compute; [intros [= <- <- <-]|discriminate]. eexists _, _. split; [reflexivity|]. cbn. right. left.
Qed.

(** Adding the stored local transaction again, now from the network, is accepted:
    its weight is counted twice and the container has two entries for it. *)
Example readded_tx_counted_twice :
  let s1 := (example_add 1 local (empty_pool 100000)).1.1 in
  let r := add_tx (2000, 2000) (example_tx 1) (id_of 1) (example_tx_blob 1) (Z.of_nat (length (example_tx_blob 1))) fresh_tvc fluff false s1 in
  r.2 = true /\ size (txpool_meta (tbl r.1.1)) = 1%nat /\ length (sorted_ids r.1.1) = 2%nat /\
  m_txpool_weight r.1.1 = 2 * m_txpool_weight s1 /\ total_weight (txpool_meta (tbl r.1.1)) = m_txpool_weight s1.
Proof. vm_compute. auto. Qed.

(** When that transaction is then taken for a block, one of its two entries stays behind, and the pruning that meets it
    returns early: the rows it had removed are rolled back, their key images and entries are not.  The pool holds a
    transaction whose key image is not in the index, so that a double spend of it is not seen. *)
Example readded_tx_breaks_index :
  let s1 := (take_tx example_init (id_of 1) readded_pool).1 in
  let s2 := (example_add_at 3000 2 fluff (example_add_at 500 3 fluff s1).1.1).1.1 in
  let s3 := prune 1 s2 in
  e_id <$> m_txs_by_fee_and_receive_time s2 = [id_of 3; id_of 1; id_of 2] /\
  e_id <$> m_txs_by_fee_and_receive_time s3 = [id_of 3; id_of 1] /\
  bool_decide (is_Some (txpool_meta (tbl s3) !! id_of 2)) = true /\ bool_decide (is_Some (txpool_blob (tbl s3) !! id_of 2)) = true /\
  example_images (id_of 2) = [102] /\
  have_tx_keyimg_as_spent 102 (id_of 4) s2 = true /\ have_tx_keyimg_as_spent 102 (id_of 4) s3 = false.
Proof. vm_compute. auto 10. Qed.

(** Two conflicting transactions that came from blocks lose their mark when they
    are relayed; the pool then cannot be loaded any more. *)
Example relayed_conflict_breaks_init :
  let s := (example_add 3 block (example_add 1 block (empty_pool 100000)).1.1).1.1 in
  (fun r => match r with Returns (_, b) => b | Throws => false end) (init_pool 0 s) = true /\
  (fun r => match r with Returns (_, b) => b | Throws => true end) (init_pool 0 (set_relayed 2000 [id_of 1; id_of 3] fluff s)) = false.
Proof. vm_compute. auto. Qed.

(** [txCompare] puts each of two entries with equal rates and times before the other. *)
Example txCompare_not_asymmetric :
  let e n := {| e_rate := double_of 1; e_time := 5; e_id := id_of n |} in
  txCompare (e 1) (e 2) = true /\ txCompare (e 2) (e 1) = true.
Proof. vm_compute. auto. Qed.

End Examples.

End TxPoolSteps.
