(* ===== verification/ChainDb.v ===== *)
(** The block chain database: the tables of the LMDB back end
    ([src/src/daemon/database/instance/lmdb/lmdb.cpp]) and the operations of the
    interface on them ([src/src/daemon/database/interface/blockchain.cpp]).

    LMDB is a third-party store.  A table is the finite map of its rows; the tables
    whose keys are consecutive heights or output ids, and are only appended to and
    shortened at the end, are lists.  [MDB_APPEND] fails unless the
    key is beyond the last one.  An exception leaves a write transaction that the
    callers abort: [Throws] has no state. *)

From stdpp Require Import gmap sorting.
From S2P Require Import Prelude Hash Config Varint Serialization Primality Group ModelGroup Key RctOps VectorOps InnerProduct Bulletproof Clsag RctTypes TxTypes Consensus Coinbase FormatUtils PoolTable.

Module ChainDb.
Import Config Serialization.Archive RctOps RctTypes TxTypes Consensus Coinbase FormatUtils.

(** The member [prefix_and_ringct_basic_size] of a transaction object, 0 when it was
    not computed yet. *)
Class CachedSize := cached_size : transaction -> Z.

(** ** Rows *)

Record mdb_block_info := {
  bi_height : Z; bi_timestamp : Z; bi_coins : Z; bi_weight : Z; bi_diff_lo : Z; bi_diff_hi : Z;
  bi_hash : hash; bi_cum_rct : Z; bi_long_term_block_weight : Z }.

(** [tx_data_t] *)
Record tx_data_t := { tx_id : Z; td_unlock_height : Z; block_id : Z }.

(** [output_data_t]; rows of non-zero amounts are stored without the commitment. *)
Record output_data_t := { pubkey : public_key; od_unlock_height : Z; od_height : Z; commitment : option ec_point }.
Record outkey := { amount_index : Z; ok_output_id : Z; ok_data : output_data_t }.
Record outtx := { output_id : Z; ot_tx_hash : hash; local_index : Z }.

Record alt_block_data_t := {
  alt_height : Z; cumulative_weight : Z; cumulative_difficulty_low : Z; cumulative_difficulty_high : Z;
  already_generated_coins : Z }.

Record chain_db := {
  m_blocks : list blob;
  m_block_heights : gmap hash Z;
  m_block_info : list mdb_block_info;
  m_txs_pruned : gmap Z blob;
  m_txs_prunable : gmap Z blob;
  m_txs_prunable_hash : gmap Z hash;
  m_txs_prunable_tip : gmap Z Z;
  m_tx_indices : gmap hash tx_data_t;
  m_tx_outputs : gmap Z (list Z);
  m_output_txs : list outtx;
  m_output_amounts : gmap Z (list outkey);
  m_spent_keys : gset key_image;
  m_alt_blocks : gmap hash (alt_block_data_t * blob);
  m_hf_versions : gmap Z Z }.

(** The block tables, the transaction tables and the output tables change independently. *)
Definition with_block_tables bs hs bi (d : chain_db) : chain_db :=
  {| m_blocks := bs; m_block_heights := hs; m_block_info := bi; m_txs_pruned := m_txs_pruned d;
     m_txs_prunable := m_txs_prunable d; m_txs_prunable_hash := m_txs_prunable_hash d;
     m_txs_prunable_tip := m_txs_prunable_tip d; m_tx_indices := m_tx_indices d; m_tx_outputs := m_tx_outputs d;
     m_output_txs := m_output_txs d; m_output_amounts := m_output_amounts d; m_spent_keys := m_spent_keys d;
     m_alt_blocks := m_alt_blocks d; m_hf_versions := m_hf_versions d |}.
Definition with_tx_tables pr pa ph pt ix (d : chain_db) : chain_db :=
  {| m_blocks := m_blocks d; m_block_heights := m_block_heights d; m_block_info := m_block_info d; m_txs_pruned := pr;
     m_txs_prunable := pa; m_txs_prunable_hash := ph; m_txs_prunable_tip := pt; m_tx_indices := ix;
     m_tx_outputs := m_tx_outputs d; m_output_txs := m_output_txs d; m_output_amounts := m_output_amounts d;
     m_spent_keys := m_spent_keys d; m_alt_blocks := m_alt_blocks d; m_hf_versions := m_hf_versions d |}.
Definition with_output_tables ot oa (d : chain_db) : chain_db :=
  {| m_blocks := m_blocks d; m_block_heights := m_block_heights d; m_block_info := m_block_info d;
     m_txs_pruned := m_txs_pruned d; m_txs_prunable := m_txs_prunable d; m_txs_prunable_hash := m_txs_prunable_hash d;
     m_txs_prunable_tip := m_txs_prunable_tip d; m_tx_indices := m_tx_indices d; m_tx_outputs := m_tx_outputs d;
     m_output_txs := ot; m_output_amounts := oa; m_spent_keys := m_spent_keys d; m_alt_blocks := m_alt_blocks d;
     m_hf_versions := m_hf_versions d |}.
Definition with_tx_outputs to (d : chain_db) : chain_db :=
  {| m_blocks := m_blocks d; m_block_heights := m_block_heights d; m_block_info := m_block_info d;
     m_txs_pruned := m_txs_pruned d; m_txs_prunable := m_txs_prunable d; m_txs_prunable_hash := m_txs_prunable_hash d;
     m_txs_prunable_tip := m_txs_prunable_tip d; m_tx_indices := m_tx_indices d; m_tx_outputs := to;
     m_output_txs := m_output_txs d; m_output_amounts := m_output_amounts d; m_spent_keys := m_spent_keys d;
     m_alt_blocks := m_alt_blocks d; m_hf_versions := m_hf_versions d |}.
Definition with_spent_keys sk (d : chain_db) : chain_db :=
  {| m_blocks := m_blocks d; m_block_heights := m_block_heights d; m_block_info := m_block_info d;
     m_txs_pruned := m_txs_pruned d; m_txs_prunable := m_txs_prunable d; m_txs_prunable_hash := m_txs_prunable_hash d;
     m_txs_prunable_tip := m_txs_prunable_tip d; m_tx_indices := m_tx_indices d; m_tx_outputs := m_tx_outputs d;
     m_output_txs := m_output_txs d; m_output_amounts := m_output_amounts d; m_spent_keys := sk;
     m_alt_blocks := m_alt_blocks d; m_hf_versions := m_hf_versions d |}.
Definition with_alt_blocks ab (d : chain_db) : chain_db :=
  {| m_blocks := m_blocks d; m_block_heights := m_block_heights d; m_block_info := m_block_info d;
     m_txs_pruned := m_txs_pruned d; m_txs_prunable := m_txs_prunable d; m_txs_prunable_hash := m_txs_prunable_hash d;
     m_txs_prunable_tip := m_txs_prunable_tip d; m_tx_indices := m_tx_indices d; m_tx_outputs := m_tx_outputs d;
     m_output_txs := m_output_txs d; m_output_amounts := m_output_amounts d; m_spent_keys := m_spent_keys d;
     m_alt_blocks := ab; m_hf_versions := m_hf_versions d |}.
Definition with_hf_versions hf (d : chain_db) : chain_db :=
  {| m_blocks := m_blocks d; m_block_heights := m_block_heights d; m_block_info := m_block_info d;
     m_txs_pruned := m_txs_pruned d; m_txs_prunable := m_txs_prunable d; m_txs_prunable_hash := m_txs_prunable_hash d;
     m_txs_prunable_tip := m_txs_prunable_tip d; m_tx_indices := m_tx_indices d; m_tx_outputs := m_tx_outputs d;
     m_output_txs := m_output_txs d; m_output_amounts := m_output_amounts d; m_spent_keys := m_spent_keys d;
     m_alt_blocks := m_alt_blocks d; m_hf_versions := hf |}.

(** [MDB_APPEND] *)
Definition mdb_append {A} (k : Z) (v : A) (t : gmap Z A) : result (gmap Z A) :=
  _ ← throw_unless (forallb (fun x => x.1 <? k) (map_to_list t));
  Returns (<[k := v]> t).

(** ** Reading *)

Definition height (d : chain_db) : Z := Z.of_nat (length (m_blocks d)).

Definition num_outputs (d : chain_db) : Z := match last (m_output_txs d) with Some o => 1 + output_id o | None => 0 end.

Definition get_tx_count (d : chain_db) : Z := Z.of_nat (size (m_txs_pruned d)).

Definition block_exists (h : hash) (d : chain_db) : option Z := m_block_heights d !! h.

Definition get_block_height (h : hash) (d : chain_db) : result Z :=
  match m_block_heights d !! h with Some x => Returns x | None => Throws end.

(** [MDB_GET_BOTH] on [m_block_info] finds the row of a height. *)
Definition find_block_info (h : Z) (d : chain_db) : option mdb_block_info :=
  List.find (fun bi => bi_height bi =? h) (m_block_info d).

Definition block_info_of (h : Z) (d : chain_db) : result mdb_block_info :=
  match find_block_info h d with Some bi => Returns bi | None => Throws end.

Definition get_block_timestamp (h : Z) (d : chain_db) : result Z := bi_timestamp <$> block_info_of h d.
Definition get_block_weight (h : Z) (d : chain_db) : result Z := bi_weight <$> block_info_of h d.
Definition get_block_already_generated_coins (h : Z) (d : chain_db) : result Z := bi_coins <$> block_info_of h d.
Definition get_block_long_term_weight (h : Z) (d : chain_db) : result Z := bi_long_term_block_weight <$> block_info_of h d.
Definition get_block_hash_from_height (h : Z) (d : chain_db) : result hash := bi_hash <$> block_info_of h d.

(** [diff_t] has 128 bits. *)
Definition get_block_cumulative_difficulty (h : Z) (d : chain_db) : result Z :=
  (fun bi => Z.lor (wrap 128 (Z.shiftl (bi_diff_hi bi) 64)) (bi_diff_lo bi)) <$> block_info_of h d.

Definition get_block_difficulty (h : Z) (d : chain_db) : result Z :=
  diff1 ← get_block_cumulative_difficulty h d;
  diff2 ← (if h =? 0 then Returns 0 else get_block_cumulative_difficulty (h - 1) d);
  Returns (wrap 128 (diff1 - diff2)).

Definition get_top_block_timestamp (d : chain_db) : result Z :=
  if height d =? 0 then Returns 0 else get_block_timestamp (height d - 1) d.

(** The height is the out-parameter. *)
Definition top_block_hash (d : chain_db) : result (hash * Z) :=
  h ← (if height d =? 0 then Returns null_hash else get_block_hash_from_height (height d - 1) d);
  Returns (h, height d ⊟ 1).

Definition get_block_blob_from_height (h : Z) (d : chain_db) : result blob :=
  match (if 0 <=? h then m_blocks d !! Z.to_nat h else None) with Some b => Returns b | None => Throws end.

Definition get_block_blob (h : hash) (d : chain_db) : result blob :=
  x ← get_block_height h d; get_block_blob_from_height x d.

Definition get_hashes_range (h1 h2 : Z) (d : chain_db) : result (list hash) :=
  result_mapM (fun h => get_block_hash_from_height h d) (seqZ h1 (h2 - h1 + 1)).

Definition tx_exists (h : hash) (d : chain_db) : option Z := tx_id <$> m_tx_indices d !! h.

Definition get_tx_unlock_height (h : hash) (d : chain_db) : result Z :=
  match m_tx_indices d !! h with Some t => Returns (td_unlock_height t) | None => Throws end.

Definition get_tx_block_height (h : hash) (d : chain_db) : result Z :=
  match m_tx_indices d !! h with Some t => Returns (block_id t) | None => Throws end.

Definition get_tx_blob (h : hash) (d : chain_db) : option blob :=
  t ← m_tx_indices d !! h;
  b0 ← m_txs_pruned d !! tx_id t;
  b1 ← m_txs_prunable d !! tx_id t;
  Some (b0 ++ b1).

Definition get_num_outputs (amount : Z) (d : chain_db) : Z :=
  match m_output_amounts d !! amount with Some l => Z.of_nat (length l) | None => 0 end.

Definition find_output (amount index : Z) (d : chain_db) : option outkey :=
  l ← m_output_amounts d !! amount; List.find (fun o => amount_index o =? index) l.

Definition has_output_key_image (img : key_image) (d : chain_db) : bool := bool_decide (img ∈ m_spent_keys d).

Definition get_tx_amount_output_indices (id : Z) (d : chain_db) : option (list Z) := m_tx_outputs d !! id.

Definition get_output_tx_and_index_from_global (id : Z) (d : chain_db) : result (hash * Z) :=
  match List.find (fun o => output_id o =? id) (m_output_txs d) with
  | Some o => Returns (ot_tx_hash o, local_index o) | None => Throws end.

Definition get_output_tx_and_index (amount : Z) (offsets : list Z) (d : chain_db) : result (list (hash * Z)) :=
  ids ← result_mapM (fun i => match find_output amount i d with Some o => Returns (ok_output_id o) | None => Throws end) offsets;
  result_mapM (fun id => get_output_tx_and_index_from_global id d) ids.

Section Outputs.
Context `{Sodium} `{Sha3}.

(** The data of an output: rows of non-zero amounts get the commitment of the
    plain amount. *)
Definition output_data (amount : Z) (o : outkey) : output_data_t :=
  if amount =? 0 then ok_data o
  else {| pubkey := pubkey (ok_data o); od_unlock_height := od_unlock_height (ok_data o); od_height := od_height (ok_data o);
          commitment := Some (dummyCommit amount) |}.

(** [get_output_key] on a list of offsets of one amount. *)
Fixpoint get_output_keys (amount : Z) (offsets : list Z) (allow_partial : bool) (d : chain_db) : result (list output_data_t) :=
  match offsets with
  | [] => Returns []
  | i :: offsets' =>
    match find_output amount i d with
    | None => if allow_partial then Returns [] else Throws
    | Some o => l ← get_output_keys amount offsets' allow_partial d; Returns (output_data amount o :: l)
    end
  end.

End Outputs.

(** ** Alternative blocks *)

Definition add_alt_block (blkid : hash) (data : alt_block_data_t) (bd : blob) (d : chain_db) : chain_db :=
  with_alt_blocks (<[blkid := (data, bd)]> (m_alt_blocks d)) d.

Definition get_alt_block (blkid : hash) (d : chain_db) : option (alt_block_data_t * blob) := m_alt_blocks d !! blkid.

Definition remove_alt_block (blkid : hash) (d : chain_db) : result chain_db :=
  match m_alt_blocks d !! blkid with
  | None => Throws
  | Some _ => Returns (with_alt_blocks (delete blkid (m_alt_blocks d)) d)
  end.

Definition get_alt_block_count (d : chain_db) : Z := Z.of_nat (size (m_alt_blocks d)).

Definition drop_alt_blocks (d : chain_db) : chain_db := with_alt_blocks ∅ d.

Definition set_hard_fork_version (h version : Z) (d : chain_db) : chain_db :=
  with_hf_versions (<[h := version]> (m_hf_versions d)) d.

(** ** Key images *)

Definition add_spent_key (k : key_image) (d : chain_db) : result chain_db :=
  _ ← throw_if (bool_decide (k ∈ m_spent_keys d));
  Returns (with_spent_keys ({[ k ]} ∪ m_spent_keys d) d).

Definition remove_spent_key (k : key_image) (d : chain_db) : chain_db := with_spent_keys (m_spent_keys d ∖ {[ k ]}) d.

(** ** Outputs *)

Definition add_output (tx_hash : hash) (o : tx_out) (index unlock : Z) (commit : option ec_point) (d : chain_db)
    : result (chain_db * Z) :=
  let id := num_outputs d in
  _ ← throw_if ((amount o =? 0) && negb (bool_decide (is_Some commit)));
  let rows := default [] (m_output_amounts d !! amount o) in
  let n := Z.of_nat (length rows) in
  let row := {| amount_index := n; ok_output_id := id;
                ok_data := {| pubkey := match target o with txout_to_key k => k end; od_unlock_height := unlock;
                              od_height := height d; commitment := if amount o =? 0 then commit else None |} |} in
  _ ← throw_unless (match last rows with Some r => amount_index r <? n | None => true end);
  Returns (with_output_tables (m_output_txs d ++ [ {| output_id := id; ot_tx_hash := tx_hash; local_index := index |} ])
             (<[amount o := rows ++ [row]]> (m_output_amounts d)) d, n).

Definition add_tx_amount_output_indices (id : Z) (indices : list Z) (d : chain_db) : result chain_db :=
  t ← mdb_append id indices (m_tx_outputs d); Returns (with_tx_outputs t d).

(** LMDB drops a key with its last value. *)
Definition delete_output_row (amt index : Z) (t : gmap Z (list outkey)) : gmap Z (list outkey) :=
  match List.filter (fun o => negb (amount_index o =? index)) (default [] (t !! amt)) with
  | [] => delete amt t
  | l => <[amt := l]> t
  end.

Definition remove_output (amt index : Z) (d : chain_db) : result chain_db :=
  match find_output amt index d with
  | None => Throws
  | Some row =>
    _ ← throw_unless (existsb (fun o => output_id o =? ok_output_id row) (m_output_txs d));
    Returns (with_output_tables (List.filter (fun o => negb (output_id o =? ok_output_id row)) (m_output_txs d))
               (delete_output_row amt index (m_output_amounts d)) d)
  end.

Definition is_gen (x : txin_v) : bool := match x with txin_gen _ => true | _ => false end.

(** From the last output to the first; the index of a missing entry is out of
    the vector's range. *)
Fixpoint remove_outputs_from (i : nat) (pseudo : bool) (outs : list tx_out) (indices : list Z) (d : chain_db) : result chain_db :=
  match i with
  | O => Returns d
  | S i' =>
    match outs !! i', indices !! i' with
    | Some o, Some ix =>
      d' ← remove_output (if pseudo then 0 else amount o) ix d;
      remove_outputs_from i' pseudo outs indices d'
    | _, _ => Throws
    end
  end.

Definition remove_tx_outputs (id : Z) (tx : transaction) (d : chain_db) : result chain_db :=
  let indices := default [] (get_tx_amount_output_indices id d) in
  let outs := vout (prefix tx) in
  _ ← throw_if (match indices with [] => true | _ => false end && match outs with [] => false | _ => true end);
  let is_pseudo_rct := (2 <=? version (prefix tx)) && match vin (prefix tx) with [x] => is_gen x | _ => false end in
  remove_outputs_from (length outs) is_pseudo_rct outs indices d.

(** ** Transactions *)

Section Transactions.
Context `{Sodium} `{Sha3} `{UndefinedShift} `{CachedSize} (init : rctData).

Definition pruned_size (tx : transaction) : result Z :=
  if cached_size tx =? 0 then
    match save (serialize_base (ringct tx)) tx with Some b => Returns (wrap 32 (Z.of_nat (length b))) | None => Throws end
  else Returns (cached_size tx).

Definition add_transaction_data (tx : transaction) (bd : blob) (tx_hash : hash) (d : chain_db) : result (chain_db * Z) :=
  let id := get_tx_count d in
  _ ← throw_if (bool_decide (is_Some (m_tx_indices d !! tx_hash)));
  let ti := {| tx_id := id; td_unlock_height := unlock_height (prefix tx); block_id := height d |} in
  n ← pruned_size tx;
  _ ← throw_if (Z.of_nat (length bd) <? n);
  pr ← mdb_append id (take (Z.to_nat n) bd) (m_txs_pruned d);
  pa ← mdb_append id (drop (Z.to_nat n) bd) (m_txs_prunable d);
  ph ← (if 1 <? version (prefix tx) then mdb_append id null_hash (m_txs_prunable_hash d) else Returns (m_txs_prunable_hash d));
  Returns (with_tx_tables pr pa ph (m_txs_prunable_tip d) (<[tx_hash := ti]> (m_tx_indices d)) d, id).

Definition remove_transaction_data (tx_hash : hash) (tx : transaction) (d : chain_db) : result chain_db :=
  match m_tx_indices d !! tx_hash with
  | None => Throws
  | Some ti =>
    let id := tx_id ti in
    _ ← throw_unless (bool_decide (is_Some (m_txs_pruned d !! id)));
    _ ← throw_if ((1 <? version (prefix tx)) && negb (bool_decide (is_Some (m_txs_prunable_hash d !! id))));
    let d := with_tx_tables (delete id (m_txs_pruned d)) (delete id (m_txs_prunable d))
               (if 1 <? version (prefix tx) then delete id (m_txs_prunable_hash d) else m_txs_prunable_hash d)
               (delete id (m_txs_prunable_tip d)) (m_tx_indices d) d in
    d ← remove_tx_outputs id tx d;
    let d := with_tx_outputs (delete id (m_tx_outputs d)) d in
    Returns (with_tx_tables (m_txs_pruned d) (m_txs_prunable d) (m_txs_prunable_hash d) (m_txs_prunable_tip d)
               (delete tx_hash (m_tx_indices d)) d)
  end.

(** The inputs of [add_transaction]; every input of the variant is one of the two
    types. *)
Fixpoint add_inputs (ins : list txin_v) (d : chain_db) : result chain_db :=
  match ins with
  | [] => Returns d
  | txin_from_key x :: ins' => d' ← add_spent_key (output_key_image x) d; add_inputs ins' d'
  | txin_gen _ :: ins' => add_inputs ins' d
  end.

(** The output as it is stored: amount and commitment. *)
Definition stored_output (tx : transaction) (i : nat) (o : tx_out) : result (tx_out * option ec_point) :=
  let miner_tx := existsb is_gen (vin (prefix tx)) in
  if miner_tx && (version (prefix tx) =? 2) then
    Returns ({| amount := 0; target := target o |}, Some (dummyCommit (amount o)))
  else if miner_tx && (version (prefix tx) =? 1) then Returns (o, None)
  else match output_commits (basic (ringct tx)) !! i with Some c => Returns (o, Some c) | None => Throws end.

Fixpoint add_outputs (tx : transaction) (tx_hash : hash) (i : nat) (outs : list tx_out) (d : chain_db)
    : result (chain_db * list Z) :=
  match outs with
  | [] => Returns (d, [])
  | o :: outs' =>
    s ← stored_output tx i o;
    r ← add_output tx_hash s.1 (Z.of_nat i) (unlock_height (prefix tx)) s.2 d;
    r' ← add_outputs tx tx_hash (S i) outs' r.1;
    Returns (r'.1, r.2 :: r'.2)
  end.

Definition add_transaction (tx : transaction) (bd : blob) (tx_hash : hash) (d : chain_db) : result chain_db :=
  d ← add_inputs (vin (prefix tx)) d;
  r ← add_transaction_data tx bd tx_hash d;
  r' ← add_outputs tx tx_hash 0 (vout (prefix tx)) r.1;
  add_tx_amount_output_indices r.2 r'.2 r'.1.

Definition get_tx (h : hash) (d : chain_db) : result (option transaction) :=
  match get_tx_blob h d with
  | None => Returns None
  | Some bd => match maybe_tx_from_blob init bd with Some tx => Returns (Some tx) | None => Throws end
  end.

Definition get_tx_or_throw (h : hash) (d : chain_db) : result transaction :=
  t ← get_tx h d; match t with Some tx => Returns tx | None => Throws end.

Definition remove_inputs (ins : list txin_v) (d : chain_db) : chain_db :=
  foldl (fun d i => match i with txin_from_key x => remove_spent_key (output_key_image x) d | _ => d end) d ins.

Definition remove_transaction (tx_hash : hash) (d : chain_db) : result chain_db :=
  tx ← get_tx_or_throw tx_hash d;
  remove_transaction_data tx_hash tx (remove_inputs (vin (prefix tx)) d).

(** ** Blocks *)

Definition get_block_from_height (h : Z) (d : chain_db) : result block :=
  bd ← get_block_blob_from_height h d;
  match maybe_block_from_blob init bd with Some b => Returns b | None => Throws end.

Definition get_block (h : hash) (d : chain_db) : result block :=
  bd ← get_block_blob h d;
  match maybe_block_from_blob init bd with Some b => Returns b | None => Throws end.

Definition get_top_block (d : chain_db) : result (option block) :=
  if height d =? 0 then Returns None else b ← get_block_from_height (height d - 1) d; Returns (Some b).

(** [BlockchainLMDB::add_block] *)
Definition add_block_data (blk : block) (block_weight long_term_block_weight cumulative_difficulty coins_generated
    num_rct_outs : Z) (blk_hash : hash) (d : chain_db) : result chain_db :=
  let h := height d in
  _ ← throw_if (bool_decide (is_Some (m_block_heights d !! blk_hash)));
  _ ← (if 0 <? h then
         match m_block_heights d !! prev_id (header blk) with
         | None => Throws
         | Some prev => throw_unless (prev =? h - 1)
         end
       else Returns tt);
  bd ← block_to_blob blk;
  cum ← (if (0 <? h) && (4 <=? major_version (header blk)) then
           bi ← block_info_of (h - 1) d; Returns (num_rct_outs ⊞ bi_cum_rct bi)
         else Returns num_rct_outs);
  let bi := {| bi_height := h; bi_timestamp := timestamp (header blk); bi_coins := coins_generated; bi_weight := block_weight;
               bi_diff_lo := Z.land cumulative_difficulty u64_max;
               bi_diff_hi := Z.land (Z.shiftr cumulative_difficulty 64) u64_max;
               bi_hash := blk_hash; bi_cum_rct := cum; bi_long_term_block_weight := long_term_block_weight |} in
  Returns (with_block_tables (m_blocks d ++ [bd]) (<[blk_hash := h]> (m_block_heights d)) (m_block_info d ++ [bi]) d).

(** The cursor of [m_blocks] is where [get_top_block] left it, at the last row. *)
Definition remove_block (d : chain_db) : result chain_db :=
  _ ← throw_if (height d =? 0);
  bi ← block_info_of (height d - 1) d;
  _ ← throw_unless (bool_decide (is_Some (m_block_heights d !! bi_hash bi)));
  Returns (with_block_tables (removelast (m_blocks d)) (delete (bi_hash bi) (m_block_heights d))
             (List.filter (fun x => negb (bi_height x =? height d - 1)) (m_block_info d)) d).

(** The transactions of a block with their hashes. *)
Fixpoint add_transactions (txs : list (transaction * blob)) (hashes : list hash) (d : chain_db) : result chain_db :=
  match txs, hashes with
  | (tx, bd) :: txs', h :: hashes' => d' ← add_transaction tx bd h d; add_transactions txs' hashes' d'
  | _, _ => Returns d
  end.

Definition num_rct_outs (blk : block) (txs : list (transaction * blob)) : Z :=
  foldl (fun n x => foldl (fun n o => if amount o =? 0 then n ⊞ 1 else n) n (vout (prefix x.1)))
    (if version (prefix (miner_tx blk)) =? 2 then Z.of_nat (length (vout (prefix (miner_tx blk)))) else 0) txs.

Definition constant_hf_version : Z := 17.

(** [BlockchainDB::add_block]; the returned height is the one before. *)
Definition add_block (blk : block) (block_weight long_term_block_weight cumulative_difficulty coins_generated : Z)
    (txs : list (transaction * blob)) (d : chain_db) : result (chain_db * Z) :=
  _ ← throw_unless (length (tx_hashes blk) =? length txs)%nat;
  blk_hash ← get_block_hash blk (cached_size (miner_tx blk));
  let prev_height := height d in
  miner_bd ← tx_to_blob (miner_tx blk);
  miner_hash ← get_transaction_hash (miner_tx blk) (cached_size (miner_tx blk));
  d ← add_transaction (miner_tx blk) miner_bd miner_hash d;
  d ← add_transactions txs (tx_hashes blk) d;
  d ← add_block_data blk block_weight long_term_block_weight cumulative_difficulty coins_generated (num_rct_outs blk txs) blk_hash d;
  Returns (set_hard_fork_version prev_height constant_hf_version d, prev_height).

Fixpoint pop_transactions (hashes : list hash) (d : chain_db) : result (chain_db * list transaction) :=
  match hashes with
  | [] => Returns (d, [])
  | h :: hashes' =>
    t ← get_tx h d;
    match t with
    | None => Throws
    | Some tx => d ← remove_transaction h d; r ← pop_transactions hashes' d; Returns (r.1, tx :: r.2)
    end
  end.

(** [BlockchainDB::pop_block]; without a block, [remove_block] throws. *)
Definition pop_block (d : chain_db) : result (chain_db * block * list transaction) :=
  top ← get_top_block d;
  d ← remove_block d;
  match top with
  | None => Throws
  | Some blk =>
    r ← pop_transactions (reverse (tx_hashes blk)) d;
    h ← get_transaction_hash (miner_tx blk) (cached_size (miner_tx blk));
    d ← remove_transaction h r.1;
    Returns (d, blk, r.2)
  end.

End Transactions.

End ChainDb.
