(* ===== verification/ChainDbInv.v ===== *)
(** Properties of the block chain database: removing the top block undoes adding it,
    table by table; the invariant of the tables; key images are spent once. *)

From stdpp Require Import gmap sorting.
From S2P Require Import Prelude Hash Config Varint Serialization Primality Group ModelGroup Key RctOps VectorOps InnerProduct Bulletproof Clsag RctTypes TxTypes Consensus Coinbase FormatUtils PoolTable ChainDb.

Module ChainDbInv.
Import Config Serialization.Archive RctOps RctTypes TxTypes Consensus Coinbase FormatUtils ChainDb.

(** ** Lists whose elements carry their index *)

Definition indexed {A} (f : A -> Z) (l : list A) : Prop := forall i x, l !! i = Some x -> f x = Z.of_nat i.

Lemma indexed_nil {A} (f : A -> Z) : indexed f [].
Proof. intros i x E. now rewrite lookup_nil in E. Qed.

Lemma indexed_snoc {A} (f : A -> Z) l x : indexed f l -> f x = Z.of_nat (length l) -> indexed f (l ++ [x]).
Proof.
  intros Hl Hx i y E. apply lookup_app_Some in E as [E|[Hle E]]; [now apply Hl|].
  apply list_lookup_singleton_Some in E as [Hi <-]. rewrite Hx. lia.
Qed.

Lemma indexed_lt {A} (f : A -> Z) l x : indexed f l -> x ∈ l -> 0 <= f x < Z.of_nat (length l).
Proof. intros Hl [i Hi]%list_elem_of_lookup. rewrite (Hl i x Hi). apply lookup_lt_Some in Hi. lia. Qed.

Lemma indexed_filter {A} (f : A -> Z) l x n :
  indexed f l -> f x = n -> n = Z.of_nat (length l) -> List.filter (fun y => negb (f y =? n)) (l ++ [x]) = l.
Proof.
  intros Hl Hx Hn. rewrite List.filter_app. cbn. rewrite Hx, Z.eqb_refl. cbn. rewrite app_nil_r.
  assert (H : forall y, y ∈ l -> f y < n) by (intros y Hy; apply (indexed_lt f) in Hy; [lia|assumption]). clear Hl Hx Hn x.
  induction l as [|y l IH]; [reflexivity|]. cbn. rewrite IH by (intros; apply H; now apply list_elem_of_further).
  specialize (H y (list_elem_of_here _ _)). now rewrite (proj2 (Z.eqb_neq (f y) n)) by lia.
Qed.

Lemma indexed_find {A} (f : A -> Z) l x n :
  indexed f l -> f x = n -> n = Z.of_nat (length l) -> List.find (fun y => f y =? n) (l ++ [x]) = Some x.
Proof.
  intros Hl Hx Hn. assert (H : forall y, y ∈ l -> f y < n) by (intros y Hy; apply (indexed_lt f) in Hy; [lia|assumption]). clear Hl Hn.
  induction l as [|y l IH]; cbn; [now rewrite Hx, Z.eqb_refl|].
  rewrite (proj2 (Z.eqb_neq (f y) n)) by (specialize (H y (list_elem_of_here _ _)); lia).
  apply IH. intros; apply H; now apply list_elem_of_further.
Qed.

Lemma indexed_find_at {A} (f : A -> Z) l i x :
  indexed f l -> l !! i = Some x -> List.find (fun y => f y =? Z.of_nat i) l = Some x.
Proof.
  intros Hl Hi. destruct (List.find (fun y => f y =? Z.of_nat i) l) as [y|] eqn:E.
  - apply List.find_some in E as [Hin Hy]. apply list_elem_of_In, list_elem_of_lookup in Hin as [j Hj].
    pose proof (Hl _ _ Hj). assert (j = i) as -> by lia. congruence.
  - assert (Hx : x ∈ l) by (apply list_elem_of_lookup; eauto). apply list_elem_of_In in Hx.
    pose proof (List.find_none _ _ E x Hx) as Hf. cbn in Hf. rewrite (Hl i x Hi), Z.eqb_refl in Hf. discriminate.
Qed.

(** ** The invariant of the tables *)

Record db_ok (d : chain_db) : Prop := {
  ok_amounts a l : m_output_amounts d !! a = Some l -> l <> [] /\ indexed amount_index l;
  ok_outs : indexed output_id (m_output_txs d);
  ok_tip : m_txs_prunable_tip d = ∅;
  ok_info : indexed bi_height (m_block_info d);
  ok_heights : length (m_block_info d) = length (m_blocks d) }.

Lemma db_ok_spent sk d : db_ok d -> db_ok (with_spent_keys sk d).
Proof. intros [? ? ? ? ?]. now split. Qed.

Lemma chain_db_eq d1 d2 :
  m_blocks d1 = m_blocks d2 -> m_block_heights d1 = m_block_heights d2 -> m_block_info d1 = m_block_info d2 ->
  m_txs_pruned d1 = m_txs_pruned d2 -> m_txs_prunable d1 = m_txs_prunable d2 ->
  m_txs_prunable_hash d1 = m_txs_prunable_hash d2 -> m_txs_prunable_tip d1 = m_txs_prunable_tip d2 ->
  m_tx_indices d1 = m_tx_indices d2 -> m_tx_outputs d1 = m_tx_outputs d2 -> m_output_txs d1 = m_output_txs d2 ->
  m_output_amounts d1 = m_output_amounts d2 -> m_spent_keys d1 = m_spent_keys d2 ->
  m_alt_blocks d1 = m_alt_blocks d2 -> m_hf_versions d1 = m_hf_versions d2 -> d1 = d2.
Proof. destruct d1, d2; cbn; intros; subst; reflexivity. Qed.

Lemma mdb_append_inv {A} k (v : A) t t' : mdb_append k v t = Returns t' -> t !! k = None /\ t' = <[k := v]> t.
Proof.
  unfold mdb_append. intros E. apply throw_unless_inv in E as [Hf E]. injection E as <-. split; [|reflexivity].
  destruct (t !! k) as [x|] eqn:Ek; [|reflexivity]. rewrite forallb_forall in Hf.
  specialize (Hf (k, x)). cbn in Hf. rewrite Z.ltb_irrefl in Hf. discriminate Hf. now apply list_elem_of_In, elem_of_map_to_list.
Qed.

(** ** Key images *)

Definition images (ins : list txin_v) : list key_image :=
  omap (fun i => match i with txin_from_key x => Some (output_key_image x) | _ => None end) ins.

Lemma add_inputs_spec ins : forall d d', add_inputs ins d = Returns d' ->
  NoDup (images ins) /\ (forall k, k ∈ images ins -> k ∉ m_spent_keys d) /\
  d' = with_spent_keys (list_to_set (images ins) ∪ m_spent_keys d) d.
Proof.
  induction ins as [|[h|x] ins IH]; intros d d' E; cbn in E.
  - injection E as <-. cbn. split_and!; [constructor|set_solver|]. apply chain_db_eq; cbn; try reflexivity. set_solver.
  - exact (IH d d' E).
  - apply result_bind_inv in E as (d1 & E1 & E). unfold add_spent_key, throw_if in E1. apply throw_unless_inv in E1 as [Hn E1].
    injection E1 as <-. destruct (IH _ _ E) as (Hd & Hs & ->). cbn in Hs |- *. rewrite negb_true_iff, bool_decide_eq_false in Hn.
    split_and!.
    + constructor; [|assumption]. intros Hin. apply (Hs _ Hin). set_solver.
    + intros k [->|Hin]%elem_of_cons; [assumption|]. intros Hk. apply (Hs _ Hin). set_solver.
    + apply chain_db_eq; cbn; try reflexivity. set_solver.
Qed.

Lemma remove_inputs_spec ins : forall d, remove_inputs ins d = with_spent_keys (m_spent_keys d ∖ list_to_set (images ins)) d.
Proof.
  unfold remove_inputs. induction ins as [|[h|x] ins IH]; intros d; cbn.
  - apply chain_db_eq; cbn; try reflexivity. set_solver.
  - apply IH.
  - rewrite IH. apply chain_db_eq; cbn; try reflexivity. set_solver.
Qed.

(** ** Outputs *)

Lemma num_outputs_ok d : db_ok d -> num_outputs d = Z.of_nat (length (m_output_txs d)).
Proof.
  intros Hd. unfold num_outputs. destruct (last (m_output_txs d)) as [o|] eqn:E.
  - apply last_Some in E as [l E]. rewrite (ok_outs _ Hd (length l)); rewrite E; [|apply list_lookup_middle; reflexivity].
    rewrite length_app. cbn. lia.
  - apply last_None in E. now rewrite E.
Qed.

Lemma rows_ok d a : db_ok d -> indexed amount_index (default [] (m_output_amounts d !! a)).
Proof. intros Hd. destruct (m_output_amounts d !! a) as [l|] eqn:E; [exact (proj2 (ok_amounts _ Hd a l E))|apply indexed_nil]. Qed.

(** Adding an output and removing it again. *)
Lemma add_output_spec h o i u c d d' n :
  db_ok d -> add_output h o i u c d = Returns (d', n) ->
  db_ok d' /\ remove_output (amount o) n d' = Returns d /\
  exists ot oa, d' = with_output_tables ot oa d.
Proof.
  intros Hd E. unfold add_output, throw_if in E. apply throw_unless_inv in E as [_ E]. apply throw_unless_inv in E as [_ E].
  rewrite (num_outputs_ok d Hd) in E. set (rows := default [] (m_output_amounts d !! amount o)) in *. injection E as <- <-.
  set (row := {| amount_index := _; ok_output_id := _; ok_data := _ |}). set (ot := {| output_id := _; ot_tx_hash := h; local_index := i |}).
  pose proof (rows_ok d (amount o) Hd) as Hr. fold rows in Hr. split; [|split; [|eauto]].
  - destruct Hd as [Ha Ho Ht Hi Hh]. split; cbn; auto.
    + intros a l E. apply lookup_insert_Some in E as [[<- <-]|[_ E]]; [|eauto]. split; [now destruct rows|]. now apply indexed_snoc.
    + now apply indexed_snoc.
  - unfold remove_output, find_output. cbn [m_output_amounts with_output_tables]. rewrite lookup_insert_eq. cbn [mbind option_bind].
    rewrite (indexed_find amount_index rows row) by (auto; reflexivity). cbn [ok_output_id row m_output_txs with_output_tables].
    rewrite throw_unless_true by (rewrite existsb_app; cbn; rewrite Z.eqb_refl, orb_true_r; reflexivity). f_equal.
    apply chain_db_eq; cbn; try reflexivity.
    + apply (indexed_filter output_id _ ot); [apply (ok_outs _ Hd)|reflexivity|reflexivity].
    + unfold delete_output_row. rewrite lookup_insert_eq. change (default [] (Some (rows ++ [row]))) with (rows ++ [row]). rewrite (indexed_filter amount_index rows row) by (auto; reflexivity).
      destruct (m_output_amounts d !! amount o) as [l|] eqn:El; subst rows; cbn.
      * pose proof (ok_amounts _ Hd _ _ El) as [Hne _]. destruct l; [contradiction|]. rewrite insert_insert_eq. now apply insert_id.
      * rewrite delete_insert_eq. now apply delete_id.
Qed.

(** Inputs that are all spends, or the single input of a coinbase transaction (version 1 for the genesis block, 2
    for the others). *)
Definition tx_shape (tx : transaction) : Prop :=
  (exists h, vin (prefix tx) = [txin_gen h] /\ (version (prefix tx) = 1 \/ version (prefix tx) = 2)) \/
  forallb (fun i => negb (is_gen i)) (vin (prefix tx)) = true.

Definition pseudo_rct (tx : transaction) : bool :=
  (2 <=? version (prefix tx)) && match vin (prefix tx) with [x] => is_gen x | _ => false end.

Section Transactions.
Context `{Sodium} `{Sha3} `{UndefinedShift} `{CachedSize} (init : rctData).

Lemma no_gen ins : forallb (fun i => negb (is_gen i)) ins = true -> existsb is_gen ins = false.
Proof. induction ins as [|x ins IH]; [reflexivity|]. cbn. destruct (is_gen x); [discriminate|]. exact IH. Qed.

Lemma stored_output_amount tx i o o' c :
  tx_shape tx -> stored_output tx i o = Returns (o', c) -> amount o' = if pseudo_rct tx then 0 else amount o.
Proof.
  unfold stored_output, pseudo_rct. intros [(h & Hi & [Hv|Hv])|Hi] E.
  - rewrite Hi, Hv in *. cbn in E. injection E as <- _. reflexivity.
  - rewrite Hi, Hv in *. cbn in E. injection E as <- _. reflexivity.
  - rewrite (no_gen _ Hi) in E. cbn in E. destruct (_ !! i); [|discriminate]. injection E as <- _.
    destruct (vin (prefix tx)) as [|x [|]]; try now rewrite andb_false_r. cbn in Hi. rewrite andb_true_r in Hi.
    destruct (is_gen x); [discriminate|]. now rewrite andb_false_r.
Qed.

Lemma add_outputs_snoc tx h outs o : forall i d,
  add_outputs tx h i (outs ++ [o]) d =
  (r ← add_outputs tx h i outs d; s ← stored_output tx (i + length outs) o;
   r' ← add_output h s.1 (Z.of_nat (i + length outs)) (unlock_height (prefix tx)) s.2 r.1; Returns (r'.1, r.2 ++ [r'.2])).
Proof.
  induction outs as [|x outs IH]; intros i d; cbn [app add_outputs length].
  - cbn. rewrite Nat.add_0_r. destruct (stored_output tx i o) as [s|]; [|reflexivity]. cbn. now destruct (add_output _ _ _ _ _ _).
  - destruct (stored_output tx i x) as [s|]; [|reflexivity]. cbn. destruct (add_output _ _ _ _ _ _) as [r|]; [|reflexivity]. cbn.
    rewrite IH. replace (i + S (length outs))%nat with (S i + length outs)%nat by lia.
    destruct (add_outputs _ _ _ _ _) as [r1|]; [|reflexivity]. cbn. destruct (stored_output _ _ _) as [s1|]; [|reflexivity]. cbn.
    now destruct (add_output _ _ _ _ _ _).
Qed.

(** Only the entries below [n] matter. *)
Lemma remove_outputs_from_app n ps outs o ixs ix d :
  (n <= length outs)%nat -> (n <= length ixs)%nat ->
  remove_outputs_from n ps (outs ++ [o]) (ixs ++ [ix]) d = remove_outputs_from n ps outs ixs d.
Proof.
  revert d. induction n as [|n IH]; intros d Ho Hi; [reflexivity|]. cbn.
  rewrite !lookup_app_l by lia. destruct (outs !! n), (ixs !! n); try reflexivity.
  destruct (remove_output _ _ _); [|reflexivity]. cbn. apply IH; lia.
Qed.

(** Removing outputs reads and writes the output tables only. *)
Lemma remove_output_outputs a ix d1 d2 d3 :
  m_output_txs d1 = m_output_txs d2 -> m_output_amounts d1 = m_output_amounts d2 -> remove_output a ix d1 = Returns d3 ->
  remove_output a ix d2 = Returns (with_output_tables (m_output_txs d3) (m_output_amounts d3) d2).
Proof.
  unfold remove_output, find_output. intros E1 E2. rewrite E2, E1. destruct (_ ≫= _); [|discriminate].
  intros E. apply throw_unless_inv in E as [Hu E]. injection E as <-. rewrite throw_unless_true by assumption. reflexivity.
Qed.

Lemma remove_outputs_from_outputs n ps outs ixs : forall d1 d2 d3,
  m_output_txs d1 = m_output_txs d2 -> m_output_amounts d1 = m_output_amounts d2 ->
  remove_outputs_from n ps outs ixs d1 = Returns d3 ->
  remove_outputs_from n ps outs ixs d2 = Returns (with_output_tables (m_output_txs d3) (m_output_amounts d3) d2).
Proof.
  induction n as [|n IH]; intros d1 d2 d3 E1 E2 E; cbn in *.
  - injection E as <-. rewrite E1, E2. now destruct d2.
  - destruct (outs !! n) as [o|]; [|discriminate]. destruct (ixs !! n) as [ix|]; [|discriminate].
    apply result_bind_inv in E as (d1' & Er & E). rewrite (remove_output_outputs _ _ _ _ _ E1 E2 Er). cbn [mbind result_bind].
    rewrite (IH d1' (with_output_tables (m_output_txs d1') (m_output_amounts d1') d2) d3 eq_refl eq_refl E). reflexivity.
Qed.

Lemma add_outputs_spec tx h outs : tx_shape tx -> forall d d' ixs,
  db_ok d -> add_outputs tx h 0 outs d = Returns (d', ixs) ->
  db_ok d' /\ length ixs = length outs /\ (exists ot oa, d' = with_output_tables ot oa d) /\
  remove_outputs_from (length outs) (pseudo_rct tx) outs ixs d' = Returns d.
Proof.
  intros Hsh. induction outs as [|o outs IH] using rev_ind; intros d d' ixs Hd E.
  - cbn in E. injection E as <- <-. split_and!; auto. exists (m_output_txs d), (m_output_amounts d). now destruct d.
  - rewrite add_outputs_snoc in E. apply result_bind_inv in E as ([d1 ixs1] & E1 & E). apply result_bind_inv in E as ([o' c] & Es & E).
    apply result_bind_inv in E as ([d2 n] & E2 & E). injection E as <- <-.
    destruct (IH _ _ _ Hd E1) as (Hd1 & Hl & (ot & oa & ->) & Hr). cbn [fst snd] in *.
    destruct (add_output_spec _ _ _ _ _ _ _ _ Hd1 E2) as (Hd2 & Hr2 & ot' & oa' & ->). rewrite (stored_output_amount _ _ _ _ _ Hsh Es) in Hr2.
    split_and!; [assumption|rewrite !length_app, Hl; reflexivity|exists ot', oa'; reflexivity|].
    rewrite length_app, Nat.add_1_r. cbn [remove_outputs_from]. rewrite !list_lookup_middle by (symmetry; auto || reflexivity).
    rewrite Hr2. cbn. rewrite remove_outputs_from_app by lia. exact Hr.
Qed.

(** ** Transactions *)

Record tx_only (d d' : chain_db) : Prop := {
  to_blocks : m_blocks d' = m_blocks d; to_heights : m_block_heights d' = m_block_heights d;
  to_info : m_block_info d' = m_block_info d; to_alt : m_alt_blocks d' = m_alt_blocks d;
  to_hf : m_hf_versions d' = m_hf_versions d }.

Lemma add_transaction_data_inv tx bd h d d' id :
  add_transaction_data tx bd h d = Returns (d', id) ->
  exists n, m_tx_indices d !! h = None /\ m_txs_pruned d !! id = None /\ m_txs_prunable d !! id = None /\
    (1 < version (prefix tx) -> m_txs_prunable_hash d !! id = None) /\
    d' = with_tx_tables (<[id := take n bd]> (m_txs_pruned d)) (<[id := drop n bd]> (m_txs_prunable d))
           (if 1 <? version (prefix tx) then <[id := null_hash]> (m_txs_prunable_hash d) else m_txs_prunable_hash d)
           (m_txs_prunable_tip d)
           (<[h := {| tx_id := id; td_unlock_height := unlock_height (prefix tx); block_id := height d |}]> (m_tx_indices d)) d.
Proof.
  unfold add_transaction_data, throw_if. intros E. apply throw_unless_inv in E as [Hn E]. apply result_bind_inv in E as (n & _ & E).
  apply throw_unless_inv in E as [_ E]. apply result_bind_inv in E as (pr & Epr & E). apply result_bind_inv in E as (pa & Epa & E).
  apply result_bind_inv in E as (ph & Eph & E). injection E as <- <-. exists (Z.to_nat n).
  apply mdb_append_inv in Epr as [N1 ->]. apply mdb_append_inv in Epa as [N2 ->].
  rewrite negb_true_iff, bool_decide_eq_false in Hn. apply eq_None_not_Some in Hn.
  destruct (Z.ltb_spec 1 (version (prefix tx))).
  - apply mdb_append_inv in Eph as [N3 ->]. auto 8.
  - injection Eph as <-. split_and!; auto. lia.
Qed.

(** What [add_transaction] did. *)
Lemma add_transaction_spec tx bd h d d' :
  db_ok d -> tx_shape tx -> add_transaction tx bd h d = Returns d' ->
  db_ok d' /\ tx_only d d' /\ m_spent_keys d' = list_to_set (images (vin (prefix tx))) ∪ m_spent_keys d /\
  NoDup (images (vin (prefix tx))) /\ (forall k, k ∈ images (vin (prefix tx)) -> k ∉ m_spent_keys d) /\
  get_tx_blob h d' = Some bd /\
  remove_transaction_data h tx (remove_inputs (vin (prefix tx)) d') = Returns d.
Proof.
  intros Hd Hsh E. unfold add_transaction in E. apply result_bind_inv in E as (d1 & E1 & E). apply result_bind_inv in E as ([d2 id] & E2 & E).
  apply result_bind_inv in E as ([d3 ixs] & E3 & E). unfold add_tx_amount_output_indices in E.
  apply result_bind_inv in E as (to & Eto & E). injection E as <-. apply mdb_append_inv in Eto as [Nto ->]. cbn [fst snd] in *.
  destruct (add_inputs_spec _ _ _ E1) as (Hnd & Hfr & ->). clear E1.
  destruct (add_transaction_data_inv _ _ _ _ _ _ E2) as (n & N1 & N2 & N3 & N4 & ->). clear E2. cbn in N1, N2, N3, N4.
  set (d2 := with_tx_tables _ _ _ _ _ _) in *.
  assert (Hd2 : db_ok d2) by (destruct Hd; now split).
  destruct (add_outputs_spec tx h (vout (prefix tx)) Hsh _ _ _ Hd2 E3) as (Hd3 & Hl & (ot & oa & ->) & Hr). clear E3. cbn in Nto.
  split; [destruct Hd3; now split|]. split; [now split|]. split; [reflexivity|]. split; [assumption|]. split; [assumption|]. split.
  { unfold get_tx_blob. cbn. rewrite lookup_insert_eq. cbn. rewrite !lookup_insert_eq. cbn. now rewrite take_drop. }
  rewrite remove_inputs_spec. unfold remove_transaction_data. cbn [m_tx_indices with_spent_keys with_tx_outputs with_output_tables with_tx_tables].
  unfold d2 at 1. cbn [m_tx_indices with_tx_tables]. rewrite lookup_insert_eq. cbn [tx_id].
  unfold throw_if. rewrite throw_unless_true by (cbn; rewrite lookup_insert_eq; reflexivity).
  rewrite throw_unless_true by (cbn; destruct (1 <? _); [rewrite lookup_insert_eq|]; reflexivity).
  unfold remove_tx_outputs. fold (pseudo_rct tx). set (d4 := with_tx_tables _ _ _ _ _ (with_spent_keys _ _)).
  assert (Eix : default [] (get_tx_amount_output_indices id d4) = ixs) by (unfold get_tx_amount_output_indices; cbn; now rewrite lookup_insert_eq).
  rewrite Eix. unfold throw_if. rewrite throw_unless_true by (now destruct ixs, (vout (prefix tx))).
  assert (E4 : remove_outputs_from (length (vout (prefix tx))) (pseudo_rct tx) (vout (prefix tx)) ixs d4 =
    Returns (with_output_tables (m_output_txs d) (m_output_amounts d) d4)).
  { apply (remove_outputs_from_outputs _ _ _ _ (with_output_tables ot oa d2) d4 d2); [reflexivity|reflexivity|exact Hr]. }
  rewrite E4. cbn [mbind result_bind]. f_equal. apply chain_db_eq; cbn; try reflexivity.
  - rewrite delete_insert_eq. now apply delete_id.
  - rewrite delete_insert_eq. now apply delete_id.
  - destruct (Z.ltb_spec 1 (version (prefix tx))); [|reflexivity]. rewrite delete_insert_eq. apply delete_id. auto.
  - rewrite (ok_tip _ Hd). apply delete_empty.
  - rewrite delete_insert_eq. now apply delete_id.
  - rewrite delete_insert_eq. now apply delete_id.
  - set_solver.
Qed.

(** What is stored stays stored under its hash. *)
Lemma add_transaction_keeps tx bd h d d' h' b :
  db_ok d -> tx_shape tx -> add_transaction tx bd h d = Returns d' -> get_tx_blob h' d = Some b -> get_tx_blob h' d' = Some b.
Proof.
  intros Hd Hsh E Hb. unfold add_transaction in E. apply result_bind_inv in E as (d1 & E1 & E). apply result_bind_inv in E as ([d2 id] & E2 & E).
  apply result_bind_inv in E as ([d3 ixs] & E3 & E). unfold add_tx_amount_output_indices in E.
  apply result_bind_inv in E as (to & _ & E). injection E as <-. cbn [fst snd] in *.
  destruct (add_inputs_spec _ _ _ E1) as (_ & _ & ->). destruct (add_transaction_data_inv _ _ _ _ _ _ E2) as (n & N1 & N2 & N3 & _ & ->).
  cbn in N1, N2, N3. set (d2 := with_tx_tables _ _ _ _ _ _) in *. assert (Hd2 : db_ok d2) by (destruct Hd; now split).
  destruct (add_outputs_spec tx h (vout (prefix tx)) Hsh _ _ _ Hd2 E3) as (_ & _ & (ot & oa & ->) & _).
  unfold get_tx_blob in *. cbn. apply bind_Some in Hb as (ti & Hti & Hb). apply bind_Some in Hb as (b0 & Hb0 & Hb). apply bind_Some in Hb as (b1 & Hb1 & Hb).
  assert (id <> tx_id ti) by congruence. rewrite lookup_insert_ne by congruence. rewrite Hti. cbn.
  rewrite !lookup_insert_ne by assumption. rewrite Hb0. cbn. rewrite ?lookup_insert_ne by assumption. rewrite Hb1. exact Hb.
Qed.

(** ** The hard-fork table is not touched by removals *)

Lemma remove_outputs_from_frame n ps outs ixs d d' :
  remove_outputs_from n ps outs ixs d = Returns d' -> d' = with_output_tables (m_output_txs d') (m_output_amounts d') d.
Proof. intros E. pose proof (remove_outputs_from_outputs n ps outs ixs d d d' eq_refl eq_refl E). congruence. Qed.

Lemma remove_transaction_data_hf hf h tx d d' :
  remove_transaction_data h tx d = Returns d' ->
  remove_transaction_data h tx (with_hf_versions hf d) = Returns (with_hf_versions hf d').
Proof.
  unfold remove_transaction_data. cbn [m_tx_indices with_hf_versions]. destruct (m_tx_indices d !! h) as [ti|]; [|discriminate].
  unfold throw_if. intros E. apply throw_unless_inv in E as [C1 E]. apply throw_unless_inv in E as [C2 E].
  rewrite throw_unless_true by exact C1. rewrite throw_unless_true by exact C2.
  apply result_bind_inv in E as (d1 & E1 & E). injection E as <-. unfold remove_tx_outputs, throw_if in *.
  apply throw_unless_inv in E1 as [C3 E1]. rewrite throw_unless_true by exact C3.
  set (d0 := with_tx_tables _ _ _ _ _ d) in *. change (with_tx_tables _ _ _ _ _ (with_hf_versions hf d)) with (with_hf_versions hf d0).
  pose proof (remove_outputs_from_outputs _ _ _ _ d0 (with_hf_versions hf d0) d1 eq_refl eq_refl E1) as E2.
  pose proof (remove_outputs_from_frame _ _ _ _ _ _ E1) as F. 
  change (get_tx_amount_output_indices (tx_id ti) (with_hf_versions hf d0)) with (get_tx_amount_output_indices (tx_id ti) d0).
  rewrite E2. cbn [mbind result_bind]. rewrite F. reflexivity.
Qed.

(** Removing a transaction that was just added. *)
Lemma remove_added hf tx bd h d d' :
  db_ok d -> tx_shape tx -> maybe_tx_from_blob init bd = Some tx -> add_transaction tx bd h d = Returns d' ->
  get_tx init h (with_hf_versions hf d') = Returns (Some tx) /\
  remove_transaction init h (with_hf_versions hf d') = Returns (with_hf_versions hf d).
Proof.
  intros Hd Hsh Hp E. destruct (add_transaction_spec _ _ _ _ _ Hd Hsh E) as (_ & _ & _ & _ & _ & Hb & Hr).
  assert (Hg : get_tx init h (with_hf_versions hf d') = Returns (Some tx)).
  { unfold get_tx. change (get_tx_blob h (with_hf_versions hf d')) with (get_tx_blob h d'). now rewrite Hb, Hp. }
  split; [exact Hg|]. unfold remove_transaction, get_tx_or_throw. rewrite Hg. cbn [mbind result_bind].
  rewrite remove_inputs_spec in Hr |- *. apply (remove_transaction_data_hf hf) in Hr. exact Hr.
Qed.

(** ** Blocks *)

Definition tx_entry_ok (x : transaction * blob) : Prop := tx_shape x.1 /\ maybe_tx_from_blob init x.2 = Some x.1.

Lemma add_transactions_snoc txs x h hs : forall d, length txs = length hs ->
  add_transactions (txs ++ [x]) (hs ++ [h]) d = (d' ← add_transactions txs hs d; add_transaction x.1 x.2 h d').
Proof.
  revert hs. induction txs as [|[tx bd] txs IH]; intros [|h' hs] d Hl; try discriminate; cbn.
  - destruct x as [tx bd]. cbn. now destruct (add_transaction _ _ _ _).
  - destruct (add_transaction tx bd h' d) as [d1|]; [|reflexivity]. cbn. apply IH. now injection Hl.
Qed.

Lemma tx_only_trans d1 d2 d3 : tx_only d1 d2 -> tx_only d2 d3 -> tx_only d1 d3.
Proof. intros [????] [????]. split; congruence. Qed.

Definition block_images (txs : list (transaction * blob)) : list key_image := txs ≫= fun x => images (vin (prefix x.1)).

Lemma add_transactions_spec txs : forall hs d d',
  db_ok d -> Forall tx_entry_ok txs -> length txs = length hs -> add_transactions txs hs d = Returns d' ->
  db_ok d' /\ tx_only d d' /\ m_spent_keys d' = list_to_set (block_images txs) ∪ m_spent_keys d /\
  NoDup (block_images txs) /\ (forall k, k ∈ block_images txs -> k ∉ m_spent_keys d) /\
  (forall x, x ∈ zip hs txs.*2 -> get_tx_blob x.1 d' = Some x.2) /\
  (forall h b, get_tx_blob h d = Some b -> get_tx_blob h d' = Some b) /\
  forall hf, pop_transactions init (reverse hs) (with_hf_versions hf d') = Returns (with_hf_versions hf d, reverse txs.*1).
Proof.
  induction txs as [|x txs IH] using rev_ind; intros hs d d' Hd Hok Hl E.
  - destruct hs; [|discriminate]. cbn in E. injection E as <-. split_and!; auto; [now split| |constructor| |]; set_solver.
  - destruct hs as [|h hs _] using rev_ind; [rewrite length_app in Hl; cbn in Hl; lia|]. rewrite !length_app in Hl. cbn in Hl.
    rewrite add_transactions_snoc in E by lia. apply result_bind_inv in E as (d1 & E1 & E). apply Forall_app in Hok as [Hok Hx].
    apply Forall_singleton in Hx as [Hsh Hp].
    destruct (IH hs d d1 Hd Hok ltac:(lia) E1) as (Hd1 & T1 & S1 & N1 & F1 & G1 & K1 & P1).
    destruct (add_transaction_spec _ _ _ _ _ Hd1 Hsh E) as (Hd2 & T2 & S2 & N2 & F2 & G2 & _).
    pose proof (fun h b => add_transaction_keeps _ _ _ _ _ h b Hd1 Hsh E) as K2.
    unfold block_images in *. rewrite bind_app. cbn [mbind list_bind]. rewrite app_nil_r, !fmap_app, !reverse_app. cbn [reverse rev_append app fmap list_fmap].
    split_and!; auto.
    + now apply (tx_only_trans d d1).
    + rewrite S2, S1, list_to_set_app_L. set_solver.
    + apply NoDup_app. split_and!; auto. intros k Hk Hk'. apply (F2 k Hk'). rewrite S1. set_solver.
    + intros k [Hk|Hk]%elem_of_app; [auto|]. specialize (F2 k Hk). set_solver.
    + intros y Hy. rewrite zip_with_app in Hy by (rewrite length_fmap; lia). apply elem_of_app in Hy as [Hy|Hy].
      * apply K2. now apply G1.
      * apply list_elem_of_singleton in Hy as ->. exact G2.
    + intros hf. destruct (remove_added hf _ _ _ _ _ Hd1 Hsh Hp E) as [Hg Hr].
      cbn [pop_transactions]. rewrite Hg. cbn [mbind result_bind]. rewrite Hr. cbn [mbind result_bind]. now rewrite P1.
Qed.

Lemma parse_coinbase tx bd h :
  vin (prefix tx) = [txin_gen h] -> wf (serialize_transaction init) tx -> tx_to_blob tx = Returns bd -> maybe_tx_from_blob init bd = Some tx.
Proof.
  intros Hi Hw Hb. destruct (tx_blob init tx Hw) as (b & E & _ & Hp). rewrite Hb in E. injection E as <-.
  unfold maybe_tx_from_blob. rewrite Hp. cbn [mbind option_bind]. unfold expand_transaction, is_coinbase. rewrite Hi. cbn. now destruct (_ <? 2).
Qed.

(** The block tables: adding a row and removing it. *)
Lemma remove_block_added blk w lw cd cg n bh d d' :
  db_ok d -> add_block_data blk w lw cd cg n bh d = Returns d' ->
  (forall hf, remove_block (with_hf_versions hf d') = Returns (with_hf_versions hf d)) /\
  exists bd, block_to_blob blk = Returns bd /\ m_blocks d' = m_blocks d ++ [bd] /\ db_ok d' /\
    d' = with_block_tables (m_blocks d') (m_block_heights d') (m_block_info d') d.
Proof.
  intros Hd E. unfold add_block_data, throw_if in E. apply throw_unless_inv in E as [Hn E]. apply result_bind_inv in E as ([] & _ & E).
  apply result_bind_inv in E as (bd & Ebd & E). apply result_bind_inv in E as (cum & _ & E). injection E as <-.
  set (bi := {| bi_height := _; bi_timestamp := _ |}). rewrite negb_true_iff, bool_decide_eq_false in Hn. apply eq_None_not_Some in Hn.
  assert (Hh : height (with_block_tables (m_blocks d ++ [bd]) (<[bh:=height d]> (m_block_heights d)) (m_block_info d ++ [bi]) d) - 1 = height d).
  { unfold height. cbn. rewrite length_app. cbn. lia. }
  split.
  - intros hf. unfold remove_block, throw_if. change (height (with_hf_versions hf ?x)) with (height x). rewrite Hh.
    rewrite throw_unless_true by (apply negb_true_iff, Z.eqb_neq; unfold height in *; cbn; rewrite length_app; cbn; lia).
    unfold block_info_of, find_block_info. cbn [m_block_info with_hf_versions with_block_tables].
    assert (Hl : height d = Z.of_nat (length (m_block_info d))) by (unfold height; now rewrite (ok_heights _ Hd)).
    rewrite (indexed_find bi_height _ bi) by (exact (ok_info _ Hd) || reflexivity || exact Hl). cbn [mbind result_bind].
    rewrite throw_unless_true by (cbn; rewrite lookup_insert_eq; reflexivity). f_equal. apply chain_db_eq; cbn; try reflexivity.
    + apply List.removelast_last.
    + rewrite delete_insert_eq. now apply delete_id.
    + apply (indexed_filter bi_height _ bi); [exact (ok_info _ Hd)|reflexivity|exact Hl].
  - exists bd. split_and!; auto. destruct Hd as [Ha Ho Ht Hi Hlen]. split; cbn; auto.
    + apply indexed_snoc; [assumption|]. cbn. unfold height. now rewrite Hlen.
    + rewrite !length_app, Hlen. reflexivity.
Qed.

Definition block_ok (blk : block) : Prop :=
  wf (serialize_block init) blk /\ exists h, vin (prefix (miner_tx blk)) = [txin_gen h] /\
    (version (prefix (miner_tx blk)) = 1 \/ version (prefix (miner_tx blk)) = 2).

Lemma add_block_spec blk w lw cd cg txs d d' prev :
  db_ok d -> block_ok blk -> Forall tx_entry_ok txs -> add_block blk w lw cd cg txs d = Returns (d', prev) ->
  db_ok d' /\ prev = height d /\ height d' = height d + 1 /\
  m_spent_keys d' = list_to_set (block_images txs) ∪ m_spent_keys d /\
  NoDup (block_images txs) /\ (forall k, k ∈ block_images txs -> k ∉ m_spent_keys d) /\
  (forall x, x ∈ zip (tx_hashes blk) txs.*2 -> get_tx_blob x.1 d' = Some x.2) /\
  (forall h b, get_tx_blob h d = Some b -> get_tx_blob h d' = Some b) /\
  forall hf, pop_block init (with_hf_versions hf d') = Returns (with_hf_versions hf d, blk, reverse txs.*1).
Proof.
  intros Hd [Hw (g & Hi & Hv)] Hok E. unfold add_block in E. apply throw_unless_inv in E as [Hlen E]. apply Nat.eqb_eq in Hlen.
  apply result_bind_inv in E as (bh & Ebh & E). apply result_bind_inv in E as (mb & Emb & E). apply result_bind_inv in E as (mh & Emh & E).
  apply result_bind_inv in E as (d1 & E1 & E). apply result_bind_inv in E as (d2 & E2 & E). apply result_bind_inv in E as (d3 & E3 & E).
  injection E as <- <-.
  assert (Hsh : tx_shape (miner_tx blk)) by (left; eauto).
  assert (Hmp : maybe_tx_from_blob init mb = Some (miner_tx blk)) by (apply (parse_coinbase _ _ g Hi); [apply Hw|assumption]).
  destruct (add_transaction_spec _ _ _ _ _ Hd Hsh E1) as (Hd1 & T1 & S1 & _ & _ & _).
  destruct (add_transactions_spec _ _ _ _ Hd1 Hok (eq_sym Hlen) E2) as (Hd2 & T2 & S2 & N2 & F2 & G2 & K2 & P2).
  destruct (remove_block_added _ _ _ _ _ _ _ _ _ Hd2 E3) as (R3 & bd & Ebd & B3 & Hd3 & I3).
  pose proof (tx_only_trans _ _ _ T1 T2) as T. rewrite Hi in S1. cbn in S1. rewrite union_empty_l_L in S1.
  assert (Hhd : height d3 = height d + 1).
  { unfold height. rewrite B3, (to_blocks _ _ T), length_app. cbn. lia. }
  split; [destruct Hd3; now split|]. split; [reflexivity|]. split; [exact Hhd|].
  split; [cbn; rewrite I3; cbn; rewrite S2, S1; reflexivity|]. split; [assumption|]. rewrite S1 in F2. split; [exact F2|].
  assert (Hbl : forall h, get_tx_blob h (set_hard_fork_version (height d) constant_hf_version d3) = get_tx_blob h d2) by (intros h; rewrite I3; reflexivity).
  split; [intros x Hx; rewrite Hbl; auto|]. split; [intros h b Hb; rewrite Hbl; apply K2; now apply (add_transaction_keeps _ _ _ _ _ _ _ Hd Hsh E1)|].
  intros hf. change (with_hf_versions hf (set_hard_fork_version _ _ d3)) with (with_hf_versions hf d3).
  destruct (block_blob init blk Hw) as (l & El & _ & Hpb). rewrite El in Ebd. injection Ebd as ->.
  unfold pop_block. assert (Htop : get_top_block init (with_hf_versions hf d3) = Returns (Some blk)).
  { unfold get_top_block. change (height (with_hf_versions hf d3)) with (height d3). rewrite Hhd.
    rewrite (proj2 (Z.eqb_neq _ _)) by (unfold height; lia). unfold get_block_from_height, get_block_blob_from_height.
    rewrite (proj2 (Z.leb_le _ _)) by (unfold height; lia). cbn [m_blocks with_hf_versions]. rewrite B3, (to_blocks _ _ T).
    rewrite list_lookup_middle by (unfold height; lia). cbn [mbind result_bind]. now rewrite Hpb. }
  rewrite Htop. cbn [mbind result_bind]. rewrite (R3 hf). cbn [mbind result_bind]. rewrite (P2 hf). cbn [mbind result_bind fst snd]. rewrite Emh. cbn [mbind result_bind].
  destruct (remove_added hf _ _ _ _ _ Hd Hsh Hmp E1) as [_ Hr]. rewrite Hr. reflexivity.
Qed.

(** ** The database as a list of blocks *)

Record entry := { e_blk : block; e_weight : Z; e_long_term_weight : Z; e_difficulty : Z; e_coins : Z; e_txs : list (transaction * blob) }.

Definition entry_ok (e : entry) : Prop := block_ok (e_blk e) /\ Forall tx_entry_ok (e_txs e).

Definition add_entry (e : entry) : chain_db -> result (chain_db * Z) :=
  add_block (e_blk e) (e_weight e) (e_long_term_weight e) (e_difficulty e) (e_coins e) (e_txs e).

Definition empty_db : chain_db :=
  {| m_blocks := []; m_block_heights := ∅; m_block_info := []; m_txs_pruned := ∅; m_txs_prunable := ∅; m_txs_prunable_hash := ∅;
     m_txs_prunable_tip := ∅; m_tx_indices := ∅; m_tx_outputs := ∅; m_output_txs := []; m_output_amounts := ∅; m_spent_keys := ∅;
     m_alt_blocks := ∅; m_hf_versions := ∅ |}.

(** Sequences of additions and removals, with the list of blocks they leave. *)
Inductive db_run : list entry -> chain_db -> Prop :=
| run_empty : db_run [] empty_db
| run_add hist d e d' prev : db_run hist d -> entry_ok e -> add_entry e d = Returns (d', prev) -> db_run (hist ++ [e]) d'
| run_pop hist d d' blk txs : db_run hist d -> pop_block init d = Returns (d', blk, txs) -> db_run (removelast hist) d'.

(** Databases that only additions lead to, up to the hard-fork table. *)
Inductive built : list entry -> chain_db -> Prop :=
| built_empty hf : built [] (with_hf_versions hf empty_db)
| built_add hist d e d' prev hf :
    built hist d -> entry_ok e -> add_entry e d = Returns (d', prev) -> built (hist ++ [e]) (with_hf_versions hf d').

Definition entry_images (e : entry) : list key_image := block_images (e_txs e).

(** What the database answers about the list of blocks. *)
Record answers (hist : list entry) (d : chain_db) : Prop := {
  an_ok : db_ok d;
  an_height : height d = Z.of_nat (length hist);
  an_spent : m_spent_keys d = list_to_set (hist ≫= entry_images);
  an_once : NoDup (hist ≫= entry_images);
  an_txs e x : e ∈ hist -> x ∈ zip (tx_hashes (e_blk e)) (e_txs e).*2 -> get_tx_blob x.1 d = Some x.2 }.

Lemma built_hf hist d hf : built hist d -> built hist (with_hf_versions hf d).
Proof. intros Hb. destruct Hb as [|hist d e d' prev hf0 Hb He E]; [apply built_empty|]. exact (built_add _ _ _ _ _ hf Hb He E). Qed.

Lemma built_answers hist d : built hist d -> answers hist d.
Proof.
  induction 1 as [hf|hist d e d' prev hf Hb IH [He Ht] E].
  - split; cbn; [split; cbn; try apply indexed_nil; try reflexivity; intros a l E; now rewrite lookup_empty in E|reflexivity|reflexivity|constructor|set_solver].
  - destruct IH as [Hok Hh Hs Hn Hx].
    destruct (add_block_spec _ _ _ _ _ _ _ _ _ Hok He Ht E) as (Hok' & _ & Hh' & Hs' & Hn' & Hf & Hg & Hk & _).
    split.
    + destruct Hok'. now split.
    + change (height (with_hf_versions hf d')) with (height d'). rewrite Hh', Hh, length_app. cbn. lia.
    + cbn. rewrite Hs', Hs, bind_app, list_to_set_app_L. cbn. rewrite app_nil_r. unfold entry_images at 3. set_solver.
    + rewrite bind_app. cbn. rewrite app_nil_r. apply NoDup_app. split_and!; auto. intros k Hk1 Hk2. apply (Hf k Hk2). rewrite Hs. set_solver.
    + intros e' x [He'|He']%elem_of_app Hxx; change (get_tx_blob x.1 (with_hf_versions hf d')) with (get_tx_blob x.1 d').
      * apply Hk. eauto.
      * apply list_elem_of_singleton in He' as ->. now apply Hg.
Qed.

(** The last block of a built database comes off. *)
Lemma built_pop hist e d :
  built (hist ++ [e]) d -> exists d', pop_block init d = Returns (d', e_blk e, reverse (e_txs e).*1) /\ built hist d'.
Proof.
  intros Hb. inversion Hb as [hf Eh|hist0 d0 e0 d' prev hf Hb0 [He Ht] E Eh]; [now destruct hist|].
  apply app_inj_tail in Eh as [-> ->]. pose proof (built_answers _ _ Hb0) as [Hok _ _ _ _].
  destruct (add_block_spec _ _ _ _ _ _ _ _ _ Hok He Ht E) as (_ & _ & _ & _ & _ & _ & _ & _ & Hp).
  eexists. split; [apply Hp|]. now apply built_hf.
Qed.

(** ** The heights of outputs

    The rows of an amount are in the order of the blocks they came with. *)

Definition row_height (o : outkey) : Z := od_height (ok_data o).

Definition heights_upto (n : Z) (d : chain_db) : Prop :=
  forall a l, m_output_amounts d !! a = Some l ->
    StronglySorted Z.le (row_height <$> l) /\ Forall (fun o => 0 <= row_height o <= n) l.

Lemma heights_upto_same n d d' : m_output_amounts d' = m_output_amounts d -> heights_upto n d -> heights_upto n d'.
Proof. intros E Hd a l. rewrite E. apply Hd. Qed.

Lemma StronglySorted_snoc (l : list Z) x : StronglySorted Z.le l -> Forall (fun y => y <= x) l -> StronglySorted Z.le (l ++ [x]).
Proof.
  induction 1 as [|y l Hs IH Hy]; intros Hx; cbn.
  - constructor; constructor.
  - apply Forall_cons in Hx as [Hyx Hx]. constructor; [now apply IH|]. apply Forall_app. split; [assumption|now constructor].
Qed.

Lemma add_output_heights h o i u c d d' n :
  heights_upto (height d) d -> add_output h o i u c d = Returns (d', n) -> heights_upto (height d) d' /\ height d' = height d.
Proof.
  intros Hd E. unfold add_output, throw_if in E. apply throw_unless_inv in E as [_ E]. apply throw_unless_inv in E as [_ E].
  injection E as <- _. split; [|reflexivity]. intros a l E. cbn in E. apply lookup_insert_Some in E as [[<- <-]|[_ E]]; [|now apply (Hd a)].
  assert (Hr : let rows := default [] (m_output_amounts d !! amount o) in
    StronglySorted Z.le (row_height <$> rows) /\ Forall (fun o => 0 <= row_height o <= height d) rows).
  { destruct (m_output_amounts d !! amount o) as [l|] eqn:El; [exact (Hd _ _ El)|]. cbn. split; constructor. }
  destruct Hr as [Hs Hf]. split.
  - rewrite fmap_app. apply StronglySorted_snoc; [assumption|]. apply Forall_fmap. eapply Forall_impl; [exact Hf|]. cbn. intros; lia.
  - apply Forall_app. split; [assumption|]. constructor; [|constructor]. unfold row_height. cbn. unfold height. lia.
Qed.

Lemma add_outputs_heights tx h outs : forall i d d' ixs,
  heights_upto (height d) d -> add_outputs tx h i outs d = Returns (d', ixs) -> heights_upto (height d) d' /\ height d' = height d.
Proof.
  induction outs as [|o outs IH]; intros i d d' ixs Hd E; cbn in E.
  - injection E as <- _. auto.
  - apply result_bind_inv in E as ([o' c] & _ & E). apply result_bind_inv in E as ([d1 n] & E1 & E).
    apply result_bind_inv in E as ([d2 ixs'] & E2 & E). injection E as <- _. cbn [fst snd] in *.
    apply add_output_heights in E1 as [Hu1 Hh]; [|assumption]. rewrite <- Hh in Hu1. apply IH in E2; [|assumption]. now rewrite Hh in E2.
Qed.

Lemma add_transaction_heights tx bd h d d' :
  heights_upto (height d) d -> add_transaction tx bd h d = Returns d' -> heights_upto (height d) d' /\ height d' = height d.
Proof.
  intros Hd E. unfold add_transaction in E. apply result_bind_inv in E as (d1 & E1 & E). apply result_bind_inv in E as ([d2 id] & E2 & E).
  apply result_bind_inv in E as ([d3 ixs] & E3 & E). unfold add_tx_amount_output_indices in E.
  apply result_bind_inv in E as (to & _ & E). injection E as <-. cbn [fst snd] in *.
  destruct (add_inputs_spec _ _ _ E1) as (_ & _ & ->). destruct (add_transaction_data_inv _ _ _ _ _ _ E2) as (n & _ & _ & _ & _ & ->).
  eapply add_outputs_heights in E3; [|exact Hd]. exact E3.
Qed.

Lemma add_transactions_heights txs : forall hs d d',
  heights_upto (height d) d -> add_transactions txs hs d = Returns d' -> heights_upto (height d) d' /\ height d' = height d.
Proof.
  induction txs as [|[tx bd] txs IH]; intros [|h hs] d d' Hd E; cbn in E; try (injection E as <-; now auto).
  apply result_bind_inv in E as (d1 & E1 & E). apply add_transaction_heights in E1 as [Hu1 Hh]; [|assumption].
  rewrite <- Hh in Hu1. apply IH in E; [|assumption]. now rewrite Hh in E.
Qed.

Lemma heights_upto_le n n' d : n <= n' -> heights_upto n d -> heights_upto n' d.
Proof. intros Hn Hd a l E. destruct (Hd a l E) as [Hs Hf]. split; [assumption|]. eapply Forall_impl; [exact Hf|]. cbn. intros; lia. Qed.

(** Outside of the addition of a block, every output is older than the height. *)
Lemma built_heights hist d : built hist d -> heights_upto (height d - 1) d.
Proof.
  induction 1 as [hf|hist d e d' prev hf Hb IH He E]; [intros a l E; cbn in E; now rewrite lookup_empty in E|].
  apply (heights_upto_le _ (height d)) in IH; [|lia]. pose proof (built_answers _ _ Hb) as [Hok _ _ _ _]. destruct He as [He Ht].
  destruct (add_block_spec _ _ _ _ _ _ _ _ _ Hok He Ht E) as (_ & _ & Hh & _). change (height (with_hf_versions hf d')) with (height d').
  rewrite Hh, Z.add_simpl_r. apply (heights_upto_same _ d'); [reflexivity|].
  unfold add_entry, add_block in E. apply throw_unless_inv in E as [_ E].
  apply result_bind_inv in E as (bh & _ & E). apply result_bind_inv in E as (mb & _ & E). apply result_bind_inv in E as (mh & _ & E).
  apply result_bind_inv in E as (d1 & E1 & E). apply result_bind_inv in E as (d2 & E2 & E). apply result_bind_inv in E as (d3 & E3 & E).
  injection E as <- _. apply add_transaction_heights in E1 as [Hu1 Hh1]; [|assumption]. rewrite <- Hh1 in Hu1.
  apply add_transactions_heights in E2 as [Hu2 _]; [|assumption]. rewrite Hh1 in Hu2. apply (heights_upto_same _ d2); [|assumption]. cbn.
  unfold add_block_data, throw_if in E3. apply throw_unless_inv in E3 as [_ E3]. apply result_bind_inv in E3 as ([] & _ & E3).
  apply result_bind_inv in E3 as (bd & _ & E3). apply result_bind_inv in E3 as (cum & _ & E3). now injection E3 as <-.
Qed.

Lemma run_built hist d : db_run hist d -> built hist d.
Proof.
  induction 1 as [|hist d e d' prev Hr IH He E|hist d d' blk txs Hr IH E].
  - change empty_db with (with_hf_versions ∅ empty_db). apply built_empty.
  - replace d' with (with_hf_versions (m_hf_versions d') d') by now destruct d'. exact (built_add _ _ _ _ _ _ IH He E).
  - destruct hist as [|e hist _] using rev_ind.
    + exfalso. pose proof (an_height _ _ (built_answers _ _ IH)) as Hh. cbn in Hh. revert E. unfold pop_block, get_top_block, remove_block, throw_if.
      rewrite Hh. cbn. discriminate.
    + rewrite List.removelast_last. destruct (built_pop _ _ _ IH) as (d1 & E1 & Hb). rewrite E in E1. injection E1 as <- _ _. exact Hb.
Qed.

(** C18: Removing the top block undoes adding it.  When a block with its
    transactions was added to a database that satisfies the invariant of the
    tables, [pop_block] returns the block and its transactions (last one first) and every
    table (blocks, heights, block info, transactions with their two
    blobs, indices, outputs by amount and by id, spent key images, alternative
    blocks) is what it was before; only the table of hard-fork versions keeps
    its new row. *)
Theorem pop_block_undoes_add_block (e : entry) (d d' : chain_db) (prev : Z) :
  db_ok d -> entry_ok e -> add_entry e d = Returns (d', prev) ->
  pop_block init d' = Returns (with_hf_versions (m_hf_versions d') d, e_blk e, reverse (e_txs e).*1).
Proof.
  intros Hok [He Ht] E. destruct (add_block_spec _ _ _ _ _ _ _ _ _ Hok He Ht E) as (_ & _ & _ & _ & _ & _ & _ & _ & Hp).
  specialize (Hp (m_hf_versions d')). replace (with_hf_versions (m_hf_versions d') d') with d' in Hp by now destruct d'. exact Hp.
Qed.

(** C20: The database refines a stack of blocks.  After every sequence of additions
    and removals of blocks from the empty database, the
    database answers as the list of the blocks added and not removed since: the
    height is its length, the spent key images are those of its transactions, no key image is
    spent by two of them, the blob of each transaction is found under its
    hash; removing a block yields the last one of the list with its
    transactions, and a database whose list is the shorter one. *)
Theorem database_refines_block_stack (hist : list entry) (d : chain_db) :
  db_run hist d ->
  answers hist d /\
  forall hist' e, hist = hist' ++ [e] ->
    exists d', pop_block init d = Returns (d', e_blk e, reverse (e_txs e).*1) /\ db_run hist' d'.
Proof.
  intros Hr. pose proof (run_built _ _ Hr) as Hb. split; [now apply built_answers|]. intros hist' e ->.
  destruct (built_pop _ _ _ Hb) as (d' & E & _). exists d'. split; [exact E|].
  rewrite <- (List.removelast_last hist' e). exact (run_pop _ _ _ _ _ Hr E).
Qed.

(** The database refuses a second spend.  A block is added only if none of the
    key images of its transactions is in the table and no two of them are equal;
    otherwise the addition throws. *)
Theorem second_spend_throws (e : entry) (d : chain_db) :
  db_ok d -> entry_ok e ->
  (~ NoDup (entry_images e) \/ exists k, k ∈ entry_images e /\ has_output_key_image k d = true) ->
  add_entry e d = Throws.
Proof.
  intros Hok [He Ht] Hbad. destruct (add_entry e d) as [[d' prev]|] eqn:E; [|reflexivity].
  destruct (add_block_spec _ _ _ _ _ _ _ _ _ Hok He Ht E) as (_ & _ & _ & _ & Hn & Hf & _).
  destruct Hbad as [Hbad|(k & Hk & Hs)]; [contradiction|]. apply bool_decide_eq_true in Hs. now apply Hf in Hk.
Qed.

End Transactions.

(** ** Examples *)

Section Examples.
Import ModelGroup.
#[local] Existing Instance RollingDigest.rolling_sha3.
#[local] Instance zero_shift : UndefinedShift := fun _ => 0.
#[local] Instance not_cached : CachedSize := fun _ => 0.

Definition db_init : rctData := ringct example_ringct_tx.
Definition spend_with (image : key_image) : transaction :=
  {| prefix := {| version := 2; unlock_height := 0;
                  vin := [txin_from_key {| in_amount := 0; output_relative_offsets := [3]; output_key_image := image |}];
                  vout := vout (prefix example_ringct_tx); extra := [] |};
     ringct := ringct example_ringct_tx |}.
Definition coinbase_at (h : Z) : transaction :=
  {| prefix := {| version := 2; unlock_height := h + 60; vin := [txin_gen h];
                  vout := [ {| amount := 5; target := txout_to_key 8 |} ]; extra := [] |};
     ringct := {| basic := {| type := RCTTypeNull; message := message (basic db_init); decoys := decoys (basic db_init);
                              ecdh_encrypted_data := ecdh_encrypted_data (basic db_init);
                              output_commits := output_commits (basic db_init); fee := fee (basic db_init) |};
                  p := p db_init |} |}.
Definition blob_of (tx : transaction) : blob := match tx_to_blob tx with Returns b => b | Throws => [] end.
Definition block_at (h : Z) (prev : hash) (hashes : list hash) : block :=
  {| header := {| major_version := 17; minor_version := 17; timestamp := 100 + h; prev_id := prev; nonce := 3 |};
     miner_tx := coinbase_at h; tx_hashes := hashes |}.

(** The genesis block and a block on top of it with one transaction. *)
Definition entry0 : entry :=
  {| e_blk := block_at 0 null_hash []; e_weight := 100; e_long_term_weight := 100; e_difficulty := 1; e_coins := 5; e_txs := [] |}.
Definition hash0 : hash := match get_block_hash (e_blk entry0) 0 with Returns h => h | Throws => [] end.
Definition entry1 (image : key_image) : entry :=
  {| e_blk := block_at 1 hash0 [le_bytes 32 77]; e_weight := 100; e_long_term_weight := 100; e_difficulty := 3; e_coins := 10;
     e_txs := [(spend_with image, blob_of (spend_with image))] |}.

Definition db_after (es : list entry) : chain_db :=
  foldl (fun d e => match add_entry e d with Returns (d', _) => d' | Throws => d end) empty_db es.

Lemma entry0_ok : entry_ok db_init entry0.
Proof.
  split; [|constructor]. split; [|exists 0; split; [reflexivity|now right]].
  apply (parse_wf _ (match block_to_blob (e_blk entry0) with Returns b => b | Throws => [] end));
    [apply (bool_decide_unpack _); vm_compute; exact I|vm_compute; reflexivity].
Qed.

Lemma entry1_ok : entry_ok db_init (entry1 5).
Proof.
  split.
  - split; [|exists 1; split; [reflexivity|now right]].
    apply (parse_wf _ (match block_to_blob (e_blk (entry1 5)) with Returns b => b | Throws => [] end));
      [apply (bool_decide_unpack _); vm_compute; exact I|vm_compute; reflexivity].
  - constructor; [|constructor]. split; [right; reflexivity|vm_compute; reflexivity].
Qed.

Lemma add_entry0 : add_entry entry0 empty_db = Returns (db_after [entry0], 0).
Proof. vm_compute. reflexivity. Qed.

Lemma add_entry1 : add_entry (entry1 5) (db_after [entry0]) = Returns (db_after [entry0; entry1 5], 1).
Proof. vm_compute. reflexivity. Qed.

Lemma run_one : db_run db_init ([] ++ [entry0]) (db_after [entry0]).
Proof. exact (run_add _ [] empty_db entry0 _ 0 (run_empty _) entry0_ok add_entry0). Qed.

Lemma run_two : db_run db_init (([] ++ [entry0]) ++ [entry1 5]) (db_after [entry0; entry1 5]).
Proof. exact (run_add _ _ _ (entry1 5) _ 1 run_one entry1_ok add_entry1). Qed.

Lemma db_after_ok : db_ok (db_after [entry0]).
Proof. exact (an_ok _ _ (built_answers db_init _ _ (run_built db_init _ _ run_one))). Qed.

Lemma pop_block_undoes_add_block_witness :
  pop_block db_init (db_after [entry0; entry1 5]) =
  Returns (with_hf_versions (m_hf_versions (db_after [entry0; entry1 5])) (db_after [entry0]), e_blk (entry1 5), [spend_with 5]).
Proof.
  apply (pop_block_undoes_add_block db_init (entry1 5) (db_after [entry0]) (db_after [entry0; entry1 5]) 1);
    [exact db_after_ok|exact entry1_ok|exact add_entry1].
Defined.

Lemma database_refines_block_stack_witness :
  answers [entry0; entry1 5] (db_after [entry0; entry1 5]) /\ m_spent_keys (db_after [entry0; entry1 5]) = {[ 5 ]}.
Proof.
  split; [exact (proj1 (database_refines_block_stack db_init _ _ run_two))|].
  rewrite (an_spent _ _ (proj1 (database_refines_block_stack db_init _ _ run_two))). vm_compute. reflexivity.
Defined.

Lemma second_spend_throws_witness : add_entry (entry1 5) (with_spent_keys {[ 5 ]} (db_after [entry0])) = Throws.
Proof.
  apply (second_spend_throws db_init (entry1 5)); [|exact entry1_ok|].
  - apply db_ok_spent. exact db_after_ok.
  - right. exists 5. split; [vm_compute; left|vm_compute; reflexivity].
Defined.

End Examples.

End ChainDbInv.
