(* ===== verification/LmdbTxn.v ===== *)
(** Write transactions and batches of the LMDB back end
    ([src/src/daemon/database/instance/lmdb/lmdb.cpp]) as a state machine over the
    committed contents and the contents seen by the writer.  The contents are
    any type; with [ChainDb] they are the tables of the block chain. *)

From stdpp Require Import gmap.
From S2P Require Import Prelude Hash Config Varint Serialization Primality Group ModelGroup Key RctOps VectorOps InnerProduct Bulletproof Clsag RctTypes TxTypes Consensus Coinbase FormatUtils PoolTable ChainDb ChainDbInv.

Module LmdbTxn.
Import RctTypes TxTypes FormatUtils ChainDb ChainDbInv.

Section Transactions.
Context {A : Type}.

(** [write_txn] is what [m_write_txn] points to, [is_batch] whether that is the
    transaction [m_write_batch_txn]. *)
Record env := {
  committed : A; write_txn : option A; write_batch_txn : option A; m_batch_active : bool; m_batch_transactions : bool;
  m_writer : Z }.

Definition set_batch_transactions (b : bool) (e : env) : env :=
  {| committed := committed e; write_txn := write_txn e; write_batch_txn := write_batch_txn e;
     m_batch_active := m_batch_active e; m_batch_transactions := b; m_writer := m_writer e |}.

(** [thread] is the calling thread. *)
Definition batch_start (thread : Z) (e : env) : result (env * bool) :=
  _ ← throw_unless (m_batch_transactions e);
  if m_batch_active e then Returns (e, false) else
  match write_batch_txn e with
  | Some _ => Returns (e, false)
  | None =>
    _ ← throw_if (bool_decide (is_Some (write_txn e)));
    Returns ({| committed := committed e; write_txn := Some (committed e); write_batch_txn := Some (committed e);
                m_batch_active := true; m_batch_transactions := m_batch_transactions e; m_writer := thread |}, true)
  end.

Definition batch_guards (thread : Z) (e : env) : result unit :=
  _ ← throw_unless (m_batch_transactions e);
  _ ← throw_unless (m_batch_active e);
  _ ← throw_unless (bool_decide (is_Some (write_batch_txn e)));
  throw_unless (m_writer e =? thread).

Definition cleanup_batch (e : env) : env :=
  {| committed := committed e; write_txn := None; write_batch_txn := None; m_batch_active := false;
     m_batch_transactions := m_batch_transactions e; m_writer := m_writer e |}.

(** The contents of the transaction become the committed ones. *)
Definition commit_txn (e : env) : env :=
  {| committed := default (committed e) (write_txn e); write_txn := write_txn e; write_batch_txn := write_batch_txn e;
     m_batch_active := m_batch_active e; m_batch_transactions := m_batch_transactions e; m_writer := m_writer e |}.

Definition batch_commit (thread : Z) (e : env) : result env :=
  _ ← batch_guards thread e;
  let e := commit_txn e in
  Returns {| committed := committed e; write_txn := None; write_batch_txn := None; m_batch_active := m_batch_active e;
             m_batch_transactions := m_batch_transactions e; m_writer := m_writer e |}.

Definition batch_stop (thread : Z) (e : env) : result env :=
  _ ← batch_guards thread e; Returns (cleanup_batch (commit_txn e)).

Definition batch_abort (thread : Z) (e : env) : result env :=
  _ ← batch_guards thread e; Returns (cleanup_batch e).

Definition block_wtxn_start (thread : Z) (e : env) : result env :=
  _ ← throw_if (negb (m_batch_active e) && bool_decide (is_Some (write_txn e)));
  if m_batch_active e then _ ← throw_unless (m_writer e =? thread); Returns e
  else Returns {| committed := committed e; write_txn := Some (committed e); write_batch_txn := write_batch_txn e;
                  m_batch_active := m_batch_active e; m_batch_transactions := m_batch_transactions e; m_writer := thread |}.

Definition drop_write_txn (e : env) : env :=
  {| committed := committed e; write_txn := None; write_batch_txn := write_batch_txn e; m_batch_active := m_batch_active e;
     m_batch_transactions := m_batch_transactions e; m_writer := m_writer e |}.

Definition block_wtxn_stop (thread : Z) (e : env) : result env :=
  _ ← throw_unless (bool_decide (is_Some (write_txn e)));
  _ ← throw_unless (m_writer e =? thread);
  Returns (if m_batch_active e then e else drop_write_txn (commit_txn e)).

Definition block_wtxn_abort (thread : Z) (e : env) : result env :=
  _ ← throw_unless (bool_decide (is_Some (write_txn e)));
  _ ← throw_unless (m_writer e =? thread);
  Returns (if m_batch_active e then e else drop_write_txn e).

(** The writer reads and changes its transaction. *)
Definition current (e : env) : A := default (committed e) (write_txn e).
Definition update (a : A) (e : env) : env :=
  {| committed := committed e; write_txn := Some a; write_batch_txn := (fun _ => a) <$> write_batch_txn e;
     m_batch_active := m_batch_active e; m_batch_transactions := m_batch_transactions e; m_writer := m_writer e |}.

End Transactions.
Arguments env : clear implicits.

(** [BlockchainLMDB::pop_block]: the [return] comes before [block_wtxn_stop]. *)
Section Pop.
Context `{Sodium} `{Sha3} `{UndefinedShift} `{CachedSize} (init : rctData).

Definition lmdb_pop_block (thread : Z) (e : env chain_db) : result (env chain_db * block * list transaction) :=
  e ← block_wtxn_start thread e;
  match pop_block init (current e) with
  | Throws => _ ← block_wtxn_abort thread e; Throws
  | Returns (d, blk, txs) => Returns (update d e, blk, txs)
  end.

(** A batch is atomic: what happens in it is visible outside either as a whole or
    not at all, for every sequence of changes made by its thread. *)
Lemma batch_atomic thread (e e1 : env chain_db) (ds : list chain_db) :
  batch_start thread e = Returns (e1, true) ->
  let e2 := foldl (fun e d => update d e) e1 ds in
  committed e2 = committed e /\
  (exists e3, batch_abort thread e2 = Returns e3 /\ committed e3 = committed e /\ write_txn e3 = None /\ m_batch_active e3 = false) /\
  (exists e3, batch_stop thread e2 = Returns e3 /\ committed e3 = default (committed e) (last ds) /\ write_txn e3 = None /\
     m_batch_active e3 = false).
Proof.
  unfold batch_start, throw_if. intros E. apply throw_unless_inv in E as [Hb E]. destruct (m_batch_active e); [discriminate|].
  destruct (write_batch_txn e); [discriminate|]. apply throw_unless_inv in E as [_ E]. injection E as <-. cbn zeta.
  set (e1 := Build_env _ _ _ _ _ _).
  assert (Hinv : let e2 := foldl (fun e d => update d e) e1 ds in
    committed e2 = committed e /\ write_txn e2 = Some (default (committed e) (last ds)) /\ is_Some (write_batch_txn e2) /\
    m_batch_active e2 = true /\ m_batch_transactions e2 = true /\ m_writer e2 = thread).
  { induction ds as [|d ds IH] using rev_ind; cbn zeta in *.
    - cbn. rewrite Hb. split_and!; eauto.
    - rewrite foldl_snoc, last_snoc. destruct IH as (I1 & I2 & [x I3] & I4 & I5 & I6). cbn. rewrite I3. split_and!; auto. }
  cbn zeta in Hinv. destruct Hinv as (I1 & I2 & I3 & I4 & I5 & I6).
  assert (Hg : batch_guards thread (foldl (fun e d => update d e) e1 ds) = Returns tt).
  { unfold batch_guards. rewrite I5, I4, I6, bool_decide_true by assumption. cbn. now rewrite Z.eqb_refl. }
  split; [exact I1|]. unfold batch_abort, batch_stop. rewrite Hg. cbn [mbind result_bind].
  split; eexists; (split; [reflexivity|]); cbn; rewrite ?I2; auto.
Qed.

(** Popping a block outside of a batch leaves the write transaction open: nothing is
    committed, and the next attempt to open one throws. *)
Lemma pop_block_leaves_txn_open thread (e e' : env chain_db) blk txs :
  m_batch_active e = false -> write_txn e = None -> lmdb_pop_block thread e = Returns (e', blk, txs) ->
  committed e' = committed e /\ is_Some (write_txn e') /\ lmdb_pop_block thread e' = Throws.
Proof.
  intros Hb Hw. unfold lmdb_pop_block at 1, block_wtxn_start, throw_if. rewrite Hb, Hw. cbn.
  destruct (pop_block init (committed e)) as [[[d b] t]|]; [|rewrite Z.eqb_refl; discriminate]. intros [= <- _ _].
  split_and!; [reflexivity|cbn; eauto|]. unfold lmdb_pop_block, block_wtxn_start, throw_if. cbn. reflexivity.
Qed.

End Pop.

End LmdbTxn.
