(* ===== verification/TxCheck.v ===== *)
(** The checks of a transaction against the block chain: the part of
    [src/src/cryptonote/core/blockchain.cpp] that looks up ring members,
    enforces their age and locks, and verifies the ring signatures, and the
    instance of the pool's view of the chain that they give. *)

From stdpp Require Import gmap sorting.
From S2P Require Import Prelude Hash Config Varint Serialization Primality Group ModelGroup Key RctOps VectorOps InnerProduct Bulletproof Clsag RctTypes TxTypes Consensus Coinbase FormatUtils RingCT PoolTable TxPool TxPoolInv TxPoolSteps ChainDb ChainDbInv.

Module TxCheck.
Import Config Serialization.Archive Clsag RctTypes TxTypes Consensus Coinbase FormatUtils RingCT TxPool TxPoolInv ChainDb ChainDbInv.

Definition CRYPTONOTE_DEFAULT_TX_SPENDABLE_AGE : Z := 4.
Definition CRYPTONOTE_LOCKED_TX_ALLOWED_DELTA_BLOCKS : Z := 1.
Definition FEE_PER_BYTE : Z := 300000.
Definition fee_quantization_mask : Z := 10 ^ (11 - 8).
Definition mixin : Z := 31.
Definition tx_version : Z := 2.

(** The order in which the thread pool finishes [n] jobs. *)
Class Schedule := schedule : nat -> list nat.

(** [m_scan_table]: the output data read ahead for the blocks being added, by
    prefix hash and key image. *)
Abbreviation scan_table_t := (gmap hash (gmap key_image (list output_data_t))).

Definition check_fee (tx_weight fee : Z) : bool :=
  let needed_fee := tx_weight ⊠ FEE_PER_BYTE in
  let needed_fee := ((needed_fee ⊞ fee_quantization_mask ⊟ 1) / fee_quantization_mask) ⊠ fee_quantization_mask in
  negb (fee <? needed_fee ⊟ needed_fee / 50).

Section OnDb.
Context `{Sodium} `{Sha3} `{UndefinedShift} `{Schedule}.
Context (d : chain_db) (m_scan_table : scan_table_t).

Definition have_tx (id : hash) : bool := bool_decide (is_Some (tx_exists id d)).

Definition have_tx_keyimg_as_spent (key_im : key_image) : bool := has_output_key_image key_im d.

(** [CHECKED_GET_SPECIFIC_VARIANT] returns [true] for another type of input. *)
Fixpoint inputs_spent (ins : list txin_v) : bool :=
  match ins with
  | [] => false
  | txin_from_key x :: ins' => if have_tx_keyimg_as_spent (output_key_image x) then true else inputs_spent ins'
  | _ :: _ => true
  end.
Definition have_tx_keyimges_as_spent (tx : transaction) : bool := inputs_spent (vin (prefix tx)).

Definition get_current_blockchain_height : Z := height d.

Definition get_already_generated_coins (h : Z) : result Z :=
  if 0 <? h then get_block_already_generated_coins (h - 1) d else Returns 0.

(** [BLOCK_DNE] is the only exception of the modelled database here. *)
Definition get_block_id_by_height (h : Z) : hash :=
  match get_block_hash_from_height h d with Returns x => x | Throws => null_hash end.

(** The visitor inserts into the keys of the block before it tests. *)
Fixpoint check_inputs_double_spend (ins : list txin_v) (keys_this_block : gset key_image) : gset key_image * bool :=
  match ins with
  | [] => (keys_this_block, true)
  | txin_gen _ :: ins' => check_inputs_double_spend ins' keys_this_block
  | txin_from_key x :: ins' =>
    let ki := output_key_image x in
    if bool_decide (ki ∈ keys_this_block) || has_output_key_image ki d then ({[ ki ]} ∪ keys_this_block, false)
    else check_inputs_double_spend ins' ({[ ki ]} ∪ keys_this_block)
  end.
Definition check_for_double_spend (tx : transaction) := check_inputs_double_spend (vin (prefix tx)).

Definition is_tx_spendtime_unlocked (unlock_height : Z) : bool :=
  (unlock_height =? 0) || (unlock_height <? height d ⊞ CRYPTONOTE_LOCKED_TX_ALLOWED_DELTA_BLOCKS).

(** ** Ring members *)

(** The overload of [get_output_key] for one output. *)
Definition get_output_key (amount index : Z) : result output_data_t :=
  match find_output amount index d with Some o => Returns (output_data amount o) | None => Throws end.

(** Several offsets at once, all of which must exist. *)
Definition get_all_output_keys (amount : Z) (offsets : list Z) : option (list output_data_t) :=
  match get_output_keys amount offsets true d with
  | Throws => None
  | Returns outputs => if (length offsets =? length outputs)%nat then Some outputs else None
  end.

(** From the table read ahead, completed from the database, or from the database. *)
Definition collect_outputs (x : txin_from_key_t) (tx_prefix_hash : hash) (absolute_offsets : list Z) : option (list output_data_t) :=
  match m_scan_table !! tx_prefix_hash ≫= lookup (output_key_image x) with
  | None => get_all_output_keys (in_amount x) absolute_offsets
  | Some outputs =>
    if ((length outputs <? length absolute_offsets) && (0 <? length outputs))%nat then
      add_outputs ← get_all_output_keys (in_amount x) (drop (length outputs) absolute_offsets);
      Some (outputs ++ add_outputs)
    else Some outputs
  end.

(** [outputs_visitor::handle_output] *)
Definition handle_output (o : output_data_t) : option output_public_data :=
  if negb (is_tx_spendtime_unlocked (od_unlock_height o)) then None
  else Some {| output_public_key := pubkey o; decoy_commit := default 0 (commitment o) |}.

(** The loop over the offsets; only the height of the last one is compared with
    [pmax]. *)
Fixpoint scan_loop (amount : Z) (outputs : list output_data_t) (offsets : list Z) (count : nat) (keys : list output_public_data)
    (pmax : Z) : bool * list output_public_data * Z :=
  match offsets with
  | [] => (true, keys, pmax)
  | i :: offsets' =>
    match (match outputs !! count with Some o => Returns o | None => get_output_key amount i end) with
    | Throws => (false, keys, pmax)
    | Returns o =>
      match handle_output o with
      | None => (false, keys, pmax)
      | Some k =>
        let pmax := match offsets' with [] => if pmax <? od_height o then od_height o else pmax | _ => pmax end in
        scan_loop amount outputs offsets' (S count) (keys ++ [k]) pmax
      end
    end
  end.

Definition scan_outputkeys_for_indexes (x : txin_from_key_t) (tx_prefix_hash : hash) (pmax : Z)
    : bool * list output_public_data * Z :=
  if (length (output_relative_offsets x) =? 0)%nat then (false, [], pmax) else
  let absolute_offsets := relative_output_offsets_to_absolute (output_relative_offsets x) in
  match collect_outputs x tx_prefix_hash absolute_offsets with
  | None => (false, [], pmax)
  | Some outputs => scan_loop (in_amount x) outputs absolute_offsets 0 [] pmax
  end.

Definition check_ringct_input (x : txin_from_key_t) (tx_prefix_hash : hash) (pmax : Z)
    : bool * list output_public_data * Z :=
  let '(ok, output_keys, pmax) := scan_outputkeys_for_indexes x tx_prefix_hash pmax in
  if negb ok then (false, output_keys, pmax) else
  (length (output_relative_offsets x) =? length output_keys, output_keys, pmax)%nat.

(** ** A whole transaction *)

Definition with_ringct (r : rctData) (tx : transaction) : transaction := {| prefix := prefix tx; ringct := r |}.
Definition with_message (m : hash) (b : rctDataBasic) : rctDataBasic :=
  {| type := type b; message := m; decoys := decoys b; ecdh_encrypted_data := ecdh_encrypted_data b;
     output_commits := output_commits b; fee := fee b |}.
Definition with_decoys (ds : list (list output_public_data)) (b : rctDataBasic) : rctDataBasic :=
  {| type := type b; message := message b; decoys := ds; ecdh_encrypted_data := ecdh_encrypted_data b;
     output_commits := output_commits b; fee := fee b |}.
Definition with_CLSAGs (cs : list clsag_unsafe) (x : rctDataPrunable) : rctDataPrunable :=
  {| bulletproofs := bulletproofs x; CLSAGs := cs; pseudo_input_commits := pseudo_input_commits x |}.
Definition with_signer_key_image (k : key_image) (c : clsag_unsafe) : clsag_unsafe :=
  {| u_s := u_s c; u_c1 := u_c1 c; u_signer_key_image := k;
     u_blinding_factor_surplus_key_image := u_blinding_factor_surplus_key_image c |}.

(** [boost::get<txin_from_key>] throws for another type. *)
Definition get_from_key (i : txin_v) : result txin_from_key_t :=
  match i with txin_from_key x => Returns x | _ => Throws end.

(** The transaction changes before a failure is found. *)
Definition expand_transaction_2 (tx : transaction) (tx_prefix_hash : hash) (pubkeys : list (list output_public_data))
    : result (transaction * bool) :=
  if negb (version (prefix tx) =? 2) then Returns (tx, false) else
  let b := with_message tx_prefix_hash (basic (ringct tx)) in
  let tx1 := with_ringct {| basic := b; p := p (ringct tx) |} tx in
  if negb (type b =? RCTTypeCLSAG) then Returns (tx1, false) else
  match pubkeys with
  | [] | [] :: _ => Returns (tx1, false)
  | _ =>
    let b := with_decoys pubkeys b in
    let tx2 := with_ringct {| basic := b; p := p (ringct tx) |} tx in
    if negb (length (CLSAGs (p (ringct tx))) =? length (vin (prefix tx)))%nat then Returns (tx2, false) else
    xs ← result_mapM get_from_key (vin (prefix tx));
    let cs := zip_with (fun x c => with_signer_key_image (output_key_image x) c) xs (CLSAGs (p (ringct tx))) in
    Returns (with_ringct {| basic := b; p := with_CLSAGs cs (p (ringct tx)) |} tx, true)
  end.

(** The extreme ring sizes minus one, [size_t]; the counts of mixable inputs are
    not used. *)
Definition mixin_range (ins : list txin_v) : Z * Z :=
  foldl (fun '(lo, hi) i => match i with
         | txin_from_key x => let ring_mixin := Z.of_nat (length (output_relative_offsets x)) ⊟ 1 in
                              (if ring_mixin <? lo then ring_mixin else lo, if hi <? ring_mixin then ring_mixin else hi)
         | _ => (lo, hi) end) (u64_max, 0) ins.

(** The loop over the inputs. *)
Fixpoint check_each_input (ins : list txin_v) (tx_prefix_hash : hash) (tvc : tx_verification_context) (pmax : Z)
    (pubkeys : list (list output_public_data)) : bool * tx_verification_context * Z * list (list output_public_data) :=
  match ins with
  | [] => (true, tvc, pmax, pubkeys)
  | txin_gen _ :: _ => (false, tvc, pmax, pubkeys)
  | txin_from_key x :: ins' =>
    if (length (output_relative_offsets x) =? 0)%nat then (false, tvc, pmax, pubkeys) else
    if have_tx_keyimg_as_spent (output_key_image x) then (false, raise [double_spend] tvc, pmax, pubkeys) else
    let '(ok, keys, pmax) := check_ringct_input x tx_prefix_hash pmax in
    if negb ok then (false, tvc, pmax, pubkeys) else
    check_each_input ins' tx_prefix_hash tvc pmax (pubkeys ++ [keys])
  end.

#[export] Instance output_public_data_eq_dec : EqDecision output_public_data.
Proof. solve_decision. Defined.

(** The checks of the expanded transaction. *)
Definition check_signatures (tx : transaction) (pubkeys : list (list output_public_data)) : result bool :=
  let rv := ringct tx in
  if negb (type (basic rv) =? RCTTypeCLSAG) then Returns false else
  if negb (bool_decide (pubkeys = decoys (basic rv))) then Returns false else
  if negb (length (CLSAGs (p rv)) =? length (vin (prefix tx)))%nat then Returns false else
  xs ← result_mapM get_from_key (vin (prefix tx));
  if negb (bool_decide (output_key_image <$> xs = u_signer_key_image <$> CLSAGs (p rv))) then Returns false else
  match maybeSizeCheckedRctData rv with
  | None => Returns false
  | Some sc => Returns (verify_clsag_signatures (schedule (length (decoys (basic rv)))) sc)
  end.

(** [check_ringct_inputs(tx, tvc, pmax_used_block_height)]: the last component is what it
    leaves in [*pmax_used_block_height]. *)
Definition check_inputs (tx : transaction) (tvc : tx_verification_context)
    : result (bool * transaction * tx_verification_context * Z) :=
  tx_prefix_hash ← get_transaction_prefix_hash tx;
  if negb (rule_21_ringct_should_have_at_least_two_outputs (vout (prefix tx)))
  then Returns (false, tx, raise [too_few_outputs] tvc, 0) else
  let '(min_actual_mixin, max_actual_mixin) := mixin_range (vin (prefix tx)) in
  if negb (min_actual_mixin =? max_actual_mixin) then Returns (false, tx, raise [low_mixin] tvc, 0) else
  if negb (min_actual_mixin =? mixin) then Returns (false, tx, raise [low_mixin] tvc, 0) else
  if tx_version <? version (prefix tx) then Returns (false, tx, raise [verifivation_failed] tvc, 0) else
  if version (prefix tx) <? tx_version then Returns (false, tx, raise [verifivation_failed] tvc, 0) else
  xs ← result_mapM get_from_key (vin (prefix tx));
  if negb (rule_18_ringct_input_key_images_should_be_sorted (output_key_image <$> xs))
  then Returns (false, tx, raise [verifivation_failed] tvc, 0) else
  let '(ok, tvc, pmax, pubkeys) := check_each_input (vin (prefix tx)) tx_prefix_hash tvc 0 [] in
  if negb ok then Returns (false, tx, tvc, pmax) else
  if height d <? pmax ⊞ CRYPTONOTE_DEFAULT_TX_SPENDABLE_AGE then Returns (false, tx, tvc, pmax) else
  '(tx, ok) ← expand_transaction_2 tx tx_prefix_hash pubkeys;
  if negb ok then Returns (false, tx, tvc, pmax) else
  ok ← check_signatures tx pubkeys;
  Returns (ok, tx, tvc, pmax).

(** The overload that also gives the id of the block. *)
Definition check_ringct_inputs (tx : transaction) (max_used_block_id : hash) (tvc : tx_verification_context)
    : result (bool * (transaction * Z * hash * tx_verification_context)) :=
  '(ok, tx, tvc, max_used_block_height) ← check_inputs tx tvc;
  if negb ok then Returns (false, (tx, max_used_block_height, max_used_block_id, tvc)) else
  if negb (max_used_block_height <? height d) then Returns (false, (tx, max_used_block_height, max_used_block_id, tvc)) else
  id ← get_block_hash_from_height max_used_block_height d;
  Returns (true, (tx, max_used_block_height, id, tvc)).

Definition check_ringct_outputs (tx : transaction) (tvc : tx_verification_context) : bool * tx_verification_context :=
  if negb (forallb (fun o => amount o =? 0) (vout (prefix tx))) then (false, raise [invalid_output] tvc) else
  if negb (type (basic (ringct tx)) =? RCTTypeCLSAG) then (false, raise [invalid_output] tvc) else
  if negb (bool_decide (is_Some (check_tx_output_points tx)) && check_ringct_points tx) then (false, raise [invalid_output] tvc) else
  (true, tvc).

End OnDb.

(** ** What an accepted input is *)

Section Sound.
Context `{Sodium} `{Sha3} `{UndefinedShift} `{Schedule}.
Context (d : chain_db) (m_scan_table : scan_table_t).

Definition ring_indices (x : txin_from_key_t) : list Z := relative_output_offsets_to_absolute (output_relative_offsets x).

Definition is_output (amount index : Z) (o : output_data_t) : Prop := get_output_key d amount index = Returns o.

(** The outputs read ahead for an input are a beginning of its ring. *)
Definition scan_agrees (h : hash) (x : txin_from_key_t) : Prop :=
  forall outs, m_scan_table !! h ≫= lookup (output_key_image x) = Some outs ->
    Forall2 (is_output (in_amount x)) (take (length outs) (ring_indices x)) outs.

Definition member (o : output_data_t) : output_public_data :=
  {| output_public_key := pubkey o; decoy_commit := default 0 (commitment o) |}.

Definition ring_keys (os : list output_data_t) : list output_public_data := member <$> os.

(** The outputs [os] are the ring of the input [x]: they exist under its indices and
    are unlocked. *)
Definition ring_of (x : txin_from_key_t) (os : list output_data_t) : Prop :=
  Forall2 (is_output (in_amount x)) (ring_indices x) os /\
  Forall (fun o => is_tx_spendtime_unlocked d (od_unlock_height o) = true) os.

Lemma length_absolute off : length (relative_output_offsets_to_absolute off) = length off.
Proof.
  destruct off as [|x off]; [reflexivity|]. cbn. f_equal. revert x. induction off as [|y off IH]; intros x; [reflexivity|].
  cbn. now rewrite IH.
Qed.

Lemma get_output_keys_all amount offs : forall outs,
  get_output_keys amount offs true d = Returns outs -> Forall2 (is_output amount) (take (length outs) offs) outs.
Proof.
  induction offs as [|i offs IH]; intros outs E; cbn in E.
  - injection E as <-. constructor.
  - destruct (find_output amount i d) as [o|] eqn:Eo; [|injection E as <-; constructor].
    apply result_bind_inv in E as (l & El & E). injection E as <-. cbn. constructor; [|now apply IH].
    unfold is_output, get_output_key. now rewrite Eo.
Qed.

Lemma get_all_output_keys_spec amount offs outs :
  get_all_output_keys d amount offs = Some outs -> Forall2 (is_output amount) offs outs.
Proof.
  unfold get_all_output_keys. destruct (get_output_keys _ _ _ _) as [l|] eqn:E; [|discriminate].
  destruct (Nat.eqb_spec (length offs) (length l)) as [El|]; [|discriminate]. intros [= <-].
  apply get_output_keys_all in E. now rewrite <- El, firstn_all in E.
Qed.

Lemma collect_outputs_spec x h outs :
  scan_agrees h x -> collect_outputs d m_scan_table x h (ring_indices x) = Some outs ->
  Forall2 (is_output (in_amount x)) (take (length outs) (ring_indices x)) outs.
Proof.
  intros Ha. unfold collect_outputs. destruct (m_scan_table !! h ≫= _) as [l|] eqn:El.
  2: { intros E%get_all_output_keys_spec. rewrite firstn_all2; [assumption|]. apply Forall2_length in E. lia. }
  apply Ha in El. case_match; [|now intros [= <-]]. destruct (get_all_output_keys _ _ _) as [l'|] eqn:E'; [|discriminate].
  intros [= <-]. apply get_all_output_keys_spec in E'. rewrite firstn_all2.
  - rewrite <- (firstn_skipn (length l) (ring_indices x)). now apply Forall2_app.
  - apply Forall2_length in E'. rewrite length_skipn in E'. rewrite length_app. lia.
Qed.

(** What the loop over the offsets leaves in [pmax]. *)
Definition max_last (os : list output_data_t) (pmax : Z) : Z :=
  match last os with Some o => Z.max pmax (od_height o) | None => pmax end.

Lemma scan_loop_spec amount outs offs : forall count keys pmax keys' pmax',
  (forall j i o, offs !! j = Some i -> outs !! (count + j)%nat = Some o -> is_output amount i o) ->
  scan_loop d amount outs offs count keys pmax = (true, keys', pmax') ->
  exists os, Forall2 (is_output amount) offs os /\ Forall (fun o => is_tx_spendtime_unlocked d (od_unlock_height o) = true) os /\
    keys' = keys ++ (member <$> os) /\ pmax' = max_last os pmax.
Proof.
  induction offs as [|i offs IH]; intros count keys pmax keys' pmax' Ho E; cbn [scan_loop] in E.
  { injection E as <- <-. exists []. cbn. rewrite app_nil_r. auto. }
  destruct (match outs !! count with Some o => Returns o | None => _ end) as [o|] eqn:Eo; [|discriminate].
  assert (Hi : is_output amount i o).
  { destruct (outs !! count) as [o'|] eqn:Ec; [|exact Eo]. injection Eo as ->. apply (Ho 0%nat); [reflexivity|].
    now rewrite Nat.add_0_r. }
  unfold handle_output in E. destruct (is_tx_spendtime_unlocked d (od_unlock_height o)) eqn:Eu; [|discriminate].
  cbn [negb] in E. apply IH in E as (os & F & U & -> & ->).
  - exists (o :: os). split_and!; [now constructor|now constructor|now rewrite <- app_assoc|].
    destruct offs as [|i' offs].
    + apply Forall2_nil_inv_l in F as ->. cbn. destruct (Z.ltb_spec pmax (od_height o)); cbn; lia.
    + apply Forall2_cons_inv_l in F as (o' & os' & _ & _ & ->). reflexivity.
  - intros j i' o' Hj Ho'. apply (Ho (S j)); [assumption|]. now rewrite Nat.add_succ_r.
Qed.

Lemma check_ringct_input_spec x h pmax keys pmax' :
  scan_agrees h x -> check_ringct_input d m_scan_table x h pmax = (true, keys, pmax') ->
  exists os, ring_of x os /\ keys = member <$> os /\ pmax' = max_last os pmax.
Proof.
  intros Ha. unfold check_ringct_input, scan_outputkeys_for_indexes.
  destruct (length (output_relative_offsets x) =? 0)%nat; [discriminate|].
  destruct (collect_outputs _ _ _ _ _) as [outs|] eqn:Ec; [|discriminate].
  destruct (scan_loop _ _ _ _ _ _ _) as [[ok ks] pm] eqn:Es. destruct ok; [|discriminate]. cbn [negb].
  intros [= _ <- <-]. apply collect_outputs_spec in Ec; [|assumption]. apply scan_loop_spec in Es as (os & F & U & -> & ->).
  - exists os. split; [now split|auto].
  - intros j i o Hi Ho. cbn in Ho. pose proof (lookup_lt_Some _ _ _ Ho) as Hl.
    apply (Forall2_lookup_r _ _ _ j o) in Ec as (i' & Hi' & Hio); [|assumption].
    rewrite lookup_take_lt in Hi' by assumption. unfold ring_indices in Hi'. congruence.
Qed.

Lemma check_each_input_spec ins h : forall tvc pmax pubkeys tvc' pmax' pubkeys',
  (forall x, txin_from_key x ∈ ins -> scan_agrees h x) ->
  check_each_input d m_scan_table ins h tvc pmax pubkeys = (true, tvc', pmax', pubkeys') ->
  exists (xs : list txin_from_key_t) (rings : list (list output_data_t)), ins = txin_from_key <$> xs /\ Forall2 ring_of xs rings /\ tvc' = tvc /\
    pubkeys' = pubkeys ++ (ring_keys <$> rings) /\ Forall (fun x => output_key_image x ∉ m_spent_keys d) xs /\
    pmax <= pmax' /\ Forall (fun os => max_last os 0 <= Z.max 0 pmax') rings /\
    (forall n, pmax <= n -> Forall (fun os => max_last os 0 <= n) rings -> pmax' <= n).
Proof.
  induction ins as [|[g|x] ins IH]; intros tvc pmax pubkeys tvc' pmax' pubkeys' Ha E; cbn [check_each_input] in E; [|discriminate|].
  { injection E as <- <- <-. exists [], []. cbn. rewrite app_nil_r. split_and!; auto; try lia; constructor. }
  destruct (length (output_relative_offsets x) =? 0)%nat; [discriminate|].
  destruct (have_tx_keyimg_as_spent d (output_key_image x)) eqn:Es; [discriminate|].
  destruct (check_ringct_input _ _ _ _ _) as [[ok keys] pm] eqn:Ei. destruct ok; [|discriminate]. cbn [negb] in E.
  apply check_ringct_input_spec in Ei as (os & Hr & -> & ->); [|apply Ha; constructor].
  apply IH in E as (xs & rings & -> & F & -> & -> & U & Hle & Hm & Hn); [|intros y Hy; apply Ha; now constructor].
  unfold have_tx_keyimg_as_spent, has_output_key_image in Es. rewrite bool_decide_eq_false in Es.
  assert (Hpm : pmax <= max_last os pmax /\ max_last os 0 <= Z.max 0 (max_last os pmax))
    by (unfold max_last; destruct (last os); lia).
  exists (x :: xs), (os :: rings). split_and!; [reflexivity|now constructor|reflexivity|now rewrite <- app_assoc|now constructor|lia| |].
  - constructor; [lia|assumption].
  - intros n Hp [Ho Hr']%Forall_cons. apply Hn; [|assumption]. unfold max_last in *. destruct (last os); lia.
Qed.

Lemma get_from_key_all xs : result_mapM get_from_key (txin_from_key <$> xs) = Returns xs.
Proof. induction xs as [|x xs IH]; [reflexivity|]. cbn. now rewrite IH. Qed.

(** The signatures of an expanded transaction. *)
Definition signed (tx : transaction) (xs : list txin_from_key_t) (rings : list (list output_data_t)) (sc : rctDataSizeChecked)
    (m : hash) : Prop :=
  maybeSizeCheckedRctData (ringct tx) = Some sc /\ get_ring_signature_message sc = Some m /\
  forall i x os, xs !! i = Some x -> rings !! i = Some os ->
    exists sig pseudo, CLSAGs (p (ringct tx)) !! i = Some sig /\ pseudo_input_commits (p (ringct tx)) !! i = Some pseudo /\
      u_signer_key_image sig = output_key_image x /\ verify_unsafe_clsag_signature m sig (ring_keys os) pseudo = true.

Lemma verify_clsag_signatures_true order rv :
  order ≡ₚ seq 0 (length (decoys (sc_basic rv))) -> verify_clsag_signatures order rv = true ->
  length (sc_pseudo_input_commits rv) = length (decoys (sc_basic rv)) /\
  exists m, get_ring_signature_message rv = Some m /\ forall i, (i < length (decoys (sc_basic rv)))%nat ->
    verify_unsafe_clsag_signature m (nth i (sc_CLSAGs rv) no_clsag) (nth i (decoys (sc_basic rv)) [])
      (nth i (sc_pseudo_input_commits rv) 0) = true.
Proof.
  intros Hp E. assert (Hl : length (sc_pseudo_input_commits rv) = length (decoys (sc_basic rv))).
  { unfold verify_clsag_signatures in E. destruct (Nat.eqb_spec (length (sc_pseudo_input_commits rv)) (length (decoys (sc_basic rv)))); [assumption|discriminate]. }
  split; [assumption|]. destruct (get_ring_signature_message rv) as [m|] eqn:Em.
  - exists m. split; [reflexivity|]. rewrite (verify_clsag_signatures_all _ rv m) in E by assumption.
    rewrite forallb_forall in E. intros i Hi. apply E, in_seq. lia.
  - unfold verify_clsag_signatures in E. rewrite Em in E. destruct (negb _) in E; discriminate.
Qed.

Lemma check_signatures_spec tx xs (rings : list (list output_data_t)) :
  (forall n, schedule n ≡ₚ seq 0 n) -> vin (prefix tx) = txin_from_key <$> xs -> length xs = length rings ->
  check_signatures tx (ring_keys <$> rings) = Returns true ->
  decoys (basic (ringct tx)) = ring_keys <$> rings /\ exists sc m, signed tx xs rings sc m.
Proof.
  intros Hs Hv Hl. unfold check_signatures. rewrite Hv, get_from_key_all, length_fmap. cbn [mbind result_bind].
  destruct (Z.eqb_spec (type (basic (ringct tx))) RCTTypeCLSAG); [|discriminate]. cbn [negb].
  case_bool_decide as Hd; [|discriminate]. cbn [negb].
  destruct (Nat.eqb_spec (length (CLSAGs (p (ringct tx)))) (length xs)) as [Hc|]; [|discriminate]. cbn [negb].
  case_bool_decide as Hk; [|discriminate]. cbn [negb].
  destruct (maybeSizeCheckedRctData (ringct tx)) as [sc|] eqn:Esc; [|discriminate]. intros [= Hok].
  split; [congruence|]. pose proof Esc as Esc'. unfold maybeSizeCheckedRctData in Esc'.
  destruct (negb _); [discriminate|]. destruct (rule_17_ringct_should_contain_only_one_range_proof _) as [bp|]; [|discriminate].
  cbn [mbind option_bind] in Esc'. destruct (negb _); [discriminate|]. destruct (negb _); [discriminate|]. injection Esc' as E.
  apply verify_clsag_signatures_true in Hok as (Hpl & m & Hm & Hall); [|subst sc; cbn [sc_basic]; apply Hs].
  exists sc, m. unfold signed. split_and!; [assumption|assumption|]. intros i x os Hx Hos.
  pose proof (lookup_lt_Some _ _ _ Hx) as Hi. assert (Hdl : length (decoys (sc_basic sc)) = length rings).
  { subst sc. cbn [sc_basic]. now rewrite <- Hd, length_fmap. }
  specialize (Hall i ltac:(lia)). subst sc. cbn [sc_basic sc_CLSAGs sc_pseudo_input_commits] in *.
  destruct (lookup_lt_is_Some_2 (CLSAGs (p (ringct tx))) i ltac:(lia)) as [sig Hsig].
  destruct (lookup_lt_is_Some_2 (pseudo_input_commits (p (ringct tx))) i ltac:(lia)) as [pseudo Hpseudo].
  exists sig, pseudo. split_and!; [assumption|assumption| |].
  - apply (f_equal (fun l => l !! i)) in Hk. rewrite !list_lookup_fmap, Hx, Hsig in Hk. now injection Hk as <-.
  - rewrite (nth_lookup_Some _ _ _ _ Hsig), (nth_lookup_Some _ _ _ _ Hpseudo), <- Hd in Hall.
    erewrite (nth_lookup_Some _ i) in Hall; [exact Hall|]. now rewrite list_lookup_fmap, Hos.
Qed.

Lemma expand_transaction_2_spec tx h pubkeys tx' :
  expand_transaction_2 tx h pubkeys = Returns (tx', true) ->
  prefix tx' = prefix tx /\ message (basic (ringct tx')) = h.
Proof.
  unfold expand_transaction_2. repeat (case_match; try discriminate). intros E.
  apply result_bind_inv in E as (xs & _ & E). now injection E as <-.
Qed.

(** Everything [check_inputs] has established when it returns [true]. *)
Record inputs_accepted (tx tx' : transaction) (pmax : Z) (h : hash) (xs : list txin_from_key_t) (rings : list (list output_data_t))
    (sc : rctDataSizeChecked) (m : hash) : Prop := {
  ia_hash : get_transaction_prefix_hash tx = Returns h;
  ia_vin : vin (prefix tx) = txin_from_key <$> xs;
  ia_prefix : prefix tx' = prefix tx;
  ia_version : version (prefix tx) = 2;
  ia_outputs : (2 <= length (vout (prefix tx)))%nat;
  ia_distinct : NoDup (output_key_image <$> xs);
  ia_unspent : Forall (fun x => output_key_image x ∉ m_spent_keys d) xs;
  ia_rings : Forall2 ring_of xs rings;
  ia_ring_size : Forall (fun os => length os = 32%nat) rings;
  ia_message : message (basic (ringct tx')) = h;
  ia_decoys : decoys (basic (ringct tx')) = ring_keys <$> rings;
  ia_signed : signed tx' xs rings sc m;
  ia_age : pmax ⊞ CRYPTONOTE_DEFAULT_TX_SPENDABLE_AGE <= height d;
  ia_max : Forall (fun os => max_last os 0 <= pmax) rings /\ 0 <= pmax;
  ia_least n : 0 <= n -> Forall (fun os => max_last os 0 <= n) rings -> pmax <= n }.

Lemma mixin_range_bounds xs : forall lo hi lo' hi',
  foldl (fun '(lo, hi) i => match i with
         | txin_from_key x => let ring_mixin := Z.of_nat (length (output_relative_offsets x)) ⊟ 1 in
                              (if ring_mixin <? lo then ring_mixin else lo, if hi <? ring_mixin then ring_mixin else hi)
         | _ => (lo, hi) end) (lo, hi) (txin_from_key <$> xs) = (lo', hi') ->
  lo' <= lo /\ hi <= hi' /\ Forall (fun x => lo' <= Z.of_nat (length (output_relative_offsets x)) ⊟ 1 <= hi') xs.
Proof.
  induction xs as [|x xs IH]; intros lo hi lo' hi' E; cbn [fmap list_fmap foldl] in E.
  - injection E as <- <-. split_and!; [lia|lia|constructor].
  - cbv zeta in E. apply IH in E as (E1 & E2 & E3). revert E1 E2. set (n := Z.of_nat _ ⊟ 1).
    destruct (Z.ltb_spec n lo), (Z.ltb_spec hi n); intros; split_and!; try lia; constructor; auto; unfold n in *; lia.
Qed.

Lemma ring_size_of xs (x : txin_from_key_t) :
  x ∈ xs -> mixin_range (txin_from_key <$> xs) = (mixin, mixin) ->
  Z.of_nat (length (output_relative_offsets x)) < 2 ^ 64 -> length (output_relative_offsets x) = 32%nat.
Proof.
  intros Hx E Hf. apply mixin_range_bounds in E as (_ & _ & E). rewrite Forall_forall in E. specialize (E x Hx).
  unfold mixin, u64_sub, wrap in E. destruct (length (output_relative_offsets x)) as [|n] eqn:En.
  - change ((Z.of_nat 0 - 1) mod 2 ^ 64) with (2 ^ 64 - 1) in E. lia.
  - rewrite Z.mod_small in E by lia. lia.
Qed.

(** Vectors have fewer than 2^64 elements. *)
Definition sizes_fit (tx : transaction) : Prop :=
  forall x, txin_from_key x ∈ vin (prefix tx) -> Z.of_nat (length (output_relative_offsets x)) < 2 ^ 64.

Definition scan_table_ok (tx : transaction) : Prop :=
  forall h x, get_transaction_prefix_hash tx = Returns h -> txin_from_key x ∈ vin (prefix tx) -> scan_agrees h x.

Lemma check_inputs_accepted tx tvc tx' tvc' pmax :
  (forall n, schedule n ≡ₚ seq 0 n) -> sizes_fit tx -> scan_table_ok tx ->
  check_inputs d m_scan_table tx tvc = Returns (true, tx', tvc', pmax) ->
  tvc' = tvc /\ exists h xs rings sc m, inputs_accepted tx tx' pmax h xs rings sc m.
Proof.
  intros Hs Hf Ha E. unfold check_inputs in E. apply result_bind_inv in E as (h & Hh & E).
  destruct (rule_21_ringct_should_have_at_least_two_outputs (vout (prefix tx))) eqn:E21; [|discriminate]. cbn [negb] in E.
  destruct (mixin_range (vin (prefix tx))) as [lo hi] eqn:Em.
  destruct (Z.eqb_spec lo hi) as [<-|]; [|discriminate]. cbn [negb] in E.
  destruct (Z.eqb_spec lo mixin) as [->|]; [|discriminate]. cbn [negb] in E.
  destruct (Z.ltb_spec tx_version (version (prefix tx))); [discriminate|].
  destruct (Z.ltb_spec (version (prefix tx)) tx_version); [discriminate|].
  apply result_bind_inv in E as (xs & Hxs & E).
  destruct (rule_18_ringct_input_key_images_should_be_sorted _) eqn:E18; [|discriminate]. cbn [negb] in E.
  destruct (check_each_input _ _ _ _ _ _ _) as [[[ok tvc1] pm] pubkeys] eqn:Ei. destruct ok; [|discriminate]. cbn [negb] in E.
  apply check_each_input_spec in Ei as (xs' & rings & Hv & F & -> & Hpk & U & Hpm & Hmax & Hn); [|intros x Hx; exact (Ha h x Hh Hx)].
  cbn [app] in Hpk. subst pubkeys.
  rewrite Hv, get_from_key_all in Hxs. injection Hxs as <-.
  destruct (Z.ltb_spec (height d) (pm ⊞ CRYPTONOTE_DEFAULT_TX_SPENDABLE_AGE)) as [|Hage]; [discriminate|].
  apply result_bind_inv in E as ([tx1 ok1] & Hx & E). destruct ok1; [|discriminate]. cbn [negb] in E.
  apply result_bind_inv in E as (ok2 & Hsig & E). injection E as -> -> <- <-. split; [reflexivity|].
  apply expand_transaction_2_spec in Hx as [Hp Hm].
  apply check_signatures_spec with (xs := xs') in Hsig as (Hd & sc & m & Hsg);
    [|assumption|congruence|now apply Forall2_length in F].
  exists h, xs', rings, sc, m. split; auto.
  - unfold tx_version in *. lia.
  - apply Nat.leb_le. exact E21.
  - apply rule_18_NoDup in E18. now apply NoDup_fmap_1 in E18.
  - apply Forall_forall. intros os Hos. apply list_elem_of_lookup in Hos as [i Hi].
    destruct (Forall2_lookup_r _ _ _ _ _ F Hi) as (x & Hx & [Hr _]). apply Forall2_length in Hr.
    unfold ring_indices in Hr. rewrite length_absolute in Hr. rewrite <- Hr.
    rewrite Hv in Em. apply (ring_size_of xs'); [eapply list_elem_of_lookup_2, Hx|assumption|]. apply Hf. rewrite Hv.
    apply list_elem_of_fmap. eexists. split; [reflexivity|]. eapply list_elem_of_lookup_2, Hx.
  - split; [|assumption]. eapply Forall_impl; [exact Hmax|]. cbn. intros; lia.
Qed.

(** ** The age of ring members *)

Lemma is_output_row a i o :
  db_ok d -> is_output a i o ->
  exists l row, m_output_amounts d !! a = Some l /\ 0 <= i /\ l !! Z.to_nat i = Some row /\ od_height o = row_height row.
Proof.
  intros Hok. unfold is_output, get_output_key, find_output. destruct (m_output_amounts d !! a) as [l|] eqn:El; [|discriminate].
  cbn. destruct (List.find _ l) as [row|] eqn:Ef; [|discriminate]. intros [= <-]. apply List.find_some in Ef as [Hin Hi].
  apply list_elem_of_In, list_elem_of_lookup in Hin as [j Hj]. pose proof (proj2 (ok_amounts _ Hok a l El) j row Hj) as Hx.
  exists l, row. split_and!; [reflexivity|lia|now replace (Z.to_nat i) with j by lia|]. unfold output_data. now destruct (a =? 0).
Qed.

Lemma is_output_mono n a i j o o' :
  db_ok d -> heights_upto n d -> is_output a i o -> is_output a j o' -> i <= j -> od_height o <= od_height o' <= n.
Proof.
  intros Hok Hh Ho Ho' Hij. destruct (is_output_row _ _ _ Hok Ho) as (l & row & El & Hi & Hr & ->).
  destruct (is_output_row _ _ _ Hok Ho') as (l' & row' & El' & Hj & Hr' & ->). assert (l' = l) as -> by congruence.
  destruct (Hh a l El) as [Hs Hf]. rewrite Forall_forall in Hf.
  split; [|apply Hf; eapply list_elem_of_lookup_2, Hr'].
  destruct (decide (i = j)) as [<-|Hne]; [rewrite Hr in Hr'; injection Hr' as ->; lia|].
  assert (Hlt : (Z.to_nat i < Z.to_nat j)%nat) by lia. revert Hlt Hr Hr'. generalize (Z.to_nat i) (Z.to_nat j). clear -Hs.
  intros i j. revert i j. induction l as [|x l IH]; intros [|i] [|j] Hlt Hr Hr'; cbn in *; try discriminate; try lia.
  - apply Sorted.StronglySorted_inv in Hs as [_ Hs]. injection Hr as ->. rewrite Forall_forall in Hs. apply Hs.
    apply list_elem_of_fmap_2. eapply list_elem_of_lookup_2, Hr'.
  - apply Sorted.StronglySorted_inv in Hs as [Hs _]. eapply (IH Hs); [|eassumption..]. lia.
Qed.

Lemma ring_heights n x os :
  db_ok d -> heights_upto n d -> StronglySorted Z.lt (ring_indices x) -> ring_of x os ->
  Forall (fun o => od_height o <= max_last os 0) os.
Proof.
  intros Hok Hh Hs [F _]. apply Forall_forall. intros o [i Hi]%list_elem_of_lookup. unfold max_last.
  destruct (last os) as [o'|] eqn:El; [|apply last_None in El; subst; now rewrite lookup_nil in Hi].
  rewrite last_lookup in El. destruct (Forall2_lookup_r _ _ _ _ _ F Hi) as (z & Hz & Ho).
  destruct (Forall2_lookup_r _ _ _ _ _ F El) as (z' & Hz' & Ho').
  assert (Hzz : z <= z').
  { pose proof (lookup_lt_Some _ _ _ Hi). destruct (decide (i = pred (length os))) as [->|Hne]; [assert (z = z') as -> by congruence; lia|].
    assert (Hlt : (i < pred (length os))%nat) by lia. revert Hlt Hz Hz'. generalize (pred (length os)). clear -Hs.
    intros j. revert i j. induction Hs as [|y l _ IH Hy]; intros [|i] [|j] Hlt Hz Hz'; cbn in *; try discriminate; try lia.
    - injection Hz as ->. rewrite Forall_forall in Hy. apply Z.lt_le_incl, Hy. eapply list_elem_of_lookup_2, Hz'.
    - eapply IH; [|eassumption..]. lia. }
  pose proof (is_output_mono n _ _ _ _ _ Hok Hh Ho Ho' Hzz). lia.
Qed.

(** The chain was read past the spendable age of the output. *)
Definition old (o : output_data_t) : Prop := od_height o + CRYPTONOTE_DEFAULT_TX_SPENDABLE_AGE <= height d.

(** The last member of every ring is old; so is every member of a ring whose indices
    ascend (which rule 7 gives when the offsets do not overflow). *)
Definition rings_old (xs : list txin_from_key_t) (rings : list (list output_data_t)) : Prop :=
  Forall (fun os => exists o, last os = Some o /\ old o) rings /\
  Forall2 (fun x os => StronglySorted Z.lt (ring_indices x) -> Forall old os) xs rings.

Lemma accepted_rings_old `{CachedSize} init (hist : list entry) tx tx' pmax h xs rings sc m :
  inputs_accepted tx tx' pmax h xs rings sc m ->
  db_run init hist d -> fits 64 (height d + CRYPTONOTE_DEFAULT_TX_SPENDABLE_AGE) -> rings_old xs rings.
Proof.
  intros [? Hv ? ? ? ? U F Hlen ? ? ? Hage [Hmax H0'] Hleast] Hr Hfit.
  apply run_built in Hr. pose proof (an_ok _ _ (built_answers _ _ _ Hr)) as Hok. pose proof (built_heights _ _ _ Hr) as Hh.
  assert (Hp : Forall (fun os => max_last os 0 <= Z.max 0 (height d - 1)) rings).
  { apply Forall_forall. intros os [i Hi]%list_elem_of_lookup. destruct (Forall2_lookup_r _ _ _ _ _ F Hi) as (x & _ & [F' _]).
    unfold max_last. destruct (last os) as [o|] eqn:El; [|lia]. rewrite last_lookup in El.
    destruct (Forall2_lookup_r _ _ _ _ _ F' El) as (z & _ & Ho). pose proof (is_output_mono _ _ _ _ _ _ Hok Hh Ho Ho ltac:(lia)). lia. }
  apply Hleast in Hp; [|lia]. rewrite u64_add_small in Hage by (unfold fits, CRYPTONOTE_DEFAULT_TX_SPENDABLE_AGE, height in *; lia).
  split.
  - rewrite Forall_forall in *. intros os Hos. specialize (Hmax os Hos). specialize (Hlen os Hos). unfold max_last in Hmax.
    destruct (last os) as [o|] eqn:El; [|apply last_None in El; now subst]. exists o. split; [reflexivity|]. unfold old. lia.
  - apply Forall2_same_length_lookup_2; [exact (Forall2_length _ _ _ F)|]. intros i x os Hx Hi Hs.
    pose proof (Forall2_lookup_lr _ _ _ _ _ _ F Hx Hi) as Hro. rewrite Forall_forall in Hmax.
    specialize (Hmax os ltac:(eapply list_elem_of_lookup_2, Hi)).
    eapply Forall_impl; [apply (ring_heights _ _ _ Hok Hh Hs Hro)|]. unfold old. cbn. intros; lia.
Qed.

(** C3: An accepted transaction spends existing, unlocked, unspent outputs of sufficient age,
    with a valid signature.  When [check_ringct_inputs] returns [true] then the transaction has at
    least two outputs; its inputs have distinct key images, none of which is
    spent on the chain; the ring of each input consists of the 32 outputs of the
    chain under its offsets, all unlocked; the height it reports bounds that of the last member of every ring,
    and the spendable age (4 blocks) after it the chain has been reached; and with the rings taken from the chain
    and the prefix hash as message, each signature is accepted for the key image of its input.
    On every database that additions and removals of blocks lead to, the last member of
    every ring is therefore at least 4 blocks old, and every member of a ring whose indices
    ascend is.  (Offsets that overflow 64 bits pass the check and give indices that do not ascend: then only
    the last member is known to be old, [wrapped_offsets_hide_young_member].) *)
Theorem accepted_inputs_sound `{CachedSize} (tx : transaction) tvc tx' tvc' pmax :
  (forall n, schedule n ≡ₚ seq 0 n) -> sizes_fit tx -> scan_table_ok tx ->
  check_inputs d m_scan_table tx tvc = Returns (true, tx', tvc', pmax) ->
  exists h xs rings sc m,
    get_transaction_prefix_hash tx = Returns h /\ vin (prefix tx) = txin_from_key <$> xs /\ prefix tx' = prefix tx /\
    (2 <= length (vout (prefix tx)))%nat /\ NoDup (output_key_image <$> xs) /\
    Forall (fun x => has_output_key_image (output_key_image x) d = false) xs /\
    Forall2 ring_of xs rings /\ Forall (fun os => length os = 32%nat) rings /\
    (Forall (fun os => max_last os 0 <= pmax) rings /\ pmax ⊞ CRYPTONOTE_DEFAULT_TX_SPENDABLE_AGE <= height d) /\
    message (basic (ringct tx')) = h /\ decoys (basic (ringct tx')) = ring_keys <$> rings /\ signed tx' xs rings sc m /\
    (forall init hist, db_run init hist d -> fits 64 (height d + CRYPTONOTE_DEFAULT_TX_SPENDABLE_AGE) -> rings_old xs rings).
Proof.
  intros Hs Hf Ha E. destruct (check_inputs_accepted _ _ _ _ _ Hs Hf Ha E) as (_ & h & xs & rings & sc & m & Hacc).
  exists h, xs, rings, sc, m. pose proof (fun init hist => accepted_rings_old init hist _ _ _ _ _ _ _ _ Hacc) as Hold.
  destruct Hacc as [? ? ? ? ? ? U ? ? ? ? ? ? [? ?] ?]. split_and!; auto.
  eapply Forall_impl; [exact U|]. intros x Hx. unfold has_output_key_image. now apply bool_decide_eq_false.
Qed.

End Sound.

(** ** The chain as the pool sees it *)

Section Instance_.
Context `{Sodium} `{Sha3} `{UndefinedShift} `{Schedule}.
Context (d : chain_db) (m_scan_table : scan_table_t).

(** The checks do not throw on what the pool passes to them ([check_inputs_returns]). *)
Definition chain_of : Chain := {|
  chain_check_fee := check_fee;
  chain_check_ringct_outputs := check_ringct_outputs;
  chain_check_ringct_inputs tx h id tvc _ :=
    match check_ringct_inputs d m_scan_table tx id tvc with Returns r => r | Throws => (false, (tx, h, id, tvc)) end;
  chain_current_height := height d;
  chain_block_id_by_height := get_block_id_by_height d;
  chain_have_tx_keyimges_as_spent := have_tx_keyimges_as_spent d;
  chain_have_tx := have_tx d;
  chain_already_generated_coins h := match get_already_generated_coins d h with Returns c => c | Throws => 0 end |}.

(** Exceptions come from inputs that are not spends, which the callers exclude, and from
    a prefix that cannot be serialized. *)
Lemma check_inputs_returns tx tvc h :
  check_inputs_types_supported tx = true -> get_transaction_prefix_hash tx = Returns h ->
  exists r, check_inputs d m_scan_table tx tvc = Returns r.
Proof.
  intros Ht Hh. assert (Hx : exists xs, result_mapM get_from_key (vin (prefix tx)) = Returns xs).
  { unfold check_inputs_types_supported in Ht. induction (vin (prefix tx)) as [|[g|x] l IH]; cbn in *; [eauto|discriminate|].
    destruct (IH Ht) as [xs ->]. cbn. eauto. }
  destruct Hx as [xs Hx]. unfold check_inputs. rewrite Hh. cbn [mbind result_bind]. rewrite Hx. cbn [mbind result_bind].
  case_match; [eauto|]. destruct (mixin_range _) as [lo hi]. do 5 (case_match; [eauto|]).
  destruct (check_each_input _ _ _ _ _ _ _) as [[[ok tvc1] pm] pk]. do 2 (case_match; [eauto|]).
  assert (He : exists tx1 ok1, expand_transaction_2 tx h pk = Returns (tx1, ok1) /\ prefix tx1 = prefix tx).
  { unfold expand_transaction_2. rewrite Hx. cbn [mbind result_bind]. repeat (case_match; eauto). }
  destruct He as (tx1 & ok1 & -> & Hp). cbn [mbind result_bind]. destruct (negb ok1); [eauto|].
  assert (Hc : exists b, check_signatures tx1 pk = Returns b).
  { unfold check_signatures. rewrite Hp, Hx. cbn [mbind result_bind]. repeat (case_match; eauto). }
  destruct Hc as [b ->]. cbn. eauto.
Qed.

Lemma expand_keeps_prefix tx h pk tx' b : expand_transaction_2 tx h pk = Returns (tx', b) -> prefix tx' = prefix tx.
Proof.
  unfold expand_transaction_2. repeat case_match; try (intros [= <- _]; reflexivity).
  intros E. apply result_bind_inv in E as (xs & _ & E). now injection E as <- _.
Qed.

Lemma raise_keeps_added fs tvc : added_to_pool ∉ fs -> m_added_to_pool (raise fs tvc) = m_added_to_pool tvc.
Proof.
  revert tvc. induction fs as [|f fs IH]; intros tvc Hn; [reflexivity|]. apply not_elem_of_cons in Hn as [Hf Hn].
  change (raise (f :: fs) tvc) with (raise fs (assign f true tvc)). rewrite IH by assumption. cbn. now rewrite bool_decide_false by congruence.
Qed.

Lemma check_each_input_added ins h : forall tvc pmax pk ok tvc' pmax' pk',
  check_each_input d m_scan_table ins h tvc pmax pk = (ok, tvc', pmax', pk') -> m_added_to_pool tvc' = m_added_to_pool tvc.
Proof.
  induction ins as [|[g|x] ins IH]; intros tvc pmax pk ok tvc' pmax' pk' E; cbn [check_each_input] in E;
    [now injection E as _ <- _ _|now injection E as _ <- _ _|].
  repeat case_match; try (injection E as _ <- _ _; reflexivity). eapply IH, E.
Qed.

Lemma check_inputs_frame tx tvc ok tx' tvc' pmax :
  check_inputs d m_scan_table tx tvc = Returns (ok, tx', tvc', pmax) ->
  prefix tx' = prefix tx /\ m_added_to_pool tvc' = m_added_to_pool tvc.
Proof.
  intros E. unfold check_inputs in E. apply result_bind_inv in E as (h & _ & E).
  case_match; [now injection E as _ <- <- _|]. destruct (mixin_range _) as [lo hi].
  do 4 (case_match; [now injection E as _ <- <- _|]). apply result_bind_inv in E as (xs & _ & E).
  case_match; [now injection E as _ <- <- _|]. destruct (check_each_input _ _ _ _ _ _ _) as [[[ok1 tvc1] pm] pk] eqn:Ei.
  apply check_each_input_added in Ei. do 2 (case_match; [now injection E as _ <- <- _|]).
  apply result_bind_inv in E as ([tx1 b] & Ex & E). apply expand_keeps_prefix in Ex.
  case_match; [now injection E as _ <- <- _|]. apply result_bind_inv in E as (b' & _ & E). now injection E as _ <- <- _.
Qed.

Lemma check_ringct_inputs_frame tx id tvc r :
  check_ringct_inputs d m_scan_table tx id tvc = Returns r ->
  prefix r.2.1.1.1 = prefix tx /\ m_added_to_pool r.2.2 = m_added_to_pool tvc.
Proof.
  intros E. unfold check_ringct_inputs in E. apply result_bind_inv in E as ([[[ok tx'] tvc'] pm] & E1 & E).
  apply check_inputs_frame in E1. do 2 (case_match; [now injection E as <-|]). apply result_bind_inv in E as (i & _ & E).
  now injection E as <-.
Qed.

(** The chain keeps what it promises to the pool. *)
Lemma chain_of_laws : @ChainLaws chain_of.
Proof.
  intros tx h id tvc b. cbn. destruct (check_ringct_inputs _ _ _ _ _) as [r|] eqn:E; [|reflexivity].
  exact (proj1 (check_ringct_inputs_frame _ _ _ _ E)).
Qed.

Lemma chain_of_keeps_flags : @chain_keeps_flags chain_of.
Proof.
  split; cbn.
  - intros tx tvc. unfold check_ringct_outputs. repeat case_match; cbn [snd]; try reflexivity; apply raise_keeps_added; set_solver.
  - intros tx h id tvc b. destruct (check_ringct_inputs _ _ _ _ _) as [r|] eqn:E; [|reflexivity].
    exact (proj2 (check_ringct_inputs_frame _ _ _ _ E)).
Qed.

#[local] Existing Instance chain_of.

(** What enters the pool is valid on the chain.  With the pool connected to the
    chain, a transaction that does not come from a block is added only if it has version 2,
    pays the fee of its weight, is within the weight limit, has hidden amounts with safe
    points, and its inputs are accepted against the chain: existing, unlocked and unspent outputs
    with valid ring signatures. *)
Theorem pool_entry_checked now tx id bd w tvc relay rel (s s' : pool) tvc' :
  (forall n, schedule n ≡ₚ seq 0 n) -> sizes_fit tx -> scan_table_ok d m_scan_table tx -> relay <> PoolTable.block ->
  add_tx now tx id bd w tvc relay rel s = (s', tvc', true) ->
  version (prefix tx) = 2 /\ check_fee w (get_tx_fee tx) = true /\ w <= get_transaction_weight_limit /\
  check_ringct_outputs tx tvc = (true, tvc) /\
  exists tx' pmax h xs rings sc m, inputs_accepted d tx tx' pmax h xs rings sc m.
Proof.
  intros Hs Hf Ha Hr E. unfold add_tx in E. rewrite bool_decide_false in E by assumption. cbn [negb andb] in E.
  do 3 (case_match; [discriminate|]). destruct (tx_fee_v1_checked tx) as [fee|fl] eqn:Ef; [|discriminate].
  destruct (chain_check_fee w fee) eqn:Efee; [|discriminate]. cbn [negb] in E.
  destruct (Z.ltb_spec get_transaction_weight_limit w); [discriminate|]. case_match; [discriminate|].
  destruct (chain_check_ringct_outputs tx tvc) as [ook tvc1] eqn:Eo. destruct ook; [|discriminate]. cbn [negb] in E.
  assert (tvc1 = tvc) as ->.
  { cbn in Eo. unfold check_ringct_outputs in Eo. repeat case_match; congruence. }
  destruct now as [rt rt']. destruct (chain_check_ringct_inputs tx 0 null_hash _ false) as [iok [[[tx1 mh] mid] tvc2]] eqn:Ei.
  destruct iok; [|discriminate]. clear E. cbn in Ei. destruct (check_ringct_inputs _ _ _ _ _) as [r|] eqn:Ec; [|discriminate]. subst r.
  unfold check_ringct_inputs in Ec. apply result_bind_inv in Ec as ([[[ok tx2] tvc3] pm] & Ec & E). destruct ok; [|discriminate].
  destruct (check_inputs_accepted d m_scan_table _ _ _ _ _ Hs Hf Ha Ec) as (_ & h & xs & rings & sc & m & Hacc).
  pose proof (ia_version _ _ _ _ _ _ _ _ _ Hacc) as Hv. unfold tx_fee_v1_checked in Ef. rewrite Hv in Ef. cbn in Ef. injection Ef as <-.
  split_and!; auto. exists tx2, pm, h, xs, rings, sc, m. exact Hacc.
Qed.

End Instance_.

(** ** Examples *)

Section Examples.
Import ModelGroup Key.
#[local] Existing Instance RollingDigest.rolling_sha3.
#[local] Instance no_shift : UndefinedShift := fun _ => 0.
#[local] Instance uncached : CachedSize := fun _ => 0.
#[local] Instance in_order : Schedule := fun n => seq 0 n.

(** A chain of six blocks; the first one has forty outputs. *)
Definition ring_keys_of_owner : list secret_key := Z.of_nat <$> seq 100 40.
Definition wide_block (h : Z) (prev : hash) (keys : list secret_key) : block :=
  {| header := header (block_at h prev []);
     miner_tx := {| prefix := {| version := 2; unlock_height := 0; vin := [txin_gen h];
                                 vout := (fun k => {| amount := 5; target := txout_to_key (to_pk k) |}) <$> keys; extra := [] |};
                    ringct := ringct (coinbase_at h) |};
     tx_hashes := [] |}.
Definition wide_entry (b : block) : entry :=
  {| e_blk := b; e_weight := 100; e_long_term_weight := 100; e_difficulty := 1; e_coins := 5; e_txs := [] |}.
Definition hash_of (b : block) : hash := match get_block_hash b 0 with Returns h => h | Throws => [] end.
Fixpoint wide_blocks (n : nat) (h : Z) (prev : hash) : list block :=
  match n with
  | O => []
  | S n => let b := wide_block h prev (if h =? 0 then ring_keys_of_owner else [h]) in b :: wide_blocks n (h + 1) (hash_of b)
  end.
Definition wide_chain : list entry := wide_entry <$> wide_blocks 6 0 null_hash.
Definition wide_db : chain_db := Eval vm_compute in db_after wide_chain.

(** A transaction that spends the fourth of the outputs 0 to 31. *)
Definition spend_input : txin_from_key_t :=
  {| in_amount := 0; output_relative_offsets := 0 :: replicate 31 1; output_key_image := derive_key_image 103 |}.
Definition spend_prefix : transaction_prefix :=
  {| version := 2; unlock_height := 0; vin := [txin_from_key spend_input];
     vout := [ {| amount := 0; target := txout_to_key (to_pk 7) |}; {| amount := 0; target := txout_to_key (to_pk 8) |} ]; extra := [] |}.
Definition spend_ring : list output_public_data :=
  (fun k => {| output_public_key := to_pk k; decoy_commit := RctOps.dummyCommit 5 |}) <$> take 32 ring_keys_of_owner.
Definition two_output_proof : Bulletproof_unsafe :=
  {| u_A := 1; u_S := 2; u_T1 := 3; u_T2 := 4; u_tau := 5; u_mu := 6; u_L := replicate 7 7; u_R := replicate 7 8; u_a := 9; u_b := 10; u_t := 11 |}.
Definition spend_unsigned (h : hash) : rctData :=
  {| basic := {| type := RCTTypeCLSAG; message := h; decoys := [spend_ring]; ecdh_encrypted_data := [9; 10];
                 output_commits := [RctOps.commit 2 7; RctOps.commit 2 9]; fee := 1000000000 |};
     p := {| bulletproofs := [two_output_proof]; CLSAGs := [no_clsag];
             pseudo_input_commits := [RctOps.commit 5 16] |} |}.
Definition spend_tx : result transaction :=
  h ← get_transaction_prefix_hash {| prefix := spend_prefix; ringct := ringct example_ringct_tx |};
  match maybeSizeCheckedRctData (spend_unsigned h) ≫= get_ring_signature_message with
  | None => Throws
  | Some m =>
    sig ← generate_clsag_signature m 103 1 3 16 (RctOps.commit 5 16) spend_ring (fun j => 40 + Z.of_nat j);
    let u := spend_unsigned null_hash in
    Returns {| prefix := spend_prefix; ringct := {| basic := with_decoys [] (basic u); p := with_CLSAGs [toUnsafeCLSAG sig] (p u) |} |}
  end.
Definition signed_tx : transaction := Eval vm_compute in match spend_tx with Returns t => t | Throws => example_ringct_tx end.
Definition spend_context : tx_verification_context := {|
  m_should_be_relayed := false; m_verifivation_failed := false; m_verifivation_impossible := false; m_added_to_pool := false;
  m_low_mixin := false; m_double_spend := false; m_invalid_input := false; m_invalid_output := false; m_too_big := false;
  m_overspend := false; m_fee_too_low := false; m_too_few_outputs := false |}.

Definition spend_checked : bool * transaction * tx_verification_context * Z := Eval vm_compute in
  match check_inputs wide_db ∅ signed_tx spend_context with Returns r => r | Throws => (false, signed_tx, spend_context, 0) end.

Lemma spend_accepted :
  check_inputs wide_db ∅ signed_tx spend_context = Returns (true, spend_checked.1.1.2, spend_checked.1.2, 0).
Proof. vm_cast_no_check (eq_refl (Returns spend_checked)). Qed.

Lemma in_order_permutation n : schedule n ≡ₚ seq 0 n.
Proof. reflexivity. Qed.

Lemma spend_sizes : sizes_fit signed_tx.
Proof. intros x Hx. apply list_elem_of_singleton in Hx. injection Hx as ->. vm_compute. reflexivity. Qed.

Lemma no_scan_table (d : chain_db) tx : scan_table_ok d ∅ tx.
Proof. intros h x _ _ outs E. now rewrite lookup_empty in E. Qed.

Fixpoint add_all (es : list entry) (d : chain_db) : result chain_db :=
  match es with [] => Returns d | e :: es => r ← add_entry e d; add_all es r.1 end.

Lemma run_all es : forall hist d d',
  db_run db_init hist d -> Forall (entry_ok db_init) es -> add_all es d = Returns d' -> db_run db_init (hist ++ es) d'.
Proof.
  induction es as [|e es IH]; intros hist d d' Hr Hok E; cbn in E.
  - injection E as <-. now rewrite app_nil_r.
  - apply result_bind_inv in E as ([d1 prev] & E1 & E). apply Forall_cons in Hok as [He Hok].
    rewrite (cons_middle e hist es), app_assoc. apply (IH _ d1); [|assumption|assumption]. exact (run_add _ _ _ _ _ _ Hr He E1).
Qed.

Definition block_bytes (b : block) : blob := match block_to_blob b with Returns x => x | Throws => [] end.

Lemma wide_entry_ok (b : block) (h : Z) :
  bool_decide (bytes_ok (block_bytes b)) = true -> parse_binary (serialize_block db_init) (block_bytes b) = Some b ->
  vin (prefix (miner_tx b)) = [txin_gen h] -> version (prefix (miner_tx b)) = 2 -> entry_ok db_init (wide_entry b).
Proof.
  intros Hb Hp Hv Hver. split; [|constructor]. split; [|exists h; auto].
  apply (parse_wf _ (block_bytes b)); [now apply bool_decide_eq_true in Hb|exact Hp].
Qed.

Lemma wide_entries_ok : Forall (entry_ok db_init) wide_chain.
Proof.
  unfold wide_chain. apply Forall_fmap. set (bs := wide_blocks 6 0 null_hash). vm_compute in bs. subst bs.
  repeat (apply Forall_cons; split; [eapply wide_entry_ok; vm_compute; reflexivity|]). apply Forall_nil. exact I.
Qed.

Lemma wide_run : db_run db_init wide_chain wide_db.
Proof. apply (run_all wide_chain [] empty_db); [apply run_empty|exact wide_entries_ok|vm_compute; reflexivity]. Qed.

Lemma accepted_inputs_sound_witness :
  exists rings : list (list output_data_t), decoys (basic (ringct spend_checked.1.1.2)) = ring_keys <$> rings /\
    Forall (fun os => length os = 32%nat) rings /\ Forall (fun os => Forall (fun o => od_height o + 4 <= 6) os) rings.
Proof.
  destruct (accepted_inputs_sound wide_db ∅ signed_tx spend_context spend_checked.1.1.2 spend_checked.1.2 0 in_order_permutation spend_sizes (no_scan_table _ _) spend_accepted)
    as (h & xs & rings & sc & m & _ & Hv & _ & _ & _ & _ & _ & Hl & _ & _ & Hd & _ & Hold).
  exists rings. split_and!; [assumption..|].
  destruct (Hold _ _ wide_run ltac:(vm_compute; split; congruence)) as [_ F].
  apply Forall_forall. intros os Hos. apply list_elem_of_lookup in Hos as [i Hi]. destruct (Forall2_lookup_r _ _ _ _ _ F Hi) as (x & Hx & Ho).
  apply Ho. assert (Hin : txin_from_key x ∈ vin (prefix signed_tx)) by (rewrite Hv; apply list_elem_of_fmap_2; eapply list_elem_of_lookup_2, Hx).
  apply list_elem_of_singleton in Hin. injection Hin as ->. apply (bool_decide_unpack _). vm_compute. exact I.
Defined.

Definition spend_bytes : blob := Eval vm_compute in match tx_to_blob signed_tx with Returns x => x | Throws => [] end.
Definition spend_added : pool * tx_verification_context * bool :=
  @add_tx (chain_of wide_db ∅) (1000, 1001) signed_tx (le_bytes 32 9) spend_bytes (Z.of_nat (length spend_bytes)) spend_context
    PoolTable.fluff true (TxPoolSteps.TxPoolSteps.empty_pool 1000000).

Lemma triple_eta {A B} (r : A * B * bool) : r.2 = true -> r = (r.1.1, r.1.2, true).
Proof. destruct r as [[? ?] ?]. cbn. now intros ->. Qed.

Lemma spend_enters_pool : spend_added.2 = true.
Proof. vm_cast_no_check (eq_refl true). Qed.

Lemma pool_entry_checked_witness :
  check_fee (Z.of_nat (length spend_bytes)) (get_tx_fee signed_tx) = true /\ check_ringct_outputs signed_tx spend_context = (true, spend_context).
Proof.
  destruct (pool_entry_checked wide_db ∅ (1000, 1001) signed_tx (le_bytes 32 9) spend_bytes (Z.of_nat (length spend_bytes)) spend_context
    PoolTable.fluff true (TxPoolSteps.TxPoolSteps.empty_pool 1000000) spend_added.1.1 spend_added.1.2 in_order_permutation spend_sizes
    (no_scan_table _ _)) as (_ & Hfee & _ & Hout & _).
  - discriminate.
  - exact (triple_eta spend_added spend_enters_pool).
  - split; assumption.
Defined.

(** Only the height of the last ring member is compared: offsets whose sum exceeds
    64 bits put an output of the top block in front of an old one, and the age that is
    reported is that of the old one. *)
Definition wrapped_input : txin_from_key_t :=
  {| in_amount := 0; output_relative_offsets := [44; 2 ^ 64 - 40]; output_key_image := 5 |}.

Example wrapped_offsets_hide_young_member :
  rule_7_ringct_input_decoys_offsets_should_not_be_zero_except_the_first_one (output_relative_offsets wrapped_input) = true /\
  ring_indices wrapped_input = [44; 4] /\
  (fun o => (od_height o, height wide_db)) <$> get_output_key wide_db 0 44 = Returns (5, 6) /\
  (let r := check_ringct_input wide_db ∅ wrapped_input null_hash 0 in (r.1.1, r.2)) = (true, 0).
Proof. vm_compute. split_and!; reflexivity. Qed.

End Examples.
End TxCheck.
