(* ===== verification/Blockchain.v ===== *)
(** The block chain: [src/src/cryptonote/core/blockchain.cpp].  Adding blocks to the main chain,
    alternative blocks, reorganisation and rollback, on the
    database of [ChainDb] inside the transactions of [LmdbTxn], with the pool of
    [TxPool].

    The methods are computations in a monad of state and exceptions: an exception
    keeps the changes made so far.  The block verification context, which the code
    passes by reference, is part of the state.  Locks are not modelled: every method runs under
    them. *)

From stdpp Require Import gmap sorting.
From S2P Require Import Prelude Hash Config Difficulty Varint Serialization Primality Group ModelGroup Key RctOps VectorOps InnerProduct Bulletproof Clsag RctTypes TxTypes Consensus Coinbase FormatUtils RingCT PoolTable TxPool BlockTemplate ChainDb ChainDbInv LmdbTxn TxCheck.

Module Blockchain.
Import Config Difficulty Serialization.Archive Clsag RctTypes TxTypes Consensus Coinbase FormatUtils TxPool BlockTemplate ChainDb LmdbTxn TxCheck.

Definition CRYPTONOTE_BLOCK_FUTURE_TIME_LIMIT_V2 : Z := 300 * 2.
Definition BLOCKCHAIN_TIMESTAMP_CHECK_WINDOW_V2 : Z := 11.

(** ** State *)

Record block_verification_context := {
  m_added_to_main_chain : bool; b_verifivation_failed : bool; m_marked_as_orphaned : bool; m_already_exists : bool;
  m_partial_block_reward : bool; m_bad_pow : bool }.

(** [= {}] *)
Definition fresh_bvc : block_verification_context :=
  {| m_added_to_main_chain := false; b_verifivation_failed := false; m_marked_as_orphaned := false; m_already_exists := false;
     m_partial_block_reward := false; m_bad_pow := false |}.

Record block_extended_info := {
  bl : block; bei_height : Z; block_cumulative_weight : Z; bei_cumulative_difficulty : Z; bei_already_generated_coins : Z }.

(** What is kept to compute the next difficulty faster. *)
Record difficulty_cache := {
  m_timestamps_and_difficulties_height : Z; m_reset_timestamps_and_difficulties_height : bool;
  m_timestamps : list Z; m_difficulties : list Z;
  m_difficulty_for_next_block_top_hash : hash; m_difficulty_for_next_block : Z }.

(** What is read ahead for incoming blocks; nothing fills [m_blocks_hash_check]. *)
Record block_tables := {
  m_scan_table : scan_table_t; m_blocks_longhash_table : gmap hash hash; m_blocks_hash_check : list (hash * Z) }.

(** The contents of the database: the tables of the chain, the property [max_block_size], and whether an addition or
    removal of a block has failed half-way since the transaction was opened. *)
Record contents := { c_tables : chain_db; c_max_block_size : Z; c_torn : bool }.

Record blockchain := {
  m_db : env contents; m_tx_pool : pool; m_invalid_blocks : gmap hash block_extended_info; dcache : difficulty_cache;
  tabs : block_tables; m_btc_valid : bool; m_batch_success : bool }.

Definition with_env e (s : blockchain) : blockchain :=
  {| m_db := e; m_tx_pool := m_tx_pool s; m_invalid_blocks := m_invalid_blocks s; dcache := dcache s; tabs := tabs s;
     m_btc_valid := m_btc_valid s; m_batch_success := m_batch_success s |}.
Definition with_pool x (s : blockchain) : blockchain :=
  {| m_db := m_db s; m_tx_pool := x; m_invalid_blocks := m_invalid_blocks s; dcache := dcache s; tabs := tabs s;
     m_btc_valid := m_btc_valid s; m_batch_success := m_batch_success s |}.
Definition with_invalid x (s : blockchain) : blockchain :=
  {| m_db := m_db s; m_tx_pool := m_tx_pool s; m_invalid_blocks := x; dcache := dcache s; tabs := tabs s;
     m_btc_valid := m_btc_valid s; m_batch_success := m_batch_success s |}.
Definition with_dcache x (s : blockchain) : blockchain :=
  {| m_db := m_db s; m_tx_pool := m_tx_pool s; m_invalid_blocks := m_invalid_blocks s; dcache := x; tabs := tabs s;
     m_btc_valid := m_btc_valid s; m_batch_success := m_batch_success s |}.
Definition with_tabs x (s : blockchain) : blockchain :=
  {| m_db := m_db s; m_tx_pool := m_tx_pool s; m_invalid_blocks := m_invalid_blocks s; dcache := dcache s; tabs := x;
     m_btc_valid := m_btc_valid s; m_batch_success := m_batch_success s |}.
Definition with_flags btc batch (s : blockchain) : blockchain :=
  {| m_db := m_db s; m_tx_pool := m_tx_pool s; m_invalid_blocks := m_invalid_blocks s; dcache := dcache s; tabs := tabs s;
     m_btc_valid := btc; m_batch_success := batch |}.
(** The tables as the methods read them. *)
Definition db (s : blockchain) : chain_db := c_tables (current (m_db s)).
Definition torn (s : blockchain) : bool := c_torn (current (m_db s)).
Definition max_block_size (s : blockchain) : Z := c_max_block_size (current (m_db s)).
Definition writes (d : chain_db) (m : Z) (t : bool) (s : blockchain) : blockchain :=
  with_env (update {| c_tables := d; c_max_block_size := m; c_torn := t |} (m_db s)) s.
Definition with_tables (d : chain_db) (s : blockchain) : blockchain := writes d (max_block_size s) (torn s) s.
Definition tear (d : chain_db) (s : blockchain) : blockchain := writes d (max_block_size s) true s.

Definition clear_tabs (s : blockchain) : blockchain :=
  with_tabs {| m_scan_table := ∅; m_blocks_longhash_table := ∅; m_blocks_hash_check := m_blocks_hash_check (tabs s) |} s.
(** [m_timestamps_and_difficulties_height = 0; m_reset_timestamps_and_difficulties_height = true] *)
Definition reset_dcache (s : blockchain) : blockchain :=
  let c := dcache s in
  with_dcache {| m_timestamps_and_difficulties_height := 0; m_reset_timestamps_and_difficulties_height := true;
                 m_timestamps := m_timestamps c; m_difficulties := m_difficulties c;
                 m_difficulty_for_next_block_top_hash := m_difficulty_for_next_block_top_hash c;
                 m_difficulty_for_next_block := m_difficulty_for_next_block c |} s.
Definition with_window h ts ds (s : blockchain) : blockchain :=
  let c := dcache s in
  with_dcache {| m_timestamps_and_difficulties_height := h;
                 m_reset_timestamps_and_difficulties_height := m_reset_timestamps_and_difficulties_height c;
                 m_timestamps := ts; m_difficulties := ds;
                 m_difficulty_for_next_block_top_hash := m_difficulty_for_next_block_top_hash c;
                 m_difficulty_for_next_block := m_difficulty_for_next_block c |} s.
Definition with_next_difficulty top diff (s : blockchain) : blockchain :=
  let c := dcache s in
  with_dcache {| m_timestamps_and_difficulties_height := m_timestamps_and_difficulties_height c;
                 m_reset_timestamps_and_difficulties_height := m_reset_timestamps_and_difficulties_height c;
                 m_timestamps := m_timestamps c; m_difficulties := m_difficulties c;
                 m_difficulty_for_next_block_top_hash := top; m_difficulty_for_next_block := diff |} s.
Definition invalidate_block_template_cache (s : blockchain) : blockchain :=
  with_flags false (m_batch_success s) s.

(** ** Computations *)

Definition M (A : Type) : Type :=
  blockchain * block_verification_context -> (blockchain * block_verification_context) * result A.

#[export] Instance M_ret : MRet M := fun A a s => (s, Returns a).
#[export] Instance M_bind : MBind M := fun A B f m s =>
  match m s with (s', Returns a) => f a s' | (s', Throws) => (s', Throws) end.

Definition fail {A} : M A := fun s => (s, Throws).
Definition reads {A} (f : blockchain -> A) : M A := fun s => (s, Returns (f s.1)).
(** What the database or another function may throw. *)
Definition tries {A} (f : blockchain -> result A) : M A := fun s => (s, f s.1).
Definition modify (f : blockchain -> blockchain) : M unit := fun s => ((f s.1, s.2), Returns tt).
Definition context : M block_verification_context := fun s => (s, Returns s.2).
Definition marks (f : block_verification_context -> block_verification_context) : M unit := fun s => ((s.1, f s.2), Returns tt).
(** A call with a context of its own, which is returned. *)
Definition with_own_context {A} (m : M A) : M (A * block_verification_context) := fun s =>
  match m (s.1, fresh_bvc) with
  | (s', Returns a) => ((s'.1, s.2), Returns (a, s'.2))
  | (s', Throws) => ((s'.1, s.2), Throws)
  end.
Definition catches {A} (m handler : M A) : M A := fun s => match m s with (s', Throws) => handler s' | r => r end.

Definition verification_failed (b : block_verification_context) : block_verification_context :=
  {| m_added_to_main_chain := m_added_to_main_chain b; b_verifivation_failed := true; m_marked_as_orphaned := m_marked_as_orphaned b;
     m_already_exists := m_already_exists b; m_partial_block_reward := m_partial_block_reward b; m_bad_pow := m_bad_pow b |}.
Definition bad_pow (b : block_verification_context) : block_verification_context :=
  {| m_added_to_main_chain := m_added_to_main_chain b; b_verifivation_failed := true; m_marked_as_orphaned := m_marked_as_orphaned b;
     m_already_exists := m_already_exists b; m_partial_block_reward := m_partial_block_reward b; m_bad_pow := true |}.
Definition added_to_main_chain (v : bool) (b : block_verification_context) : block_verification_context :=
  {| m_added_to_main_chain := v; b_verifivation_failed := b_verifivation_failed b; m_marked_as_orphaned := m_marked_as_orphaned b;
     m_already_exists := m_already_exists b; m_partial_block_reward := m_partial_block_reward b; m_bad_pow := m_bad_pow b |}.
Definition marked_as_orphaned (b : block_verification_context) : block_verification_context :=
  {| m_added_to_main_chain := m_added_to_main_chain b; b_verifivation_failed := b_verifivation_failed b; m_marked_as_orphaned := true;
     m_already_exists := m_already_exists b; m_partial_block_reward := m_partial_block_reward b; m_bad_pow := m_bad_pow b |}.
Definition already_exists (b : block_verification_context) : block_verification_context :=
  {| m_added_to_main_chain := m_added_to_main_chain b; b_verifivation_failed := b_verifivation_failed b;
     m_marked_as_orphaned := m_marked_as_orphaned b; m_already_exists := true; m_partial_block_reward := m_partial_block_reward b;
     m_bad_pow := m_bad_pow b |}.

(** Settings that do not change; [m_fixed_difficulty] is 0 when there is none. *)
Class Settings := { m_fixed_difficulty : Z; on_mainnet : bool; is_read_only : bool }.

(** Clock readings: when a block's time is checked, and the two of [add_tx]. *)
Class Clock := { clock_at_block : blockchain -> block -> Z; clock_at_tx : blockchain -> transaction -> Z * Z }.

(** What a failed addition or removal of a block leaves in the tables of the open transaction. *)
Class Torn := torn_tables : chain_db -> chain_db.

Section Methods.
Context `{Sodium} `{Sha3} `{UndefinedShift} `{Schedule} `{CachedSize} `{Settings} `{Clock} `{Torn} (init : rctData).

(** ** Difficulty *)

Definition get_tail_id (s : blockchain) : result (hash * Z) := top_block_hash (db s).

(** Timestamps and cumulative difficulties of the blocks from [offset] below [h]. *)
Definition read_window (offset h : Z) (d : chain_db) : result (list Z * list Z) :=
  rows ← result_mapM (fun i => t ← get_block_timestamp i d; c ← get_block_cumulative_difficulty i d; Returns (t, c)) (seqZ offset (h - offset));
  Returns (rows.*1, rows.*2).

Definition window_offset (h : Z) : Z :=
  let offset := h - Z.min h (Z.of_nat DIFFICULTY_BLOCKS_COUNT) in if offset =? 0 then offset + 1 else offset.

(** The list that is kept grows by the newest block; the window read from the
    database replaces it below. *)
Definition push_newest (h : Z) (s : blockchain) : result blockchain :=
  let c := dcache s in
  t ← get_block_timestamp (h - 1) (db s);
  x ← get_block_cumulative_difficulty (h - 1) (db s);
  let ts := m_timestamps c ++ [t] in
  let ds := m_difficulties c ++ [x] in
  Returns (with_window h (drop (length ts - DIFFICULTY_BLOCKS_COUNT) ts) (drop (length ds - DIFFICULTY_BLOCKS_COUNT) ds) s).

(** From the label [start]: the cached difficulty, 0 if there is none, and the new one. *)
Definition difficulty_pass : M (Z * Z) :=
  '(top_hash, h) ← tries get_tail_id;
  c ← reads dcache;
  let D := if bool_decide (top_hash = m_difficulty_for_next_block_top_hash c) then m_difficulty_for_next_block c else 0 in
  let h := h ⊞ 1 in
  _ ← (if m_reset_timestamps_and_difficulties_height c then modify (with_window 0 (m_timestamps c) (m_difficulties c)) else mret tt);
  c ← reads dcache;
  let prev := m_timestamps_and_difficulties_height c in
  _ ← (if negb (prev =? 0) && (h ⊟ prev =? 1) && (DIFFICULTY_BLOCKS_COUNT <=? length (m_timestamps c))%nat
       then s ← tries (push_newest h); modify (fun _ => s) else mret tt);
  '(ts, ds) ← tries (fun s => read_window (window_offset h) h (db s));
  _ ← modify (with_window h ts ds);
  diff ← tries (fun s => rule_16_next_difficulty ts ds (height (db s)));
  _ ← modify (with_next_difficulty top_hash diff);
  mret (D, diff).

Definition get_difficulty_for_next_block : M Z :=
  if negb (m_fixed_difficulty =? 0) then reads (fun s => if height (db s) =? 0 then 1 else m_fixed_difficulty) else
  '(D, diff) ← difficulty_pass;
  if negb (D =? 0) && negb (D =? diff) && on_mainnet then '(_, diff) ← difficulty_pass; mret diff else mret diff.

Definition get_last_block_timestamps (blocks : Z) (d : chain_db) : result (list Z) :=
  let n := Z.min blocks (height d) in
  result_mapM (fun i => get_block_timestamp (height d - i - 1) d) (seqZ 0 n).

(** ** Timestamps *)

(** [epee::misc_utils::median] *)
Definition median (v : list Z) : Z := nth (length v / 2) (merge_sort Z.le v) 0.

Definition check_timestamps (timestamps : list Z) (b : block) : bool := negb (timestamp (header b) <? median timestamps).

Definition check_block_timestamp (b : block) (s : blockchain) : result bool :=
  if clock_at_block s b ⊞ CRYPTONOTE_BLOCK_FUTURE_TIME_LIMIT_V2 <? timestamp (header b) then Returns false else
  let h := height (db s) in
  if h <? BLOCKCHAIN_TIMESTAMP_CHECK_WINDOW_V2 then Returns true else
  let offset := h - BLOCKCHAIN_TIMESTAMP_CHECK_WINDOW_V2 in
  timestamps ← result_mapM (fun i => get_block_timestamp i (db s)) (seqZ offset (h - offset));
  Returns (check_timestamps timestamps b).

(** ** Known blocks *)

Definition have_block_unlocked (id : hash) (s : blockchain) : bool :=
  bool_decide (is_Some (block_exists id (db s))) || bool_decide (is_Some (get_alt_block id (db s))) ||
  bool_decide (is_Some (m_invalid_blocks s !! id)).
Definition have_block := have_block_unlocked.

(** [get_block] throws [BLOCK_DNE] exactly when there is no such block; the flag is
    [orphan]. *)
Definition get_block_by_hash (h : hash) (s : blockchain) : result (option (block * bool)) :=
  match get_block_blob h (db s) with
  | Returns bd => match maybe_block_from_blob init bd with Some b => Returns (Some (b, false)) | None => Throws end
  | Throws =>
    match get_alt_block h (db s) with
    | Some (_, bd) => match maybe_block_from_blob init bd with Some b => Returns (Some (b, true)) | None => Throws end
    | None => Returns None
    end
  end.

(** [std::map::insert] keeps an entry that is there. *)
Definition add_block_as_invalid (bei : block_extended_info) (h : hash) (s : blockchain) : blockchain :=
  match m_invalid_blocks s !! h with Some _ => s | None => with_invalid (<[h := bei]> (m_invalid_blocks s)) s end.
Definition flush_invalid_blocks (s : blockchain) : blockchain := with_invalid ∅ s.

(** ** The pool *)

Definition chain (s : blockchain) : Chain := chain_of (db s) (m_scan_table (tabs s)).

Fixpoint return_tx_to_pool (txs : list (transaction * blob)) : M unit :=
  match txs with
  | [] => mret tt
  | (tx, bd) :: txs' =>
    tx_hash ← tries (fun _ => get_transaction_hash tx (cached_size tx));
    _ ← modify (fun s => with_pool (@add_tx (chain s) (clock_at_tx s tx) tx tx_hash bd (Z.of_nat (length bd)) fresh_tvc PoolTable.block true
                                      (m_tx_pool s)).1.1 s);
    return_tx_to_pool txs'
  end.

Definition take_from_pool (id : hash) : M (option taken) := fun s =>
  let '(x, t) := take_tx init id (m_tx_pool s.1) in ((with_pool x s.1, s.2), Returns t).

Fixpoint flush_txes_from_pool (txids : list hash) : M bool :=
  match txids with
  | [] => mret true
  | id :: txids' =>
    here ← reads (fun s => TxPool.have_tx id PoolTable.all (m_tx_pool s));
    ok ← (if here : bool then t ← take_from_pool id; mret (bool_decide (is_Some t)) else mret true);
    res ← flush_txes_from_pool txids';
    mret (ok && res)
  end.

(** [update_next_cumulative_weight_limit] with [add_max_block_size] *)
Definition update_next_cumulative_weight_limit : M bool :=
  _ ← (if is_read_only then mret tt
       else modify (fun s => writes (db s) (Z.max (max_block_size s) (get_block_size_bound (height (db s)))) (torn s) s));
  mret true.

(** ** The main chain *)

Definition blank_info (b : block) : block_extended_info :=
  {| bl := b; bei_height := 0; block_cumulative_weight := 0; bei_cumulative_difficulty := 0; bei_already_generated_coins := 0 |}.

(** Marks the block as failed and gives back what was taken; [leave]. *)
Definition refuse {A} (txs : list (transaction * blob)) : M (option A) :=
  _ ← marks verification_failed; _ ← return_tx_to_pool txs; mret None.

(** The transactions of the block, taken from the pool and checked, with the sum of
    their fees, the weight and the number of pruned ones; [None] is [goto leave]. *)
Fixpoint take_block_txs (b : block) (id : hash) (tx_ids : list hash) (txs : list (transaction * blob)) (fee_summary weight n_pruned : Z)
    : M (option (list (transaction * blob) * Z * Z * Z)) :=
  match tx_ids with
  | [] => mret (Some (txs, fee_summary, weight, n_pruned))
  | tx_id :: tx_ids' =>
    exists_ ← reads (fun s => bool_decide (is_Some (tx_exists tx_id (db s))));
    if exists_ : bool then refuse txs else
    t ← take_from_pool tx_id;
    match t with
    | None => refuse txs
    | Some t =>
      let n_pruned := if t_pruned t then n_pruned ⊞ 1 else n_pruned in
      '(ok, tx, tvc, _) ← tries (fun s => check_inputs (db s) (m_scan_table (tabs s)) (t_tx t) fresh_tvc);
      let txs := txs ++ [(tx, t_blob t)] in
      if negb (ok && (check_ringct_outputs tx tvc).1) then
        _ ← modify (add_block_as_invalid (blank_info b) id); refuse txs
      else take_block_txs b id tx_ids' txs (fee_summary ⊞ t_fee t) (weight ⊞ t_weight t) n_pruned
    end
  end.

(** The call of [m_db->add_block]; [None] when it throws.  No store holds 2^64 blocks: a write
    fails before that. *)
Definition store_block (b : block) (weight difficulty coins : Z) (txs : list (transaction * blob)) : M (option Z) := fun s =>
  match (_ ← throw_unless (height (db s.1) <? u64_max);
         add_block b weight (get_block_size_bound (FormatUtils.get_block_height b)) difficulty coins txs (db s.1)) with
  | Returns (d, prev) => ((with_tables d s.1, s.2), Returns (Some (prev ⊞ 1)))
  | Throws => ((tear (torn_tables (db s.1)) s.1, s.2), Returns None)
  end.

(** [validate_miner_transaction] for a block with a height; the optional coinbase transaction is
    dereferenced. *)
Definition miner_tx_valid (b : block) (coinbase : option coinbase_tx) (weight fee coins : Z) : result bool :=
  let block_height := FormatUtils.get_block_height b in
  if block_height =? 0 then Returns true else
  match coinbase with
  | None => Throws
  | Some c => Returns (bool_decide (is_Some (validate_miner_transaction block_height c weight fee coins)))
  end.

(** After the block is stored. *)
Definition block_added : M bool :=
  _ ← update_next_cumulative_weight_limit;
  _ ← marks (added_to_main_chain true);
  _ ← modify (fun s => with_pool (on_blockchain_inc (m_tx_pool s)) s);
  _ ← get_difficulty_for_next_block;
  _ ← modify invalidate_block_template_cache;
  mret true.

(** The stored data: the transactions with their weight, once they are taken. *)
Definition connect_block (b : block) (h : Z) (coinbase : option coinbase_tx) (current_diffic : Z)
    (txs : list (transaction * blob)) (fee_summary weight n_pruned : Z) : M bool :=
  checks ← reads (fun s => m_blocks_hash_check (tabs s));
  let known_weight := match checks !! Z.to_nat h with Some x => x.2 | None => 0 end in
  if (0 <? n_pruned) && (known_weight =? 0) then mret false else
  let weight := if 0 <? n_pruned then known_weight else weight in
  coins ← tries (fun s => if h =? 0 then Returns 0 else get_block_already_generated_coins (h - 1) (db s));
  let already_generated_coins := coins ⊞ get_block_reward coins in
  ok ← tries (fun _ => miner_tx_valid b coinbase weight fee_summary coins);
  if negb ok then (_ ← refuse (A := unit) txs; mret false) else
  prev_difficulty ← tries (fun s => if h =? 0 then Returns 0 else get_block_cumulative_difficulty (h - 1) (db s));
  let cumulative_difficulty := wrap 128 (current_diffic + prev_difficulty) in
  bvc ← context;
  if b_verifivation_failed bvc then block_added else
  stored ← store_block b weight cumulative_difficulty already_generated_coins txs;
  match stored with
  | None =>
    _ ← modify (fun s => with_flags (m_btc_valid s) false s);
    _ ← refuse (A := unit) txs; mret false
  | Some _ => block_added
  end.

Definition handle_block_to_main_chain (b : block) (id : hash) : M bool :=
  '(top_hash, h) ← tries get_tail_id;
  let h := h ⊞ 1 in
  if negb (bool_decide (prev_id (header b) = top_hash)) then (_ ← marks verification_failed; mret false) else
  timely ← tries (check_block_timestamp b);
  if negb timely then (_ ← marks verification_failed; mret false) else
  current_diffic ← get_difficulty_for_next_block;
  if current_diffic =? 0 then mret false else
  proof_of_work ← tries (fun s => match m_blocks_longhash_table (tabs s) !! id with
                                  | Some x => Returns x | None => get_mining_hash b (cached_size (miner_tx b)) end);
  if negb (check_hash proof_of_work current_diffic) then (_ ← marks bad_pow; mret false) else
  let coinbase := prevalidate_miner_transaction b h in
  if negb (h =? 0) && negb (bool_decide (is_Some coinbase)) then (_ ← marks verification_failed; mret false) else
  coinbase_weight ← tries (fun _ => get_transaction_weight (miner_tx b));
  taken ← take_block_txs b id (tx_hashes b) [] 0 coinbase_weight 0;
  match taken with
  | None => mret false
  | Some (txs, fee_summary, weight, n_pruned) => connect_block b h coinbase current_diffic txs fee_summary weight n_pruned
  end.

(** The overload that computes the hash. *)
Definition add_to_main_chain (b : block) : M bool :=
  id ← tries (fun _ => get_block_hash b (cached_size (miner_tx b)));
  handle_block_to_main_chain b id.

(** ** Removing blocks *)

(** The call of [m_db->pop_block]. *)
Definition unstore_block : M (block * list transaction) := fun s =>
  match pop_block init (db s.1) with
  | Returns (d, b, txs) => ((with_tables d s.1, s.2), Returns (b, txs))
  | Throws => ((tear (torn_tables (db s.1)) s.1, s.2), Throws)
  end.

(** The transactions of a removed block. *)
Fixpoint return_popped (txs : list transaction) : M unit :=
  match txs with
  | [] => mret tt
  | tx :: txs' =>
    _ ← (if is_coinbase tx then mret tt else
         r ← tries (fun s => @add_tx_computed _ _ (chain s) (clock_at_tx s tx) (cached_size tx) tx fresh_tvc PoolTable.block true (m_tx_pool s));
         modify (with_pool r.1.1));
    return_popped txs'
  end.

Definition pop_block_from_blockchain : M block :=
  _ ← modify reset_dcache;
  h ← reads (fun s => height (db s));
  if negb (1 <? h) then fail else
  '(popped_block, popped_txs) ← unstore_block;
  _ ← return_popped popped_txs;
  _ ← modify clear_tabs;
  _ ← update_next_cumulative_weight_limit;
  _ ← tries get_tail_id;
  _ ← modify (fun s => with_pool (on_blockchain_dec (m_tx_pool s)) s);
  _ ← modify invalidate_block_template_cache;
  mret popped_block.

Fixpoint pop_n (n : nat) : M unit :=
  match n with O => mret tt | S n' => _ ← pop_block_from_blockchain; pop_n n' end.

(** A batch covers the tables of the chain and those of the pool. *)
Definition start_batch (thread : Z) : M bool :=
  r ← tries (fun s => batch_start thread (m_db s));
  _ ← modify (with_env r.1);
  _ ← (if r.2 : bool then modify (fun s => with_pool (lock_db (m_tx_pool s)).1 s) else mret tt);
  mret r.2.
Definition commit_batch (thread : Z) : M unit :=
  e ← tries (fun s => batch_stop thread (m_db s));
  modify (fun s => with_pool (map_db (PoolTable.txn_commit true) (m_tx_pool s)) (with_env e s)).
Definition abort_batch (thread : Z) : M unit :=
  e ← tries (fun s => batch_abort thread (m_db s));
  modify (fun s => with_pool (map_db (PoolTable.txn_abort true) (m_tx_pool s)) (with_env e s)).

Definition pop_blocks (thread nblocks : Z) : M unit :=
  stop_batch ← start_batch thread;
  failed ← catches (h ← reads (fun s => height (db s));
                    _ ← pop_n (Z.to_nat (if 0 <? h then Z.min nblocks (h - 1) else nblocks)); mret false)
                   (mret true);
  if failed : bool then (if stop_batch : bool then abort_batch thread else mret tt)
  else if stop_batch : bool then commit_batch thread else mret tt.

(** ** Alternative chains *)

(** The result is what [timestamps] holds afterwards; nobody looks at the returned boolean. *)
Definition complete_timestamps_vector (start_top_height : Z) (timestamps : list Z) (d : chain_db) : result (list Z) :=
  let window := BLOCKCHAIN_TIMESTAMP_CHECK_WINDOW_V2 in
  let have := Z.of_nat (length timestamps) in
  if window <=? have then Returns timestamps else
  let need_elements := window - have in
  if negb (start_top_height <? height d) then Returns timestamps else
  let stop_offset := if need_elements <? start_top_height then start_top_height - need_elements else 0 in
  more ← result_mapM (fun i => get_block_timestamp (start_top_height - i) d) (seqZ 0 (start_top_height - stop_offset));
  Returns (timestamps ++ more).

(** The blocks of the alternative chain that ends in [prev], with their timestamps from
    the newest to the oldest; [None] when one does not parse.  Each step goes to another stored block, so their
    number bounds the loop. *)
Fixpoint collect_alt_chain (fuel : nat) (prev : hash) (d : chain_db) (alt_chain : list block_extended_info) (timestamps : list Z)
    : option (list block_extended_info * list Z) :=
  match fuel with
  | O => Some (alt_chain, timestamps)
  | S fuel' =>
    match get_alt_block prev d with
    | None => Some (alt_chain, timestamps)
    | Some (data, bd) =>
      match maybe_block_from_blob init bd with
      | None => None
      | Some b =>
        let bei := {| bl := b; bei_height := alt_height data; block_cumulative_weight := cumulative_weight data;
                      bei_cumulative_difficulty :=
                        wrap 128 (wrap 128 (Z.shiftl (cumulative_difficulty_high data) 64) + cumulative_difficulty_low data);
                      bei_already_generated_coins := already_generated_coins data |} in
        collect_alt_chain fuel' (prev_id (header b)) d (bei :: alt_chain) (timestamps ++ [timestamp (header b)])
      end
    end
  end.

(** [None] is the return value [false]. *)
Definition build_alt_chain (prev : hash) (d : chain_db) : result (option (list block_extended_info * list Z)) :=
  match collect_alt_chain (S (size (m_alt_blocks d))) prev d [] [] with
  | None => Returns None
  | Some (alt_chain, timestamps) =>
    match alt_chain with
    | front :: _ =>
      if negb (bei_height front <? height d) then Returns None else
      let front_prev := prev_id (header (bl front)) in
      if negb (bool_decide (is_Some (block_exists front_prev d))) then Returns None else
      h ← get_block_hash_from_height (bei_height front ⊟ 1) d;
      if negb (bool_decide (h = front_prev)) then Returns None else
      start ← get_block_height front_prev d;
      ts ← complete_timestamps_vector start timestamps d;
      Returns (Some (alt_chain, ts))
    | [] =>
      if negb (bool_decide (is_Some (block_exists prev d))) then Returns None else
      start ← get_block_height prev d;
      ts ← complete_timestamps_vector start timestamps d;
      Returns (Some (alt_chain, ts))
    end
  end.

Definition get_next_difficulty_for_alternative_chain (alt_chain : list block_extended_info) (new_height : Z) (d : chain_db) : result Z :=
  if negb (m_fixed_difficulty =? 0) then Returns (if height d =? 0 then 1 else m_fixed_difficulty) else
  let count := DIFFICULTY_BLOCKS_COUNT in
  let alt_ts := (fun x => timestamp (header (bl x))) <$> alt_chain in
  let alt_ds := bei_cumulative_difficulty <$> alt_chain in
  if (length alt_chain <? count)%nat then
    let stop := match alt_chain with front :: _ => bei_height front | [] => new_height end in
    let main_chain_count := Z.min (Z.of_nat count - Z.of_nat (length alt_chain)) stop in
    let start := stop - main_chain_count in
    let start := if start =? 0 then start + 1 else start in
    '(ts, ds) ← read_window start stop d;
    if negb (length alt_chain + length ts <=? count)%nat then Returns 0 else
    rule_16_next_difficulty (ts ++ alt_ts) (ds ++ alt_ds) (height d)
  else
    rule_16_next_difficulty (drop (length alt_ts - count) alt_ts) (drop (length alt_ds - count) alt_ds) (height d).

(** The weight of an alternative block: 0 when a transaction is unknown, [None] when one cannot be read. *)
Fixpoint alt_block_weight (txids : list hash) (weight : Z) (s : blockchain) : result (option Z) :=
  match txids with
  | [] => Returns (Some weight)
  | txid :: txids' =>
    if TxPool.have_tx txid PoolTable.legacy (m_tx_pool s) then
      match get_transaction_info init txid (m_tx_pool s) with
      | Some td => alt_block_weight txids' (weight ⊞ PoolTable.weight (d_meta td)) s
      | None => Returns None
      end
    else
      match get_tx_blob txid (db s) with
      | Some bd =>
        match maybe_tx_from_blob init bd with
        | None => Returns None
        | Some tx => w ← get_transaction_weight tx; alt_block_weight txids' (weight ⊞ w) s
        end
      | None => Returns (Some 0)
      end
  end.

(** ** Reorganisation *)

(** Blocks come off until the top is [target]; the height bounds the loop, which throws at the
    genesis block. *)
Fixpoint disconnect (fuel : nat) (target : hash) (disconnected : list block) : M (list block) :=
  match fuel with
  | O => fail
  | S fuel' =>
    '(top, _) ← tries get_tail_id;
    if bool_decide (top = target) then mret disconnected else
    b ← pop_block_from_blockchain;
    disconnect fuel' target (b :: disconnected)
  end.

Fixpoint pop_to_height (fuel : nat) (target : Z) : M unit :=
  match fuel with
  | O => fail
  | S fuel' =>
    h ← reads (fun s => height (db s));
    if h =? target then mret tt else _ ← pop_block_from_blockchain; pop_to_height fuel' target
  end.

(** Adds blocks with a context of their own each, up to the first failure. *)
Fixpoint connect_all (blocks : list block) : M bool :=
  match blocks with
  | [] => mret true
  | b :: blocks' =>
    '(r, bvc) ← with_own_context (add_to_main_chain b);
    if r && m_added_to_main_chain bvc then connect_all blocks' else mret false
  end.

Definition rollback_blockchain_switching (original_chain : list block) (rollback_height : Z) : M bool :=
  h ← reads (fun s => height (db s));
  if h <? rollback_height then mret true else
  _ ← modify reset_dcache;
  _ ← pop_to_height (S (Z.to_nat h)) rollback_height;
  connect_all original_chain.

(** [m_db->remove_alt_block] *)
Definition drop_alt_block (id : hash) : M unit :=
  d ← tries (fun s => remove_alt_block id (db s)); modify (with_tables d).

(** The blocks from the failed one on become invalid. *)
Fixpoint invalidate_all (blocks : list block_extended_info) : M unit :=
  match blocks with
  | [] => mret tt
  | bei :: blocks' =>
    blkid ← tries (fun _ => get_block_hash (bl bei) (cached_size (miner_tx (bl bei))));
    _ ← modify (add_block_as_invalid bei blkid);
    _ ← drop_alt_block blkid;
    invalidate_all blocks'
  end.

(** The new chain; [false] after the rollback. *)
Fixpoint connect_alt (alt_chain : list block_extended_info) (disconnected : list block) (split_height : Z) : M bool :=
  match alt_chain with
  | [] => mret true
  | bei :: alt_chain' =>
    '(r, bvc) ← with_own_context (add_to_main_chain (bl bei));
    if r && m_added_to_main_chain bvc then connect_alt alt_chain' disconnected split_height else
    _ ← rollback_blockchain_switching disconnected split_height;
    _ ← invalidate_all alt_chain;
    mret false
  end.

Fixpoint drop_all_alt (alt_chain : list block_extended_info) : M unit :=
  match alt_chain with
  | [] => mret tt
  | bei :: alt_chain' =>
    id ← tries (fun _ => get_block_hash (bl bei) (cached_size (miner_tx (bl bei))));
    _ ← drop_alt_block id;
    drop_all_alt alt_chain'
  end.

(** [keep] stores the disconnected blocks as alternative ones. *)
Definition switch_with (keep : list block -> M unit) (alt_chain : list block_extended_info) : M bool :=
  _ ← modify reset_dcache;
  match alt_chain with
  | [] => mret false
  | front :: _ =>
    let target := prev_id (header (bl front)) in
    known ← reads (fun s => bool_decide (is_Some (block_exists target (db s))));
    if negb known then mret false else
    h ← reads (fun s => height (db s));
    disconnected ← disconnect (S (Z.to_nat h)) target [];
    split_height ← reads (fun s => height (db s));
    ok ← connect_alt alt_chain disconnected split_height;
    if negb ok then mret false else
    _ ← keep disconnected;
    _ ← drop_all_alt alt_chain;
    mret true
  end.

(** The alternative block with the data that is stored with it. *)
Definition extended_info (b : block) (prev_height prev_coins prev_difficulty diff weight : Z) : block_extended_info :=
  {| bl := b; bei_height := prev_height ⊞ 1; block_cumulative_weight := weight;
     bei_cumulative_difficulty := wrap 128 (prev_difficulty + diff);
     bei_already_generated_coins := prev_coins ⊞ get_tx_outputs_money_amount (miner_tx b) |}.

Definition alt_data (bei : block_extended_info) : alt_block_data_t :=
  {| alt_height := bei_height bei; cumulative_weight := block_cumulative_weight bei;
     cumulative_difficulty_low := Z.land (bei_cumulative_difficulty bei) u64_max;
     cumulative_difficulty_high := Z.land (Z.shiftr (bei_cumulative_difficulty bei) 64) u64_max;
     already_generated_coins := bei_already_generated_coins bei |}.

(** Disconnected blocks come back here while the chain is switched: [depth] bounds the
    nesting. *)
Fixpoint handle_alternative_block (depth : nat) (b : block) (id : hash) : M bool :=
  _ ← modify reset_dcache;
  if FormatUtils.get_block_height b =? 0 then (_ ← marks verification_failed; mret false) else
  let prev := prev_id (header b) in
  parent_in_alt ← reads (fun s => fst <$> get_alt_block prev (db s));
  parent_in_main ← reads (fun s => bool_decide (is_Some (block_exists prev (db s))));
  if negb (bool_decide (is_Some parent_in_alt)) && negb parent_in_main then (_ ← marks marked_as_orphaned; mret true) else
  chain ← tries (fun s => build_alt_chain prev (db s));
  match chain with
  | None => mret false
  | Some (alt_chain, timestamps) =>
    let parent := match alt_chain with [] => None | _ => Some (default {| alt_height := 0; cumulative_weight := 0;
      cumulative_difficulty_low := 0; cumulative_difficulty_high := 0; already_generated_coins := 0 |} parent_in_alt) end in
    prev_height ← tries (fun s => match parent with Some p => Returns (alt_height p) | None => get_block_height prev (db s) end);
    prev_coins ← tries (fun s => match parent with Some p => Returns (already_generated_coins p)
                                 | None => get_block_already_generated_coins prev_height (db s) end);
    if negb (check_timestamps timestamps b) then (_ ← marks verification_failed; mret false) else
    current_diff ← tries (fun s => get_next_difficulty_for_alternative_chain alt_chain (prev_height ⊞ 1) (db s));
    if current_diff =? 0 then mret false else
    proof_of_work ← tries (fun _ => get_mining_hash b (cached_size (miner_tx b)));
    if negb (check_hash proof_of_work current_diff) then (_ ← marks bad_pow; mret false) else
    if negb (prev_height ⊞ 1 =? 0) && negb (bool_decide (is_Some (prevalidate_miner_transaction b (prev_height ⊞ 1))))
    then (_ ← marks verification_failed; mret false) else
    main_difficulty ← tries (fun s => get_block_cumulative_difficulty (height (db s) ⊟ 1) (db s));
    prev_difficulty ← tries (fun s => match parent with
      | Some p => Returns (wrap 128 (wrap 128 (Z.shiftl (cumulative_difficulty_high p) 64) + cumulative_difficulty_low p))
      | None => x ← get_block_height prev (db s); get_block_cumulative_difficulty x (db s) end);
    coinbase_weight ← tries (fun _ => get_transaction_weight (miner_tx b));
    weight ← tries (alt_block_weight (tx_hashes b) coinbase_weight);
    match weight with
    | None => _ ← marks verification_failed; mret false
    | Some weight =>
      let bei := extended_info b prev_height prev_coins prev_difficulty current_diff weight in
      known ← reads (fun s => bool_decide (is_Some (get_alt_block id (db s))));
      if known : bool then mret false else
      bd ← tries (fun _ => block_to_blob b);
      _ ← modify (fun s => with_tables (add_alt_block id (alt_data bei) bd (db s)) s);
      if main_difficulty <? bei_cumulative_difficulty bei then
        let keep := fix keep (blocks : list block) : M unit :=
          match blocks with
          | [] => mret tt
          | old :: blocks' =>
            old_id ← tries (fun _ => get_block_hash old (cached_size (miner_tx old)));
            _ ← with_own_context (match depth with O => fail | S depth' => handle_alternative_block depth' old old_id end);
            keep blocks'
          end in
        r ← switch_with keep (alt_chain ++ [bei]);
        _ ← marks (if r : bool then added_to_main_chain true else verification_failed);
        mret r
      else mret true
    end
  end.

(** [std::exception] is caught. *)
Definition add_new_block (depth : nat) (b : block) : M bool :=
  catches
    (id ← tries (fun _ => get_block_hash b (cached_size (miner_tx b)));
     known ← reads (have_block id);
     if known : bool then (_ ← marks already_exists; mret false) else
     '(top, _) ← tries get_tail_id;
     if bool_decide (prev_id (header b) = top) then handle_block_to_main_chain b id else
     _ ← marks (added_to_main_chain false);
     handle_alternative_block depth b id)
    (_ ← marks verification_failed; mret false).

(** [m_db->reset()] and [drop_alt_blocks]: every table of the chain and the properties are emptied. *)
Definition reset_env (e : env contents) : env contents :=
  let c := {| c_tables := drop_alt_blocks (with_alt_blocks (m_alt_blocks (c_tables (committed e))) ChainDbInv.ChainDbInv.empty_db);
              c_max_block_size := 0; c_torn := false |} in
  {| committed := c; write_txn := write_txn e; write_batch_txn := write_batch_txn e; m_batch_active := m_batch_active e;
     m_batch_transactions := m_batch_transactions e; m_writer := m_writer e |}.

(** The new tables are written in a transaction of their own.  LMDB has one writer: with an open write transaction the
    call would wait for ever, which is an exception here. *)
Definition reset_and_set_genesis_block (depth : nat) (thread : Z) (b : block) : M bool :=
  _ ← modify reset_dcache;
  _ ← modify invalidate_block_template_cache;
  busy ← reads (fun s => bool_decide (is_Some (write_txn (m_db s))));
  if busy : bool then fail else
  _ ← modify (fun s => with_env (reset_env (m_db s)) s);
  e ← tries (fun s => block_wtxn_start thread (m_db s));
  _ ← modify (with_env e);
  '(_, bvc) ← with_own_context (add_new_block depth b);
  _ ← update_next_cumulative_weight_limit;
  e ← tries (fun s => block_wtxn_stop thread (m_db s));
  _ ← modify (with_env e);
  mret (m_added_to_main_chain bvc && negb (b_verifivation_failed bvc)).

(** ** Incoming blocks *)

Definition block_longhash_worker (blocks : list block) : result (gmap hash hash) :=
  rows ← result_mapM (fun b => id ← get_block_hash b (cached_size (miner_tx b)); pow ← get_mining_hash b (cached_size (miner_tx b));
                               Returns (id, pow)) blocks;
  Returns (foldl (fun m x => match m !! x.1 with Some _ => m | None => <[x.1 := x.2]> m end) ∅ rows).

(** [None] is the return value [false] with an empty scan table: an unreadable or a
    repeated transaction.  The test for a repeated key image looks into a row that is still empty.  Rows that
    are empty when an exception is thrown are left out: a lookup finds nothing in them either. *)
Fixpoint parse_incoming (blobs : list blob) (seen : gset hash) : result (option (list (transaction * hash))) :=
  match blobs with
  | [] => Returns (Some [])
  | bd :: blobs' =>
    match maybe_tx_from_blob init bd with
    | None => Returns None
    | Some tx =>
      h ← get_transaction_prefix_hash tx;
      if bool_decide (h ∈ seen) then Returns None else
      _ ← result_mapM get_from_key (vin (prefix tx));
      r ← parse_incoming blobs' ({[ h ]} ∪ seen);
      Returns (match r with Some l => Some ((tx, h) :: l) | None => None end)
    end
  end.

Definition from_keys (tx : transaction) : list txin_from_key_t :=
  omap (fun i => match i with txin_from_key x => Some x | _ => None end) (vin (prefix tx)).

(** [offset_map[amount]]: sorted, each once. *)
Definition offsets_of (amount : Z) (txes : list (transaction * hash)) : list Z :=
  merge_sort Z.le (elements (list_to_set (C := gset Z)
    (txes ≫= fun t => from_keys t.1 ≫= fun x => if in_amount x =? amount then ring_indices x else []))).

(** [output_scan_worker]: [tx_map[amount]] *)
Definition output_scan_worker (amount : Z) (offsets : list Z) (d : chain_db) : list output_data_t :=
  match get_output_keys amount offsets true d with Returns l => l | Throws => [] end.

(** The outputs of an input, up to the first that was not read. *)
Fixpoint pick_outputs (needed offsets : list Z) (outs : list output_data_t) : list output_data_t :=
  match needed with
  | [] => []
  | i :: needed' =>
    match list_find (eq i) offsets with
    | Some (pos, _) => match outs !! pos with Some o => o :: pick_outputs needed' offsets outs | None => [] end
    | None => []
    end
  end.

(** The row of a transaction; [emplace] keeps the first entry of a key image. *)
Definition scan_row (txes : list (transaction * hash)) (d : chain_db) (tx : transaction) : gmap key_image (list output_data_t) :=
  foldl (fun m x => match m !! output_key_image x with
                    | Some _ => m
                    | None => let offsets := offsets_of (in_amount x) txes in
                              <[output_key_image x := pick_outputs (ring_indices x) offsets (output_scan_worker (in_amount x) offsets d)]> m
                    end) ∅ (from_keys tx).

Definition build_scan_table (txes : list (transaction * hash)) (d : chain_db) : scan_table_t :=
  list_to_map ((fun t => (t.2, scan_row txes d t.1)) <$> txes).

Definition with_scan_table x (s : blockchain) : blockchain :=
  with_tabs {| m_scan_table := x; m_blocks_longhash_table := m_blocks_longhash_table (tabs s);
               m_blocks_hash_check := m_blocks_hash_check (tabs s) |} s.
Definition with_longhash_table x (s : blockchain) : blockchain :=
  with_tabs {| m_scan_table := m_scan_table (tabs s); m_blocks_longhash_table := x;
               m_blocks_hash_check := m_blocks_hash_check (tabs s) |} s.

(** The blocks with their hashes. *)
Fixpoint parse_blocks (blobs : list blob) : result (option (list (block * hash))) :=
  match blobs with
  | [] => Returns (Some [])
  | bd :: blobs' =>
    match maybe_block_from_blob init bd with
    | None => Returns None
    | Some b =>
      h ← get_block_hash b (cached_size (miner_tx b));
      r ← parse_blocks blobs';
      Returns (match r with Some l => Some ((b, h) :: l) | None => None end)
    end
  end.

(** A block and its transactions as they arrive.  The wait for the batch of another
    thread is over when [start_batch] returns [true].  Requests to cancel are not modelled. *)
Definition prepare_handle_incoming_blocks (thread : Z) (entries : list (blob * list blob)) : M bool :=
  match entries with
  | [] => mret false
  | (first, _) :: _ =>
    started ← start_batch thread;
    if negb started then fail else
    _ ← modify (fun s => with_flags (m_btc_valid s) true s);
    skip ← reads (fun s => height (db s) + Z.of_nat (length entries) <? Z.of_nat (length (m_blocks_hash_check (tabs s))));
    if skip : bool then mret true else
    '(tophash, _) ← tries get_tail_id;
    match maybe_block_from_blob init first with
    | None => mret false
    | Some first_block =>
      if negb (bool_decide (prev_id (header first_block) = tophash)) then mret true else
      blocks ← tries (fun _ => parse_blocks entries.*1);
      match blocks with
      | None => mret false
      | Some blocks =>
        blocks_exist ← reads (fun s => existsb (fun x => have_block x.2 s) blocks);
        if blocks_exist : bool then mret true else
        table ← tries (fun _ => block_longhash_worker blocks.*1);
        _ ← modify (with_longhash_table table);
        _ ← modify (with_scan_table ∅);
        txes ← tries (fun _ => parse_incoming (entries ≫= snd) ∅);
        match txes with
        | None => mret false
        | Some txes => _ ← modify (fun s => with_scan_table (build_scan_table txes (db s)) s); mret true
        end
      end
    end
  end.

(** The counters and the calls that sync the files to disk are not modelled. *)
Definition cleanup_handle_incoming_blocks (thread : Z) : M bool :=
  success ← catches
    (good ← reads m_batch_success;
     if good : bool then
       _ ← commit_batch thread;
       _ ← modify (fun s => if m_reset_timestamps_and_difficulties_height (dcache s) then
                              let c := dcache s in
                              with_dcache {| m_timestamps_and_difficulties_height := 0; m_reset_timestamps_and_difficulties_height := false;
                                             m_timestamps := m_timestamps c; m_difficulties := m_difficulties c;
                                             m_difficulty_for_next_block_top_hash := m_difficulty_for_next_block_top_hash c;
                                             m_difficulty_for_next_block := m_difficulty_for_next_block c |} s
                            else s);
       mret true
     else _ ← abort_batch thread; mret true)
    (mret false);
  _ ← modify clear_tabs;
  _ ← modify (fun s => if negb (length (m_blocks_hash_check (tabs s)) =? 0)%nat &&
                          (Z.of_nat (length (m_blocks_hash_check (tabs s))) + 4096 <? height (db s))
                       then with_tabs {| m_scan_table := m_scan_table (tabs s); m_blocks_longhash_table := m_blocks_longhash_table (tabs s);
                                         m_blocks_hash_check := [] |} s else s);
  mret success.

End Methods.

End Blockchain.
