(* ===== verification/BlockchainInv.v ===== *)
(** The invariant of the block chain: whatever blocks arrive, in whatever order, with
    reorganisations and rollbacks, every block of the main chain is valid
    after the blocks below it. *)

From stdpp Require Import gmap sorting.
From S2P Require Import Prelude Hash Config Difficulty Varint Serialization Primality Group ModelGroup Key RctOps VectorOps InnerProduct Bulletproof Clsag RctTypes TxTypes Consensus Coinbase FormatUtils RingCT PoolTable TxPool BlockTemplate ChainDb ChainDbInv LmdbTxn TxCheck Blockchain.

Module BlockchainInv.
Import Config Difficulty Serialization.Archive Clsag RctTypes TxTypes Consensus Coinbase FormatUtils TxPool BlockTemplate ChainDb ChainDbInv LmdbTxn TxCheck Blockchain.

(** ** Block rows *)

(** The 128-bit cumulative difficulty of a row. *)
Definition row_difficulty (bi : mdb_block_info) : Z := Z.lor (wrap 128 (Z.shiftl (bi_diff_hi bi) 64)) (bi_diff_lo bi).

Lemma split_join c : fits 128 c ->
  Z.lor (wrap 128 (Z.shiftl (Z.land (Z.shiftr c 64) u64_max) 64)) (Z.land c u64_max) = c.
Proof.
  intros Hc. apply Z.bits_inj'. intros n Hn. unfold wrap, u64_max. change (2 ^ 64 - 1) with (Z.ones 64).
  rewrite Z.lor_spec, Z.land_spec, Z.testbit_ones_nonneg by lia.
  destruct (Z.ltb_spec n 64).
  - rewrite Z.mod_pow2_bits_low by lia. rewrite Z.shiftl_spec_low by lia. now rewrite andb_true_r.
  - rewrite andb_false_r, orb_false_r. destruct (Z.ltb_spec n 128).
    + rewrite Z.mod_pow2_bits_low, Z.shiftl_spec, Z.land_spec, Z.shiftr_spec, Z.testbit_ones_nonneg by lia.
      replace (n - 64 + 64) with n by lia. destruct (Z.ltb_spec (n - 64) 64); [now rewrite andb_true_r|lia].
    + rewrite Z.mod_pow2_bits_high by lia. symmetry. unfold fits in Hc.
      destruct (decide (c = 0)) as [->|Hz]; [apply Z.testbit_0_l|]. apply Z.bits_above_log2; [lia|].
      assert (Z.log2 c < 128) by (apply Z.log2_lt_pow2; lia). lia.
Qed.

(** The tables of blocks agree with each other. *)
Record rows_ok (d : chain_db) : Prop := {
  ro_index : indexed bi_height (m_block_info d);
  ro_length : length (m_block_info d) = length (m_blocks d) }.

Lemma height_rows d : rows_ok d -> height d = Z.of_nat (length (m_block_info d)).
Proof. intros [_ E]. unfold height. now rewrite E. Qed.

Lemma block_info_at d i bi : rows_ok d -> m_block_info d !! i = Some bi -> block_info_of (Z.of_nat i) d = Returns bi.
Proof. intros Hd Hi. unfold block_info_of, find_block_info. now rewrite (indexed_find_at bi_height _ i bi (ro_index _ Hd) Hi). Qed.

Lemma block_info_top d bi : rows_ok d -> last (m_block_info d) = Some bi -> block_info_of (height d - 1) d = Returns bi.
Proof.
  intros Hd Hl. rewrite last_lookup in Hl. pose proof (lookup_lt_Some _ _ _ Hl).
  replace (height d - 1) with (Z.of_nat (pred (length (m_block_info d)))) by (rewrite height_rows by assumption; lia).
  now apply block_info_at.
Qed.

(** Reading a field of the rows between two heights, and up to the top. *)
Lemma read_rows_to {A} (f : mdb_block_info -> A) d (g : Z -> result A) (o n : nat) :
  rows_ok d -> (forall i, g i = f <$> block_info_of i d) -> (n <= length (m_block_info d))%nat ->
  result_mapM g (seqZ (Z.of_nat o) (Z.of_nat n - Z.of_nat o)) = Returns (f <$> drop o (take n (m_block_info d))).
Proof.
  intros Hd Hg Hn. remember (n - o)%nat as k eqn:Ek. revert o Ek. induction k as [|k IH]; intros o Ek.
  { rewrite seqZ_nil by lia. now rewrite drop_ge by (rewrite length_take; lia). }
  destruct (lookup_lt_is_Some_2 (m_block_info d) o ltac:(lia)) as [bi Hbi].
  rewrite seqZ_cons by lia. rewrite (drop_S _ bi o) by (rewrite lookup_take_lt by lia; assumption). cbn [result_mapM fmap list_fmap].
  rewrite Hg, (block_info_at d o bi Hd Hbi). cbn [fmap result_fmap mbind result_bind].
  replace (Z.succ (Z.of_nat o)) with (Z.of_nat (S o)) by lia.
  replace (Z.pred (Z.of_nat n - Z.of_nat o)) with (Z.of_nat n - Z.of_nat (S o)) by lia.
  rewrite IH by lia. reflexivity.
Qed.

Lemma read_rows {A} (f : mdb_block_info -> A) d (g : Z -> result A) (o : nat) :
  rows_ok d -> (forall i, g i = f <$> block_info_of i d) ->
  result_mapM g (seqZ (Z.of_nat o) (height d - Z.of_nat o)) = Returns (f <$> drop o (m_block_info d)).
Proof. intros Hd Hg. rewrite (height_rows _ Hd), (read_rows_to f d) by auto. now rewrite take_ge by lia. Qed.

Lemma read_window_to d (o n : nat) : rows_ok d -> (n <= length (m_block_info d))%nat ->
  read_window (Z.of_nat o) (Z.of_nat n) d =
  Returns (bi_timestamp <$> drop o (take n (m_block_info d)), row_difficulty <$> drop o (take n (m_block_info d))).
Proof.
  intros Hr Hn. unfold read_window. rewrite (read_rows_to (fun bi => (bi_timestamp bi, row_difficulty bi)) d) by
    (try assumption; intros i; unfold get_block_timestamp, get_block_cumulative_difficulty; now destruct (block_info_of i d)).
  cbn [mbind result_bind]. now rewrite <- !list_fmap_compose.
Qed.

Section Rows.
Context `{Sodium} `{Sha3} `{UndefinedShift} `{CachedSize} `{Settings} (init : rctData).

(** The rows that count for the difficulty after [infos]. *)
Definition window_of (infos : list mdb_block_info) : list mdb_block_info :=
  drop (let o := (length infos - DIFFICULTY_BLOCKS_COUNT)%nat in if (o =? 0)%nat then 1 else o) infos.

(** The difficulty of the block after [infos]. *)
Definition next_difficulty_of (infos : list mdb_block_info) : result Z :=
  if negb (m_fixed_difficulty =? 0) then Returns (if (length infos =? 0)%nat then 1 else m_fixed_difficulty)
  else next_difficulty (bi_timestamp <$> window_of infos) (row_difficulty <$> window_of infos) (Z.of_nat (length infos)).

(** What a row of the main chain has to satisfy after the rows [infos]: it belongs to a block
    that extends the last of them, its time is not below the median of the last
    eleven, its difficulty is the one of the adjustment and a block of this id has that proof of work,
    its coins follow the emission, and its coinbase transaction passes the checks against
    the fees and the weight of the block. *)
Record valid_row (infos : list mdb_block_info) (bd : blob) (bi : mdb_block_info) : Prop := {
  vr_height : bi_height bi = Z.of_nat (length infos);
  vr_block : exists b, block_to_blob b = Returns bd /\ get_block_hash b (cached_size (miner_tx b)) = Returns (bi_hash bi) /\
    prev_id (header b) = (match last infos with Some p => bi_hash p | None => null_hash end) /\
    timestamp (header b) = bi_timestamp bi /\
    ((11 <= length infos)%nat -> median (bi_timestamp <$> drop (length infos - 11) infos) <= timestamp (header b)) /\
    (infos <> [] -> exists c fees, prevalidate_miner_transaction b (Z.of_nat (length infos)) = Some c /\
       validate_miner_transaction (FormatUtils.get_block_height b) c (bi_weight bi) fees (from_option bi_coins 0 (last infos)) = Some c);
  vr_work : exists diff b pow, next_difficulty_of infos = Returns diff /\ diff <> 0 /\
    get_block_hash b (cached_size (miner_tx b)) = Returns (bi_hash bi) /\ get_mining_hash b (cached_size (miner_tx b)) = Returns pow /\
    check_hash pow diff = true /\ row_difficulty bi = wrap 128 (diff + from_option row_difficulty 0 (last infos));
  vr_coins : bi_coins bi = next_already_generated_coins (from_option bi_coins 0 (last infos)) }.

(** The main chain of a database. *)
Record valid_chain (d : chain_db) : Prop := {
  vc_rows : rows_ok d;
  vc_fits : fits 64 (height d);
  vc_valid i bd bi : m_blocks d !! i = Some bd -> m_block_info d !! i = Some bi -> valid_row (take i (m_block_info d)) bd bi }.

(** ** Frames: transactions do not touch the rows of blocks *)

Definition same_rows (d d' : chain_db) : Prop := m_blocks d' = m_blocks d /\ m_block_info d' = m_block_info d.

#[export] Instance same_rows_preorder : PreOrder same_rows.
Proof. split; [now split|]. intros d1 d2 d3 [? ?] [? ?]. split; congruence. Qed.

Lemma valid_chain_same d d' : same_rows d d' -> valid_chain d -> valid_chain d'.
Proof.
  intros [Eb Ei] [[Hi Hl] Hf Hv]. split; [split|unfold height|]; rewrite ?Eb, ?Ei; assumption.
Qed.

Lemma add_outputs_rows tx h outs : forall i d d' ixs, add_outputs tx h i outs d = Returns (d', ixs) -> same_rows d d'.
Proof.
  induction outs as [|o outs IH]; intros i d d' ixs E; cbn in E; [now injection E as <- _|].
  apply result_bind_inv in E as ([o' c] & _ & E). apply result_bind_inv in E as ([d1 n] & E1 & E).
  apply result_bind_inv in E as ([d2 ixs'] & E2 & E). injection E as <- _. cbn [fst snd] in *.
  transitivity d1; [|eapply IH, E2]. unfold add_output, throw_if in E1. apply throw_unless_inv in E1 as [_ E1].
  apply throw_unless_inv in E1 as [_ E1]. now injection E1 as <- _.
Qed.

Lemma add_transaction_rows tx bd h d d' : add_transaction tx bd h d = Returns d' -> same_rows d d'.
Proof.
  intros E. unfold add_transaction in E. apply result_bind_inv in E as (d1 & E1 & E). apply result_bind_inv in E as ([d2 id] & E2 & E).
  apply result_bind_inv in E as ([d3 ixs] & E3 & E). unfold add_tx_amount_output_indices in E.
  apply result_bind_inv in E as (to & _ & E). injection E as <-. cbn [fst snd] in *.
  destruct (add_inputs_spec _ _ _ E1) as (_ & _ & ->). destruct (add_transaction_data_inv _ _ _ _ _ _ E2) as (n & _ & _ & _ & _ & ->).
  apply add_outputs_rows in E3. exact E3.
Qed.

Lemma add_transactions_rows txs : forall hs d d', add_transactions txs hs d = Returns d' -> same_rows d d'.
Proof.
  induction txs as [|[tx bd] txs IH]; intros [|h hs] d d' E; cbn in E; try now injection E as <-.
  apply result_bind_inv in E as (d1 & E1 & E). transitivity d1; [eapply add_transaction_rows, E1|eapply IH, E].
Qed.

Lemma remove_outputs_rows n ps outs ixs : forall d d', remove_outputs_from n ps outs ixs d = Returns d' -> same_rows d d'.
Proof.
  induction n as [|n IH]; intros d d' E; cbn in E; [now injection E as <-|].
  destruct (outs !! n) as [o|]; [|discriminate]. destruct (ixs !! n) as [ix|]; [|discriminate].
  apply result_bind_inv in E as (d1 & E1 & E). transitivity d1; [|eapply IH, E].
  unfold remove_output in E1. destruct (find_output _ _ _); [|discriminate]. apply throw_unless_inv in E1 as [_ E1]. now injection E1 as <-.
Qed.

Lemma remove_transaction_rows h d d' : remove_transaction init h d = Returns d' -> same_rows d d'.
Proof.
  intros E. unfold remove_transaction in E. apply result_bind_inv in E as (tx & _ & E). unfold remove_transaction_data in E.
  rewrite remove_inputs_spec in E. destruct (m_tx_indices _ !! h) as [ti|]; [|discriminate].
  apply throw_unless_inv in E as [_ E]. unfold throw_if in E. apply throw_unless_inv in E as [_ E].
  apply result_bind_inv in E as (d1 & E1 & E). injection E as <-. unfold remove_tx_outputs, throw_if in E1.
  apply throw_unless_inv in E1 as [_ E1]. apply remove_outputs_rows in E1. exact E1.
Qed.

Lemma pop_transactions_rows hs : forall d d' txs, pop_transactions init hs d = Returns (d', txs) -> same_rows d d'.
Proof.
  induction hs as [|h hs IH]; intros d d' txs E; cbn in E; [now injection E as <- _|].
  apply result_bind_inv in E as (t & _ & E). destruct t as [tx|]; [|discriminate].
  apply result_bind_inv in E as (d1 & E1 & E). apply result_bind_inv in E as ([d2 l] & E2 & E). injection E as <- _.
  transitivity d1; [eapply remove_transaction_rows, E1|eapply IH, E2].
Qed.

(** ** Adding and removing a row *)

Lemma add_block_rows b w lw cd cg txs d d' prev :
  add_block b w lw cd cg txs d = Returns (d', prev) -> fits 128 cd ->
  exists bd bi, m_blocks d' = m_blocks d ++ [bd] /\ m_block_info d' = m_block_info d ++ [bi] /\ block_to_blob b = Returns bd /\
    get_block_hash b (cached_size (miner_tx b)) = Returns (bi_hash bi) /\ bi_height bi = height d /\
    bi_timestamp bi = timestamp (header b) /\ bi_coins bi = cg /\ bi_weight bi = w /\ row_difficulty bi = cd.
Proof.
  intros E Hcd. unfold add_block in E. apply throw_unless_inv in E as [_ E].
  apply result_bind_inv in E as (bh & Ebh & E). apply result_bind_inv in E as (mb & _ & E). apply result_bind_inv in E as (mh & _ & E).
  apply result_bind_inv in E as (d1 & E1 & E). apply result_bind_inv in E as (d2 & E2 & E). apply result_bind_inv in E as (d3 & E3 & E).
  injection E as <- _. apply add_transaction_rows in E1. apply add_transactions_rows in E2.
  assert (Hr : same_rows d d2) by (transitivity d1; assumption). destruct Hr as [Eb Ei].
  unfold add_block_data, throw_if in E3. apply throw_unless_inv in E3 as [_ E3]. apply result_bind_inv in E3 as ([] & _ & E3).
  apply result_bind_inv in E3 as (bd & Ebd & E3). apply result_bind_inv in E3 as (cum & _ & E3). injection E3 as <-.
  cbn. rewrite Eb, Ei. eexists bd, _. split_and!; try reflexivity; try assumption; cbn.
  - unfold height. now rewrite Eb.
  - unfold row_difficulty. cbn. now apply split_join.
Qed.

Lemma push_valid d d' bd bi :
  valid_chain d -> m_blocks d' = m_blocks d ++ [bd] -> m_block_info d' = m_block_info d ++ [bi] ->
  fits 64 (height d + 1) -> valid_row (m_block_info d) bd bi -> valid_chain d'.
Proof.
  intros [[Hi Hl] Hf Hv] Eb Ei Hfit Hrow. split.
  - split; rewrite Ei, ?Eb; [|rewrite !length_app; cbn; lia]. apply indexed_snoc; [assumption|]. exact (vr_height _ _ _ Hrow).
  - unfold height in *. rewrite Eb, length_app. cbn. now replace (Z.of_nat (length (m_blocks d) + 1)) with (Z.of_nat (length (m_blocks d)) + 1) by lia.
  - rewrite Eb, Ei. intros i bd' bi' Hb Hbi. apply lookup_app_Some in Hb as [Hb|[Hge Hb]].
    + pose proof (lookup_lt_Some _ _ _ Hb). rewrite lookup_app_l in Hbi by lia. rewrite take_app_le by lia. now apply Hv.
    + apply list_lookup_singleton_Some in Hb as [Hz <-]. rewrite lookup_app_r in Hbi by lia.
      apply list_lookup_singleton_Some in Hbi as [_ <-]. replace i with (length (m_block_info d)) by lia. now rewrite take_app_length.
Qed.

Lemma remove_block_valid d d' : valid_chain d -> remove_block d = Returns d' -> valid_chain d'.
Proof.
  intros Hvc E. pose proof (vc_rows _ Hvc) as Hr. destruct Hvc as [[Hi Hl] Hf Hv]. unfold remove_block, throw_if in E.
  apply throw_unless_inv in E as [Hz E]. rewrite negb_true_iff, Z.eqb_neq in Hz. apply result_bind_inv in E as (bi & _ & E).
  apply throw_unless_inv in E as [_ E]. injection E as <-.
  rewrite (height_rows _ Hr) in *. destruct (m_block_info d) as [|x infos _] eqn:Ei using rev_ind; [cbn in Hz; lia|].
  destruct (m_blocks d) as [|bd blobs _] eqn:Eb using rev_ind; [rewrite length_app in Hl; cbn in Hl; lia|].
  assert (Hx : bi_height x = Z.of_nat (length infos)) by (apply Hi; now apply list_lookup_middle).
  assert (Hi' : indexed bi_height infos) by (intros j y Hy; apply Hi; rewrite lookup_app_l; [assumption|eapply lookup_lt_Some, Hy]).
  rewrite !length_app in *. cbn [length] in *.
  assert (Ef : List.filter (fun y => negb (bi_height y =? Z.of_nat (length infos + 1) - 1)) (infos ++ [x]) = infos).
  { apply indexed_filter; [assumption|rewrite Hx; lia|lia]. }
  split; unfold height; cbn; rewrite ?Ef, ?removelast_last.
  - split; cbn; rewrite ?Ef, ?removelast_last; [assumption|lia].
  - unfold fits in *. lia.
  - intros i bd' bi' Hb Hbi. pose proof (lookup_lt_Some _ _ _ Hbi).
    specialize (Hv i bd' bi'). rewrite !lookup_app_l, take_app_le in Hv by lia. auto.
Qed.

Lemma pop_block_valid d d' b txs : valid_chain d -> pop_block init d = Returns (d', b, txs) -> valid_chain d'.
Proof.
  intros Hv E. unfold pop_block in E. apply result_bind_inv in E as (top & _ & E). apply result_bind_inv in E as (d1 & E1 & E).
  destruct top as [blk|]; [|discriminate]. apply result_bind_inv in E as ([d2 l] & E2 & E). apply result_bind_inv in E as (h & _ & E).
  apply result_bind_inv in E as (d3 & E3 & E). injection E as <- _ _. apply remove_block_valid in E1; [|assumption].
  apply pop_transactions_rows in E2. apply remove_transaction_rows in E3. apply (valid_chain_same d1); [|assumption].
  transitivity d2; assumption.
Qed.

(** ** The difficulty and the time of the next block *)

Lemma read_window_spec d : rows_ok d -> fits 64 (height d) ->
  read_window (window_offset (height d)) (height d) d =
  Returns (bi_timestamp <$> window_of (m_block_info d), row_difficulty <$> window_of (m_block_info d)).
Proof.
  intros Hr Hf. pose proof (height_rows d Hr) as Hh.
  set (o := if (length (m_block_info d) - DIFFICULTY_BLOCKS_COUNT =? 0)%nat then 1%nat else (length (m_block_info d) - DIFFICULTY_BLOCKS_COUNT)%nat).
  replace (window_offset (height d)) with (Z.of_nat o).
  2: { unfold window_offset, o. rewrite Hh. unfold DIFFICULTY_BLOCKS_COUNT.
       destruct (Nat.eqb_spec (length (m_block_info d) - 145) 0), (Z.eqb_spec (Z.of_nat (length (m_block_info d)) - Z.min (Z.of_nat (length (m_block_info d))) (Z.of_nat 145)) 0); lia. }
  rewrite Hh, read_window_to by auto. now rewrite take_ge by lia.
Qed.

End Rows.

(** ** Computations *)

Lemma run_bind {A B} (m : M A) (f : A -> M B) s (P : (blockchain * block_verification_context) * result B -> Prop) :
  (forall s', m s = (s', Throws) -> P (s', Throws)) -> (forall s' a, m s = (s', Returns a) -> P (f a s')) -> P ((m ≫= f) s).
Proof. intros Ht Hr. unfold mbind, M_bind. destruct (m s) as [s' [a|]]; auto. Qed.

Section Invariant.
Context `{Sodium} `{Sha3} `{UndefinedShift} `{Schedule} `{CachedSize} `{Settings} `{Clock} `{Torn} (init : rctData).

Definition good (c : contents) : Prop := c_torn c = false -> valid_chain (c_tables c).

Record inv (s : blockchain) : Prop := {
  i_committed : good (committed (m_db s));
  i_written c : write_txn (m_db s) = Some c -> good c;
  i_longhash id pow : m_blocks_longhash_table (tabs s) !! id = Some pow ->
    exists b, get_block_hash b (cached_size (miner_tx b)) = Returns id /\ get_mining_hash b (cached_size (miner_tx b)) = Returns pow }.

Lemma inv_current s : inv s -> good (current (m_db s)).
Proof. intros [Hc Hw _]. unfold current. destruct (write_txn (m_db s)) as [c|]; [now apply Hw|exact Hc]. Qed.

(** A computation that leaves database and tables alone, and one that keeps the invariant. *)
Definition quiet {A} (m : M A) : Prop := forall s, m_db (m s).1.1 = m_db s.1 /\ tabs (m s).1.1 = tabs s.1.
Definition keeps {A} (m : M A) : Prop := forall s, inv s.1 -> inv (m s).1.1.

Lemma inv_same s s' : m_db s' = m_db s -> tabs s' = tabs s -> inv s -> inv s'.
Proof. intros Ed Et [Hc Hw Hl]. split; rewrite ?Ed, ?Et; assumption. Qed.

Lemma quiet_keeps {A} (m : M A) : quiet m -> keeps m.
Proof. intros Hq s Hi. destruct (Hq s). eapply inv_same; eassumption. Qed.

Lemma quiet_ret {A} (a : A) : quiet (mret a). Proof. now intros s. Qed.
Lemma quiet_fail {A} : quiet (@fail A). Proof. now intros s. Qed.
Lemma quiet_reads {A} (f : blockchain -> A) : quiet (reads f). Proof. now intros s. Qed.
Lemma quiet_tries {A} (f : blockchain -> result A) : quiet (tries f). Proof. now intros s. Qed.
Lemma quiet_context : quiet context. Proof. now intros s. Qed.
Lemma quiet_marks f : quiet (marks f). Proof. now intros s. Qed.
Lemma quiet_bind {A B} (m : M A) (f : A -> M B) : quiet m -> (forall a, quiet (f a)) -> quiet (m ≫= f).
Proof.
  intros Hm Hf s. specialize (Hm s). apply run_bind; [intros s' E|intros s' a E]; rewrite E in Hm; cbn in *; [assumption|].
  specialize (Hf a s'). destruct Hm, Hf. split; congruence.
Qed.
Lemma quiet_modify f : (forall s, m_db (f s) = m_db s /\ tabs (f s) = tabs s) -> quiet (modify f).
Proof. intros Hf s. exact (Hf s.1). Qed.
Lemma keeps_bind {A B} (m : M A) (f : A -> M B) : keeps m -> (forall a, keeps (f a)) -> keeps (m ≫= f).
Proof.
  intros Hm Hf s Hi. specialize (Hm s Hi). apply run_bind; [intros s' E|intros s' a E]; rewrite E in Hm; [assumption|]. now apply Hf.
Qed.
Lemma keeps_own {A} (m : M A) : keeps m -> keeps (with_own_context m).
Proof. intros Hm s Hi. specialize (Hm (s.1, fresh_bvc) Hi). unfold with_own_context. destruct (m _) as [s' [a|]]; exact Hm. Qed.
Lemma keeps_catches {A} (m h : M A) : keeps m -> keeps h -> keeps (catches m h).
Proof. intros Hm Hh s Hi. specialize (Hm s Hi). unfold catches. destruct (m s) as [s' [a|]]; [exact Hm|]. now apply Hh. Qed.
Lemma keeps_modify f : (forall s, inv s -> inv (f s)) -> keeps (modify f).
Proof. intros Hf s Hi. now apply Hf. Qed.

#[local] Hint Resolve quiet_ret quiet_fail quiet_reads quiet_tries quiet_context quiet_marks quiet_keeps : chain.
#[local] Hint Extern 2 (quiet (modify _)) => (apply quiet_modify; intros ?; split; reflexivity) : chain.
#[local] Hint Extern 3 (quiet (if ?b then _ else _)) => destruct b : chain.
#[local] Hint Extern 3 (keeps (if ?b then _ else _)) => destruct b : chain.
#[local] Hint Extern 3 (quiet (match ?x with _ => _ end)) => destruct x : chain.
#[local] Hint Extern 3 (keeps (match ?x with _ => _ end)) => destruct x : chain.
#[local] Hint Extern 1 (quiet (_ ≫= _)) => (apply quiet_bind; [|intros ?]) : chain.
#[local] Hint Extern 2 (keeps (_ ≫= _)) => (apply keeps_bind; [|intros ?]) : chain.

Lemma quiet_difficulty_pass : quiet difficulty_pass.
Proof.
  unfold difficulty_pass. apply quiet_bind; [auto with chain|intros [top h]]. apply quiet_bind; [auto with chain|intros c]. cbv zeta.
  apply quiet_bind; [auto with chain|intros _]. apply quiet_bind; [auto with chain|intros c'].
  apply quiet_bind; [|intros _; apply quiet_bind; [auto with chain|intros [ts ds]]; do 3 (apply quiet_bind; [auto with chain|intros ?]); auto with chain].
  case_match; [|auto with chain]. intros s. apply run_bind; [intros s' E|intros s' a E]; injection E as <- E; [now split|].
  cbn. unfold push_newest in E. apply result_bind_inv in E as (x & _ & E). apply result_bind_inv in E as (y & _ & E). now injection E as <-.
Qed.

Lemma quiet_difficulty : quiet get_difficulty_for_next_block.
Proof.
  unfold get_difficulty_for_next_block. pose proof quiet_difficulty_pass. case_match; [auto with chain|].
  apply quiet_bind; [assumption|intros [D diff]]. case_match; [|auto with chain]. apply quiet_bind; [assumption|intros [? ?]]. auto with chain.
Qed.

Lemma quiet_return txs : quiet (return_tx_to_pool txs).
Proof. induction txs as [|[tx bd] txs IH]; cbn [return_tx_to_pool]; auto 10 with chain. Qed.
#[local] Hint Resolve quiet_difficulty quiet_return : chain.

Lemma quiet_refuse {A} txs : quiet (refuse (A := A) txs).
Proof. unfold refuse. auto 10 with chain. Qed.
Lemma quiet_take id : quiet (take_from_pool init id).
Proof. intros s. unfold take_from_pool. now destruct (take_tx _ _ _). Qed.
#[local] Hint Resolve quiet_refuse quiet_take : chain.

Lemma quiet_invalid bei id : quiet (modify (add_block_as_invalid bei id)).
Proof. apply quiet_modify. intros s. unfold add_block_as_invalid. now case_match. Qed.
#[local] Hint Resolve quiet_invalid : chain.

Lemma quiet_take_txs b id ids : forall txs fee w n, quiet (take_block_txs init b id ids txs fee w n).
Proof.
  induction ids as [|i ids IH]; intros txs fee w n; cbn [take_block_txs]; [auto with chain|].
  apply quiet_bind; [auto with chain|intros []]; [auto with chain|]. apply quiet_bind; [auto with chain|intros [t|]]; [|auto with chain].
  apply quiet_bind; [auto with chain|intros [[[ok tx] tvc] pm]]. case_match; [|apply IH].
  apply quiet_bind; [auto with chain|intros _]. auto with chain.
Qed.
#[local] Hint Resolve quiet_take_txs : chain.

(** ** What the checks of a block establish *)

Lemma db_same s s' : m_db s' = m_db s -> db s' = db s.
Proof. unfold db. now intros ->. Qed.

Lemma tail_height d h x : fits 64 (height d) -> top_block_hash d = Returns (h, x) -> x ⊞ 1 = height d.
Proof.
  intros Hf E. unfold top_block_hash in E. apply result_bind_inv in E as (y & _ & E). injection E as _ <-.
  unfold u64_add, u64_sub, wrap. rewrite Zplus_mod_idemp_l. replace (height d - 1 + 1) with (height d) by lia. now apply Z.mod_small.
Qed.

Lemma top_hash_last d h x : rows_ok d -> top_block_hash d = Returns (h, x) ->
  h = match last (m_block_info d) with Some p => bi_hash p | None => null_hash end.
Proof.
  intros Hr E. unfold top_block_hash in E. apply result_bind_inv in E as (y & Ey & E). injection E as <- _.
  rewrite (height_rows _ Hr) in Ey. destruct (m_block_info d) as [|p infos _] eqn:Ei using rev_ind.
  - cbn in Ey. now injection Ey as <-.
  - rewrite last_snoc. rewrite (proj2 (Z.eqb_neq _ _)) in Ey by (rewrite length_app; cbn; lia).
    unfold get_block_hash_from_height in Ey. rewrite <- Ei, <- (height_rows _ Hr) in Ey.
    rewrite (block_info_top d p Hr) in Ey by (rewrite Ei; apply last_snoc). now injection Ey as <-.
Qed.

Lemma difficulty_pass_spec s s' D diff :
  rows_ok (db s.1) -> fits 64 (height (db s.1)) -> difficulty_pass s = (s', Returns (D, diff)) ->
  next_difficulty (bi_timestamp <$> window_of (m_block_info (db s.1))) (row_difficulty <$> window_of (m_block_info (db s.1)))
    (height (db s.1)) = Returns diff.
Proof.
  intros Hr Hf. unfold difficulty_pass. apply run_bind; [discriminate|]. intros s1 [top h] E. injection E as <- E.
  apply (tail_height _ _ _ Hf) in E. apply run_bind; [discriminate|]. intros s2 c E2. injection E2 as <- <-. cbv zeta. rewrite E. clear E.
  apply run_bind; [discriminate|]. intros s3 [] E3.
  assert (Hd3 : db s3.1 = db s.1).
  { case_match; injection E3 as <-; reflexivity. } clear E3.
  apply run_bind; [discriminate|]. intros s4 c E4. injection E4 as <- <-. apply run_bind; [discriminate|]. intros s5 [] E5.
  assert (Hd5 : db s5.1 = db s.1).
  { rewrite <- Hd3. case_match; [|now injection E5 as <-]. revert E5. apply run_bind; [discriminate|]. intros s6 x Ex. injection Ex as <- Ex.
    intros E5. injection E5 as <-. cbn. unfold push_newest in Ex. apply result_bind_inv in Ex as (a & _ & Ex).
    apply result_bind_inv in Ex as (y & _ & Ex). now injection Ex as <-. } clear E5.
  apply run_bind; [discriminate|]. intros s6 [ts ds] E6. injection E6 as <- E6. rewrite Hd5, read_window_spec in E6 by assumption. injection E6 as <- <-.
  apply run_bind; [discriminate|]. intros s7 [] E7. injection E7 as <-. apply run_bind; [discriminate|]. intros s8 x E8. injection E8 as <- E8.
  apply run_bind; [discriminate|]. intros s9 [] E9. injection E9 as <-. intros E. injection E as _ _ <-.
  change (db (with_window _ _ _ s5.1)) with (db s5.1) in E8. now rewrite Hd5 in E8.
Qed.

Lemma difficulty_spec s s' diff :
  rows_ok (db s.1) -> fits 64 (height (db s.1)) -> get_difficulty_for_next_block s = (s', Returns diff) ->
  next_difficulty_of (m_block_info (db s.1)) = Returns diff.
Proof.
  intros Hr Hf. unfold get_difficulty_for_next_block, next_difficulty_of. rewrite <- (height_rows _ Hr).
  destruct (negb (m_fixed_difficulty =? 0)).
  - intros E. injection E as _ <-. f_equal. rewrite (height_rows _ Hr). now destruct (length (m_block_info (db s.1))).
  - apply run_bind; [discriminate|]. intros s1 [D x] E1. pose proof (quiet_difficulty_pass s) as [Hq _]. rewrite E1 in Hq. cbn in Hq.
    apply difficulty_pass_spec in E1; [|assumption|assumption]. case_match; [|intros E; now injection E as _ <-].
    apply run_bind; [discriminate|]. intros s2 [D' y] E2 E. injection E as _ <-. apply db_same in Hq.
    apply difficulty_pass_spec in E2; rewrite Hq in *; assumption.
Qed.

Lemma timestamp_spec b s :
  rows_ok (db s) -> check_block_timestamp b s = Returns true ->
  (11 <= length (m_block_info (db s)))%nat ->
  median (bi_timestamp <$> drop (length (m_block_info (db s)) - 11) (m_block_info (db s))) <= timestamp (header b).
Proof.
  intros Hr E Hl. unfold check_block_timestamp in E. case_match; [discriminate|]. rewrite (height_rows _ Hr) in E.
  unfold BLOCKCHAIN_TIMESTAMP_CHECK_WINDOW_V2 in E. destruct (Z.ltb_spec (Z.of_nat (length (m_block_info (db s)))) 11); [lia|].
  replace (Z.of_nat (length (m_block_info (db s))) - 11) with (Z.of_nat (length (m_block_info (db s)) - 11)) in E by lia.
  rewrite <- (height_rows _ Hr) in E. rewrite (read_rows bi_timestamp) in E by (assumption || reflexivity). cbn in E. injection E as E.
  unfold check_timestamps in E. apply negb_true_iff, Z.ltb_ge in E. exact E.
Qed.

(** ** Connecting a block *)

(** The checks of [handle_block_to_main_chain] before the transactions. *)
Record block_checked (d : chain_db) (b : block) (diff : Z) : Prop := {
  bk_prev : prev_id (header b) = match last (m_block_info d) with Some p => bi_hash p | None => null_hash end;
  bk_time : (11 <= length (m_block_info d))%nat ->
    median (bi_timestamp <$> drop (length (m_block_info d) - 11) (m_block_info d)) <= timestamp (header b);
  bk_diff : next_difficulty_of (m_block_info d) = Returns diff /\ diff <> 0;
  bk_work : exists id b' pow, get_block_hash b (cached_size (miner_tx b)) = Returns id /\
    get_block_hash b' (cached_size (miner_tx b')) = Returns id /\ get_mining_hash b' (cached_size (miner_tx b')) = Returns pow /\
    check_hash pow diff = true;
  bk_coinbase : m_block_info d <> [] -> is_Some (prevalidate_miner_transaction b (height d)) }.

Lemma prevalidate_height b h c : prevalidate_miner_transaction b h = Some c -> FormatUtils.get_block_height b = h.
Proof.
  unfold prevalidate_miner_transaction. destruct (h =? 0); [discriminate|].
  destruct (maybe_coinbase_tx (miner_tx b)) as [cb|] eqn:Ec; [|discriminate]. cbn [mbind option_bind].
  destruct (Z.eqb_spec (cb_height cb) h) as [Eh|]; [|discriminate]. intros _. rewrite <- Eh. clear Eh.
  unfold maybe_coinbase_tx in Ec. repeat (case_match; try discriminate).
  destruct (rule_22_coinbase_tx_should_have_only_one_input _) as [x|] eqn:E22; [|discriminate]. cbn [mbind option_bind] in Ec.
  destruct (rule_23_coinbase_tx_input_type_should_be_gen x) as [g|] eqn:E23; [|discriminate]. cbn [mbind option_bind] in Ec.
  destruct (check_tx_output_points _) as [ks|]; [|discriminate]. cbn [mbind option_bind] in Ec.
  destruct (rule_24_coinbase_output_amount_sum_should_not_overflow_amount_t _); [|discriminate]. cbn [mbind option_bind] in Ec.
  case_match; [discriminate|]. injection Ec as <-. cbn [cb_height].
  unfold FormatUtils.get_block_height, is_coinbase. rewrite E22, E23. cbn [negb].
  unfold rule_22_coinbase_tx_should_have_only_one_input in E22. destruct (vin (prefix (miner_tx b))) as [|y [|]]; try discriminate.
  injection E22 as <-. destruct y; [|discriminate]. cbn in E23. now injection E23 as <-.
Qed.

Lemma inv_write s d m t : inv s -> good {| c_tables := d; c_max_block_size := m; c_torn := t |} -> inv (writes d m t s).
Proof. intros [Hc Hw Hl] Hg. split; cbn; [assumption| |assumption]. intros c [= <-]. exact Hg. Qed.

Lemma keeps_update_limit : keeps update_next_cumulative_weight_limit.
Proof.
  unfold update_next_cumulative_weight_limit. apply keeps_bind; [|auto with chain]. case_match; [auto with chain|].
  apply keeps_modify. intros s Hi. apply inv_write; [assumption|]. exact (inv_current s Hi).
Qed.
#[local] Hint Resolve keeps_update_limit : chain.

Lemma keeps_block_added : keeps block_added.
Proof. unfold block_added. do 5 (apply keeps_bind; [auto with chain|intros ?]). auto with chain. Qed.
#[local] Hint Resolve keeps_block_added : chain.

Lemma keeps_failed_block txs : keeps (_ ← modify (fun s => with_flags (m_btc_valid s) false s); _ ← refuse (A := unit) txs; mret false).
Proof. do 2 (apply keeps_bind; [auto with chain|intros ?]). auto with chain. Qed.

Lemma validate_same h c w f k c' : validate_miner_transaction h c w f k = Some c' -> c' = c.
Proof.
  unfold validate_miner_transaction. destruct (h =? 0); [discriminate|]. destruct (negb (is_block_size_valid h w)); [discriminate|].
  destruct (negb _); [discriminate|]. now intros [= <-].
Qed.

(** The row that [connect_block] stores is valid. *)
Lemma connected_row d b diff w fees cb infos bd bi :
  infos = m_block_info d -> valid_chain d -> block_checked d b diff -> cb = prevalidate_miner_transaction b (height d) ->
  miner_tx_valid b cb w fees (from_option bi_coins 0 (last infos)) = Returns true ->
  block_to_blob b = Returns bd -> get_block_hash b (cached_size (miner_tx b)) = Returns (bi_hash bi) -> bi_height bi = height d ->
  bi_timestamp bi = timestamp (header b) -> bi_coins bi = next_already_generated_coins (from_option bi_coins 0 (last infos)) ->
  bi_weight bi = w -> row_difficulty bi = wrap 128 (diff + from_option row_difficulty 0 (last infos)) -> valid_row infos bd bi.
Proof.
  intros -> Hv [Hp Ht [Hd Hnz] (id & b' & pow & Eid & Eid' & Epow & Ech) Hc] -> Hm Ebd Ehash Eh Ets Eco Ew Edi.
  rewrite (height_rows _ (vc_rows _ Hv)) in *. split; [assumption| | |assumption].
  - exists b. split_and!; auto. intros Hne. specialize (Hc Hne) as [c Ec]. exists c, fees. split; [assumption|].
    unfold miner_tx_valid in Hm. rewrite Ec in Hm. rewrite (prevalidate_height _ _ _ Ec) in *. rewrite Ew.
    rewrite (proj2 (Z.eqb_neq _ _)) in Hm by (destruct (m_block_info d); [contradiction|cbn; lia]). injection Hm as Hm.
    apply bool_decide_eq_true in Hm as [c' Hm]. rewrite Hm. f_equal. exact (validate_same _ _ _ _ _ _ Hm).
  - rewrite Eid in Ehash. injection Ehash as ->. exists diff, b', pow. split_and!; auto.
Qed.

Lemma last_coins d : rows_ok d ->
  (if height d =? 0 then Returns 0 else get_block_already_generated_coins (height d - 1) d) = Returns (from_option bi_coins 0 (last (m_block_info d))) /\
  (if height d =? 0 then Returns 0 else get_block_cumulative_difficulty (height d - 1) d) = Returns (from_option row_difficulty 0 (last (m_block_info d))).
Proof.
  intros Hr. destruct (last (m_block_info d)) as [p|] eqn:El.
  - rewrite (proj2 (Z.eqb_neq _ _)) by (rewrite (height_rows _ Hr); destruct (m_block_info d); [discriminate|cbn; lia]).
    unfold get_block_already_generated_coins, get_block_cumulative_difficulty. rewrite (block_info_top d p Hr El). now split.
  - apply last_None in El. rewrite (height_rows _ Hr), El. now split.
Qed.

Lemma store_block_inv b w cd cg txs s s' r :
  inv s.1 -> fits 128 cd ->
  (forall bd bi, torn s.1 = false -> block_to_blob b = Returns bd -> get_block_hash b (cached_size (miner_tx b)) = Returns (bi_hash bi) ->
     bi_height bi = height (db s.1) -> bi_timestamp bi = timestamp (header b) -> bi_coins bi = cg -> bi_weight bi = w ->
     row_difficulty bi = cd -> valid_row (m_block_info (db s.1)) bd bi) ->
  store_block b w cd cg txs s = (s', r) -> inv s'.1.
Proof.
  intros Hi Hcd Hrow. unfold store_block.
  destruct (_ ← throw_unless (height (db s.1) <? u64_max); add_block b w _ cd cg txs (db s.1)) as [[d prev]|] eqn:E.
  - apply throw_unless_inv in E as [Hh E]. apply Z.ltb_lt in Hh. intros [= <- _]. apply inv_write; [assumption|]. intros Ht. cbn in Ht |- *.
    pose proof (inv_current _ Hi Ht) as Hv. fold (db s.1) in Hv.
    destruct (add_block_rows _ _ _ _ _ _ _ _ _ E Hcd) as (bd & bi & Eb & Ei & E1 & E2 & E3 & E4 & E5 & E6 & E7).
    eapply push_valid; [exact Hv|exact Eb|exact Ei| |now apply Hrow]. unfold u64_max, fits, height in *. lia.
  - intros [= <- _]. apply inv_write; [assumption|]. intros Ht. discriminate.
Qed.

(** What is known when [connect_block] starts. *)
Record ready (s : blockchain) (b : block) (h : Z) (coinbase : option coinbase_tx) (diff : Z) : Prop := {
  rd_height : h = height (db s);
  rd_checked : block_checked (db s) b diff;
  rd_coinbase : coinbase = prevalidate_miner_transaction b (height (db s)) }.

Lemma connect_block_inv b h coinbase diff txs fees w n s :
  inv s.1 -> (torn s.1 = false -> ready s.1 b h coinbase diff) -> inv (connect_block b h coinbase diff txs fees w n s).1.1.
Proof.
  intros Hi Hrd. unfold connect_block. apply run_bind; [discriminate|]. intros s0 checks E. injection E as <- <-. cbv zeta.
  destruct ((0 <? n) && _); [exact Hi|]. set (weight := if 0 <? n then _ else w).
  apply run_bind; [now intros s' [= <- _]|]. intros s0 coins E. injection E as <- Ec.
  apply run_bind; [now intros s' [= <- _]|]. intros s0 ok E. injection E as <- Eok.
  destruct ok; [|cbn [negb]; apply quiet_keeps; [|exact Hi]; apply quiet_bind; [apply quiet_refuse|intros ?; apply quiet_ret]].
  cbn [negb]. apply run_bind; [now intros s' [= <- _]|]. intros s0 pd E. injection E as <- Ed.
  apply run_bind; [discriminate|]. intros s0 bvc E. injection E as <- <-. destruct (b_verifivation_failed s.2); [now apply keeps_block_added|].
  assert (Hst : forall s' r, store_block b weight (wrap 128 (diff + pd)) (coins ⊞ get_block_reward coins) txs s = (s', r) -> inv s'.1).
  { intros s' r E. eapply store_block_inv; [exact Hi| | |exact E]; [apply wrap_fits; lia|]. intros bd bi Ht E1 E2 E3 E4 E5 E6 E7.
    destruct (Hrd Ht) as [-> Hck ->]. pose proof (inv_current _ Hi Ht) as Hv. destruct (last_coins _ (vc_rows _ Hv)) as [Lc Ld].
    fold (db s.1) in *. rewrite Lc in Ec. rewrite Ld in Ed. injection Ec as <-. injection Ed as <-.
    eapply connected_row; eauto. }
  apply run_bind; [intros s' E; eapply Hst, E|]. intros s' [prev|] E; apply Hst in E; [now apply keeps_block_added|now apply keeps_failed_block].
Qed.

(** [handle_block_to_main_chain] with the hash of the block. *)
Lemma main_chain_inv b id s :
  inv s.1 -> get_block_hash b (cached_size (miner_tx b)) = Returns id -> inv (handle_block_to_main_chain init b id s).1.1.
Proof.
  intros Hi Eid. unfold handle_block_to_main_chain. apply run_bind; [now intros s' [= <- _]|]. intros s0 [top h] E. injection E as <- Et. cbv zeta.
  destruct (bool_decide (prev_id (header b) = top)) eqn:Ep; cbn [negb]; [|exact Hi]. apply bool_decide_eq_true in Ep.
  apply run_bind; [now intros s' [= <- _]|]. intros s0 timely E. injection E as <- Etm. destruct timely; cbn [negb]; [|exact Hi].
  pose proof (quiet_difficulty s) as Hq. apply run_bind; [intros s1 E|intros s1 diff E]; rewrite E in Hq; cbn [fst] in Hq; destruct Hq as [Hq1 Hq2];
    (assert (Hi1 : inv s1.1) by (eapply inv_same; eassumption)); [exact Hi1|].
  destruct (Z.eqb_spec diff 0); [exact Hi1|].
  apply run_bind; [now intros s' [= <- _]|]. intros s0 pow E0. injection E0 as <- Epow.
  destruct (check_hash pow diff) eqn:Ech; cbn [negb]; [|exact Hi1].
  destruct (_ && _) eqn:Ecb; [exact Hi1|].
  apply run_bind; [now intros s' [= <- _]|]. intros s0 cw E0. injection E0 as <- _.
  pose proof (quiet_take_txs b id (tx_hashes b) [] 0 cw 0 s1) as Hq.
  apply run_bind; [intros s2 E2|intros s2 taken E2]; rewrite E2 in Hq; cbn [fst] in Hq; destruct Hq as [Hq3 Hq4];
    (assert (Hi2 : inv s2.1) by (eapply inv_same; [| |exact Hi1]; congruence)); [exact Hi2|].
  destruct taken as [[[[txs fees] w] n']|]; [|exact Hi2].
  apply connect_block_inv; [exact Hi2|]. intros Ht.
  assert (Hdb : db s2.1 = db s.1) by (unfold db; congruence).
  assert (Hv : valid_chain (db s.1)) by (apply (inv_current _ Hi); unfold torn in Ht; congruence).
  pose proof (vc_rows _ Hv) as Hr. pose proof (vc_fits _ Hv) as Hf.
  apply (tail_height _ _ _ Hf) in Et as Hh. rewrite Hh in *. split; rewrite Hdb; [reflexivity| |reflexivity].
  split.
  - rewrite Ep. eapply top_hash_last; eassumption.
  - intros Hl. now apply timestamp_spec.
  - split; [eapply difficulty_spec; eassumption|assumption].
  - destruct (m_blocks_longhash_table (tabs s1.1) !! id) as [x|] eqn:El.
    + injection Epow as <-. destruct (i_longhash _ Hi1 _ _ El) as (b' & E1' & E2'). exists id, b', x. auto.
    + exists id, b, pow. auto.
  - intros Hne. destruct (prevalidate_miner_transaction b (height (db s.1))); [eauto|]. exfalso. rewrite andb_true_r in Ecb.
    apply negb_false_iff, Z.eqb_eq in Ecb. rewrite (height_rows _ Hr) in Ecb. destruct (m_block_info (db s.1)); [contradiction|discriminate].
Qed.

Lemma keeps_add_to_main b : keeps (add_to_main_chain init b).
Proof.
  intros s Hi. unfold add_to_main_chain. apply run_bind; [now intros s' [= <- _]|]. intros s0 id E. injection E as <- Eid. now apply main_chain_inv.
Qed.

(** ** Removing blocks *)

Lemma inv_tabs s x : inv s ->
  (forall id pow, m_blocks_longhash_table x !! id = Some pow ->
     exists b, get_block_hash b (cached_size (miner_tx b)) = Returns id /\ get_mining_hash b (cached_size (miner_tx b)) = Returns pow) ->
  inv (with_tabs x s).
Proof. intros [Hc Hw _] Hx. split; assumption. Qed.

Lemma keeps_clear : keeps (modify clear_tabs).
Proof. apply keeps_modify. intros s Hi. apply inv_tabs; [assumption|]. intros id pow E. cbn in E. now rewrite lookup_empty in E. Qed.

Lemma keeps_unstore : keeps (unstore_block init).
Proof.
  intros s Hi. unfold unstore_block. destruct (pop_block init (db s.1)) as [[[d b] txs]|] eqn:E; apply inv_write; try assumption; intros Ht;
    [|discriminate]. eapply pop_block_valid; [|exact E]. exact (inv_current _ Hi Ht).
Qed.

Lemma quiet_return_popped txs : quiet (return_popped txs).
Proof.
  induction txs as [|tx txs IH]; cbn [return_popped]; [auto with chain|]. apply quiet_bind; [|auto with chain].
  destruct (is_coinbase tx); [auto with chain|]. apply quiet_bind; [auto with chain|intros ?]. auto with chain.
Qed.
#[local] Hint Resolve keeps_clear keeps_unstore quiet_return_popped : chain.

Lemma keeps_pop : keeps (pop_block_from_blockchain init).
Proof.
  unfold pop_block_from_blockchain. apply keeps_bind; [auto with chain|intros _]. apply keeps_bind; [auto with chain|intros h].
  destruct (negb (1 <? h)); [auto with chain|]. apply keeps_bind; [auto with chain|intros [b txs]].
  do 6 (apply keeps_bind; [auto with chain|intros ?]). auto with chain.
Qed.
#[local] Hint Resolve keeps_pop keeps_own keeps_add_to_main : chain.

Lemma keeps_pop_n n : keeps (pop_n init n).
Proof. induction n as [|n IH]; cbn [pop_n]; auto with chain. Qed.

(** ** Batches *)

Lemma inv_env s e : inv s -> good (committed e) -> (forall c, write_txn e = Some c -> good c) -> inv (with_env e s).
Proof. intros [_ _ Hl] Hc Hw. split; assumption. Qed.

Lemma keeps_start t : keeps (start_batch t).
Proof.
  intros s Hi. unfold start_batch. apply run_bind; [now intros s' [= <- _]|]. intros s0 [e r] E. injection E as <- E. cbn [fst snd].
  assert (Hi' : inv (with_env e s.1)).
  { unfold batch_start in E. apply throw_unless_inv in E as [_ E]. destruct (m_batch_active (m_db s.1)); [injection E as <- _; now destruct s as [[]]|].
    destruct (write_batch_txn (m_db s.1)); [injection E as <- _; now destruct s as [[]]|]. unfold throw_if in E. apply throw_unless_inv in E as [_ E].
    injection E as <- _. apply inv_env; [assumption|exact (i_committed _ Hi)|]. intros c [= <-]. exact (i_committed _ Hi). }
  apply run_bind; [discriminate|]. intros s1 [] E1. injection E1 as <-.
  apply quiet_keeps; [|exact Hi']. apply quiet_bind; [destruct r|intros ?]; auto with chain.
Qed.

Lemma keeps_commit t : keeps (commit_batch t).
Proof.
  intros s Hi. unfold commit_batch. apply run_bind; [now intros s' [= <- _]|]. intros s0 e E. injection E as <- E. unfold batch_stop in E.
  apply result_bind_inv in E as ([] & _ & E). injection E as <-. cbn [modify fst].
  apply (inv_same (with_env (cleanup_batch (commit_txn (m_db s.1))) s.1)); [reflexivity|reflexivity|].
  apply inv_env; [assumption|exact (inv_current _ Hi)|discriminate].
Qed.

Lemma keeps_abort t : keeps (abort_batch t).
Proof.
  intros s Hi. unfold abort_batch. apply run_bind; [now intros s' [= <- _]|]. intros s0 e E. injection E as <- E. unfold batch_abort in E.
  apply result_bind_inv in E as ([] & _ & E). injection E as <-. cbn [modify fst].
  apply (inv_same (with_env (cleanup_batch (m_db s.1)) s.1)); [reflexivity|reflexivity|].
  apply inv_env; [assumption|exact (i_committed _ Hi)|discriminate].
Qed.
#[local] Hint Resolve keeps_pop_n keeps_start keeps_commit keeps_abort keeps_catches : chain.

Lemma keeps_pop_blocks t n : keeps (pop_blocks init t n).
Proof.
  unfold pop_blocks. apply keeps_bind; [auto with chain|intros stop]. apply keeps_bind; [|intros failed; auto with chain].
  apply keeps_catches; [|auto with chain]. do 2 (apply keeps_bind; [auto with chain|intros ?]). auto with chain.
Qed.

(** ** Reorganisation *)

Lemma keeps_disconnect fuel target : forall l, keeps (disconnect init fuel target l).
Proof.
  induction fuel as [|fuel IH]; intros l; cbn [disconnect]; [auto with chain|]. apply keeps_bind; [auto with chain|intros [top h]].
  case_match; [auto with chain|]. apply keeps_bind; [auto with chain|]. auto.
Qed.

Lemma keeps_pop_to fuel target : keeps (pop_to_height init fuel target).
Proof. induction fuel as [|fuel IH]; cbn [pop_to_height]; auto 10 with chain. Qed.

Lemma keeps_connect_all blocks : keeps (connect_all init blocks).
Proof.
  induction blocks as [|b blocks IH]; cbn [connect_all]; [auto with chain|]. apply keeps_bind; [auto with chain|intros [r bvc]]. auto with chain.
Qed.
#[local] Hint Resolve keeps_disconnect keeps_pop_to keeps_connect_all : chain.

Lemma keeps_rollback l h : keeps (rollback_blockchain_switching init l h).
Proof.
  unfold rollback_blockchain_switching. apply keeps_bind; [auto with chain|intros h']. case_match; [auto with chain|].
  do 2 (apply keeps_bind; [auto with chain|intros ?]). auto with chain.
Qed.

(** Alternative blocks have tables of their own. *)
Lemma keeps_tables d : (forall s, same_rows (db s) (d s)) -> keeps (modify (fun s => with_tables (d s) s)).
Proof.
  intros Hd. apply keeps_modify. intros s Hi. apply inv_write; [assumption|]. intros Ht. eapply valid_chain_same; [apply Hd|].
  exact (inv_current _ Hi Ht).
Qed.

Lemma keeps_drop_alt id : keeps (drop_alt_block id).
Proof.
  intros s Hi. unfold drop_alt_block. apply run_bind; [now intros s' [= <- _]|]. intros s0 d E. injection E as <- E.
  unfold remove_alt_block in E. destruct (m_alt_blocks (db s.1) !! id); [|discriminate]. injection E as <-.
  exact (keeps_tables (fun s => with_alt_blocks (delete id (m_alt_blocks (db s))) (db s)) (fun _ => conj eq_refl eq_refl) s Hi).
Qed.
#[local] Hint Resolve keeps_rollback keeps_drop_alt : chain.

Lemma keeps_invalidate_all l : keeps (invalidate_all l).
Proof. induction l as [|x l IH]; cbn [invalidate_all]; auto 10 with chain. Qed.
Lemma keeps_drop_all l : keeps (drop_all_alt l).
Proof. induction l as [|x l IH]; cbn [drop_all_alt]; auto 10 with chain. Qed.
#[local] Hint Resolve keeps_invalidate_all keeps_drop_all : chain.

Lemma keeps_connect_alt l disconnected h : keeps (connect_alt init l disconnected h).
Proof.
  induction l as [|x l IH]; cbn [connect_alt]; [auto with chain|]. apply keeps_bind; [auto with chain|intros [r bvc]]. auto 10 with chain.
Qed.
#[local] Hint Resolve keeps_connect_alt : chain.

Lemma keeps_switch keep l : (forall blocks, keeps (keep blocks)) -> keeps (switch_with init keep l).
Proof.
  intros Hk. unfold switch_with. apply keeps_bind; [auto with chain|intros _]. destruct l as [|front l]; [auto with chain|].
  apply keeps_bind; [auto with chain|intros known]. destruct known; cbn [negb]; [|auto with chain].
  do 3 (apply keeps_bind; [auto with chain|intros ?]). apply keeps_bind; [auto with chain|intros ok].
  destruct ok; cbn [negb]; [|auto with chain]. do 2 (apply keeps_bind; [auto with chain|intros ?]). auto with chain.
Qed.

Lemma keeps_alternative depth : forall b id, keeps (handle_alternative_block init depth b id).
Proof.
  assert (Hstep : forall self : block -> hash -> M bool, (forall b id, keeps (self b id)) -> forall blocks,
    keeps ((fix keep (blocks : list block) : M unit :=
      match blocks with
      | [] => mret tt
      | old :: blocks' => old_id ← tries (fun _ => get_block_hash old (cached_size (miner_tx old))); _ ← with_own_context (self old old_id); keep blocks'
      end) blocks)).
  { intros self Hs. induction blocks as [|x l IH]; auto 10 with chain. }
  induction depth as [|depth IH]; intros b id; cbn [handle_alternative_block];
    (apply keeps_bind; [auto with chain|intros _]); (case_match; [auto with chain|]); cbv zeta;
    do 2 (apply keeps_bind; [auto with chain|intros ?]); (case_match; [auto with chain|]);
    (apply keeps_bind; [auto with chain|intros [[alt_chain ts]|]]; [|auto with chain]);
    do 2 (apply keeps_bind; [auto with chain|intros ?]); (case_match; [auto with chain|]);
    (apply keeps_bind; [auto with chain|intros diff]); (case_match; [auto with chain|]);
    (apply keeps_bind; [auto with chain|intros pow]); (case_match; [auto with chain|]); (case_match; [auto with chain|]);
    do 3 (apply keeps_bind; [auto with chain|intros ?]); (apply keeps_bind; [auto with chain|intros [w|]]; [|auto with chain]);
    (apply keeps_bind; [auto with chain|intros known]); (destruct known; [auto with chain|]);
    (apply keeps_bind; [auto with chain|intros bd]); (apply keeps_bind; [apply keeps_tables; now intros s|intros _]);
    (case_match; [|auto with chain]); (apply keeps_bind; [apply keeps_switch|intros r; auto with chain]).
  - apply (Hstep (fun _ _ => fail)). auto with chain.
  - apply (Hstep (handle_alternative_block init depth)). exact IH.
Qed.
#[local] Hint Resolve keeps_alternative : chain.

Lemma keeps_add_new_block depth b : keeps (add_new_block init depth b).
Proof.
  unfold add_new_block. apply keeps_catches; [|auto with chain]. intros s Hi. apply run_bind; [now intros s' [= <- _]|]. intros s0 id E. injection E as <- Eid.
  apply run_bind; [discriminate|]. intros s0 known E. injection E as <- _. destruct known; [exact Hi|].
  apply run_bind; [now intros s' [= <- _]|]. intros s0 [top h] E. injection E as <- _.
  case_match; [now apply main_chain_inv|]. apply keeps_bind; auto with chain.
Qed.

Lemma inv_own_txn s e e' t : inv s -> m_db s = e -> block_wtxn_start t e = Returns e' \/ block_wtxn_stop t e = Returns e' -> inv (with_env e' s).
Proof.
  intros Hi <- [E|E]; (apply inv_env; [assumption| |]).
  all: unfold block_wtxn_start, block_wtxn_stop, throw_if in E.
  all: repeat (apply throw_unless_inv in E as [_ E]); destruct (m_batch_active (m_db s)); try (apply throw_unless_inv in E as [_ E]); injection E as <-.
  all: try exact (i_committed _ Hi); try exact (inv_current _ Hi); try exact (i_written _ Hi); try discriminate.
  intros c [= <-]. exact (i_committed _ Hi).
Qed.

Lemma keeps_reset depth t b : keeps (reset_and_set_genesis_block init depth t b).
Proof.
  unfold reset_and_set_genesis_block. apply keeps_bind; [auto with chain|intros _]. apply keeps_bind; [auto with chain|intros _].
  intros s Hi. apply run_bind; [discriminate|]. intros s0 busy E. injection E as <- <-.
  destruct (bool_decide (is_Some (write_txn (m_db s.1)))) eqn:Ew; [exact Hi|]. apply bool_decide_eq_false, eq_None_not_Some in Ew.
  apply run_bind; [discriminate|]. intros s1 [] E1. injection E1 as <-.
  assert (Hi1 : inv (with_env (reset_env (m_db s.1)) s.1)).
  { apply inv_env; [assumption| |cbn; rewrite Ew; discriminate]. intros _. split; [split; [apply indexed_nil|reflexivity]|now split|].
    intros i bd bi E. cbn in E. now rewrite lookup_nil in E. }
  revert Hi1. generalize (with_env (reset_env (m_db s.1)) s.1). intros s1 Hi1.
  apply run_bind; [now intros s' [= <- _]|]. intros s0 e E. injection E as <- E.
  apply run_bind; [discriminate|]. intros s2 [] E2. injection E2 as <-. pose proof (inv_own_txn _ _ _ t Hi1 eq_refl (or_introl E)) as Hi2. cbn [fst] in *.
  pose proof (keeps_own _ (keeps_add_new_block depth b) (with_env e s1, s.2) Hi2) as Hi3.
  apply run_bind; [intros s3 E3|intros s3 [r bvc] E3]; rewrite E3 in Hi3; [exact Hi3|].
  pose proof (keeps_update_limit s3 Hi3) as Hi4. apply run_bind; [intros s4 E4|intros s4 r' E4]; rewrite E4 in Hi4; [exact Hi4|].
  apply run_bind; [now intros s' [= <- _]|]. intros s5 e' E5. injection E5 as <- E5.
  apply run_bind; [discriminate|]. intros s6 [] E6. injection E6 as <-. exact (inv_own_txn _ _ _ t Hi4 eq_refl (or_intror E5)).
Qed.

(** ** Incoming blocks *)

Lemma longhash_worker_honest blocks table : block_longhash_worker blocks = Returns table ->
  forall id pow, table !! id = Some pow ->
  exists b, get_block_hash b (cached_size (miner_tx b)) = Returns id /\ get_mining_hash b (cached_size (miner_tx b)) = Returns pow.
Proof.
  unfold block_longhash_worker. intros E. apply result_bind_inv in E as (rows & Er & E). injection E as <-.
  assert (Hrows : forall x, x ∈ rows -> exists b, get_block_hash b (cached_size (miner_tx b)) = Returns x.1 /\
    get_mining_hash b (cached_size (miner_tx b)) = Returns x.2).
  { revert rows Er. induction blocks as [|b blocks IH]; intros rows Er; cbn in Er; [injection Er as <-; intros x Hx; now apply elem_of_nil in Hx|].
    apply result_bind_inv in Er as (y & Ey & Er). apply result_bind_inv in Er as (l & El & Er). injection Er as <-.
    apply result_bind_inv in Ey as (i & Ei & Ey). apply result_bind_inv in Ey as (p & Ep & Ey). injection Ey as <-.
    intros x Hx. apply elem_of_cons in Hx as [->|Hx]; [now exists b|]. now apply (IH l). }
  clear Er. induction rows as [|x rows IH] using rev_ind; [intros id pow E; cbn in E; now rewrite lookup_empty in E|].
  rewrite foldl_snoc. intros id pow E. destruct (foldl _ ∅ rows !! x.1) eqn:El.
  - eapply IH; [|exact E]. intros y Hy. apply Hrows, elem_of_app. now left.
  - apply lookup_insert_Some in E as [[<- <-]|[_ E]]; [apply Hrows, elem_of_app; right; now apply list_elem_of_singleton|].
    eapply IH; [|exact E]. intros y Hy. apply Hrows, elem_of_app. now left.
Qed.

Lemma keeps_scan_table x : keeps (modify (fun s => with_scan_table (x s) s)).
Proof. apply keeps_modify. intros s Hi. apply inv_tabs; [assumption|]. exact (i_longhash _ Hi). Qed.
#[local] Hint Resolve keeps_scan_table : chain.

Lemma keeps_prepare t entries : keeps (prepare_handle_incoming_blocks init t entries).
Proof.
  unfold prepare_handle_incoming_blocks. destruct entries as [|[first txs] entries]; [auto with chain|].
  apply keeps_bind; [auto with chain|intros started]. case_match; [auto with chain|].
  apply keeps_bind; [auto with chain|intros _]. apply keeps_bind; [auto with chain|intros skip]. destruct skip; [auto with chain|].
  apply keeps_bind; [auto with chain|intros [tophash h]]. destruct (maybe_block_from_blob init first) as [fb|]; [|auto with chain].
  case_match; [auto with chain|]. apply keeps_bind; [auto with chain|intros [blocks|]]; [|auto with chain].
  apply keeps_bind; [auto with chain|intros ex]. destruct ex; [auto with chain|].
  intros s Hi. apply run_bind; [now intros s' [= <- _]|]. intros s0 table E. injection E as <- Et.
  apply run_bind; [discriminate|]. intros s1 [] E1. injection E1 as <-.
  assert (Hi1 : inv (with_longhash_table table s.1)) by (apply inv_tabs; [assumption|]; eapply longhash_worker_honest, Et).
  refine (keeps_bind _ _ _ _ (with_longhash_table table s.1, s.2) Hi1); [apply (keeps_scan_table (fun _ => ∅))|intros _].
  apply keeps_bind; [auto with chain|intros [l|]]; [|auto with chain]. apply keeps_bind; auto with chain.
Qed.

Lemma keeps_cleanup t : keeps (cleanup_handle_incoming_blocks t).
Proof.
  unfold cleanup_handle_incoming_blocks. apply keeps_bind.
  - apply keeps_catches; [|auto with chain]. apply keeps_bind; [auto with chain|intros good]. destruct good; [|apply keeps_bind; auto with chain].
    apply keeps_bind; [auto with chain|intros _]. apply keeps_bind; [|auto with chain].
    apply quiet_keeps, quiet_modify. intros s. now case_match.
  - intros success. apply keeps_bind; [auto with chain|intros _]. apply keeps_bind; [|auto with chain].
    apply keeps_modify. intros s Hi. case_match; [|assumption]. apply inv_tabs; [assumption|]. exact (i_longhash _ Hi).
Qed.

Lemma keeps_flush ids : keeps (flush_txes_from_pool init ids).
Proof.
  apply quiet_keeps. induction ids as [|i ids IH]; cbn [flush_txes_from_pool]; [auto with chain|]. apply quiet_bind; [auto with chain|intros here].
  apply quiet_bind; [|auto with chain]. destruct here; [|auto with chain]. apply quiet_bind; auto with chain.
Qed.

(** ** Every sequence of calls *)

(** What happens to the object: its methods, calls of the pool from elsewhere, and what the
    context holds before a call. *)
Inductive bc_step : blockchain -> blockchain -> Prop :=
| step_new_block depth b bvc s : bc_step s (add_new_block init depth b (s, bvc)).1.1
| step_reset depth thread b bvc s : bc_step s (reset_and_set_genesis_block init depth thread b (s, bvc)).1.1
| step_pop thread n bvc s : bc_step s (pop_blocks init thread n (s, bvc)).1.1
| step_prepare thread entries bvc s : bc_step s (prepare_handle_incoming_blocks init thread entries (s, bvc)).1.1
| step_cleanup thread bvc s : bc_step s (cleanup_handle_incoming_blocks thread (s, bvc)).1.1
| step_flush ids bvc s : bc_step s (flush_txes_from_pool init ids (s, bvc)).1.1
| step_flush_invalid s : bc_step s (flush_invalid_blocks s)
| step_start thread bvc s : bc_step s (start_batch thread (s, bvc)).1.1
| step_commit thread bvc s : bc_step s (commit_batch thread (s, bvc)).1.1
| step_abort thread bvc s : bc_step s (abort_batch thread (s, bvc)).1.1
| step_template_cache s : bc_step s (invalidate_block_template_cache s)
| step_next_difficulty bvc s : bc_step s (get_difficulty_for_next_block (s, bvc)).1.1
| step_pool x s : bc_step s (with_pool x s).

(** Before the first block: no rows in the database, no table read ahead. *)
Definition fresh (s : blockchain) : Prop :=
  c_torn (committed (m_db s)) = false /\ m_blocks (c_tables (committed (m_db s))) = [] /\ m_block_info (c_tables (committed (m_db s))) = [] /\
  write_txn (m_db s) = None /\ m_blocks_longhash_table (tabs s) = ∅.

Lemma fresh_inv s : fresh s -> inv s.
Proof.
  intros (_ & Eb & Ei & Ew & El). split.
  - intros _. split; [split|unfold height|]; rewrite ?Eb, ?Ei; [apply indexed_nil|reflexivity|now split|]. intros i bd bi E. now rewrite lookup_nil in E.
  - intros c E. now rewrite Ew in E.
  - intros id pow E. now rewrite El, lookup_empty in E.
Qed.

Lemma step_inv s s' : bc_step s s' -> inv s -> inv s'.
Proof.
  intros Hstep Hi. destruct Hstep.
  - now apply keeps_add_new_block.
  - now apply keeps_reset.
  - now apply keeps_pop_blocks.
  - now apply keeps_prepare.
  - now apply keeps_cleanup.
  - now apply keeps_flush.
  - eapply inv_same; [| |exact Hi]; reflexivity.
  - now apply keeps_start.
  - now apply keeps_commit.
  - now apply keeps_abort.
  - eapply inv_same; [| |exact Hi]; reflexivity.
  - apply quiet_keeps; [apply quiet_difficulty|assumption].
  - eapply inv_same; [| |exact Hi]; reflexivity.
Qed.

Lemma reachable_inv s s' : fresh s -> rtc bc_step s s' -> inv s'.
Proof. intros Hf Hs. apply fresh_inv in Hf. induction Hs; [assumption|]. eauto using step_inv. Qed.

(** The coins of the rows of a valid chain. *)
Lemma valid_coins d i bi : valid_chain d -> m_block_info d !! i = Some bi -> bi_coins bi = coins_after (S i).
Proof.
  intros Hv. revert bi. induction i as [i IH] using lt_wf_ind. intros bi Hbi.
  assert (Hl : (i < length (m_blocks d))%nat) by (rewrite <- (ro_length _ (vc_rows _ Hv)); eapply lookup_lt_Some, Hbi).
  destruct (lookup_lt_is_Some_2 _ _ Hl) as [bd Hbd]. rewrite (vr_coins _ _ _ (vc_valid _ Hv i bd bi Hbd Hbi)). cbn [coins_after]. f_equal.
  destruct i as [|i]; [reflexivity|]. pose proof (lookup_lt_Some _ _ _ Hbi).
  destruct (lookup_lt_is_Some_2 (m_block_info d) i ltac:(lia)) as [p Hp].
  rewrite (take_S_r _ i p Hp), last_snoc. cbn. apply IH; [lia|assumption].
Qed.

End Invariant.

End BlockchainInv.
