(* ===== verification/ScanTable.v ===== *)
(** The outputs read ahead for incoming blocks ([Blockchain::prepare_handle_incoming_blocks]): a
    table that only saves time.  The checks of a transaction with the table give what they
    give when every output is read from the database. *)

From stdpp Require Import gmap sorting.
From S2P Require Import Prelude Hash Config Difficulty Varint Serialization Primality Group ModelGroup Key RctOps VectorOps InnerProduct Bulletproof Clsag RctTypes TxTypes Consensus Coinbase FormatUtils RingCT PoolTable TxPool BlockTemplate ChainDb ChainDbInv LmdbTxn TxCheck Blockchain.

Module ScanTable.
Import Config Serialization.Archive Clsag RctTypes TxTypes Consensus FormatUtils TxPool ChainDb TxCheck Blockchain.

Section Agree.
Context `{Sodium} `{Sha3} `{UndefinedShift} `{Schedule} (d : chain_db).

Lemma get_output_keys_spec amount offs os : Forall2 (is_output d amount) offs os -> get_output_keys amount offs true d = Returns os.
Proof.
  induction 1 as [|i o offs os Hi _ IH]; cbn; [reflexivity|]. unfold is_output, get_output_key in Hi.
  destruct (find_output amount i d); [|discriminate]. injection Hi as <-. now rewrite IH.
Qed.

Lemma get_all_output_keys_iff amount offs os : get_all_output_keys d amount offs = Some os <-> Forall2 (is_output d amount) offs os.
Proof.
  split; [apply get_all_output_keys_spec|]. intros F. unfold get_all_output_keys. rewrite (get_output_keys_spec _ _ _ F).
  now rewrite (Forall2_length _ _ _ F), Nat.eqb_refl.
Qed.

(** Outputs that agree with the database make no difference to the loop. *)
Lemma scan_loop_agrees amount outs offs : forall count keys pmax,
  (forall j i o, offs !! j = Some i -> outs !! (count + j)%nat = Some o -> is_output d amount i o) ->
  scan_loop d amount outs offs count keys pmax = scan_loop d amount [] offs count keys pmax.
Proof.
  induction offs as [|i offs IH]; intros count keys pmax Ho; [reflexivity|]. cbn [scan_loop]. rewrite lookup_nil.
  assert (E : (match outs !! count with Some o => Returns o | None => get_output_key d amount i end) = get_output_key d amount i).
  { destruct (outs !! count) as [o|] eqn:Ec; [|reflexivity]. symmetry. apply (Ho 0%nat); [reflexivity|now rewrite Nat.add_0_r]. }
  rewrite E. destruct (get_output_key d amount i) as [o|]; [|reflexivity]. destruct (handle_output d o); [|reflexivity].
  apply IH. intros j i' o' Hj Ho'. apply (Ho (S j)); [assumption|]. now rewrite Nat.add_succ_r.
Qed.

Lemma scan_loop_refused amount outs offs : forall count keys pmax,
  (scan_loop d amount outs offs count keys pmax).1.1 = false -> (scan_loop d amount outs offs count keys pmax).2 = pmax.
Proof.
  induction offs as [|i offs IH]; intros count keys pmax; cbn [scan_loop]; [discriminate|].
  destruct (match outs !! count with Some o => Returns o | None => _ end) as [o|]; [|reflexivity].
  destruct (handle_output d o); [|reflexivity]. destruct offs; [discriminate|]. apply IH.
Qed.

(** Two results of a check of an input that lead to the same verdict. *)
Definition same_verdict (r r' : bool * list output_public_data * Z) : Prop :=
  r.1.1 = r'.1.1 /\ r.2 = r'.2 /\ (r.1.1 = true -> r.1.2 = r'.1.2).

(** The check that reads every output when it needs it. *)
Definition read_each (x : txin_from_key_t) (pmax : Z) : bool * list output_public_data * Z :=
  if (length (output_relative_offsets x) =? 0)%nat then (false, [], pmax) else scan_loop d (in_amount x) [] (ring_indices x) 0 [] pmax.

Lemma check_ringct_input_reads table x h pmax : scan_agrees d table h x -> same_verdict (check_ringct_input d table x h pmax) (read_each x pmax).
Proof.
  intros Ha. unfold check_ringct_input, scan_outputkeys_for_indexes, read_each. fold (ring_indices x).
  destruct (Nat.eqb_spec (length (output_relative_offsets x)) 0); [now split|].
  destruct (scan_loop d (in_amount x) [] (ring_indices x) 0 [] pmax) as [[ok ks] pm] eqn:Es.
  destruct (collect_outputs d table x h (ring_indices x)) as [outs|] eqn:Ec.
  - apply collect_outputs_spec in Ec; [|assumption]. rewrite scan_loop_agrees, Es.
    + destruct ok; [|now split]. cbn [negb]. apply scan_loop_spec in Es as (os & F & _ & -> & _); [|intros j i o _ Ho; now rewrite lookup_nil in Ho].
      rewrite (proj2 (Nat.eqb_eq _ _)); [now split|]. apply Forall2_length in F. cbn. rewrite length_fmap, <- F. symmetry. apply length_absolute.
    + intros j i o Hi Ho. cbn in Ho. pose proof (lookup_lt_Some _ _ _ Ho) as Hl.
      destruct (Forall2_lookup_r _ _ _ j o Ec Ho) as (i' & Hi' & Hio). rewrite lookup_take_lt in Hi' by assumption. congruence.
  - destruct ok.
    + exfalso. apply scan_loop_spec in Es as (os & F & _); [|intros j i o _ Ho; now rewrite lookup_nil in Ho].
      unfold collect_outputs in Ec. destruct (table !! h ≫= _) as [l|] eqn:El.
      * case_match; [|discriminate]. apply Ha in El. rewrite (proj2 (get_all_output_keys_iff _ _ (drop (length l) os))) in Ec; [discriminate|].
        apply Forall2_drop, F.
      * now rewrite (proj2 (get_all_output_keys_iff _ _ os) F) in Ec.
    + pose proof (scan_loop_refused (in_amount x) [] (ring_indices x) 0 [] pmax) as Hp. rewrite Es in Hp. specialize (Hp eq_refl). cbn in Hp. now split.
Qed.

Lemma check_each_input_reads table ins h : forall tvc pmax pubkeys,
  (forall x, txin_from_key x ∈ ins -> scan_agrees d table h x) ->
  check_each_input d table ins h tvc pmax pubkeys = check_each_input d ∅ ins h tvc pmax pubkeys.
Proof.
  induction ins as [|[g|x] ins IH]; intros tvc pmax pubkeys Ha; cbn [check_each_input]; [reflexivity|reflexivity|].
  do 2 (case_match; [reflexivity|]).
  pose proof (check_ringct_input_reads table x h pmax (Ha x (list_elem_of_here _ _))) as (E1 & E2 & E3).
  destruct (check_ringct_input_reads ∅ x h pmax) as (F1 & F2 & F3); [intros outs E; now rewrite lookup_empty in E|].
  destruct (check_ringct_input d table x h pmax) as [[ok keys] pm], (check_ringct_input d ∅ x h pmax) as [[ok' keys'] pm'].
  cbn [fst snd] in *. assert (ok = ok') as <- by congruence. assert (pm = pm') as <- by congruence. destruct ok; [|reflexivity].
  rewrite (E3 eq_refl), (F3 eq_refl). apply IH. intros y Hy. apply Ha. now constructor.
Qed.

(** Agreement is needed only for inputs with distinct key images: others are refused before. *)
Lemma check_inputs_reads table tx tvc :
  (forall h xs, get_transaction_prefix_hash tx = Returns h -> vin (prefix tx) = txin_from_key <$> xs -> NoDup (output_key_image <$> xs) ->
     forall x, x ∈ xs -> scan_agrees d table h x) ->
  check_inputs d table tx tvc = check_inputs d ∅ tx tvc.
Proof.
  intros Ha. unfold check_inputs. destruct (get_transaction_prefix_hash tx) as [h|]; [|reflexivity]. cbn [mbind result_bind].
  case_match; [reflexivity|]. destruct (mixin_range _) as [lo hi]. do 4 (case_match; [reflexivity|]).
  destruct (result_mapM get_from_key (vin (prefix tx))) as [xs|] eqn:Exs; [|reflexivity]. cbn [mbind result_bind].
  destruct (rule_18_ringct_input_key_images_should_be_sorted _) eqn:E18; [|reflexivity]. cbn [negb].
  apply rule_18_NoDup in E18. apply NoDup_fmap_1 in E18.
  assert (Ev : vin (prefix tx) = txin_from_key <$> xs).
  { clear -Exs. revert xs Exs. induction (vin (prefix tx)) as [|[g|x] l IH]; intros xs E; cbn in E; [now injection E as <-|discriminate|].
    apply result_bind_inv in E as (l' & El & E). injection E as <-. cbn. f_equal. now apply IH. }
  rewrite (check_each_input_reads table); [reflexivity|]. rewrite Ev. intros x Hx. apply list_elem_of_fmap in Hx as (y & E & Hy). injection E as ->.
  exact (Ha h xs eq_refl Ev E18 y Hy).
Qed.

End Agree.

(** ** The table that is built *)

Section Built.
Context `{Sodium} `{Sha3} `{UndefinedShift} `{Schedule} `{CachedSize} (init : rctData).

(** A later database with the outputs of an earlier one. *)
Definition extends (d d' : chain_db) : Prop := forall a i o, is_output d a i o -> is_output d' a i o.

Lemma pick_outputs_agrees d amount offsets outs needed :
  Forall2 (is_output d amount) (take (length outs) offsets) outs ->
  let picked := pick_outputs needed offsets outs in Forall2 (is_output d amount) (take (length picked) needed) picked.
Proof.
  intros F. cbn zeta. induction needed as [|i needed IH]; cbn [pick_outputs]; [constructor|].
  destruct (list_find (eq i) offsets) as [[pos i']|] eqn:Ef; [|constructor]. apply list_find_Some in Ef as (Hp & -> & _).
  destruct (outs !! pos) as [o|] eqn:Eo; [|constructor]. cbn. constructor; [|exact IH].
  destruct (Forall2_lookup_r _ _ _ pos o F Eo) as (j & Hj & Hjo). rewrite lookup_take_lt in Hj by (eapply lookup_lt_Some, Eo). congruence.
Qed.

Lemma output_scan_worker_agrees d amount offsets :
  Forall2 (is_output d amount) (take (length (output_scan_worker amount offsets d)) offsets) (output_scan_worker amount offsets d).
Proof.
  unfold output_scan_worker. destruct (get_output_keys amount offsets true d) as [l|] eqn:E; [now apply get_output_keys_all|constructor].
Qed.

Lemma scan_row_spec txes d tx k outs : scan_row txes d tx !! k = Some outs ->
  exists x, x ∈ from_keys tx /\ output_key_image x = k /\ Forall2 (is_output d (in_amount x)) (take (length outs) (ring_indices x)) outs.
Proof.
  unfold scan_row. induction (from_keys tx) as [|x l IH] using rev_ind; [cbn; now rewrite lookup_empty|]. rewrite foldl_snoc.
  destruct (foldl _ ∅ l !! output_key_image x).
  - intros E. destruct (IH E) as (y & Hy & ?). exists y. split; [|assumption]. apply elem_of_app. now left.
  - intros [[<- <-]|[_ E]]%lookup_insert_Some.
    + exists x. split; [apply elem_of_app; right; now apply list_elem_of_singleton|]. split; [reflexivity|].
      apply pick_outputs_agrees, output_scan_worker_agrees.
    + destruct (IH E) as (y & Hy & ?). exists y. split; [|assumption]. apply elem_of_app. now left.
Qed.

Lemma parse_incoming_spec blobs : forall seen txes, parse_incoming init blobs seen = Returns (Some txes) ->
  NoDup txes.*2 /\ Forall (fun t => t.2 ∉ seen /\ get_transaction_prefix_hash t.1 = Returns t.2) txes.
Proof.
  induction blobs as [|bd blobs IH]; intros seen txes E; cbn [parse_incoming] in E; [injection E as <-; split; constructor|].
  destruct (maybe_tx_from_blob init bd) as [tx|]; [|discriminate]. apply result_bind_inv in E as (h & Eh & E). case_match; [discriminate|].
  apply result_bind_inv in E as (xs & _ & E). apply result_bind_inv in E as (r & Er & E). destruct r as [l|]; [|discriminate]. injection E as <-.
  destruct (IH _ _ Er) as [Hn Hf]. cbn. split; constructor.
  - intros Hin. apply list_elem_of_fmap in Hin as (t & -> & Ht). rewrite Forall_forall in Hf. destruct (Hf t Ht) as [Hs _]. set_solver.
  - exact Hn.
  - split; [|exact Eh]. cbn. eapply bool_decide_eq_false_1; eassumption.
  - eapply Forall_impl; [exact Hf|]. cbn. intros t [Hs ?]. split; [set_solver|assumption].
Qed.

Lemma from_keys_vin tx xs : vin (prefix tx) = txin_from_key <$> xs -> from_keys tx = xs.
Proof. intros E. unfold from_keys. rewrite E. clear E. induction xs as [|x xs IH]; [reflexivity|]. cbn. f_equal. exact IH. Qed.

(** C27: Reading ahead changes nothing.  For every transaction of a group of incoming blocks, the
    check of its inputs with the table of outputs that was built before the group
    gives the same verdict, the same expanded transaction and the same flags as the
    check that reads every output from the database, now or after more blocks. *)
Theorem scan_table_transparent (blobs : list blob) (txes : list (transaction * hash)) (d d' : chain_db) (tx : transaction) (h : hash) tvc :
  parse_incoming init blobs ∅ = Returns (Some txes) -> (tx, h) ∈ txes -> extends d d' ->
  check_inputs d' (build_scan_table txes d) tx tvc = check_inputs d' ∅ tx tvc.
Proof.
  intros Ep Hin Hx. destruct (parse_incoming_spec _ _ _ Ep) as [Hn Hf]. apply check_inputs_reads. intros h' xs Eh Ev Hnd x Hxs outs Eo.
  rewrite Forall_forall in Hf. destruct (Hf _ Hin) as [_ Eh']. cbn in Eh'. rewrite Eh in Eh'. injection Eh' as ->.
  apply bind_Some in Eo as (row & Er & Eo). unfold build_scan_table in Er. apply elem_of_list_to_map_2 in Er.
  apply list_elem_of_fmap in Er as ([tx' h'] & [= -> ->] & Hin').
  assert (tx' = tx) as ->.
  { apply list_elem_of_lookup in Hin as [i Hi], Hin' as [j Hj].
    assert (i = j) as -> by (eapply (NoDup_lookup txes.*2); [exact Hn| |]; rewrite list_lookup_fmap, ?Hi, ?Hj; reflexivity). congruence. }
  apply scan_row_spec in Eo as (y & Hy & Ek & F). rewrite (from_keys_vin tx xs Ev) in Hy.
  assert (y = x) as ->.
  { apply list_elem_of_lookup in Hxs as [i Hi], Hy as [j Hj].
    assert (i = j) as -> by (apply (NoDup_lookup (output_key_image <$> xs) i j (output_key_image x)); [exact Hnd| |]; rewrite list_lookup_fmap, ?Hi, ?Hj; cbn; congruence). congruence. }
  eapply Forall2_impl; [exact F|]. exact (Hx (in_amount x)).
Qed.

End Built.

(** ** A block keeps the outputs *)

Section Grow.
Context `{Sodium} `{Sha3} `{UndefinedShift} `{Schedule} `{CachedSize}.

#[export] Instance extends_preorder : PreOrder extends.
Proof. split; [now intros d a i o|]. intros d1 d2 d3 H12 H23 a i o Ho. apply H23, H12, Ho. Qed.

Lemma extends_same d d' : m_output_amounts d' = m_output_amounts d -> extends d d'.
Proof. intros E a i o. unfold is_output, get_output_key, find_output. now rewrite E. Qed.

Lemma find_keeps {A} (f : A -> bool) l x r : List.find f l = Some r -> List.find f (l ++ [x]) = Some r.
Proof. induction l as [|y l IH]; cbn; [discriminate|]. now destruct (f y). Qed.

Lemma add_output_extends h o i u c d d' n : add_output h o i u c d = Returns (d', n) -> extends d d'.
Proof.
  unfold add_output, throw_if. intros E. apply throw_unless_inv in E as [_ E]. apply throw_unless_inv in E as [_ E]. injection E as <- _.
  intros a j od. unfold is_output, get_output_key, find_output. cbn. destruct (decide (amount o = a)) as [<-|Hne].
  - rewrite lookup_insert_eq. destruct (m_output_amounts d !! amount o) as [l|]; [|discriminate]. cbn [mbind option_bind default from_option].
    destruct (List.find _ l) as [r|] eqn:Ef; [|discriminate]. now rewrite (find_keeps _ _ _ _ Ef).
  - now rewrite lookup_insert_ne by congruence.
Qed.

Lemma add_outputs_extends tx h outs : forall i d d' ixs, add_outputs tx h i outs d = Returns (d', ixs) -> extends d d'.
Proof.
  induction outs as [|o outs IH]; intros i d d' ixs E; cbn in E; [now injection E as <- _|].
  apply result_bind_inv in E as ([o' c] & _ & E). apply result_bind_inv in E as ([d1 n] & E1 & E).
  apply result_bind_inv in E as ([d2 ixs'] & E2 & E). injection E as <- _. cbn [fst snd] in *.
  transitivity d1; [eapply add_output_extends, E1|eapply IH, E2].
Qed.

Lemma add_transaction_extends tx bd h d d' : add_transaction tx bd h d = Returns d' -> extends d d'.
Proof.
  intros E. unfold add_transaction in E. apply result_bind_inv in E as (d1 & E1 & E). apply result_bind_inv in E as ([d2 id] & E2 & E).
  apply result_bind_inv in E as ([d3 ixs] & E3 & E). unfold add_tx_amount_output_indices in E.
  apply result_bind_inv in E as (to & _ & E). injection E as <-. cbn [fst snd] in *.
  destruct (ChainDbInv.ChainDbInv.add_inputs_spec _ _ _ E1) as (_ & _ & ->).
  destruct (ChainDbInv.ChainDbInv.add_transaction_data_inv _ _ _ _ _ _ E2) as (n & _ & _ & _ & _ & ->).
  apply add_outputs_extends in E3. etransitivity; [|etransitivity; [exact E3|]]; now apply extends_same.
Qed.

Lemma add_transactions_extends txs : forall hs d d', add_transactions txs hs d = Returns d' -> extends d d'.
Proof.
  induction txs as [|[tx bd] txs IH]; intros [|h hs] d d' E; cbn in E; try now injection E as <-.
  apply result_bind_inv in E as (d1 & E1 & E). transitivity d1; [eapply add_transaction_extends, E1|eapply IH, E].
Qed.

Lemma add_block_extends b w lw cd cg txs d d' prev : add_block b w lw cd cg txs d = Returns (d', prev) -> extends d d'.
Proof.
  intros E. unfold add_block in E. apply throw_unless_inv in E as [_ E].
  apply result_bind_inv in E as (bh & _ & E). apply result_bind_inv in E as (mb & _ & E). apply result_bind_inv in E as (mh & _ & E).
  apply result_bind_inv in E as (d1 & E1 & E). apply result_bind_inv in E as (d2 & E2 & E). apply result_bind_inv in E as (d3 & E3 & E).
  injection E as <- _. apply add_transaction_extends in E1. apply add_transactions_extends in E2.
  transitivity d2; [now transitivity d1|]. unfold add_block_data, throw_if in E3. apply throw_unless_inv in E3 as [_ E3].
  apply result_bind_inv in E3 as ([] & _ & E3). apply result_bind_inv in E3 as (bd & _ & E3). apply result_bind_inv in E3 as (cum & _ & E3).
  injection E3 as <-. now apply extends_same.
Qed.

End Grow.

(** ** Examples *)

Section Examples.
Import ModelGroup.
#[local] Existing Instance RollingDigest.rolling_sha3.
#[local] Instance no_shift : UndefinedShift := fun _ => 0.
#[local] Instance uncached : CachedSize := fun _ => 0.
#[local] Instance in_order : Schedule := fun n => seq 0 n.
Import ChainDbInv.ChainDbInv.

Definition ahead : list (transaction * hash) :=
  match parse_incoming db_init [spend_bytes] ∅ with Returns (Some l) => l | _ => [] end.

(** The signed transaction, whose ring was read before a block was added. *)
Definition next_entry : entry := wide_entry (wide_block 6 (match top_block_hash wide_db with Returns t => t.1 | Throws => [] end) [9]).
Definition longer_db : chain_db := match add_entry next_entry wide_db with Returns (d, _) => d | Throws => wide_db end.

Lemma longer_extends : extends wide_db longer_db.
Proof.
  assert (E : match add_entry next_entry wide_db with Returns (_, p) => p | Throws => -1 end = 6) by (vm_cast_no_check (eq_refl 6)).
  unfold longer_db. destruct (add_entry next_entry wide_db) as [[d p]|] eqn:Ea; [|discriminate E]. eapply add_block_extends, Ea.
Qed.

Lemma scan_table_transparent_witness :
  exists tx h, ahead = [(tx, h)] /\ build_scan_table ahead wide_db <> ∅ /\
  check_inputs longer_db (build_scan_table ahead wide_db) tx spend_context = check_inputs longer_db ∅ tx spend_context.
Proof.
  assert (E : match ahead with [_] => true | _ => false end = true) by (vm_cast_no_check (eq_refl true)).
  assert (Ep : match parse_incoming db_init [spend_bytes] ∅ with Returns (Some _) => true | _ => false end = true) by (vm_cast_no_check (eq_refl true)).
  assert (Ep' : parse_incoming db_init [spend_bytes] ∅ = Returns (Some ahead)).
  { unfold ahead. now destruct (parse_incoming db_init [spend_bytes] ∅) as [[l|]|]. }
  destruct ahead as [|[t h] [|]]; try discriminate E. exists t, h. split; [reflexivity|]. split.
  - unfold build_scan_table. cbn. apply insert_non_empty.
  - apply (scan_table_transparent db_init [spend_bytes] _ wide_db longer_db t h); [exact Ep'|constructor|exact longer_extends].
Defined.

End Examples.

End ScanTable.
