(* ===== verification/ChainSafety.v ===== *)
(** What the block chain promises, whatever blocks arrive: the main chain is valid, a block
    that is added has been checked, a reorganisation needs more work, and the
    difficulty of a block does not depend on which chain is the main one. *)

From stdpp Require Import gmap sorting.
From S2P Require Import Prelude Hash Config Difficulty Varint Serialization Primality Group ModelGroup Key RctOps VectorOps InnerProduct Bulletproof Clsag RctTypes TxTypes Consensus Coinbase FormatUtils RingCT PoolTable TxPool TxPoolInv BlockTemplate ChainDb ChainDbInv LmdbTxn TxCheck Blockchain BlockchainInv.

Module ChainSafety.
Import Config Difficulty Serialization.Archive Clsag RctTypes TxTypes Consensus Coinbase FormatUtils TxPool BlockTemplate ChainDb ChainDbInv LmdbTxn TxCheck Blockchain BlockchainInv.

(** ** The main chain *)

Section MainChain.
Context `{Sodium} `{Sha3} `{UndefinedShift} `{Schedule} `{CachedSize} `{Settings} `{Clock} `{Torn} (init : rctData).

(** C1: The main chain is always valid.  After any sequence of calls from an empty database
    (new blocks in any order, with reorganisations and rollbacks, blocks popped, the chain reset, incoming
    blocks prepared, batches committed or aborted, anything done to the
    pool), unless a write has failed half-way in the open
    transaction, every block of the main chain extends the block below, is not older than the median of
    the eleven before, has the proof of work of the adjusted
    difficulty, carries the cumulative difficulty and coins that follow from the
    blocks below, and has a coinbase transaction that passes the checks for the weight stored with it and some sum of fees (that of its transactions, as
    [added_block_checked] shows for each block that is added); so the coins
    at each height are those of the emission curve. *)
Theorem main_chain_always_valid (s s' : blockchain) :
  fresh s -> rtc (bc_step init) s s' -> torn s' = false ->
  valid_chain (db s') /\
  forall i bi, m_block_info (db s') !! i = Some bi -> bi_coins bi = coins_after (S i) /\ bi_coins bi <= get_money_supply.
Proof.
  intros Hf Hs Ht. pose proof (inv_current _ (reachable_inv init s s' Hf Hs) Ht) as Hv. split; [exact Hv|].
  intros i bi Hi. rewrite (valid_coins _ i bi Hv Hi). split; [reflexivity|]. apply coins_after_bounds.
Qed.

(** ** A block that is added *)

Lemma difficulty_pass_context s s' r : difficulty_pass s = (s', Returns r) -> s'.2 = s.2.
Proof.
  unfold difficulty_pass. apply run_bind; [discriminate|]. intros s1 [top h] [= <- _]. apply run_bind; [discriminate|]. intros s2 c [= <- _]. cbv zeta.
  apply run_bind; [discriminate|]. intros s3 [] E3. assert (Hc3 : s3.2 = s.2) by (case_match; now injection E3 as <-). clear E3.
  apply run_bind; [discriminate|]. intros s4 c' [= <- _]. apply run_bind; [discriminate|]. intros s5 [] E5.
  assert (Hc5 : s5.2 = s.2).
  { case_match; [|now injection E5 as <-]. revert E5. apply run_bind; [discriminate|]. intros s6 x [= <- _] E5. now injection E5 as <-. } clear E5.
  apply run_bind; [discriminate|]. intros s6 [ts ds] [= <- _]. apply run_bind; [discriminate|]. intros s7 [] [= <-].
  apply run_bind; [discriminate|]. intros s8 x [= <- _]. apply run_bind; [discriminate|]. now intros s9 [] [= <-] [= <- _].
Qed.

Lemma difficulty_context s s' diff : get_difficulty_for_next_block s = (s', Returns diff) -> s'.2 = s.2.
Proof.
  unfold get_difficulty_for_next_block. case_match; [now intros [= <- _]|]. apply run_bind; [discriminate|].
  intros s1 [D x] E1. apply difficulty_pass_context in E1. case_match; [|now intros [= <- _]].
  apply run_bind; [discriminate|]. intros s2 [? y] E2 [= <- _]. apply difficulty_pass_context in E2. congruence.
Qed.


(** The pool is left alone. *)
Definition same_pool {A} (m : M A) : Prop := forall s, m_tx_pool (m s).1.1 = m_tx_pool s.1.

Lemma same_pool_bind {A B} (m : M A) (f : A -> M B) : same_pool m -> (forall a, same_pool (f a)) -> same_pool (m ≫= f).
Proof.
  intros Hm Hf s. specialize (Hm s). apply run_bind; [intros s' E|intros s' a E]; rewrite E in Hm; cbn in *; [assumption|].
  specialize (Hf a s'). congruence.
Qed.
Lemma same_pool_modify f : (forall s, m_tx_pool (f s) = m_tx_pool s) -> same_pool (modify f).
Proof. intros Hf s. exact (Hf s.1). Qed.
Lemma same_pool_here {A} (m : M A) : (forall s, (m s).1 = s) -> same_pool m.
Proof. intros Hm s. now rewrite Hm. Qed.

Lemma same_pool_pass : same_pool difficulty_pass.
Proof.
  unfold difficulty_pass. apply same_pool_bind; [now apply same_pool_here|intros [top h]]. apply same_pool_bind; [now apply same_pool_here|intros c]. cbv zeta.
  apply same_pool_bind; [case_match; [now apply same_pool_modify|now apply same_pool_here]|intros _]. apply same_pool_bind; [now apply same_pool_here|intros c'].
  apply same_pool_bind.
  - case_match; [|now apply same_pool_here]. intros s. apply run_bind; [intros s' E|intros s' a E]; injection E as <- E; [reflexivity|].
    cbn. unfold push_newest in E. apply result_bind_inv in E as (x & _ & E). apply result_bind_inv in E as (y & _ & E). now injection E as <-.
  - intros _. apply same_pool_bind; [now apply same_pool_here|intros [ts ds]]. apply same_pool_bind; [now apply same_pool_modify|intros _].
    apply same_pool_bind; [now apply same_pool_here|intros diff]. apply same_pool_bind; [now apply same_pool_modify|intros _]. now apply same_pool_here.
Qed.

Lemma same_pool_difficulty : same_pool get_difficulty_for_next_block.
Proof.
  unfold get_difficulty_for_next_block. case_match; [now apply same_pool_here|]. apply same_pool_bind; [apply same_pool_pass|intros [D diff]].
  case_match; [|now apply same_pool_here]. apply same_pool_bind; [apply same_pool_pass|intros [? ?]]. now apply same_pool_here.
Qed.

(** What [take_tx] hands out is what the pool stores under the id, and is removed. *)
Lemma take_tx_taken id p p' t : take_tx init id p = (p', Some t) ->
  exists m, PoolTable.txpool_meta (tbl p) !! id = Some m /\ PoolTable.txpool_blob (tbl p) !! id = Some (t_blob t) /\ cached_or_parsed init id (t_blob t) p = Some (t_tx t) /\
    t_weight t = PoolTable.weight m /\ t_fee t = PoolTable.fee m /\ t_pruned t = PoolTable.pruned m /\
    tbl p' = PoolTable.remove_txpool_tx id (tbl p) /\ m_parsed_tx_cache p' = m_parsed_tx_cache p.
Proof.
  unfold take_tx. destruct (lock_db p) as [p1 l] eqn:El. destruct (TxPoolInv.lock_db_fields _ _ _ El) as (E1 & _ & E3 & _). rewrite E1. unfold PoolTable.get_txpool_tx_meta.
  destruct (PoolTable.txpool_meta (tbl p) !! id) as [m|] eqn:Em; [|discriminate]. unfold PoolTable.get_txpool_tx_blob, PoolTable.get_txpool_tx_blob_opt.
  rewrite bool_decide_true by reflexivity. destruct (PoolTable.txpool_blob (tbl p) !! id) as [bd|] eqn:Eb; [|discriminate].
  destruct (cached_or_parsed init id bd p1) as [tx|] eqn:Ec; [|discriminate]. destruct (remove_transaction_keyimages _ _ _) as [p2 ok] eqn:Er.
  assert (Ep : TxPool.m_db p2 = PoolTable.on_tables (PoolTable.remove_txpool_tx id) (TxPool.m_db p1) /\ m_parsed_tx_cache p2 = m_parsed_tx_cache p1).
  { change p2 with (p2, ok).1. rewrite <- Er. unfold remove_transaction_keyimages. now destruct (remove_key_images _ _ _) as [? []]. }
  destruct Ep as [Ep Ecache]. intros E. injection E as <- <-. exists m. cbn. split_and!; auto.
  - unfold cached_or_parsed in *. now rewrite <- E3.
  - unfold tbl in *. cbn. rewrite Ep. destruct l; cbn; now rewrite E1.
  - now rewrite Ecache.
Qed.

(** A transaction that the pool [p] stores under its hash, and what it is after its check on the
    chain before the block. *)
Record tx_checked (d : chain_db) (scan : scan_table_t) (p : pool) (tx_id : hash) (t : taken) (tx : transaction) : Prop := {
  tc_new : tx_exists tx_id d = None;
  tc_pool : exists m, PoolTable.txpool_meta (tbl p) !! tx_id = Some m /\ PoolTable.txpool_blob (tbl p) !! tx_id = Some (t_blob t) /\
    cached_or_parsed init tx_id (t_blob t) p = Some (t_tx t) /\
    t_weight t = PoolTable.weight m /\ t_fee t = PoolTable.fee m /\ t_pruned t = PoolTable.pruned m;
  tc_valid : exists tvc pmax, check_inputs d scan (t_tx t) fresh_tvc = Returns (true, tx, tvc, pmax) /\ (check_ringct_outputs tx tvc).1 = true }.

(** The result of [take_block_txs]. *)
Record txs_taken (d : chain_db) (scan : scan_table_t) (p : pool) (ids : list hash) (l : list (taken * transaction)) (txs0 txs : list (transaction * blob))
    (fee0 fee weight0 weight n0 n : Z) : Prop := {
  tt_txs : txs = txs0 ++ ((fun x => (x.2, t_blob x.1)) <$> l);
  tt_distinct : NoDup ids;
  tt_checked : Forall2 (fun tx_id x => tx_checked d scan p tx_id x.1 x.2) ids l;
  tt_fee : fee = foldl u64_add fee0 (t_fee ∘ fst <$> l);
  tt_weight : weight = foldl u64_add weight0 (t_weight ∘ fst <$> l);
  tt_whole : forallb (fun x => negb (t_pruned x.1)) l = true -> n = n0 }.

(** The rows of the pool without those of the block. *)
Definition taken_out (ids : list hash) (t : PoolTable.tables) : PoolTable.tables := foldl (fun t i => PoolTable.remove_txpool_tx i t) t ids.

Lemma tx_checked_before d scan p p1 i tx_id t tx :
  tbl p1 = PoolTable.remove_txpool_tx i (tbl p) -> m_parsed_tx_cache p1 = m_parsed_tx_cache p -> tx_checked d scan p1 tx_id t tx ->
  tx_id <> i /\ tx_checked d scan p tx_id t tx.
Proof.
  intros Et Ec [Hn (m & Hm & Hb & Hc & Hrest) Hv]. rewrite Et in Hm, Hb. cbn in Hm, Hb. apply lookup_delete_Some in Hm as [Hne Hm], Hb as [_ Hb].
  split; [congruence|]. split; [assumption| |assumption]. exists m. split_and!; try assumption; [|apply Hrest..]. unfold cached_or_parsed in *. now rewrite <- Ec.
Qed.

Lemma take_block_txs_spec b id ids : forall txs0 fee0 weight0 n0 s s' txs fee weight n,
  take_block_txs init b id ids txs0 fee0 weight0 n0 s = (s', Returns (Some (txs, fee, weight, n))) ->
  m_db s'.1 = m_db s.1 /\ tabs s'.1 = tabs s.1 /\ s'.2 = s.2 /\ tbl (m_tx_pool s'.1) = taken_out ids (tbl (m_tx_pool s.1)) /\
  exists l, txs_taken (db s.1) (m_scan_table (tabs s.1)) (m_tx_pool s.1) ids l txs0 txs fee0 fee weight0 weight n0 n.
Proof.
  induction ids as [|i ids IH]; intros txs0 fee0 weight0 n0 s s' txs fee weight n; cbn [take_block_txs].
  { intros [= <- <- <- <- <-]. split_and!; auto. exists []. split; cbn; auto using NoDup_nil_2. now rewrite app_nil_r. }
  apply run_bind; [discriminate|]. intros s1 ex [= <- <-]. destruct (bool_decide (is_Some (tx_exists i (db s.1)))) eqn:Eex.
  { unfold refuse. apply run_bind; [discriminate|]. intros s2 ? _. apply run_bind; discriminate. }
  apply bool_decide_eq_false, eq_None_not_Some in Eex. apply run_bind; [discriminate|]. intros s1 t Et. unfold take_from_pool in Et.
  destruct (take_tx init i (m_tx_pool s.1)) as [p' t'] eqn:Ep. injection Et as <- ->.
  destruct t as [t|]; [|unfold refuse; apply run_bind; [discriminate|]; intros s2 ? _; apply run_bind; discriminate]. cbv zeta.
  apply run_bind; [discriminate|]. intros s1 [[[ok tx] tvc] pm] E. injection E as <- Ec.
  destruct (ok && _) eqn:Eok; cbn [negb].
  2: { apply run_bind; [discriminate|]. intros s2 ? _. unfold refuse. apply run_bind; [discriminate|]. intros s3 ? _. apply run_bind; discriminate. }
  apply andb_true_iff in Eok as [-> Eo]. intros E. apply IH in E as (E1 & E2 & E3 & E4 & l & [-> Hnd Hl -> -> Hn]).
  apply take_tx_taken in Ep as (m & Hm & Hb & Hparse & Hw & Hfee & Hpr & Htbl & Hcache).
  split_and!; auto; [rewrite E4; cbn; now rewrite Htbl|].
  assert (Hl' : Forall2 (fun tx_id x => tx_id <> i /\ tx_checked (db s.1) (m_scan_table (tabs s.1)) (m_tx_pool s.1) tx_id x.1 x.2) ids l)
    by (eapply Forall2_impl; [exact Hl|]; intros j x Hx; exact (tx_checked_before _ _ _ _ _ _ _ _ Htbl Hcache Hx)).
  exists ((t, tx) :: l). split; cbn.
  - now rewrite <- app_assoc.
  - constructor; [|exact Hnd]. intros Hin. apply list_elem_of_lookup in Hin as [k Hk]. destruct (Forall2_lookup_l _ _ _ _ _ Hl' Hk) as (x & _ & [Hne _]). congruence.
  - constructor; [|eapply Forall2_impl; [exact Hl'|]; intros j x [_ Hx]; exact Hx]. split; eauto 12.
  - reflexivity.
  - reflexivity.
  - intros [Hp Hwh]%andb_true_iff. apply negb_true_iff in Hp. rewrite Hp in Hn. auto.
Qed.

Lemma block_added_spec s s' r : block_added s = (s', r) -> db s'.1 = db s.1 /\ tbl (m_tx_pool s'.1) = tbl (m_tx_pool s.1).
Proof.
  unfold block_added. apply run_bind; [intros s1 E [= <- _]|intros s1 ? E].
  { unfold update_next_cumulative_weight_limit in E. destruct is_read_only; discriminate E. }
  assert (E1 : db s1.1 = db s.1 /\ m_tx_pool s1.1 = m_tx_pool s.1).
  { unfold update_next_cumulative_weight_limit in E. destruct is_read_only; injection E as <-; split; reflexivity. }
  destruct E1 as [<- <-]. clear E. apply run_bind; [discriminate|]. intros s2 ? [= <- _]. apply run_bind; [discriminate|]. intros s2 ? [= <- _].
  set (s0 := (with_pool (on_blockchain_inc (m_tx_pool s1.1)) s1.1, added_to_main_chain true s1.2)).
  pose proof (quiet_difficulty s0) as [Hq _]. pose proof (same_pool_difficulty s0) as Hp.
  apply run_bind; [intros s2 E [= <- _]|intros s2 ? E]; fold s0 in E; rewrite E in Hq, Hp; cbn [fst] in Hq, Hp; [unfold db; now rewrite Hq, Hp|].
  apply run_bind; [discriminate|]. intros s3 ? [= <- _] [= <- _]. unfold db. cbn. now rewrite Hq, Hp.
Qed.

(** The coinbase transaction of a block at height [h] passes both checks; a block at height 0 has none. *)
Definition coinbase_checked (b : block) (h weight fees coins : Z) : Prop :=
  FormatUtils.get_block_height b = h /\
  (h <> 0 -> exists c, prevalidate_miner_transaction b h = Some c /\ validate_miner_transaction h c weight fees coins = Some c).

Lemma checked_coinbase b h weight fees coins :
  negb (h =? 0) && negb (bool_decide (is_Some (prevalidate_miner_transaction b h))) = false ->
  miner_tx_valid b (prevalidate_miner_transaction b h) weight fees coins = Returns true -> coinbase_checked b h weight fees coins.
Proof.
  unfold miner_tx_valid. intros Hp Hv. destruct (Z.eqb_spec h 0) as [->|Hne].
  - split; [|contradiction]. destruct (Z.eqb_spec (FormatUtils.get_block_height b) 0) as [|Hb]; [assumption|discriminate].
  - cbn [negb andb] in Hp. apply negb_false_iff, bool_decide_eq_true in Hp as [c Hc]. rewrite Hc in Hv.
    pose proof (prevalidate_height _ _ _ Hc) as Eh. split; [exact Eh|]. intros _. exists c. split; [assumption|].
    rewrite Eh, (proj2 (Z.eqb_neq _ _) Hne) in Hv. injection Hv as Hv. apply bool_decide_eq_true in Hv as [c' Hv].
    pose proof (validate_same _ _ _ _ _ _ Hv) as ->. exact Hv.
Qed.

(** The hash with the work of the block, computed before or now. *)
Definition work_of (b : block) (id : hash) (s : blockchain) : result hash :=
  match m_blocks_longhash_table (tabs s) !! id with Some x => Returns x | None => get_mining_hash b (cached_size (miner_tx b)) end.

(** C10: What a block adds has been checked.  If the main chain accepts a block, its transactions are distinct; each
    was stored in the node's pool under its hash, is not on the chain yet and passed the checks of
    inputs and outputs against the chain before the block; they leave the pool.  The block has the proof of work of the next difficulty; its coinbase
    transaction is one for the height of the chain and passes both checks, so that it balances
    the reward and the fees of exactly these transactions within the weight
    limit (the block at height 0 is not checked); and the database afterwards is the one that [add_block] stores for them, with
    the difficulty of the next block and the coins of the emission. *)
Theorem added_block_checked (b : block) (id : hash) s s' :
  b_verifivation_failed s.2 = false -> fits 64 (height (db s.1)) -> handle_block_to_main_chain init b id s = (s', Returns true) ->
  let d := db s.1 in
  exists l txs fees w0 w weight n coins diff pow prev_diff prev,
    txs_taken d (m_scan_table (tabs s.1)) (m_tx_pool s.1) (tx_hashes b) l [] txs 0 fees w0 w 0 n /\ get_transaction_weight (miner_tx b) = Returns w0 /\
    tbl (m_tx_pool s'.1) = taken_out (tx_hashes b) (tbl (m_tx_pool s.1)) /\
    (n <= 0 -> weight = w) /\
    (height d = 0 /\ coins = 0 /\ prev_diff = 0 \/ get_block_already_generated_coins (height d - 1) d = Returns coins /\
                     get_block_cumulative_difficulty (height d - 1) d = Returns prev_diff) /\
    coinbase_checked b (height d) weight fees coins /\
    (exists s1, get_difficulty_for_next_block s = (s1, Returns diff)) /\ diff <> 0 /\
    work_of b id s.1 = Returns pow /\ check_hash pow diff = true /\
    add_block b weight (get_block_size_bound (FormatUtils.get_block_height b)) (wrap 128 (diff + prev_diff)) (next_already_generated_coins coins)
      txs d = Returns (db s'.1, prev).
Proof.
  intros Hb Hf. unfold handle_block_to_main_chain. apply run_bind; [discriminate|]. intros s0 [top h] E. injection E as <- Et. cbv zeta.
  apply (tail_height _ _ _ Hf) in Et. rewrite Et. clear Et.
  case_match; [discriminate|]. apply run_bind; [discriminate|]. intros s0 timely E. injection E as <- _. destruct timely; cbn [negb]; [|discriminate].
  pose proof (quiet_difficulty s) as Hq. pose proof (same_pool_difficulty s) as Hp. apply run_bind; [discriminate|]. intros s1 diff Ed.
  assert (Hctx : s1.2 = s.2) by (eapply difficulty_context, Ed).
  rewrite Ed in Hq, Hp. cbn [fst] in Hq, Hp. destruct Hq as [Hq1 Hq2].
  destruct (Z.eqb_spec diff 0) as [|Hdiff]; [discriminate|]. apply run_bind; [discriminate|]. intros s0 pow E. injection E as <- Epow. rewrite Hq2 in Epow. change (work_of b id s.1 = Returns pow) in Epow.
  destruct (check_hash pow diff) eqn:Ecw; cbn [negb]; [|discriminate].
  destruct (negb (height (db s.1) =? 0) && _) eqn:Epre; [discriminate|]. apply run_bind; [discriminate|]. intros s0 w0 E. injection E as <- Ew0.
  apply run_bind; [discriminate|]. intros s2 taken E2. destruct taken as [[[[txs fees] w] n]|]; [|discriminate].
  apply take_block_txs_spec in E2 as (Hd2 & Ht2 & Hc2 & Hp2 & l & Hl). rewrite Hp in Hp2, Hl.
  assert (Edb : db s2.1 = db s.1) by (unfold db; congruence). replace (db s1.1) with (db s.1) in Hl by (unfold db; congruence). rewrite Hq2 in Hl.
  unfold connect_block. apply run_bind; [discriminate|]. intros s0 checks E. injection E as <- <-. cbv zeta.
  case_match; [discriminate|]. set (weight := if 0 <? n then _ else w).
  apply run_bind; [discriminate|]. intros s0 coins E. injection E as <- Ec. apply run_bind; [discriminate|]. intros s0 ok E. injection E as <- Eok.
  destruct ok; [|cbn [negb]; unfold refuse; apply run_bind; [discriminate|intros ? ? _; discriminate]]. cbn [negb].
  apply run_bind; [discriminate|]. intros s0 pd E. injection E as <- Epd. apply run_bind; [discriminate|]. intros s0 bvc E. injection E as <- <-.
  rewrite Hc2, Hctx, Hb. apply run_bind; [discriminate|]. intros s3 stored Est. unfold store_block in Est. rewrite Edb in Est.
  destruct (_ ← throw_unless (height (db s.1) <? u64_max); _) as [[d' prev]|] eqn:Ea.
  2: { injection Est as <- <-. apply run_bind; [discriminate|intros ? ? _]. apply run_bind; [discriminate|intros ? ? _]. discriminate. }
  injection Est as <- <-. intros Eadd. apply block_added_spec in Eadd as [Eadd Epool]. cbn in Eadd, Epool. apply throw_unless_inv in Ea as [_ Ea].
  exists l, txs, fees, w0, w, weight, n, coins, diff, pow, pd, prev. rewrite Edb in *. split_and!; eauto.
  - congruence.
  - intros Hn. unfold weight. destruct (Z.ltb_spec 0 n); [lia|reflexivity].
  - destruct (Z.eqb_spec (height (db s.1)) 0); [left|right; auto]. injection Ec as <-. now injection Epd as <-.
  - now apply checked_coinbase.
  - rewrite Eadd. exact Ea.
Qed.

(** ** Reorganisation *)

(** The cumulative difficulty below the alternative block. *)
Definition difficulty_below (b : block) (alt_chain : list block_extended_info) (d : chain_db) : result Z :=
  match alt_chain with
  | [] => x ← get_block_height (prev_id (header b)) d; get_block_cumulative_difficulty x d
  | _ => match get_alt_block (prev_id (header b)) d with
         | Some (p, _) => Returns (wrap 128 (wrap 128 (Z.shiftl (cumulative_difficulty_high p) 64) + cumulative_difficulty_low p))
         | None => Returns 0
         end
  end.

(** The height of its parent. *)
Definition parent_height (b : block) (alt_chain : list block_extended_info) (d : chain_db) : result Z :=
  match alt_chain with
  | [] => get_block_height (prev_id (header b)) d
  | _ => match get_alt_block (prev_id (header b)) d with Some (p, _) => Returns (alt_height p) | None => Returns 0 end
  end.

(** The block ends an alternative chain with more work than the main chain.  It is checked for the height after that of its
    parent; heights are 64-bit numbers, and one past the largest would be taken for that of a genesis block. *)
Record outweighs (d : chain_db) (b : block) : Prop := {
  ow_all : exists alt_chain ts ph diff pow below main,
    build_alt_chain init (prev_id (header b)) d = Returns (Some (alt_chain, ts)) /\ median ts <= timestamp (header b) /\
    parent_height b alt_chain d = Returns ph /\
    get_next_difficulty_for_alternative_chain alt_chain (ph ⊞ 1) d = Returns diff /\ diff <> 0 /\
    get_mining_hash b (cached_size (miner_tx b)) = Returns pow /\ check_hash pow diff = true /\
    FormatUtils.get_block_height b <> 0 /\ (ph ⊞ 1 <> 0 -> is_Some (prevalidate_miner_transaction b (ph ⊞ 1))) /\
    difficulty_below b alt_chain d = Returns below /\ get_block_cumulative_difficulty (height d ⊟ 1) d = Returns main /\
    main < wrap 128 (below + diff) }.

(** C9: Only more work reorganises the chain.  Handling an alternative block leaves the blocks
    of the main chain as they are, unless the block passes the checks of an alternative block on its
    own chain (time, difficulty, proof of work, and a coinbase transaction for the height after that of its parent, which is the stored
    height of the alternative block or the height on the main chain below it) and the cumulative difficulty of that
    chain is strictly greater than that of the main chain. *)
Theorem reorganisation_needs_more_work depth (b : block) (id : hash) s s' r :
  handle_alternative_block init depth b id s = (s', r) -> same_rows (db s.1) (db s'.1) \/ outweighs (db s.1) b.
Proof.
  intros E. change (same_rows (db s.1) (db (s', r).1.1) \/ outweighs (db s.1) b). rewrite <- E. clear s' r E.
  assert (Hq : forall x : (blockchain * block_verification_context) * result bool,
    db x.1.1 = db s.1 -> same_rows (db s.1) (db x.1.1) \/ outweighs (db s.1) b) by (intros x ->; now left).
  destruct depth as [|depth]; cbn [handle_alternative_block].
  all: apply run_bind; [discriminate|]; intros s1 [] E; injection E as <-; destruct (Z.eqb_spec (FormatUtils.get_block_height b) 0); [apply Hq; reflexivity|]; cbv zeta.
  all: apply run_bind; [discriminate|]; intros s1 palt E; injection E as <- <-; apply run_bind; [discriminate|]; intros s1 pmain E; injection E as <- <-.
  all: case_match; [apply Hq; reflexivity|]; apply run_bind; [intros s1 E; injection E as <- _; apply Hq; reflexivity|]; intros s1 [[alt_chain ts]|] E; injection E as <- Eb;
    [|apply Hq; reflexivity].
  all: apply run_bind; [intros s1 E; injection E as <- _; apply Hq; reflexivity|]; intros s1 ph E; injection E as <- Eph.
  all: apply run_bind; [intros s1 E; injection E as <- _; apply Hq; reflexivity|]; intros s1 pc E; injection E as <- _.
  all: destruct (check_timestamps ts b) eqn:Ets; cbn [negb]; [|apply Hq; reflexivity].
  all: apply run_bind; [intros s1 E; injection E as <- _; apply Hq; reflexivity|]; intros s1 diff E; injection E as <- Ed.
  all: destruct (Z.eqb_spec diff 0); [apply Hq; reflexivity|].
  all: apply run_bind; [intros s1 E; injection E as <- _; apply Hq; reflexivity|]; intros s1 pow E; injection E as <- Epow.
  all: destruct (check_hash pow diff) eqn:Ech; cbn [negb]; [|apply Hq; reflexivity].
  all: destruct (negb (ph ⊞ 1 =? 0) && _) eqn:Epre; [apply Hq; reflexivity|].
  all: apply run_bind; [intros s1 E; injection E as <- _; apply Hq; reflexivity|]; intros s1 main E; injection E as <- Emain.
  all: apply run_bind; [intros s1 E; injection E as <- _; apply Hq; reflexivity|]; intros s1 below E; injection E as <- Ebelow.
  all: do 2 (apply run_bind; [intros s1 E; injection E as <- _; apply Hq; reflexivity|]; intros s1 ? E; injection E as <- _).
  all: match goal with |- context [match ?w with Some _ => _ | None => _ end] => destruct w; [|apply Hq; reflexivity] end.
  all: apply run_bind; [discriminate|]; intros s1 known E; injection E as <- _; destruct known; [apply Hq; reflexivity|].
  all: apply run_bind; [intros s1 E; injection E as <- _; apply Hq; reflexivity|]; intros s1 bd E; injection E as <- _.
  all: apply run_bind; [discriminate|]; intros s1 [] E; injection E as <-.
  all: change (bei_cumulative_difficulty (extended_info _ _ _ _ _ _)) with (wrap 128 (below + diff)).
  all: destruct (Z.ltb_spec main (wrap 128 (below + diff))); [right|left; split; reflexivity].
  all: split; exists alt_chain, ts, ph, diff, pow, below, main; split_and!; try assumption.
  all: try (now apply negb_true_iff, Z.ltb_ge in Ets).
  all: try (intros Hph; apply andb_false_iff in Epre as [Epre|Epre]; apply negb_false_iff in Epre;
            [now apply Z.eqb_eq in Epre|now apply bool_decide_eq_true in Epre]).
  all: unfold difficulty_below, parent_height; destruct alt_chain; [assumption|].
  all: change (db (reset_dcache s.1)) with (db s.1) in Ebelow, Eph; now destruct (get_alt_block (prev_id (header b)) (db s.1)) as [[p bd']|].
Qed.

(** ** The difficulty of an alternative block *)

Lemma next_difficulty_late ts ds h h' : 279 <= h -> 279 <= h' -> next_difficulty ts ds h = next_difficulty ts ds h'.
Proof.
  intros Hh Hh'. unfold next_difficulty, next_difficulty_pure, DIFFICULTY_WINDOW_IN_BLOCKS.
  rewrite (proj2 (Z.eqb_neq h 0)), (proj2 (Z.eqb_neq h' 0)), !(proj2 (Z.ltb_ge h _)), !(proj2 (Z.ltb_ge h' _)) by lia. reflexivity.
Qed.

(** C28: The difficulty of a block does not depend on which chain is the main one.  For a fork
    off the main chain at any height, from block 279 on, the difficulty computed for an
    alternative block from the two chains is the one that the main chain
    will compute once the alternative blocks are on it. *)
Theorem alternative_difficulty_agrees (d : chain_db) (f : nat) (alt_chain : list block_extended_info) (rows : list mdb_block_info) :
  rows_ok d -> (f <= length (m_block_info d))%nat ->
  (fun x => timestamp (header (bl x))) <$> alt_chain = bi_timestamp <$> rows -> bei_cumulative_difficulty <$> alt_chain = row_difficulty <$> rows ->
  (forall front, head alt_chain = Some front -> bei_height front = Z.of_nat f) ->
  279 <= height d -> (279 <= f + length rows)%nat ->
  get_next_difficulty_for_alternative_chain alt_chain (Z.of_nat (f + length rows)) d = next_difficulty_of (take f (m_block_info d) ++ rows).
Proof.
  intros Hr Hf Ets Eds Hfront Hh Hl. unfold get_next_difficulty_for_alternative_chain, next_difficulty_of.
  assert (Elen : length alt_chain = length rows) by (rewrite <- (length_fmap bei_cumulative_difficulty), Eds; apply length_fmap).
  assert (Elen' : length (take f (m_block_info d) ++ rows) = (f + length rows)%nat) by (rewrite length_app, length_take; lia).
  rewrite Elen'. destruct (negb (m_fixed_difficulty =? 0)).
  { rewrite (proj2 (Z.eqb_neq _ _)) by lia. now rewrite (proj2 (Nat.eqb_neq _ _)) by lia. }
  unfold window_of. rewrite Elen', Ets, Eds, Elen. unfold DIFFICULTY_BLOCKS_COUNT. cbv zeta.
  rewrite (proj2 (Nat.eqb_neq (f + length rows - 145) 0)) by lia.
  destruct (Nat.ltb_spec (length rows) 145).
  - replace (match alt_chain with [] => Z.of_nat (f + length rows) | front :: _ => bei_height front end) with (Z.of_nat f).
    2: { destruct alt_chain as [|front l]; cbn in *; [|symmetry; now apply Hfront]. rewrite <- Elen. now rewrite Nat.add_0_r. }
    replace (Z.of_nat f - Z.min (Z.of_nat 145 - Z.of_nat (length rows)) (Z.of_nat f)) with (Z.of_nat (f + length rows - 145)) by lia.
    rewrite (proj2 (Z.eqb_neq _ _)) by lia. rewrite read_window_to by assumption. cbn [mbind result_bind].
    rewrite length_fmap, length_drop, length_take. rewrite (proj2 (Nat.leb_le _ _)) by lia. cbn [negb].
    rewrite drop_app_le by (rewrite length_take; lia). rewrite !fmap_app. apply next_difficulty_late; lia.
  - rewrite drop_app_ge by (rewrite length_take; lia). rewrite !length_fmap, length_take, !fmap_drop.
    replace (f + length rows - 145 - (f `min` length (m_block_info d)))%nat with (length rows - 145)%nat by lia. apply next_difficulty_late; lia.
Qed.

End MainChain.

(** ** Examples *)

Section Examples.
Import ModelGroup.
#[local] Existing Instance RollingDigest.rolling_sha3.
#[local] Instance no_shift : UndefinedShift := fun _ => 0.
#[local] Instance uncached : CachedSize := fun _ => 0.
#[local] Instance in_order : Schedule := fun n => seq 0 n.
#[local] Instance fixed_difficulty : Settings := {| m_fixed_difficulty := 1; on_mainnet := false; is_read_only := false |}.
#[local] Instance slow_clock : Clock := {| clock_at_block := fun _ _ => 1000; clock_at_tx := fun _ _ => (1000, 1000) |}.
#[local] Instance nothing_torn : Torn := fun d => d.

(** An empty block chain, and blocks with the reward of their height. *)
Definition empty_blockchain : blockchain :=
  {| m_db := {| committed := {| c_tables := empty_db; c_max_block_size := 0; c_torn := false |}; write_txn := None; write_batch_txn := None;
                m_batch_active := false; m_batch_transactions := true; m_writer := 0 |};
     m_tx_pool := TxPoolSteps.TxPoolSteps.empty_pool 1000000; m_invalid_blocks := ∅;
     dcache := {| m_timestamps_and_difficulties_height := 0; m_reset_timestamps_and_difficulties_height := true; m_timestamps := [];
                  m_difficulties := []; m_difficulty_for_next_block_top_hash := null_hash; m_difficulty_for_next_block := 1 |};
     tabs := {| m_scan_table := ∅; m_blocks_longhash_table := ∅; m_blocks_hash_check := [] |}; m_btc_valid := false; m_batch_success := true |}.
Definition paid_block (h : Z) (t : Z) (prev : hash) : block :=
  let b := block_at h prev [] in
  {| header := {| major_version := 17; minor_version := 17; timestamp := t; prev_id := prev; nonce := 3 |};
     miner_tx := {| prefix := {| version := 2; unlock_height := h + 60; vin := [txin_gen h];
                                 vout := [ {| amount := get_block_reward (coins_after (Z.to_nat h)); target := txout_to_key (Key.Key.to_pk 7) |} ]; extra := [] |};
                    ringct := ringct (miner_tx b) |};
     tx_hashes := [] |}.
Definition id_of (b : block) : hash := match get_block_hash b 0 with Returns h => h | Throws => [] end.
Definition b0 : block := paid_block 0 100 null_hash.
Definition b1 : block := paid_block 1 200 (id_of b0).
Definition b2 : block := paid_block 2 300 (id_of b1).
Definition after (b : block) (s : blockchain) : blockchain := (add_new_block db_init 3 b (s, fresh_bvc)).1.1.

Definition after_two : blockchain := after b1 (after b0 empty_blockchain).

Lemma after_step b s : bc_step db_init s (after b s).
Proof. exact (step_new_block db_init 3 b fresh_bvc s). Qed.

Lemma after_two_reached : rtc (bc_step db_init) empty_blockchain after_two.
Proof. exact (rtc_l _ _ _ _ (after_step b0 _) (rtc_once _ _ (after_step b1 _))). Qed.

Lemma after_two_height : height (db after_two) = 2.
Proof. vm_cast_no_check (eq_refl 2). Qed.

Lemma after_two_whole : torn after_two = false.
Proof. vm_cast_no_check (eq_refl false). Qed.

Lemma main_chain_always_valid_witness :
  height (db after_two) = 2 /\ valid_chain (db after_two) /\
  exists bi, m_block_info (db after_two) !! 1%nat = Some bi /\ bi_coins bi = coins_after 2.
Proof.
  destruct (main_chain_always_valid db_init empty_blockchain after_two) as [Hv Hc].
  - vm_compute. auto.
  - exact after_two_reached.
  - exact after_two_whole.
  - split; [exact after_two_height|]. split; [exact Hv|]. pose proof after_two_height as Eh. rewrite (height_rows _ (vc_rows _ Hv)) in Eh.
    destruct (lookup_lt_is_Some_2 (m_block_info (db after_two)) 1) as [bi E]; [lia|]. exists bi. split; [exact E|exact (proj1 (Hc 1%nat bi E))].
Defined.

(** A block accepted on top of the genesis block. *)
Definition one_block : blockchain * block_verification_context := (after b0 empty_blockchain, fresh_bvc).
Definition connected : (blockchain * block_verification_context) * result bool := handle_block_to_main_chain db_init b1 (id_of b1) one_block.

Lemma connected_ok : connected.2 = Returns true.
Proof. vm_cast_no_check (eq_refl (Returns true)). Qed.

Lemma one_block_fits : bool_decide (fits 64 (height (db one_block.1))) = true.
Proof. vm_cast_no_check (eq_refl true). Qed.

Lemma one_block_height : height (db one_block.1) = 1.
Proof. vm_cast_no_check (eq_refl 1). Qed.

Lemma added_block_checked_witness :
  is_Some (prevalidate_miner_transaction b1 1) /\
  exists w cd cg txs prev, add_block b1 w (get_block_size_bound (FormatUtils.get_block_height b1)) cd cg txs (db one_block.1) =
    Returns (db connected.1.1, prev).
Proof.
  destruct (added_block_checked db_init b1 (id_of b1) one_block connected.1)
    as (l & txs & fees & w0 & w & weight & n & coins & diff & pow & pd & prev & _ & _ & _ & _ & _ & (_ & Hc) & _ & _ & _ & _ & E).
  - reflexivity.
  - exact (bool_decide_eq_true_1 _ one_block_fits).
  - rewrite <- connected_ok. exact (surjective_pairing connected).
  - rewrite one_block_height in Hc. destruct (Hc ltac:(discriminate)) as (c & Hpre & _). split; [exists c; exact Hpre|].
    exists weight, (wrap 128 (diff + pd)), (next_already_generated_coins coins), txs, prev. exact E.
Defined.

(** Two other blocks on the genesis block: the first is kept aside, with the second their chain
    is longer. *)
Definition a1 : block := paid_block 1 150 (id_of b0).
Definition a2 : block := paid_block 2 250 (id_of a1).
Definition forked : blockchain * block_verification_context := (after a1 after_two, fresh_bvc).
Definition reorganised : (blockchain * block_verification_context) * result bool := handle_alternative_block db_init 3 a2 (id_of a2) forked.

Example fork_then_switch :
  (size (m_alt_blocks (db forked.1)), last (bi_hash <$> m_block_info (db forked.1))) = (1%nat, Some (id_of b1)) /\
  (bi_hash <$> m_block_info (db reorganised.1.1), reorganised.2, torn reorganised.1.1) =
  ([id_of b0; id_of a1; id_of a2], Returns true, false).
Proof. split; vm_compute; reflexivity. Qed.

Lemma reorganised_pair : handle_alternative_block db_init 3 a2 (id_of a2) forked = (reorganised.1, reorganised.2).
Proof. unfold reorganised. destruct (handle_alternative_block _ _ _ _ _). reflexivity. Qed.

Lemma forked_rows : length (m_blocks (db forked.1)) = 2%nat.
Proof. vm_cast_no_check (eq_refl 2%nat). Qed.

Lemma reorganised_rows : length (m_blocks (db reorganised.1.1)) = 3%nat.
Proof. vm_cast_no_check (eq_refl 3%nat). Qed.

Lemma reorganisation_needs_more_work_witness : outweighs db_init (db forked.1) a2.
Proof.
  destruct (reorganisation_needs_more_work db_init 3 a2 (id_of a2) forked reorganised.1 reorganised.2) as [[Eb _]|Ho]; [|exfalso|exact Ho].
  - exact reorganised_pair.
  - pose proof (eq_trans (eq_trans (eq_sym reorganised_rows) (f_equal length Eb)) forked_rows) as E. discriminate E.
Defined.

End Examples.

(** ** Difficulties at and above height 279 *)

Section LateExamples.
#[local] Instance adjusted_difficulty : Settings := {| m_fixed_difficulty := 0; on_mainnet := true; is_read_only := false |}.

(** 300 blocks in time, each with difficulty 2^c. *)
Definition row (c : Z) (i : nat) : mdb_block_info :=
  {| bi_height := Z.of_nat i; bi_timestamp := 120 * Z.of_nat i; bi_coins := 0; bi_weight := 0;
     bi_diff_lo := Z.land (Z.of_nat i * 2 ^ c) u64_max; bi_diff_hi := Z.shiftr (Z.of_nat i * 2 ^ c) 64;
     bi_hash := null_hash; bi_cum_rct := 0; bi_long_term_block_weight := 0 |}.
Definition long_db (c : Z) : chain_db :=
  {| m_blocks := replicate 300 []; m_block_heights := ∅; m_block_info := row c <$> seq 0 300; m_txs_pruned := ∅; m_txs_prunable := ∅;
     m_txs_prunable_hash := ∅; m_txs_prunable_tip := ∅; m_tx_indices := ∅; m_tx_outputs := ∅; m_output_txs := []; m_output_amounts := ∅;
     m_spent_keys := ∅; m_alt_blocks := ∅; m_hf_versions := ∅ |}.
(** An alternative block at height 290. *)
Definition alt_row : block_extended_info :=
  {| bl := block_at 290 null_hash []; bei_height := 290; block_cumulative_weight := 0; bei_cumulative_difficulty := 291 * 2 ^ 30;
     bei_already_generated_coins := 0 |}.
Definition alt_info : mdb_block_info :=
  {| bi_height := 290; bi_timestamp := 390; bi_coins := 0; bi_weight := 0; bi_diff_lo := 291 * 2 ^ 30; bi_diff_hi := 0;
     bi_hash := null_hash; bi_cum_rct := 0; bi_long_term_block_weight := 0 |}.

Lemma long_rows_ok c : rows_ok (long_db c).
Proof.
  split; [|reflexivity]. intros i bi Hi. change ((row c <$> seq 0 300) !! i = Some bi) in Hi. rewrite list_lookup_fmap in Hi. apply fmap_Some in Hi as (j & Hj & ->).
  apply lookup_seq in Hj as [-> _]. reflexivity.
Qed.

Lemma alternative_difficulty_agrees_witness :
  get_next_difficulty_for_alternative_chain [alt_row] 291 (long_db 30) = next_difficulty_of (take 290 (row 30 <$> seq 0 300) ++ [alt_info]).
Proof.
  apply (alternative_difficulty_agrees (long_db 30) 290 [alt_row] [alt_info]).
  - apply long_rows_ok.
  - apply Nat.leb_le. reflexivity.
  - reflexivity.
  - reflexivity.
  - intros front E. injection E as <-. reflexivity.
  - apply Z.leb_le. reflexivity.
  - apply Nat.leb_le. reflexivity.
Defined.

(** Below that height the rule is asked with the height of the main chain, not with that of the
    alternative block: the difficulty that was right for a block is not the one that is
    asked of another block at its height. *)
Example alternative_difficulty_uses_main_height :
  get_next_difficulty_for_alternative_chain [] 200 (long_db 50) <> next_difficulty_of (take 200 (m_block_info (long_db 50))) /\
  next_difficulty_of (take 200 (m_block_info (long_db 50))) <> Throws.
Proof. vm_compute. split; discriminate. Qed.

End LateExamples.

End ChainSafety.
