(* ===== verification/MinerTemplate.v ===== *)
(** Block templates: [Blockchain::create_block_template] of
    [src/src/cryptonote/core/blockchain.cpp], which puts together the choice of
    transactions of the pool ([BlockTemplate]), the miner's transaction
    ([TxUtils]) and the difficulty and time of the next block ([Blockchain]).  The template
    is accepted by the chain that made it. *)

From stdpp Require Import gmap sorting.
From S2P Require Import Prelude Hash Config Difficulty Varint Serialization Primality Group ModelGroup Key RctOps VectorOps InnerProduct Bulletproof Clsag RctTypes TxTypes Consensus Coinbase FormatUtils TxExtra RingCT TxUtils PoolTable TxPool BlockTemplate ChainDb ChainDbInv LmdbTxn TxCheck Blockchain BlockchainInv ChainSafety.

Module MinerTemplate.
Import Config Difficulty Key Serialization.Archive Clsag RctTypes TxTypes Consensus Coinbase FormatUtils TxUtils TxPool BlockTemplate ChainDb ChainDbInv LmdbTxn TxCheck Blockchain BlockchainInv.

(** The cached template; [m_btc_valid] is part of [blockchain]. *)
Record template_cache := {
  m_btc : block; m_btc_address : spend_view_public_keys; m_btc_nonce : blob; m_btc_difficulty : Z; m_btc_height : Z;
  m_btc_pool_cookie : Z; m_btc_expected_reward : Z }.

#[export] Instance spend_view_public_keys_eq_dec : EqDecision spend_view_public_keys.
Proof. solve_decision. Defined.

Definition with_header (h : block_header) (b : block) : block := {| header := h; miner_tx := miner_tx b; tx_hashes := tx_hashes b |}.
Definition with_timestamp (t : Z) (b : block) : block :=
  let h := header b in
  with_header {| major_version := major_version h; minor_version := minor_version h; timestamp := t; prev_id := prev_id h; nonce := nonce h |} b.
Definition with_extra (e : blob) (tx : transaction) : transaction :=
  let t := prefix tx in
  {| prefix := {| version := version t; unlock_height := unlock_height t; vin := vin t; vout := vout t; extra := e |}; ringct := ringct tx |}.

(** What a call draws and reads: the random key of each miner transaction, the clock,
    uninitialised locals. *)
Record oracle := { o_keys : nat -> secret_key; o_now : Z; o_median : Z; o_meta : PoolTable.txpool_tx_meta_t }.

Section Template.
Context `{Sodium} `{Sha3} `{UndefinedShift} `{Schedule} `{CachedSize} `{Settings} `{Clock} `{Torn} (init : rctData).

(** The time of the template: now, or the median that [check_block_timestamp] stores when it
    refuses; it stores none for a time too far in the future. *)
Definition template_time (uninitialised : Z) (b : block) (s : blockchain) : result Z :=
  ok ← check_block_timestamp b s;
  if ok : bool then Returns (timestamp (header b)) else
  if clock_at_block s b ⊞ CRYPTONOTE_BLOCK_FUTURE_TIME_LIMIT_V2 <? timestamp (header b) then Returns uninitialised else
  let h := height (db s) in
  ts ← result_mapM (fun i => get_block_timestamp i (db s)) (seqZ (h - BLOCKCHAIN_TIMESTAMP_CHECK_WINDOW_V2) BLOCKCHAIN_TIMESTAMP_CHECK_WINDOW_V2);
  Returns (median ts).

(** The header and difficulty of a template on [from_block], or on the top; [None] is [return false]. *)
Definition template_parent (from_block : option hash) : M (option (Z * hash * Z)) :=
  match from_block with
  | Some from =>
    parent_in_alt ← reads (fun s => fst <$> get_alt_block from (db s));
    parent_in_main ← reads (fun s => bool_decide (is_Some (block_exists from (db s))));
    if negb (bool_decide (is_Some parent_in_alt)) && negb parent_in_main then mret None else
    chain ← tries (fun s => build_alt_chain init from (db s));
    match chain with
    | None => mret None
    | Some (alt_chain, _) =>
      h ← tries (fun s => if parent_in_main : bool then
                            prev ← get_block_by_hash init from s;
                            Returns (match prev with Some (b, _) => Some (FormatUtils.get_block_height b ⊞ 1) | None => None end)
                          else match last alt_chain with Some bei => Returns (Some (bei_height bei ⊞ 1)) | None => Throws end);
      match h with
      | None => mret None
      | Some h =>
        bei_height ← tries (fun s => match alt_chain, parent_in_alt with
                                     | _ :: _, Some p => Returns (alt_height p ⊞ 1)
                                     | _ :: _, None => Returns 1
                                     | [], _ => x ← get_block_height from (db s); Returns (x ⊞ 1) end);
        diffic ← tries (fun s => get_next_difficulty_for_alternative_chain alt_chain bei_height (db s));
        mret (Some (h, from, diffic))
      end
    end
  | None =>
    h ← reads (fun s => height (db s));
    '(top, _) ← tries get_tail_id;
    diffic ← get_difficulty_for_next_block;
    mret (Some (h, top, diffic))
  end.

(** The loop of ten tries: the miner's transaction for a weight that includes it. *)
Fixpoint miner_tx_loop (tries_left try_count : nat) (keys : nat -> secret_key) (height txs_weight fee coins : Z) (address : spend_view_public_keys)
    (cumulative_weight : Z) : result (option transaction) :=
  match tries_left with
  | O => Returns None
  | S tries_left' =>
    match construct_miner_tx init (keys try_count) height cumulative_weight fee address coins with
    | None => Returns None
    | Some tx =>
      let finish tx := w ← get_transaction_weight tx; Returns (if cumulative_weight =? txs_weight ⊞ w then Some tx else None) in
      let again := miner_tx_loop tries_left' (S try_count) keys height txs_weight fee coins address in
      coinbase_weight ← get_transaction_weight tx;
      if cumulative_weight ⊟ txs_weight <? coinbase_weight then again (txs_weight ⊞ coinbase_weight) else
      if coinbase_weight <? cumulative_weight ⊟ txs_weight then
        let delta := cumulative_weight ⊟ txs_weight ⊟ coinbase_weight in
        let tx := with_extra (extra (prefix tx) ++ replicate (Z.to_nat delta) 0) tx in
        w ← get_transaction_weight tx;
        if cumulative_weight =? txs_weight ⊞ w then finish tx else
        if negb (cumulative_weight ⊞ 1 =? txs_weight ⊞ w) then Returns None else
        let tx := with_extra (removelast (extra (prefix tx))) tx in
        w ← get_transaction_weight tx;
        if negb (cumulative_weight =? txs_weight ⊞ w) then again (cumulative_weight ⊞ (delta ⊟ 1)) else finish tx
      else finish tx
    end
  end.

(** The call of [m_tx_pool.fill_block_template]. *)
Definition fill_template (height : Z) (garbage : PoolTable.txpool_tx_meta_t) : M (option template) := fun s =>
  let '(p, r) := @fill_block_template _ (chain s.1) init height garbage (m_tx_pool s.1) in
  ((with_pool p s.1, s.2), match r with Some (st, ok) => Returns (if ok then Some st else None) | None => Throws end).

(** Both miner transactions: one for an estimate of the weight, then the loop. *)
Definition template_miner_tx (keys : nat -> secret_key) (height txs_weight fee : Z) (address : spend_view_public_keys) (s : blockchain)
    : result (option transaction) :=
  coins ← (if 0 <? height then get_block_already_generated_coins (height - 1) (db s) else Returns 0);
  match construct_miner_tx init (keys 0%nat) height txs_weight fee address coins with
  | None => Returns None
  | Some tx => w ← get_transaction_weight tx; miner_tx_loop 10 1 keys height txs_weight fee coins address (txs_weight ⊞ w)
  end.

Definition cache_block_template (b : block) (address : spend_view_public_keys) (ex_nonce : blob) (diff height expected_reward pool_cookie : Z)
    : template_cache :=
  {| m_btc := b; m_btc_address := address; m_btc_nonce := ex_nonce; m_btc_difficulty := diff; m_btc_height := height;
     m_btc_pool_cookie := pool_cookie; m_btc_expected_reward := expected_reward |}.

(** Block, difficulty, expected reward; [None] is [return false].  The second component is
    the cache afterwards. *)
Definition create_block_template (o : oracle) (b : block) (from_block : option hash) (miner_address : spend_view_public_keys) (ex_nonce : blob)
    (cache : template_cache) : M (option (block * Z * Z) * template_cache) :=
  usable ← tries (fun s =>
    if m_btc_valid s && negb (bool_decide (is_Some from_block)) && bool_decide (miner_address = m_btc_address cache) &&
       bool_decide (m_btc_nonce cache = ex_nonce) && (m_btc_pool_cookie cache =? m_cookie (m_tx_pool s))
    then '(tail, _) ← get_tail_id s; Returns (bool_decide (prev_id (header (m_btc cache)) = tail)) else Returns false);
  if usable : bool then
    let cache := if timestamp (header (m_btc cache)) <? o_now o then
                   {| m_btc := with_timestamp (o_now o) (m_btc cache); m_btc_address := m_btc_address cache; m_btc_nonce := m_btc_nonce cache;
                      m_btc_difficulty := m_btc_difficulty cache; m_btc_height := m_btc_height cache;
                      m_btc_pool_cookie := m_btc_pool_cookie cache; m_btc_expected_reward := m_btc_expected_reward cache |}
                 else cache in
    mret (Some (m_btc cache, m_btc_difficulty cache, m_btc_expected_reward cache), cache)
  else
  _ ← modify (fun s => if m_btc_valid s && negb (bool_decide (is_Some from_block)) then invalidate_block_template_cache s else s);
  parent ← template_parent from_block;
  match parent with
  | None => mret (None, cache)
  | Some (height, prev, diffic) =>
    let b := with_header {| major_version := constant_hf_version; minor_version := constant_hf_version; timestamp := o_now o; prev_id := prev;
                            nonce := nonce (header b) |} b in
    t ← tries (template_time (o_median o) b);
    let b := with_timestamp t b in
    if diffic =? 0 then mret (None, cache) else
    filled ← fill_template height (o_meta o);
    match filled with
    | None => mret (None, cache)
    | Some st =>
      pool_cookie ← reads (fun s => m_cookie (m_tx_pool s));
      tx ← tries (template_miner_tx (o_keys o) height (total_weight_out st) (fee_out st) miner_address);
      match tx with
      | None => mret (None, cache)
      | Some tx =>
        let b := {| header := header b; miner_tx := tx; tx_hashes := tx_hashes b ++ tx_hashes_out st |} in
        let expected_reward := best_coinbase st in
        match from_block with
        | Some _ => mret (Some (b, diffic, expected_reward), cache)
        | None =>
          _ ← modify (fun s => with_flags true (m_batch_success s) s);
          mret (Some (b, diffic, expected_reward), cache_block_template b miner_address ex_nonce diffic height expected_reward pool_cookie)
        end
      end
    end
  end.

End Template.

(** ** The weight of the miner's transaction *)

Section Weight.
Context `{UndefinedShift} `{Sha3} `{Sodium}.

Definition varint_length (x : Z) : Z := Z.of_nat (length (Varint.Varint.write_varint x)).

Lemma save_bytes e : exists b, save_elements (serialize_uint 1) e = Some b /\ length b = length e.
Proof.
  induction e as [|x e (b & E & El)]; [now exists []|]. cbn. rewrite E. cbn [mbind option_bind]. eexists. split; [reflexivity|].
  cbn. now rewrite El.
Qed.

(** One generated input, one output, no ring-CT data. *)
Lemma coinbase_weight u h x k e r : type (basic r) = RCTTypeNull ->
  get_transaction_weight
    {| prefix := {| version := 2; unlock_height := u; vin := [txin_gen h]; vout := [ {| amount := x; target := txout_to_key k |} ]; extra := e |};
       ringct := r |} =
  Returns (38 + varint_length u + varint_length h + varint_length x + varint_length (Z.of_nat (length e)) + Z.of_nat (length e)).
Proof.
  intros Ht. destruct (save_bytes e) as (be & Ee & El).
  unfold get_transaction_weight, tx_to_blob, t_serializable_object_to_blob, maybe_to_blob, dump_binary, tx_archive, serialize_transaction.
  cbn [save serialize_as serialize_dep serialize_tx_prefix serialize_pair serialize_checked serialize_varint do_serialize_container fst snd
       version unlock_height vin vout extra prefix ringct].
  rewrite Ee. unfold serialize_tx_ringct. cbn [version vin vout]. cbn [Z.eqb Pos.eqb negb].
  cbn [save save_elements serialize_as serialize_dep serialize_pair serialize_rctsig_base serialize_txin serialize_tx_out serialize_txout_target serialize_txin_gen
       serialize_varint serialize_uint serialize_data fst snd basic p mbind option_bind amount target]. rewrite Ht.
  cbn [Z.eqb RCTTypeNull negb save serialize_pair not_serialized mbind option_bind fst snd result_bind].
  f_equal. rewrite !length_app, El. unfold data_blob. rewrite length_le_bytes. unfold varint_length.
  change (length (Varint.Varint.write_varint 2)) with 1%nat. change (length (Varint.Varint.write_varint (Z.of_nat (length [txin_gen h])))) with 1%nat.
  change (length (Varint.Varint.write_varint (Z.of_nat (length [ {| amount := x; target := txout_to_key k |} ])))) with 1%nat.
  change (length (save_uint 1 _)) with 1%nat. cbn [length]. lia.
Qed.

Lemma varint_length_bound (n : nat) x : 0 <= x < 128 ^ (Z.of_nat n + 1) -> varint_length x <= Z.of_nat n + 1.
Proof.
  unfold varint_length. revert x. induction n as [|n IH]; intros x Hx; rewrite Varint.Varint.write_varint_equation by lia.
  - destruct (Z.ltb_spec x 128); [cbn; lia|]. cbn in Hx. lia.
  - destruct (x <? 128); [cbn [length]; lia|]. cbn [length]. specialize (IH (x / 128)). 
    assert (0 <= x / 128 < 128 ^ (Z.of_nat n + 1)); [|lia]. split; [apply Z.div_pos; lia|]. apply Z.div_lt_upper_bound; [lia|].
    rewrite <- Z.pow_succ_r by lia. replace (Z.succ (Z.of_nat n + 1)) with (Z.of_nat (S n) + 1) by lia. lia.
Qed.

Lemma varint_length_64 x : fits 64 x -> 0 <= varint_length x <= 10.
Proof.
  intros Hx. split; [unfold varint_length; lia|]. apply (varint_length_bound 9). unfold fits in Hx. split; [lia|].
  transitivity (2 ^ 64); [lia|]. reflexivity.
Qed.

(** It does not depend on the keys. *)
Definition miner_weight (h fee coins : Z) : Z :=
  72 + varint_length (get_coinbase_unlock_height h) + varint_length h + varint_length (get_block_reward coins ⊞ fee).

Lemma miner_weight_bound h fee coins : fits 64 h -> 0 <= miner_weight h fee coins <= 102.
Proof.
  intros Hh. pose proof (varint_length_64 h Hh). pose proof (varint_length_64 _ (u64_add_fits (get_block_reward coins) fee)).
  pose proof (varint_length_64 (get_coinbase_unlock_height h) (u64_add_fits _ _)). unfold miner_weight. lia.
Qed.

Lemma construct_weight init r h w fee address coins tx :
  type (basic init) = RCTTypeNull -> construct_miner_tx init r h w fee address coins = Some tx ->
  get_transaction_weight tx = Returns (miner_weight h fee coins).
Proof.
  intros Ht E. unfold construct_miner_tx in E. destruct (negb _); [discriminate|]. apply bind_Some in E as (k & _ & E). injection E as <-.
  rewrite coinbase_weight by assumption. f_equal. unfold miner_weight, TxExtra.TxExtra.add_tx_ecdh_public_key_to_extra, data_blob.
  rewrite !length_app, length_le_bytes. cbn [length Nat.add]. change (varint_length (Z.of_nat 33)) with 1. lia.
Qed.

End Weight.

(** ** The parts of a template *)

Section Parts.
Context `{HL : Sha3Laws} `{SL : SodiumLaws} `{UndefinedShift} `{Schedule} `{CachedSize} `{Settings} `{Clock} `{Torn} (init : rctData).

(** The miner knows the spend key of the address, and no output key is the identity. *)
Record miner_owns (address : spend_view_public_keys) (keys : nat -> secret_key) (spend_sk : secret_key) : Prop := {
  mo_spend : m_spend_public_key address = to_pk spend_sk;
  mo_secret : secret_ok spend_sk;
  mo_keys i : let shared := derive_tx_output_ecdh_shared_secret (m_view_public_key address) (keys i) in
    secret_ok (hash_tx_output_shared_secret_to_scalar shared 0) /\ compute_output_secret_key_from_subaddress_spend_sk shared 0 spend_sk <> 0 }.

Lemma construct_miner_tx_some address keys spend_sk i h w fee coins :
  miner_owns address keys spend_sk -> is_block_size_valid h w = true ->
  is_Some (construct_miner_tx init (keys i) h w fee address coins).
Proof using HL SL.
  intros [Es Hs Hk] Hw. destruct (Hk i) as [Hh Hx]. unfold construct_miner_tx. rewrite Hw. cbn [negb sec]. rewrite Es.
  rewrite (proj1 (output_key_recovered _ 0 spend_sk Hs Hh Hx)). cbn. eauto.
Qed.

(** The checks of the miner's transaction on the chain. *)
Lemma construct_miner_tx_checked address keys spend_sk i h w fee coins tx :
  miner_owns address keys spend_sk -> type (basic init) = RCTTypeNull -> h <> 0 ->
  construct_miner_tx init (keys i) h w fee address coins = Some tx ->
  exists c, (forall hd hashes, prevalidate_miner_transaction {| header := hd; miner_tx := tx; tx_hashes := hashes |} h = Some c) /\
    validate_miner_transaction h c w fee coins = Some c /\ amount <$> vout (prefix tx) = [get_block_reward coins ⊞ fee].
Proof using HL SL.
  intros [Es Hs Hk] Ht Hh0 E. destruct (Hk i) as [Hh Hx]. unfold construct_miner_tx in E.
  destruct (is_block_size_valid h w) eqn:Hw; [|discriminate]. cbn [negb sec] in E. rewrite Es in E.
  pose proof (output_key_safe _ 0 spend_sk Hs Hh Hx) as Hsafe. rewrite (proj1 (output_key_recovered _ 0 spend_sk Hs Hh Hx)) in E.
  cbn [mbind option_bind] in E. injection E as <-. set (tx := Build_transaction _ _).
  pose proof (u64_add_fits (get_block_reward coins) fee) as Hfit.
  assert (Ha : Forall (fits 64) (amount <$> vout (prefix tx))) by (constructor; [exact Hfit|constructor]).
  assert (Hl : Z.of_nat (length (vout (prefix tx))) < 2 ^ 64) by (cbn; lia).
  exists {| cb_unlock_height := unlock_height (prefix tx); cb_extra := extra (prefix tx); cb_height := h;
            cb_outputs := coinbase_outputs_of (vout (prefix tx)) |}. split; [|split; [|reflexivity]].
  - intros hd hashes. unfold prevalidate_miner_transaction. rewrite (proj2 (Z.eqb_neq _ _) Hh0). cbn [miner_tx].
    rewrite (proj2 (maybe_coinbase_tx_iff tx {| cb_unlock_height := unlock_height (prefix tx); cb_extra := extra (prefix tx);
      cb_height := h; cb_outputs := coinbase_outputs_of (vout (prefix tx)) |} Ha Hl)).
    + cbn [mbind option_bind cb_height]. now rewrite Z.eqb_refl.
    + repeat split; auto; [now constructor|]. unfold tx, sumZ. cbn. unfold fits in Hfit. lia.
  - unfold validate_miner_transaction. rewrite (proj2 (Z.eqb_neq _ _) Hh0), Hw. cbn [negb cb_outputs].
    unfold rule_19_coinbase_tx_should_be_balanced. rewrite coinbase_outputs_amounts. unfold tx. cbn [prefix vout fmap list_fmap amount foldl].
    rewrite (u64_add_small 0) by (unfold fits in *; lia). now rewrite Z.add_0_l, Z.eqb_refl.
Qed.

(** The weight is known before the transaction: the first try succeeds. *)
Lemma miner_tx_loop_first address keys spend_sk n i h txs_weight fee coins :
  miner_owns address keys spend_sk -> type (basic init) = RCTTypeNull -> fits 64 h -> fits 64 txs_weight ->
  is_block_size_valid h (txs_weight ⊞ miner_weight h fee coins) = true ->
  exists tx, miner_tx_loop init (S n) i keys h txs_weight fee coins address (txs_weight ⊞ miner_weight h fee coins) = Returns (Some tx) /\
    construct_miner_tx init (keys i) h (txs_weight ⊞ miner_weight h fee coins) fee address coins = Some tx.
Proof using HL SL.
  intros Hm Ht Hh Hw Hv. destruct (construct_miner_tx_some address keys spend_sk i h _ fee coins Hm Hv) as [tx E]. exists tx. split; [|exact E].
  cbn [miner_tx_loop]. rewrite E. cbv zeta. rewrite (construct_weight init _ _ _ _ _ _ _ Ht E). cbn [mbind result_bind].
  pose proof (miner_weight_bound h fee coins Hh).
  assert (Ed : (txs_weight ⊞ miner_weight h fee coins) ⊟ txs_weight = miner_weight h fee coins).
  { unfold u64_add, u64_sub, wrap. rewrite Zminus_mod_idemp_l. replace (_ + _ - _) with (miner_weight h fee coins) by lia. apply Z.mod_small. lia. }
  rewrite Ed, Z.ltb_irrefl. now rewrite Z.eqb_refl.
Qed.

(** The difficulty is found, and only the cache of difficulties changes. *)
Lemma top_returns d : rows_ok d -> exists h, top_block_hash d = Returns (h, height d ⊟ 1).
Proof.
  intros Hr. unfold top_block_hash. destruct (Z.eqb_spec (height d) 0) as [E|E]; [cbn; eauto|].
  assert (Hl : exists bi, last (m_block_info d) = Some bi).
  { rewrite (height_rows _ Hr) in E. destruct (m_block_info d) using rev_ind; [now cbn in E|]. rewrite last_snoc. eauto. }
  destruct Hl as [bi Hl]. unfold get_block_hash_from_height. rewrite (block_info_top d bi Hr Hl). cbn. eauto.
Qed.

Lemma push_newest_returns s h : rows_ok (db s) -> h = height (db s) -> 0 < h -> exists c, push_newest h s = Returns (with_dcache c s).
Proof.
  intros Hr -> Hh. unfold push_newest, get_block_timestamp, get_block_cumulative_difficulty.
  assert (Hl : exists bi, last (m_block_info (db s)) = Some bi).
  { rewrite (height_rows _ Hr) in Hh. destruct (m_block_info (db s)) using rev_ind; [now cbn in Hh|]. rewrite last_snoc. eauto. }
  destruct Hl as [bi Hl]. rewrite (block_info_top _ bi Hr Hl). cbn. eexists. reflexivity.
Qed.

Lemma difficulty_pass_returns s diff : rows_ok (db s.1) -> fits 64 (height (db s.1)) -> 0 < height (db s.1) ->
  next_difficulty (bi_timestamp <$> window_of (m_block_info (db s.1))) (row_difficulty <$> window_of (m_block_info (db s.1)))
    (height (db s.1)) = Returns diff ->
  exists c D, difficulty_pass s = ((with_dcache c s.1, s.2), Returns (D, diff)).
Proof.
  intros Hr Hf Hh Ed. unfold difficulty_pass.
  destruct (top_returns _ Hr) as [top Et]. unfold mbind at 1, M_bind at 1, tries at 1. unfold get_tail_id. rewrite Et.
  unfold mbind at 1, M_bind at 1, reads at 1.
  assert (Eh : (height (db s.1) ⊟ 1) ⊞ 1 = height (db s.1)).
  { unfold u64_add, u64_sub, wrap. rewrite Zplus_mod_idemp_l. replace (height (db s.1) - 1 + 1) with (height (db s.1)) by lia. now apply Z.mod_small. }
  rewrite Eh. set (D := if bool_decide _ then _ else 0).
  assert (Hstep : forall (c : difficulty_cache) (k : unit -> M (Z * Z)),
    (forall c', exists c'' D', k tt (with_dcache c' s.1, s.2) = ((with_dcache c'' s.1, s.2), Returns (D', diff))) -> forall m : M unit,
    (exists c', m (with_dcache c s.1, s.2) = ((with_dcache c' s.1, s.2), Returns tt)) ->
    exists c'' D', (m ≫= k) (with_dcache c s.1, s.2) = ((with_dcache c'' s.1, s.2), Returns (D', diff))).
  { intros c k Hk m [c' Em]. unfold mbind, M_bind. rewrite Em. apply Hk. }
  assert (Es : s = (with_dcache (dcache s.1) s.1, s.2)) by now destruct s as [[]].
  match goal with |- exists c D, ?m s = _ =>
    cut (exists c D, m (with_dcache (dcache s.1) s.1, s.2) = ((with_dcache c s.1, s.2), Returns (D, diff))); [now rewrite <- Es|] end.
  apply Hstep.
  2: { case_match; eexists; reflexivity. }
  intros c1. unfold mbind at 1, M_bind at 1, reads at 1. apply Hstep.
  2: { case_match; [|eexists; reflexivity].
       destruct (push_newest_returns (with_dcache c1 s.1) (height (db s.1)) Hr eq_refl Hh) as [c2 Ep].
       unfold mbind, M_bind, tries. cbn [fst]. rewrite Ep. eexists. reflexivity. }
  intros c2. unfold mbind at 1, M_bind at 1, tries at 1. cbn [fst]. change (db (with_dcache c2 s.1)) with (db s.1).
  rewrite read_window_spec by assumption. unfold mbind at 1, M_bind at 1, modify at 1.
  unfold mbind at 1, M_bind at 1, tries at 1. cbn [fst].
  change (rule_16_next_difficulty ?a ?b (height (db (with_window ?x ?y ?z (with_dcache c2 s.1))))) with (next_difficulty a b (height (db s.1))).
  rewrite Ed. eexists _, D. reflexivity.
Qed.

Lemma difficulty_returns s diff : rows_ok (db s.1) -> fits 64 (height (db s.1)) -> 0 < height (db s.1) ->
  next_difficulty_of (m_block_info (db s.1)) = Returns diff ->
  exists c, get_difficulty_for_next_block s = ((with_dcache c s.1, s.2), Returns diff).
Proof.
  intros Hr Hf Hh Ed. unfold get_difficulty_for_next_block, next_difficulty_of in *. rewrite <- (height_rows _ Hr) in Ed.
  assert (Es : s = (with_dcache (dcache s.1) s.1, s.2)) by now destruct s as [[]].
  destruct (negb (m_fixed_difficulty =? 0)).
  { exists (dcache s.1). rewrite <- Es. unfold reads. f_equal. rewrite (height_rows _ Hr) in Hh.
    rewrite (proj2 (Z.eqb_neq _ _)) by (rewrite (height_rows _ Hr); lia). rewrite (proj2 (Nat.eqb_neq _ _)) in Ed by lia. exact Ed. }
  destruct (difficulty_pass_returns s diff Hr Hf Hh Ed) as (c & D & E). unfold mbind at 1, M_bind at 1. rewrite E.
  case_match; [|now exists c].
  destruct (difficulty_pass_returns (with_dcache c s.1, s.2) diff Hr Hf Hh Ed) as (c' & D' & E'). unfold mbind, M_bind. rewrite E'. now exists c'.
Qed.

(** The time of a template passes the check of the chain. *)
Lemma template_time_ok u b s : rows_ok (db s) -> timestamp (header b) <= clock_at_block s b < 2 ^ 63 ->
  exists t, template_time u b s = Returns t /\
    ((11 <= length (m_block_info (db s)))%nat -> median (bi_timestamp <$> drop (length (m_block_info (db s)) - 11) (m_block_info (db s))) <= t).
Proof.
  intros Hr Hc. unfold template_time.
  destruct (clock_at_block s b ⊞ CRYPTONOTE_BLOCK_FUTURE_TIME_LIMIT_V2 <? timestamp (header b)) eqn:Ef.
  { apply Z.ltb_lt in Ef. unfold CRYPTONOTE_BLOCK_FUTURE_TIME_LIMIT_V2 in Ef. exfalso.
    destruct (Z.ltb_spec (clock_at_block s b + 600) 0).
    - unfold u64_add in Ef. pose proof (wrap_fits 64 (clock_at_block s b + 300 * 2) ltac:(lia)) as Hw. unfold fits in Hw. lia.
    - rewrite u64_add_small in Ef by (unfold fits; lia). lia. }
  destruct (check_block_timestamp b s) as [[]|] eqn:Ek; cbn [mbind result_bind].
  - eexists. split; [reflexivity|]. intros Hl. now apply timestamp_spec.
  - unfold check_block_timestamp in Ek. rewrite Ef in Ek. rewrite (height_rows _ Hr) in *. unfold BLOCKCHAIN_TIMESTAMP_CHECK_WINDOW_V2 in *.
    destruct (Z.ltb_spec (Z.of_nat (length (m_block_info (db s)))) 11); [discriminate|].
    pose proof (read_rows bi_timestamp (db s) (fun i => get_block_timestamp i (db s)) (length (m_block_info (db s)) - 11) Hr ltac:(reflexivity)) as Er.
    rewrite (height_rows _ Hr) in Er. replace (Z.of_nat (length (m_block_info (db s)) - 11)) with (Z.of_nat (length (m_block_info (db s))) - 11) in Er by lia.
    replace (Z.of_nat (length (m_block_info (db s))) - (Z.of_nat (length (m_block_info (db s))) - 11)) with 11 in Er by lia.
    rewrite Er. cbn [mbind result_bind]. eexists. split; [reflexivity|]. intros _. lia.
  - unfold check_block_timestamp in Ek. rewrite Ef in Ek. destruct (Z.ltb_spec (height (db s)) BLOCKCHAIN_TIMESTAMP_CHECK_WINDOW_V2) as [|Hw]; [discriminate|].
    unfold BLOCKCHAIN_TIMESTAMP_CHECK_WINDOW_V2 in *. rewrite (height_rows _ Hr) in Hw.
    replace (height (db s) - 11) with (Z.of_nat (length (m_block_info (db s)) - 11)) in Ek by (rewrite (height_rows _ Hr); lia).
    rewrite (read_rows bi_timestamp) in Ek by (assumption || reflexivity). discriminate.
Qed.

(** ** A template from the top of the chain *)

Lemma run_tries {A B} (f : blockchain -> result A) (k : A -> M B) s a : f s.1 = Returns a -> (tries f ≫= k) s = k a s.
Proof. intros E. unfold mbind, M_bind, tries. now rewrite E. Qed.
Lemma run_reads {A B} (f : blockchain -> A) (k : A -> M B) s : (reads f ≫= k) s = k (f s.1) s.
Proof. reflexivity. Qed.
Lemma run_modify {B} f (k : unit -> M B) s : (modify f ≫= k) s = k tt (f s.1, s.2).
Proof. reflexivity. Qed.
Lemma run_then {A B} (m : M A) (k : A -> M B) s s' a : m s = (s', Returns a) -> (m ≫= k) s = k a s'.
Proof. intros E. unfold mbind, M_bind. now rewrite E. Qed.

Lemma template_parent_top s diff : rows_ok (db s.1) -> fits 64 (height (db s.1)) -> 0 < height (db s.1) ->
  next_difficulty_of (m_block_info (db s.1)) = Returns diff ->
  exists c top, template_parent init None s = ((with_dcache c s.1, s.2), Returns (Some (height (db s.1), top, diff))) /\
    top = match last (m_block_info (db s.1)) with Some p => bi_hash p | None => null_hash end.
Proof.
  intros Hr Hf Hh Ed. destruct (top_returns _ Hr) as [top Et]. destruct (difficulty_returns s diff Hr Hf Hh Ed) as [c Ec].
  exists c, top. split; [|eapply top_hash_last; eassumption]. unfold template_parent. rewrite run_reads, (run_tries _ _ _ _ Et). cbv zeta.
  now rewrite (run_then _ _ _ _ _ Ec).
Qed.

(** What the chain asks of a block at its top, apart from the proof of work and the transactions. *)
Record template_fits (images_of : hash -> list key_image) (d : chain_db) (t : PoolTable.tables) (old : list hash) (blk : block) : Prop := {
  tf_prev : prev_id (header blk) = match last (m_block_info d) with Some p => bi_hash p | None => null_hash end;
  tf_time : (11 <= length (m_block_info d))%nat ->
    median (bi_timestamp <$> drop (length (m_block_info d) - 11) (m_block_info d)) <= timestamp (header blk);
  tf_coinbase : exists ids c cw coins, tx_hashes blk = old ++ ids /\ NoDup (ids ≫= images_of) /\
    prevalidate_miner_transaction blk (height d) = Some c /\
    get_transaction_weight (miner_tx blk) = Returns cw /\ get_block_already_generated_coins (height d - 1) d = Returns coins /\
    validate_miner_transaction (height d) c (sum_of PoolTable.weight t ids ⊞ cw) (wrap 64 (sum_of PoolTable.fee t ids)) coins = Some c /\
    amount <$> vout (prefix (miner_tx blk)) = [get_block_reward coins ⊞ wrap 64 (sum_of PoolTable.fee t ids)] }.

Lemma coins_on_top d : valid_chain d -> 0 < height d ->
  exists coins, get_block_already_generated_coins (height d - 1) d = Returns coins /\ 0 <= coins <= get_money_supply.
Proof.
  intros Hv Hh. destruct (last_coins _ (vc_rows _ Hv)) as [Ec _]. rewrite (proj2 (Z.eqb_neq _ _)) in Ec by lia. eexists. split; [exact Ec|].
  destruct (last (m_block_info d)) as [bi|] eqn:El; [|cbn; apply (coins_after_bounds 0)]. cbn. rewrite last_lookup in El.
  rewrite (valid_coins _ _ _ Hv El). apply coins_after_bounds.
Qed.

Lemma block_template_ok images_of o b address ex_nonce cache s spend_sk diff :
  valid_chain (db s.1) -> 0 < height (db s.1) -> TxPoolInv.TxPoolInv.pool_inv init images_of (m_tx_pool s.1) -> m_btc_valid s.1 = false ->
  type (basic init) = RCTTypeNull -> miner_owns address (o_keys o) spend_sk ->
  next_difficulty_of (m_block_info (db s.1)) = Returns diff -> diff <> 0 ->
  (forall s b, o_now o <= clock_at_block s b < 2 ^ 63) ->
  exists s' blk reward cache',
    create_block_template init o b None address ex_nonce cache s = (s', Returns (Some (blk, diff, reward), cache')) /\
    m_db s'.1 = m_db s.1 /\ TxPoolInv.TxPoolInv.pool_inv init images_of (m_tx_pool s'.1) /\
    template_fits images_of (db s.1) (tbl (m_tx_pool s.1)) (tx_hashes b) blk.
Proof using HL SL.
  intros Hv Hh Hp Hc Ht Hm Ed Hd Hclock. pose proof (vc_rows _ Hv) as Hr. pose proof (vc_fits _ Hv) as Hf.
  unfold create_block_template. rewrite (run_tries _ _ _ false) by now rewrite Hc. rewrite run_modify. rewrite Hc. cbn [andb].
  destruct (template_parent_top (s.1, s.2) diff Hr Hf Hh Ed) as (c & top & Ep & Etop). rewrite (run_then _ _ _ _ _ Ep). cbv zeta.
  set (b1 := with_header _ b). set (s1 := with_dcache c s.1).
  destruct (template_time_ok (o_median o) b1 s1 Hr (Hclock s1 b1)) as (t & Et & Hmed). rewrite (run_tries _ _ _ t) by exact Et.
  rewrite (proj2 (Z.eqb_neq _ _) Hd).
  destruct (coins_on_top _ Hv Hh) as (coins & Ecoins & Hcoins).
  assert (Hca : @chain_already_generated_coins (chain s1) (height (db s.1)) = coins).
  { cbn. unfold get_already_generated_coins. rewrite (proj2 (Z.ltb_lt _ _) Hh). change (db s1) with (db s.1). now rewrite Ecoins. }
  destruct (@fill_block_template_ok _ (chain s1) (chain_of_laws _ _) init images_of (m_tx_pool s.1) (height (db s.1)) (o_meta o) Hp Hf)
    as (p' & st & Ef & Hp' & _ & Hn & _ & Hw & Hwb & Hfee & _).
  { rewrite Hca. rewrite Config.money_supply_value in Hcoins. unfold fits. lia. }
  assert (Efill : fill_template init (height (db s.1)) (o_meta o) (s1, s.2) = ((with_pool p' s1, s.2), Returns (Some st))).
  { unfold fill_template. cbn [fst]. change (m_tx_pool s1) with (m_tx_pool s.1). now rewrite Ef. }
  rewrite (run_then _ _ _ _ _ Efill), run_reads. cbv beta.
  change CRYPTONOTE_COINBASE_BLOB_RESERVED_SIZE with 600 in Hwb. pose proof (miner_weight_bound (height (db s.1)) (fee_out st) coins Hf) as Hmw.
  assert (Hw0 : 0 <= total_weight_out st) by (rewrite Hw; exact (sum_of_sublist PoolTable.weight _ [] _ (stored_weight_pos init images_of _ Hp) (sublist_nil_l _))).
  assert (Hbound : get_block_size_bound (height (db s.1)) < 2 ^ 64) by (unfold get_block_size_bound, fits in *; change get_minimum_block_size_bound with 131072; lia).
  assert (Hws : total_weight_out st ⊞ miner_weight (height (db s.1)) (fee_out st) coins =
                total_weight_out st + miner_weight (height (db s.1)) (fee_out st) coins) by (apply u64_add_small; unfold fits; lia).
  assert (Hvalid : is_block_size_valid (height (db s.1)) (total_weight_out st ⊞ miner_weight (height (db s.1)) (fee_out st) coins) = true).
  { apply Z.leb_le. rewrite Hws. lia. }
  destruct (miner_tx_loop_first address (o_keys o) spend_sk 9 1 (height (db s.1)) (total_weight_out st) (fee_out st) coins Hm Ht Hf
    ltac:(unfold fits; lia) Hvalid) as (tx & Eloop & Etx).
  destruct (construct_miner_tx_some address (o_keys o) spend_sk 0 (height (db s.1)) (total_weight_out st) (fee_out st) coins Hm) as [tx0 Etx0].
  { apply Z.leb_le. lia. }
  assert (Eminer : template_miner_tx init (o_keys o) (height (db s.1)) (total_weight_out st) (fee_out st) address (with_pool p' s1) = Returns (Some tx)).
  { unfold template_miner_tx. change (db (with_pool p' s1)) with (db s.1). rewrite (proj2 (Z.ltb_lt _ _) Hh), Ecoins. cbn [mbind result_bind].
    rewrite Etx0, (construct_weight init _ _ _ _ _ _ _ Ht Etx0). exact Eloop. }
  rewrite (run_tries _ _ (with_pool p' s1, s.2) _ Eminer). cbv beta zeta. rewrite run_modify.
  destruct (construct_miner_tx_checked address (o_keys o) spend_sk 1 (height (db s.1)) _ (fee_out st) coins tx Hm Ht ltac:(lia) Etx) as (cb & Hpre & Hval & Ham).
  eexists _, _, _, _. split; [reflexivity|]. split; [reflexivity|]. split; [exact Hp'|]. split; [exact Etop|exact Hmed|].
  exists (tx_hashes_out st), cb, (miner_weight (height (db s.1)) (fee_out st) coins), coins. rewrite <- Hfee, <- Hw.
  split_and!; auto. exact (construct_weight init _ _ _ _ _ _ _ Ht Etx).
Qed.

(** C33: A block template is accepted by the chain that made it.  On a valid chain with a block, a pool
    that satisfies its invariant, no cached template, an address whose keys the miner holds, a next difficulty that exists and is not
    zero, and a clock that does not run backwards, [create_block_template] returns a
    template (the loop over the weight of the miner's transaction ends at its first try) with the
    difficulty of the next block; database and pool invariant are kept.  The block extends the top,
    its time is not below the median, its transactions spend no key image twice, and its
    coinbase transaction passes both checks of the chain for the weight of the whole block and
    the fees of these transactions. *)
Theorem block_template_accepted images_of o b address ex_nonce cache s spend_sk diff :
  valid_chain (db s.1) -> 0 < height (db s.1) -> TxPoolInv.TxPoolInv.pool_inv init images_of (m_tx_pool s.1) -> m_btc_valid s.1 = false ->
  type (basic init) = RCTTypeNull -> miner_owns address (o_keys o) spend_sk ->
  next_difficulty_of (m_block_info (db s.1)) = Returns diff -> diff <> 0 ->
  (forall s b, o_now o <= clock_at_block s b < 2 ^ 63) ->
  exists s' blk reward cache',
    create_block_template init o b None address ex_nonce cache s = (s', Returns (Some (blk, diff, reward), cache')) /\
    m_db s'.1 = m_db s.1 /\ TxPoolInv.TxPoolInv.pool_inv init images_of (m_tx_pool s'.1) /\
    template_fits images_of (db s.1) (tbl (m_tx_pool s.1)) (tx_hashes b) blk.
Proof using HL SL. apply block_template_ok. Qed.

End Parts.

(** ** Examples *)

Section Examples.
Import ModelGroup ChainSafety.
Import RollingDigest.
#[local] Existing Instance no_shift.
#[local] Existing Instance uncached.
#[local] Existing Instance in_order.
#[local] Existing Instance fixed_difficulty.
#[local] Existing Instance slow_clock.
#[local] Existing Instance nothing_torn.

Definition miner_address : spend_view_public_keys := get_subaddress example_keys {| major := 0; minor := 0 |}.
Definition some_oracle : oracle :=
  {| o_keys := fun _ => 5; o_now := 900; o_median := 0;
     o_meta := TxPoolSteps.TxPoolSteps.zero_meta |}.
Definition no_cache : template_cache := cache_block_template b0 miner_address [] 0 0 0 0.
Definition ready_to_mine (s : blockchain) : blockchain * block_verification_context :=
  (with_flags false true (with_pool (TxPoolSteps.TxPoolSteps.empty_pool 1000) s), fresh_bvc).
Definition mining_chain : blockchain * block_verification_context := ready_to_mine after_two.

Lemma ready_db s : db (ready_to_mine s).1 = db s.
Proof. reflexivity. Qed.
Lemma ready_pool s : m_tx_pool (ready_to_mine s).1 = TxPoolSteps.TxPoolSteps.empty_pool 1000.
Proof. reflexivity. Qed.
Lemma ready_uncached s : m_btc_valid (ready_to_mine s).1 = false.
Proof. reflexivity. Qed.

Lemma mining_chain_valid : valid_chain (db mining_chain.1).
Proof.
  assert (Hi : inv after_two) by (apply (reachable_inv db_init empty_blockchain); [vm_compute; auto|exact after_two_reached]).
  unfold mining_chain. rewrite ready_db. exact (inv_current after_two Hi after_two_whole).
Qed.

Lemma mining_chain_difficulty : next_difficulty_of (m_block_info (db mining_chain.1)) = Returns 1.
Proof. vm_cast_no_check (eq_refl (Returns 1)). Qed.

Lemma example_miner_owns : miner_owns miner_address (o_keys some_oracle) 7.
Proof.
  split; [vm_compute; reflexivity|vm_compute; repeat split; congruence|]. intros i. split; vm_compute; repeat split; congruence.
Qed.

Lemma block_template_accepted_witness :
  exists s' blk reward cache',
    create_block_template no_rct some_oracle (paid_block 0 0 null_hash) None miner_address [] no_cache mining_chain =
      (s', Returns (Some (blk, 1, reward), cache')) /\
    template_fits (fun _ => []) (db mining_chain.1) (tbl (m_tx_pool mining_chain.1)) [] blk.
Proof.
  destruct (block_template_accepted no_rct (fun _ => []) some_oracle (paid_block 0 0 null_hash) miner_address [] no_cache mining_chain 7 1)
    as (s' & blk & reward & cache' & E & _ & _ & Hf).
  - exact mining_chain_valid.
  - unfold mining_chain. rewrite ready_db, after_two_height. reflexivity.
  - unfold mining_chain. rewrite ready_pool.
    exact (@TxPoolSteps.TxPoolSteps.empty_pool_inv _ (chain_of empty_db ∅) (chain_of_laws empty_db ∅) no_rct (fun _ => []) 1000).
  - exact (ready_uncached after_two).
  - reflexivity.
  - exact example_miner_owns.
  - exact mining_chain_difficulty.
  - discriminate.
  - intros. cbn. split; [discriminate|reflexivity].
  - exists s', blk, reward, cache'. split; [exact E|exact Hf].
Defined.

End Examples.

End MinerTemplate.
