(* ===== verification/ChainSync.v ===== *)
(** What a node tells its peers about its chain: the reading operations of
    [src/src/cryptonote/core/blockchain.cpp] that the synchronisation uses. *)

From stdpp Require Import gmap sorting.
From S2P Require Import Prelude Hash Config Varint Serialization Primality Group ModelGroup Key RctOps VectorOps InnerProduct Bulletproof Clsag RctTypes TxTypes Consensus Coinbase FormatUtils BlockQueue ChainDb ChainDbInv TxCheck.

Module ChainSync.
Import Config Serialization.Archive RctTypes TxTypes Consensus Coinbase FormatUtils ChainDb ChainDbInv TxCheck.

Definition BLOCKS_IDS_SYNCHRONIZING_DEFAULT_COUNT : Z := 10000.

(** ** Where two chains split *)

(** The loop; [fuel] bounds the number of turns. *)
Fixpoint history_loop (fuel : nat) (i current_multiplier current_back_offset sz : Z) (d : chain_db) : result (list hash * bool) :=
  match fuel with
  | O => Returns ([], false)
  | S fuel' =>
    if current_back_offset <? sz then
      id ← get_block_hash_from_height (sz ⊟ current_back_offset) d;
      let genesis := sz ⊟ current_back_offset =? 0 in
      '(ids, genesis_included) ←
        (if i <? 10 then history_loop fuel' (i ⊞ 1) current_multiplier (current_back_offset ⊞ 1) sz d
         else let m := current_multiplier ⊠ 2 in history_loop fuel' (i ⊞ 1) m (current_back_offset ⊞ m) sz d);
      Returns (id :: ids, genesis || genesis_included)
    else Returns ([], false)
  end.

Definition get_short_chain_history (d : chain_db) : result (list hash) :=
  let sz := height d in
  if sz =? 0 then Returns [] else
  '(ids, genesis_included) ← history_loop (Z.to_nat sz) 0 1 1 sz d;
  if negb genesis_included then g ← get_block_hash_from_height 0 d; Returns (ids ++ [g]) else Returns ids.

(** The first overload: the height of the first known block of the list. *)
Definition find_split (qblock_ids : list hash) (d : chain_db) : result (option Z) :=
  match last qblock_ids with
  | None => Returns None
  | Some oldest =>
    gen_hash ← get_block_hash_from_height 0 d;
    if negb (bool_decide (oldest = gen_hash)) then Returns None else
    Returns (head (omap (fun id => block_exists id d) qblock_ids))
  end.

Record supplement := { s_hashes : list hash; s_weights : list Z; s_start_height : Z; s_current_height : Z }.

(** The second overload, with weights. *)
Definition find_supplement (qblock_ids : list hash) (d : chain_db) : result (option supplement) :=
  split ← find_split qblock_ids d;
  match split with
  | None => Returns None
  | Some start_height =>
    let stop_height := height d in
    let heights := seqZ start_height (Z.min (stop_height - start_height) BLOCKS_IDS_SYNCHRONIZING_DEFAULT_COUNT) in
    rows ← result_mapM (fun i => h ← get_block_hash_from_height i d; w ← get_block_weight i d; Returns (h, w)) heights;
    Returns (Some {| s_hashes := rows.*1; s_weights := rows.*2; s_start_height := start_height; s_current_height := height d |})
  end.

(** [NOTIFY_RESPONSE_CHAIN_ENTRY::request_t] *)
Record chain_entry := {
  start_height : Z; total_height : Z; cumulative_difficulty : Z; cumulative_difficulty_top64 : Z;
  m_block_ids : list hash; m_block_weights : list Z }.

(** The third overload. *)
Definition find_blockchain_supplement (qblock_ids : list hash) (d : chain_db) : result (option chain_entry) :=
  r ← find_supplement qblock_ids d;
  match r with
  | None => Returns None
  | Some s =>
    wide_cumulative_difficulty ← get_block_cumulative_difficulty (s_current_height s ⊟ 1) d;
    Returns (Some {| start_height := s_start_height s; total_height := s_current_height s;
                     cumulative_difficulty := Z.land wide_cumulative_difficulty u64_max;
                     cumulative_difficulty_top64 := Z.land (Z.shiftr wide_cumulative_difficulty 64) u64_max;
                     m_block_ids := s_hashes s; m_block_weights := s_weights s |})
  end.

(** ** Blocks and transactions *)

Section Objects.
Context `{UndefinedShift} (init : rctData).

(** [get_blocks] by ids: blocks, missed ids and the return value.  [None] is undefined: a stored blob that does not parse is
    taken off the list and its empty optional is dereferenced. *)
Fixpoint get_blocks (block_ids : list hash) (d : chain_db) : option (list (blob * block) * list hash * bool) :=
  match block_ids with
  | [] => Some ([], [], true)
  | id :: ids =>
    match block_exists id d with
    | None => '(bs, missed, ok) ← get_blocks ids d; Some (bs, id :: missed, ok)
    | Some h =>
      match get_block_blob_from_height h d with
      | Throws => Some ([], [], false)
      | Returns bd => b ← maybe_block_from_blob init bd; '(bs, missed, ok) ← get_blocks ids d; Some ((bd, b) :: bs, missed, ok)
      end
    end
  end.

(** Blobs found and hashes missed; reading a blob of the modelled database does not throw. *)
Definition get_transactions_blobs (txs_ids : list hash) (d : chain_db) : list blob * list hash :=
  (omap (fun h => get_tx_blob h d) txs_ids, filter (fun h => get_tx_blob h d = None) txs_ids).

(** [NOTIFY_RESPONSE_GET_OBJECTS::request_t] *)
Record objects := { o_blocks : list BlockQueue.block_complete_entry; missed_ids : list hash; current_blockchain_height : Z }.

(** The loop over the blocks found, from the [i]-th; [ids] are all the ids asked for. *)
Fixpoint pack_blocks (prune : bool) (ids : list hash) (i : nat) (blocks : list (blob * block)) (rsp : objects) (d : chain_db)
    : result (objects * bool) :=
  match blocks with
  | [] => Returns (rsp, true)
  | (bd, b) :: blocks' =>
    let '(txs, missed_tx_ids) := get_transactions_blobs (tx_hashes b) d in
    let es := (fun x => {| BlockQueue.te_blob := x; BlockQueue.te_prunable_hash := null_hash |}) <$> txs in
    let push e missed := {| o_blocks := o_blocks rsp ++ [e]; missed_ids := missed_ids rsp ++ missed;
                            current_blockchain_height := current_blockchain_height rsp |} in
    match missed_tx_ids with
    | _ :: _ => Returns (push {| BlockQueue.pruned := prune; BlockQueue.bce_block := []; BlockQueue.block_weight := 0; BlockQueue.txs := es |} missed_tx_ids, false)
    | [] =>
      w ← (match ids !! i with
           | Some id => if prune && bool_decide (is_Some (block_exists id d)) then h ← get_block_height id d; get_block_weight h d else Returns 0
           | None => Returns 0 end);
      pack_blocks prune ids (S i) blocks' (push {| BlockQueue.pruned := prune; BlockQueue.bce_block := bd; BlockQueue.block_weight := w; BlockQueue.txs := es |} []) d
    end
  end.

Definition handle_get_objects (ids : list hash) (prune : bool) (d : chain_db) : option (result (objects * bool)) :=
  '(bs, missed, _) ← get_blocks ids d;
  Some (pack_blocks prune ids 0 bs {| o_blocks := []; missed_ids := missed; current_blockchain_height := height d |} d).

(** [get_blocks(start_offset, count)]: [None] is the return value [false]. *)
Definition get_blocks_from_offset (start_offset count : Z) (d : chain_db) : result (option (list (blob * block))) :=
  if height d <=? start_offset then Returns None else
  let stop := Z.min (start_offset ⊞ count) (height d) in
  bs ← result_mapM (fun i => bd ← get_block_blob_from_height i d; Returns (bd, maybe_block_from_blob init bd)) (seqZ start_offset (stop - start_offset));
  Returns (mapM (fun x => b ← x.2; Some (x.1, b)) bs).

(** With the blobs of the transactions. *)
Definition get_blocks_and_txs (start_offset count : Z) (d : chain_db) : result (option (list (blob * block) * list blob)) :=
  if height d <=? start_offset then Returns None else
  r ← get_blocks_from_offset start_offset count d;
  match r with
  | None => Returns None
  | Some bs =>
    let found := (fun x => get_transactions_blobs (tx_hashes x.2) d) <$> bs in
    Returns (if forallb (fun f => (length f.2 =? 0)%nat) found then Some (bs, concat found.*1) else None)
  end.

Definition get_transactions (txs_ids : list hash) (d : chain_db) : option (list transaction * list hash) :=
  let '(blobs, missed) := get_transactions_blobs txs_ids d in
  txs ← mapM (maybe_tx_from_blob init) blobs; Some (txs, missed).

End Objects.

(** ** Outputs *)

(** The overload of [get_output_tx_and_index] for one output. *)
Definition output_tx_and_index (amount index : Z) (d : chain_db) : result (hash * Z) :=
  indices ← get_output_tx_and_index amount [index] d;
  match indices with [] => Throws | toi :: _ => Returns toi end.

(** The loop counts down from the number of outputs of the amount. *)
Fixpoint mature_loop (num_outs : nat) (amount : Z) (d : chain_db) : result Z :=
  match num_outs with
  | O => Returns 0
  | S n =>
    '(tx_hash, _) ← output_tx_and_index amount (Z.of_nat n) d;
    h ← get_tx_block_height tx_hash d;
    if h ⊞ CRYPTONOTE_DEFAULT_TX_SPENDABLE_AGE <=? height d then Returns (Z.of_nat num_outs) else mature_loop n amount d
  end.

Definition get_num_mature_outputs (amount : Z) (d : chain_db) : result Z :=
  mature_loop (Z.to_nat (get_num_outputs amount d)) amount d.

Section Outputs.
Context `{Sodium} `{Sha3}.

(** [COMMAND_RPC_GET_OUTPUTS_BIN::outkey] *)
Record rpc_outkey := { rk_key : public_key; rk_mask : option ec_point; rk_unlocked : bool; rk_height : Z; rk_txid : hash }.

(** The amounts and offsets of a request; [None] is the return value [false], which exceptions become as well. *)
Definition get_tx_outputs (outputs : list (Z * Z)) (get_txid : bool) (d : chain_db) : option (list rpc_outkey) :=
  match result_mapM (fun o => data ← TxCheck.get_output_key d o.1 o.2;
                              id ← (if get_txid then fst <$> output_tx_and_index o.1 o.2 d else Returns null_hash);
                              Returns {| rk_key := pubkey data; rk_mask := commitment data;
                                         rk_unlocked := is_tx_spendtime_unlocked d (od_unlock_height data);
                                         rk_height := od_height data; rk_txid := id |}) outputs with
  | Returns outs => Some outs
  | Throws => None
  end.

Definition get_output_key_mask_unlocked (amount index : Z) (d : chain_db) : result (public_key * option ec_point * bool) :=
  o_data ← TxCheck.get_output_key d amount index;
  '(tx_hash, _) ← output_tx_and_index amount index d;
  u ← get_tx_unlock_height tx_hash d;
  Returns (pubkey o_data, commitment o_data, is_tx_spendtime_unlocked d u).

End Outputs.

Definition block_difficulty (i : Z) (d : chain_db) : Z :=
  match get_block_difficulty i d with Returns x => x | Throws => 0 end.

(** ** The sampled heights *)

(** The offsets of the loop, without overflow. *)
Fixpoint sample_offsets (fuel : nat) (i m off sz : Z) : list Z :=
  match fuel with
  | O => []
  | S f => if off <? sz then off :: (if i <? 10 then sample_offsets f (i + 1) m (off + 1) sz else sample_offsets f (i + 1) (m * 2) (off + m * 2) sz)
           else []
  end.

(** One by one to 11, then 13, 17, 25, ... *)
Definition sampled (i m off : Z) : Prop := (0 <= i <= 10 /\ m = 1 /\ off = i + 1) \/ (10 <= i /\ 1 <= m /\ off = 9 + 2 * m).

Lemma sampled_next i m off : sampled i m off ->
  if i <? 10 then sampled (i + 1) m (off + 1) else sampled (i + 1) (m * 2) (off + m * 2).
Proof. unfold sampled. destruct (Z.ltb_spec i 10); lia. Qed.

(** The first offset from [t] on, or the genesis block, is near [t]. *)
Lemma sample_first fuel t sz : forall i m off, sampled i m off -> sz - off <= Z.of_nat fuel -> t <= sz -> off - t <= Z.max 0 (t - 11) ->
  let o := default sz (head (List.filter (fun o => t <=? o) (sample_offsets fuel i m off sz))) in
  t <= o <= sz /\ o - t <= Z.max 0 (t - 11).
Proof.
  induction fuel as [|fuel IH]; intros i m off Hs Hf Ht Hn; cbn [sample_offsets].
  { cbn. lia. }
  destruct (Z.ltb_spec off sz) as [Ho|]; [|cbn; lia]. cbn [List.filter]. destruct (Z.leb_spec t off); [cbn; lia|].
  pose proof (sampled_next _ _ _ Hs) as Hx. unfold sampled in Hs. destruct (Z.ltb_spec i 10); apply IH; auto; lia.
Qed.

Lemma sample_range fuel i m off sz : sampled i m off -> Forall (fun o => 1 <= o < sz) (sample_offsets fuel i m off sz).
Proof.
  revert i m off. induction fuel as [|fuel IH]; intros i m off Hs; cbn [sample_offsets]; [constructor|].
  destruct (Z.ltb_spec off sz); [|constructor]. pose proof (sampled_next _ _ _ Hs) as Hx.
  constructor; [unfold sampled in Hs; lia|]. destruct (i <? 10); auto.
Qed.

(** Their number is logarithmic. *)
Lemma sample_length fuel i m off sz : sampled i m off -> 1 < sz ->
  Z.of_nat (length (sample_offsets fuel i m off sz)) <= Z.max 0 (11 - i) + (if i <? 10 then Z.log2 sz else Z.max 0 (Z.log2 sz - Z.log2 m)).
Proof.
  intros Hs Hsz. revert i m off Hs. induction fuel as [|fuel IH]; intros i m off Hs; cbn [sample_offsets length].
  { pose proof (Z.log2_nonneg sz). case_match; lia. }
  pose proof (Z.log2_nonneg sz) as Hl. destruct (Z.ltb_spec off sz) as [Ho|]; [|cbn; case_match; lia].
  pose proof (sampled_next _ _ _ Hs) as Hx. cbn [length]. rewrite Nat2Z.inj_succ. destruct (Z.ltb_spec i 10) as [Hi|Hi].
  - specialize (IH _ _ _ Hx). destruct Hs as [(H1 & -> & ->)|]; [|lia]. destruct (Z.ltb_spec (i + 1) 10); [lia|].
    replace (i + 1) with 10 in * by lia. change (Z.log2 1) with 0 in IH. lia.
  - assert (Hm : off = 9 + 2 * m /\ 1 <= m) by (unfold sampled in Hs; lia). specialize (IH _ _ _ Hx).
    rewrite (proj2 (Z.ltb_ge _ _)) in IH by lia. assert (Hd : Z.log2 (m * 2) = Z.succ (Z.log2 m)) by (rewrite Z.mul_comm; apply Z.log2_double; lia).
    assert (Z.log2 (m * 2) <= Z.log2 sz) by (apply Z.log2_le_mono; lia). lia.
Qed.

(** ** The heights of ids *)

(** The hash of the main chain at a height. *)
Definition id_at (d : chain_db) (i : Z) : option hash := if 0 <=? i then bi_hash <$> m_block_info d !! Z.to_nat i else None.

(** The table of ids agrees with the rows of blocks. *)
Definition ids_ok (d : chain_db) : Prop := forall h i, block_exists h d = Some i <-> id_at d i = Some h.

Lemma hash_at_range d i h : id_at d i = Some h -> db_ok d -> 0 <= i < height d.
Proof.
  unfold id_at. intros E Hd. destruct (Z.leb_spec 0 i); [|discriminate]. apply fmap_Some in E as (bi & E & _).
  apply lookup_lt_Some in E. rewrite (ok_heights _ Hd) in E. unfold height. lia.
Qed.

Lemma hash_at_some d i : db_ok d -> 0 <= i < height d -> exists h, id_at d i = Some h.
Proof.
  intros Hd Hi. unfold id_at. rewrite (proj2 (Z.leb_le _ _)) by lia.
  destruct (lookup_lt_is_Some_2 (m_block_info d) (Z.to_nat i)) as [bi ->]; [|cbn; eauto].
  rewrite (ok_heights _ Hd). unfold height in Hi. lia.
Qed.

Lemma get_hash_at d i h : db_ok d -> id_at d i = Some h -> get_block_hash_from_height i d = Returns h.
Proof.
  intros Hd E. unfold id_at in E. destruct (Z.leb_spec 0 i); [|discriminate]. apply fmap_Some in E as (bi & E & ->).
  unfold get_block_hash_from_height, block_info_of, find_block_info.
  now rewrite <- (Z2Nat.id i), (indexed_find_at bi_height _ _ _ (ok_info _ Hd) E) by assumption.
Qed.

Lemma history_loop_samples d sz : db_ok d -> sz = height d -> sz < 2 ^ 63 -> forall fuel i m off, sampled i m off -> i + Z.of_nat fuel < 2 ^ 64 ->
  exists ids, history_loop fuel i m off sz d = Returns (ids, false) /\
    Forall2 (fun o id => id_at d (sz - o) = Some id) (sample_offsets fuel i m off sz) ids.
Proof.
  intros Hd Hsz Hfit. induction fuel as [|fuel IH]; intros i m off Hs Hf; cbn [history_loop sample_offsets]; [eauto|].
  destruct (Z.ltb_spec off sz) as [Ho|]; [|eauto]. pose proof (sampled_next _ _ _ Hs) as Hx.
  assert (Hr : 1 <= off /\ 1 <= m /\ 0 <= i /\ (10 <= i -> 2 * m < off)) by (unfold sampled in Hs; lia).
  rewrite u64_sub_small by (unfold fits; lia). destruct (hash_at_some d (sz - off) Hd) as [h Eh]; [lia|].
  rewrite (get_hash_at _ _ _ Hd Eh). cbn [mbind result_bind]. rewrite (proj2 (Z.eqb_neq _ _)) by lia. cbn [orb].
  rewrite (u64_add_small i 1) by (unfold fits; lia). destruct (Z.ltb_spec i 10).
  - rewrite u64_add_small by (unfold fits; lia). destruct (IH _ _ _ Hx) as (ids & -> & Hi); [lia|].
    cbn [mbind result_bind]. eexists. split; [reflexivity|]. now constructor.
  - cbv zeta. assert (Hm : m ⊠ 2 = m * 2) by (apply u64_mul_small; unfold fits; lia). rewrite Hm, u64_add_small by (unfold fits; lia).
    destruct (IH _ _ _ Hx) as (ids & -> & Hi); [lia|]. cbn [mbind result_bind]. eexists. split; [reflexivity|]. now constructor.
Qed.

Section Reachable.
Context `{Sodium} `{Sha3} `{UndefinedShift} `{CachedSize} (init : rctData).

(** What adding a block does to the rows of blocks and to the table of ids. *)
Lemma add_entry_ids e d d' prev : db_ok d -> entry_ok init e -> add_entry e d = Returns (d', prev) ->
  exists bd bh bi, block_to_blob (e_blk e) = Returns bd /\ get_block_hash (e_blk e) (cached_size (miner_tx (e_blk e))) = Returns bh /\
    m_block_heights d !! bh = None /\ bi_hash bi = bh /\ length (tx_hashes (e_blk e)) = length (e_txs e) /\
    m_blocks d' = m_blocks d ++ [bd] /\ m_block_info d' = m_block_info d ++ [bi] /\
    m_block_heights d' = <[bh := height d]> (m_block_heights d).
Proof.
  intros Hd [He Ht] E. unfold add_entry, add_block in E. apply throw_unless_inv in E as [Hl E]. apply Nat.eqb_eq in Hl.
  apply result_bind_inv in E as (bh & Ebh & E). apply result_bind_inv in E as (mb & _ & E). apply result_bind_inv in E as (mh & _ & E).
  apply result_bind_inv in E as (d1 & E1 & E). apply result_bind_inv in E as (d2 & E2 & E). apply result_bind_inv in E as (d3 & E3 & E).
  injection E as <- _. destruct He as [_ (g & Hi & Hv)]. assert (Hsh : tx_shape (miner_tx (e_blk e))) by (left; eauto).
  destruct (add_transaction_spec _ _ _ _ _ Hd Hsh E1) as (Hd1 & T1 & _).
  destruct (add_transactions_spec init _ _ _ _ Hd1 Ht (eq_sym Hl) E2) as (_ & T2 & _).
  pose proof (tx_only_trans _ _ _ T1 T2) as [Tb Th Ti _ _].
  unfold add_block_data, throw_if in E3. apply throw_unless_inv in E3 as [Hn E3]. apply result_bind_inv in E3 as ([] & _ & E3).
  apply result_bind_inv in E3 as (bd & Ebd & E3). apply result_bind_inv in E3 as (cum & _ & E3). injection E3 as <-.
  rewrite negb_true_iff, bool_decide_eq_false in Hn. apply eq_None_not_Some in Hn. rewrite Th in Hn. unfold height. cbn. rewrite Tb, Th, Ti.
  eexists bd, bh, _. split_and!; try reflexivity; try assumption. reflexivity.
Qed.

(** The [i]-th block of the history is stored at height [i], under its id. *)
Record stored_at (d : chain_db) (i : nat) (e : entry) : Prop := {
  sa_blob : exists bd, m_blocks d !! i = Some bd /\ block_to_blob (e_blk e) = Returns bd /\ maybe_block_from_blob init bd = Some (e_blk e);
  sa_hash : exists h, id_at d (Z.of_nat i) = Some h /\ get_block_hash (e_blk e) (cached_size (miner_tx (e_blk e))) = Returns h;
  sa_txs : length (tx_hashes (e_blk e)) = length (e_txs e) }.

Lemma hash_at_snoc d d' bi i : db_ok d -> m_block_info d' = m_block_info d ++ [bi] ->
  id_at d' i = if i =? height d then Some (bi_hash bi) else id_at d i.
Proof.
  intros Hd E. unfold id_at, height. rewrite E, <- (ok_heights _ Hd). destruct (Z.leb_spec 0 i).
  - destruct (Z.eqb_spec i (Z.of_nat (length (m_block_info d)))) as [->|Hn].
    + rewrite Nat2Z.id, list_lookup_middle by reflexivity. reflexivity.
    + destruct (decide (Z.to_nat i < length (m_block_info d))%nat); [now rewrite lookup_app_l by assumption|].
      rewrite !lookup_ge_None_2 by (rewrite ?length_app; cbn; lia). reflexivity.
  - rewrite (proj2 (Z.eqb_neq _ _)) by lia. reflexivity.
Qed.

Lemma built_stored hist d : built init hist d -> ids_ok d /\ forall i e, hist !! i = Some e -> stored_at d i e.
Proof.
  induction 1 as [hf|hist d e d' prev hf Hb [IHi IHs] He E].
  { split; [|intros i e Hi; now rewrite lookup_nil in Hi]. intros h i. unfold block_exists, id_at. cbn. rewrite lookup_empty.
    split; [discriminate|]. destruct (0 <=? i); [rewrite lookup_nil|]; discriminate. }
  pose proof (built_answers _ _ _ Hb) as [Hok Hh _ _ _].
  destruct (add_entry_ids _ _ _ _ Hok He E) as (bd & bh & bi & Ebd & Ebh & Hn & Hbi & Hl & Eb & Ei & Em).
  assert (Hat : forall i, id_at (with_hf_versions hf d') i = if i =? height d then Some bh else id_at d i)
    by (intros i; rewrite <- Hbi; now apply hash_at_snoc).
  split.
  - intros h i. unfold block_exists. cbn. rewrite Em, Hat. destruct (decide (bh = h)) as [<-|Hd].
    + rewrite lookup_insert_eq. destruct (Z.eqb_spec i (height d)) as [->|Hne]; [now split|].
      split; [intros [= <-]; contradiction|]. intros Ha. apply IHi in Ha. unfold block_exists in Ha. congruence.
    + rewrite lookup_insert_ne by assumption. destruct (Z.eqb_spec i (height d)) as [->|Hne]; [|apply IHi].
      split; [|congruence]. intros Ha. apply IHi in Ha. apply hash_at_range in Ha; [lia|assumption].
  - intros i x Hx. apply lookup_app_Some in Hx as [Hx|[Hge Hx]].
    + pose proof (lookup_lt_Some _ _ _ Hx) as Hlt. destruct (IHs _ _ Hx) as [(b & Hb1 & Hb2) (h & Hh1 & Hh2) Ht]. split; [| |assumption].
      * exists b. cbn. rewrite Eb. split; [now apply lookup_app_l_Some|assumption].
      * exists h. rewrite Hat, (proj2 (Z.eqb_neq _ _)) by lia. now split.
    + assert (i = length hist) as -> by (apply lookup_lt_Some in Hx; cbn in Hx; lia).
      rewrite Nat.sub_diag in Hx. injection Hx as <-. split; [| |assumption].
      * destruct (block_blob init (e_blk e)) as (l & El & _ & Hp); [apply He|]. rewrite Ebd in El. injection El as ->.
        exists l. cbn. rewrite Eb. split; [|now split]. apply list_lookup_middle. unfold height in Hh. lia.
      * exists bh. rewrite Hat, <- Hh, Z.eqb_refl. now split.
Qed.

(** Two chains with the same first [k] blocks; the later blocks of the first are unknown to the second. *)
Record split_at (d d' : chain_db) (k : Z) : Prop := {
  sp_range : 1 <= k <= height d /\ k <= height d';
  sp_common i : 0 <= i < k -> id_at d i = id_at d' i;
  sp_differ i h : k <= i -> id_at d i = Some h -> block_exists h d' = None }.

Lemma first_known d d' k g os ids : split_at d d' k -> ids_ok d' -> id_at d 0 = Some g ->
  Forall (fun o => 1 <= o < height d) os -> Forall2 (fun o id => id_at d (height d - o) = Some id) os ids ->
  head (omap (fun id => block_exists id d') (ids ++ [g])) =
  Some (height d - default (height d) (head (List.filter (fun o => height d - k + 1 <=? o) os))).
Proof.
  intros [Hr Hc Hd] Hi Hg Hos Hf. induction Hf as [|o id os ids Ho Hf IH]; cbn.
  - rewrite Hc in Hg by lia. apply Hi in Hg. rewrite Hg. cbn. f_equal. lia.
  - apply Forall_cons in Hos as [Ho' Hos]. destruct (Z.leb_spec (height d - k + 1) o) as [Hle|Hlt].
    + rewrite Hc in Ho by lia. apply Hi in Ho. now rewrite Ho.
    + rewrite (Hd (height d - o) id) by (assumption || lia). apply IH, Hos.
Qed.

Lemma find_supplement_rows d s n : db_ok d -> 0 <= s -> s + Z.of_nat n <= height d ->
  exists rows, result_mapM (fun i => h ← get_block_hash_from_height i d; w ← get_block_weight i d; Returns (h, w)) (seqZ s (Z.of_nat n)) = Returns rows /\
    length rows = n /\ forall j h, rows.*1 !! j = Some h -> id_at d (s + Z.of_nat j) = Some h.
Proof.
  intros Hd. revert s. induction n as [|n IH]; intros s Hs Hn.
  { exists []. cbn. split_and!; auto. intros j h E. now rewrite lookup_nil in E. }
  rewrite seqZ_cons by lia. replace (Z.pred (Z.of_nat (S n))) with (Z.of_nat n) by lia. cbn [result_mapM].
  destruct (hash_at_some d s Hd) as [h Eh]; [lia|]. rewrite (get_hash_at _ _ _ Hd Eh). cbn [mbind result_bind].
  assert (Hw : exists w, get_block_weight s d = Returns w).
  { unfold id_at in Eh. destruct (Z.leb_spec 0 s); [|discriminate]. apply fmap_Some in Eh as (bi & Eh & _).
    unfold get_block_weight, block_info_of, find_block_info.
    rewrite <- (Z2Nat.id s), (indexed_find_at bi_height _ _ _ (ok_info _ Hd) Eh) by assumption. cbn. eauto. }
  destruct Hw as [w ->]. cbn [mbind result_bind]. destruct (IH (Z.succ s)) as (rows & -> & Hl & Hr); [lia|lia|].
  cbn [mbind result_bind]. eexists. split; [reflexivity|]. cbn. split; [lia|]. intros [|j] x Hx; cbn in Hx.
  - injection Hx as <-. now rewrite Z.add_0_r.
  - apply Hr in Hx. rewrite <- Hx. f_equal. lia.
Qed.

Lemma get_difficulty_top d : db_ok d -> 0 < height d -> height d < 2 ^ 64 -> exists c, get_block_cumulative_difficulty (height d ⊟ 1) d = Returns c.
Proof.
  intros Hd Hh Hf. rewrite u64_sub_small by (unfold fits; lia). unfold get_block_cumulative_difficulty, block_info_of, find_block_info.
  destruct (hash_at_some d (height d - 1) Hd) as [h Eh]; [lia|]. unfold id_at in Eh. destruct (Z.leb_spec 0 (height d - 1)); [|lia].
  apply fmap_Some in Eh as (bi & Eh & _).
  rewrite <- (Z2Nat.id (height d - 1)), (indexed_find_at bi_height _ _ _ (ok_info _ Hd) Eh) by assumption. cbn. eauto.
Qed.

(** C34: A peer finds where the chains split.  Of two nodes whose main chains share their first [k] blocks, the
    first asks with its short history, whose length is logarithmic in its height; the second answers with the ids
    of its own chain from a common block on, at most 10000 of them and as many as it has, and the
    blocks it names again lie below the split by no more than the first node has blocks of its own above it, less ten:
    none when the split is within the last eleven blocks. *)
Theorem split_point_located hist hist' d d' k :
  db_run init hist d -> db_run init hist' d' -> height d < 2 ^ 63 -> height d' < 2 ^ 64 -> split_at d d' k ->
  exists ids e, get_short_chain_history d = Returns ids /\ find_blockchain_supplement ids d' = Returns (Some e) /\
    Z.of_nat (length ids) <= 12 + Z.log2 (height d) /\
    0 <= start_height e < k /\ k - 1 - start_height e <= Z.max 0 (height d - k - 10) /\ total_height e = height d' /\
    Z.of_nat (length (m_block_ids e)) = Z.min (height d' - start_height e) BLOCKS_IDS_SYNCHRONIZING_DEFAULT_COUNT /\
    (forall j id, m_block_ids e !! j = Some id -> id_at d' (start_height e + Z.of_nat j) = Some id).
Proof.
  intros Hr Hr' Hf Hf' Hsp. pose proof (run_built _ _ _ Hr) as Hb. pose proof (run_built _ _ _ Hr') as Hb'.
  pose proof (an_ok _ _ (built_answers _ _ _ Hb)) as Hd. pose proof (an_ok _ _ (built_answers _ _ _ Hb')) as Hd'.
  destruct (built_stored _ _ Hb') as [Hi _]. pose proof (sp_range _ _ _ Hsp) as Hk.
  assert (Hs0 : sampled 0 1 1) by (unfold sampled; lia).
  unfold get_short_chain_history. rewrite (proj2 (Z.eqb_neq _ _)) by lia.
  destruct (history_loop_samples d (height d) Hd eq_refl Hf (Z.to_nat (height d)) 0 1 1 Hs0) as (ids & -> & Hids); [lia|].
  cbn [mbind result_bind negb]. destruct (hash_at_some d 0 Hd) as [g Hg]; [lia|]. rewrite (get_hash_at _ _ _ Hd Hg). cbn [mbind result_bind].
  exists (ids ++ [g]). unfold find_blockchain_supplement, find_supplement, find_split. rewrite last_snoc.
  rewrite (get_hash_at d' 0 g Hd') by (rewrite <- (sp_common _ _ _ Hsp) by lia; assumption). cbn [mbind result_bind].
  rewrite bool_decide_true by reflexivity. cbn [negb].
  rewrite (first_known _ _ _ _ _ _ Hsp Hi Hg (sample_range _ _ _ _ _ Hs0) Hids).
  destruct (sample_first (Z.to_nat (height d)) (height d - k + 1) (height d) 0 1 1 Hs0) as [Ho1 Ho2]; [lia|lia|lia|].
  set (o := default _ _) in *. cbn [mbind result_bind].
  set (n := Z.to_nat (Z.min (height d' - (height d - o)) BLOCKS_IDS_SYNCHRONIZING_DEFAULT_COUNT)).
  assert (Hn : Z.of_nat n = Z.min (height d' - (height d - o)) BLOCKS_IDS_SYNCHRONIZING_DEFAULT_COUNT)
    by (unfold n, BLOCKS_IDS_SYNCHRONIZING_DEFAULT_COUNT; lia).
  rewrite <- Hn. destruct (find_supplement_rows d' (height d - o) n Hd') as (rows & -> & Hl & Hrows); [lia|lia|].
  cbn [mbind result_bind s_current_height]. destruct (get_difficulty_top d' Hd') as [c ->]; [lia|lia|]. cbn [mbind result_bind].
  eexists. split; [reflexivity|]. split; [reflexivity|]. cbn. split.
  { rewrite length_app, <- (Forall2_length _ _ _ Hids). cbn [length]. destruct (decide (height d = 1)) as [E1|].
    - rewrite E1. vm_compute. discriminate.
    - pose proof (sample_length (Z.to_nat (height d)) 0 1 1 (height d) Hs0 ltac:(lia)) as Hlen. cbn [Z.ltb Z.compare] in Hlen. lia. }
  split; [lia|]. split; [lia|]. split; [reflexivity|]. rewrite length_fmap, Hl. split; [exact Hn|exact Hrows].
Qed.

(** ** Objects *)

(** The entry of a response that holds the block [e] of the history, asked for as [id]. *)
Definition carries (hist : list entry) (id : hash) (x : BlockQueue.block_complete_entry) : Prop :=
  exists i e, hist !! i = Some e /\ get_block_hash (e_blk e) (cached_size (miner_tx (e_blk e))) = Returns id /\
    maybe_block_from_blob init (BlockQueue.bce_block x) = Some (e_blk e) /\ BlockQueue.te_blob <$> BlockQueue.txs x = (e_txs e).*2.

Lemma get_blocks_found hist d ids : built init hist d ->
  exists bs, get_blocks init ids d = Some (bs, filter (fun id => block_exists id d = None) ids, true) /\
    Forall2 (fun id x => exists i e, hist !! i = Some e /\ get_block_hash (e_blk e) (cached_size (miner_tx (e_blk e))) = Returns id /\
               maybe_block_from_blob init x.1 = Some (e_blk e) /\ x.2 = e_blk e)
      (filter (fun id => is_Some (block_exists id d)) ids) bs.
Proof.
  intros Hb. destruct (built_stored _ _ Hb) as [Hi Hs]. pose proof (built_answers _ _ _ Hb) as [Hok Hh _ _ _].
  induction ids as [|id ids (bs & E & Hf)]; cbn [get_blocks]; [eexists; now split|]. destruct (block_exists id d) as [h|] eqn:Ex.
  - pose proof (proj1 (Hi _ _) Ex) as Hat. pose proof (hash_at_range _ _ _ Hat Hok) as Hr.
    destruct (lookup_lt_is_Some_2 hist (Z.to_nat h)) as [e He]; [lia|]. destruct (Hs _ _ He) as [(bd & Hbd & _ & Hp) (h' & Hh' & Hg) _].
    rewrite Z2Nat.id in Hh' by lia. rewrite Hat in Hh'. injection Hh' as <-.
    unfold get_block_blob_from_height. rewrite (proj2 (Z.leb_le _ _)), Hbd by lia. cbn [mbind option_bind]. rewrite Hp, E. cbn [mbind option_bind].
    rewrite filter_cons_False by congruence. rewrite filter_cons_True by (rewrite Ex; eauto).
    eexists. split; [reflexivity|]. constructor; [|assumption]. exists (Z.to_nat h), e. auto.
  - rewrite E. cbn [mbind option_bind]. rewrite filter_cons_True by assumption.
    rewrite filter_cons_False by (rewrite Ex; intros [? ?]; discriminate). eauto.
Qed.

Lemma get_transactions_found hist d e : answers hist d -> e ∈ hist -> length (tx_hashes (e_blk e)) = length (e_txs e) ->
  get_transactions_blobs (tx_hashes (e_blk e)) d = ((e_txs e).*2, []).
Proof.
  intros Ha He Hl. assert (Hx : Forall2 (fun h b => get_tx_blob h d = Some b) (tx_hashes (e_blk e)) (e_txs e).*2).
  { apply Forall2_same_length_lookup_2; [now rewrite length_fmap|]. intros i h b Hh Hb.
    apply (an_txs _ _ Ha e (h, b) He). apply list_elem_of_lookup. exists i. rewrite lookup_zip_with, Hh, Hb. reflexivity. }
  revert Hx. generalize (tx_hashes (e_blk e)) (e_txs e).*2. clear. intros l l' Hx. unfold get_transactions_blobs. induction Hx as [|h b hs bs E _ IH]; [reflexivity|]. injection IH as IH1 IH2.
  rewrite filter_cons_False by congruence. rewrite IH2. cbn [omap list_omap]. rewrite E, IH1. reflexivity.
Qed.

Lemma pack_found hist d all ids bs : built init hist d ->
  Forall2 (fun id x => exists i e, hist !! i = Some e /\ get_block_hash (e_blk e) (cached_size (miner_tx (e_blk e))) = Returns id /\
             maybe_block_from_blob init x.1 = Some (e_blk e) /\ x.2 = e_blk e) ids bs ->
  forall i rsp, exists es, Forall2 (carries hist) ids es /\
    pack_blocks false all i bs rsp d =
      Returns ({| o_blocks := o_blocks rsp ++ es; missed_ids := missed_ids rsp; current_blockchain_height := current_blockchain_height rsp |}, true).
Proof.
  intros Hb Hf. destruct (built_stored _ _ Hb) as [_ Hs]. pose proof (built_answers _ _ _ Hb) as Ha.
  induction Hf as [|id [bd b] ids bs (j & e & Hj & Hg & Hp & Eb) Hf IH]; intros i rsp; cbn [pack_blocks].
  { exists []. rewrite app_nil_r. split; [constructor|]. now destruct rsp. }
  cbn [fst snd] in *. subst b.
  rewrite (get_transactions_found hist d e Ha) by (eauto using list_elem_of_lookup_2 || apply (sa_txs _ _ _ (Hs _ _ Hj))).
  cbn [andb]. match goal with |- context [mbind _ ?m] => replace m with (Returns (A := Z) 0) by now destruct (all !! i) end. cbn [mbind result_bind].
  edestruct (IH (S i)) as (es & Hes & ->). eexists. split; [constructor; [|exact Hes]|].
  2: { cbn. rewrite <- app_assoc, app_nil_r. reflexivity. }
  exists j, e. split_and!; auto. cbn. rewrite <- list_fmap_compose. apply list_fmap_id.
Qed.

(** C35: What is asked for is served.  A node answers a request of block ids that does not ask for pruned blocks with one entry for each id of its main chain, in the
    order asked; the entry's blob parses to the block with that id and its transactions are the blobs the block was added with;
    the other ids are reported as missed. *)
Theorem requested_objects_served hist d ids :
  db_run init hist d ->
  exists rsp, handle_get_objects init ids false d = Some (Returns (rsp, true)) /\
    Forall2 (carries hist) (filter (fun id => is_Some (block_exists id d)) ids) (o_blocks rsp) /\
    missed_ids rsp = filter (fun id => block_exists id d = None) ids /\ current_blockchain_height rsp = Z.of_nat (length hist).
Proof.
  intros Hr. pose proof (run_built _ _ _ Hr) as Hb. unfold handle_get_objects.
  destruct (get_blocks_found _ _ ids Hb) as (bs & -> & Hf). cbn [mbind option_bind].
  edestruct (pack_found _ _ ids _ _ Hb Hf 0%nat) as (es & Hes & ->). eexists. split; [reflexivity|]. cbn.
  split_and!; auto. apply (an_height _ _ (built_answers _ _ _ Hb)).
Qed.

End Reachable.

(** ** Examples *)

Section Examples.
Import ModelGroup.
#[local] Existing Instance RollingDigest.rolling_sha3.
#[local] Existing Instance ChainDbInv.ChainDbInv.zero_shift.
#[local] Existing Instance ChainDbInv.ChainDbInv.not_cached.

(** Another block on the genesis block. *)
Definition fork1 : entry :=
  {| e_blk := {| header := {| major_version := 17; minor_version := 17; timestamp := 150; prev_id := hash0; nonce := 8 |};
                 miner_tx := coinbase_at 1; tx_hashes := [] |};
     e_weight := 100; e_long_term_weight := 100; e_difficulty := 3; e_coins := 10; e_txs := [] |}.
Definition fork_db : chain_db := Eval vm_compute in db_after [entry0; fork1].

Lemma fork1_ok : entry_ok db_init fork1.
Proof.
  split; [|constructor]. split; [|exists 1; split; [reflexivity|now right]].
  apply (parse_wf _ (match block_to_blob (e_blk fork1) with Returns b => b | Throws => [] end));
    [apply (bool_decide_unpack _); vm_compute; exact I|vm_compute; reflexivity].
Qed.

Lemma run_fork : db_run db_init (([] ++ [entry0]) ++ [fork1]) fork_db.
Proof. apply (run_add _ _ (db_after [entry0]) fork1 _ 1 run_one fork1_ok). vm_compute. reflexivity. Qed.

Lemma example_split : split_at (db_after [entry0; entry1 5]) fork_db 1.
Proof.
  split.
  - vm_compute. repeat split; discriminate.
  - intros i Hi. replace i with 0 by lia. vm_compute. reflexivity.
  - intros i h Hi Eh. pose proof (hash_at_range _ _ _ Eh (an_ok _ _ (built_answers _ _ _ (run_built _ _ _ run_two)))) as Hr.
    change (height (db_after [entry0; entry1 5])) with 2 in Hr. assert (i = 1) as -> by lia. vm_compute in Eh. injection Eh as <-. vm_compute. reflexivity.
Qed.

Lemma split_point_located_witness :
  exists ids e, get_short_chain_history (db_after [entry0; entry1 5]) = Returns ids /\
    find_blockchain_supplement ids fork_db = Returns (Some e) /\ start_height e = 0 /\ length (m_block_ids e) = 2%nat.
Proof.
  destruct (split_point_located db_init _ _ _ _ 1 run_two run_fork ltac:(vm_compute; reflexivity) ltac:(vm_compute; reflexivity) example_split)
    as (ids & e & E1 & E2 & _ & Hs & _ & _ & Hl & _).
  exists ids, e. assert (start_height e = 0) as E0 by lia. split_and!; try assumption. rewrite E0 in Hl.
  apply Nat2Z.inj. rewrite Hl. vm_compute. reflexivity.
Defined.

Lemma requested_objects_served_witness :
  exists rsp, handle_get_objects db_init [hash0; le_bytes 32 1] false (db_after [entry0; entry1 5]) = Some (Returns (rsp, true)) /\
    missed_ids rsp = [le_bytes 32 1] /\ length (o_blocks rsp) = 1%nat.
Proof.
  destruct (requested_objects_served db_init _ _ [hash0; le_bytes 32 1] run_two) as (rsp & E & Hf & Hm & _).
  exists rsp. split; [exact E|]. split; [rewrite Hm; vm_compute; reflexivity|]. apply Forall2_length in Hf. rewrite <- Hf. vm_compute. reflexivity.
Defined.

(** With [prune], the weight of the [i]-th entry is that of the [i]-th id asked for, not of the
    [i]-th block found: after an unknown id, a block is sent with the weight of its predecessor in the request. *)
Example pruned_weights_shifted :
  let d := db_after [ {| e_blk := e_blk entry0; e_weight := 70; e_long_term_weight := 100; e_difficulty := 1; e_coins := 5; e_txs := [] |}; entry1 5 ] in
  exists rsp, handle_get_objects db_init [le_bytes 32 1; hash0] true d = Some (Returns (rsp, true)) /\
    get_block_weight 0 d = Returns 70 /\ BlockQueue.block_weight <$> o_blocks rsp = [0].
Proof. eexists. split; [vm_compute; reflexivity|]. split; vm_compute; reflexivity. Qed.

End Examples.

End ChainSync.
