(* ===== verification/Core.v ===== *)
(** The core: [src/src/cryptonote/core/cryptonote_core.cpp].  It takes transactions and blocks from the
    network, checks what neither the pool nor the block chain checks (the syntax and the semantics
    of a transaction: its range proof and its balance), and hands them on. *)

From stdpp Require Import gmap sorting.
From S2P Require Import Prelude Hash Config Difficulty Varint Serialization Primality Group ModelGroup Key RctOps VectorOps InnerProduct Bulletproof Clsag RctTypes TxTypes Consensus Coinbase FormatUtils RingCT BlockQueue PoolTable TxPool TxPoolInv BlockTemplate ChainDb ChainDbInv LmdbTxn TxCheck Blockchain BlockchainInv ChainSync.

Module Core.
Import PoolTable.PoolTable Config Serialization.Archive RctTypes TxTypes Consensus Coinbase FormatUtils RingCT BlockQueue TxPool BlockTemplate ChainDb LmdbTxn TxCheck Blockchain.

Definition BAD_SEMANTICS_TXES_MAX_SIZE : nat := 100.
Definition BLOCK_SIZE_SANITY_LEEWAY : Z := 100.
Definition get_max_tx_size : Z := get_minimum_block_size_bound.

(** The pool is part of the block chain's state. *)
Record core := { storage : blockchain; bad_semantics_txes : gset hash * gset hash }.

Definition with_storage (s : blockchain) (c : core) : core := {| storage := s; bad_semantics_txes := bad_semantics_txes c |}.

Section Transactions.
Context `{Sodium} `{Sha3} `{UndefinedShift} `{Schedule} `{CachedSize} `{Settings} `{Clock} `{Torn} (init : rctData).

Definition maybe_tx_and_hash_from_blob (tx_blob : blob) : result (option (transaction * hash)) :=
  match maybe_tx_from_blob init tx_blob with
  | Some tx => h ← get_transaction_hash tx (cached_size tx); Returns (Some (tx, h))
  | None => Returns None
  end.

Definition parse_tx_from_blob (tx_blob : blob) : result (option (transaction * hash)) := maybe_tx_and_hash_from_blob tx_blob.

Definition check_tx_syntax (tx : transaction) : bool := true.

(** The verification context it sets, and the transaction with its hash unless it returns false. *)
Definition handle_incoming_ringct_pre (bad : gset hash * gset hash) (e : tx_blob_entry)
    : result (tx_verification_context * option (transaction * hash)) :=
  let tvc := fresh_tvc in
  if get_max_tx_size <? Z.of_nat (length (te_blob e)) then Returns (raise [verifivation_failed; too_big] tvc, None) else
  r ← (if bool_decide (te_prunable_hash e = null_hash) then parse_tx_from_blob (te_blob e) else Returns None);
  match r with
  | None => Returns (raise [verifivation_failed] tvc, None)
  | Some (tx, tx_hash) =>
    if bool_decide (tx_hash ∈ bad.1) || bool_decide (tx_hash ∈ bad.2) then Returns (raise [verifivation_failed] tvc, None) else
    let max_tx_version := 2 in
    if (version (prefix tx) =? 0) || (max_tx_version <? version (prefix tx)) then Returns (raise [verifivation_failed] tvc, None) else
    Returns (tvc, Some (tx, tx_hash))
  end.

Definition handle_incoming_ringct_post (tx : transaction) (tvc : tx_verification_context) : tx_verification_context * bool :=
  if negb (check_tx_syntax tx) then (raise [verifivation_failed] tvc, false) else (tvc, true).

Definition set_semantics_failed (tx_hash : hash) (bad : gset hash * gset hash) : gset hash * gset hash :=
  let first := {[ tx_hash ]} ∪ bad.1 in
  if (BAD_SEMANTICS_TXES_MAX_SIZE <=? size first)%nat then (∅, first) else (first, bad.2).

Definition check_ringct_inputs_keyimages_diff (tx : transaction) : bool :=
  let xs := (fun i => match i with txin_from_key k => Some (output_key_image k) | _ => None end) <$> vin (prefix tx) in
  rule_8_ringct_input_key_images_should_be_unique (omap id xs).

Definition check_ringct_inputs_ring_members_diff (tx : transaction) : bool :=
  forallb (fun i => match i with
                    | txin_from_key k => rule_7_ringct_input_decoys_offsets_should_not_be_zero_except_the_first_one (output_relative_offsets k)
                    | _ => false end) (vin (prefix tx)).

(** The version is only logged. *)
Definition check_ringct_semantic (tx : transaction) (tx_from_block : bool) : result bool :=
  if negb (bool_decide (is_Some (rule_25_ringct_should_have_at_least_one_input (vin (prefix tx))))) then Returns false else
  if negb (check_inputs_types_supported tx) then Returns false else
  if negb (check_outs_valid tx) then Returns false else
  if negb (length (output_commits (basic (ringct tx))) =? length (vout (prefix tx)))%nat then Returns false else
  let tx_weight_limit := get_max_tx_size ⊟ CRYPTONOTE_COINBASE_BLOB_RESERVED_SIZE in
  too_large ← (if negb tx_from_block then w ← get_transaction_weight tx; Returns (tx_weight_limit <=? w) else Returns false);
  if too_large : bool then Returns false else
  if negb (check_ringct_inputs_keyimages_diff tx) then Returns false else
  if negb (check_ringct_inputs_ring_members_diff tx) then Returns false else
  Returns (bool_decide (is_Some (are_ringct_input_types_valid (vin (prefix tx))))).

(** What the batch asks of one transaction. *)
Definition semantics_ok (tx : transaction) (tx_from_block : bool) : result bool :=
  ok ← check_ringct_semantic tx tx_from_block;
  if negb ok then Returns false else
  if version (prefix tx) <? 2 then Returns true else
  let rv := ringct tx in
  if negb (type (basic rv) =? RCTTypeCLSAG) then Returns false else
  match maybeSizeCheckedRctData rv with
  | None => Returns false
  | Some checked => valid_range ← verify_range_proof checked; Returns (valid_range && verify_ringct_balance checked)
  end.

(** An entry of the span: its context and, while its result is true, its transaction, hash and whether it is known already. *)
Definition entry : Type := tx_verification_context * option (transaction * hash * bool).

(** The loop of the batch; an exception leaves what was done before it. *)
Fixpoint handle_incoming_ringct_accumulated_batch (tx_from_block : bool) (bad : gset hash * gset hash) (es : list entry)
    : (gset hash * gset hash) * list entry * bool :=
  match es with
  | [] => (bad, [], true)
  | (tvc, Some (tx, tx_hash, false)) :: es' =>
    match semantics_ok tx tx_from_block with
    | Throws => (bad, es, false)
    | Returns ok =>
      let '(bad, e) := if ok then (bad, (tvc, Some (tx, tx_hash, false)))
                       else (set_semantics_failed tx_hash bad, (raise [verifivation_failed] tvc, None)) in
      let '(bad, es', returned) := handle_incoming_ringct_accumulated_batch tx_from_block bad es' in
      (bad, e :: es', returned)
    end
  | e :: es' => let '(bad, es', returned) := handle_incoming_ringct_accumulated_batch tx_from_block bad es' in (bad, e :: es', returned)
  end.

Definition add_new_tx (tx : transaction) (tx_hash : hash) (bd : blob) (tx_weight : Z) (tvc : tx_verification_context) (tx_relay : PoolTable.relay_method)
    (relayed : bool) (s : blockchain) : blockchain * tx_verification_context * bool :=
  if TxPool.have_tx tx_hash PoolTable.legacy (m_tx_pool s) then (s, tvc, true) else
  if TxCheck.have_tx (db s) tx_hash then (s, tvc, true) else
  let '(x, tvc, ok) := @add_tx (chain s) (clock_at_tx s tx) tx tx_hash bd tx_weight tvc tx_relay relayed (m_tx_pool s) in
  (with_pool x s, tvc, ok).

(** The last loop: the transactions that are left are added to the pool. *)
Fixpoint add_entries (tx_relay : PoolTable.relay_method) (relayed : bool) (blobs : list tx_blob_entry) (es : list entry) (s : blockchain)
    : blockchain * list tx_verification_context * bool :=
  match blobs, es with
  | b :: blobs', (tvc, e) :: es' =>
    let '(s, tvc, ok) := match e with
                         | None => (s, tvc, false)
                         | Some (_, _, true) => (s, tvc, true)
                         | Some (tx, tx_hash, false) => add_new_tx tx tx_hash (te_blob b) (Z.of_nat (length (te_blob b))) tvc tx_relay relayed s
                         end in
    let '(s, tvcs, oks) := add_entries tx_relay relayed blobs' es' s in
    (s, tvc :: tvcs, ok && oks)
  | _, _ => (s, [], true)
  end.

(** The first two rounds of jobs of the thread pool: each job writes its own entry, and reads the state before the
    batch, so their order does not matter. *)
Definition parse_entry (c : core) (e : tx_blob_entry) : entry :=
  match handle_incoming_ringct_pre (bad_semantics_txes c) e with
  | Throws => (raise [verifivation_failed] fresh_tvc, None)
  | Returns (tvc, None) => (tvc, None)
  | Returns (tvc, Some (tx, tx_hash)) =>
    if TxPool.have_tx tx_hash PoolTable.legacy (m_tx_pool (storage c)) || TxCheck.have_tx (db (storage c)) tx_hash
    then (tvc, Some (tx, tx_hash, true)) else
    let '(tvc, ok) := handle_incoming_ringct_post tx tvc in
    (tvc, if ok then Some (tx, tx_hash, false) else None)
  end.

(** [handle_incoming_ringcts], which sizes the contexts, and [handle_incoming_ringcts_span]. *)
Definition handle_incoming_ringcts (tx_blobs : list tx_blob_entry) (tx_relay : PoolTable.relay_method) (relayed : bool) (c : core)
    : core * list tx_verification_context * bool :=
  let es := parse_entry c <$> tx_blobs in
  let '(bad, es, returned) := handle_incoming_ringct_accumulated_batch (bool_decide (tx_relay = PoolTable.block)) (bad_semantics_txes c) es in
  if negb returned then ({| storage := storage c; bad_semantics_txes := bad |}, es.*1, false) else
  let '(s, tvcs, ok) := add_entries tx_relay relayed tx_blobs es (storage c) in
  ({| storage := s; bad_semantics_txes := bad |}, tvcs, ok).

Definition handle_incoming_ringct (e : tx_blob_entry) (tx_relay : PoolTable.relay_method) (relayed : bool) (c : core)
    : core * tx_verification_context * bool :=
  let '(c, tvcs, ok) := handle_incoming_ringcts [e] tx_relay relayed c in (c, default fresh_tvc (head tvcs), ok).

Definition flush_bad_txs_cache (c : core) : core := {| storage := storage c; bad_semantics_txes := (∅, ∅) |}.

(** ** Blocks *)

Definition check_incoming_block_size (block_blob : blob) (s : blockchain) : bool :=
  negb (get_block_size_bound (height (db s)) ⊞ BLOCK_SIZE_SANITY_LEEWAY <? Z.of_nat (length block_blob)).

(** The miner's template, which the call updates, is not part of the state. *)
Definition handle_incoming_block (depth : nat) (block_blob : blob) (b : option block) : M bool :=
  catches
    (_ ← marks (fun _ => fresh_bvc);
     fits_size ← reads (check_incoming_block_size block_blob);
     if negb fits_size then (_ ← marks verification_failed; mret false) else
     match (match b with Some b => Some b | None => maybe_block_from_blob init block_blob end) with
     | None => _ ← marks verification_failed; mret false
     | Some b => _ ← add_new_block init depth b; mret true
     end)
    (mret false).

Definition core_cleanup_handle_incoming_blocks (thread : Z) : M bool :=
  catches (cleanup_handle_incoming_blocks thread) (mret false).

Definition core_prepare_handle_incoming_blocks (thread : Z) (entries : list (blob * list blob)) : M bool :=
  ok ← prepare_handle_incoming_blocks init thread entries;
  if negb ok then (_ ← core_cleanup_handle_incoming_blocks thread; mret false) else mret true.

(** The block with the blobs of its transactions; [None] is the exception. *)
Definition get_block_complete_entry (b : block) (s : blockchain) : option (blob * list blob) :=
  match block_to_blob b with
  | Throws => None
  | Returns bd => txs ← mapM (fun h => get_transaction h PoolTable.all (m_tx_pool s)) (tx_hashes b); Some (bd, txs)
  end.

(** The return value, and the block and transactions that are relayed. *)
Definition handle_block_found (thread : Z) (depth : nat) (b : block) : M (bool * option (Z * blob * list blob)) :=
  _ ← marks (fun _ => fresh_bvc);
  e ← reads (get_block_complete_entry b);
  match e with
  | None => mret (false, None)
  | Some e =>
    ok ← core_prepare_handle_incoming_blocks thread [e];
    if negb ok then mret (false, None) else
    _ ← add_new_block init depth b;
    _ ← core_cleanup_handle_incoming_blocks thread;
    bvc ← context;
    if b_verifivation_failed bvc then mret (false, None) else
    if negb (m_added_to_main_chain bvc) then mret (true, None) else
    h ← reads (fun s => height (db s));
    '(txs, missed_txs) ← reads (fun s => ChainSync.ChainSync.get_transactions_blobs (tx_hashes b) (db s));
    id ← tries (fun _ => get_block_hash b (cached_size (miner_tx b)));
    elsewhere ← reads (fun s => negb (bool_decide (get_block_id_by_height (db s) (FormatUtils.get_block_height b) = id)));
    if negb (length missed_txs =? 0)%nat && elsewhere then mret (true, None) else
    if negb ((length txs =? length (tx_hashes b)) && (length missed_txs =? 0))%nat then mret (false, None) else
    match maybe_to_blob (serialize_block (ringct (miner_tx b))) b with
    | None => mret (false, None)
    | Some block_blob => mret (true, Some (h, block_blob, txs))
    end
  end.

(** ** Transactions that fail *)

Lemma failed_remembered h bad : h ∈ (set_semantics_failed h bad).1 \/ h ∈ (set_semantics_failed h bad).2.
Proof. unfold set_semantics_failed. case_match; cbn; set_solver. Qed.

(** C36: A transaction whose semantics are wrong is refused and remembered.  When a transaction of at most the largest size and of version 1 or 2,
    which is neither in the pool, nor on the chain, nor remembered already, parses but its
    range proof, its balance or any of its other semantic checks fails, the core reports failure, leaves the block chain and
    the pool as they were and keeps the hash of the transaction; when the same blob arrives again, it is
    refused by its hash, with the same verdict, however it is relayed and without its proofs being looked at. *)
Theorem bad_semantics_remembered (e : tx_blob_entry) (tx : transaction) (h : hash) (relay relay' : PoolTable.relay_method) (relayed relayed' : bool) (c : core) :
  Z.of_nat (length (te_blob e)) <= get_max_tx_size -> te_prunable_hash e = null_hash ->
  parse_tx_from_blob (te_blob e) = Returns (Some (tx, h)) -> 1 <= version (prefix tx) <= 2 ->
  TxPool.have_tx h PoolTable.legacy (m_tx_pool (storage c)) = false -> TxCheck.have_tx (db (storage c)) h = false ->
  h ∉ (bad_semantics_txes c).1 -> h ∉ (bad_semantics_txes c).2 ->
  semantics_ok tx (bool_decide (relay = PoolTable.block)) = Returns false ->
  exists c', handle_incoming_ringct e relay relayed c = (c', raise [verifivation_failed] fresh_tvc, false) /\
    storage c' = storage c /\ (h ∈ (bad_semantics_txes c').1 \/ h ∈ (bad_semantics_txes c').2) /\
    handle_incoming_ringct e relay' relayed' c' = (c', raise [verifivation_failed] fresh_tvc, false).
Proof.
  intros Hl Hp Et Hv Hk1 Hk2 Hb1 Hb2 Es. exists {| storage := storage c; bad_semantics_txes := set_semantics_failed h (bad_semantics_txes c) |}.
  assert (Hpre : forall bad, handle_incoming_ringct_pre bad e =
    if bool_decide (h ∈ bad.1) || bool_decide (h ∈ bad.2) then Returns (raise [verifivation_failed] fresh_tvc, None) else Returns (fresh_tvc, Some (tx, h))).
  { intros bad. unfold handle_incoming_ringct_pre. rewrite (proj2 (Z.ltb_ge _ _)) by lia. rewrite bool_decide_true by assumption. rewrite Et.
    cbn [mbind result_bind]. rewrite (proj2 (Z.eqb_neq (version _) 0)), (proj2 (Z.ltb_ge 2 _)) by lia. reflexivity. }
  split; [|split; [reflexivity|split; [apply failed_remembered|]]]; unfold handle_incoming_ringct, handle_incoming_ringcts; cbn [fmap list_fmap];
    unfold parse_entry; rewrite Hpre; cbn [bad_semantics_txes storage].
  - rewrite (bool_decide_false (h ∈ (bad_semantics_txes c).1)), (bool_decide_false (h ∈ (bad_semantics_txes c).2)) by assumption. cbn [orb]. rewrite Hk1, Hk2. cbn. now rewrite Es.
  - replace (_ || _) with true; [reflexivity|]. symmetry. apply orb_true_iff. rewrite !bool_decide_eq_true. apply failed_remembered.
Qed.

End Transactions.
End Core.
