(* ===== verification/VerifiedTxs.v ===== *)
(** Every transaction the node holds was verified: the range proof and the balance of a
    transaction are checked only where it arrives ([Core]); neither the pool nor the block chain checks
    them again.  This file follows the blobs from there into the pool, into blocks, and back into the pool
    when blocks are removed. *)

From stdpp Require Import gmap sorting.
From S2P Require Import Prelude Hash Config Difficulty Varint Serialization Primality Group ModelGroup Key RctOps VectorOps InnerProduct Bulletproof Clsag RctTypes TxTypes Consensus Coinbase FormatUtils RingCT BlockQueue PoolTable TxPool TxPoolInv BlockTemplate ChainDb ChainDbInv LmdbTxn TxCheck Blockchain BlockchainInv ChainSafety TxPoolSteps Core.

Module VerifiedTxs.
Import PoolTable.PoolTable Config Serialization.Archive RctTypes TxTypes Consensus Coinbase FormatUtils RingCT BlockQueue TxPool BlockTemplate ChainDb ChainDbInv LmdbTxn TxCheck Blockchain BlockchainInv Core.

Section Verified.
Context `{Sodium} `{Sha3} `{UndefinedShift} `{Schedule} `{CachedSize} `{Settings} `{Clock} `{Torn} (init : rctData).

(** ** Verified transactions *)

Record verified (tx : transaction) : Prop := {
  ve_version : version (prefix tx) = 2;
  ve_proofs : exists sc, maybeSizeCheckedRctData (ringct tx) = Some sc /\
    verify_range_proof sc = Returns true /\ verify_ringct_balance sc = true }.

(** Stored blobs: of a verified transaction, or of that or a coinbase. *)
Definition holds_verified (bd : blob) : Prop := bytes_ok bd /\ exists tx, maybe_tx_from_blob init bd = Some tx /\ verified tx.
Definition holds_known (bd : blob) : Prop :=
  bytes_ok bd /\ exists tx, maybe_tx_from_blob init bd = Some tx /\ (verified tx \/ is_coinbase tx = true).

Lemma semantics_verified tx b : 2 <= version (prefix tx) <= 2 -> semantics_ok tx b = Returns true -> verified tx.
Proof.
  intros Hv E. unfold semantics_ok in E. apply result_bind_inv in E as (ok & _ & E). destruct ok; [|discriminate].
  cbn [negb] in E. rewrite (proj2 (Z.ltb_ge _ _)) in E by lia. cbv zeta in E.
  destruct (type (basic (ringct tx)) =? RCTTypeCLSAG); [|discriminate]. cbn [negb] in E.
  destruct (maybeSizeCheckedRctData (ringct tx)) as [sc|] eqn:Es; [|discriminate].
  apply result_bind_inv in E as (r & Er & E). injection E as E. apply andb_true_iff in E as [-> Eb].
  split; [lia|]. eauto.
Qed.

(** What the expansion of a transaction changes does not matter. *)
Lemma verified_with tx b cs : verified tx -> type b = type (basic (ringct tx)) -> output_commits b = output_commits (basic (ringct tx)) ->
  fee b = fee (basic (ringct tx)) -> ecdh_encrypted_data b = ecdh_encrypted_data (basic (ringct tx)) -> length cs = length (CLSAGs (p (ringct tx))) ->
  verified (with_ringct {| basic := b; p := with_CLSAGs cs (p (ringct tx)) |} tx).
Proof.
  intros [Hv (sc & Es & Er & Eb)] E1 E2 E3 E4 E5. split; [exact Hv|]. unfold maybeSizeCheckedRctData in *. cbn.
  rewrite E1, E2, E4, E5. case_match; [discriminate|]. destruct (rule_17_ringct_should_contain_only_one_range_proof _) as [pr|]; [|discriminate].
  cbn [mbind option_bind] in *. do 2 (case_match; [discriminate|]). injection Es as <-. eexists. split; [reflexivity|].
  unfold verify_range_proof, verify_ringct_balance in *. cbn in *. rewrite E2, E3. auto.
Qed.

Lemma verified_basic tx b : verified tx -> type b = type (basic (ringct tx)) -> output_commits b = output_commits (basic (ringct tx)) ->
  fee b = fee (basic (ringct tx)) -> ecdh_encrypted_data b = ecdh_encrypted_data (basic (ringct tx)) ->
  verified (with_ringct {| basic := b; p := p (ringct tx) |} tx).
Proof.
  intros Hv E1 E2 E3 E4. pose proof (verified_with tx b (CLSAGs (p (ringct tx))) Hv E1 E2 E3 E4 eq_refl) as Hw.
  unfold with_CLSAGs in Hw. now destruct (p (ringct tx)).
Qed.

Lemma result_mapM_length {A B} (f : A -> result B) l l' : result_mapM f l = Returns l' -> length l' = length l.
Proof.
  revert l'. induction l as [|x l IH]; intros l' E; cbn in E; [now injection E as <-|].
  apply result_bind_inv in E as (y & _ & E). apply result_bind_inv in E as (ys & Ey & E). injection E as <-. cbn. f_equal. now apply IH.
Qed.

Lemma expand_verified tx h pk tx' b : expand_transaction_2 tx h pk = Returns (tx', b) -> verified tx -> verified tx'.
Proof.
  intros E Hv. unfold expand_transaction_2 in E. case_match; [now injection E as <- _|].
  assert (Hm : verified (with_ringct {| basic := with_message h (basic (ringct tx)); p := p (ringct tx) |} tx)).
  { now apply verified_basic. }
  case_match; [now injection E as <- _|]. destruct pk as [|[|k ks] pk]; [now injection E as <- _|now injection E as <- _|].
  case_match eqn:El; [|apply result_bind_inv in E as (xs & Ex & E)]; injection E as <- _.
  - now apply verified_basic.
  - apply negb_false_iff, Nat.eqb_eq in El. apply result_mapM_length in Ex. apply verified_with; try reflexivity; [assumption|].
    rewrite length_zip_with. lia.
Qed.

Lemma check_inputs_verified d t tx tvc ok tx' tvc' pmax :
  check_inputs d t tx tvc = Returns (ok, tx', tvc', pmax) -> verified tx -> verified tx'.
Proof.
  intros E Hv. unfold check_inputs in E. apply result_bind_inv in E as (h & _ & E).
  case_match; [now injection E as _ <- _ _|]. destruct (mixin_range _) as [lo hi].
  do 4 (case_match; [now injection E as _ <- _ _|]). apply result_bind_inv in E as (xs & _ & E).
  case_match; [now injection E as _ <- _ _|]. destruct (check_each_input _ _ _ _ _ _ _) as [[[ok1 tvc1] pm] pk].
  do 2 (case_match; [now injection E as _ <- _ _|]). apply result_bind_inv in E as ([tx1 b] & Ex & E).
  apply expand_verified in Ex; [|assumption]. case_match; [now injection E as _ <- _ _|].
  apply result_bind_inv in E as (b' & _ & E). now injection E as _ <- _ _.
Qed.

(** The same through the pool's view of the chain. *)
Lemma chain_inputs_verified d t tx h id tvc b r :
  @chain_check_ringct_inputs (chain_of d t) tx h id tvc b = r -> verified tx -> verified r.2.1.1.1.
Proof.
  intros <- Hv. cbn. unfold check_ringct_inputs. destruct (check_inputs d t tx tvc) as [[[[ok tx'] tvc'] pm]|] eqn:E; [|assumption].
  apply check_inputs_verified in E; [|assumption]. cbn [mbind result_bind]. destruct ok; cbn [negb]; [|assumption].
  destruct (negb (pm <? height d)); [assumption|]. destruct (get_block_hash_from_height pm d); assumption.
Qed.

(** ** The pool *)

Definition rows_verified (t : tables) : Prop := forall id bd, txpool_blob t !! id = Some bd -> holds_verified bd.

Record pool_verified (s : pool) : Prop := {
  pv_now : rows_verified (PoolTable.now (TxPool.m_db s));
  pv_batch t : batch (TxPool.m_db s) = Some t -> rows_verified t;
  pv_cache id tx : m_parsed_tx_cache s !! id = Some tx -> verified tx }.

Lemma pv_same s s' : TxPool.m_db s' = TxPool.m_db s -> m_parsed_tx_cache s' = m_parsed_tx_cache s -> pool_verified s -> pool_verified s'.
Proof. intros E1 E2 [Hn Hb Hc]. split; rewrite ?E1, ?E2; assumption. Qed.

Lemma pv_db s d : pool_verified s -> rows_verified (PoolTable.now d) -> (forall t, batch d = Some t -> rows_verified t) -> pool_verified (with_db d s).
Proof. intros [_ _ Hc] Hn Hb. split; assumption. Qed.

Lemma pv_tables s f : (rows_verified (tbl s) -> rows_verified (f (tbl s))) -> pool_verified s -> pool_verified (map_db (on_tables f) s).
Proof. intros Hf Hs. apply pv_db; [assumption|apply Hf, (pv_now _ Hs)|exact (pv_batch _ Hs)]. Qed.

Lemma pv_lock s : pool_verified s -> pool_verified (lock_db s).1.
Proof.
  intros Hs. unfold lock_db, locked_txn. destruct (batch (TxPool.m_db s)) as [t|] eqn:E; cbn; [now apply (pv_same s)|].
  apply pv_db; [assumption|exact (pv_now _ Hs)|]. intros t [= <-]. exact (pv_now _ Hs).
Qed.

Lemma pv_commit b s : pool_verified s -> pool_verified (map_db (txn_commit b) s).
Proof.
  intros Hs. destruct b; [|now apply (pv_same s)]. apply pv_db; [assumption|exact (pv_now _ Hs)|discriminate].
Qed.

Lemma pv_abort b s : pool_verified s -> pool_verified (map_db (txn_abort b) s).
Proof.
  intros Hs. unfold map_db, txn_abort. destruct b; [|now apply (pv_same s)].
  destruct (batch (TxPool.m_db s)) as [t|] eqn:E; [|now apply (pv_same s)].
  apply pv_db; [assumption|exact (pv_batch _ Hs t E)|discriminate].
Qed.

Lemma pv_remove id s : pool_verified s -> pool_verified (map_db (on_tables (remove_txpool_tx id)) s).
Proof. apply pv_tables. intros Hr i bd E. cbn in E. apply lookup_delete_Some in E as [_ E]. exact (Hr _ _ E). Qed.

Lemma pv_same_blobs s f : (forall t, txpool_blob (f t) = txpool_blob t) -> pool_verified s -> pool_verified (map_db (on_tables f) s).
Proof. intros Hf. apply pv_tables. intros Hr i bd E. rewrite Hf in E. exact (Hr _ _ E). Qed.

Lemma pv_remove_images tx id s : pool_verified s -> pool_verified (remove_transaction_keyimages tx id s).1.
Proof. unfold remove_transaction_keyimages. destruct (remove_key_images _ _ _) as [ix ok]. destruct ok; apply pv_same; reflexivity. Qed.

Lemma pv_insert_images tx id r s : pool_verified s -> pool_verified (insert_output_key_images tx id r s).1.
Proof. unfold insert_output_key_images. destruct (insert_key_images _ _ _ _ _) as [ix ok]. destruct ok; apply pv_same; reflexivity. Qed.

Lemma mark_inputs_blobs ins ix : forall st r, mark_inputs ins ix st = r -> txpool_blob r.1.1 = txpool_blob st.1.
Proof.
  assert (Hone : forall st id, txpool_blob (mark_one st id).1 = txpool_blob st.1).
  { intros [t c] id. unfold mark_one, update_txpool_tx. repeat case_match; try reflexivity. all: simplify_eq; reflexivity. }
  assert (Hall : forall l st, txpool_blob (foldl mark_one st l).1 = txpool_blob st.1).
  { induction l as [|id l IH]; intros st; [reflexivity|]. cbn. now rewrite IH, Hone. }
  induction ins as [|[g|x] ins IH]; intros st r <-; cbn [mark_inputs]; [reflexivity|reflexivity|].
  rewrite (IH _ _ eq_refl). case_match; [apply Hall|reflexivity].
Qed.

Lemma pv_mark tx s : pool_verified s -> pool_verified (mark_double_spend tx s).
Proof.
  intros Hs. unfold mark_double_spend. apply pv_lock in Hs. destruct (lock_db s) as [s1 lock]. cbn [fst] in Hs.
  destruct (mark_inputs _ _ _) as [[t changed] done] eqn:E. apply mark_inputs_blobs in E. cbn in E.
  assert (Ht : pool_verified (map_db (on_tables (fun _ => t)) s1)) by (apply pv_tables; [|assumption]; intros Hr i bd Ei; rewrite E in Ei; exact (Hr _ _ Ei)).
  destruct done; cbn [negb]; [|now apply pv_abort]. destruct changed; [|now apply pv_commit].
  eapply pv_same; [| |apply (pv_commit lock), Ht]; reflexivity.
Qed.

Lemma pv_prune_loop bytes first todo : forall kept changed s, pool_verified s -> pool_verified (prune_loop bytes first todo kept changed s).1.1.
Proof.
  induction todo as [|e todo IH]; intros kept changed s Hs; cbn [prune_loop]; [now apply (pv_same s)|].
  destruct (_ <=? bytes); [now apply (pv_same s)|]. destruct (get_txpool_tx_meta _ _) as [meta|]; [|now apply (pv_same s)].
  destruct (tx_from_block meta); [now apply IH|]. destruct (get_txpool_tx_blob _ _ _) as [bd|]; [|now apply (pv_same s)].
  destruct (maybe_tx_prefix_from_blob bd) as [tx|]; [|now apply (pv_same s)].
  match goal with |- context [remove_transaction_keyimages ?t ?i ?x] => pose proof (pv_remove_images t i x) as Hr; destruct (remove_transaction_keyimages t i x) end.
  apply IH, Hr, (pv_same (map_db (on_tables (remove_txpool_tx (e_id e))) s)); [reflexivity|reflexivity|]. now apply pv_remove.
Qed.

Lemma pv_prune bytes s : pool_verified s -> pool_verified (prune bytes s).
Proof.
  intros Hs. unfold prune. apply pv_lock in Hs. destruct (lock_db s) as [s1 lock]. cbn [fst] in Hs.
  destruct (m_txs_by_fee_and_receive_time s1) as [|first rest]; [now apply pv_commit|].
  pose proof (pv_prune_loop (if bytes =? 0 then m_txpool_max_weight s else bytes) first (reverse rest) [] false s1 Hs) as Hl.
  destruct (prune_loop _ _ _ _ _ _) as [[s2 changed] ok]. cbn [fst] in Hl.
  destruct ok; cbn [negb]; [|now apply pv_abort]. destruct changed; [|now apply pv_commit].
  eapply pv_same; [| |apply (pv_commit lock), Hl]; reflexivity.
Qed.

Lemma pv_store b tx id bd w f rt r m s : pool_verified s -> holds_verified bd -> verified tx -> pool_verified (store_tx b tx id bd w f rt r m s).1.
Proof.
  intros Hs Hbd Htx. unfold store_tx. set (s0 := if bool_decide (r = PoolTable.block) then _ else s).
  assert (H0s : pool_verified s0).
  { unfold s0. case_bool_decide; [|assumption]. destruct Hs as [Hn Hb Hc]. split; [assumption|assumption|]. cbn. intros i t E.
    destruct (m_parsed_tx_cache s !! id) eqn:Ei; [exact (Hc _ _ E)|]. apply lookup_insert_Some in E as [[_ <-]|[_ E]]; [assumption|exact (Hc _ _ E)]. }
  apply pv_lock in H0s. destruct (lock_db s0) as [s1 lock]. cbn [fst] in H0s.
  set (s2 := if b then _ else s1). assert (H2s : pool_verified s2) by (unfold s2; destruct b; [now apply pv_remove|assumption]).
  apply (pv_insert_images (prefix tx) id r) in H2s. destruct (insert_output_key_images _ _ _ s2) as [s3 ok]. cbn [fst] in H2s.
  destruct ok; cbn [negb]; [|now apply pv_abort]. cbn [fst]. apply pv_commit.
  apply (pv_same (map_db (on_tables (add_txpool_tx id bd m)) s3)); [reflexivity|reflexivity|].
  apply pv_tables; [|assumption]. intros Hr i x E. cbn in E. apply lookup_insert_Some in E as [[_ <-]|[_ E]]; [assumption|exact (Hr _ _ E)].
Qed.

Lemma pv_finish w s : pool_verified s -> pool_verified (finish_add w s).
Proof. intros Hs. apply pv_prune. now apply (pv_same s). Qed.

(** A transaction is stored only with the type of a ring signature. *)
Lemma pv_add d t now tx id bd w tvc r rel s : pool_verified s -> (type (basic (ringct tx)) = RCTTypeCLSAG -> holds_verified bd /\ verified tx) ->
  pool_verified (@add_tx (chain_of d t) now tx id bd w tvc r rel s).1.1.
Proof.
  intros Hs Hv. unfold add_tx. destruct (version (prefix tx) =? 0); [assumption|]. destruct (_ && bool_decide (id ∈ _)); [assumption|].
  destruct (negb (check_inputs_types_supported tx)); [assumption|]. destruct (tx_fee_v1_checked tx) as [f|fl]; [|assumption].
  destruct (_ && negb (chain_check_fee w f)); [assumption|]. destruct (get_transaction_weight_limit <? w); [assumption|].
  destruct (_ && TxPool.have_tx_keyimges_as_spent tx id s); [now apply pv_mark|].
  destruct (chain_check_ringct_outputs tx tvc) as [ok tvc1] eqn:Eo. destruct ok; [|assumption]. cbn [negb].
  assert (Ht : type (basic (ringct tx)) = RCTTypeCLSAG).
  { cbn in Eo. unfold check_ringct_outputs in Eo. case_match; [discriminate|]. case_match eqn:E2; [discriminate|]. now apply negb_false_iff, Z.eqb_eq in E2. }
  destruct (Hv Ht) as [Hbd Htx]. destruct now as [rt rt'].
  destruct (chain_check_ringct_inputs tx 0 null_hash _ _) as [iok [[[tx1 mh] mid] tvc2]] eqn:Ei.
  apply chain_inputs_verified in Ei; [|assumption]. cbn [fst snd] in Ei.
  destruct iok; cbn [negb]; [|destruct (negb (bool_decide (r = PoolTable.block))); [assumption|]].
  all: match goal with |- context [store_tx ?b ?t ?i ?x ?w ?f ?rt ?r ?m ?s] => pose proof (pv_store b t i x w f rt r m s Hs Hbd Ei) as Hst; destruct (store_tx b t i x w f rt r m s) as [s2 ok] end.
  all: cbn [fst] in Hst; destruct ok; cbn [negb fst]; [now apply pv_finish|assumption].
Qed.

Lemma pv_take id s s' r : pool_verified s -> take_tx init id s = (s', r) ->
  pool_verified s' /\ forall t, r = Some t -> verified (t_tx t) /\ holds_verified (t_blob t).
Proof.
  intros Hs E. unfold take_tx in E. pose proof (pv_lock s Hs) as Hl. destruct (lock_db s) as [s1 lock]. cbn [fst] in Hl.
  assert (Hab : pool_verified (map_db (txn_abort lock) s1)) by now apply pv_abort.
  destruct (get_txpool_tx_meta id _) as [meta|]; [|injection E as <- <-; now split].
  destruct (get_txpool_tx_blob id all (tbl s1)) as [bd|] eqn:Eb; [|injection E as <- <-; now split].
  assert (Hbd : holds_verified bd).
  { unfold get_txpool_tx_blob in Eb. destruct (get_txpool_tx_blob_opt id all (tbl s1)) as [x|] eqn:Ex; [|discriminate]. injection Eb as <-.
    unfold get_txpool_tx_blob_opt in Ex. rewrite bool_decide_true in Ex by reflexivity. exact (pv_now _ Hl _ _ Ex). }
  destruct (cached_or_parsed init id bd s1) as [tx|] eqn:Et; [|injection E as <- <-; now split].
  assert (Htx : verified tx).
  { unfold cached_or_parsed in Et. destruct (m_parsed_tx_cache s1 !! id) as [x|] eqn:Ex; [injection Et as <-; exact (pv_cache _ Hl _ _ Ex)|].
    destruct Hbd as [_ (y & Ey & Hy)]. congruence. }
  match goal with E : context [remove_transaction_keyimages ?t ?i ?x] |- _ => pose proof (pv_remove_images t i x) as Hr; destruct (remove_transaction_keyimages t i x) as [s2 b] end.
  injection E as <- <-. split; [|intros t [= <-]; now split].
  apply (pv_same (map_db (txn_commit lock) s2)); [reflexivity|reflexivity|]. apply pv_commit, Hr.
  apply (pv_same (map_db (on_tables (remove_txpool_tx id)) s1)); [reflexivity|reflexivity|]. now apply pv_remove.
Qed.

(** ** Blobs *)

Lemma expand_same t t' : expand_transaction t = Some t' -> t' = t.
Proof. unfold expand_transaction. repeat case_match; congruence. Qed.

(** A parsed transaction that is serialized again. *)
Lemma reserialized bd tx bd' : bytes_ok bd -> maybe_tx_from_blob init bd = Some tx -> tx_to_blob tx = Returns bd' ->
  bytes_ok bd' /\ maybe_tx_from_blob init bd' = Some tx.
Proof.
  intros Hb E E'. unfold maybe_tx_from_blob in *. apply bind_Some in E as (t & Et & Ex). pose proof (expand_same _ _ Ex) as ->.
  destruct (tx_blob init t) as (l & El & Hl & Hp); [now apply (parse_wf _ bd)|]. rewrite El in E'. injection E' as ->.
  split; [assumption|]. rewrite Hp. exact Ex.
Qed.

Lemma coinbase_known b bd : wf (serialize_block init) b -> is_coinbase (miner_tx b) = true -> tx_to_blob (miner_tx b) = Returns bd -> holds_known bd.
Proof.
  intros Hw Hc E. destruct (tx_blob init (miner_tx b)) as (l & El & Hl & Hp); [apply Hw|]. rewrite El in E. injection E as ->.
  split; [assumption|]. exists (miner_tx b). split; [|now right]. unfold maybe_tx_from_blob. rewrite Hp. cbn [mbind option_bind].
  unfold expand_transaction. rewrite Hc. case_match; reflexivity.
Qed.

Lemma prevalidated_coinbase b h c : prevalidate_miner_transaction b h = Some c -> is_coinbase (miner_tx b) = true.
Proof.
  unfold prevalidate_miner_transaction. destruct (h =? 0); [discriminate|].
  destruct (maybe_coinbase_tx (miner_tx b)) as [cb|] eqn:Ec; [|discriminate]. intros _.
  unfold maybe_coinbase_tx in Ec. repeat (case_match; try discriminate).
  destruct (rule_22_coinbase_tx_should_have_only_one_input _) as [x|] eqn:E22; [|discriminate]. cbn [mbind option_bind] in Ec.
  destruct (rule_23_coinbase_tx_input_type_should_be_gen x) as [g|] eqn:E23; [|discriminate].
  unfold is_coinbase. now rewrite E22, E23.
Qed.

(** ** The database *)

Definition rows_known (d : chain_db) : Prop :=
  forall id b0 b1, m_txs_pruned d !! id = Some b0 -> m_txs_prunable d !! id = Some b1 -> holds_known (b0 ++ b1).

Record db_known (d : chain_db) : Prop := {
  dk_rows : rows_known d;
  dk_blocks : Forall bytes_ok (m_blocks d);
  dk_alt id x : m_alt_blocks d !! id = Some x -> bytes_ok x.2;
  dk_height : 0 < height d < 2 ^ 64 }.

(** Tables of transactions, blocks and alternative blocks are the same. *)
Definition same_blobs (d d' : chain_db) : Prop :=
  m_txs_pruned d' = m_txs_pruned d /\ m_txs_prunable d' = m_txs_prunable d /\ m_blocks d' = m_blocks d /\ m_alt_blocks d' = m_alt_blocks d.

#[export] Instance same_blobs_preorder : PreOrder same_blobs.
Proof. split; [now split|]. intros d1 d2 d3 (? & ? & ? & ?) (? & ? & ? & ?). split_and!; congruence. Qed.

Lemma rows_same d d' : same_blobs d d' -> rows_known d -> rows_known d'.
Proof. intros (E1 & E2 & _ & _) Hr id b0 b1. rewrite E1, E2. apply Hr. Qed.

Lemma add_outputs_blobs tx h outs : forall i d d' ixs, add_outputs tx h i outs d = Returns (d', ixs) -> same_blobs d d'.
Proof.
  induction outs as [|o outs IH]; intros i d d' ixs E; cbn in E; [now injection E as <- _|].
  apply result_bind_inv in E as ([o' c] & _ & E). apply result_bind_inv in E as ([d1 n] & E1 & E).
  apply result_bind_inv in E as ([d2 ixs'] & E2 & E). injection E as <- _. cbn [fst snd] in *.
  transitivity d1; [|eapply IH, E2]. unfold add_output, throw_if in E1. apply throw_unless_inv in E1 as [_ E1].
  apply throw_unless_inv in E1 as [_ E1]. now injection E1 as <- _.
Qed.

Lemma add_transaction_known tx bd h d d' : add_transaction tx bd h d = Returns d' -> rows_known d -> holds_known bd ->
  rows_known d' /\ m_blocks d' = m_blocks d /\ m_alt_blocks d' = m_alt_blocks d.
Proof.
  intros E Hr Hb. unfold add_transaction in E. apply result_bind_inv in E as (d1 & E1 & E). apply result_bind_inv in E as ([d2 id] & E2 & E).
  apply result_bind_inv in E as ([d3 ixs] & E3 & E). unfold add_tx_amount_output_indices in E.
  apply result_bind_inv in E as (to & _ & E). injection E as <-. cbn [fst snd] in *.
  destruct (add_inputs_spec _ _ _ E1) as (_ & _ & ->). destruct (add_transaction_data_inv _ _ _ _ _ _ E2) as (n & _ & Hn1 & Hn2 & _ & ->).
  apply add_outputs_blobs in E3. pose proof E3 as (_ & _ & Eb & Ea). split; [|split; [exact Eb|exact Ea]].
  apply (rows_same d3); [now split|]. apply (rows_same _ _ E3). intros i b0 b1 E4 E5. cbn in E4, E5, Hn1, Hn2.
  apply lookup_insert_Some in E4 as [[<- <-]|[Hne E4]].
  - rewrite lookup_insert_eq in E5. injection E5 as <-. now rewrite take_drop.
  - rewrite lookup_insert_ne in E5 by assumption. exact (Hr _ _ _ E4 E5).
Qed.

Lemma add_transactions_known txs : forall hs d d', add_transactions txs hs d = Returns d' -> rows_known d -> Forall (fun x => holds_known x.2) txs ->
  rows_known d' /\ m_blocks d' = m_blocks d /\ m_alt_blocks d' = m_alt_blocks d.
Proof.
  induction txs as [|[tx bd] txs IH]; intros [|h hs] d d' E Hr Hf; cbn in E; try (injection E as <-; now split).
  apply result_bind_inv in E as (d1 & E1 & E). apply Forall_cons in Hf as [Hb Hf].
  destruct (add_transaction_known _ _ _ _ _ E1 Hr Hb) as (Hr1 & Eb & Ea). destruct (IH _ _ _ E Hr1 Hf) as (? & ? & ?). split_and!; [assumption|congruence|congruence].
Qed.

Lemma add_block_known b w lw cd cg txs d d' prev : add_block b w lw cd cg txs d = Returns (d', prev) -> rows_known d -> Forall bytes_ok (m_blocks d) ->
  (forall id x, m_alt_blocks d !! id = Some x -> bytes_ok x.2) -> height d < 2 ^ 64 - 1 ->
  wf (serialize_block init) b -> is_coinbase (miner_tx b) = true -> Forall (fun x => holds_verified x.2) txs -> db_known d'.
Proof.
  intros E Hr Hb Ha Hlt Hw Hc Hf. unfold add_block in E. apply throw_unless_inv in E as [_ E].
  apply result_bind_inv in E as (bh & _ & E). apply result_bind_inv in E as (mb & Emb & E). apply result_bind_inv in E as (mh & _ & E).
  apply result_bind_inv in E as (d1 & E1 & E). apply result_bind_inv in E as (d2 & E2 & E). apply result_bind_inv in E as (d3 & E3 & E). injection E as <- _.
  destruct (add_transaction_known _ _ _ _ _ E1 Hr (coinbase_known _ _ Hw Hc Emb)) as (Hr1 & Eb1 & Ea1).
  destruct (add_transactions_known _ _ _ _ E2 Hr1) as (Hr2 & Eb2 & Ea2).
  { eapply Forall_impl; [exact Hf|]. intros x (Hx & t & Et & Hv). split; [assumption|]. eauto. }
  unfold add_block_data, throw_if in E3. apply throw_unless_inv in E3 as [_ E3]. apply result_bind_inv in E3 as ([] & _ & E3).
  apply result_bind_inv in E3 as (bd & Ebd & E3). apply result_bind_inv in E3 as (cum & _ & E3). injection E3 as <-.
  destruct (block_blob init b Hw) as (l & El & Hl & _). rewrite El in Ebd. injection Ebd as ->.
  split; [exact Hr2| | |]; cbn; rewrite ?Eb2, ?Eb1, ?Ea2, ?Ea1.
  - apply Forall_app. auto.
  - exact Ha.
  - unfold height in *. cbn. rewrite ?Eb2, ?Eb1, length_app. cbn. lia.
Qed.

Lemma get_tx_known h d tx : get_tx init h d = Returns (Some tx) -> rows_known d ->
  exists bd, bytes_ok bd /\ maybe_tx_from_blob init bd = Some tx /\ (verified tx \/ is_coinbase tx = true).
Proof.
  unfold get_tx, get_tx_blob. intros E Hr. destruct (m_tx_indices d !! h) as [ti|]; [|discriminate]. cbn in E.
  destruct (m_txs_pruned d !! tx_id ti) as [b0|] eqn:E0; [|discriminate]. cbn in E.
  destruct (m_txs_prunable d !! tx_id ti) as [b1|] eqn:E1; [|discriminate]. cbn in E.
  destruct (Hr _ _ _ E0 E1) as [Hb (t & Et & Hv)]. rewrite Et in E. injection E as <-. eauto.
Qed.

Lemma remove_outputs_blobs n ps outs ixs : forall d d', remove_outputs_from n ps outs ixs d = Returns d' -> same_blobs d d'.
Proof.
  induction n as [|n IH]; intros d d' E; cbn in E; [now injection E as <-|].
  destruct (outs !! n) as [o|]; [|discriminate]. destruct (ixs !! n) as [ix|]; [|discriminate].
  apply result_bind_inv in E as (d1 & E1 & E). transitivity d1; [|eapply IH, E].
  unfold remove_output in E1. destruct (find_output _ _ _); [|discriminate]. apply throw_unless_inv in E1 as [_ E1]. now injection E1 as <-.
Qed.

Lemma remove_transaction_known h d d' : remove_transaction init h d = Returns d' -> rows_known d ->
  rows_known d' /\ m_blocks d' = m_blocks d /\ m_alt_blocks d' = m_alt_blocks d.
Proof.
  intros E Hr. unfold remove_transaction in E. apply result_bind_inv in E as (tx & _ & E). unfold remove_transaction_data in E.
  rewrite remove_inputs_spec in E. destruct (m_tx_indices _ !! h) as [ti|]; [|discriminate].
  apply throw_unless_inv in E as [_ E]. unfold throw_if in E. apply throw_unless_inv in E as [_ E].
  apply result_bind_inv in E as (d1 & E1 & E). injection E as <-. unfold remove_tx_outputs, throw_if in E1.
  apply throw_unless_inv in E1 as [_ E1]. apply remove_outputs_blobs in E1. pose proof E1 as (_ & _ & Eb & Ea).
  split; [|split; [exact Eb|exact Ea]]. apply (rows_same d1); [now split|]. apply (rows_same _ _ E1).
  intros i b0 b1 E4 E5. cbn in E4, E5. apply lookup_delete_Some in E4 as [_ E4]. apply lookup_delete_Some in E5 as [_ E5]. exact (Hr _ _ _ E4 E5).
Qed.

(** A transaction that came out of the database. *)
Definition came_out (tx : transaction) : Prop :=
  exists bd, bytes_ok bd /\ maybe_tx_from_blob init bd = Some tx /\ (verified tx \/ is_coinbase tx = true).

Lemma pop_transactions_known hs : forall d d' txs, pop_transactions init hs d = Returns (d', txs) -> rows_known d ->
  rows_known d' /\ m_blocks d' = m_blocks d /\ m_alt_blocks d' = m_alt_blocks d /\ Forall came_out txs.
Proof.
  induction hs as [|h hs IH]; intros d d' txs E Hr; cbn in E; [injection E as <- <-; now split_and!|].
  apply result_bind_inv in E as (t & Et & E). destruct t as [tx|]; [|discriminate].
  apply result_bind_inv in E as (d1 & E1 & E). apply result_bind_inv in E as ([d2 l] & E2 & E). injection E as <- <-.
  destruct (remove_transaction_known _ _ _ E1 Hr) as (Hr1 & Eb & Ea). destruct (IH _ _ _ E2 Hr1) as (? & ? & ? & ?).
  split_and!; [assumption|congruence|congruence|]. constructor; [exact (get_tx_known _ _ _ Et Hr)|assumption].
Qed.

Lemma pop_block_known d d' b txs : pop_block init d = Returns (d', b, txs) -> db_known d -> 1 < height d ->
  db_known d' /\ wf (serialize_block init) b /\ Forall came_out txs.
Proof.
  intros E [Hr Hb Ha Hh] Hlt. unfold pop_block in E. apply result_bind_inv in E as (top & Et & E). apply result_bind_inv in E as (d1 & E1 & E).
  destruct top as [blk|]; [|discriminate]. apply result_bind_inv in E as ([d2 l] & E2 & E). apply result_bind_inv in E as (h & _ & E).
  apply result_bind_inv in E as (d3 & E3 & E). injection E as <- <- <-.
  assert (Hw : wf (serialize_block init) blk).
  { unfold get_top_block in Et. case_match; [discriminate|]. apply result_bind_inv in Et as (x & Ex & Et). injection Et as ->.
    unfold get_block_from_height in Ex. apply result_bind_inv in Ex as (bd & Ebd & Ex). unfold get_block_blob_from_height in Ebd.
    destruct (maybe_block_from_blob init bd) as [y|] eqn:Ey; [|discriminate]. injection Ex as ->.
    destruct (0 <=? height d - 1); [|discriminate]. destruct (m_blocks d !! _) as [z|] eqn:Ez; [|discriminate]. injection Ebd as ->.
    apply (parse_wf _ bd); [|exact Ey]. rewrite Forall_forall in Hb. apply Hb. eapply list_elem_of_lookup_2, Ez. }
  unfold remove_block, throw_if in E1. apply throw_unless_inv in E1 as [_ E1]. apply result_bind_inv in E1 as (bi & _ & E1).
  apply throw_unless_inv in E1 as [_ E1]. injection E1 as <-. cbn [fst snd] in *.
  destruct (pop_transactions_known _ _ _ _ E2 Hr) as (Hr2 & Eb2 & Ea2 & Hl). destruct (remove_transaction_known _ _ _ E3 Hr2) as (Hr3 & Eb3 & Ea3).
  split; [|now split]. cbn in Eb2, Ea2.
  assert (Hrl : forall l : list blob, Forall bytes_ok l -> Forall bytes_ok (removelast l) /\ length (removelast l) = (length l - 1)%nat).
  { clear. induction l as [|x l IH]; intros Hf; [now split|]. apply Forall_cons in Hf as [Hx Hf]. destruct l as [|y l]; [now split|].
    destruct (IH Hf) as [H1 H2]. split; [constructor; assumption|]. change (removelast (x :: y :: l)) with (x :: removelast (y :: l)). cbn [length] in *. lia. }
  destruct (Hrl _ Hb) as [Hb' Hl']. split; [exact Hr3| | |].
  - rewrite Eb3, Eb2. exact Hb'.
  - intros i x. rewrite Ea3, Ea2. apply Ha.
  - unfold height in *. rewrite Eb3, Eb2, Hl'. lia.
Qed.

(** ** The state *)

(** What a failed addition or removal of a block leaves behind are rows of the database and of the block. *)
Context (torn_known : forall d, db_known d -> db_known (torn_tables d)).

Record state_verified (s : blockchain) : Prop := {
  sv_committed : db_known (c_tables (committed (m_db s)));
  sv_written c : write_txn (m_db s) = Some c -> db_known (c_tables c);
  sv_pool : pool_verified (m_tx_pool s) }.

Lemma sv_db s : state_verified s -> db_known (db s).
Proof. intros [Hc Hw _]. unfold db, current. destruct (write_txn (m_db s)) as [c|]; auto. Qed.

Lemma sv_same s s' : m_db s' = m_db s -> m_tx_pool s' = m_tx_pool s -> state_verified s -> state_verified s'.
Proof. intros E1 E2 [Hc Hw Hp]. split; rewrite ?E1, ?E2; assumption. Qed.

Lemma sv_with_pool x s : state_verified s -> pool_verified x -> state_verified (with_pool x s).
Proof. intros [Hc Hw _] Hp. now split. Qed.

Lemma sv_writes d m t s : state_verified s -> db_known d -> state_verified (writes d m t s).
Proof. intros [Hc Hw Hp] Hd. split; cbn; [assumption| |assumption]. now intros c [= <-]. Qed.

(** A computation keeps the state verified and its result satisfies [Q]. *)
Definition ensures {A} (m : M A) (Q : A -> Prop) : Prop :=
  forall s, state_verified s.1 -> state_verified (m s).1.1 /\ forall a, (m s).2 = Returns a -> Q a.
Abbreviation stays m := (ensures m (fun _ => True)).

Lemma ensures_bind {A B} (m : M A) (f : A -> M B) Q R : ensures m Q -> (forall a, Q a -> ensures (f a) R) -> ensures (m ≫= f) R.
Proof.
  intros Hm Hf s Hs. destruct (Hm s Hs) as [Hs' Hq]. apply run_bind; [intros s' E|intros s' a E]; rewrite E in *.
  - split; [assumption|discriminate].
  - now apply Hf; [apply Hq|].
Qed.
Lemma ensures_ret {A} (a : A) (Q : A -> Prop) : Q a -> ensures (mret a) Q.
Proof. intros Ha s Hs. split; [assumption|]. now intros b [= <-]. Qed.
Lemma ensures_fail {A} (Q : A -> Prop) : ensures fail Q.
Proof. intros s Hs. split; [assumption|discriminate]. Qed.
Lemma ensures_reads {A} (f : blockchain -> A) (Q : A -> Prop) : (forall s, state_verified s -> Q (f s)) -> ensures (reads f) Q.
Proof. intros Hf s Hs. split; [assumption|]. intros a [= <-]. now apply Hf. Qed.
Lemma ensures_tries {A} (f : blockchain -> result A) (Q : A -> Prop) :
  (forall s a, state_verified s -> f s = Returns a -> Q a) -> ensures (tries f) Q.
Proof. intros Hf s Hs. split; [assumption|]. intros a E. now apply (Hf s.1). Qed.
Lemma stays_modify f : (forall s, state_verified s -> state_verified (f s)) -> stays (modify f).
Proof. intros Hf s Hs. split; [now apply Hf|auto]. Qed.
Lemma stays_context : stays context.
Proof. intros s Hs. now split. Qed.
Lemma stays_marks f : stays (marks f).
Proof. intros s Hs. now split. Qed.
Lemma ensures_own {A} (m : M A) Q : ensures m Q -> stays (with_own_context m).
Proof. intros Hm s Hs. destruct (Hm (s.1, fresh_bvc) Hs) as [Hs' _]. unfold with_own_context. destruct (m _) as [s' [a|]]; now split. Qed.
Lemma ensures_catches {A} (m h : M A) Q : ensures m Q -> ensures h Q -> ensures (catches m h) Q.
Proof.
  intros Hm Hh s Hs. destruct (Hm s Hs) as [Hs' Hq]. unfold catches. destruct (m s) as [s' [a|]]; [now split|]. now apply Hh.
Qed.
Lemma ensures_weaken {A} (m : M A) (Q R : A -> Prop) : ensures m Q -> (forall a, Q a -> R a) -> ensures m R.
Proof. intros Hm Hqr s Hs. destruct (Hm s Hs) as [Hs' Hq]. split; [assumption|]. intros a E. now apply Hqr, Hq. Qed.

Lemma stays_reads {A} (f : blockchain -> A) : stays (reads f). Proof. now apply ensures_reads. Qed.
Lemma stays_tries {A} (f : blockchain -> result A) : stays (tries f). Proof. now apply ensures_tries. Qed.
Lemma stays_ret {A} (a : A) : stays (mret a). Proof. now apply ensures_ret. Qed.
Lemma stays_any {A} (m : M A) Q : ensures m Q -> stays m. Proof. intros Hm. now apply (ensures_weaken m Q). Qed.

Lemma stays_then {A B} (m : M A) (f : A -> M B) R : stays m -> (forall a, ensures (f a) R) -> ensures (m ≫= f) R.
Proof. intros Hm Hf. apply (ensures_bind _ _ (fun _ => True)); auto. Qed.

#[local] Create HintDb checked.
#[local] Hint Resolve ensures_fail stays_reads stays_tries stays_ret stays_context stays_marks : checked.
#[local] Hint Extern 2 (ensures (modify _) _) => (apply stays_modify; intros ? ?; (eapply sv_same; [| |eassumption]; reflexivity)) : checked.
#[local] Hint Extern 3 (ensures (if ?b then _ else _) _) => destruct b : checked.
#[local] Hint Extern 3 (ensures (match ?x with _ => _ end) _) => destruct x : checked.
#[local] Hint Extern 2 (ensures (_ ≫= _) _) => (apply stays_then; [|intros ?]) : checked.

Lemma stays_difficulty_pass : stays difficulty_pass.
Proof.
  unfold difficulty_pass. apply stays_then; [auto with checked|intros [top h]]. apply stays_then; [auto with checked|intros c]. cbv zeta.
  apply stays_then; [auto with checked|intros _]. apply stays_then; [auto with checked|intros c'].
  apply stays_then; [|intros _; apply stays_then; [auto with checked|intros [ts ds]]; auto 10 with checked].
  case_match; [|auto with checked].
  apply (ensures_bind _ _ (fun s => state_verified s)); [|intros s Hs; now apply stays_modify].
  apply ensures_tries. intros s a Hs E. unfold push_newest in E. apply result_bind_inv in E as (x & _ & E).
  apply result_bind_inv in E as (y & _ & E). injection E as <-. eapply sv_same; [| |exact Hs]; reflexivity.
Qed.

Lemma stays_difficulty : stays get_difficulty_for_next_block.
Proof.
  unfold get_difficulty_for_next_block. pose proof stays_difficulty_pass. case_match; [auto with checked|].
  apply stays_then; [assumption|intros [D diff]]. case_match; [|auto with checked]. apply stays_then; [assumption|intros [? ?]]. auto with checked.
Qed.
#[local] Hint Resolve stays_difficulty : checked.

(** Transactions with the blobs they are stored as. *)
Definition entries_verified (txs : list (transaction * blob)) : Prop := Forall (fun x => verified x.1 /\ holds_verified x.2) txs.

Lemma stays_return txs : entries_verified txs -> stays (return_tx_to_pool txs).
Proof.
  induction 1 as [|[tx bd] txs [Hv Hb] Hf IH]; cbn [return_tx_to_pool]; [auto with checked|].
  apply stays_then; [auto with checked|intros h]. apply stays_then; [|auto]. apply stays_modify. intros s Hs.
  apply sv_with_pool; [assumption|]. apply pv_add; [exact (sv_pool _ Hs)|]. auto.
Qed.

Lemma ensures_take id : ensures (take_from_pool init id) (fun r => forall t, r = Some t -> verified (t_tx t) /\ holds_verified (t_blob t)).
Proof.
  intros s Hs. unfold take_from_pool. destruct (take_tx init id (m_tx_pool s.1)) as [x r] eqn:E.
  destruct (pv_take _ _ _ _ (sv_pool _ Hs) E) as [Hp Hr]. split; [now apply sv_with_pool|]. intros a [= <-]. exact Hr.
Qed.

Lemma stays_refuse {A} txs Q : (Q : option A -> Prop) None -> entries_verified txs -> ensures (refuse txs) Q.
Proof.
  intros Hq Hf. unfold refuse. apply stays_then; [auto with checked|intros _]. apply stays_then; [now apply stays_return|intros _].
  now apply ensures_ret.
Qed.

Lemma ensures_take_txs b id ids : forall txs f w n, entries_verified txs ->
  ensures (take_block_txs init b id ids txs f w n) (fun r => forall x, r = Some x -> entries_verified x.1.1.1).
Proof.
  induction ids as [|i ids IH]; intros txs f w n Hf; cbn [take_block_txs].
  { apply ensures_ret. now intros x [= <-]. }
  apply stays_then; [auto with checked|intros ex]. destruct ex; [now apply stays_refuse|].
  eapply ensures_bind; [apply ensures_take|]. intros [t|] Ht; [|now apply stays_refuse]. destruct (Ht t eq_refl) as [Hv Hb]. cbv zeta.
  apply (ensures_bind _ _ (fun r => verified r.1.1.2)).
  { apply ensures_tries. intros s [[[ok tx] tvc] pm] Hs E. cbn. now apply check_inputs_verified in E. }
  intros [[[ok tx] tvc] pm] Hx. cbn [fst snd] in Hx.
  assert (Hf' : entries_verified (txs ++ [(tx, t_blob t)])) by (apply Forall_app; split; [assumption|]; constructor; [now split|constructor]).
  case_match; [|now apply IH]. apply stays_then; [|intros _; now apply stays_refuse].
  apply stays_modify. intros s Hs. unfold add_block_as_invalid. case_match; [assumption|]. eapply sv_same; [| |exact Hs]; reflexivity.
Qed.

(** ** Connecting and removing blocks *)

Abbreviation block_wf := (wf (serialize_block init)).

Lemma stays_store b w cd cg txs : block_wf b -> is_coinbase (miner_tx b) = true -> entries_verified txs -> stays (store_block b w cd cg txs).
Proof.
  intros Hw Hc Hf s Hs. pose proof (sv_db _ Hs) as Hd. unfold store_block.
  destruct (_ ← throw_unless (height (db s.1) <? u64_max); add_block b w _ cd cg txs (db s.1)) as [[d prev]|] eqn:E.
  2: { split; [|auto]. apply sv_writes; [assumption|]. now apply torn_known. }
  split; [|auto]. apply sv_writes; [assumption|]. apply throw_unless_inv in E as [Hh E]. apply Z.ltb_lt in Hh. unfold u64_max in Hh. destruct Hd. eapply add_block_known; eauto.
  eapply Forall_impl; [exact Hf|]. now intros x [_ Hx].
Qed.

Lemma stays_limit : stays update_next_cumulative_weight_limit.
Proof.
  unfold update_next_cumulative_weight_limit. apply stays_then; [|auto with checked]. case_match; [auto with checked|].
  apply stays_modify. intros s Hs. apply sv_writes; [assumption|]. exact (sv_db _ Hs).
Qed.

Lemma pv_clear s : pool_verified s -> pool_verified (with_cache ∅ s).
Proof. intros [Hn Hb _]. split; [assumption|assumption|]. intros id tx E. cbn in E. now rewrite lookup_empty in E. Qed.

Lemma stays_clear_cache : stays (modify (fun s => with_pool (with_cache ∅ (m_tx_pool s)) s)).
Proof. apply stays_modify. intros s Hs. apply sv_with_pool; [assumption|]. apply pv_clear, (sv_pool _ Hs). Qed.
#[local] Hint Resolve stays_limit stays_clear_cache : checked.

Lemma stays_block_added : stays block_added.
Proof. unfold block_added, on_blockchain_inc. auto 10 with checked. Qed.
#[local] Hint Resolve stays_block_added : checked.

Lemma stays_connect b h cb diff txs f w n : block_wf b -> is_coinbase (miner_tx b) = true -> entries_verified txs ->
  stays (connect_block b h cb diff txs f w n).
Proof.
  intros Hw Hc Hf. unfold connect_block. apply stays_then; [auto with checked|intros checks]. cbv zeta. destruct ((0 <? n) && _); [auto with checked|].
  apply stays_then; [auto with checked|intros coins]. apply stays_then; [auto with checked|intros ok].
  destruct ok; cbn [negb]; [|apply stays_then; [now apply stays_refuse|auto with checked]]. apply stays_then; [auto with checked|intros pd].
  apply stays_then; [auto with checked|intros bvc]. destruct (b_verifivation_failed bvc); [auto with checked|].
  apply stays_then; [now apply stays_store|intros [prev|]]; [auto with checked|].
  apply stays_then; [auto with checked|intros _]. apply stays_then; [now apply stays_refuse|auto with checked].
Qed.

Lemma stays_main b id : block_wf b -> stays (handle_block_to_main_chain init b id).
Proof.
  intros Hw. unfold handle_block_to_main_chain.
  apply (ensures_bind _ _ (fun r => r.2 ⊞ 1 <> 0)).
  { apply ensures_tries. intros s [top h] Hs E. cbn. pose proof (dk_height _ (sv_db _ Hs)) as Hh.
    unfold get_tail_id in E. apply tail_height in E; [lia|unfold fits; lia]. }
  intros [top h] Hh. cbn [fst snd] in Hh. cbv zeta. case_match; [auto with checked|]. apply stays_then; [auto with checked|intros timely].
  case_match; [auto with checked|]. apply stays_then; [auto with checked|intros diff]. case_match; [auto with checked|].
  apply stays_then; [auto with checked|intros pow]. case_match; [auto with checked|]. rewrite (proj2 (Z.eqb_neq _ _) Hh). cbn [negb andb].
  destruct (prevalidate_miner_transaction b (h ⊞ 1)) as [c|] eqn:Ec; [|rewrite bool_decide_false by (intros [? ?]; discriminate); cbn [negb]; auto with checked].
  rewrite bool_decide_true by eauto. cbn [negb]. apply stays_then; [auto with checked|intros cw].
  eapply ensures_bind; [apply ensures_take_txs; constructor|]. intros [[[[txs f] w] n]|] Ht; [|auto with checked].
  apply stays_connect; [assumption|eapply prevalidated_coinbase, Ec|exact (Ht _ eq_refl)].
Qed.

Lemma stays_add_main b : block_wf b -> stays (add_to_main_chain init b).
Proof. intros Hw. unfold add_to_main_chain. apply stays_then; [auto with checked|]. intros id. now apply stays_main. Qed.

Lemma came_out_verified tx : came_out tx -> is_coinbase tx = false -> verified tx.
Proof. intros (bd & _ & _ & [Hv|Hc]) E; [assumption|congruence]. Qed.

Lemma stays_return_popped txs : Forall came_out txs -> stays (return_popped txs).
Proof.
  induction 1 as [|tx txs Ho Hf IH]; cbn [return_popped]; [auto with checked|]. apply stays_then; [|auto].
  destruct (is_coinbase tx) eqn:Ec; [auto with checked|]. pose proof (came_out_verified _ Ho Ec) as Hv.
  apply (ensures_bind _ _ (fun r => pool_verified r.1.1)).
  - apply ensures_tries. intros s r Hs E. unfold add_tx_computed in E. apply result_bind_inv in E as (bd' & Eb & E).
    case_match; [injection E as <-; exact (sv_pool _ Hs)|]. apply result_bind_inv in E as (h & _ & E). injection E as <-.
    apply pv_add; [exact (sv_pool _ Hs)|]. intros _. split; [|assumption]. destruct Ho as (bd & Hb & Ep & _).
    destruct (reserialized _ _ _ Hb Ep Eb) as [Hb' Ep']. split; [assumption|]. eauto.
  - intros r Hr. apply stays_modify. intros s Hs. now apply sv_with_pool.
Qed.

Lemma ensures_pop : ensures (pop_block_from_blockchain init) block_wf.
Proof.
  unfold pop_block_from_blockchain. apply stays_then; [auto with checked|intros _].
  intros s Hs. apply run_bind; [discriminate|]. intros s0 h E. injection E as <- <-.
  destruct (Z.ltb_spec 1 (height (db s.1))) as [Hh|]; cbn [negb]; [|now apply ensures_fail].
  set (rest := fun x : block * list transaction => let '(popped_block, popped_txs) := x in _).
  assert (Hrest : forall x, block_wf x.1 /\ Forall came_out x.2 -> ensures (rest x) block_wf).
  { intros [b txs] [Hw Hf]. unfold rest, on_blockchain_dec. apply stays_then; [now apply stays_return_popped|intros _].
    do 5 (apply stays_then; [auto with checked|intros ?]). now apply ensures_ret. }
  pose proof (sv_db _ Hs) as Hd. apply run_bind; unfold unstore_block; destruct (pop_block init (db s.1)) as [[[d b] txs]|] eqn:E; intros s'.
  - discriminate.
  - intros [= <-]. split; [|discriminate]. apply sv_writes; [assumption|]. now apply torn_known.
  - intros a [= <- <-]. destruct (pop_block_known _ _ _ _ E Hd Hh) as (Hd' & Hw & Hf). apply Hrest; [now split|]. now apply sv_writes.
  - discriminate.
Qed.

Lemma stays_pop : stays (pop_block_from_blockchain init).
Proof. exact (stays_any _ _ ensures_pop). Qed.
#[local] Hint Resolve stays_pop : checked.

Lemma stays_pop_n n : stays (pop_n init n).
Proof. induction n as [|n IH]; cbn [pop_n]; auto with checked. Qed.

(** ** Batches *)

Lemma sv_env s e : state_verified s -> db_known (c_tables (committed e)) -> (forall c, write_txn e = Some c -> db_known (c_tables c)) -> state_verified (with_env e s).
Proof. intros [_ _ Hp] Hc Hw. now split. Qed.

Lemma stays_start t : stays (start_batch t).
Proof.
  unfold start_batch. intros s Hs. apply run_bind; [now intros s' [= <- _]|]. intros s0 [e r] E. injection E as <- E. cbn [fst snd].
  assert (Hs' : state_verified (with_env e s.1)).
  { unfold batch_start in E. apply throw_unless_inv in E as [_ E]. destruct (m_batch_active (m_db s.1)); [injection E as <- _; now destruct s as [[]]|].
    destruct (write_batch_txn (m_db s.1)); [injection E as <- _; now destruct s as [[]]|]. unfold throw_if in E. apply throw_unless_inv in E as [_ E].
    injection E as <- _. apply sv_env; [assumption|exact (sv_committed _ Hs)|]. intros c [= <-]. exact (sv_committed _ Hs). }
  apply run_bind; [discriminate|]. intros s1 [] E1. injection E1 as <-. revert Hs'. generalize (with_env e s.1). intros x Hx.
  assert (Hk : stays (_ ← (if r : bool then modify (fun s => with_pool (lock_db (m_tx_pool s)).1 s) else mret tt); mret r)).
  { apply stays_then; [|auto with checked]. destruct r; [|auto with checked]. apply stays_modify. intros y Hy.
    apply sv_with_pool; [assumption|]. apply pv_lock, (sv_pool _ Hy). }
  exact (Hk (x, s.2) Hx).
Qed.

Lemma stays_commit t : stays (commit_batch t).
Proof.
  unfold commit_batch. intros s Hs. apply run_bind; [now intros s' [= <- _]|]. intros s0 e E. injection E as <- E. unfold batch_stop in E.
  apply result_bind_inv in E as ([] & _ & E). injection E as <-. split; [|auto]. apply sv_with_pool; [|apply pv_commit, (sv_pool _ Hs)].
  apply sv_env; [assumption|exact (sv_db _ Hs)|discriminate].
Qed.

Lemma stays_abort t : stays (abort_batch t).
Proof.
  unfold abort_batch. intros s Hs. apply run_bind; [now intros s' [= <- _]|]. intros s0 e E. injection E as <- E. unfold batch_abort in E.
  apply result_bind_inv in E as ([] & _ & E). injection E as <-. split; [|auto]. apply sv_with_pool; [|apply pv_abort, (sv_pool _ Hs)].
  apply sv_env; [assumption|exact (sv_committed _ Hs)|discriminate].
Qed.
#[local] Hint Resolve stays_pop_n stays_start stays_commit stays_abort ensures_catches : checked.

Lemma stays_pop_blocks t n : stays (pop_blocks init t n).
Proof.
  unfold pop_blocks. apply stays_then; [auto with checked|intros stop]. apply stays_then; [|intros failed; auto with checked].
  apply ensures_catches; [|auto with checked]. do 2 (apply stays_then; [auto with checked|intros ?]). auto with checked.
Qed.

(** ** Reorganisation *)

Lemma ensures_disconnect fuel target : forall l, Forall block_wf l -> ensures (disconnect init fuel target l) (Forall block_wf).
Proof.
  induction fuel as [|fuel IH]; intros l Hl; cbn [disconnect]; [auto with checked|]. apply stays_then; [auto with checked|intros [top h]].
  case_match; [now apply ensures_ret|]. eapply ensures_bind; [apply ensures_pop|]. intros b Hb. apply IH. now constructor.
Qed.

Lemma stays_pop_to fuel target : stays (pop_to_height init fuel target).
Proof. induction fuel as [|fuel IH]; cbn [pop_to_height]; auto 10 with checked. Qed.

Lemma stays_connect_all blocks : Forall block_wf blocks -> stays (connect_all init blocks).
Proof.
  induction 1 as [|b blocks Hb Hf IH]; cbn [connect_all]; [auto with checked|].
  apply stays_then; [eapply ensures_own, stays_add_main, Hb|intros [r bvc]]. auto with checked.
Qed.
#[local] Hint Resolve stays_pop_to : checked.

Lemma stays_rollback l h : Forall block_wf l -> stays (rollback_blockchain_switching init l h).
Proof.
  intros Hl. unfold rollback_blockchain_switching. apply stays_then; [auto with checked|intros h']. case_match; [auto with checked|].
  do 2 (apply stays_then; [auto with checked|intros ?]). now apply stays_connect_all.
Qed.

Lemma alt_known d m : db_known d -> (forall id x, m !! id = Some x -> bytes_ok x.2) -> db_known (with_alt_blocks m d).
Proof. intros [Hr Hb _ Hh] Hm. now split. Qed.

Lemma stays_drop_alt id : stays (drop_alt_block id).
Proof.
  unfold drop_alt_block. apply (ensures_bind _ _ db_known); [|intros d Hd; apply stays_modify; intros s Hs; now apply sv_writes].
  apply ensures_tries. intros s d Hs E. unfold remove_alt_block in E. destruct (m_alt_blocks (db s) !! id); [|discriminate]. injection E as <-.
  apply alt_known; [exact (sv_db _ Hs)|]. intros i x Ex. apply lookup_delete_Some in Ex as [_ Ex]. exact (dk_alt _ (sv_db _ Hs) _ _ Ex).
Qed.

Lemma stays_add_invalid bei id : stays (modify (add_block_as_invalid bei id)).
Proof. apply stays_modify. intros s Hs. unfold add_block_as_invalid. case_match; [assumption|]. eapply sv_same; [| |exact Hs]; reflexivity. Qed.
#[local] Hint Resolve stays_drop_alt stays_add_invalid : checked.

Lemma stays_invalidate_all l : stays (invalidate_all l).
Proof. induction l as [|x l IH]; cbn [invalidate_all]; auto 10 with checked. Qed.
Lemma stays_drop_all l : stays (drop_all_alt l).
Proof. induction l as [|x l IH]; cbn [drop_all_alt]; auto 10 with checked. Qed.
#[local] Hint Resolve stays_invalidate_all stays_drop_all : checked.

Definition alts_wf (l : list block_extended_info) : Prop := Forall (fun x => block_wf (bl x)) l.

Lemma stays_connect_alt l disconnected h : alts_wf l -> Forall block_wf disconnected -> stays (connect_alt init l disconnected h).
Proof.
  intros Hl Hd. induction Hl as [|x l Hx Hl IH]; cbn [connect_alt]; [auto with checked|].
  apply stays_then; [eapply ensures_own, stays_add_main, Hx|intros [r bvc]]. case_match; [assumption|].
  apply stays_then; [now apply stays_rollback|intros _]. auto with checked.
Qed.

Lemma stays_switch keep l : (forall blocks, Forall block_wf blocks -> stays (keep blocks)) -> alts_wf l -> stays (switch_with init keep l).
Proof.
  intros Hk Hl. unfold switch_with. apply stays_then; [auto with checked|intros _]. destruct l as [|front l]; [auto with checked|].
  cbv zeta. apply stays_then; [auto with checked|intros known]. destruct known; cbn [negb]; [|auto with checked].
  apply stays_then; [auto with checked|intros h]. eapply ensures_bind; [apply ensures_disconnect; constructor|]. intros disc Hd.
  apply stays_then; [auto with checked|intros split]. apply stays_then; [now apply stays_connect_alt|intros ok].
  destruct ok; cbn [negb]; [|auto with checked]. apply stays_then; [now apply Hk|intros _]. auto with checked.
Qed.

Lemma collect_wf fuel d : (forall id x, m_alt_blocks d !! id = Some x -> bytes_ok x.2) -> forall prev l ts l' ts',
  alts_wf l -> collect_alt_chain init fuel prev d l ts = Some (l', ts') -> alts_wf l'.
Proof.
  intros Ha. induction fuel as [|fuel IH]; intros prev l ts l' ts' Hl E; cbn [collect_alt_chain] in E; [now injection E as <- _|].
  destruct (get_alt_block prev d) as [[data bd]|] eqn:Eg; [|now injection E as <- _].
  destruct (maybe_block_from_blob init bd) as [b|] eqn:Eb; [|discriminate]. eapply IH; [|exact E]. constructor; [|assumption].
  cbn. exact (parse_wf _ bd _ (Ha _ _ Eg) Eb).
Qed.

Lemma build_wf prev d l ts : db_known d -> build_alt_chain init prev d = Returns (Some (l, ts)) -> alts_wf l.
Proof.
  intros Hd E. unfold build_alt_chain in E. destruct (collect_alt_chain _ _ _ _ _ _) as [[l' ts']|] eqn:Ec; [|discriminate].
  apply collect_wf in Ec; [|exact (dk_alt _ Hd)|constructor]. destruct l' as [|front l'].
  - case_match; [discriminate|]. apply result_bind_inv in E as (x & _ & E). apply result_bind_inv in E as (y & _ & E). now injection E as <- _.
  - do 2 (case_match; [discriminate|]). apply result_bind_inv in E as (x & _ & E). case_match; [discriminate|].
    apply result_bind_inv in E as (y & _ & E). apply result_bind_inv in E as (z & _ & E). now injection E as <- _.
Qed.

Lemma stays_alternative depth : forall b id, block_wf b -> stays (handle_alternative_block init depth b id).
Proof.
  assert (Hstep : forall self : block -> hash -> M bool, (forall b id, block_wf b -> stays (self b id)) -> forall blocks, Forall block_wf blocks ->
    stays ((fix keep (blocks : list block) : M unit :=
      match blocks with
      | [] => mret tt
      | old :: blocks' => old_id ← tries (fun _ => get_block_hash old (cached_size (miner_tx old))); _ ← with_own_context (self old old_id); keep blocks'
      end) blocks)).
  { intros self Hs. induction 1 as [|x l Hx Hl IH]; [auto with checked|]. apply stays_then; [auto with checked|intros i].
    apply stays_then; [eapply ensures_own, Hs, Hx|auto]. }
  induction depth as [|depth IH]; intros b id Hw; cbn [handle_alternative_block];
    (apply stays_then; [auto with checked|intros _]); (destruct (_ =? 0); [auto with checked|]); cbv zeta;
    do 2 (apply stays_then; [auto with checked|intros ?]); (destruct (_ && _); [auto with checked|]);
    (apply (ensures_bind _ _ (fun r => forall x, r = Some x -> alts_wf x.1)); [apply ensures_tries; intros s r Hs E x ->; destruct x as [l ts]; exact (build_wf _ _ _ _ (sv_db _ Hs) E)|]);
    (intros [[alt_chain ts]|] Hl; [specialize (Hl _ eq_refl); cbn in Hl|auto with checked]);
    do 2 (apply stays_then; [auto with checked|intros ?]); (destruct (check_timestamps ts b); cbn [negb]; [|auto with checked]);
    (apply stays_then; [auto with checked|intros diff]); (destruct (diff =? 0); [auto with checked|]);
    (apply stays_then; [auto with checked|intros pow]); (destruct (Difficulty.Difficulty.check_hash pow diff); cbn [negb]; [|auto with checked]); (destruct (_ && _); [auto with checked|]);
    do 3 (apply stays_then; [auto with checked|intros ?]); (apply stays_then; [auto with checked|intros [w|]]; [|auto with checked]);
    (apply stays_then; [auto with checked|intros known]); (destruct known; [auto with checked|]);
    (apply (ensures_bind _ _ bytes_ok); [apply ensures_tries; intros s bd _ E; destruct (block_blob init b Hw) as (x & Ex & Hx & _); rewrite Ex in E; injection E as <-; exact Hx|intros bd Hbd]);
    (apply stays_then; [apply stays_modify; intros s Hs; apply sv_writes; [assumption|]; apply alt_known; [exact (sv_db _ Hs)|]; intros i x Ex;
       apply lookup_insert_Some in Ex as [[_ <-]|[_ Ex]]; [exact Hbd|exact (dk_alt _ (sv_db _ Hs) _ _ Ex)]|intros _]);
    (destruct (_ <? _); [|auto with checked]); (apply stays_then; [apply stays_switch; [|apply Forall_app; split; [exact Hl|now constructor]]|intros r; auto with checked]).
  - apply (Hstep (fun _ _ => fail)). auto with checked.
  - apply (Hstep (handle_alternative_block init depth)). exact IH.
Qed.

Lemma stays_add_new_block depth b : block_wf b -> stays (add_new_block init depth b).
Proof.
  intros Hw. unfold add_new_block. apply ensures_catches; [|auto with checked]. apply stays_then; [auto with checked|intros id].
  apply stays_then; [auto with checked|intros known]. destruct known; [auto with checked|]. apply stays_then; [auto with checked|intros [top h]].
  case_match; [now apply stays_main|]. apply stays_then; [auto with checked|intros _]. now apply stays_alternative.
Qed.

Lemma stays_prepare t entries : stays (prepare_handle_incoming_blocks init t entries).
Proof.
  unfold prepare_handle_incoming_blocks. destruct entries as [|[first txs] entries]; [auto with checked|].
  apply stays_then; [auto with checked|intros started]. case_match; [auto with checked|].
  apply stays_then; [auto with checked|intros _]. apply stays_then; [auto with checked|intros skip]. destruct skip; [auto with checked|].
  apply stays_then; [auto with checked|intros [tophash h]]. destruct (maybe_block_from_blob init first) as [fb|]; [|auto with checked].
  case_match; [auto with checked|]. apply stays_then; [auto with checked|intros [blocks|]]; [|auto with checked].
  apply stays_then; [auto with checked|intros ex]. destruct ex; [auto with checked|]. do 3 (apply stays_then; [auto with checked|intros ?]).
  apply stays_then; [auto with checked|intros [l|]]; auto with checked.
Qed.

Lemma stays_cleanup t : stays (cleanup_handle_incoming_blocks t).
Proof.
  unfold cleanup_handle_incoming_blocks. apply stays_then.
  - apply ensures_catches; [|auto with checked]. apply stays_then; [auto with checked|intros good]. destruct good; [|auto with checked].
    apply stays_then; [auto with checked|intros _]. apply stays_then; [|auto with checked]. apply stays_modify. intros s Hs.
    case_match; [eapply sv_same; [| |exact Hs]; reflexivity|assumption].
  - intros success. apply stays_then; [auto with checked|intros _]. apply stays_then; [|auto with checked]. apply stays_modify. intros s Hs.
    case_match; [eapply sv_same; [| |exact Hs]; reflexivity|assumption].
Qed.

Lemma stays_flush ids : stays (flush_txes_from_pool init ids).
Proof.
  induction ids as [|i ids IH]; cbn [flush_txes_from_pool]; [auto with checked|]. apply stays_then; [auto with checked|intros here].
  apply stays_then; [|auto with checked]. destruct here; [|auto with checked]. apply stays_then; [eapply stays_any, ensures_take|auto with checked].
Qed.

(** ** The pool's own work *)

Lemma set_relayed_blobs now r hs : forall t, txpool_blob (foldl (set_relayed_one now r) t hs) = txpool_blob t.
Proof.
  induction hs as [|h hs IH]; intros t; [reflexivity|]. cbn. rewrite IH. unfold set_relayed_one, update_txpool_tx.
  repeat case_match; try reflexivity. all: simplify_eq; reflexivity.
Qed.

Lemma pv_set_relayed now hs r s : pool_verified s -> pool_verified (set_relayed now hs r s).
Proof.
  intros Hs. unfold set_relayed. apply pv_lock in Hs. destruct (lock_db s) as [s1 lock]. apply pv_commit, pv_same_blobs; [|assumption].
  intros t. apply set_relayed_blobs.
Qed.

Lemma pv_collect now c t rows : forall st st' b, for_all_rows (collect_stuck now) false c t rows st = Returns (st', b) ->
  pool_verified st.1 -> pool_verified st'.1.
Proof.
  induction rows as [|[id m] rows IH]; intros st st' b E Hs; cbn [for_all_rows] in E; [now injection E as <- _|].
  case_match; [exact (IH st _ _ E Hs)|]. cbn [mbind result_bind] in E. unfold collect_stuck at 1 in E. destruct st as [s remove].
  destruct (negb (is_stuck now m)); eapply IH; try exact E; [exact Hs|]. cbn. now apply (pv_same s).
Qed.

Lemma pv_remove_stuck l : forall s, pool_verified s -> pool_verified (foldl remove_one_stuck s l).
Proof.
  induction l as [|[id w] l IH]; intros s Hs; [assumption|]. cbn [foldl]. apply IH. unfold remove_one_stuck. cbn [fst snd].
  destruct (get_txpool_tx_blob id all (tbl s)) as [bd|]; [|assumption]. destruct (maybe_tx_prefix_from_blob bd) as [tx|]; [|assumption].
  apply pv_remove_images, (pv_same (map_db (on_tables (remove_txpool_tx id)) s)); [reflexivity|reflexivity|]. now apply pv_remove.
Qed.

Lemma pv_stuck now s s' : pool_verified s -> remove_stuck_transactions now s = Returns s' -> pool_verified s'.
Proof.
  intros Hs E. unfold remove_stuck_transactions in E. apply result_bind_inv in E as ([[s1 remove] b] & E1 & E).
  apply pv_collect in E1; [|exact Hs]. cbn [fst] in E1. destruct remove as [|x l]; [now injection E as <-|].
  pose proof (pv_lock _ E1) as Hl. destruct (lock_db s1) as [s2 lock]. cbn [fst] in Hl. injection E as <-.
  apply (pv_same (map_db (txn_commit lock) (foldl remove_one_stuck s2 (x :: l)))); [reflexivity|reflexivity|]. now apply pv_commit, pv_remove_stuck.
Qed.

(** ** Arrival *)

Context (fresh_type : type (basic init) <> RCTTypeCLSAG).

(** The data of ring signatures is not read for version 1. *)
Lemma version_1_type bd tx : bytes_ok bd -> maybe_tx_from_blob init bd = Some tx -> version (prefix tx) = 1 -> ringct tx = init.
Proof.
  intros Hb E Hv. unfold maybe_tx_from_blob in E. apply bind_Some in E as (t & Et & Ex). apply expand_same in Ex as ->.
  assert (Hw : wf (serialize_transaction init) t) by now apply (parse_wf _ bd). destruct Hw as [_ Hw]. cbn in Hw.
  unfold serialize_tx_ringct in Hw. rewrite Hv in Hw. exact Hw.
Qed.

(** An entry of a span, as it comes out of the parser and out of the batch. *)
Definition parsed_as (b : tx_blob_entry) (e : entry) : Prop := forall tx h k, e.2 = Some (tx, h, k) ->
  maybe_tx_from_blob init (te_blob b) = Some tx /\ 1 <= version (prefix tx) <= 2.
Definition passed_as (fb : bool) (b : tx_blob_entry) (e : entry) : Prop := parsed_as b e /\
  forall tx h, e.2 = Some (tx, h, false) -> semantics_ok tx fb = Returns true.

Lemma parse_entry_parsed c b : bytes_ok (te_blob b) -> parsed_as b (parse_entry init c b).
Proof.
  intros Hb tx h k E. unfold parse_entry in E. destruct (handle_incoming_ringct_pre init _ b) as [[tvc [[t th]|]]|] eqn:Ep; [| |discriminate]; [|discriminate].
  assert (Ht : tx = t) by (unfold handle_incoming_ringct_post in E; repeat case_match; cbn in E; congruence). subst t.
  unfold handle_incoming_ringct_pre in Ep. case_match; [discriminate|]. apply result_bind_inv in Ep as (r & Er & Ep).
  case_bool_decide; [|injection Er as <-; discriminate]. destruct r as [[t' th']|]; [|discriminate].
  case_match; [discriminate|]. destruct ((version (prefix t') =? 0) || _) eqn:Ev; [discriminate|]. injection Ep as _ -> ->.
  unfold parse_tx_from_blob, maybe_tx_and_hash_from_blob in Er. destruct (maybe_tx_from_blob init (te_blob b)) as [t|] eqn:Et; [|discriminate].
  apply result_bind_inv in Er as (hh & _ & Er). injection Er as -> _. split; [reflexivity|].
  apply orb_false_iff in Ev as [Ev1 Ev2]. apply Z.eqb_neq in Ev1. apply Z.ltb_ge in Ev2.
  assert (Hw : wf (serialize_transaction init) tx).
  { unfold maybe_tx_from_blob in Et. apply bind_Some in Et as (t & Et & Ex). apply expand_same in Ex as ->. now apply (parse_wf _ (te_blob b)). }
  destruct Hw as [[Hw _] _]. cbn in Hw. unfold fits in Hw. lia.
Qed.

Lemma batch_passed fb : forall bs es bad, Forall2 parsed_as bs es -> forall bad' es' ok,
  handle_incoming_ringct_accumulated_batch fb bad es = (bad', es', ok) -> ok = true -> Forall2 (passed_as fb) bs es'.
Proof.
  induction bs as [|b bs IH]; intros es bad Hf bad' es' ok E; inversion Hf as [|? e ? es0 He Hes]; subst; intros Hok.
  { injection E as _ <- _. constructor. }
  destruct e as [tvc [[[tx h] k]|]]; [destruct k|]; cbn [handle_incoming_ringct_accumulated_batch] in E.
  - destruct (handle_incoming_ringct_accumulated_batch fb bad es0) as [[bad1 es1] r] eqn:E1. injection E as <- <- <-.
    constructor; [|exact (IH _ _ Hes _ _ _ E1 Hok)]. split; [exact He|discriminate].
  - destruct (semantics_ok tx fb) as [o|] eqn:Eo; [|injection E as <- <- <-; discriminate].
    destruct o; destruct (handle_incoming_ringct_accumulated_batch fb _ es0) as [[bad1 es1] r] eqn:E1; injection E as <- <- <-;
      (constructor; [|exact (IH _ _ Hes _ _ _ E1 Hok)]).
    + split; [exact He|]. now intros ? ? [= <- <-].
    + split; [intros ? ? ?|]; discriminate.
  - destruct (handle_incoming_ringct_accumulated_batch fb bad es0) as [[bad1 es1] r] eqn:E1. injection E as <- <- <-.
    constructor; [|exact (IH _ _ Hes _ _ _ E1 Hok)]. split; [exact He|discriminate].
Qed.

Lemma sv_add_entries fb r rel bs : forall es s, state_verified s -> Forall (fun b => bytes_ok (te_blob b)) bs -> Forall2 (passed_as fb) bs es ->
  state_verified (add_entries r rel bs es s).1.1.
Proof.
  induction bs as [|b bs IH]; intros es s Hs Hb Hf; inversion Hf as [|? e ? es0 [Hp He] Hes]; subst; [assumption|].
  apply Forall_cons in Hb as [Hb Hbs]. destruct e as [tvc e]. cbn [add_entries].
  assert (Hstep : state_verified (match e with None => (s, tvc, false) | Some (_, _, true) => (s, tvc, true)
    | Some (tx, tx_hash, false) => add_new_tx tx tx_hash (te_blob b) (Z.of_nat (length (te_blob b))) tvc r rel s end).1.1).
  { destruct e as [[[tx h] k]|]; [destruct k|]; try assumption. unfold add_new_tx. do 2 (case_match; [assumption|]).
    match goal with |- context [add_tx ?n ?a ?i ?x ?w ?t ?rr ?re ?s] => destruct (add_tx n a i x w t rr re s) as [[x' tvc'] ok'] eqn:Ea end.
    cbn [fst]. apply sv_with_pool; [assumption|]. change x' with (x', tvc', ok').1.1. rewrite <- Ea. apply pv_add; [exact (sv_pool _ Hs)|].
    intros Ht. destruct (Hp tx h false eq_refl) as [Ep Hv].
    assert (Hve : verified tx).
    { apply (semantics_verified tx fb); [|exact (He tx h eq_refl)]. destruct (decide (version (prefix tx) = 1)) as [E1|]; [|lia].
      pose proof (version_1_type _ _ Hb Ep E1) as Er. rewrite Er in Ht. contradiction. }
    split; [|assumption]. split; [assumption|]. eauto. }
  destruct (match e with None => _ | Some _ => _ end) as [[s1 tvc1] ok1]. cbn [fst] in Hstep.
  specialize (IH es0 s1 Hstep Hbs Hes). destruct (add_entries r rel bs es0 s1) as [[s2 tvcs] oks]. exact IH.
Qed.

Lemma sv_incoming blobs r rel c : state_verified (storage c) -> Forall (fun b => bytes_ok (te_blob b)) blobs ->
  state_verified (storage (handle_incoming_ringcts init blobs r rel c).1.1).
Proof.
  intros Hs Hb. unfold handle_incoming_ringcts.
  assert (Hp : Forall2 parsed_as blobs (parse_entry init c <$> blobs)).
  { clear Hs. induction Hb as [|b bs Hb Hbs IH]; constructor; [now apply parse_entry_parsed|exact IH]. }
  destruct (handle_incoming_ringct_accumulated_batch _ _ _) as [[bad es] returned] eqn:E. destruct returned; cbn [negb]; [|exact Hs].
  apply (batch_passed _ blobs) in E; [|exact Hp|reflexivity].
  pose proof (sv_add_entries _ r rel blobs es (storage c) Hs Hb E) as Ha.
  destruct (add_entries r rel blobs es (storage c)) as [[s tvcs] ok]. exact Ha.
Qed.

(** ** The node *)

(** A node that starts: a genesis block, an empty pool. *)
Record node_started (c : core) : Prop := {
  ns_closed : write_txn (m_db (storage c)) = None;
  ns_genesis : exists g w lw cd cg prev, wf (serialize_block init) g /\ is_coinbase (miner_tx g) = true /\
    add_block g w lw cd cg [] empty_db = Returns (c_tables (committed (m_db (storage c))), prev);
  ns_pool : txpool_blob (tbl (m_tx_pool (storage c))) = ∅;
  ns_batch : batch (TxPool.m_db (m_tx_pool (storage c))) = None;
  ns_cache : m_parsed_tx_cache (m_tx_pool (storage c)) = ∅ }.

Lemma started_verified c : node_started c -> state_verified (storage c).
Proof.
  intros [Hw (g & w & lw & cd & cg & prev & Hg & Hc & E) Hp Hb Hx]. split.
  - eapply add_block_known; [exact E|..]; try assumption; try done.
  - intros x Ex. congruence.
  - split.
    + intros id bd Ei. unfold tbl in Hp. rewrite Hp in Ei. now rewrite lookup_empty in Ei.
    + intros t Et. congruence.
    + intros id tx Ei. rewrite Hx in Ei. now rewrite lookup_empty in Ei.
Qed.

(** What the network, the miner and the node itself ask for: transactions and blocks that arrive, a block that is found,
    blocks that are prepared and cleaned up, popped, and the upkeep of the pool. *)
Definition runs {A} (m : M A) (c : core) (bvc : block_verification_context) : core := with_storage (m (storage c, bvc)).1.1 c.

Inductive core_step (c : core) : core -> Prop :=
| step_incoming_txs blobs r relayed : Forall (fun b => bytes_ok (te_blob b)) blobs -> core_step c (handle_incoming_ringcts init blobs r relayed c).1.1
| step_incoming_block depth bd b bvc : bytes_ok bd -> (forall x, b = Some x -> wf (serialize_block init) x) ->
    core_step c (runs (handle_incoming_block init depth bd b) c bvc)
| step_block_found thread depth b bvc : wf (serialize_block init) b -> core_step c (runs (handle_block_found init thread depth b) c bvc)
| step_prepare thread entries bvc : core_step c (runs (core_prepare_handle_incoming_blocks init thread entries) c bvc)
| step_cleanup thread bvc : core_step c (runs (core_cleanup_handle_incoming_blocks thread) c bvc)
| step_pop thread n bvc : core_step c (runs (pop_blocks init thread n) c bvc)
| step_flush ids bvc : core_step c (runs (flush_txes_from_pool init ids) c bvc)
| step_flush_bad : core_step c (flush_bad_txs_cache c)
| step_relayed now hs r : core_step c (with_storage (with_pool (set_relayed now hs r (m_tx_pool (storage c))) (storage c)) c)
| step_stuck now x : remove_stuck_transactions now (m_tx_pool (storage c)) = Returns x -> core_step c (with_storage (with_pool x (storage c)) c).

Lemma stays_incoming_block depth bd b : bytes_ok bd -> (forall x, b = Some x -> wf (serialize_block init) x) -> stays (handle_incoming_block init depth bd b).
Proof.
  intros Hb Hx. unfold handle_incoming_block. apply ensures_catches; [|auto with checked].
  do 2 (apply stays_then; [auto with checked|intros ?]). case_match; [auto with checked|].
  destruct b as [b|]; [apply stays_then; [apply stays_add_new_block, Hx; reflexivity|auto with checked]|].
  destruct (maybe_block_from_blob init bd) as [b|] eqn:E; [|auto with checked].
  apply stays_then; [apply stays_add_new_block; exact (parse_wf _ bd _ Hb E)|auto with checked].
Qed.

Lemma stays_core_cleanup t : stays (core_cleanup_handle_incoming_blocks t).
Proof. apply ensures_catches; [apply stays_cleanup|auto with checked]. Qed.
#[local] Hint Resolve stays_core_cleanup stays_prepare : checked.

Lemma stays_core_prepare t entries : stays (core_prepare_handle_incoming_blocks init t entries).
Proof. unfold core_prepare_handle_incoming_blocks. auto 10 with checked. Qed.

Lemma stays_found t depth b : wf (serialize_block init) b -> stays (handle_block_found init t depth b).
Proof.
  intros Hw. unfold handle_block_found. do 2 (apply stays_then; [auto with checked|intros ?]). case_match; [|auto with checked].
  apply stays_then; [apply stays_core_prepare|intros ok]. case_match; [auto with checked|].
  apply stays_then; [now apply stays_add_new_block|intros _]. auto 20 with checked.
Qed.

Lemma sv_runs {A} (m : M A) c bvc : stays m -> state_verified (storage c) -> state_verified (storage (runs m c bvc)).
Proof. intros Hm Hs. exact (proj1 (Hm (storage c, bvc) Hs)). Qed.

Lemma core_step_verified c c' : core_step c c' -> state_verified (storage c) -> state_verified (storage c').
Proof.
  intros Hc Hs. destruct Hc; [now apply sv_incoming| | | | | | |exact Hs| |]; try (apply sv_runs; [|exact Hs]).
  - now apply stays_incoming_block.
  - now apply stays_found.
  - apply stays_core_prepare.
  - apply stays_core_cleanup.
  - apply stays_pop_blocks.
  - apply stays_flush.
  - apply sv_with_pool; [exact Hs|]. apply pv_set_relayed, (sv_pool _ Hs).
  - apply sv_with_pool; [exact Hs|]. eapply pv_stuck; [exact (sv_pool _ Hs)|eassumption].
Qed.

(** C2: The node holds only transactions whose range proof and balance it has verified.  The
    two are checked only where a transaction arrives from the network, and neither the pool nor the block chain checks them
    again; yet after any sequence of what a node does from its genesis block on (transactions and
    blocks that arrive in any order and from anyone, blocks found by its miner, blocks
    prepared, reorganisations, blocks popped, the pool pruned and flushed), every blob of the pool parses as a
    transaction of version 2 with a valid range proof and balanced commitments, and every transaction of the
    chain is such a transaction or a coinbase. *)
Theorem only_verified_transactions (c c' : core) :
  node_started c -> rtc core_step c c' ->
  (forall id bd, txpool_blob (tbl (m_tx_pool (storage c'))) !! id = Some bd -> holds_verified bd) /\
  (forall h bd, get_tx_blob h (db (storage c')) = Some bd -> holds_known bd).
Proof.
  intros Hn Hr. assert (Hs : state_verified (storage c')).
  { apply started_verified in Hn. induction Hr as [|x y z Hxy _ IH]; [assumption|]. eauto using core_step_verified. }
  split; [exact (pv_now _ (sv_pool _ Hs))|]. intros h bd E. unfold get_tx_blob in E.
  destruct (m_tx_indices (db (storage c')) !! h) as [ti|]; [|discriminate]. cbn in E.
  destruct (m_txs_pruned _ !! tx_id ti) as [x|] eqn:E0; [|discriminate]. cbn in E.
  destruct (m_txs_prunable _ !! tx_id ti) as [y|] eqn:E1; [|discriminate]. injection E as <-. exact (dk_rows _ (sv_db _ Hs) _ _ _ E0 E1).
Qed.

End Verified.
(** ** A node with two blocks *)

Section Example.
Import ModelGroup ChainSafety.
#[local] Existing Instances RollingDigest.rolling_sha3 no_shift uncached in_order fixed_difficulty slow_clock nothing_torn.

Definition null_init : rctData := ringct (miner_tx b0).
Definition genesis_tables : chain_db := match add_block b0 0 0 1 (coins_after 1) [] empty_db with Returns (d, _) => d | Throws => empty_db end.
Definition node : core :=
  {| storage := {| m_db := {| committed := {| c_tables := genesis_tables; c_max_block_size := 0; c_torn := false |}; write_txn := None;
                              write_batch_txn := None; m_batch_active := false; m_batch_transactions := true; m_writer := 0 |};
                   m_tx_pool := m_tx_pool empty_blockchain; m_invalid_blocks := ∅; dcache := dcache empty_blockchain; tabs := tabs empty_blockchain;
                   m_btc_valid := false; m_batch_success := true |};
     bad_semantics_txes := (∅, ∅) |}.
Definition blob_of (b : block) : blob := match block_to_blob b with Returns l => l | Throws => [] end.
(** A transaction that does not parse, then a block. *)
Definition junk : tx_blob_entry := {| te_blob := [1; 2; 3]; te_prunable_hash := null_hash |}.
Definition node_1 : core := (handle_incoming_ringcts null_init [junk] fluff false node).1.1.
Definition next_block : block := paid_block 1 200 (id_of b0).
Definition node_2 : core := runs (handle_incoming_block null_init 3 (blob_of next_block) None) node_1 fresh_bvc.

Lemma block_wf_by_parsing (init : rctData) b : bytes_ok (blob_of b) -> maybe_block_from_blob init (blob_of b) = Some b -> wf (serialize_block init) b.
Proof. exact (parse_wf _ _ _). Qed.

Lemma node_is_started : node_started null_init node.
Proof.
  split; try reflexivity. exists b0, 0, 0, 1, (coins_after 1). unshelve eexists; [|split; [|split]].
  - exact (match add_block b0 0 0 1 (coins_after 1) [] empty_db with Returns (_, p) => p | Throws => 0 end).
  - apply block_wf_by_parsing; [apply (bool_decide_unpack _); vm_compute; exact I|vm_cast_no_check (eq_refl (Some b0))].
  - reflexivity.
  - vm_cast_no_check (eq_refl (add_block b0 0 0 1 (coins_after 1) [] empty_db)).
Qed.

Lemma node_steps : rtc (core_step null_init) node node_2.
Proof.
  apply (rtc_l _ _ node_1); [apply step_incoming_txs; repeat constructor; unfold is_byte, fits; cbn; lia|].
  apply rtc_once, step_incoming_block; [|discriminate]. apply (bool_decide_unpack _). vm_compute. exact I.
Qed.

Definition mined_id : hash := match get_transaction_hash (miner_tx next_block) 0 with Returns h => h | Throws => [] end.
Definition mined_blob : blob := match tx_to_blob (miner_tx next_block) with Returns l => l | Throws => [] end.

Lemma mined_stored : get_tx_blob mined_id (db (storage node_2)) = Some mined_blob.
Proof. vm_cast_no_check (eq_refl (Some mined_blob)). Qed.

Lemma only_verified_transactions_witness : height (db (storage node_2)) = 2 /\ holds_known null_init mined_blob.
Proof.
  split; [vm_cast_no_check (eq_refl 2)|].
  destruct (only_verified_transactions null_init (fun d Hd => Hd) ltac:(discriminate) node node_2) as [_ Hc].
  - exact node_is_started.
  - exact node_steps.
  - exact (Hc _ _ mined_stored).
Defined.

(** A transaction with a range proof made up. *)
Definition forged : transaction := spend_with 5.
Definition forged_entry : tx_blob_entry := {| te_blob := match tx_to_blob forged with Returns l => l | Throws => [] end; te_prunable_hash := null_hash |}.
Definition forged_id : hash := match get_transaction_hash forged 0 with Returns h => h | Throws => [] end.

Lemma bad_semantics_remembered_witness : exists c', handle_incoming_ringct null_init forged_entry fluff false node = (c', raise [verifivation_failed] fresh_tvc, false) /\
  handle_incoming_ringct null_init forged_entry local true c' = (c', raise [verifivation_failed] fresh_tvc, false).
Proof.
  destruct (bad_semantics_remembered null_init forged_entry forged forged_id fluff local false true node) as (c' & E1 & _ & _ & E2).
  - apply Z.leb_le. vm_compute. reflexivity.
  - reflexivity.
  - vm_cast_no_check (eq_refl (Returns (Some (forged, forged_id)))).
  - split; apply Z.leb_le; vm_compute; reflexivity.
  - vm_compute. reflexivity.
  - vm_compute. reflexivity.
  - cbn. set_solver.
  - cbn. set_solver.
  - vm_compute. reflexivity.
  - eauto.
Defined.

End Example.
End VerifiedTxs.
