(* ===== verification/TxBuild.v ===== *)
(** The construction of a transaction by a wallet ([construct_tx_with_tx_key] of
    [src/src/cryptonote/tx/functional/tx_utils.cpp]), and the way of what it builds through the checks of a
    node. *)

From stdpp Require Import gmap sorting.
From S2P Require Import Prelude Hash Config Difficulty Varint Serialization Primality Group ModelGroup Key RctOps VectorOps InnerProduct Bulletproof BulletproofComplete Clsag RctTypes TxTypes Consensus Coinbase FormatUtils TxExtra RingCT TxUtils BlockQueue PoolTable TxPool TxPoolInv BlockTemplate ChainDb ChainDbInv LmdbTxn TxCheck Blockchain Core.

Module TxBuild.
Import PoolTable.PoolTable Config Serialization.Archive Key RctOps VectorOps Bulletproof BulletproofComplete Clsag RctTypes TxTypes Consensus Coinbase FormatUtils TxExtra RingCT TxUtils TxPool ChainDb TxCheck Core.

(** ** Permutations *)

(** Outside of the vector the element is undefined; the indices here are positions of it. *)
Definition apply_permutation {A} (indices : list nat) (xs : list A) : list A := omap (fun i => xs !! i) indices.

(** [std::sort] with [!(xs[i] < xs[j])], which is an order only if no two images are equal. *)
Definition not_less (xs : list key_image) (i j : nat) : Prop := greater_equal (nth i xs 0) (nth j xs 0) = true.
#[export] Instance not_less_dec xs i j : Decision (not_less xs i j).
Proof. unfold not_less. apply _. Defined.

Definition get_sorted_permutation (xs : list key_image) : list nat := merge_sort (not_less xs) (seq 0 (length xs)).

(** ** The transaction *)

Record tx_source_entry := {
  src_outputs : list (Z * output_public_data); real_output : nat; real_out_tx_key : public_key;
  real_out_output_secret_keys : list public_key; real_output_in_tx_index : Z; src_amount : Z; src_rct : bool; src_mask : ec_scalar }.

(** [std::nullopt], a range proof that needs more attempts, or the transaction. *)
Inductive construction := Refused | OutOfAttempts | Built (tx : transaction) (permutation : list nat).

Section Construct.
Context `{Sha3} `{Sodium} (init : rctData).

(** One turn of the loop over the sources: the key pair and the input. *)
Definition fill_input (keys : spend_view_secret_keys) (subaddresses : gmap public_key subaddress_index) (src : tx_source_entry)
    : option (keypair * txin_from_key_t) :=
  '(_, real) ← src_outputs src !! real_output src;
  '(output_key_pair, img) ← derive_with_internal_checking_output_key_pair_and_key_image keys subaddresses (output_public_key real)
      (maybeNotNull (real_out_tx_key src)) (real_out_output_secret_keys src) (real_output_in_tx_index src);
  if negb (pub output_key_pair =? output_public_key real) then None else
  Some (output_key_pair,
        {| in_amount := src_amount src; output_key_image := img;
           output_relative_offsets := absolute_output_offsets_to_relative (src_outputs src).*1 |}).

Definition input_data (src : tx_source_entry) (ctx : keypair * txin_from_key_t) : rctInputData :=
  {| i_amount := src_amount src; i_signer_sk := sec ctx.1; i_signer_blinding_factor := src_mask src;
     i_index_in_decoys := real_output src; i_decoys := (src_outputs src).*2 |}.

(** Amounts of ring-CT inputs and of outputs are hidden. *)
Definition hide_input (src : tx_source_entry) (ctx : keypair * txin_from_key_t) : txin_v :=
  let x := ctx.2 in
  txin_from_key {| in_amount := if src_rct src then 0 else in_amount x;
                   output_relative_offsets := output_relative_offsets x; output_key_image := output_key_image x |}.
Definition hide_output (o : tx_out) : tx_out := {| amount := 0; target := target o |}.

(** The second removal is dereferenced when the first one succeeded; undefined behaviour is [Throws]. The
    hash that is only logged is left out. *)
Definition construct_tx_with_tx_key (attempts : nat) (d : draws) (keys : spend_view_secret_keys) (subaddresses : gmap public_key subaddress_index)
    (sources_in : list tx_source_entry) (destinations : list tx_destination_entry) (extra : blob) (unlock_height : Z)
    (output_secret_keys : list secret_key) : result construction :=
  if (length sources_in =? 0)%nat then Returns Refused else
  match mapM (fill_input keys subaddresses) sources_in with
  | None => Returns Refused
  | Some ins_in =>
    let summary_inputs_money := foldl (fun a s => a ⊞ src_amount s) 0 sources_in in
    let permutation := get_sorted_permutation ((fun x => output_key_image x.2) <$> ins_in) in
    let ins := apply_permutation permutation ins_in in
    let sources := apply_permutation permutation sources_in in
    let maybe_new_extra := remove_field_from_tx_extra extra type_tx_public_key in
    let extra := default extra maybe_new_extra in
    if negb (length destinations =? length output_secret_keys)%nat then Returns Refused else
    match generate_outputs destinations 0 output_secret_keys [] [] [] 0 with
    | None => Returns Refused
    | Some (output_public_keys, secrets, vout, summary_outs_money) =>
      if negb (length output_public_keys =? length output_secret_keys)%nat then Returns Refused else
      let maybe_new_extra_2 := remove_field_from_tx_extra extra type_output_ecdh_public_keys in
      extra ← match maybe_new_extra, maybe_new_extra_2 with None, _ => Returns extra | Some _, Some e => Returns e | Some _, None => Throws end;
      let extra := add_output_ecdh_public_keys_to_extra extra output_public_keys in
      if summary_inputs_money <? summary_outs_money then Returns Refused else
      let amount_in := foldl (fun a s => a ⊞ src_amount s) 0 sources in
      let inputs := zip_with input_data sources ins in
      if negb (length vout =? length secrets)%nat then Returns Refused else
      let outputs := zip_with (fun o h => {| o_amount := amount o; o_ecdh_shared_secret_hashed_by_index := h |}) vout secrets in
      let amount_out := foldl (fun a o => a ⊞ amount o) 0 vout in
      let prefix := {| version := 2; unlock_height := unlock_height; vin := zip_with hide_input sources ins;
                       vout := hide_output <$> vout; extra := extra |} in
      tx_prefix_hash ← get_transaction_prefix_hash {| prefix := prefix; ringct := init |};
      rv ← generate_ringct attempts d tx_prefix_hash inputs outputs (amount_in ⊟ amount_out);
      match rv with
      | None => Returns OutOfAttempts
      | Some rv => Returns (Built {| prefix := prefix; ringct := toRctData rv |} permutation)
      end
    end
  end.

(** [construct_tx_and_get_tx_key]: one fresh secret key for each destination. *)
Definition construct_tx_and_get_tx_key (attempts : nat) (d : draws) (generate : nat -> secret_key) (keys : spend_view_secret_keys)
    (subaddresses : gmap public_key subaddress_index) (sources : list tx_source_entry) (destinations : list tx_destination_entry) (extra : blob)
    (unlock_height : Z) : result (construction * list secret_key) :=
  let output_secret_keys := generate <$> seq 0 (length destinations) in
  r ← construct_tx_with_tx_key attempts d keys subaddresses sources destinations extra unlock_height output_secret_keys;
  Returns (r, output_secret_keys).

End Construct.

(** ** The order of the inputs *)

Lemma apply_permutation_perm {A} (indices : list nat) (xs : list A) : indices ≡ₚ seq 0 (length xs) -> apply_permutation indices xs ≡ₚ xs.
Proof.
  intros Hp. unfold apply_permutation. rewrite Hp. clear Hp.
  replace (omap _ _) with xs; [reflexivity|]. induction xs as [|x xs IH]; [reflexivity|].
  change (length (x :: xs)) with (S (length xs)). rewrite <- cons_seq. cbn [omap list_omap lookup list_lookup]. f_equal.
  rewrite <- fmap_S_seq. rewrite IH at 1. generalize (seq 0 (length xs)). intros l. induction l as [|i l IH']; [reflexivity|].
  cbn. now rewrite IH'.
Qed.

Lemma apply_permutation_fmap {A B} (f : A -> B) indices xs : apply_permutation indices (f <$> xs) = f <$> apply_permutation indices xs.
Proof.
  unfold apply_permutation. induction indices as [|i l IH]; [reflexivity|]. cbn. rewrite list_lookup_fmap. destruct (xs !! i); cbn; now rewrite IH.
Qed.

Lemma permutation_is_one xs : get_sorted_permutation xs ≡ₚ seq 0 (length xs).
Proof. apply merge_sort_Permutation. Qed.

Lemma sorted_through (R : relation key_image) xs p : Forall (fun i => (i < length xs)%nat) p ->
  Sorted (fun i j => R (nth i xs 0) (nth j xs 0)) p -> Sorted R (apply_permutation p xs).
Proof.
  assert (Hn : forall i, (i < length xs)%nat -> xs !! i = Some (nth i xs 0)).
  { intros i Hi. destruct (lookup_lt_is_Some_2 xs i Hi) as [x Ex]. now rewrite (nth_lookup_Some _ _ _ _ Ex). }
  intros Hp. induction 1 as [|i p Hs IH Hh]; [constructor|]. apply Forall_cons in Hp as [Hi Hp].
  unfold apply_permutation. cbn. rewrite (Hn i Hi). constructor; [now apply IH|]. destruct Hh as [|j p Hij]; [constructor|].
  apply Forall_cons in Hp as [Hj _]. cbn. rewrite (Hn j Hj). now constructor.
Qed.

Lemma key_rank_inj x y : fits 256 x -> fits 256 y -> key_rank x = key_rank y -> x = y.
Proof.
  intros Hx Hy E. unfold key_rank in E. unfold data_blob in E.
  assert (Hd : le_bytes 32 x = le_bytes 32 y).
  { rewrite <- (be_digits_val 256 ltac:(lia) (le_bytes 32 x)), <- (be_digits_val 256 ltac:(lia) (le_bytes 32 y)) by apply le_bytes_ok.
    now rewrite E, !length_le_bytes. }
  rewrite <- (le_Z_bytes_small 32 x), <- (le_Z_bytes_small 32 y) by assumption. now rewrite Hd.
Qed.

#[export] Instance not_less_total xs : Total (not_less xs).
Proof. intros i j. unfold not_less. rewrite !greater_equal_rank, !Z.leb_le. lia. Qed.

(** The inputs leave in the order that rule 18 asks for. *)
Lemma sorted_images xs : NoDup xs -> Forall (fits 256) xs ->
  rule_18_ringct_input_key_images_should_be_sorted (apply_permutation (get_sorted_permutation xs) xs) = true.
Proof.
  intros Hn Hf. pose proof (apply_permutation_perm _ xs (permutation_is_one xs)) as Hp.
  assert (Hs : Sorted (fun x y => greater_equal x y = true) (apply_permutation (get_sorted_permutation xs) xs)).
  { apply sorted_through.
    - rewrite permutation_is_one. apply Forall_seq. lia.
    - apply (Sorted_merge_sort (not_less xs)). }
  revert Hp Hs. generalize (apply_permutation (get_sorted_permutation xs) xs). intros ys Hp Hs.
  rewrite <- Hp in Hn, Hf. clear Hp. unfold rule_18_ringct_input_key_images_should_be_sorted.
  induction Hs as [|x ys Hs IH Hh]; [reflexivity|]. apply NoDup_cons in Hn as [Hx Hn]. apply Forall_cons in Hf as [Fx Hf].
  specialize (IH Hn Hf). destruct Hh as [|y ys Hxy]; [reflexivity|]. cbn [is_sorted_by] in *. rewrite IH, andb_true_r.
  rewrite greater_equal_rank in *. apply Z.leb_le in Hxy. apply negb_true_iff, Z.leb_gt.
  apply Forall_cons in Hf as [Fy _]. destruct (decide (key_rank x = key_rank y)) as [E|]; [|lia].
  apply key_rank_inj in E as ->; [|assumption..]. exfalso. apply Hx. constructor.
Qed.

(** ** What the node receives *)

Section Received.
Context `{UndefinedShift} (init : rctData).

(** The message, the rings and the key images of the signatures are not sent: the parser leaves those of the fresh
    object. *)
Definition unsent_images (n : nat) (cs : list clsag_unsafe) : list clsag_unsafe :=
  zip_with (fun c0 c => with_signer_key_image (u_signer_key_image c0) c) (resize n no_clsag (CLSAGs (p init))) cs.

Definition unsent_basic (b : rctDataBasic) : rctDataBasic := with_decoys (decoys (basic init)) (with_message (message (basic init)) b).

Definition received (tx : transaction) : transaction :=
  with_ringct {| basic := unsent_basic (basic (ringct tx));
                 p := with_CLSAGs (unsent_images (length (vin (prefix tx))) (CLSAGs (p (ringct tx)))) (p (ringct tx)) |} tx.

Lemma save_base_unsent i n m b : save (serialize_rctsig_base i n m) (unsent_basic b) = save (serialize_rctsig_base i n m) b.
Proof.
  unfold serialize_rctsig_base. cbn [save serialize_as serialize_dep fst snd unsent_basic with_decoys with_message type fee ecdh_encrypted_data output_commits].
  destruct (type b =? RCTTypeNull); [reflexivity|]. destruct (negb (type b =? RCTTypeCLSAG)); reflexivity.
Qed.

Lemma save_each_unsent mixin cs0 : forall cs, length cs0 = length cs ->
  save_each (serialize_clsag mixin <$> cs0) (zip_with (fun c0 c => with_signer_key_image (u_signer_key_image c0) c) cs0 cs) =
  save_each (serialize_clsag mixin <$> cs0) cs.
Proof.
  induction cs0 as [|c0 cs0 IH]; intros [|c cs] E; try discriminate; [reflexivity|]. cbn [zip_with fmap list_fmap save_each].
  injection E as E. change (list_fmap _ _ ?f cs0) with (f <$> cs0). rewrite IH by assumption. reflexivity.
Qed.

Lemma save_prunable_unsent t n m mixin q : length (CLSAGs q) = n ->
  save (serialize_ringct_prunable (p init) t n m mixin) (with_CLSAGs (unsent_images n (CLSAGs q)) q) =
  save (serialize_ringct_prunable (p init) t n m mixin) q.
Proof.
  intros E. unfold serialize_ringct_prunable. repeat case_match; try reflexivity.
  cbn [save serialize_as serialize_pair serialize_custom_vector fst snd with_CLSAGs bulletproofs CLSAGs pseudo_input_commits].
  unfold unsent_images. rewrite save_each_unsent by now rewrite length_resize. reflexivity.
Qed.

Lemma received_blob tx : length (CLSAGs (p (ringct tx))) = length (vin (prefix tx)) -> version (prefix tx) <> 1 -> vin (prefix tx) <> [] ->
  tx_to_blob (received tx) = tx_to_blob tx.
Proof.
  intros E Hv Hi. unfold tx_to_blob, t_serializable_object_to_blob, maybe_to_blob, dump_binary, tx_archive.
  rewrite (save_transaction_init _ init), (save_transaction_init (ringct tx) init).
  unfold serialize_transaction, serialize_tx_ringct. cbn [save serialize_as serialize_dep fst snd received with_ringct prefix ringct].
  rewrite (proj2 (Z.eqb_neq _ _) Hv). destruct (vin (prefix tx)) eqn:Ev; [contradiction|]. rewrite <- Ev.
  cbn [save serialize_as serialize_dep fst snd basic p]. rewrite save_base_unsent.
  cbn [unsent_basic with_decoys with_message type]. destruct (negb (type (basic (ringct tx)) =? RCTTypeNull)); [|reflexivity].
  rewrite Ev in *. now rewrite save_prunable_unsent.
Qed.

Lemma restore_images (xs : list txin_from_key_t) cs : forall cs0, length cs0 = length cs -> u_signer_key_image <$> cs = output_key_image <$> xs ->
  zip_with (fun x c => with_signer_key_image (output_key_image x) c) xs
    (zip_with (fun c0 c => with_signer_key_image (u_signer_key_image c0) c) cs0 cs) = cs.
Proof.
  revert xs. induction cs as [|c cs IH]; intros [|x xs] [|c0 cs0] E0 Ek; try discriminate; [reflexivity|]. cbn in *.
  injection E0 as E0. injection Ek as Ek1 Ek. rewrite IH by assumption. f_equal. destruct c. cbn in *. unfold with_signer_key_image. cbn. now rewrite <- Ek1.
Qed.

(** The node fills them in again. *)
Lemma received_expands tx h pubkeys xs : version (prefix tx) = 2 -> vin (prefix tx) = txin_from_key <$> xs -> type (basic (ringct tx)) = RCTTypeCLSAG ->
  message (basic (ringct tx)) = h -> decoys (basic (ringct tx)) = pubkeys -> head pubkeys <> Some [] -> pubkeys <> [] ->
  u_signer_key_image <$> CLSAGs (p (ringct tx)) = output_key_image <$> xs ->
  expand_transaction_2 (received tx) h pubkeys = Returns (tx, true).
Proof.
  intros Ev Ei Et Em Ed Hh Hp Ek. unfold expand_transaction_2, received. cbn [with_ringct prefix ringct basic p].
  rewrite Ev. cbn [Z.eqb negb]. change (negb (2 =? 2)) with false. cbv iota.
  cbn [unsent_basic with_decoys with_message type decoys]. rewrite Et, Z.eqb_refl. cbn [negb].
  assert (El : length xs = length (CLSAGs (p (ringct tx)))).
  { apply (f_equal length) in Ek. now rewrite !length_fmap in Ek. }
  destruct pubkeys as [|[|k ks] pk]; [contradiction|contradiction|].
  cbn [with_CLSAGs CLSAGs]. rewrite Ei. unfold unsent_images. rewrite length_zip_with, length_resize, !length_fmap, El, Nat.min_id, Nat.eqb_refl. cbn [negb].
  assert (Em' : result_mapM get_from_key (txin_from_key <$> xs) = Returns xs).
  { clear. induction xs as [|x xs IH]; [reflexivity|]. cbn. now rewrite IH. }
  rewrite Em'. cbn [mbind result_bind]. f_equal. f_equal. destruct tx as [pre [b q]]. unfold with_ringct. cbn in *. f_equal. f_equal.
  - destruct b. cbn in *. now subst.
  - destruct q as [bp cs ps]. unfold with_CLSAGs. cbn in *. f_equal.
    apply restore_images; [apply length_resize|assumption].
Qed.

End Received.

(** ** The checks of the node succeed *)

Section Accepting.
Context `{Sodium} `{Sha3} `{UndefinedShift} `{Schedule} (d : chain_db) (m_scan_table : scan_table_t).

Lemma all_keys_found amount offs : forall os, Forall2 (is_output d amount) offs os -> get_all_output_keys d amount offs = Some os.
Proof.
  intros os F. unfold get_all_output_keys.
  assert (E : get_output_keys amount offs true d = Returns os).
  { induction F as [|i o offs os Hi F IH]; [reflexivity|]. cbn. unfold is_output, get_output_key in Hi.
    destruct (find_output amount i d); [|discriminate]. injection Hi as <-. now rewrite IH. }
  rewrite E, (Forall2_length _ _ _ F), Nat.eqb_refl. reflexivity.
Qed.

Lemma collect_outputs_found x h os : Forall2 (is_output d (in_amount x)) (ring_indices x) os ->
  exists outs, collect_outputs d m_scan_table x h (ring_indices x) = Some outs.
Proof.
  intros F. unfold collect_outputs. destruct (m_scan_table !! h ≫= _) as [l|]; [|eauto using all_keys_found].
  case_match; [|eauto]. rewrite (all_keys_found _ _ (drop (length l) os)); [cbn; eauto|]. now apply Forall2_drop.
Qed.

Lemma scan_loop_found amount outs offs : forall os count keys pmax,
  (forall j i o, offs !! j = Some i -> outs !! (count + j)%nat = Some o -> is_output d amount i o) ->
  Forall2 (is_output d amount) offs os -> Forall (fun o => is_tx_spendtime_unlocked d (od_unlock_height o) = true) os ->
  scan_loop d amount outs offs count keys pmax = (true, keys ++ (member <$> os), max_last os pmax).
Proof.
  induction offs as [|i offs IH]; intros os count keys pmax Ho F U; inversion F as [|? o ? os' Hi F']; subst.
  { cbn. now rewrite app_nil_r. }
  apply Forall_cons in U as [Uo U]. cbn [scan_loop].
  assert (Eo : (match outs !! count with Some o => Returns o | None => get_output_key d amount i end) = Returns o).
  { destruct (outs !! count) as [o'|] eqn:Ec; [|exact Hi]. specialize (Ho 0%nat i o' eq_refl). rewrite Nat.add_0_r in Ho.
    specialize (Ho Ec). unfold is_output in *. congruence. }
  rewrite Eo. unfold handle_output. rewrite Uo. cbn [negb]. rewrite (IH os').
  - rewrite <- app_assoc. f_equal. destruct F'; [|reflexivity]. cbn. destruct (Z.ltb_spec pmax (od_height o)); unfold max_last; cbn; lia.
  - intros j i' o' Hj Hj'. apply (Ho (S j)); [assumption|]. now rewrite Nat.add_succ_r.
  - assumption.
  - assumption.
Qed.

Lemma check_ringct_input_found x h pmax os : scan_agrees d m_scan_table h x -> ring_of d x os -> output_relative_offsets x <> [] ->
  check_ringct_input d m_scan_table x h pmax = (true, member <$> os, max_last os pmax).
Proof.
  intros Ha [F U] Hn. unfold check_ringct_input, scan_outputkeys_for_indexes.
  rewrite (proj2 (Nat.eqb_neq _ _)) by (destruct (output_relative_offsets x); [contradiction|discriminate]).
  destruct (collect_outputs_found x h os F) as [outs Eo]. unfold ring_indices in Eo. rewrite Eo.
  rewrite (scan_loop_found _ _ _ os); [|intros j i o Hi Ho|exact F|exact U].
  - cbn [negb app]. rewrite length_fmap, <- (Forall2_length _ _ _ F). unfold ring_indices. now rewrite length_absolute, Nat.eqb_refl.
  - cbn in Ho. pose proof (lookup_lt_Some _ _ _ Ho) as Hl. apply collect_outputs_spec in Eo; [|assumption].
    destruct (Forall2_lookup_r _ _ _ _ _ Eo Ho) as (i' & Hi' & Hio).
    rewrite lookup_take_lt in Hi' by assumption. unfold ring_indices in Hi'. congruence.
Qed.

Lemma check_each_found h xs rings : Forall2 (ring_of d) xs rings -> (forall x, x ∈ xs -> scan_agrees d m_scan_table h x) ->
  Forall (fun x => output_relative_offsets x <> []) xs -> Forall (fun x => output_key_image x ∉ m_spent_keys d) xs ->
  forall tvc pmax pubkeys, exists pmax', check_each_input d m_scan_table (txin_from_key <$> xs) h tvc pmax pubkeys =
    (true, tvc, pmax', pubkeys ++ (ring_keys <$> rings)) /\ pmax <= pmax' /\
    forall n, pmax <= n -> Forall (fun os => max_last os 0 <= n) rings -> pmax' <= n.
Proof.
  induction 1 as [|x os xs rings Hr _ IH]; intros Ha Hn Hu tvc pmax pubkeys.
  { exists pmax. cbn. rewrite app_nil_r. split_and!; auto; lia. }
  apply Forall_cons in Hn as [Hx Hn]. apply Forall_cons in Hu as [Ux Hu]. cbn [fmap list_fmap check_each_input].
  rewrite (proj2 (Nat.eqb_neq _ _)) by (destruct (output_relative_offsets x); [contradiction|discriminate]).
  unfold have_tx_keyimg_as_spent, has_output_key_image. rewrite bool_decide_false by assumption.
  rewrite (check_ringct_input_found x h pmax os) by (auto; apply Ha; constructor). cbn [negb].
  destruct (IH ltac:(intros y Hy; apply Ha; now constructor) Hn Hu tvc (max_last os pmax) (pubkeys ++ [ring_keys os])) as (pmax' & E & Hle0 & Hp).
  exists pmax'. split_and!; [change (member <$> os) with (ring_keys os); change (list_fmap _ _ txin_from_key xs) with (txin_from_key <$> xs); rewrite E; f_equal; now rewrite <- app_assoc|unfold max_last in Hle0; destruct (last os); lia|].
  intros n Hle [Ho Hall]%Forall_cons. apply Hp; [|assumption]. unfold max_last in *. destruct (last os); lia.
Qed.

Lemma mixin_range_same n xs : xs <> [] -> Forall (fun x => length (output_relative_offsets x) = n) xs -> (0 < n)%nat -> Z.of_nat n < 2 ^ 64 ->
  mixin_range (txin_from_key <$> xs) = (Z.of_nat n - 1, Z.of_nat n - 1).
Proof.
  intros Hx Hf Hn Hb. unfold mixin_range. set (f := fun '(lo, hi) i => _).
  assert (Es : Z.of_nat n ⊟ 1 = Z.of_nat n - 1) by (apply u64_sub_small; unfold fits; lia).
  assert (Hstep : forall x lo hi, length (output_relative_offsets x) = n -> Z.of_nat n - 1 <= lo -> hi <= Z.of_nat n - 1 ->
    f (lo, hi) (txin_from_key x) = (Z.of_nat n - 1, Z.of_nat n - 1)).
  { intros x lo hi E Hlo Hhi. unfold f. rewrite E, Es. cbv zeta.
    destruct (Z.ltb_spec (Z.of_nat n - 1) lo), (Z.ltb_spec hi (Z.of_nat n - 1)); f_equal; lia. }
  assert (Hrest : forall l, Forall (fun x => length (output_relative_offsets x) = n) l ->
    foldl f (Z.of_nat n - 1, Z.of_nat n - 1) (txin_from_key <$> l) = (Z.of_nat n - 1, Z.of_nat n - 1)).
  { induction 1 as [|y l Hy _ IH]; [reflexivity|]. cbn [fmap list_fmap foldl]. rewrite Hstep by (assumption || lia). exact IH. }
  destruct Hf as [|x xs E Hf]; [contradiction|]. cbn [fmap list_fmap foldl]. rewrite Hstep; [now apply Hrest|assumption|unfold u64_max; lia|lia].
Qed.

(** The converse of [accepted_inputs_sound]. *)
Lemma inputs_found init tx h xs rings tvc rv :
  (forall n, schedule n ≡ₚ seq 0 n) -> vin (prefix tx) = txin_from_key <$> xs -> xs <> [] ->
  get_transaction_prefix_hash tx = Returns h -> (2 <= length (vout (prefix tx)))%nat -> version (prefix tx) = 2 ->
  Forall (fun x => length (output_relative_offsets x) = 32%nat) xs ->
  rule_18_ringct_input_key_images_should_be_sorted (output_key_image <$> xs) = true ->
  (forall x, x ∈ xs -> scan_agrees d m_scan_table h x) -> Forall2 (ring_of d) xs rings ->
  Forall (fun x => output_key_image x ∉ m_spent_keys d) xs ->
  Forall (fun os => max_last os 0 + CRYPTONOTE_DEFAULT_TX_SPENDABLE_AGE <= height d) rings -> CRYPTONOTE_DEFAULT_TX_SPENDABLE_AGE <= height d < 2 ^ 64 ->
  ringct tx = toRctData rv -> maybeSizeCheckedRctData (ringct tx) = Some rv -> message (sc_basic rv) = h -> decoys (sc_basic rv) = ring_keys <$> rings ->
  u_signer_key_image <$> sc_CLSAGs rv = output_key_image <$> xs ->
  verify_clsag_signatures (schedule (length (decoys (sc_basic rv)))) rv = true ->
  exists pmax, check_inputs d m_scan_table (received init tx) tvc = Returns (true, tx, tvc, pmax).
Proof.
  intros Hsch Ei Hx Eh Ho Ev Hl H18 Ha Hr Hu Hage Hh Er Esc Em Ed Ek Hver.
  destruct (check_each_found h xs rings Hr Ha) with (tvc := tvc) (pmax := 0) (pubkeys := @nil (list output_public_data)) as (pmax & Ee & Hpos & Hp).
  { eapply Forall_impl; [exact Hl|]. cbn. intros x El E. rewrite E in El. discriminate. } { exact Hu. }
  assert (Ht : type (basic (ringct tx)) = RCTTypeCLSAG).
  { unfold maybeSizeCheckedRctData in Esc. destruct (Z.eqb_spec (type (basic (ringct tx))) RCTTypeCLSAG); [assumption|discriminate]. }
  assert (Hlen : length xs = length rings) by exact (Forall2_length _ _ _ Hr).
  assert (Hp0 : pmax + CRYPTONOTE_DEFAULT_TX_SPENDABLE_AGE <= height d).
  { assert (pmax <= height d - CRYPTONOTE_DEFAULT_TX_SPENDABLE_AGE); [|lia]. apply Hp; [lia|]. eapply Forall_impl; [exact Hage|]. cbn. lia. }
  exists pmax. unfold check_inputs. replace (get_transaction_prefix_hash (received init tx)) with (Returns h) by (symmetry; exact Eh).
  cbn [mbind result_bind received with_ringct prefix]. unfold rule_21_ringct_should_have_at_least_two_outputs.
  rewrite (proj2 (Nat.leb_le _ _) Ho), Ei, (mixin_range_same 32 xs) by (assumption || lia). cbn [negb Z.eqb].
  change (negb (Z.of_nat 32 - 1 =? Z.of_nat 32 - 1)) with false. change (negb (Z.of_nat 32 - 1 =? mixin)) with false. cbv iota.
  rewrite Ev. change (tx_version <? 2) with false. change (2 <? tx_version) with false. cbv iota.
  rewrite get_from_key_all. cbn [mbind result_bind]. rewrite H18. cbn [negb]. rewrite Ee. cbn [negb app].
  destruct (Z.ltb_spec (height d) (pmax ⊞ CRYPTONOTE_DEFAULT_TX_SPENDABLE_AGE)) as [Hlt|_].
  { rewrite u64_add_small in Hlt by (unfold fits, CRYPTONOTE_DEFAULT_TX_SPENDABLE_AGE in *; lia). lia. }
  rewrite (received_expands init tx h (ring_keys <$> rings) xs Ev Ei Ht).
  - cbn [mbind result_bind negb]. unfold check_signatures. rewrite Ht, Z.eqb_refl, Ei. cbn [negb].
    rewrite Er. cbn [toRctData basic p CLSAGs]. rewrite Ed, bool_decide_true by reflexivity. cbn [negb].
    assert (El : length (sc_CLSAGs rv) = length xs) by (apply (f_equal length) in Ek; now rewrite !length_fmap in Ek).
    rewrite El, length_fmap, Nat.eqb_refl, get_from_key_all. cbn [negb mbind result_bind]. rewrite Ek, bool_decide_true by reflexivity. cbn [negb].
    rewrite <- Er, Esc, <- Ed, Hver. reflexivity.
  - rewrite Er. exact Em.
  - rewrite Er. exact Ed.
  - destruct Hr as [|x os xs' rings' [F _]]; [contradiction|]. cbn. intros E. injection E as E. apply (f_equal length) in E.
    unfold ring_keys in E. rewrite length_fmap, <- (Forall2_length _ _ _ F) in E. unfold ring_indices in E. rewrite length_absolute in E.
    apply Forall_cons in Hl as [Hl _]. rewrite Hl in E. discriminate.
  - destruct rings; [destruct xs; [contradiction|discriminate]|discriminate].
  - rewrite Er. exact Ek.
Qed.

End Accepting.

(** ** The wallet's part *)

Section Destinations.
Context `{HL : Sha3Laws} `{SL : SodiumLaws}.

Definition shared_of (dst : tx_destination_entry) (sk : secret_key) : ecdh_shared_secret :=
  derive_tx_output_ecdh_shared_secret (m_view_public_key (dst_addr dst)) sk.
Definition secret_of (dst : tx_destination_entry) (i : nat) (sk : secret_key) : ec_scalar :=
  hash_tx_output_shared_secret_to_scalar (shared_of dst sk) (Z.of_nat i).

(** A payment that somebody can receive: the spend key of the address has a secret key, and no hash is zero. *)
Record dest_ok (dst : tx_destination_entry) (i : nat) (sk : secret_key) : Prop := {
  do_amount : fits 64 (dst_amount dst);
  do_key : secret_ok sk;
  do_hash : secret_ok (secret_of dst i sk);
  do_mask : secret_ok (get_blinding_factor_from_hashed_shared_secret (secret_of dst i sk));
  do_owner : exists y, m_spend_public_key (dst_addr dst) = to_pk y /\ secret_ok y /\
    compute_output_secret_key_from_subaddress_spend_sk (shared_of dst sk) (Z.of_nat i) y <> 0 }.

(** What an output hides. *)
Definition payment (sks : list secret_key) (i : nat) (dst : tx_destination_entry) : rctOutputData :=
  {| o_amount := dst_amount dst; o_ecdh_shared_secret_hashed_by_index := secret_of dst i (nth i sks 0) |}.

Lemma generate_outputs_ok sks dests : forall i keys secrets vout total,
  (forall k dst, dests !! k = Some dst -> dest_ok dst (i + k) (nth (i + k) sks 0)) ->
  exists keys' vout', generate_outputs dests i sks keys secrets vout total =
      Some (keys ++ keys', secrets ++ imap (fun k dst => secret_of dst (i + k) (nth (i + k) sks 0)) dests, vout ++ vout',
            foldl u64_add total (dst_amount <$> dests)) /\
    length keys' = length dests /\ Forall (fits 256) keys' /\ amount <$> vout' = dst_amount <$> dests /\
    Forall (fun o => exists k, target o = txout_to_key k /\ safe k) vout'.
Proof using HL SL.
  induction dests as [|dst dests IH]; intros i keys secrets vout total Hd.
  { exists [], []. cbn. rewrite !app_nil_r. split_and!; try reflexivity; constructor. }
  pose proof (Hd 0%nat dst eq_refl) as Hdst. rewrite Nat.add_0_r in Hdst. destruct Hdst as [Ha Hk Hh Hm (y & Ey & Hy & Hne)].
  destruct (output_key_recovered (shared_of dst (nth i sks 0)) (Z.of_nat i) y Hy Hh Hne) as [Eo _].
  cbn [generate_outputs]. unfold generate_output_key_pairs. cbn [sec pub]. fold (shared_of dst (nth i sks 0)). rewrite Ey, Eo. cbn [mbind option_bind].
  match goal with |- context [generate_outputs dests (S i) sks (keys ++ [?a]) (secrets ++ [?b]) (vout ++ [?o]) ?t] =>
    destruct (IH (S i) (keys ++ [a]) (secrets ++ [b]) (vout ++ [o]) t) as (keys' & vout' & E & El & Hf & Eam & Ht);
      [|exists (a :: keys'), (o :: vout'); assert (Hpub : fits 256 a)] end.
  - intros k x Ex. replace (S i + k)%nat with (i + S k)%nat by lia. now apply Hd.
  - destruct (dst_is_subaddress dst).
    + rewrite (to_pk_enc y Hy), mult_enc by (exact (proj1 Hk) || (right; now apply secret_nonzero)). apply enc_fits.
    + rewrite to_pk_enc by exact Hk. apply enc_fits.
  - rewrite E. split_and!; [|cbn; now rewrite El|now constructor|cbn; now rewrite Eam|].
    + rewrite <- !app_assoc. cbn [app imap foldl fmap list_fmap]. rewrite Nat.add_0_r.
      erewrite (imap_ext (_ ∘ S)); [reflexivity|]. intros k x _. cbn. now rewrite Nat.add_succ_r.
    + constructor; [|assumption]. eexists. split; [reflexivity|]. exact (output_key_safe _ _ y Hy Hh Hne).
Qed.

End Destinations.

(** ** Outputs that can be spent *)

Section Spending.
Context `{HL : Sha3Laws} `{SL : SodiumLaws}.
Context (d : chain_db) (keys : spend_view_secret_keys) (subaddresses : gmap public_key subaddress_index).

(** A source with the secret key of its real output and the rows of its ring. *)
Record spend := { sp_src : tx_source_entry; sp_key : secret_key; sp_ring : list output_data_t }.

(** The wallet finds the real output as its own and knows what it commits to; the ring is 32 outputs of the chain in ascending order,
    unlocked, the last one old enough; the output is not spent. *)
Record spend_ok (e : spend) : Prop := {
  so_rct : src_rct (sp_src e) = true;
  so_amount : fits 64 (src_amount (sp_src e));
  so_key : secret_ok (sp_key e);
  so_mask : secret_ok (src_mask (sp_src e));
  so_point : is_safe_point (hash_to_point_via_field (to_pk (sp_key e))) = true;
  so_real : snd <$> src_outputs (sp_src e) !! real_output (sp_src e) =
    Some {| output_public_key := to_pk (sp_key e); decoy_commit := commit (src_amount (sp_src e)) (src_mask (sp_src e)) |};
  so_found : derive_with_internal_checking_output_key_pair_and_key_image keys subaddresses (to_pk (sp_key e))
      (maybeNotNull (real_out_tx_key (sp_src e))) (real_out_output_secret_keys (sp_src e)) (real_output_in_tx_index (sp_src e)) =
    Some ({| sec := sp_key e; pub := to_pk (sp_key e) |}, derive_key_image (sp_key e));
  so_size : length (src_outputs (sp_src e)) = 32%nat;
  so_fits : Forall (fits 64) (src_outputs (sp_src e)).*1;
  so_order : StronglySorted Z.lt (src_outputs (sp_src e)).*1;
  so_ring : Forall2 (fun x o => is_output d 0 x.1 o /\ member o = x.2) (src_outputs (sp_src e)) (sp_ring e);
  so_unlocked : Forall (fun o => is_tx_spendtime_unlocked d (od_unlock_height o) = true) (sp_ring e);
  so_age : max_last (sp_ring e) 0 + CRYPTONOTE_DEFAULT_TX_SPENDABLE_AGE <= height d;
  so_unspent : derive_key_image (sp_key e) ∉ m_spent_keys d }.

(** The input of the transaction, before and after its amount is hidden. *)
Definition ctx_of (e : spend) : keypair * txin_from_key_t :=
  ({| sec := sp_key e; pub := to_pk (sp_key e) |},
   {| in_amount := src_amount (sp_src e); output_relative_offsets := absolute_output_offsets_to_relative (src_outputs (sp_src e)).*1;
      output_key_image := derive_key_image (sp_key e) |}).
Definition input_of (e : spend) : txin_from_key_t :=
  {| in_amount := 0; output_relative_offsets := absolute_output_offsets_to_relative (src_outputs (sp_src e)).*1;
     output_key_image := derive_key_image (sp_key e) |}.

Lemma fill_input_ok e : spend_ok e -> fill_input keys subaddresses (sp_src e) = Some (ctx_of e).
Proof.
  intros He. unfold fill_input. pose proof (so_real e He) as Hr. destruct (src_outputs (sp_src e) !! real_output (sp_src e)) as [[gi m]|]; [|discriminate].
  injection Hr as ->. cbn [mbind option_bind output_public_key]. rewrite (so_found e He). cbn [mbind option_bind pub]. now rewrite Z.eqb_refl.
Qed.

Lemma fill_inputs_ok es : Forall spend_ok es -> mapM (fill_input keys subaddresses) (sp_src <$> es) = Some (ctx_of <$> es).
Proof. induction 1 as [|e es He _ IH]; [reflexivity|]. cbn. now rewrite fill_input_ok, IH. Qed.

Lemma hidden_input e : spend_ok e -> hide_input (sp_src e) (ctx_of e) = txin_from_key (input_of e).
Proof. intros He. unfold hide_input, ctx_of. cbn [snd]. now rewrite (so_rct e He). Qed.

Lemma sorted_offsets e : spend_ok e -> merge_sort Z.le (src_outputs (sp_src e)).*1 = (src_outputs (sp_src e)).*1.
Proof.
  intros He. apply (Sorted_unique Z.le).
  - apply Sorted_merge_sort. apply _.
  - apply StronglySorted_Sorted. induction (so_order e He) as [|x l Hs IH Hx]; constructor; [assumption|]. eapply Forall_impl; [exact Hx|]. cbn. lia.
  - apply merge_sort_Permutation.
Qed.

Lemma relative_nonzero l : forall prev, fits 64 prev -> Forall (fits 64) l -> StronglySorted Z.lt (prev :: l) ->
  length (relative_loop prev l) = length l /\ Forall (fits 64) (relative_loop prev l) /\ forallb (fun x => negb (x =? 0)) (relative_loop prev l) = true.
Proof.
  induction l as [|x l IH]; intros prev Hp Hf Hs; [now split_and!; [|constructor|]|]. apply Forall_cons in Hf as [Hx Hf].
  apply StronglySorted_inv in Hs as [Hs Hlt]. apply Forall_cons in Hlt as [Hlt _]. cbn [relative_loop].
  destruct (IH x Hx Hf Hs) as (El & Fl & Nl). unfold fits in *.
  assert (E : x ⊟ prev = x - prev) by (apply u64_sub_small; unfold fits; lia). rewrite E.
  split_and!; [cbn; now rewrite El|constructor; [lia|assumption]|]. cbn [forallb]. rewrite Nl, andb_true_r. apply negb_true_iff, Z.eqb_neq. lia.
Qed.

Lemma offsets_ok e : spend_ok e -> length (output_relative_offsets (input_of e)) = 32%nat /\ Forall (fits 64) (output_relative_offsets (input_of e)) /\
  rule_7_ringct_input_decoys_offsets_should_not_be_zero_except_the_first_one (output_relative_offsets (input_of e)) = true /\
  ring_indices (input_of e) = (src_outputs (sp_src e)).*1.
Proof.
  intros He. pose proof (so_fits e He) as Hf. pose proof (so_order e He) as Hs. pose proof (so_size e He) as Hl.
  destruct (ring_offsets_roundtrip _ Hf) as [Er _]. rewrite (sorted_offsets e He) in Er. unfold ring_indices. cbn [input_of output_relative_offsets].
  rewrite Er. unfold absolute_output_offsets_to_relative. rewrite (sorted_offsets e He). rewrite <- (length_fmap fst) in Hl.
  destruct (src_outputs (sp_src e)).*1 as [|x l]; [discriminate|]. apply Forall_cons in Hf as [Hx Hf].
  destruct (relative_nonzero l x Hx Hf Hs) as (El & Fl & Nl). cbn [length] in *. rewrite El. split_and!; [assumption|now constructor|exact Nl|reflexivity].
Qed.

Lemma ring_of_input e : spend_ok e -> ring_of d (input_of e) (sp_ring e) /\ ring_keys (sp_ring e) = (src_outputs (sp_src e)).*2.
Proof.
  intros He. destruct (offsets_ok e He) as (_ & _ & _ & Ei). unfold ring_of. rewrite Ei. cbn [input_of in_amount]. pose proof (so_ring e He) as Hr.
  split; [split; [|exact (so_unlocked e He)]|].
  - apply Forall2_fmap_l. eapply Forall2_impl; [exact Hr|]. now intros x o [Ho _].
  - clear Ei. unfold ring_keys. induction Hr as [|x o xs os [_ Hm] _ IH]; [reflexivity|]. rewrite !fmap_cons, Hm. f_equal. exact IH.
Qed.

End Spending.

(** ** Amounts and the extra field *)

Lemma u64_total {A} (f : A -> Z) l : 0 <= sumZ (f <$> l) < 2 ^ 64 -> foldl (fun a x => a ⊞ f x) 0 l = sumZ (f <$> l).
Proof.
  intros Hs. replace (foldl _ 0 l) with (foldl u64_add 0 (f <$> l)).
  - rewrite foldl_u64_add by (unfold fits; lia). apply wrap_small. unfold fits. lia.
  - clear Hs. generalize 0. induction l as [|x l IH]; intros a; [reflexivity|]. apply IH.
Qed.

Lemma sumZ_permutation l l' : l ≡ₚ l' -> sumZ l = sumZ l'.
Proof. unfold sumZ. induction 1; cbn; lia. Qed.

Lemma save_data_elements ks : exists b, save_elements serialize_data ks = Some b /\ length b = (32 * length ks)%nat /\ bytes_ok b.
Proof.
  induction ks as [|k ks (b & E & El & Hb)]; [exists []; now split_and!; [..|constructor]|].
  cbn [save_elements serialize_data save mbind option_bind]. rewrite E. eexists. split; [reflexivity|]. unfold data_blob. split.
  - rewrite length_app, length_le_bytes, El. cbn [length]. lia.
  - apply bytes_ok_app. split; [apply le_bytes_ok|assumption].
Qed.

Lemma output_keys_extra ks : Z.of_nat (length ks) < 128 ->
  bytes_ok (add_output_ecdh_public_keys_to_extra [] ks) /\ (length (add_output_ecdh_public_keys_to_extra [] ks) <= 2 + 32 * length ks)%nat.
Proof.
  intros Hl. unfold add_output_ecdh_public_keys_to_extra. destruct (save_data_elements ks) as (b & E & El & Hb).
  cbn [save serialize_extra_field do_serialize_container serialize_uint mbind option_bind]. rewrite E. cbn [mbind option_bind app].
  unfold Varint.Varint.write_varint. rewrite Varint.Varint.write_varint_loop_small, save_uint_le by assumption. split.
  - apply bytes_ok_app. split; [apply le_bytes_ok|]. constructor; [|assumption]. apply wrap_fits. lia.
  - rewrite !length_app, length_le_bytes. cbn [length]. rewrite El. lia.
Qed.

(** ** The construction succeeds *)

Section Wallet.
Context `{HL : Sha3Laws} `{SL : SodiumLaws}.
Context (d : chain_db) (keys : spend_view_secret_keys) (subaddresses : gmap public_key subaddress_index) (init : rctData).
Context (es : list spend) (dests : list tx_destination_entry) (sks : list secret_key) (unlock : Z).

Definition image_of (e : spend) : key_image := derive_key_image (sp_key e).
Definition ordered : list spend := apply_permutation (get_sorted_permutation (image_of <$> es)) es.
Definition money_in : Z := sumZ ((fun e => src_amount (sp_src e)) <$> es).
Definition money_out : Z := sumZ (dst_amount <$> dests).
Definition signer_of (e : spend) : rctInputData := input_data (sp_src e) (ctx_of e).
Definition payments : list rctOutputData := imap (payment sks) dests.

(** One to 2^32 - 2 distinct outputs to spend and two to sixteen payments that they cover. *)
Record plan_ok : Prop := {
  po_some : es <> [];
  po_many : Z.of_nat (length es) < 2 ^ 32 - 1;
  po_spends : Forall (spend_ok d keys subaddresses) es;
  po_distinct : NoDup (image_of <$> es);
  po_dests : (2 <= length dests <= 16)%nat;
  po_keys : length sks = length dests;
  po_payable k dst : dests !! k = Some dst -> dest_ok dst k (nth k sks 0);
  po_unlock : fits 64 unlock;
  po_covered : money_out <= money_in < 2 ^ 64 }.

Context (Hplan : plan_ok).

(** What is built before the proofs. *)
Record prefix_built (pre : transaction_prefix) : Prop := {
  pb_version : version pre = 2;
  pb_vin : vin pre = txin_from_key <$> (input_of <$> ordered);
  pb_outs : length (vout pre) = length dests;
  pb_out : Forall (fun o => amount o = 0 /\ exists k, target o = txout_to_key k /\ safe k) (vout pre);
  pb_wf : wf serialize_tx_prefix pre }.

Lemma ordered_perm : ordered ≡ₚ es.
Proof. apply apply_permutation_perm. rewrite permutation_is_one. now rewrite length_fmap. Qed.

Lemma image_fits e : spend_ok d keys subaddresses e -> fits 256 (image_of e).
Proof using HL SL.
  intros He. unfold image_of, derive_key_image. pose proof (so_point _ _ _ e He) as Hp. apply is_safe_point_spec in Hp as (k & Hk & ->).
  rewrite mult_enc; [apply enc_fits|apply (so_key _ _ _ e He)|now right].
Qed.

Lemma ordered_ok : Forall (spend_ok d keys subaddresses) ordered.
Proof using Hplan. rewrite ordered_perm. apply (po_spends Hplan). Qed.

Lemma safe_fits k : safe k -> fits 256 k.
Proof using SL. intros (x & _ & ->)%is_safe_point_spec. apply enc_fits. Qed.

Lemma amounts_nonneg : 0 <= money_out /\ 0 <= money_in.
Proof using Hplan.
  split; apply sumZ_nonneg.
  - apply Forall_fmap, Forall_lookup. intros k dst Hk. destruct (do_amount _ _ _ (po_payable Hplan k dst Hk)). assumption.
  - apply Forall_fmap. eapply Forall_impl; [exact (po_spends Hplan)|]. intros e He. apply (so_amount _ _ _ e He).
Qed.

Lemma input_wf e : spend_ok d keys subaddresses e -> wf serialize_txin (txin_from_key (input_of e)).
Proof using HL SL.
  intros He. destruct (offsets_ok d keys subaddresses e He) as (El & Hf & _). cbn [wf serialize_txin serialize_txin_from_key serialize_as serialize_pair fst snd].
  split; [|split]; [cbn; unfold fits; lia| |exact (image_fits e He)]. split; [exact Hf|]. rewrite El. unfold fits. cbn. lia.
Qed.

Lemma prefix_wf outs ks : length outs = length dests -> length ks = length dests ->
  Forall (fun o => exists k, target o = txout_to_key k /\ safe k) outs ->
  prefix_built {| version := 2; unlock_height := unlock; vin := txin_from_key <$> (input_of <$> ordered); vout := hide_output <$> outs;
                  extra := add_output_ecdh_public_keys_to_extra [] ks |}.
Proof using All.
  intros Ho Hk Ht. pose proof (po_dests Hplan) as Hn. pose proof ordered_ok as Hs. pose proof (po_many Hplan) as Hm.
  assert (Hlen : length ordered = length es) by now rewrite ordered_perm.
  destruct (output_keys_extra ks) as [Eb El]; [lia|].
  assert (Hhide : Forall (fun o => amount o = 0 /\ exists k, target o = txout_to_key k /\ safe k) (hide_output <$> outs)).
  { apply Forall_fmap. eapply Forall_impl; [exact Ht|]. intros o Hx. now split. }
  split; [reflexivity|reflexivity|cbn; now rewrite length_fmap|exact Hhide|].
  cbn [wf serialize_tx_prefix serialize_as serialize_pair fst snd version unlock_height vin vout extra].
  split; [split; [cbn; unfold fits; lia|reflexivity]|]. split; [exact (po_unlock Hplan)|]. split; [|split].
  - split; [|rewrite !length_fmap; unfold fits; lia]. rewrite !Forall_fmap. eapply Forall_impl; [exact Hs|]. exact input_wf.
  - split; [|rewrite length_fmap; unfold fits; lia]. eapply Forall_impl; [exact Hhide|]. intros o (Ea & k & Et & Hk').
    cbn [wf serialize_tx_out serialize_as serialize_pair fst snd]. rewrite Ea, Et. split; [cbn; unfold fits; lia|]. cbn. now apply safe_fits.
  - split; [exact Eb|]. unfold fits. lia.
Qed.

Lemma payments_zip outs : amount <$> outs = dst_amount <$> dests ->
  zip_with (fun o h => {| o_amount := amount o; o_ecdh_shared_secret_hashed_by_index := h |}) outs
    (imap (fun k dst => secret_of dst (0 + k) (nth (0 + k) sks 0)) dests) = payments.
Proof.
  intros E. apply list_eq. intros k. unfold payments. rewrite lookup_zip_with, !list_lookup_imap.
  apply (f_equal (fun l => l !! k)) in E. rewrite !list_lookup_fmap in E.
  destruct (outs !! k) as [o|], (dests !! k) as [dst|]; try discriminate; [|reflexivity]. cbn in E. injection E as E. cbn. unfold payment. now rewrite E.
Qed.

(** The construction is that of the prefix and then of the proofs. *)
Lemma construct_shape attempts dr : exists pre, prefix_built pre /\
  construct_tx_with_tx_key init attempts dr keys subaddresses (sp_src <$> es) dests [] unlock sks =
  (h ← get_transaction_prefix_hash {| prefix := pre; ringct := init |};
   rv ← generate_ringct attempts dr h (signer_of <$> ordered) payments (money_in - money_out);
   match rv with
   | None => Returns OutOfAttempts
   | Some rv => Returns (Built {| prefix := pre; ringct := toRctData rv |} (get_sorted_permutation (image_of <$> es)))
   end).
Proof using All.
  pose proof (po_dests Hplan) as Hn. pose proof (po_keys Hplan) as Hk. pose proof (po_covered Hplan) as Hc. pose proof amounts_nonneg as [Hp1 Hp2].
  destruct (generate_outputs_ok sks dests 0 [] [] [] 0) as (ks & outs & Eg & El & Hf & Ea & Ht); [exact (po_payable Hplan)|].
  assert (Hol : length outs = length dests) by (rewrite <- (length_fmap amount), Ea; apply length_fmap).
  exists {| version := 2; unlock_height := unlock; vin := txin_from_key <$> (input_of <$> ordered); vout := hide_output <$> outs;
            extra := add_output_ecdh_public_keys_to_extra [] ks |}.
  split; [now apply prefix_wf|]. unfold construct_tx_with_tx_key. rewrite length_fmap.
  rewrite (proj2 (Nat.eqb_neq _ 0)) by (pose proof (po_some Hplan); destruct es; [contradiction|discriminate]).
  rewrite (fill_inputs_ok d) by exact (po_spends Hplan). cbv zeta.
  replace ((fun x : keypair * txin_from_key_t => output_key_image x.2) <$> (ctx_of <$> es)) with (image_of <$> es) by now rewrite <- list_fmap_compose.
  rewrite !apply_permutation_fmap. fold ordered. rewrite Hk, Nat.eqb_refl. cbn [negb]. rewrite Eg. cbn [app].
  rewrite El, Nat.eqb_refl. cbn [negb remove_field_from_tx_extra default mbind result_bind].
  assert (Ein : forall l, l ≡ₚ es -> foldl (fun a s => a ⊞ src_amount s) 0 (sp_src <$> l) = money_in).
  { intros l Hl. rewrite u64_total; rewrite <- list_fmap_compose; change (src_amount ∘ sp_src) with (fun e => src_amount (sp_src e));
      rewrite (sumZ_permutation _ ((fun e => src_amount (sp_src e)) <$> es)) by (now apply fmap_Permutation); [reflexivity|]. fold money_in. lia. }
  rewrite !Ein by (reflexivity || apply ordered_perm).
  assert (Eout : foldl u64_add 0 (dst_amount <$> dests) = money_out).
  { rewrite foldl_u64_add by (unfold fits; lia). apply wrap_small. fold money_out. unfold fits. lia. }
  assert (Eout' : foldl (fun a o => a ⊞ amount o) 0 outs = money_out) by (rewrite u64_total; rewrite Ea; fold money_out; [reflexivity|lia]).
  rewrite Eout, Eout', (proj2 (Z.ltb_ge _ _)) by lia. rewrite length_imap, Hol, Nat.eqb_refl. cbn [negb].
  rewrite payments_zip by assumption. rewrite u64_sub_small by (unfold fits; lia).
  rewrite !zip_with_fmap_l, !zip_with_fmap_r, !zip_with_diag.
  rewrite (list_fmap_ext (fun e => hide_input (sp_src e) (ctx_of e)) (fun e => txin_from_key (input_of e))).
  2: { intros k e He. apply (hidden_input d keys subaddresses). pose proof ordered_ok as Hs. rewrite Forall_lookup in Hs. eauto. }
  rewrite <- (list_fmap_compose input_of txin_from_key). reflexivity.
Qed.

(** *** Proofs *)

(** The random numbers: usable scalars, and no pseudo-output with the mask of an output that is spent. *)
Record draws_ok (attempts : nat) (dr : draws) : Prop := {
  dr_masks : Forall (fun m => secret_ok m /\ Forall (fun e => src_mask (sp_src e) <> m) es)
    (matching_masks (foldl scalar_add s_zero (range_proof_inputs payments).*2) (d_masks dr) (length es));
  dr_sig k j : secret_ok (d_sig dr k j);
  dr_proof i : secret_ok (d_proof dr i);
  dr_scalars i : scalar_ok (d_masks dr i);
  dr_generators : init_generators <> Throws;
  dr_attempts j : (j < attempts)%nat ->
    let w := (padded_number (length dests) * bit_width)%nat in draws_safe (range_proof_inputs payments) (d_proof dr) (j * (4 + w + w)) = true }.

Context (attempts : nat) (dr : draws) (Hdraws : draws_ok attempts dr).
Abbreviation inputs := (signer_of <$> ordered).

Lemma inputs_some : inputs <> [].
Proof using Hplan.
  intros E. apply (f_equal length) in E. rewrite length_fmap, ordered_perm in E. pose proof (po_some Hplan). destruct es; [contradiction|discriminate].
Qed.

Lemma inputs_can_sign k i m : inputs !! k = Some i -> pseudo_masks dr inputs payments !! k = Some m -> input_ok (d_sig dr k) i m.
Proof using Hplan Hdraws.
  intros Hi Hm. rewrite list_lookup_fmap in Hi. destruct (ordered !! k) as [e|] eqn:Ee; [|discriminate]. injection Hi as <-.
  assert (He : spend_ok d keys subaddresses e) by (eapply Forall_lookup_1; [exact ordered_ok|exact Ee]).
  unfold pseudo_masks in Hm. rewrite length_fmap, ordered_perm in Hm.
  destruct (Forall_lookup_1 _ _ _ _ (dr_masks _ _ Hdraws) Hm) as [Om Hne].
  assert (Hin : e ∈ es) by (rewrite <- ordered_perm; eapply list_elem_of_lookup_2, Ee). rewrite Forall_forall in Hne. specialize (Hne e Hin).
  unfold input_ok, signer_of, input_data, ctx_of. cbn [i_decoys i_index_in_decoys i_signer_sk i_amount i_signer_blinding_factor fst sec].
  split_and!; [|apply He|apply He|exact Om|exact Hne|apply He|exact (dr_sig _ _ Hdraws k)|apply He].
  rewrite list_lookup_fmap. exact (so_real _ _ _ e He).
Qed.

Lemma payments_length : length payments = length dests.
Proof. apply length_imap. Qed.

Lemma payments_ok : Forall (fun x => fits 64 x.1 /\ secret_ok x.2) (range_proof_inputs payments).
Proof using Hplan.
  apply Forall_fmap, Forall_lookup. intros k o Hk. unfold payments in Hk. rewrite list_lookup_imap in Hk.
  destruct (dests !! k) as [dst|] eqn:Ed; [|discriminate]. injection Hk as <-. pose proof (po_payable Hplan k dst Ed) as Hd.
  cbn. split; [apply Hd|apply (do_mask _ _ _ Hd)].
Qed.

Lemma payments_sum : sumZ (i_amount <$> inputs) = sumZ (o_amount <$> payments) + (money_in - money_out).
Proof.
  rewrite <- list_fmap_compose. change (i_amount ∘ signer_of) with (fun e => src_amount (sp_src e)).
  rewrite (sumZ_permutation _ ((fun e => src_amount (sp_src e)) <$> es)) by apply fmap_Permutation, ordered_perm. fold money_in.
  replace (o_amount <$> payments) with (dst_amount <$> dests); [fold money_out; lia|].
  apply list_eq. intros k. unfold payments. rewrite !list_lookup_fmap, list_lookup_imap. now destruct (dests !! k).
Qed.

(** What a signature of the transaction looks like. *)
Record clsag_shape (e : spend) (c : clsag_unsafe) : Prop := {
  cs_length : length (u_s c) = 32%nat;
  cs_fits : Forall (fits 256) (u_s c) /\ fits 256 (u_c1 c) /\ fits 256 (u_blinding_factor_surplus_key_image c);
  cs_image : u_signer_key_image c = image_of e }.

Lemma images_of_shapes l cs : Forall2 clsag_shape l cs -> u_signer_key_image <$> cs = image_of <$> l.
Proof using Type. induction 1 as [|e c l cs Hc _ IH]; [reflexivity|]. rewrite !fmap_cons, IH, (cs_image _ _ Hc). reflexivity. Qed.

Lemma signatures_shape full clsags :
  sign_inputs full dr inputs (generate_matching_input_commits (foldl scalar_add s_zero (range_proof_inputs payments).*2) (d_masks dr) (i_amount <$> inputs)) = Returns clsags ->
  Forall2 clsag_shape ordered clsags.
Proof using All.
  intros E. destruct (sign_inputs_ok dr inputs payments inputs_some inputs_can_sign payments_ok full) as (clsags' & E' & El & Hsig).
  rewrite E in E'. injection E' as <-. apply Forall2_same_length_lookup_2; [now rewrite El, length_fmap|]. intros k e c Hk Hc.
  assert (Hi : inputs !! k = Some (signer_of e)) by now rewrite list_lookup_fmap, Hk.
  destruct (mask_exists dr inputs payments inputs_some k _ Hi) as [m Hm]. destruct (Hsig k _ m Hi Hm) as (sig & Hc' & Eg).
  rewrite Hc in Hc'. injection Hc' as ->. pose proof (inputs_can_sign k _ m Hi Hm) as (Hd & Hsk & Hbf & Om & Hne & _ & Hr & Hp).
  assert (Hsafe : safe_clsag sig) by (eapply (generated_clsag_safe full (i_signer_sk (signer_of e))); eauto).
  assert (He : spend_ok d keys subaddresses e) by (eapply Forall_lookup_1; [exact ordered_ok|exact Hk]).
  assert (Hl : length (i_decoys (signer_of e)) = 32%nat) by (cbn; rewrite length_fmap; apply He).
  pose proof (lookup_lt_Some _ _ _ Hd) as Hlt. destruct Hsafe as (Hs & Hc1 & HD). split.
  - unfold generate_clsag_signature, throw_if in Eg. rewrite (proj2 (Nat.eqb_neq _ 0)) in Eg by lia.
    cbn [negb throw_unless mbind result_bind] in Eg. rewrite generate_internal_ok in Eg by assumption. cbv zeta in Eg. injection Eg as <-.
    cbn [toUnsafeCLSAG u_s s]. rewrite length_app. cbn [length]. rewrite !length_fmap, !length_seq. cbn in Hlt. rewrite length_fmap in Hlt. pose proof (so_size _ _ _ e He). lia.
  - split; [eapply Forall_impl; [exact Hs|]; apply scalar_ok_fits|]. split; [now apply scalar_ok_fits|].
    apply is_safe_point_spec in HD as (x & Hx & HD). cbn [toUnsafeCLSAG u_blinding_factor_surplus_key_image]. rewrite HD, to_inv8_enc by assumption. apply enc_fits.
  - unfold generate_clsag_signature, throw_if in Eg. rewrite (proj2 (Nat.eqb_neq _ 0)) in Eg by lia.
    cbn [negb throw_unless mbind result_bind] in Eg. rewrite generate_internal_ok in Eg by assumption. cbv zeta in Eg. injection Eg as <-.
    cbn [toUnsafeCLSAG u_signer_key_image signer_key_image]. rewrite (nth_lookup_Some _ _ _ _ Hd). reflexivity.
Qed.

(** *** The wire *)

Lemma covering_proof pre proof : prefix_built pre ->
  bulletproof_VERIFY ((fun x => commit x.1 x.2) <$> range_proof_inputs payments) proof = Returns true ->
  (6 <= length (LR proof))%nat /\ Z.of_nat (length (LR proof)) < 2 ^ 64 /\
  forall `{UndefinedShift}, range_proof_covers (length (vout pre)) [toUnsafeBulletproof proof] = true.
Proof using Hplan.
  intros Hpre E. unfold bulletproof_VERIFY in E. apply result_bind_inv in E as ([G_V H_V] & _ & E). unfold bulletproof_VERIFY_with in E.
  do 3 (case_match; [discriminate|]). cbv zeta in E.
  rewrite length_fmap, (length_fmap _ payments : length (range_proof_inputs payments) = _), payments_length in E. case_match eqn:El; [discriminate|].
  apply negb_false_iff, Z.eqb_eq in El. pose proof (po_dests Hplan) as Hn.
  assert (Ht : forallb (fun n => let r := (ceiling_log2_review (Z.of_nat n)).2 + (ceiling_log2_review (Z.of_nat bit_width)).2 in
    (6 <=? r) && (r <? 31) && (Z.of_nat n <=? Z.shiftl 1 (r - 6))) (seq 2 15) = true) by (vm_compute; reflexivity).
  rewrite forallb_forall in Ht. specialize (Ht (length dests)). rewrite in_seq in Ht. specialize (Ht ltac:(lia)). cbv zeta in Ht.
  rewrite <- El in Ht. apply andb_true_iff in Ht as [Ht Hfit]. apply andb_true_iff in Ht as [Hlo Hhi]. apply Z.leb_le in Hlo, Hfit. apply Z.ltb_lt in Hhi.
  split; [lia|]. split; [lia|]. intros Hu. unfold range_proof_covers, n_bulletproof_max_commit_size, toUnsafeBulletproof.
  destruct (splitLR (LR proof)) as [L R] eqn:Es. unfold splitLR in Es. injection Es as <- <-. cbn [u_L]. unfold to_inv8V. rewrite !length_fmap.
  rewrite (pb_outs _ Hpre). rewrite u64_sub_small by (unfold fits; lia). rewrite (proj2 (Z.ltb_lt _ _)) by lia.
  rewrite wrap_small; [apply negb_true_iff; rewrite Z.gtb_ltb; apply Z.ltb_ge; assumption|].
  rewrite Z.shiftl_1_l. unfold fits. split; [apply Z.pow_nonneg; lia|]. apply Z.pow_lt_mono_r; lia.
Qed.

Lemma inv8_fits k : safe k -> fits 256 (to_inv8 k).
Proof using SL. intros (x & Hx & ->)%is_safe_point_spec. rewrite to_inv8_enc by assumption. apply enc_fits. Qed.

Lemma bulletproof_wf proof : safe_bulletproof proof -> (6 <= length (LR proof))%nat -> Z.of_nat (length (LR proof)) < 2 ^ 64 ->
  wf serialize_bulletproof (toUnsafeBulletproof proof).
Proof using SL.
  intros (Hp & Hlr & Hs) Hl Hb. apply safe_LR in Hlr as [HL1 HR1]. rewrite !Forall_cons in Hp. rewrite !Forall_cons in Hs.
  destruct Hp as (HA & HS & HT1 & HT2 & _). destruct Hs as (Hta & Hmu & Ha & Hb' & Ht & _).
  unfold toUnsafeBulletproof. destruct (splitLR (LR proof)) as [L R] eqn:Es. unfold splitLR in Es. injection Es as <- <-.
  assert (Hpoints : forall l, Forall safe l -> Forall (fits 256) (to_inv8V l)).
  { intros l Hf. unfold to_inv8V. apply Forall_fmap. eapply Forall_impl; [exact Hf|]. apply inv8_fits. }
  split.
  - cbn [serialize_as serialize_pair serialize_data do_serialize_container wf fst snd u_A u_S u_T1 u_T2 u_tau u_mu u_L u_R u_a u_b u_t].
    split_and!; try (now apply inv8_fits); try (now apply scalar_ok_fits); try (now apply Hpoints).
    all: unfold to_inv8V; rewrite !length_fmap; unfold fits; lia.
  - unfold bulletproof_ok. cbn [u_L u_R]. unfold to_inv8V. rewrite !length_fmap, Nat.eqb_refl. rewrite (proj2 (Nat.eqb_neq _ 0)) by lia. reflexivity.
Qed.

Lemma unsent_wf es' cs : Forall2 clsag_shape es' cs -> forall cs0, length cs0 = length cs ->
  Forall2 (fun c0 c => wf (serialize_clsag 31 c0) c) cs0 (zip_with (fun c0 c => with_signer_key_image (u_signer_key_image c0) c) cs0 cs).
Proof using Type.
  induction 1 as [|e c es' cs Hc _ IH]; intros [|c0 cs0] E; try discriminate; [constructor|]. injection E as E. cbn [zip_with]. constructor; [|now apply IH].
  destruct Hc as [El (Hf & H1 & HD) _]. cbn [wf serialize_clsag serialize_as serialize_pair serialize_custom_vector serialize_data not_serialized fst snd
    with_signer_key_image u_s u_c1 u_blinding_factor_surplus_key_image u_signer_key_image].
  split_and!; [|assumption|assumption|reflexivity]. apply Forall2_replicate_l; [rewrite El; reflexivity|exact Hf].
Qed.

(** The ring-CT data that the proofs end in. *)
Definition proven (h : hash) (proof : Bulletproof) (clsags : list clsag_unsafe) : rctDataSizeChecked :=
  {| sc_basic := generated_basic inputs payments h (money_in - money_out); sc_bulletproof := toUnsafeBulletproof proof; sc_CLSAGs := clsags;
     sc_pseudo_input_commits :=
       (generate_matching_input_commits (foldl scalar_add s_zero (range_proof_inputs payments).*2) (d_masks dr) (i_amount <$> inputs)).*2 |}.

(** No point of the proofs is the identity. *)
Definition points_safe (rv : rctDataSizeChecked) (proof : Bulletproof) : Prop :=
  safe_bulletproof proof /\ Forall safe (output_commits (sc_basic rv)) /\ Forall safe (sc_pseudo_input_commits rv).

Lemma received_wf `{UndefinedShift} pre h proof clsags : prefix_built pre -> Forall2 clsag_shape ordered clsags ->
  bulletproof_VERIFY ((fun x => commit x.1 x.2) <$> range_proof_inputs payments) proof = Returns true -> points_safe (proven h proof clsags) proof ->
  wf (serialize_transaction init) (received init {| prefix := pre; ringct := toRctData (proven h proof clsags) |}).
Proof using All.
  intros Hpre Hcs Hv (Hbp & Hoc & Hpc). destruct (covering_proof pre proof Hpre Hv) as (Hl & Hb & Hcov).
  assert (Hvin : length (vin pre) = length ordered) by now rewrite (pb_vin _ Hpre), !length_fmap.
  assert (Hord : length ordered = length es) by now rewrite ordered_perm.
  pose proof (po_many Hplan) as Hmany. pose proof (po_dests Hplan) as Hn. pose proof (po_covered Hplan) as Hc. pose proof amounts_nonneg as [Hm1 Hm2].
  assert (Hmix : mixin_of (vin pre) = 31).
  { rewrite (pb_vin _ Hpre). pose proof ordered_ok as Ho. pose proof inputs_some as Hi. destruct Ho as [|e l He _]; [contradiction|]. cbn [fmap list_fmap mixin_of].
    destruct (offsets_ok d keys subaddresses e He) as (El & _). rewrite El. reflexivity. }
  split; [exact (pb_wf _ Hpre)|]. unfold received, serialize_tx_ringct. cbn [prefix ringct with_ringct snd fst]. rewrite (pb_version _ Hpre).
  change (2 =? 1) with false. cbv iota.
  assert (exists i0 l0, vin pre = i0 :: l0) as (i0 & l0 & Ev).
  { pose proof inputs_some as Hi. destruct (vin pre) as [|i0 l0]; [|eauto]. destruct ordered; [contradiction|discriminate]. }
  rewrite Ev. rewrite <- Ev. split; cbn [fst snd].
  - cbn [basic toRctData proven sc_basic generated_basic unsent_basic with_decoys with_message wf serialize_rctsig_base serialize_as serialize_dep
      type fee ecdh_encrypted_data output_commits message decoys fst snd].
    split; [cbn; unfold fits, RCTTypeCLSAG; lia|]. change (RCTTypeCLSAG =? RCTTypeNull) with false. rewrite Z.eqb_refl. cbn [negb wf serialize_pair fst snd].
    rewrite (pb_outs _ Hpre). split; [unfold serialize_varint, fits; cbn; unfold fits; lia|]. split; [|split; [|split; reflexivity]].
    + apply Forall2_replicate_l; [now rewrite length_fmap, payments_length|]. apply Forall_fmap. pose proof payments_ok as Hp. unfold range_proof_inputs in Hp.
      rewrite Forall_fmap in Hp. eapply Forall_impl; [exact Hp|]. intros o [Ha _]. now apply hash_and_xor_fits.
    + apply Forall2_replicate_l; [unfold range_proof_inputs; now rewrite !length_fmap, payments_length|]. eapply Forall_impl; [exact Hoc|]. apply safe_fits.
  - cbn [basic toRctData proven sc_basic generated_basic unsent_basic with_decoys with_message type p].
    change (negb (RCTTypeCLSAG =? RCTTypeNull)) with true. cbv iota. unfold serialize_ringct_prunable.
    rewrite Hmix, Hvin, Hord, (pb_outs _ Hpre), !Z.geb_leb, !(proj2 (Z.leb_gt _ _)) by lia.
    change (RCTTypeCLSAG =? RCTTypeNull) with false. rewrite Z.eqb_refl. cbn [negb]. cbv iota.
    cbn [wf serialize_as serialize_pair serialize_checked serialize_custom_vector fst snd with_CLSAGs bulletproofs CLSAGs pseudo_input_commits sc_bulletproof sc_CLSAGs sc_pseudo_input_commits].
    split; [|split].
    + split; [split; [reflexivity|split; [lia|]]|rewrite <- (pb_outs _ Hpre); apply Hcov]. constructor; [now apply bulletproof_wf|constructor].
    + rewrite <- Hord, <- Hvin. apply Forall2_fmap_l. eapply unsent_wf; [exact Hcs|]. rewrite length_resize. cbn [prefix]. rewrite Hvin. exact (Forall2_length _ _ _ Hcs).
    + apply Forall2_replicate_l; [|eapply Forall_impl; [exact Hpc|]; apply safe_fits].
      etransitivity; [apply length_fmap|]. etransitivity; [exact (length_pseudo_inputs dr inputs payments inputs_some)|]. rewrite length_fmap. exact Hord.
Qed.

(** *** The checks that need no chain *)

Lemma outputs_safe pre : prefix_built pre -> exists ks, are_tx_output_targets_valid (target <$> vout pre) = Some ks /\ are_points_safe ks = Some ks.
Proof using SL.
  intros Hpre. pose proof (pb_out _ Hpre) as Ho. unfold are_tx_output_targets_valid.
  assert (exists ks, target <$> vout pre = txout_to_key <$> ks /\ Forall safe ks) as (ks & E & Hs).
  { induction Ho as [|o l (_ & k & Ek & Hk) _ (ks & E & Hs)]; [exists []; auto|]. exists (k :: ks). cbn. rewrite Ek, E. auto. }
  exists ks. split; [|now apply are_points_safe_iff]. apply all_present_Some. rewrite E, <- list_fmap_compose. reflexivity.
Qed.

Lemma ordered_sorted : rule_18_ringct_input_key_images_should_be_sorted (image_of <$> ordered) = true.
Proof using HL SL Hplan.
  unfold ordered. rewrite <- apply_permutation_fmap. apply sorted_images; [exact (po_distinct Hplan)|].
  apply Forall_fmap. eapply Forall_impl; [exact (po_spends Hplan)|]. exact image_fits.
Qed.

Lemma images_distinct pre r : prefix_built pre -> check_ringct_inputs_keyimages_diff {| prefix := pre; ringct := r |} = true.
Proof using HL SL Hplan.
  intros Hpre. unfold check_ringct_inputs_keyimages_diff. cbn [prefix]. rewrite (pb_vin _ Hpre).
  replace (omap id _) with (image_of <$> ordered).
  - pose proof (rule_18_NoDup _ ordered_sorted) as Hn. unfold rule_8_ringct_input_key_images_should_be_unique.
    rewrite size_list_to_set, length_fmap by assumption. apply Nat.eqb_refl.
  - clear. induction ordered as [|e l IH]; [reflexivity|]. cbn. f_equal. exact IH.
Qed.

Lemma semantics_of_prefix `{UndefinedShift} pre r b : prefix_built pre -> length (output_commits (basic r)) = length dests ->
  (b = false -> exists w, get_transaction_weight {| prefix := pre; ringct := r |} = Returns w /\ w < get_max_tx_size ⊟ CRYPTONOTE_COINBASE_BLOB_RESERVED_SIZE) ->
  check_ringct_semantic {| prefix := pre; ringct := r |} b = Returns true.
Proof using HL SL Hplan.
  intros Hpre Hc Hw. unfold check_ringct_semantic. cbn [prefix ringct]. pose proof ordered_ok as Ho.
  rewrite bool_decide_true.
  2: { rewrite (pb_vin _ Hpre). pose proof inputs_some as Hi. destruct ordered; [contradiction|]. cbn. eauto. }
  replace (check_inputs_types_supported _) with true.
  2: { symmetry. apply forallb_forall. cbn [prefix]. rewrite (pb_vin _ Hpre). intros x (y & <- & _)%in_map_iff. reflexivity. }
  destruct (outputs_safe pre Hpre) as (ks & Et & Es).
  replace (check_outs_valid _) with true.
  2: { unfold check_outs_valid. cbn [prefix]. rewrite Et, (pb_version _ Hpre). cbn [Z.eqb negb orb].
       unfold rule_11_tx_output_public_keys_should_be_safe_points. rewrite Es. replace (forallb _ _) with true; [reflexivity|]. symmetry. now apply forallb_forall. }
  cbn [negb]. rewrite Hc, (pb_outs _ Hpre), Nat.eqb_refl. cbn [negb].
  replace (if negb b then _ else _) with (Returns false).
  2: { destruct b; [reflexivity|]. destruct (Hw eq_refl) as (w & Ew & Hlt). rewrite Ew. cbn. now rewrite (proj2 (Z.leb_gt _ _)). }
  cbn [mbind result_bind]. rewrite (images_distinct pre r Hpre). cbn [negb].
  replace (check_ringct_inputs_ring_members_diff _) with true.
  2: { symmetry. unfold check_ringct_inputs_ring_members_diff. cbn [prefix]. rewrite (pb_vin _ Hpre), <- list_fmap_compose. apply forallb_forall.
       intros x (e & <- & He)%in_map_iff. rewrite Forall_forall in Ho. apply (offsets_ok d keys subaddresses), Ho. now apply list_elem_of_In. }
  cbn [negb]. rewrite bool_decide_true; [reflexivity|]. eexists. unfold are_ringct_input_types_valid. apply all_present_Some.
  rewrite (pb_vin _ Hpre), <- list_fmap_compose. reflexivity.
Qed.

(** *** What the node makes of it *)

(** The parsed data, with their sizes checked. *)
Definition as_received (pre : transaction_prefix) (rv : rctDataSizeChecked) : rctDataSizeChecked :=
  {| sc_basic := unsent_basic init (sc_basic rv); sc_bulletproof := sc_bulletproof rv; sc_CLSAGs := unsent_images init (length (vin pre)) (sc_CLSAGs rv);
     sc_pseudo_input_commits := sc_pseudo_input_commits rv |}.

Lemma proven_lengths h proof clsags : Forall2 clsag_shape ordered clsags ->
  length (sc_pseudo_input_commits (proven h proof clsags)) = length ordered /\ length clsags = length ordered /\
  length (output_commits (sc_basic (proven h proof clsags))) = length dests /\ length (ecdh_encrypted_data (sc_basic (proven h proof clsags))) = length dests.
Proof using Hplan.
  intros Hcs. split_and!.
  - cbn [proven sc_pseudo_input_commits]. etransitivity; [apply length_fmap|]. etransitivity; [exact (length_pseudo_inputs dr inputs payments inputs_some)|]. apply length_fmap.
  - symmetry. exact (Forall2_length _ _ _ Hcs).
  - cbn. unfold range_proof_inputs. rewrite !length_fmap. apply payments_length.
  - cbn. rewrite length_fmap. apply payments_length.
Qed.

Lemma size_checked pre h proof clsags : Forall2 clsag_shape ordered clsags -> length (vin pre) = length ordered ->
  let tx := {| prefix := pre; ringct := toRctData (proven h proof clsags) |} in
  maybeSizeCheckedRctData (ringct tx) = Some (proven h proof clsags) /\
  maybeSizeCheckedRctData (ringct (received init tx)) = Some (as_received pre (proven h proof clsags)).
Proof using Hplan.
  intros Hcs Hvin tx. destruct (proven_lengths h proof clsags Hcs) as (Hp & Hc & Ho & He).
  unfold maybeSizeCheckedRctData, tx, received. cbn [ringct with_ringct toRctData basic p proven sc_basic sc_CLSAGs generated_basic unsent_basic with_decoys with_message type with_CLSAGs
    bulletproofs CLSAGs pseudo_input_commits sc_bulletproof sc_pseudo_input_commits prefix output_commits ecdh_encrypted_data] in *.
  rewrite Z.eqb_refl. unfold rule_17_ringct_should_contain_only_one_range_proof. cbn [length Nat.eqb negb head mbind option_bind].
  assert (Hu : length (unsent_images init (length (vin pre)) clsags) = length ordered) by (unfold unsent_images; rewrite length_zip_with, length_resize; lia).
  rewrite Hu, Hp, Hc, Ho, He, !Nat.eqb_refl. split; reflexivity.
Qed.

Section OnNode.
Context `{UndefinedShift} (pre : transaction_prefix) (h : hash) (proof : Bulletproof) (clsags : list clsag_unsafe).
Context (Hpre : prefix_built pre).
Context (Hverified : bulletproof_VERIFY ((fun x => commit x.1 x.2) <$> range_proof_inputs payments) proof = Returns true).
Context (Hcs : Forall2 clsag_shape ordered clsags).
Context (Hsafe : points_safe (proven h proof clsags) proof).
Let tx := {| prefix := pre; ringct := toRctData (proven h proof clsags) |}.

Lemma vin_length : length (vin pre) = length ordered.
Proof using Hpre. now rewrite (pb_vin _ Hpre), !length_fmap. Qed.

Lemma received_parsed : exists bd, tx_to_blob tx = Returns bd /\ bytes_ok bd /\ maybe_tx_from_blob init bd = Some (received init tx).
Proof using All.
  destruct (tx_blob init (received init tx)) as (bd & Eb & Hb & Ep); [now apply received_wf|].
  exists bd. pose proof vin_length as Hvin. destruct (proven_lengths h proof clsags Hcs) as (_ & Hc & Ho & _).
  rewrite received_blob in Eb; [|cbn; now rewrite Hc, Hvin|cbn; rewrite (pb_version _ Hpre); discriminate|].
  2: { intros E. cbn in E. rewrite E in Hvin. cbn in Hvin. pose proof inputs_some as Hi. destruct ordered; [contradiction|discriminate]. }
  split; [exact Eb|]. split; [exact Hb|]. unfold maybe_tx_from_blob. rewrite Ep. cbn [mbind option_bind]. unfold expand_transaction.
  change (prefix (received init tx)) with pre. rewrite (pb_version _ Hpre). change (2 <? 2) with false. cbv iota.
  case_match; [reflexivity|]. change (type (basic (ringct (received init tx)))) with RCTTypeCLSAG. change (RCTTypeCLSAG =? RCTTypeNull) with false. cbv iota.
  change (output_commits (basic (ringct (received init tx)))) with (output_commits (sc_basic (proven h proof clsags))).
  rewrite Ho, (pb_outs _ Hpre), Nat.eqb_refl. cbn [negb]. unfold tx. now rewrite (proj2 (size_checked pre h proof clsags Hcs Hvin)).
Qed.

Lemma received_proofs : verify_range_proof (as_received pre (proven h proof clsags)) = Returns true /\ verify_ringct_balance (as_received pre (proven h proof clsags)) = true.
Proof using All.
  split.
  - unfold verify_range_proof, rule_9_range_proof_should_not_contain_invalid_data. cbn [as_received sc_bulletproof proven]. rewrite bulletproof_unsafe_safe by apply Hsafe. exact Hverified.
  - pose proof (po_covered Hplan) as Hc. pose proof amounts_nonneg as [Hm1 Hm2].
    apply (generated_balance dr inputs payments inputs_some inputs_can_sign payments_ok (money_in - money_out));
      [exact (dr_scalars _ _ Hdraws)|unfold fits; lia|exact payments_sum].
Qed.

Lemma received_semantics b : (b = false -> exists w, get_transaction_weight (received init tx) = Returns w /\ w < get_max_tx_size ⊟ CRYPTONOTE_COINBASE_BLOB_RESERVED_SIZE) ->
  semantics_ok (received init tx) b = Returns true.
Proof using All.
  intros Hw. unfold semantics_ok. change (check_ringct_semantic (received init tx) b) with (check_ringct_semantic {| prefix := pre; ringct := ringct (received init tx) |} b).
  rewrite (semantics_of_prefix pre _ b Hpre); [|apply (proven_lengths h proof clsags Hcs)|exact Hw]. cbn [mbind result_bind negb].
  change (prefix (received init tx)) with pre. rewrite (pb_version _ Hpre). change (2 <? 2) with false. cbv iota zeta.
  change (type (basic (ringct (received init tx)))) with RCTTypeCLSAG. rewrite Z.eqb_refl. cbn [negb].
  unfold tx. rewrite (proj2 (size_checked pre h proof clsags Hcs vin_length)). destruct received_proofs as [-> ->]. reflexivity.
Qed.

Lemma received_outputs tvc : check_ringct_outputs (received init tx) tvc = (true, tvc).
Proof using All.
  unfold check_ringct_outputs. change (prefix (received init tx)) with pre. replace (forallb _ _) with true.
  2: { symmetry. apply forallb_forall. intros o Hin%list_elem_of_In. pose proof (pb_out _ Hpre) as Hout. rewrite Forall_forall in Hout. apply Z.eqb_eq, Hout, Hin. }
  change (type (basic (ringct (received init tx)))) with RCTTypeCLSAG. rewrite Z.eqb_refl. cbn [negb].
  unfold check_tx_output_points. change (prefix (received init tx)) with pre. destruct (outputs_safe pre Hpre) as (ks & Et & Es). rewrite Et. cbn [mbind option_bind].
  unfold rule_11_tx_output_public_keys_should_be_safe_points. rewrite Es, bool_decide_true by eauto. unfold check_ringct_points.
  destruct Hsafe as (_ & Hoc & Hpc). change (output_commits (basic (ringct (received init tx)))) with (output_commits (sc_basic (proven h proof clsags))).
  change (pseudo_input_commits (p (ringct (received init tx)))) with (sc_pseudo_input_commits (proven h proof clsags)).
  unfold rule_13_tx_output_commits_should_be_safe_points, rule_14_tx_pseudo_input_commits_should_be_safe_points.
  rewrite (proj2 (are_points_safe_iff _ _) (conj eq_refl Hoc)), (proj2 (are_points_safe_iff _ _) (conj eq_refl Hpc)). reflexivity.
Qed.

Lemma received_inputs `{Schedule} (m_scan_table : scan_table_t) tvc full : (forall n, schedule n ≡ₚ seq 0 n) -> height d < 2 ^ 64 ->
  (forall e, e ∈ es -> scan_agrees d m_scan_table h (input_of e)) -> get_transaction_prefix_hash tx = Returns h ->
  get_ring_signature_message (proven h proof clsags) = Some full ->
  sign_inputs full dr inputs (generate_matching_input_commits (foldl scalar_add s_zero (range_proof_inputs payments).*2) (d_masks dr) (i_amount <$> inputs)) = Returns clsags ->
  (forall k i q sig, inputs !! k = Some i -> sc_pseudo_input_commits (proven h proof clsags) !! k = Some q -> clsags !! k = Some (toUnsafeCLSAG sig) ->
     lucky_signature full i q sig) ->
  exists pmax, check_inputs d m_scan_table (received init tx) tvc = Returns (true, tx, tvc, pmax).
Proof using All.
  intros Hsch Hh Hscan Eh Em Es Hlucky. pose proof ordered_ok as Ho. rewrite Forall_forall in Ho.
  assert (Hall : forall P : txin_from_key_t -> Prop, (forall e, spend_ok d keys subaddresses e -> P (input_of e)) -> Forall P (input_of <$> ordered)).
  { intros P HP. apply Forall_fmap, Forall_forall. intros e He. now apply HP, Ho. }
  apply (inputs_found d m_scan_table init tx h (input_of <$> ordered) (sp_ring <$> ordered) tvc (proven h proof clsags)); try assumption.
  - exact (pb_vin _ Hpre).
  - intros E. apply inputs_some. destruct ordered; [reflexivity|discriminate].
  - change (prefix tx) with pre. rewrite (pb_outs _ Hpre). apply (po_dests Hplan).
  - exact (pb_version _ Hpre).
  - apply Hall. intros e He. apply (offsets_ok d keys subaddresses e He).
  - rewrite <- list_fmap_compose. exact ordered_sorted.
  - intros x (e & -> & He)%list_elem_of_fmap. apply Hscan. now rewrite <- ordered_perm.
  - apply Forall2_fmap_2, Forall_Forall2_diag, Forall_forall. intros e He. now apply (ring_of_input d keys subaddresses), Ho.
  - apply Hall. intros e He. exact (so_unspent _ _ _ e He).
  - apply Forall_fmap, Forall_forall. intros e He. exact (so_age _ _ _ e (Ho e He)).
  - split; [|assumption]. pose proof inputs_some as Hi. destruct ordered as [|e l] eqn:E; [contradiction|].
    pose proof (so_age _ _ _ e (Ho e ltac:(constructor))) as Ha. unfold max_last in Ha. destruct (last (sp_ring e)); lia.
  - reflexivity.
  - exact (proj1 (size_checked pre h proof clsags Hcs vin_length)).
  - reflexivity.
  - cbn [proven sc_basic generated_basic decoys]. rewrite <- !list_fmap_compose. apply list_fmap_ext. intros k e He. cbn. symmetry.
    exact (proj2 (ring_of_input d keys subaddresses e (Ho e (list_elem_of_lookup_2 _ _ _ He)))).
  - rewrite <- list_fmap_compose. exact (images_of_shapes _ _ Hcs).
  - eapply (generated_inputs_verify dr inputs payments inputs_some inputs_can_sign payments_ok); try eassumption.
    cbn [proven sc_basic generated_basic decoys]. rewrite !length_fmap. apply Hsch.
Qed.

End OnNode.

(** What the construction ends with. *)
Lemma constructed_form : exists res, construct_tx_with_tx_key init attempts dr keys subaddresses (sp_src <$> es) dests [] unlock sks = Returns res /\
  (res = OutOfAttempts /\ (attempts = O \/ zero_challenge) \/
   exists pre h proof full clsags, prefix_built pre /\ get_transaction_prefix_hash {| prefix := pre; ringct := init |} = Returns h /\
     res = Built {| prefix := pre; ringct := toRctData (proven h proof clsags) |} (get_sorted_permutation (image_of <$> es)) /\
     bulletproof_VERIFY ((fun x => commit x.1 x.2) <$> range_proof_inputs payments) proof = Returns true /\
     get_ring_signature_message (proven h proof clsags) = Some full /\ Forall2 clsag_shape ordered clsags /\
     sign_inputs full dr inputs (generate_matching_input_commits (foldl scalar_add s_zero (range_proof_inputs payments).*2) (d_masks dr) (i_amount <$> inputs)) = Returns clsags).
Proof using All.
  destruct (construct_shape attempts dr) as (pre & Hpre & ->).
  assert (exists h, get_transaction_prefix_hash {| prefix := pre; ringct := init |} = Returns h) as [h Eh].
  { destruct (save_load pre (pb_wf _ Hpre)) as (b & E & _). eexists. unfold get_transaction_prefix_hash, t_serializable_object_to_blob, maybe_to_blob, dump_binary.
    cbn [prefix]. rewrite E. reflexivity. }
  rewrite Eh. cbn [mbind result_bind].
  destruct (generate_ringct_shape dr inputs payments inputs_some inputs_can_sign payments_ok attempts h (money_in - money_out)) as (res & Eg & HN & Hres).
  { rewrite payments_length. pose proof (po_dests Hplan). change max_outputs with 16%nat. lia. } { exact (dr_proof _ _ Hdraws). }
  { exact (dr_generators _ _ Hdraws). } { rewrite payments_length. exact (dr_attempts _ _ Hdraws). }
  rewrite Eg. cbn [mbind result_bind]. destruct res as [rv|]; [|eexists; split; [reflexivity|]; left; auto].
  destruct (Hres rv eq_refl) as (proof & full & clsags & -> & Hv & Em & Es). eexists. split; [reflexivity|]. right.
  exists pre, h, proof, full, clsags. split_and!; auto. exact (signatures_shape full clsags Es).
Qed.

(** C4: A transaction that the wallet builds is accepted by the node.  For any outputs of the chain that the
    wallet owns and has not spent, with rings of 32 unlocked and old enough outputs, and for two to sixteen payments
    that they cover, [construct_tx_with_tx_key] does not fail; it ends with a transaction unless some data
    hashes to the scalar zero.  When no point of the proofs is the identity and no challenge of a signature is zero, the
    transaction is serialized, the node parses it, its range proof, balance and other semantic checks
    pass (for its size, when it is below the limit), and so do the checks of its outputs and of its
    inputs against the chain, with any schedule of the verifying threads; the expansion of the parsed
    transaction gives back the one that the wallet built. *)
Theorem constructed_transaction_accepted `{UndefinedShift} `{Schedule} (m_scan_table : scan_table_t) (tvc : tx_verification_context) :
  (forall n, schedule n ≡ₚ seq 0 n) -> height d < 2 ^ 64 ->
  (forall h e, e ∈ es -> scan_agrees d m_scan_table h (input_of e)) ->
  exists res, construct_tx_with_tx_key init attempts dr keys subaddresses (sp_src <$> es) dests [] unlock sks = Returns res /\
    (res = OutOfAttempts /\ (attempts = O \/ zero_challenge) \/
     exists tx permutation rv proof full, res = Built tx permutation /\ ringct tx = toRctData rv /\ sc_bulletproof rv = toUnsafeBulletproof proof /\
       get_ring_signature_message rv = Some full /\
       (points_safe rv proof ->
        (forall k i q sig, (signer_of <$> ordered) !! k = Some i -> sc_pseudo_input_commits rv !! k = Some q -> sc_CLSAGs rv !! k = Some (toUnsafeCLSAG sig) ->
           lucky_signature full i q sig) ->
        exists bd tx', tx_to_blob tx = Returns bd /\ maybe_tx_from_blob init bd = Some tx' /\
          semantics_ok tx' true = Returns true /\
          (Z.of_nat (length bd) < get_max_tx_size ⊟ CRYPTONOTE_COINBASE_BLOB_RESERVED_SIZE -> semantics_ok tx' false = Returns true) /\
          check_ringct_outputs tx' tvc = (true, tvc) /\
          exists pmax, check_inputs d m_scan_table tx' tvc = Returns (true, tx, tvc, pmax))).
Proof using All.
  intros Hsch Hh Hscan. destruct constructed_form as (res & E & [HN|(pre & h & proof & full & clsags & Hpre & Eh & -> & Hv & Em & Hcs & Es)]).
  { exists res. split; [exact E|]. left. exact HN. }
  eexists. split; [exact E|]. right. eexists _, _, (proven h proof clsags), proof, full. split; [reflexivity|].
  split; [reflexivity|]. split; [reflexivity|]. split; [exact Em|]. intros Hsafe Hlucky.
  destruct (received_parsed pre h proof clsags Hpre Hv Hcs Hsafe) as (bd & Eb & _ & Ep). exists bd, (received init {| prefix := pre; ringct := toRctData (proven h proof clsags) |}).
  split; [exact Eb|]. split; [exact Ep|]. split; [now apply received_semantics|]. split; [|split; [now apply received_outputs|]].
  - intros Hw. apply received_semantics; try assumption. intros _. eexists. split; [|exact Hw]. unfold get_transaction_weight.
    rewrite received_blob; [now rewrite Eb|cbn; rewrite (vin_length pre Hpre); symmetry; exact (Forall2_length _ _ _ Hcs)|cbn; rewrite (pb_version _ Hpre); discriminate|].
    intros Evin. pose proof (vin_length pre Hpre) as Hl. cbn in Evin. rewrite Evin in Hl. cbn in Hl. pose proof inputs_some as Hi. destruct ordered; [contradiction|discriminate].
  - eapply received_inputs; eauto.
Qed.

End Wallet.

(** ** A payment *)

Section Examples.
Import ModelGroup UnitDigest.
#[local] Instance no_shift_here : UndefinedShift := fun _ => 0.
#[local] Instance in_turn : Schedule := fun n => seq 0 n.

Definition payer : spend_view_secret_keys := example_keys.
Definition main_index : subaddress_index := {| major := 0; minor := 0 |}.
Definition payer_address : spend_view_public_keys := get_subaddress payer main_index.
Definition payer_table : gmap public_key subaddress_index := {[ m_spend_public_key payer_address := main_index ]}.
(** The key of the output that was sent with the secret 5. *)
Definition owned_key : secret_key :=
  compute_output_secret_key_from_subaddress_spend_sk (derive_tx_output_ecdh_shared_secret (m_view_public_key payer_address) 5) 0
    (get_subaddress_spend_secret_key payer main_index).
Definition ring_entry (i : nat) : Z * output_public_data :=
  (Z.of_nat i, if (i =? 3)%nat then {| output_public_key := to_pk owned_key; decoy_commit := commit 10 11 |}
               else {| output_public_key := to_pk (100 + Z.of_nat i); decoy_commit := commit 9 (4 + Z.of_nat i) |}).
Definition ring_row (x : Z * output_public_data) : outkey :=
  {| amount_index := x.1; ok_output_id := x.1; ok_data := {| pubkey := output_public_key x.2; od_unlock_height := 0; od_height := 2; commitment := Some (decoy_commit x.2) |} |}.
Definition ring_entries : list (Z * output_public_data) := Eval vm_compute in ring_entry <$> seq 0 32.
Definition ring_db : chain_db :=
  with_output_tables [] {[ 0 := ring_row <$> ring_entries ]}
    {| m_blocks := replicate 10 []; m_block_heights := ∅; m_block_info := []; m_txs_pruned := ∅; m_txs_prunable := ∅;
       m_txs_prunable_hash := ∅; m_txs_prunable_tip := ∅; m_tx_indices := ∅; m_tx_outputs := ∅; m_output_txs := []; m_output_amounts := ∅;
       m_spent_keys := ∅; m_alt_blocks := ∅; m_hf_versions := ∅ |}.
Definition one_spend : spend :=
  {| sp_src := {| src_outputs := ring_entries; real_output := 3; real_out_tx_key := 0; real_out_output_secret_keys := [to_pk 5];
                  real_output_in_tx_index := 0; src_amount := 10; src_rct := true; src_mask := 11 |};
     sp_key := owned_key; sp_ring := (fun x => ok_data (ring_row x)) <$> ring_entries |}.
Definition two_payments : list tx_destination_entry :=
  [ {| dst_amount := 4; dst_addr := payer_address; dst_is_subaddress := false |}; {| dst_amount := 5; dst_addr := payer_address; dst_is_subaddress := false |} ].
Definition payment_keys : list secret_key := [6; 8].

Definition built_tx : result construction := construct_tx_with_tx_key no_rct 1 example_draws payer payer_table [sp_src one_spend] two_payments [] 0 payment_keys.

(** The whole way, evaluated. *)
Example payment_accepted :
  match built_tx with
  | Returns (Built tx _) =>
    match tx_to_blob tx with
    | Returns bd =>
      match maybe_tx_from_blob no_rct bd with
      | Some tx' =>
        match semantics_ok tx' false, check_inputs ring_db ∅ tx' BlockTemplate.BlockTemplate.fresh_tvc with
        | Returns b, Returns (ok, _, _, _) => b && ok && (check_ringct_outputs tx' BlockTemplate.BlockTemplate.fresh_tvc).1
        | _, _ => false
        end
      | None => false
      end
    | Throws => false
    end
  | _ => false
  end = true.
Proof. vm_cast_no_check (eq_refl true). Qed.

Lemma one_spend_ok : spend_ok ring_db payer payer_table one_spend.
Proof.
  split.
  - reflexivity.
  - vm_compute. split; congruence.
  - vm_compute. repeat split; congruence.
  - vm_compute. repeat split; congruence.
  - vm_compute. reflexivity.
  - vm_compute. reflexivity.
  - vm_compute. reflexivity.
  - reflexivity.
  - repeat (constructor; [unfold fits; cbn; lia|]). constructor.
  - change ((src_outputs (sp_src one_spend)).*1) with (seqZ 0 32). apply Sorted_StronglySorted; [intros x y z; lia|]. repeat (constructor; [|constructor; lia]). repeat constructor.
  - repeat (constructor; [split; vm_compute; reflexivity|]). constructor.
  - repeat (constructor; [vm_compute; reflexivity|]). constructor.
  - vm_compute. congruence.
  - cbn. set_solver.
Qed.

Lemma two_payments_ok : plan_ok ring_db payer payer_table [one_spend] two_payments payment_keys 0.
Proof.
  split.
  - discriminate.
  - cbn. lia.
  - constructor; [exact one_spend_ok|constructor].
  - apply NoDup_singleton.
  - cbn. lia.
  - reflexivity.
  - intros [|[|k]] dst E; [..|discriminate]; injection E as <-.
    all: split; [vm_compute; split; congruence|vm_compute; repeat split; congruence..|exists (get_subaddress_spend_secret_key payer main_index)].
    all: split_and!; [reflexivity|vm_compute; repeat split; congruence|vm_compute; congruence].
  - unfold fits. lia.
  - vm_compute. split; congruence.
Qed.

Lemma example_draws_ok : draws_ok [one_spend] two_payments payment_keys 1 example_draws.
Proof.
  split.
  - apply (bool_decide_unpack _). vm_compute. exact I.
  - intros k j. cbn [example_draws d_sig]. pose proof (Z.mod_pos_bound (Z.of_nat (k + j)) 100 ltac:(lia)). assert (500 < L) by reflexivity.
    unfold secret_ok, scalar_ok. lia.
  - exact example_random_ok.
  - intros i. vm_compute. split; congruence.
  - exact model_init_generators.
  - intros j Hj. assert (j = 0)%nat as -> by lia. vm_compute. reflexivity.
Qed.

Lemma constructed_transaction_accepted_witness :
  exists res, built_tx = Returns res /\ (res = OutOfAttempts \/ exists tx permutation, res = Built tx permutation).
Proof.
  destruct (constructed_transaction_accepted ring_db payer payer_table no_rct [one_spend] two_payments payment_keys 0 two_payments_ok
    1 example_draws example_draws_ok ∅ BlockTemplate.BlockTemplate.fresh_tvc) as (res & E & [[-> _]|(tx & permutation & rv & proof & full & -> & _)]).
  - intros n. reflexivity.
  - vm_compute. reflexivity.
  - intros h e _ outs Eo. rewrite lookup_empty in Eo. discriminate.
  - exists OutOfAttempts. split; [exact E|now left].
  - exists (Built tx permutation). split; [exact E|]. right. eauto.
Defined.

End Examples.

End TxBuild.
