(* ===== verification/WalletLogic.v ===== *)
(** The pure part of the wallet ([src/src/wallet/logic/functional/] and [src/src/wallet/logic/type/]): the data of
    received and of sent money, the scan of an output, the choice of the inputs of a payment, fees, balances, and
    the assembly of a transaction from selected outputs. *)

From stdpp Require Import gmap sorting.
From S2P Require Import Prelude Hash Config Difficulty Varint Serialization Primality Group ModelGroup Key RctOps VectorOps InnerProduct Bulletproof BulletproofComplete Clsag RctTypes TxTypes Consensus Coinbase FormatUtils TxExtra RingCT TxUtils BlockQueue PoolTable TxPool TxPoolInv BlockTemplate ChainDb ChainDbInv LmdbTxn TxCheck Blockchain Core TxBuild.

Module WalletLogic.
Import PoolTable.PoolTable Config Key RctOps VectorOps Clsag RctTypes TxTypes Consensus Coinbase FormatUtils TxExtra RingCT TxUtils TxPool ChainDb TxCheck Core TxBuild.

#[export] Instance subaddress_index_eq_dec : EqDecision subaddress_index.
Proof. solve_decision. Defined.
#[export] Instance subaddress_index_countable : Countable subaddress_index :=
  inj_countable' (fun i => (major i, minor i)) (fun x => {| major := x.1; minor := x.2 |}) ltac:(now intros []).

(** ** Data *)

(** An output that the wallet has received. *)
Record transfer_details := {
  m_block_height : Z; m_tx : transaction_prefix; m_txid : hash; m_internal_output_index : nat; m_global_output_index : Z;
  m_spent : bool; m_frozen : bool; m_spent_height : Z; m_output_key_image : key_image; m_mask : ec_scalar; m_amount : Z; m_rct : bool;
  m_output_key_image_known : bool; m_output_key_image_request : bool; m_pk_index : Z; m_subaddr_index : subaddress_index;
  m_output_key_image_partial : bool; m_multisig_k : list ec_point; m_fake_multisig_info : list ec_point; m_uses : list (Z * hash) }.

(** Reading past the end of the outputs is undefined. *)
Definition get_public_key (td : transfer_details) : result public_key :=
  match vout (m_tx td) !! m_internal_output_index td with
  | Some {| target := txout_to_key k |} => Returns k
  | None => Throws
  end.

Inductive transfer_state := pending | pending_not_in_pool | failed.

(** A transaction that was sent. The zero payment identifier is left out. *)
Record unconfirmed_transfer_details := {
  u_tx : transaction_prefix; u_amount_in : Z; u_amount_out : Z; u_change : Z; u_sent_time : Z; u_dests : list tx_destination_entry;
  u_state : transfer_state; u_timestamp : Z; u_subaddr_account : Z; u_subaddr_indices : gset Z; u_rings : list (key_image * list Z) }.

(** The same, in a block. *)
Record confirmed_transfer_details := {
  c_amount_in : Z; c_amount_out : Z; c_change : Z; c_block_height : Z; c_dests : list tx_destination_entry; c_timestamp : Z;
  c_unlock_height : Z; c_subaddr_account : Z; c_subaddr_indices : gset Z; c_rings : list (key_image * list Z) }.

Definition no_confirmed_transfer : confirmed_transfer_details :=
  {| c_amount_in := 0; c_amount_out := 0; c_change := u64_max; c_block_height := 0; c_dests := []; c_timestamp := 0; c_unlock_height := 0;
     c_subaddr_account := 2 ^ 32 - 1; c_subaddr_indices := ∅; c_rings := [] |}.

Definition confirm_transfer (utd : unconfirmed_transfer_details) (height : Z) : confirmed_transfer_details :=
  {| c_amount_in := u_amount_in utd; c_amount_out := u_amount_out utd; c_change := u_change utd; c_block_height := height;
     c_dests := u_dests utd; c_timestamp := u_timestamp utd; c_unlock_height := unlock_height (u_tx utd);
     c_subaddr_account := u_subaddr_account utd; c_subaddr_indices := u_subaddr_indices utd; c_rings := u_rings utd |}.

(** What the scan of an output finds. The keys, the image and the mask of a fresh object are those of [empty_scan]. *)
Record tx_scan_info_t := {
  si_output_key_pair : keypair; si_ki : key_image; si_mask : ec_scalar; si_amount : Z; si_money_transfered : Z; si_error : bool;
  si_received : option subaddress_receive_info }.

Record payment_details := {
  p_tx_hash : hash; p_amount : Z; p_amounts : list Z; p_fee : Z; p_block_height : Z; p_unlock_height : Z; p_timestamp : Z; p_coinbase : bool;
  p_subaddr_index : subaddress_index }.

Record tx_construction_data := {
  cd_sources : list tx_source_entry; cd_change_dts : tx_destination_entry; cd_splitted_dsts : list tx_destination_entry;
  cd_selected_transfers : list nat; cd_extra : blob; cd_unlock_height : Z; cd_use_rct : bool; cd_dests : list tx_destination_entry;
  cd_subaddr_account : Z; cd_subaddr_indices : gset Z }.

(** The text with the key images is only logged, and left out. *)
Record pending_tx := {
  ptx_tx : transaction; ptx_dust : Z; ptx_fee : Z; ptx_dust_added_to_fee : bool; ptx_change_dts : tx_destination_entry;
  ptx_selected_transfers : list nat; ptx_output_secret_keys : list secret_key; ptx_dests : list tx_destination_entry;
  ptx_construction_data : tx_construction_data }.

(** [get_tx_outputs_entry]: global index, output key, commitment *)
Abbreviation get_tx_outputs_entry := (Z * public_key * ec_point)%type.

(** ** Fees *)

(** The loop counts to the binary logarithm, rounded up. The products of [int]s are in range for what a transaction can hold. *)
Definition estimate_rct_tx_size (n_inputs mixin n_outputs extra_size : Z) : Z :=
  let size := 1 + 6 in
  let size := size + n_inputs * (1 + 6 + (mixin + 1) * 2 + 32) in
  let size := size + n_outputs * (6 + 32) in
  let size := size + extra_size in
  let size := size + 1 in
  let log_padded_outputs := Z.log2_up n_outputs in
  let size := size + (2 * (6 + log_padded_outputs) + 4 + 5) * 32 + 3 in
  let size := size + n_inputs * (32 * (mixin + 1) + 64) in
  let size := size + 32 * n_inputs in
  let size := size + 8 * n_outputs in
  let size := size + 32 * n_outputs in
  size + 4.

Definition estimate_tx_size := estimate_rct_tx_size.
Definition estimate_tx_weight := estimate_tx_size.

Definition calculate_fee_from_weight (base_fee weight fee_multiplier fee_quantization_mask : Z) : Z :=
  let fee := weight ⊠ base_fee ⊠ fee_multiplier in
  ((fee ⊞ fee_quantization_mask ⊟ 1) / fee_quantization_mask) ⊠ fee_quantization_mask.

Definition estimate_fee (n_inputs mixin n_outputs extra_size base_fee fee_multiplier fee_quantization_mask : Z) : Z :=
  calculate_fee_from_weight base_fee (estimate_tx_weight n_inputs mixin n_outputs extra_size) fee_multiplier fee_quantization_mask.

Definition ring_size : Z := 32.

Definition estimate_tx_size_and_weight (n_inputs n_outputs extra_size : Z) : result (Z * Z) :=
  _ ← throw_if (n_inputs <=? 0);
  _ ← throw_if (n_outputs <? 0);
  let n_adjusted_outputs := if n_outputs =? 1 then 2 else n_outputs in
  Returns (estimate_tx_size n_inputs (ring_size - 1) n_adjusted_outputs extra_size,
           estimate_tx_weight n_inputs (ring_size - 1) n_adjusted_outputs extra_size).

Definition get_fee_multiplier (priority : Z) : Z :=
  if priority =? 0 then 1 else
  match [1; 5; 25; 1000] !! Z.to_nat (priority - 1) with Some m => m | None => 1 end.

Definition get_base_fee : Z := FEE_PER_BYTE.

Definition calculate_fee (blob_size base_fee fee_multiplier fee_quantization_mask : Z) : Z :=
  calculate_fee_from_weight base_fee blob_size fee_multiplier fee_quantization_mask.

Definition get_upper_transaction_weight_limit : Z := get_max_tx_size / 2 ⊟ CRYPTONOTE_COINBASE_BLOB_RESERVED_SIZE.

(** ** Helpers *)

Definition estimate_blockchain_height (approximate_height : Z) (target_height local_height : option Z) : Z :=
  let blocks_per_month := 288 * 30 in
  let height :=
    match target_height with
    | Some t => if t <? approximate_height then t else approximate_height
    | None => if blocks_per_month <? approximate_height then approximate_height ⊟ blocks_per_month else 0
    end in
  match local_height with Some l => if height <? l then l else height | None => height end.

Definition get_subaddress_clamped_sum (idx extra : Z) : Z :=
  if (2 ^ 32 - 1) - extra <? idx then 2 ^ 32 - 1 else idx + extra.

(** The amount at an index; past the end it is undefined. *)
Definition amount_at (transfers : list transfer_details) (idx : nat) : result Z :=
  match transfers !! idx with Some td => Returns (m_amount td) | None => Throws end.

Definition sum_selected (transfers : list transfer_details) (selected : list nat) : result Z :=
  amounts ← result_mapM (amount_at transfers) selected;
  Returns (foldl u64_add 0 amounts).

Definition get_num_outputs (dsts : list tx_destination_entry) (transfers : list transfer_details) (selected_transfers : list nat) : result nat :=
  let outputs := length dsts in
  let needed_money := foldl u64_add 0 (dst_amount <$> dsts) in
  found_money ← sum_selected transfers selected_transfers;
  let outputs := if negb (found_money =? needed_money) then S outputs else outputs in
  Returns (if (outputs <? 2)%nat then S outputs else outputs).

Definition add_reason (reasons reason : string) : string :=
  if negb (String.eqb reasons "") then (reasons +:+ ", ")%string else (reasons +:+ reason)%string.

(** The flags of the node's answer, in the order in which they are read. *)
Record send_response := {
  low_mixin : bool; double_spend : bool; invalid_input : bool; invalid_output : bool; too_few_outputs : bool; too_big : bool; overspend : bool;
  fee_too_low : bool; sanity_check_failed : bool; not_relayed : bool }.

Definition get_text_reason (res : send_response) : string :=
  foldl (fun reason '(flag, text) => if flag : bool then add_reason reason text else reason) ""%string
    [(low_mixin res, "bad ring size"); (double_spend res, "double spend"); (invalid_input res, "invalid input");
     (invalid_output res, "invalid output"); (too_few_outputs res, "too few outputs"); (too_big res, "too big");
     (overspend res, "overspend"); (fee_too_low res, "fee too low"); (sanity_check_failed res, "tx sanity check failed");
     (not_relayed res, "tx was not relayed")]%string.

(** Conversion to a 32-bit [int]. *)
Definition to_int (x : Z) : Z := (x + 2 ^ 31) mod 2 ^ 32 - 2 ^ 31.

(** In tenths. *)
Definition get_output_relatedness (td0 td1 : transfer_details) : Z :=
  if bool_decide (m_txid td0 = m_txid td1) then 10 else
  let dh := to_int (if m_block_height td1 <? m_block_height td0 then m_block_height td0 ⊟ m_block_height td1
                    else m_block_height td1 ⊟ m_block_height td0) in
  if dh =? 0 then 9 else if dh =? 1 then 8 else if dh <? 10 then 2 else 0.

Definition outs_unique (outs : list (list get_tx_outputs_entry)) : gset Z * nat :=
  (list_to_set ((fun out => out.1.1) <$> concat outs), foldl (fun total it => (total + length it)%nat) 0%nat outs).

(** ** The scan of an output *)

Section Scan.
Context `{Sha3} `{Sodium}.

Definition empty_scan : tx_scan_info_t :=
  {| si_output_key_pair := {| sec := 0; pub := 0 |}; si_ki := 0; si_mask := 0; si_amount := 0; si_money_transfered := 0; si_error := true; si_received := None |}.

(** The only type of a target is [txout_to_key]. *)
Definition scan_output_for_subaddresses (o : tx_out) (tx_output_shared_secret : ecdh_shared_secret) (i : nat)
    (subaddresses : gmap public_key subaddress_index) : tx_scan_info_t :=
  let '(txout_to_key k) := target o in
  let received := check_output_for_subaddresses subaddresses k tx_output_shared_secret (Z.of_nat i) in
  {| si_output_key_pair := si_output_key_pair empty_scan; si_ki := si_ki empty_scan; si_mask := si_mask empty_scan; si_amount := 0;
     si_money_transfered := match received with Some _ => amount o | None => 0 end; si_error := false; si_received := received |}.

Definition decodeRct (rv : rctData) (tx_output_shared_secret : ecdh_shared_secret) (i : nat) : option (Z * ec_scalar) :=
  let hashed_secret := hash_tx_output_shared_secret_to_scalar tx_output_shared_secret (Z.of_nat i) in
  if type (basic rv) =? RCTTypeCLSAG then
    checked ← maybeSizeCheckedRctData rv;
    match decode_ringct_commitment checked hashed_secret i with Returns r => Some r | Throws => None end
  else None.

Definition with_keys (kp : keypair) (ki : key_image) (x : tx_scan_info_t) : tx_scan_info_t :=
  {| si_output_key_pair := kp; si_ki := ki; si_mask := si_mask x; si_amount := si_amount x; si_money_transfered := si_money_transfered x;
     si_error := si_error x; si_received := si_received x |}.
Definition with_money (money : Z) (mask : ec_scalar) (x : tx_scan_info_t) : tx_scan_info_t :=
  {| si_output_key_pair := si_output_key_pair x; si_ki := si_ki x; si_mask := mask; si_amount := si_amount x; si_money_transfered := money;
     si_error := si_error x; si_received := si_received x |}.
Definition with_error (x : tx_scan_info_t) : tx_scan_info_t :=
  {| si_output_key_pair := si_output_key_pair x; si_ki := si_ki x; si_mask := si_mask x; si_amount := si_amount x;
     si_money_transfered := si_money_transfered x; si_error := true; si_received := si_received x |}.
Definition with_amount (x : tx_scan_info_t) : tx_scan_info_t :=
  {| si_output_key_pair := si_output_key_pair x; si_ki := si_ki x; si_mask := si_mask x; si_amount := si_money_transfered x;
     si_money_transfered := si_money_transfered x; si_error := si_error x; si_received := si_received x |}.

(** Whether the output was received is dereferenced without a check. *)
Definition scan_output (tx : transaction) (miner_tx : bool) (i : nat) (tx_scan_info : tx_scan_info_t) (outs : list nat) (keys : spend_view_secret_keys)
    : result tx_scan_info_t :=
  match vout (prefix tx) !! i, si_received tx_scan_info with
  | Some {| target := txout_to_key k |}, Some received =>
    match derive_output_key_pair_and_key_image keys k (ri_tx_output_shared_secret received) (Z.of_nat i) (ri_index received) with
    | None => Throws
    | Some (kp, ki) =>
      let tx_scan_info := with_keys kp ki tx_scan_info in
      _ ← throw_if (negb (pub kp =? k));
      _ ← throw_if (bool_decide (i ∈ outs));
      let decoded :=
        if (si_money_transfered tx_scan_info =? 0) && negb miner_tx
        then '(money, mask) ← decodeRct (ringct tx) (ri_tx_output_shared_secret received) i; Some (with_money money mask tx_scan_info)
        else Some tx_scan_info in
      match decoded with
      | None => Returns (with_error tx_scan_info)
      | Some tx_scan_info =>
        if si_money_transfered tx_scan_info =? 0 then Returns (with_error tx_scan_info) else Returns (with_amount tx_scan_info)
      end
    end
  | _, _ => Throws
  end.

End Scan.

(** ** Which outputs can be spent *)

Definition is_spent (td : transfer_details) (strict : bool) : bool :=
  if strict then m_spent td && (0 <? m_spent_height td) else m_spent td.

Definition is_tx_spendtime_unlocked (unlock_height current_height : Z) : bool :=
  if unlock_height =? 0 then true else unlock_height <? current_height ⊞ CRYPTONOTE_LOCKED_TX_ALLOWED_DELTA_BLOCKS.

Definition are_heights_unlocked (unlock_height block_height current_height : Z) : bool :=
  if negb (is_tx_spendtime_unlocked unlock_height current_height) then false else
  negb (current_height <? block_height ⊞ CRYPTONOTE_DEFAULT_TX_SPENDABLE_AGE).

Definition is_transfer_unlocked (td : transfer_details) (current_height : Z) : bool :=
  are_heights_unlocked (unlock_height (m_tx td)) (m_block_height td) current_height.

(** ** The choice of the inputs *)

Section Pick.
Context (needed_money subaddr_account : Z) (subaddr_indices : gset Z) (current_height : Z) (m_transfers : list transfer_details).

(** Conditions of the first loop and of the outer second one, without those on the amount and on partial images. *)
Definition spendable (td : transfer_details) : bool :=
  negb (is_spent td false) && negb (m_frozen td) && m_rct td && is_transfer_unlocked td current_height &&
  (major (m_subaddr_index td) =? subaddr_account) && bool_decide (minor (m_subaddr_index td) ∈ subaddr_indices).

Definition alone (td : transfer_details) : bool := spendable td && (needed_money <=? m_amount td).

Definition partner (td td2 : transfer_details) : bool :=
  negb (is_spent td2 false) && negb (m_frozen td2) && negb (m_output_key_image_partial td2) && m_rct td2 &&
  (needed_money <=? m_amount td ⊞ m_amount td2) && is_transfer_unlocked td2 current_height &&
  bool_decide (m_subaddr_index td2 = m_subaddr_index td).

(** [inl]: returned at once. *)
Fixpoint inner_loop (i : nat) (td : transfer_details) (j : nat) (rest : list transfer_details) (picks : list nat) (current : Z) : list nat + (list nat * Z) :=
  match rest with
  | [] => inr (picks, current)
  | td2 :: rest =>
      if partner td td2 then
        let relatedness := get_output_relatedness td td2 in
        if relatedness <? current then
          if relatedness =? 0 then inl [i; j] else inner_loop i td (S j) rest [i; j] relatedness
        else inner_loop i td (S j) rest picks current
      else inner_loop i td (S j) rest picks current
  end.

Fixpoint outer_loop (i : nat) (rest : list transfer_details) (picks : list nat) (current : Z) : list nat :=
  match rest with
  | [] => picks
  | td :: rest =>
      if spendable td && negb (m_output_key_image_partial td) then
        match inner_loop i td (S i) rest picks current with
        | inl picks => picks
        | inr (picks, current) => outer_loop (S i) rest picks current
        end
      else outer_loop (S i) rest picks current
  end.

Definition pick_preferred_rct_inputs : list nat :=
  match list_find (fun td => alone td = true) m_transfers with
  | Some (i, _) => [i]
  | None => outer_loop 0 m_transfers [] 10
  end.

End Pick.

(** ** Balances *)

Definition add_to (index_minor amount : Z) (amount_per_subaddr : gmap Z Z) : gmap Z Z :=
  match amount_per_subaddr !! index_minor with
  | None => <[index_minor := amount]> amount_per_subaddr
  | Some a => <[index_minor := a ⊞ amount]> amount_per_subaddr
  end.

Definition is_failed (s : transfer_state) : bool := match s with failed => true | _ => false end.

Definition in_account (subaddr_index_major : Z) (only_confirmed : bool) (td : transfer_details) : bool :=
  (major (m_subaddr_index td) =? subaddr_index_major) && negb (is_spent td only_confirmed) && negb (m_frozen td).

(** The order of an unordered map is that of [map_to_list]. *)
Definition balance_per_subaddress (subaddr_index_major : Z) (only_confirmed : bool) (m_transfers : list transfer_details)
    (m_unconfirmed_txs : gmap hash unconfirmed_transfer_details) : gmap Z Z :=
  let confirmed :=
    foldl (fun acc td => if in_account subaddr_index_major only_confirmed td then add_to (minor (m_subaddr_index td)) (m_amount td) acc else acc) ∅ m_transfers in
  if only_confirmed then confirmed else
  foldl (fun acc utx => if (u_subaddr_account utx.2 =? subaddr_index_major) && negb (is_failed (u_state utx.2)) then add_to 0 (u_change utx.2) acc else acc)
    confirmed (map_to_list m_unconfirmed_txs).

(** Amount, blocks to unlock, time to unlock *)
Definition unlocked_entry (blockchain_height : Z) (td : transfer_details) : Z * (Z * Z) :=
  if is_transfer_unlocked td blockchain_height then (m_amount td, (0, 0)) else
  let unlock := m_block_height td ⊞ Z.max CRYPTONOTE_DEFAULT_TX_SPENDABLE_AGE CRYPTONOTE_LOCKED_TX_ALLOWED_DELTA_BLOCKS in
  let unlock := if unlock <? unlock_height (m_tx td) then unlock_height (m_tx td) else unlock in
  (0, (if blockchain_height <? unlock then unlock ⊟ blockchain_height else 0, 0)).

Definition add_unlocked (index_minor : Z) (e : Z * (Z * Z)) (acc : gmap Z (Z * (Z * Z))) : gmap Z (Z * (Z * Z)) :=
  match acc !! index_minor with
  | None => <[index_minor := e]> acc
  | Some f => <[index_minor := (f.1 ⊞ e.1, (Z.max f.2.1 e.2.1, Z.max f.2.2 e.2.2))]> acc
  end.

Definition unlocked_balance_per_subaddress (subaddr_index_major : Z) (only_confirmed : bool) (m_transfers : list transfer_details) (blockchain_height : Z)
    : gmap Z (Z * (Z * Z)) :=
  foldl (fun acc td => if in_account subaddr_index_major only_confirmed td then add_unlocked (minor (m_subaddr_index td)) (unlocked_entry blockchain_height td) acc else acc)
    ∅ m_transfers.

(** The time is that of the call. *)
Definition get_unconfirmed_transfer_details (now : Z) (tx : transaction) (amount_in : Z) (dests : list tx_destination_entry) (change_amount subaddr_account : Z)
    (subaddr_indices : gset Z) : unconfirmed_transfer_details :=
  {| u_tx := prefix tx; u_amount_in := amount_in; u_amount_out := foldl u64_add 0 (dst_amount <$> dests) ⊞ change_amount; u_change := change_amount;
     u_sent_time := now; u_dests := dests; u_state := pending; u_timestamp := now; u_subaddr_account := subaddr_account;
     u_subaddr_indices := subaddr_indices;
     u_rings := omap (fun i => match i with txin_from_key x => Some (output_key_image x, output_relative_offsets x) | txin_gen _ => None end) (vin (prefix tx)) |}.

(** ** The assembly of a transaction *)

Fixpoint sum_needed (dsts : list tx_destination_entry) (needed_money : Z) : result Z :=
  match dsts with
  | [] => Returns needed_money
  | dt :: rest =>
      _ ← throw_if (dst_amount dt =? 0);
      let needed_money := needed_money ⊞ dst_amount dt in
      _ ← throw_if (needed_money <? dst_amount dt);
      sum_needed rest needed_money
  end.

Definition transfer_at (transfers : list transfer_details) (idx : nat) : result transfer_details :=
  match transfers !! idx with Some td => Returns td | None => Throws end.

Definition no_destination : tx_destination_entry :=
  {| dst_amount := 0; dst_addr := {| m_spend_public_key := 0; m_view_public_key := 0 |}; dst_is_subaddress := false |}.

Section Transfer.
Context `{Sha3} `{Sodium} `{UndefinedShift} (init : rctData).

(** The ring of an input, with the real output put in the place of the one with its index. The check is for
    [fake_outputs_count] entries; one more is read, which may be past the end. *)
Definition prepare_source (fake_outputs_count : nat) (td : transfer_details) (outs : list get_tx_outputs_entry) : result tx_source_entry :=
  _ ← throw_if (length outs <? fake_outputs_count)%nat;
  _ ← throw_if (length outs <? S fake_outputs_count)%nat;
  let outputs := (fun e => (e.1.1, {| output_public_key := e.1.2; decoy_commit := e.2 |})) <$> take (S fake_outputs_count) outs in
  match list_find (fun a => a.1 = m_global_output_index td) outputs with
  | None => Throws
  | Some (k, _) =>
      pk ← get_public_key td;
      Returns {| src_outputs := <[k := (m_global_output_index td, {| output_public_key := pk; decoy_commit := commit (m_amount td) (m_mask td) |})]> outputs;
                 real_output := k; real_out_tx_key := default null_pkey (get_tx_ecdh_public_key_from_extra (extra (m_tx td)));
                 real_out_output_secret_keys := default [] (get_output_ecdh_public_keys_from_extra (extra (m_tx td)));
                 real_output_in_tx_index := Z.of_nat (m_internal_output_index td); src_amount := m_amount td; src_rct := m_rct td; src_mask := m_mask td |}
  end.

Fixpoint prepare_sources (fake_outputs_count : nat) (tds : list transfer_details) (outs : list (list get_tx_outputs_entry)) : result (list tx_source_entry) :=
  match tds, outs with
  | [], _ => Returns []
  | _ :: _, [] => Throws
  | td :: tds, o :: outs => src ← prepare_source fake_outputs_count td o; rest ← prepare_sources fake_outputs_count tds outs; Returns (src :: rest)
  end.

Definition change_destination (account_keys : spend_view_secret_keys) (subaddr_account amount : Z) : tx_destination_entry :=
  if amount =? 0 then no_destination else
  let change_subaddress_index := if subaddr_account =? 0 then 1 else 0 in
  {| dst_amount := amount; dst_addr := get_subaddress account_keys {| major := subaddr_account; minor := change_subaddress_index |}; dst_is_subaddress := true |}.

Definition is_from_key (i : txin_v) : bool := match i with txin_from_key _ => true | txin_gen _ => false end.

(** [None]: the range proof needs more attempts. *)
Definition transfer_selected_rct (attempts : nat) (d : draws) (generate : nat -> secret_key) (dsts : list tx_destination_entry) (selected_transfers : list nat)
    (fake_outputs_count : nat) (outs : list (list get_tx_outputs_entry)) (unlock_height fee : Z) (extra_in : blob) (m_transfers : list transfer_details)
    (account_keys : spend_view_secret_keys) (m_subaddresses : gmap public_key subaddress_index) : result (option (pending_tx * transaction)) :=
  _ ← throw_if (length dsts =? 0)%nat;
  needed_money ← sum_needed dsts fee;
  found_money ← sum_selected m_transfers selected_transfers;
  _ ← throw_if (found_money <? needed_money);
  tds ← result_mapM (transfer_at m_transfers) selected_transfers;
  match tds with
  | [] => Throws
  | first :: others =>
    let subaddr_account := major (m_subaddr_index first) in
    _ ← throw_unless (forallb (fun td => subaddr_account =? major (m_subaddr_index td)) others);
    sources ← prepare_sources fake_outputs_count tds outs;
    let change_dts := change_destination account_keys subaddr_account (found_money ⊟ needed_money) in
    let splitted_dsts := if dst_amount change_dts =? 0 then dsts else dsts ++ [change_dts] in
    r ← construct_tx_and_get_tx_key init attempts d generate account_keys m_subaddresses sources splitted_dsts extra_in unlock_height;
    match r with
    | (Refused, _) => Throws
    | (OutOfAttempts, _) => Returns None
    | (Built tx permutation, output_secret_keys) =>
      weight ← get_transaction_weight tx;
      _ ← throw_if (get_upper_transaction_weight_limit <=? weight);
      _ ← throw_unless (forallb is_from_key (vin (prefix tx)));
      Returns (Some
        ({| ptx_tx := tx; ptx_dust := 0; ptx_fee := fee; ptx_dust_added_to_fee := false; ptx_change_dts := change_dts;
            ptx_selected_transfers := apply_permutation permutation selected_transfers; ptx_output_secret_keys := output_secret_keys; ptx_dests := dsts;
            ptx_construction_data :=
              {| cd_sources := sources; cd_change_dts := change_dts; cd_splitted_dsts := splitted_dsts; cd_selected_transfers := selected_transfers;
                 cd_extra := extra (prefix tx); cd_unlock_height := unlock_height; cd_use_rct := true; cd_dests := dsts; cd_subaddr_account := subaddr_account;
                 cd_subaddr_indices := list_to_set ((fun td => minor (m_subaddr_index td)) <$> tds) |} |}, tx))
    end
  end.

End Transfer.

(** ** The inputs that are picked *)

Lemma relatedness_range td0 td1 : 0 <= get_output_relatedness td0 td1 <= 10.
Proof. unfold get_output_relatedness. repeat case_match; lia. Qed.

Section Picked.
Context (needed_money subaddr_account : Z) (subaddr_indices : gset Z) (current_height : Z) (ts : list transfer_details).
Abbreviation spendable' := (spendable subaddr_account subaddr_indices current_height).
Abbreviation partner' := (partner needed_money current_height).
Abbreviation inner_loop' := (inner_loop needed_money current_height).
Abbreviation outer_loop' := (outer_loop needed_money subaddr_account subaddr_indices current_height).

(** Two outputs of one subaddress that cover the amount together. *)
Definition pair_ok (i j : nat) : Prop :=
  (i < j)%nat /\ exists td td2, ts !! i = Some td /\ ts !! j = Some td2 /\ spendable' td = true /\ m_output_key_image_partial td = false /\ partner' td td2 = true.

Definition related (i j : nat) : Z :=
  match ts !! i, ts !! j with Some td, Some td2 => get_output_relatedness td td2 | _, _ => 10 end.

Definition before (i j i' j' : nat) : Prop := (i < i')%nat \/ i = i' /\ (j < j')%nat.

(** The first of the least related pairs with [P], if they are not all from the same transaction. *)
Definition best_of (P : nat -> nat -> Prop) (picks : list nat) (current : Z) : Prop :=
  (picks = [] /\ current = 10 /\ forall i j, P i j -> related i j = 10) \/
  (exists i j, picks = [i; j] /\ P i j /\ current = related i j /\ current < 10 /\
     forall i' j', P i' j' -> current <= related i' j' /\ (related i' j' = current -> ~ before i' j' i j)).

Definition seen (i j : nat) (i' j' : nat) : Prop := pair_ok i' j' /\ before i' j' i j.

Lemma related_range i j : 0 <= related i j <= 10.
Proof. unfold related. repeat case_match; try lia. apply relatedness_range. Qed.

Lemma best_of_mono (P Q : nat -> nat -> Prop) picks current : (forall i j, P i j <-> Q i j) -> best_of P picks current -> best_of Q picks current.
Proof.
  intros HPQ [(-> & -> & H)|(i & j & -> & Hp & -> & Hlt & H)].
  - left. split_and!; auto. intros i j Hq. apply H. now apply HPQ.
  - right. exists i, j. split_and!; auto; [now apply HPQ|]. intros i' j' Hq. apply H. now apply HPQ.
Qed.

(** One more pair. *)
Lemma best_of_step i j picks current : best_of (seen i j) picks current -> pair_ok i j ->
  best_of (seen i (S j)) (if related i j <? current then [i; j] else picks) (if related i j <? current then related i j else current).
Proof.
  intros Hb Hij. assert (Hseen : forall i' j', seen i (S j) i' j' <-> seen i j i' j' \/ i' = i /\ j' = j).
  { unfold seen, before. intros i' j'. split; [|naive_solver lia]. intros [Hp Hlt]. destruct (decide (i' = i /\ j' = j)); [tauto|]. left. split; [assumption|lia]. }
  pose proof (related_range i j) as Hr. destruct (Z.ltb_spec (related i j) current) as [Hlt|Hge].
  - right. exists i, j. split_and!; [reflexivity|apply Hseen; now right|reflexivity| |].
    + destruct Hb as [(_ & -> & _)|(? & ? & _ & _ & _ & ? & _)]; lia.
    + intros i' j' [Hs|[-> ->]]%Hseen; [|split; [lia|]; intros _; unfold before; lia].
      destruct Hb as [(_ & -> & H)|(a & b & _ & _ & _ & _ & H)]; [rewrite (H _ _ Hs); split; lia|]. destruct (H _ _ Hs). split; lia.
  - destruct Hb as [(-> & -> & H)|(a & b & -> & Hp & -> & Hc & H)].
    + left. split_and!; auto. intros i' j' [Hs|[-> ->]]%Hseen; [auto|lia].
    + right. exists a, b. split_and!; auto; [apply Hseen; now left|]. intros i' j' [Hs|[-> ->]]%Hseen; [auto|]. split; [lia|].
      intros _. destruct Hp as [_ Hp]. unfold before in *. lia.
Qed.

Lemma skip_pair i j picks current : best_of (seen i j) picks current -> ~ pair_ok i j -> best_of (seen i (S j)) picks current.
Proof.
  intros Hb Hn. eapply best_of_mono; [|exact Hb]. intros i' j'. unfold seen, before. split; [naive_solver lia|].
  intros [Hp Hlt]. split; [assumption|]. destruct (decide (i' = i /\ j' = j)) as [[-> ->]|]; [contradiction|lia].
Qed.

(** A pair that is not related at all is best, whatever follows. *)
Lemma unrelated_is_best i j picks current : best_of (seen i j) picks current -> 0 < current -> pair_ok i j -> related i j = 0 -> best_of pair_ok [i; j] 0.
Proof.
  intros Hb Hc Hij Hr. right. exists i, j. split_and!; auto; try lia. intros i' j' Hp. pose proof (related_range i' j'). split; [lia|].
  intros E Hlt. destruct Hb as [(_ & -> & H')|(a & b & _ & _ & _ & _ & H')].
  - rewrite (H' i' j') in E by (now split). lia.
  - destruct (H' i' j'); [now split|]. lia.
Qed.

Lemma lookup_drop_cons {A} (l : list A) n x rest : drop n l = x :: rest -> l !! n = Some x /\ drop (S n) l = rest.
Proof.
  intros E. split.
  - rewrite <- (Nat.add_0_r n), <- lookup_drop, E. reflexivity.
  - rewrite <- Nat.add_1_r, <- drop_drop, E. reflexivity.
Qed.

Lemma inner_loop_best i td rest : forall j picks current, ts !! i = Some td -> spendable' td = true -> m_output_key_image_partial td = false ->
  (i < j)%nat -> drop j ts = rest -> best_of (seen i j) picks current -> 0 < current ->
  match inner_loop' i td j rest picks current with
  | inl picks' => best_of pair_ok picks' 0
  | inr (picks', current') => best_of (seen (S i) 0) picks' current' /\ 0 < current'
  end.
Proof.
  induction rest as [|td2 rest IH]; intros j picks current Hi Hs Hk Hlt Hd Hb Hc; cbn [inner_loop].
  - split; [|assumption]. eapply best_of_mono; [|exact Hb]. intros i' j'. unfold seen, before. split; [naive_solver lia|].
    intros [Hp Hl]. split; [assumption|]. destruct (decide (i' < i)%nat); [now left|]. right. assert (i' = i) as -> by lia.
    destruct Hp as (_ & _ & x & _ & Hx & _). apply lookup_lt_Some in Hx. apply (f_equal length) in Hd. rewrite length_drop in Hd. cbn in Hd. lia.
  - apply lookup_drop_cons in Hd as [Hj Hd].
    assert (Hij : pair_ok i j <-> partner' td td2 = true).
    { unfold pair_ok. rewrite Hi, Hj. split; [intros (_ & ? & ? & [= <-] & [= <-] & _ & _ & H); exact H|]. intros H. split; [assumption|]. exists td, td2. auto. }
    assert (Er : get_output_relatedness td td2 = related i j) by (unfold related; now rewrite Hi, Hj). rewrite Er.
    destruct (partner' td td2) eqn:Ep.
    + assert (Hpair : pair_ok i j) by now apply Hij. pose proof (best_of_step i j picks current Hb Hpair) as Hstep. pose proof (related_range i j).
      destruct (Z.ltb_spec (related i j) current); [|apply IH; auto; lia]. destruct (Z.eqb_spec (related i j) 0); [|apply IH; auto; lia].
      now apply (unrelated_is_best i j picks current).
    + apply IH; auto. apply skip_pair; [assumption|]. rewrite Hij. discriminate.
Qed.

Lemma outer_loop_best rest : forall i picks current, drop i ts = rest -> best_of (seen i 0) picks current -> 0 < current ->
  exists current', best_of pair_ok (outer_loop' i rest picks current) current'.
Proof.
  induction rest as [|td rest IH]; intros i picks current Hd Hb Hc; cbn [outer_loop].
  - exists current. eapply best_of_mono; [|exact Hb]. intros i' j'. unfold seen, before. split; [tauto|]. intros Hp. split; [assumption|]. left.
    destruct Hp as (_ & x & _ & Hx & _). apply lookup_lt_Some in Hx. apply (f_equal length) in Hd. rewrite length_drop in Hd. cbn in Hd. lia.
  - apply lookup_drop_cons in Hd as [Hi Hd].
    assert (Hfrom : best_of (seen i (S i)) picks current).
    { eapply best_of_mono; [|exact Hb]. intros i' j'. unfold seen, before. split; [naive_solver lia|]. intros [Hp Hl]. split; [assumption|].
      left. destruct Hp as [Hlt _]. lia. }
    destruct (spendable' td && negb (m_output_key_image_partial td)) eqn:Es.
    + apply andb_true_iff in Es as [Es Ek%negb_true_iff]. pose proof (inner_loop_best i td rest (S i) picks current Hi Es Ek ltac:(lia) Hd Hfrom Hc) as Hin.
      destruct (inner_loop' i td (S i) rest picks current) as [picks'|[picks' current']]; [eauto|]. destruct Hin. now apply (IH (S i) picks' current').
    + apply (IH (S i)); auto. eapply best_of_mono; [|exact Hb]. intros i' j'. unfold seen, before. split; [naive_solver lia|]. intros [Hp Hl]. split; [assumption|].
      destruct (decide (i' = i)) as [->|]; [|lia]. exfalso. destruct Hp as (_ & x & x2 & Hx & _ & Hsx & Hkx & _). rewrite Hi in Hx. injection Hx as <-.
      now rewrite Hsx, Hkx in Es.
Qed.

End Picked.

(** C22: The inputs of a payment.  [pick_preferred_rct_inputs] returns the oldest output that can be spent from the asked
    subaddresses and covers the amount alone, if there is one.  Otherwise it returns two outputs of one subaddress that
    cover the amount together (in 64-bit arithmetic), the first pair among those whose outputs are least related; it
    returns nothing only if every such pair comes from one transaction. *)
Theorem picked_inputs_least_related needed_money subaddr_account subaddr_indices current_height ts :
  let picks := pick_preferred_rct_inputs needed_money subaddr_account subaddr_indices current_height ts in
  let good := alone needed_money subaddr_account subaddr_indices current_height in
  let pair := pair_ok needed_money subaddr_account subaddr_indices current_height ts in
  (exists i td, picks = [i] /\ ts !! i = Some td /\ good td = true /\ forall k td', (k < i)%nat -> ts !! k = Some td' -> good td' = false) \/
  Forall (fun td => good td = false) ts /\
    (picks = [] /\ (forall i j, pair i j -> related ts i j = 10) \/
     exists i j, picks = [i; j] /\ pair i j /\ related ts i j < 10 /\
       forall i' j', pair i' j' -> related ts i j <= related ts i' j' /\ (related ts i' j' = related ts i j -> ~ before i' j' i j)).
Proof.
  intros picks good pair. subst picks. unfold pick_preferred_rct_inputs. destruct (list_find _ ts) as [[i td]|] eqn:Ef.
  - left. apply list_find_Some in Ef as (Hi & Hg & Hb). exists i, td. split_and!; auto. intros k td' Hk Htd. apply not_true_is_false. eauto.
  - right. apply list_find_None in Ef. split; [eapply Forall_impl; [exact Ef|]; intros td; apply not_true_is_false|].
    destruct (outer_loop_best needed_money subaddr_account subaddr_indices current_height ts ts 0 [] 10) as [current Hb]; [reflexivity| |lia|].
    + left. split_and!; auto. intros i j [_ Hl]. unfold before in Hl. lia.
    + destruct Hb as [(-> & _ & H)|(i & j & -> & Hp & -> & Hlt & H)]; [left; auto|]. right. exists i, j. auto.
Qed.

(** ** The fee *)

(** C23: The node does not refuse the fee that the wallet calculates: for a transaction of any size below 6 * 10^10 bytes and for every
    priority, the fee of [calculate_fee] passes [check_fee], and it is a multiple of the quantum. *)
Theorem wallet_fee_accepted blob_size priority : 0 <= blob_size < 60000000000 ->
  let fee := calculate_fee blob_size get_base_fee (get_fee_multiplier priority) fee_quantization_mask in
  check_fee blob_size fee = true /\ fee mod fee_quantization_mask = 0 /\ blob_size * FEE_PER_BYTE <= fee < 2 ^ 64.
Proof.
  intros Hb fee. assert (Hm : 1 <= get_fee_multiplier priority <= 1000).
  { unfold get_fee_multiplier. destruct (priority =? 0); [lia|]. destruct (Z.to_nat (priority - 1)) as [|[|[|[|[|]]]]]; cbn; lia. }
  subst fee. unfold calculate_fee, calculate_fee_from_weight, check_fee, get_base_fee. set (m := get_fee_multiplier priority) in *. clearbody m.
  change FEE_PER_BYTE with 300000. change fee_quantization_mask with 1000.
  assert (Hq : forall x, 0 <= x <= 2 ^ 64 - 10000 -> ((x ⊞ 1000 ⊟ 1) / 1000) ⊠ 1000 = (x + 999) / 1000 * 1000).
  { intros x Hx. pose proof (Z.div_mod (x + 999) 1000 ltac:(lia)). pose proof (Z.mod_pos_bound (x + 999) 1000 ltac:(lia)).
    rewrite u64_add_small by (unfold fits; lia). rewrite u64_sub_small by (unfold fits; lia). replace (x + 1000 - 1) with (x + 999) by lia.
    apply u64_mul_small. unfold fits. lia. }
  assert (E1 : blob_size ⊠ 300000 = blob_size * 300000) by (apply u64_mul_small; unfold fits; lia). rewrite E1.
  assert (E2 : blob_size * 300000 ⊠ m = blob_size * 300000 * m) by (apply u64_mul_small; unfold fits; nia). rewrite E2.
  rewrite !Hq by nia. set (x := blob_size * 300000) in *. assert (0 <= x) by lia. assert (x <= x * m) by nia. assert (x * m <= 18000000000000000000) by nia.
  pose proof (Z.div_mod (x + 999) 1000 ltac:(lia)). pose proof (Z.mod_pos_bound (x + 999) 1000 ltac:(lia)).
  pose proof (Z.div_mod (x * m + 999) 1000 ltac:(lia)). pose proof (Z.mod_pos_bound (x * m + 999) 1000 ltac:(lia)).
  pose proof (Z.div_le_mono (x + 999) (x * m + 999) 1000 ltac:(lia) ltac:(lia)).
  split; [|split; [apply Z.mod_mul; lia|lia]].
  pose proof (Z.div_pos ((x + 999) / 1000 * 1000) 50 ltac:(lia) ltac:(lia)).
  pose proof (Z.div_le_upper_bound ((x + 999) / 1000 * 1000) 50 ((x + 999) / 1000 * 1000) ltac:(lia) ltac:(lia)).
  apply negb_true_iff, Z.ltb_ge. rewrite u64_sub_small by (unfold fits; lia). lia.
Qed.

Lemma wallet_fee_accepted_witness : check_fee 2000 (calculate_fee 2000 get_base_fee (get_fee_multiplier 2) fee_quantization_mask) = true.
Proof. apply (wallet_fee_accepted 2000 2). lia. Defined.

(** Every reason after the first one is lost: only its comma is written. *)
Theorem second_reason_lost : get_text_reason {| low_mixin := false; double_spend := true; invalid_input := false; invalid_output := false; too_few_outputs := false;
    too_big := false; overspend := false; fee_too_low := true; sanity_check_failed := false; not_relayed := true |} = "double spend, , "%string.
Proof. reflexivity. Qed.

(** ** What a transfer pays *)

Lemma sum_needed_exact dsts : forall a n, sum_needed dsts a = Returns n -> fits 64 a -> Forall (fun dst => fits 64 (dst_amount dst)) dsts ->
  n = a + sumZ (dst_amount <$> dsts) /\ fits 64 n /\ Forall (fun dst => dst_amount dst <> 0) dsts.
Proof.
  induction dsts as [|dst dsts IH]; intros a n E Ha Hf; cbn [sum_needed] in E.
  { injection E as <-. cbn. split_and!; [lia|assumption|constructor]. }
  apply Forall_cons in Hf as [Hd Hf]. apply throw_unless_inv in E as [Hz E]. rewrite negb_true_iff, Z.eqb_neq in Hz.
  apply throw_unless_inv in E as [Ho E]. rewrite negb_true_iff, Z.ltb_ge in Ho. unfold fits in *.
  assert (Hw : 0 <= a ⊞ dst_amount dst < 2 ^ 64) by (apply wrap_fits; lia).
  assert (Hs : a ⊞ dst_amount dst = a + dst_amount dst).
  { unfold u64_add, wrap in *. destruct (decide (a + dst_amount dst < 2 ^ 64)); [apply Z.mod_small; lia|].
    rewrite <- (Z_mod_plus_full _ (-1)), Z.mod_small in Ho by lia. lia. }
  rewrite Hs in E, Hw. apply IH in E as (-> & Hn & Hall); [|lia|assumption]. cbn [fmap list_fmap]. change (sumZ (?x :: ?l)) with (x + sumZ l).
  change (list_fmap _ _ dst_amount dsts) with (dst_amount <$> dsts). split; [lia|]. split; [lia|now constructor].
Qed.

Lemma generate_outputs_amounts `{Sha3} `{Sodium} dests : forall i sks ks ss vs t ks' ss' vs' t',
  generate_outputs dests i sks ks ss vs t = Some (ks', ss', vs', t') ->
  amount <$> vs' = (amount <$> vs) ++ (dst_amount <$> dests) /\ length ss' = (length ss + length dests)%nat.
Proof.
  induction dests as [|dst dests IH]; intros i sks ks ss vs t ks' ss' vs' t' E; cbn [generate_outputs] in E.
  { injection E as <- <- <- <-. cbn. now rewrite app_nil_r. }
  unfold generate_output_key_pairs in E. destruct (compute_output_public_key_from_subaddress_spend_pk _ _ _) as [k|]; [|discriminate]. cbn [mbind option_bind] in E.
  apply IH in E as [-> ->]. rewrite fmap_app, <- app_assoc, length_app. cbn. split; [reflexivity|lia].
Qed.

(** What a construction that succeeds has built. *)
Lemma construct_built `{Sha3} `{Sodium} init attempts d keys subs sources dests ex unlock sks tx perm :
  construct_tx_with_tx_key init attempts d keys subs sources dests ex unlock sks = Returns (Built tx perm) ->
  exists ins ks ss vs t ex' h rv, mapM (fill_input keys subs) sources = Some ins /\
    generate_outputs dests 0 sks [] [] [] 0 = Some (ks, ss, vs, t) /\
    perm = get_sorted_permutation ((fun x => output_key_image x.2) <$> ins) /\
    prefix tx = {| version := 2; unlock_height := unlock; vin := zip_with hide_input (apply_permutation perm sources) (apply_permutation perm ins);
                   vout := hide_output <$> vs; extra := add_output_ecdh_public_keys_to_extra ex' ks |} /\
    (ex = [] -> ex' = []) /\ length ks = length sks /\ length dests = length sks /\ ringct tx = toRctData rv /\
    generate_ringct attempts d h (zip_with input_data (apply_permutation perm sources) (apply_permutation perm ins))
      (zip_with (fun o h => {| o_amount := amount o; o_ecdh_shared_secret_hashed_by_index := h |}) vs ss)
      (foldl (fun a s => a ⊞ src_amount s) 0 (apply_permutation perm sources) ⊟ foldl (fun a o => a ⊞ amount o) 0 vs) = Returns (Some rv).
Proof.
  unfold construct_tx_with_tx_key. intros E. destruct (_ =? 0)%nat; [discriminate|]. destruct (mapM _ sources) as [ins|] eqn:Ei; [|discriminate]. cbv zeta in E.
  set (perm' := get_sorted_permutation _) in E. destruct (length dests =? length sks)%nat eqn:El; [|discriminate]. cbn [negb] in E.
  destruct (generate_outputs _ _ _ _ _ _ _) as [[[[ks ss] vs] t]|] eqn:Eg; [|discriminate].
  destruct (length ks =? length sks)%nat eqn:Ek; [|discriminate]. cbn [negb] in E. apply result_bind_inv in E as (ex' & Eex & E).
  destruct (_ <? _); [discriminate|]. destruct (length vs =? length ss)%nat; [|discriminate]. cbn [negb] in E.
  apply result_bind_inv in E as (h & _ & E). apply result_bind_inv in E as ([rv|] & Er & E); [|discriminate]. injection E as <- <-.
  exists ins, ks, ss, vs, t, ex', h, rv. split_and!; auto using (proj1 (Nat.eqb_eq _ _)); try reflexivity.
  - intros ->. cbn in Eex. now injection Eex as <-.
  - now apply Nat.eqb_eq.
  - now apply Nat.eqb_eq.
Qed.

Lemma mapM_length {A B} (f : A -> option B) l l' : mapM f l = Some l' -> length l' = length l.
Proof. intros E. apply mapM_Some in E. symmetry. exact (Forall2_length _ _ _ E). Qed.

Lemma prepare_sources_amounts `{Sha3} `{Sodium} fake tds : forall outs srcs, prepare_sources fake tds outs = Returns srcs -> src_amount <$> srcs = m_amount <$> tds.
Proof.
  induction tds as [|td tds IH]; intros outs srcs E; cbn [prepare_sources] in E; [now injection E as <-|]. destruct outs as [|o outs]; [discriminate|].
  apply result_bind_inv in E as (src & Es & E). apply result_bind_inv in E as (rest & Er & E). injection E as <-. apply IH in Er.
  unfold prepare_source in Es. apply throw_unless_inv in Es as [_ Es]. apply throw_unless_inv in Es as [_ Es]. destruct (list_find _ _) as [[k ?]|]; [|discriminate].
  apply result_bind_inv in Es as (pk & _ & Es). injection Es as <-. cbn. now rewrite Er.
Qed.

Lemma result_mapM_returned {A B} (f : A -> result B) l : forall l', result_mapM f l = Returns l' -> Forall2 (fun x y => f x = Returns y) l l'.
Proof.
  induction l as [|x l IH]; intros l' E; cbn in E; [injection E as <-; constructor|]. apply result_bind_inv in E as (y & Ey & E).
  apply result_bind_inv in E as (ys & Eys & E). injection E as <-. constructor; auto.
Qed.

Lemma selected_amounts ts sel ams tds : result_mapM (amount_at ts) sel = Returns ams -> result_mapM (transfer_at ts) sel = Returns tds -> ams = m_amount <$> tds.
Proof.
  intros Ea Et. apply result_mapM_returned in Ea, Et. revert tds Et.
  induction Ea as [|i a sel ams Hi _ IH]; intros tds Et; inversion Et as [|? td ? tds' Htd Et']; subst; [reflexivity|].
  rewrite fmap_cons, <- (IH tds' Et'). f_equal. unfold amount_at, transfer_at in *. destruct (ts !! i); congruence.
Qed.

Lemma sum_selected_amounts ts sel tds found : sum_selected ts sel = Returns found -> result_mapM (transfer_at ts) sel = Returns tds ->
  found = wrap 64 (sumZ (m_amount <$> tds)).
Proof.
  unfold sum_selected. intros E Et. apply result_bind_inv in E as (ams & Ea & E). injection E as <-. rewrite foldl_u64_add by (unfold fits; lia).
  now rewrite (selected_amounts _ _ _ _ Ea Et).
Qed.

Lemma foldl_amounts {A} (f : A -> Z) l : foldl (fun a x => a ⊞ f x) 0 l = wrap 64 (sumZ (f <$> l)).
Proof.
  replace (foldl _ 0 l) with (foldl u64_add 0 (f <$> l)); [now rewrite foldl_u64_add by (unfold fits; lia)|].
  generalize 0. induction l as [|x l IH]; intros a; [reflexivity|]. apply IH.
Qed.

Lemma length_same_fmap {A B C} (f : A -> C) (g : B -> C) l l' : f <$> l = g <$> l' -> length l = length l'.
Proof. intros E. apply (f_equal length) in E. now rewrite !length_fmap in E. Qed.

(** The fee that is declared is the difference of the amounts, modulo 2^64. *)
Lemma built_fee `{Sha3} `{Sodium} init attempts d keys subs sources dests ex unlock sks tx perm :
  construct_tx_with_tx_key init attempts d keys subs sources dests ex unlock sks = Returns (Built tx perm) ->
  get_tx_fee tx = wrap 64 (sumZ (src_amount <$> sources) - sumZ (dst_amount <$> dests)) /\
  length (vin (prefix tx)) = length sources /\ length (vout (prefix tx)) = length dests /\ forallb is_from_key (vin (prefix tx)) = true /\
  perm ≡ₚ seq 0 (length sources) /\
  forall k dst, dests !! k = Some dst -> exists mask, output_commits (basic (ringct tx)) !! k = Some (commit (dst_amount dst) mask).
Proof.
  intros E. apply construct_built in E as (ins & ks & ss & vs & t & ex' & h & rv & Ei & Eg & Ep & Epre & _ & _ & _ & Erct & Erv).
  pose proof (mapM_length _ _ _ Ei) as Hin. apply generate_outputs_amounts in Eg as [Eam Ess]. cbn in Eam, Ess. pose proof (length_same_fmap _ _ _ _ Eam) as Hvs.
  assert (Hperm : perm ≡ₚ seq 0 (length sources)) by (rewrite Ep, permutation_is_one, length_fmap; now rewrite Hin).
  assert (Hs : apply_permutation perm sources ≡ₚ sources) by now apply apply_permutation_perm.
  assert (Hi : apply_permutation perm ins ≡ₚ ins) by (apply apply_permutation_perm; now rewrite Hin).
  apply generate_ringct_basic in Erv. unfold get_tx_fee. rewrite Erct. cbn [toRctData basic]. rewrite Erv. cbn [generated_basic fee output_commits].
  rewrite !foldl_amounts, Eam, (sumZ_permutation _ _ (fmap_Permutation src_amount _ _ Hs)). rewrite Epre. cbn [vin vout].
  rewrite length_zip_with, length_fmap, (Permutation_length Hs), (Permutation_length Hi), Hin, Nat.min_id. split_and!; [|reflexivity|assumption| |assumption|].
  - unfold u64_sub, wrap. now rewrite Zminus_mod_idemp_l, Zminus_mod_idemp_r.
  - apply forallb_forall. intros x Hx%list_elem_of_In. apply elem_of_zip_with in Hx as (? & ? & -> & _). reflexivity.
  - intros k dst Hk. unfold range_proof_inputs. rewrite !list_lookup_fmap, lookup_zip_with.
    apply (f_equal (fun l => l !! k)) in Eam. rewrite !list_lookup_fmap, Hk in Eam. destruct (vs !! k) as [o|]; [|discriminate]. injection Eam as Eo.
    destruct (lookup_lt_is_Some_2 ss k) as [s' Es']; [rewrite Ess; now apply lookup_lt_Some in Hk|]. rewrite Es'. cbn. rewrite Eo. eauto.
Qed.

(** ** What an input of a transfer spends *)

(** Input [i], with the ring [ds], spends the output [td] of the wallet: the key image is that of a secret key of the
    output's public key, which the wallet's keys derive from the transaction that paid the output; the ring consists of the
    first [S fake] entries of [outs] with, in the place that bears the output's global index, its public key and the commitment to its amount. *)
Definition spends `{Sha3} `{Sodium} (keys : spend_view_secret_keys) (subs : gmap public_key subaddress_index) (fake : nat)
    (td : transfer_details) (outs : list get_tx_outputs_entry) (i : txin_v) (ds : list output_public_data) : Prop :=
  exists (pk : public_key) (sk : secret_key) (k : nat) (e : get_tx_outputs_entry),
    get_public_key td = Returns pk /\ to_pk sk = pk /\
    derive_with_internal_checking_output_key_pair_and_key_image keys subs pk
      (maybeNotNull (default null_pkey (get_tx_ecdh_public_key_from_extra (extra (m_tx td)))))
      (default [] (get_output_ecdh_public_keys_from_extra (extra (m_tx td)))) (Z.of_nat (m_internal_output_index td)) =
        Some ({| sec := sk; pub := pk |}, derive_key_image sk) /\
    i = txin_from_key {| in_amount := if m_rct td then 0 else m_amount td;
                         output_relative_offsets := absolute_output_offsets_to_relative ((fun e => e.1.1) <$> take (S fake) outs);
                         output_key_image := derive_key_image sk |} /\
    (k <= fake)%nat /\ (fake < length outs)%nat /\ outs !! k = Some e /\ e.1.1 = m_global_output_index td /\
    ds = <[k := {| output_public_key := pk; decoy_commit := commit (m_amount td) (m_mask td) |}]>
           ((fun e => {| output_public_key := e.1.2; decoy_commit := e.2 |}) <$> take (S fake) outs).

Lemma apply_permutation_lookup {A} (perm : list nat) (xs : list A) : Forall (fun i => (i < length xs)%nat) perm ->
  forall j, apply_permutation perm xs !! j = k ← perm !! j; xs !! k.
Proof.
  unfold apply_permutation. induction 1 as [|i perm Hi _ IH]; intros j; [reflexivity|]. cbn.
  destruct (lookup_lt_is_Some_2 xs i Hi) as [x Ex]. rewrite Ex. destruct j; [cbn; now rewrite Ex|apply IH].
Qed.

Lemma derived_pair `{Sha3} `{Sodium} keys subs pk tx_key ks i kp img :
  derive_with_internal_checking_output_key_pair_and_key_image keys subs pk tx_key ks i = Some (kp, img) ->
  kp = {| sec := sec kp; pub := pk |} /\ to_pk (sec kp) = pk /\ img = derive_key_image (sec kp).
Proof.
  unfold derive_with_internal_checking_output_key_pair_and_key_image. intros E.
  apply bind_Some in E as (secret & _ & E). apply bind_Some in E as (recv & _ & E).
  unfold derive_output_key_pair_and_key_image in E. revert E. cbv zeta. case_match eqn:Ek; [discriminate|].
  intros E. injection E as <- <-. apply negb_false_iff, Z.eqb_eq in Ek. cbn in Ek |- *. subst pk. split_and!; reflexivity.
Qed.

(** One source, from the wallet's output to the input and its ring. *)
Lemma source_spends `{Sha3} `{Sodium} keys subs fake td outs src ctx :
  prepare_source fake td outs = Returns src -> fill_input keys subs src = Some ctx ->
  spends keys subs fake td outs (hide_input src ctx) (i_decoys (input_data src ctx)).
Proof.
  unfold prepare_source. intros Es Ef. apply throw_unless_inv in Es as [_ Es]. apply throw_unless_inv in Es as [Hl Es].
  rewrite negb_true_iff, Nat.ltb_ge in Hl. destruct (list_find _ _) as [[k e0]|] eqn:El; [|discriminate].
  apply list_find_Some in El as (Hk & Hid & _). apply result_bind_inv in Es as (pk & Hpk & Es). injection Es as <-.
  rewrite list_lookup_fmap in Hk. destruct (take (S fake) outs !! k) as [e|] eqn:Et; [|discriminate]. injection Hk as <-.
  pose proof (lookup_lt_Some _ _ _ Et) as Hlt. rewrite length_take in Hlt.
  apply lookup_take_Some in Et as [He _]. unfold fill_input in Ef. cbn [src_outputs real_output real_out_tx_key real_out_output_secret_keys real_output_in_tx_index src_amount] in Ef.
  rewrite list_lookup_insert_eq in Ef by (rewrite length_fmap, length_take; lia). cbn [mbind option_bind output_public_key] in Ef.
  apply bind_Some in Ef as ([kp img] & Ed & Ef). case_match; [discriminate|]. injection Ef as <-.
  destruct (derived_pair _ _ _ _ _ _ _ _ Ed) as (Ekp & Hpub & ->). rewrite Ekp in Ed. cbn [sec] in Ed. cbn in Hid.
  exists pk, (sec kp), k, e. split_and!; try assumption; try lia.
  - unfold hide_input. cbn. do 2 f_equal. f_equal. rewrite list_fmap_insert. cbn [fst]. rewrite <- list_fmap_compose.
    rewrite list_insert_id; [reflexivity|]. rewrite list_lookup_fmap, lookup_take_lt by lia. rewrite He. cbn. now f_equal.
  - cbn. rewrite list_fmap_insert. cbn [snd]. now rewrite <- list_fmap_compose.
Qed.

Lemma prepare_sources_lookup `{Sha3} `{Sodium} fake tds : forall outs srcs, prepare_sources fake tds outs = Returns srcs ->
  length srcs = length tds /\
  forall k td src, tds !! k = Some td -> srcs !! k = Some src -> exists o, outs !! k = Some o /\ prepare_source fake td o = Returns src.
Proof.
  induction tds as [|td tds IH]; intros outs srcs E; cbn [prepare_sources] in E; [injection E as <-; split; [reflexivity|]; intros []; discriminate|].
  destruct outs as [|o outs]; [discriminate|].
  apply result_bind_inv in E as (src & Es & E). apply result_bind_inv in E as (rest & Er & E). injection E as <-. apply IH in Er as [El IHr].
  split; [cbn; now rewrite El|]. intros [|k] td' src' Ht Hs; cbn in Ht, Hs |- *; [injection Ht as <-; injection Hs as <-; eauto|eauto].
Qed.

(** The inputs of a transaction that was built, position by position. *)
Lemma built_spends `{Sha3} `{Sodium} init attempts d keys subs fake tds outs sources dests ex unlock sks tx perm :
  prepare_sources fake tds outs = Returns sources ->
  construct_tx_with_tx_key init attempts d keys subs sources dests ex unlock sks = Returns (Built tx perm) ->
  forall j k td, perm !! j = Some k -> tds !! k = Some td ->
    exists ring i ds, outs !! k = Some ring /\ vin (prefix tx) !! j = Some i /\ decoys (basic (ringct tx)) !! j = Some ds /\ spends keys subs fake td ring i ds.
Proof.
  intros Hp E j k td Hj Hk. pose proof (built_fee _ _ _ _ _ _ _ _ _ _ _ _ E) as (_ & _ & _ & _ & Hperm & _).
  apply construct_built in E as (ins & ks & ss & vs & t & ex' & h & rv & Ei & Eg & Ep & Epre & _ & _ & _ & Erct & Erv).
  apply generate_ringct_basic in Erv. pose proof (mapM_length _ _ _ Ei) as Hin. apply mapM_Some in Ei.
  apply prepare_sources_lookup in Hp as [El Hp].
  assert (Hlt : Forall (fun i => (i < length sources)%nat) perm) by (rewrite Hperm; apply Forall_seq; lia).
  destruct (lookup_lt_is_Some_2 sources k) as [src Hsrc]; [rewrite El; now apply lookup_lt_Some in Hk|].
  destruct (Forall2_lookup_l _ _ _ _ _ Ei Hsrc) as (ctx & Hctx & Hfill). destruct (Hp k td src Hk Hsrc) as (o & Ho & Hprep).
  assert (Hs1 : apply_permutation perm sources !! j = Some src) by (rewrite apply_permutation_lookup, Hj by assumption; exact Hsrc).
  assert (Hc1 : apply_permutation perm ins !! j = Some ctx) by (rewrite apply_permutation_lookup, Hj by (now rewrite Hin); exact Hctx).
  exists o, (hide_input src ctx), (i_decoys (input_data src ctx)). split_and!; [assumption| | |now apply source_spends].
  - rewrite Epre. cbn [vin]. now rewrite lookup_zip_with, Hs1; cbn; rewrite Hc1.
  - rewrite Erct. cbn [toRctData basic]. rewrite Erv. cbn [generated_basic decoys]. rewrite list_lookup_fmap, lookup_zip_with, Hs1. cbn. now rewrite Hc1.
Qed.

(** C8: A transfer conserves the money and pays the fee that was asked for.  If [transfer_selected_rct] returns a
    transaction, the selected outputs (their sum modulo 2^64) are worth exactly the amounts of the destinations, the change and the fee; the
    transaction declares that fee, has one output for each destination and
    one for the change when there is any, each committing to its amount, and is below the size limit; all
    the inputs are of one account, and the change goes to an address of that account.  The transaction has one input for each entry of
    the selection, in the order of the list of selected transfers it is returned with: that input carries the key image
    of that output and a ring that holds the output's global index, public key and commitment ([spends]).  (An
    output that is selected twice gives two inputs with one key image, which the node refuses.) *)
Theorem transfer_pays_exactly `{Sha3} `{Sodium} `{UndefinedShift} init attempts d generate dsts selected fake outs unlock fee extra_in ts keys subs ptx tx :
  transfer_selected_rct init attempts d generate dsts selected fake outs unlock fee extra_in ts keys subs = Returns (Some (ptx, tx)) ->
  fits 64 fee -> Forall (fun dst => fits 64 (dst_amount dst)) dsts ->
  let change := ptx_change_dts ptx in
  let paid := if dst_amount change =? 0 then dsts else dsts ++ [change] in
  exists tds w, result_mapM (transfer_at ts) selected = Returns tds /\
    wrap 64 (sumZ (m_amount <$> tds)) = fee + sumZ (dst_amount <$> dsts) + dst_amount change /\
    get_tx_fee tx = fee /\ ptx_tx ptx = tx /\ ptx_fee ptx = fee /\ ptx_selected_transfers ptx ≡ₚ selected /\
    length (vin (prefix tx)) = length selected /\ length (vout (prefix tx)) = length paid /\
    (forall j idx, ptx_selected_transfers ptx !! j = Some idx -> exists k td ring i ds,
      selected !! k = Some idx /\ ts !! idx = Some td /\ outs !! k = Some ring /\
      vin (prefix tx) !! j = Some i /\ decoys (basic (ringct tx)) !! j = Some ds /\ spends keys subs fake td ring i ds) /\
    (forall k dst, paid !! k = Some dst -> exists mask, output_commits (basic (ringct tx)) !! k = Some (commit (dst_amount dst) mask)) /\
    get_transaction_weight tx = Returns w /\ w < get_upper_transaction_weight_limit /\
    exists account, Forall (fun td => major (m_subaddr_index td) = account) tds /\
      (dst_amount change <> 0 -> exists i, dst_addr change = get_subaddress keys {| major := account; minor := i |}).
Proof.
  unfold transfer_selected_rct. intros E Hfee Hdsts. apply throw_unless_inv in E as [_ E]. apply result_bind_inv in E as (needed & En & E).
  apply sum_needed_exact in En as (En & Hn & _); [|assumption..]. apply result_bind_inv in E as (found & Ef & E).
  apply throw_unless_inv in E as [Hle E]. rewrite negb_true_iff, Z.ltb_ge in Hle. apply result_bind_inv in E as (tds & Et & E).
  pose proof (sum_selected_amounts _ _ _ _ Ef Et) as Efound. assert (Hf : fits 64 found) by (rewrite Efound; apply wrap_fits; lia).
  destruct tds as [|td0 others]; [discriminate|]. apply throw_unless_inv in E as [Hacc E]. set (tds := td0 :: others) in *.
  apply result_bind_inv in E as (srcs & Es & E). pose proof Es as Eprep. apply prepare_sources_amounts in Es. cbv zeta in E.
  assert (Eam : forall acc x, dst_amount (change_destination keys acc x) = x).
  { intros acc x. unfold change_destination. destruct (Z.eqb_spec x 0) as [->|]; reflexivity. }
  rewrite Eam in E. unfold fits in *. rewrite u64_sub_small in E by (unfold fits; lia).
  apply result_bind_inv in E as ([[| |tx' perm] sks] & Ec & E); [discriminate|discriminate|]. apply result_bind_inv in E as (w & Ew & E).
  apply throw_unless_inv in E as [Hw E]. rewrite negb_true_iff, Z.leb_gt in Hw. apply throw_unless_inv in E as [_ E]. injection E as <- <-.
  unfold construct_tx_and_get_tx_key in Ec. apply result_bind_inv in Ec as (c & Ec & Epair). injection Epair as -> _.
  pose proof (built_spends _ _ _ _ _ _ _ _ _ _ _ _ _ _ _ Eprep Ec) as Hspends.
  apply built_fee in Ec as (Hf1 & Hvin & Hvout & _ & Hperm & Hcommits). cbn [ptx_change_dts ptx_tx ptx_fee ptx_selected_transfers]. rewrite Eam.
  pose proof (length_same_fmap _ _ _ _ Es) as Hlen. pose proof (result_mapM_returned _ _ _ Et) as Ht. pose proof (Forall2_length _ _ _ Ht) as Hsel.
  exists tds, w. split; [exact Et|]. split_and!; try reflexivity.
  - rewrite <- Efound. lia.
  - rewrite Hf1, Es. match goal with |- context [sumZ (dst_amount <$> ?l)] => replace (sumZ (dst_amount <$> l)) with (found - fee) end.
    + rewrite <- (wrap_small 64 fee) at 2 by assumption. unfold wrap. rewrite <- Zminus_mod_idemp_l. change (_ mod 2 ^ 64) with (wrap 64 (sumZ (m_amount <$> tds))) at 2.
      rewrite <- Efound. f_equal. lia.
    + destruct (Z.eqb_spec (found - needed) 0); [lia|]. rewrite fmap_app, sumZ_app. cbn. rewrite Eam. lia.
  - apply apply_permutation_perm. rewrite Hperm. now rewrite Hsel, Hlen.
  - now rewrite Hvin, Hlen, Hsel.
  - assumption.
  - intros j idx Hj. rewrite apply_permutation_lookup in Hj by (rewrite Hperm, Hlen, <- Hsel; apply Forall_seq; lia).
    apply bind_Some in Hj as (k & Hj & Hk). destruct (Forall2_lookup_l _ _ _ _ _ Ht Hk) as (td & Htd & Hat).
    destruct (Hspends j k td Hj Htd) as (ring & i & ds & Hsp). exists k, td, ring, i, ds. unfold transfer_at in Hat.
    destruct (ts !! idx) as [td'|]; [|discriminate]. injection Hat as ->. naive_solver.
  - assumption.
  - assumption.
  - assumption.
  - exists (major (m_subaddr_index td0)). split.
    + constructor; [reflexivity|]. apply Forall_forall. intros td Hin. rewrite forallb_forall in Hacc. symmetry. apply Z.eqb_eq, Hacc. now apply list_elem_of_In.
    + intros Hne. unfold change_destination. destruct (Z.eqb_spec (found - needed) 0); [contradiction|]. cbn [dst_addr]. eauto.
Qed.

(** ** A transfer *)

Section Examples.
Import ModelGroup UnitDigest.
#[local] Instance wallet_no_shift : UndefinedShift := fun _ => 0.

(** The output of [TxBuild], as the wallet keeps it. *)
Definition owned_transfer : transfer_details :=
  {| m_block_height := 2;
     m_tx := {| version := 2; unlock_height := 0; vin := []; vout := [ {| amount := 0; target := txout_to_key (to_pk owned_key) |} ];
                extra := add_output_ecdh_public_keys_to_extra [] [to_pk 5] |};
     m_txid := null_hash; m_internal_output_index := 0; m_global_output_index := 3; m_spent := false; m_frozen := false; m_spent_height := 0;
     m_output_key_image := derive_key_image owned_key; m_mask := 11; m_amount := 10; m_rct := true; m_output_key_image_known := true;
     m_output_key_image_request := false; m_pk_index := 0; m_subaddr_index := main_index; m_output_key_image_partial := false; m_multisig_k := [];
     m_fake_multisig_info := []; m_uses := [] |}.

Definition example_outs : list (list get_tx_outputs_entry) := [(fun x => (x.1, output_public_key x.2, decoy_commit x.2)) <$> ring_entries].
Definition example_dsts : list tx_destination_entry := [ {| dst_amount := 4; dst_addr := payer_address; dst_is_subaddress := false |} ].
Definition example_transfer : result (option (pending_tx * transaction)) :=
  transfer_selected_rct no_rct 1 example_draws (fun i => 6 + Z.of_nat i) example_dsts [0%nat] 31 example_outs 0 1 [] [owned_transfer] payer payer_table.

Example transfer_succeeds : match example_transfer with Returns (Some _) => true | _ => false end = true.
Proof. vm_cast_no_check (eq_refl true). Qed.

Lemma transfer_pays_exactly_witness : exists ptx tx, example_transfer = Returns (Some (ptx, tx)) /\ get_tx_fee tx = 1 /\ dst_amount (ptx_change_dts ptx) = 5.
Proof.
  pose proof transfer_succeeds as Hs. destruct example_transfer as [[[ptx tx]|]|] eqn:E; [|discriminate|discriminate]. exists ptx, tx. split; [reflexivity|].
  destruct (transfer_pays_exactly _ _ _ _ _ _ _ _ _ _ _ _ _ _ ptx tx E) as (tds & w & Et & Em & Ef & _).
  - unfold fits. lia.
  - repeat constructor; cbn; lia.
  - split; [exact Ef|]. cbn in Et. injection Et as <-. cbn [fmap list_fmap example_dsts dst_amount sumZ foldr owned_transfer m_amount] in Em.
    change (wrap 64 (10 + 0)) with 10 in Em. lia.
Defined.

End Examples.

End WalletLogic.
