(* ===== verification/Wallet.v ===== *)
(** The wallet's state and how blocks and transactions change it ([src/src/wallet/api/wallet2.cpp]): subaddresses, the scan
    of a transaction, new blocks, and the detaching of blocks. *)

From stdpp Require Import gmap sorting.
From S2P Require Import Prelude Hash Config Difficulty Varint Serialization Primality Group ModelGroup Key RctOps VectorOps InnerProduct Bulletproof BulletproofComplete Clsag RctTypes TxTypes Consensus Coinbase FormatUtils TxExtra RingCT TxUtils BlockQueue PoolTable TxPool TxPoolInv BlockTemplate ChainDb ChainDbInv LmdbTxn TxCheck Blockchain Core TxBuild WalletLogic.

Module Wallet.
Import PoolTable.PoolTable Config Key RctOps VectorOps Clsag RctTypes TxTypes Consensus Coinbase FormatUtils TxExtra RingCT TxUtils ChainDb WalletLogic.

(** ** The hash chain *)

Record hashchain := { m_offset : nat; m_genesis : hash; hc_blocks : list hash }.

Definition hc_size (c : hashchain) : nat := length (hc_blocks c) + m_offset c.
Definition hc_push_back (h : hash) (c : hashchain) : hashchain :=
  {| m_offset := m_offset c; m_genesis := if (m_offset c =? 0)%nat && (length (hc_blocks c) =? 0)%nat then h else m_genesis c;
     hc_blocks := hc_blocks c ++ [h] |}.
Definition hc_is_in_bounds (idx : nat) (c : hashchain) : bool := (m_offset c <=? idx)%nat && (idx <? hc_size c)%nat.
(** Undefined outside of the bounds. *)
Definition hc_at (c : hashchain) (idx : nat) : result hash :=
  match (if (m_offset c <=? idx)%nat then hc_blocks c !! (idx - m_offset c)%nat else None) with Some h => Returns h | None => Throws end.
(** [resize] adds zero hashes; below the offset the size wraps around, and the allocation fails. *)
Definition hc_crop (height : nat) (c : hashchain) : result hashchain :=
  if (height <? m_offset c)%nat then Throws else
  Returns {| m_offset := m_offset c; m_genesis := m_genesis c; hc_blocks := resize (height - m_offset c) null_hash (hc_blocks c) |}.
Definition hc_clear (c : hashchain) : hashchain := {| m_offset := 0; m_genesis := m_genesis c; hc_blocks := [] |}.
Definition hc_empty (c : hashchain) : bool := (length (hc_blocks c) =? 0)%nat && (m_offset c =? 0)%nat.
(** The oldest hashes are dropped up to [height], but not the last one. *)
Definition hc_trim (height : nat) (c : hashchain) : hashchain :=
  let n := Nat.min (height - m_offset c) (length (hc_blocks c) - 1) in
  {| m_offset := m_offset c + n; m_genesis := m_genesis c; hc_blocks := drop n (hc_blocks c) |}.

(** ** State *)

(** Settings that scanning does not change. *)
Record settings := {
  account : spend_view_secret_keys; createtime : Z; m_subaddress_lookahead_major : Z; m_subaddress_lookahead_minor : Z; m_refresh_from_block_height : Z;
  m_store_tx_info : bool }.

(** The keys of the multimaps of payments are all zero, and left out. *)
Record wallet2 := {
  m_blockchain : hashchain; m_transfers : list transfer_details; m_pub_keys : gmap public_key nat; m_output_key_images : gmap key_image nat;
  m_subaddresses : gmap public_key subaddress_index; m_subaddress_labels : list (list string);
  m_unconfirmed_txs : gmap hash unconfirmed_transfer_details; m_confirmed_txs : gmap hash confirmed_transfer_details; m_payments : list payment_details;
  m_unconfirmed_payments : list (payment_details * bool); m_output_secret_keys : gmap hash (list secret_key) }.

Definition with_transfers (ts : list transfer_details) (pks kis : gmap Z nat) (w : wallet2) : wallet2 :=
  {| m_blockchain := m_blockchain w; m_transfers := ts; m_pub_keys := pks; m_output_key_images := kis; m_subaddresses := m_subaddresses w;
     m_subaddress_labels := m_subaddress_labels w; m_unconfirmed_txs := m_unconfirmed_txs w; m_confirmed_txs := m_confirmed_txs w; m_payments := m_payments w;
     m_unconfirmed_payments := m_unconfirmed_payments w; m_output_secret_keys := m_output_secret_keys w |}.
Definition with_subaddresses (subs : gmap public_key subaddress_index) (labels : list (list string)) (w : wallet2) : wallet2 :=
  {| m_blockchain := m_blockchain w; m_transfers := m_transfers w; m_pub_keys := m_pub_keys w; m_output_key_images := m_output_key_images w; m_subaddresses := subs;
     m_subaddress_labels := labels; m_unconfirmed_txs := m_unconfirmed_txs w; m_confirmed_txs := m_confirmed_txs w; m_payments := m_payments w;
     m_unconfirmed_payments := m_unconfirmed_payments w; m_output_secret_keys := m_output_secret_keys w |}.
Definition with_sent (us : gmap hash unconfirmed_transfer_details) (cs : gmap hash confirmed_transfer_details) (w : wallet2) : wallet2 :=
  {| m_blockchain := m_blockchain w; m_transfers := m_transfers w; m_pub_keys := m_pub_keys w; m_output_key_images := m_output_key_images w;
     m_subaddresses := m_subaddresses w; m_subaddress_labels := m_subaddress_labels w; m_unconfirmed_txs := us; m_confirmed_txs := cs; m_payments := m_payments w;
     m_unconfirmed_payments := m_unconfirmed_payments w; m_output_secret_keys := m_output_secret_keys w |}.
Definition with_payments (ps : list payment_details) (ups : list (payment_details * bool)) (w : wallet2) : wallet2 :=
  {| m_blockchain := m_blockchain w; m_transfers := m_transfers w; m_pub_keys := m_pub_keys w; m_output_key_images := m_output_key_images w;
     m_subaddresses := m_subaddresses w; m_subaddress_labels := m_subaddress_labels w; m_unconfirmed_txs := m_unconfirmed_txs w;
     m_confirmed_txs := m_confirmed_txs w; m_payments := ps; m_unconfirmed_payments := ups; m_output_secret_keys := m_output_secret_keys w |}.
Definition with_blockchain (c : hashchain) (w : wallet2) : wallet2 :=
  {| m_blockchain := c; m_transfers := m_transfers w; m_pub_keys := m_pub_keys w; m_output_key_images := m_output_key_images w;
     m_subaddresses := m_subaddresses w; m_subaddress_labels := m_subaddress_labels w; m_unconfirmed_txs := m_unconfirmed_txs w;
     m_confirmed_txs := m_confirmed_txs w; m_payments := m_payments w; m_unconfirmed_payments := m_unconfirmed_payments w; m_output_secret_keys := m_output_secret_keys w |}.
Definition with_secret_keys (ks : gmap hash (list secret_key)) (w : wallet2) : wallet2 :=
  {| m_blockchain := m_blockchain w; m_transfers := m_transfers w; m_pub_keys := m_pub_keys w; m_output_key_images := m_output_key_images w;
     m_subaddresses := m_subaddresses w; m_subaddress_labels := m_subaddress_labels w; m_unconfirmed_txs := m_unconfirmed_txs w;
     m_confirmed_txs := m_confirmed_txs w; m_payments := m_payments w; m_unconfirmed_payments := m_unconfirmed_payments w; m_output_secret_keys := ks |}.

(** The fields of a transfer that change. *)
Definition with_spent (spent : bool) (height : Z) (td : transfer_details) : transfer_details :=
  {| m_block_height := m_block_height td; m_tx := m_tx td; m_txid := m_txid td; m_internal_output_index := m_internal_output_index td;
     m_global_output_index := m_global_output_index td; m_spent := spent; m_frozen := m_frozen td; m_spent_height := height;
     m_output_key_image := m_output_key_image td; m_mask := m_mask td; m_amount := m_amount td; m_rct := m_rct td;
     m_output_key_image_known := m_output_key_image_known td; m_output_key_image_request := m_output_key_image_request td; m_pk_index := m_pk_index td;
     m_subaddr_index := m_subaddr_index td; m_output_key_image_partial := m_output_key_image_partial td; m_multisig_k := m_multisig_k td;
     m_fake_multisig_info := m_fake_multisig_info td; m_uses := m_uses td |}.
Definition with_td_amount (a : Z) (td : transfer_details) : transfer_details :=
  {| m_block_height := m_block_height td; m_tx := m_tx td; m_txid := m_txid td; m_internal_output_index := m_internal_output_index td;
     m_global_output_index := m_global_output_index td; m_spent := m_spent td; m_frozen := m_frozen td; m_spent_height := m_spent_height td;
     m_output_key_image := m_output_key_image td; m_mask := m_mask td; m_amount := a; m_rct := m_rct td;
     m_output_key_image_known := m_output_key_image_known td; m_output_key_image_request := m_output_key_image_request td; m_pk_index := m_pk_index td;
     m_subaddr_index := m_subaddr_index td; m_output_key_image_partial := m_output_key_image_partial td; m_multisig_k := m_multisig_k td;
     m_fake_multisig_info := m_fake_multisig_info td; m_uses := m_uses td |}.
Definition with_uses (uses : list (Z * hash)) (td : transfer_details) : transfer_details :=
  {| m_block_height := m_block_height td; m_tx := m_tx td; m_txid := m_txid td; m_internal_output_index := m_internal_output_index td;
     m_global_output_index := m_global_output_index td; m_spent := m_spent td; m_frozen := m_frozen td; m_spent_height := m_spent_height td;
     m_output_key_image := m_output_key_image td; m_mask := m_mask td; m_amount := m_amount td; m_rct := m_rct td;
     m_output_key_image_known := m_output_key_image_known td; m_output_key_image_request := m_output_key_image_request td; m_pk_index := m_pk_index td;
     m_subaddr_index := m_subaddr_index td; m_output_key_image_partial := m_output_key_image_partial td; m_multisig_k := m_multisig_k td;
     m_fake_multisig_info := m_fake_multisig_info td; m_uses := uses |}.

(** [set_spent], [set_unspent] *)
Definition set_spent (idx : nat) (height : Z) (ts : list transfer_details) : result (list transfer_details) :=
  _ ← throw_unless (idx <? length ts)%nat; Returns (alter (with_spent true height) idx ts).
Definition set_unspent (idx : nat) (ts : list transfer_details) : result (list transfer_details) :=
  _ ← throw_unless (idx <? length ts)%nat; Returns (alter (with_spent false 0) idx ts).

Definition is_spent_at (idx : nat) (strict : bool) (w : wallet2) : result bool :=
  match m_transfers w !! idx with Some td => Returns (is_spent td strict) | None => Throws end.

Definition get_transfer_details (ki : key_image) (w : wallet2) : result nat :=
  match list_find (fun td => m_output_key_image_known td = true /\ m_output_key_image td = ki) (m_transfers w) with
  | Some (idx, _) => Returns idx
  | None => Throws
  end.

Definition spends_one_of_ours (tx : transaction) (w : wallet2) : bool :=
  existsb (fun i => match i with txin_gen _ => false | txin_from_key x => bool_decide (is_Some (m_output_key_images w !! output_key_image x)) end) (vin (prefix tx)).

Section Operations.
Context `{Sha3} `{Sodium} `{UndefinedShift} `{CachedSize} (cfg : settings).

(** ** Subaddresses *)

Definition wallet_subaddress (index : subaddress_index) : spend_view_public_keys := get_subaddress (account cfg) index.

Definition get_subaddress_index (address : spend_view_public_keys) (w : wallet2) : option subaddress_index :=
  m_subaddresses w !! m_spend_public_key address.

(** Sizes are 64 bits wide, and the last indices 32; a size of zero wraps around. *)
Definition last_index (size lookahead : Z) : Z :=
  if (2 ^ 32 - 1) - lookahead <? size ⊟ 1 then 2 ^ 32 - 1 else wrap 32 (size + lookahead - 1).

Definition should_expand (index : subaddress_index) (w : wallet2) : bool :=
  let last_major := last_index (Z.of_nat (length (m_subaddress_labels w))) (m_subaddress_lookahead_major cfg) in
  if last_major <? major index then false else
  let nsub := match m_subaddress_labels w !! Z.to_nat (major index) with Some l => Z.of_nat (length l) | None => 0 end in
  let last_minor := last_index nsub (m_subaddress_lookahead_minor cfg) in
  negb (last_minor <? minor index).

(** The keys with minor indices from [begin_] up to [end_] *)
Definition add_range (index_major begin_ end_ : Z) (subs : gmap public_key subaddress_index) : result (gmap public_key subaddress_index) :=
  pkeys ← get_subaddress_spend_public_keys (account cfg) index_major begin_ end_;
  Returns (foldl (fun m x => <[x.2 := {| major := index_major; minor := begin_ + Z.of_nat x.1 |}]> m) subs (imap pair pkeys)).

Fixpoint add_accounts (majors : list Z) (index : subaddress_index) (subs : gmap public_key subaddress_index) : result (gmap public_key subaddress_index) :=
  match majors with
  | [] => Returns subs
  | m :: rest =>
      let end_ := get_subaddress_clamped_sum (if m =? major index then minor index else 0) (m_subaddress_lookahead_minor cfg) in
      subs ← add_range m 0 end_ subs;
      add_accounts rest index subs
  end.

Definition expand_subaddresses (index : subaddress_index) (w : wallet2) : result wallet2 :=
  let labels := m_subaddress_labels w in
  match labels !! Z.to_nat (major index) with
  | None =>
      let major_end := get_subaddress_clamped_sum (major index) (m_subaddress_lookahead_major cfg) in
      let begin_ := wrap 32 (Z.of_nat (length labels)) in
      subs ← add_accounts (seqZ begin_ (major_end - begin_)) index (m_subaddresses w);
      let labels := resize (S (Z.to_nat (major index))) [] labels in
      Returns (with_subaddresses subs (alter (resize (S (Z.to_nat (minor index))) ""%string) (Z.to_nat (major index)) labels) w)
  | Some l =>
      if Z.of_nat (length l) <=? minor index then
        let end_ := get_subaddress_clamped_sum (minor index) (m_subaddress_lookahead_minor cfg) in
        subs ← add_range (major index) (wrap 32 (Z.of_nat (length l))) end_ (m_subaddresses w);
        Returns (with_subaddresses subs (alter (resize (S (Z.to_nat (minor index))) ""%string) (Z.to_nat (major index)) labels) w)
      else Returns w
  end.

(** Writing a label past the end is undefined. *)
Definition write_label (index : subaddress_index) (label : string) (w : wallet2) : result wallet2 :=
  match m_subaddress_labels w !! Z.to_nat (major index) with
  | Some l =>
      _ ← throw_unless (Z.to_nat (minor index) <? length l)%nat;
      Returns (with_subaddresses (m_subaddresses w) (<[Z.to_nat (major index) := <[Z.to_nat (minor index) := label]> l]> (m_subaddress_labels w)) w)
  | None => Throws
  end.

Definition add_subaddress_account (label : string) (w : wallet2) : result wallet2 :=
  let index := {| major := wrap 32 (Z.of_nat (length (m_subaddress_labels w))); minor := 0 |} in
  w ← expand_subaddresses index w; write_label index label w.

Definition add_subaddress (index_major : Z) (label : string) (w : wallet2) : result wallet2 :=
  match m_subaddress_labels w !! Z.to_nat index_major with
  | None => Throws
  | Some l =>
      let index := {| major := index_major; minor := wrap 32 (Z.of_nat (length l)) |} in
      w ← expand_subaddresses index w; write_label index label w
  end.

Definition create_one_off_subaddress (index : subaddress_index) (w : wallet2) : wallet2 :=
  with_subaddresses (<[get_subaddress_spend_public_key (account cfg) index := index]> (m_subaddresses w)) (m_subaddress_labels w) w.

Definition get_subaddress_label (index : subaddress_index) (w : wallet2) : string :=
  default ""%string (l ← m_subaddress_labels w !! Z.to_nat (major index); l !! Z.to_nat (minor index)).

Definition set_subaddress_label := write_label.

(** ** The scan of a transaction *)

(** [process_unconfirmed]; building the details cannot fail here. *)
Definition process_unconfirmed (txid : hash) (height : Z) (w : wallet2) : wallet2 :=
  match m_unconfirmed_txs w !! txid with
  | None => w
  | Some utd =>
      let confirmed :=
        if m_store_tx_info cfg
        then match m_confirmed_txs w !! txid with None => <[txid := confirm_transfer utd height]> (m_confirmed_txs w) | Some _ => m_confirmed_txs w end
        else m_confirmed_txs w in
      with_sent (delete txid (m_unconfirmed_txs w)) confirmed w
  end.

(** What the first loop collects; [num_vouts_received] is the length of [r_outs]. *)
Record received_t := {
  r_outs : list nat; tx_money_got_in_outs : gmap subaddress_index Z; tx_amounts_individual_outs : gmap subaddress_index (list Z);
  tx_scan_info : list tx_scan_info_t }.

Definition nothing_received : received_t := {| r_outs := []; tx_money_got_in_outs := ∅; tx_amounts_individual_outs := ∅; tx_scan_info := [] |}.

(** One output. An output of ours that cannot be decoded leaves no entry in [tx_scan_info]. *)
Definition scan_step (tx : transaction) (miner_tx : bool) (subs : gmap public_key subaddress_index) (i : nat) (o : tx_out) (secret : option ecdh_shared_secret)
    (r : received_t) : result received_t :=
  match secret with
  | None => Returns r
  | Some secret =>
      let check_info := scan_output_for_subaddresses o secret i subs in
      _ ← throw_if (si_error check_info);
      match si_received check_info with
      | Some recv =>
          scan_info ← scan_output tx miner_tx i check_info (r_outs r) (account cfg);
          if si_error scan_info then Returns r else
          let index := ri_index recv in
          let got := default 0 (tx_money_got_in_outs r !! index) in
          let money := si_money_transfered scan_info in
          _ ← throw_if (u64_max ⊟ money <=? got);
          Returns {| r_outs := r_outs r ++ [i]; tx_money_got_in_outs := <[index := got ⊞ money]> (tx_money_got_in_outs r);
                     tx_amounts_individual_outs := <[index := default [] (tx_amounts_individual_outs r !! index) ++ [money]]> (tx_amounts_individual_outs r);
                     tx_scan_info := tx_scan_info r ++ [scan_info] |}
      | None =>
          Returns {| r_outs := r_outs r; tx_money_got_in_outs := tx_money_got_in_outs r; tx_amounts_individual_outs := tx_amounts_individual_outs r;
                     tx_scan_info := tx_scan_info r ++ [check_info] |}
      end
  end.

Definition shared_secrets (tx : transaction) : list ecdh_shared_secret :=
  match get_all_output_ecdh_public_keys_from_extra (extra (prefix tx)) (length (vout (prefix tx))) with
  | Some ks => (fun k => derive_tx_output_ecdh_shared_secret k (m_view_secret_key (account cfg))) <$> ks
  | None => []
  end.

Fixpoint scan_outputs (tx : transaction) (miner_tx : bool) (subs : gmap public_key subaddress_index) (secrets : list ecdh_shared_secret) (i : nat) (outs : list tx_out)
    (r : received_t) : result received_t :=
  match outs with
  | [] => Returns r
  | o :: outs => r ← scan_step tx miner_tx subs i o (secrets !! i) r; scan_outputs tx miner_tx subs secrets (S i) outs r
  end.

(** ** The outputs that were received *)

(** The wallet, the money got, the individual amounts, and [total_received_1]. *)
Record receiving := { v_wallet : wallet2; v_got : gmap subaddress_index Z; v_individual : gmap subaddress_index (list Z); v_total : Z }.

Section Transaction.
Context (txid : hash) (tx : transaction) (o_indices : list Z) (height ts : Z) (miner_tx pool : bool).

(** Mask and kind of an output *)
Definition mask_and_rct (o : tx_out) (info : tx_scan_info_t) : ec_scalar * bool :=
  if amount o =? 0 then (si_mask info, true) else (1, miner_tx && (version (prefix tx) =? 2)).

Definition new_transfer (o : nat) (out : tx_out) (global_index : Z) (index : subaddress_index) (amount : Z) (info : tx_scan_info_t) : transfer_details :=
  {| m_block_height := height; m_tx := prefix tx; m_txid := txid; m_internal_output_index := o; m_global_output_index := global_index; m_spent := false;
     m_frozen := false; m_spent_height := 0; m_output_key_image := si_ki info; m_mask := (mask_and_rct out info).1; m_amount := amount;
     m_rct := (mask_and_rct out info).2; m_output_key_image_known := true; m_output_key_image_request := false; m_pk_index := 0; m_subaddr_index := index;
     m_output_key_image_partial := false; m_multisig_k := []; m_fake_multisig_info := []; m_uses := [] |}.

(** A larger output with a known key takes the place of the old one. *)
Definition replace_transfer (o : nat) (out : tx_out) (global_index : Z) (index : subaddress_index) (amount : Z) (info : tx_scan_info_t) (td : transfer_details)
    : transfer_details :=
  {| m_block_height := height; m_tx := prefix tx; m_txid := txid; m_internal_output_index := o; m_global_output_index := global_index; m_spent := m_spent td;
     m_frozen := m_frozen td; m_spent_height := m_spent_height td; m_output_key_image := m_output_key_image td; m_mask := (mask_and_rct out info).1; m_amount := amount;
     m_rct := (mask_and_rct out info).2; m_output_key_image_known := m_output_key_image_known td; m_output_key_image_request := m_output_key_image_request td;
     m_pk_index := 0; m_subaddr_index := index; m_output_key_image_partial := m_output_key_image_partial td; m_multisig_k := m_multisig_k td;
     m_fake_multisig_info := m_fake_multisig_info td; m_uses := m_uses td |}.

Definition expand_if_needed (index : subaddress_index) (w : wallet2) : result wallet2 :=
  if should_expand index w then expand_subaddresses index w else Returns w.

(** [std::find] and [erase] *)
Fixpoint erase_first (x : Z) (l : list Z) : option (list Z) :=
  match l with
  | [] => None
  | y :: l' => if y =? x then Some l' else cons y <$> erase_first x l'
  end.

(** The information is read at the index of the output; reading past its end, or the address of an output that was not
    received, is undefined. *)
Definition receive_step (infos : list tx_scan_info_t) (o : nat) (v : receiving) : result receiving :=
  let w := v_wallet v in
  match vout (prefix tx) !! o, infos !! o with
  | Some out, Some info =>
    let pk := pub (si_output_key_pair info) in
    let amount := if negb (amount out =? 0) then amount out else si_amount info in
    match m_pub_keys w !! pk with
    | None =>
      if pool then Returns {| v_wallet := w; v_got := v_got v; v_individual := v_individual v; v_total := v_total v ⊞ amount |} else
      match o_indices !! o, si_received info with
      | Some global_index, Some recv =>
        let n := length (m_transfers w) in
        let td := new_transfer o out global_index (ri_index recv) amount info in
        w ← expand_if_needed (ri_index recv) (with_transfers (m_transfers w ++ [td]) (m_pub_keys w) (m_output_key_images w) w);
        let w := with_transfers (m_transfers w) (<[pk := n]> (m_pub_keys w)) (<[si_ki info := n]> (m_output_key_images w)) w in
        Returns {| v_wallet := w; v_got := v_got v; v_individual := v_individual v; v_total := v_total v ⊞ amount |}
      | _, _ => Throws
      end
    | Some k =>
      match m_transfers w !! k, si_received info with
      | Some td, Some recv =>
        let index := ri_index recv in
        let got := default 0 (v_got v !! index) in
        _ ← throw_if (got <? si_amount info);
        if m_spent td || (si_amount info <=? m_amount td) then
          match erase_first (si_amount info) (default [] (v_individual v !! index)) with
          | None => Throws
          | Some l => Returns {| v_wallet := w; v_got := <[index := got ⊟ si_amount info]> (v_got v); v_individual := <[index := l]> (v_individual v); v_total := v_total v |}
          end
        else
          let extra_amount := amount ⊟ m_amount td in
          w ← (if pool then Returns w else
               match o_indices !! o with
               | None => Throws
               | Some global_index =>
                 let td' := replace_transfer o out global_index index amount info td in
                 w ← expand_if_needed index (with_transfers (<[k := td']> (m_transfers w)) (m_pub_keys w) (m_output_key_images w) w);
                 pk' ← get_public_key td';
                 _ ← throw_if (negb (pk' =? pk));
                 Returns w
               end);
          Returns {| v_wallet := w; v_got := <[index := got ⊟ m_amount td]> (v_got v); v_individual := v_individual v; v_total := v_total v ⊞ extra_amount |}
      | _, _ => Throws
      end
    end
  | _, _ => Throws
  end.

Fixpoint receive_outputs (infos : list tx_scan_info_t) (outs : list nat) (v : receiving) : result receiving :=
  match outs with
  | [] => Returns v
  | o :: outs => v ← receive_step infos o v; receive_outputs infos outs v
  end.

(** ** The outputs that are spent *)

Record spending := { s_transfers : list transfer_details; s_money : Z; s_account : option Z; s_indices : gset Z }.

Definition spend_step (kis : gmap key_image nat) (i : txin_v) (s : spending) : result spending :=
  match i with
  | txin_gen _ => Returns s
  | txin_from_key x =>
    match kis !! output_key_image x with
    | None => Returns s
    | Some k =>
      td ← transfer_at (s_transfers s) k;
      let ts' := if (0 <? in_amount x) && negb (in_amount x =? m_amount td) then <[k := with_td_amount (in_amount x) td]> (s_transfers s) else s_transfers s in
      let amount := if 0 <? in_amount x then in_amount x else m_amount td in
      ts' ← (if pool then Returns ts' else set_spent k height ts');
      Returns {| s_transfers := ts'; s_money := s_money s ⊞ amount; s_account := Some (major (m_subaddr_index td));
                 s_indices := {[ minor (m_subaddr_index td) ]} ∪ s_indices s |}
    end
  end.

Fixpoint spend_inputs (kis : gmap key_image nat) (ins : list txin_v) (s : spending) : result spending :=
  match ins with
  | [] => Returns s
  | i :: ins => s ← spend_step kis i s; spend_inputs kis ins s
  end.

Definition rings_of : list (key_image * list Z) :=
  omap (fun i => match i with txin_from_key x => Some (output_key_image x, output_relative_offsets x) | txin_gen _ => None end) (vin (prefix tx)).

Definition process_outgoing (spent received subaddr_account : Z) (subaddr_indices : gset Z) (w : wallet2) : wallet2 :=
  let entry :=
    match m_confirmed_txs w !! txid with
    | Some e => e
    | None => {| c_amount_in := spent; c_amount_out := spent ⊟ fee (basic (ringct tx)); c_change := received; c_block_height := 0; c_dests := []; c_timestamp := 0;
                 c_unlock_height := 0; c_subaddr_account := subaddr_account; c_subaddr_indices := subaddr_indices; c_rings := [] |}
    end in
  with_sent (m_unconfirmed_txs w)
    (<[txid := {| c_amount_in := c_amount_in entry; c_amount_out := c_amount_out entry; c_change := c_change entry; c_block_height := height;
                  c_dests := c_dests entry; c_timestamp := ts; c_unlock_height := unlock_height (prefix tx); c_subaddr_account := c_subaddr_account entry;
                  c_subaddr_indices := c_subaddr_indices entry; c_rings := rings_of |}]> (m_confirmed_txs w)) w.

Definition with_change (change : Z) (c : confirmed_transfer_details) : confirmed_transfer_details :=
  {| c_amount_in := c_amount_in c; c_amount_out := c_amount_out c; c_change := change; c_block_height := c_block_height c; c_dests := c_dests c;
     c_timestamp := c_timestamp c; c_unlock_height := c_unlock_height c; c_subaddr_account := c_subaddr_account c; c_subaddr_indices := c_subaddr_indices c;
     c_rings := c_rings c |}.

Definition sum_got (p : subaddress_index -> bool) (got : gmap subaddress_index Z) : Z :=
  foldl (fun acc x => acc ⊞ (if p x.1 then x.2 else 0)) 0 (map_to_list got).

Definition record_outgoing (tx_fee : Z) (got : gmap subaddress_index Z) (s : spending) (w : wallet2) : wallet2 :=
  match s_account s with
  | Some acc =>
    if (0 <? s_money s) && negb pool then
      let self_received := sum_got (fun i => major i =? acc) got in
      let w := process_outgoing (s_money s) self_received acc (s_indices s) w in
      if s_money s =? self_received ⊞ tx_fee then with_sent (m_unconfirmed_txs w) (alter (with_change self_received) txid (m_confirmed_txs w)) w else w
    else w
  | None => w
  end.

(** ** Payments *)

(** [emplace_or_replace] *)
Fixpoint emplace_or_replace (container : list (payment_details * bool)) (pd : payment_details * bool) : list (payment_details * bool) :=
  match container with
  | [] => [pd]
  | x :: rest =>
      if bool_decide (p_tx_hash x.1 = p_tx_hash pd.1) && bool_decide (p_subaddr_index x.1 = p_subaddr_index pd.1) then pd :: rest
      else x :: emplace_or_replace rest pd
  end.

(** The totals are compared; a difference ends the process. *)
Definition record_payments (double_spend_seen : bool) (tx_fee : Z) (subaddr_account : option Z) (v : receiving) (w : wallet2) : result wallet2 :=
  let is_change (i : subaddress_index) := bool_decide (subaddr_account = Some (major i)) in
  let sub_change := sum_got is_change (v_got v) in
  let got := filter (fun x : subaddress_index * Z => is_change x.1 = false) (v_got v) in
  if (size got =? 0)%nat then Returns w else
  let total_received_2 := foldl (fun acc x => acc ⊞ x.2) sub_change (map_to_list got) in
  _ ← throw_unless (v_total v =? total_received_2);
  let payments :=
    (fun x => {| p_tx_hash := txid; p_amount := x.2; p_amounts := default [] (v_individual v !! x.1); p_fee := tx_fee; p_block_height := height;
                 p_unlock_height := unlock_height (prefix tx); p_timestamp := ts; p_coinbase := miner_tx; p_subaddr_index := x.1 |}) <$> map_to_list got in
  Returns (if pool
           then with_payments (m_payments w) (foldl (fun c p => emplace_or_replace c (p, double_spend_seen)) (m_unconfirmed_payments w) payments) w
           else with_payments (m_payments w ++ payments) (m_unconfirmed_payments w) w).

Definition tx_locked_one_year_away_in_blocks : Z := 288 * 365.

Definition receive_tx (w : wallet2) : result receiving :=
  let nothing := {| v_wallet := w; v_got := ∅; v_individual := ∅; v_total := 0 |} in
  let tx_locked_too_far_away :=
    (height <=? unlock_height (prefix tx)) && (tx_locked_one_year_away_in_blocks <? unlock_height (prefix tx) ⊟ height) in
  if (0 <? length (vout (prefix tx)))%nat && negb tx_locked_too_far_away then
    r ← scan_outputs tx miner_tx (m_subaddresses w) (shared_secrets tx) 0 (vout (prefix tx)) nothing_received;
    let v := {| v_wallet := w; v_got := tx_money_got_in_outs r; v_individual := tx_amounts_individual_outs r; v_total := 0 |} in
    if (0 <? length (r_outs r))%nat then
      _ ← throw_unless (pool || (length (vout (prefix tx)) =? length o_indices)%nat);
      receive_outputs (tx_scan_info r) (r_outs r) v
    else Returns v
  else Returns nothing.

(** The callbacks are left out. *)
Definition process_new_transaction (double_spend_seen : bool) (w : wallet2) : result wallet2 :=
  let w := if negb miner_tx && negb pool then process_unconfirmed txid height w else w in
  v ← receive_tx w;
  let w := v_wallet v in
  _ ← throw_unless (size (v_got v) =? size (v_individual v))%nat;
  s ← spend_inputs (m_output_key_images w) (vin (prefix tx)) {| s_transfers := m_transfers w; s_money := 0; s_account := None; s_indices := ∅ |};
  let w := with_transfers (s_transfers s) (m_pub_keys w) (m_output_key_images w) w in
  let tx_fee := if miner_tx then 0 else fee (basic (ringct tx)) in
  let w := record_outgoing tx_fee (v_got v) s w in
  record_payments double_spend_seen tx_fee (s_account s) v w.

End Transaction.

(** ** Blocks *)

Definition should_skip_block (b : block) (height : Z) : bool :=
  negb ((createtime cfg <? timestamp (header b) ⊞ 60 * 60 * 24) && (m_refresh_from_block_height cfg <=? height)).

Record parsed_block := { pb_hash : hash; pb_block : block; pb_txes : list transaction; pb_o_indices : list (list Z) }.

Fixpoint process_block_txs (height ts : Z) (hashes : list hash) (txes : list transaction) (o_indices : list (list Z)) (w : wallet2) : result wallet2 :=
  match hashes, txes, o_indices with
  | [], _, _ => Returns w
  | h :: hashes, tx :: txes, ixs :: o_indices =>
      w ← process_new_transaction h tx ixs height ts false false false w;
      process_block_txs height ts hashes txes o_indices w
  | _, _, _ => Throws
  end.

(** The transactions of a block that is not skipped; [n_txs] is the number of those of the block entry. *)
Definition process_block_contents (n_txs : nat) (pb : parsed_block) (height : Z) (w : wallet2) : result wallet2 :=
  let b := pb_block pb in
  miner_hash ← get_transaction_hash (miner_tx b) (cached_size (miner_tx b));
  match pb_o_indices pb with
  | [] => Throws
  | ixs :: rest =>
      w ← process_new_transaction miner_hash (miner_tx b) ixs height (timestamp (header b)) true false false w;
      _ ← throw_unless (n_txs =? length (tx_hashes b))%nat;
      _ ← throw_unless (n_txs =? length (pb_txes pb))%nat;
      process_block_txs height (timestamp (header b)) (tx_hashes b) (pb_txes pb) rest w
  end.

Definition process_new_blockchain_entry (n_txs : nat) (pb : parsed_block) (height : Z) (w : wallet2) : result wallet2 :=
  _ ← throw_unless (S n_txs =? length (pb_o_indices pb))%nat;
  w ← (if should_skip_block (pb_block pb) height then Returns w else process_block_contents n_txs pb height w);
  Returns (with_blockchain (hc_push_back (pb_hash pb) (m_blockchain w)) w).

(** ** Detaching blocks *)

Fixpoint pop_uses (height : Z) (uses : list (Z * hash)) : list (Z * hash) :=
  match uses with
  | [] => []
  | u :: rest => match pop_uses height rest with [] => if height <=? u.1 then [] else [u] | rest' => u :: rest' end
  end.

Definition detach_transfer (height : Z) (td : transfer_details) : transfer_details :=
  let td := if m_spent td && (height <=? m_spent_height td) then with_spent false 0 td else td in
  with_uses (pop_uses height (m_uses td)) td.

Fixpoint erase_key_images (tds : list transfer_details) (kis : gmap key_image nat) : result (gmap key_image nat) :=
  match tds with
  | [] => Returns kis
  | td :: tds =>
      if negb (m_output_key_image_known td) || m_output_key_image_partial td then erase_key_images tds kis else
      match kis !! m_output_key_image td with
      | None => Throws
      | Some _ => erase_key_images tds (delete (m_output_key_image td) kis)
      end
  end.

Fixpoint erase_pub_keys (tds : list transfer_details) (pks : gmap public_key nat) : result (gmap public_key nat) :=
  match tds with
  | [] => Returns pks
  | td :: tds =>
      pk ← get_public_key td;
      match pks !! pk with
      | None => Throws
      | Some _ => erase_pub_keys tds (delete pk pks)
      end
  end.

Definition detach_blockchain (height : Z) (w : wallet2) : result wallet2 :=
  let c := m_blockchain w in
  _ ← throw_if ((height <? Z.of_nat (m_offset c)) && (m_offset c <? hc_size c)%nat);
  let transfers := detach_transfer height <$> m_transfers w in
  let i_start := match list_find (fun td => height <= m_block_height td) transfers with Some (i, _) => i | None => length transfers end in
  let detached := drop i_start transfers in
  kis ← erase_key_images detached (m_output_key_images w);
  pks ← erase_pub_keys detached (m_pub_keys w);
  c ← hc_crop (Z.to_nat height) c;
  Returns (with_blockchain c
    (with_payments (filter (fun p => p_block_height p < height) (m_payments w)) (m_unconfirmed_payments w)
    (with_sent (m_unconfirmed_txs w) (filter (fun x => c_block_height x.2 < height) (m_confirmed_txs w))
    (with_transfers (take i_start transfers) pks kis w)))).

Fixpoint process_blocks_loop (start_height current_index : nat) (blocks : list (nat * parsed_block)) (blocks_added : nat) (w : wallet2) : result (wallet2 * nat) :=
  match blocks with
  | [] => Returns (w, blocks_added)
  | (n_txs, pb) :: blocks =>
      if (hc_size (m_blockchain w) <=? current_index)%nat then
        w ← process_new_blockchain_entry n_txs pb (Z.of_nat current_index) w;
        process_blocks_loop start_height (S current_index) blocks (S blocks_added) w
      else
        known ← hc_at (m_blockchain w) current_index;
        if negb (bool_decide (pb_hash pb = known)) then
          _ ← throw_if (current_index =? start_height)%nat;
          w ← detach_blockchain (Z.of_nat current_index) w;
          w ← process_new_blockchain_entry n_txs pb (Z.of_nat current_index) w;
          process_blocks_loop start_height (S current_index) blocks blocks_added w
        else process_blocks_loop start_height (S current_index) blocks blocks_added w
  end.

(** The sizes of the two vectors of blocks agree. *)
Definition process_parsed_blocks (start_height : nat) (blocks : list (nat * parsed_block)) (w : wallet2) : result (wallet2 * nat) :=
  _ ← throw_unless (hc_is_in_bounds start_height (m_blockchain w));
  process_blocks_loop start_height start_height blocks 0 w.

(** ** Sending *)

Fixpoint set_all_spent (idxs : list nat) (ts : list transfer_details) : result (list transfer_details) :=
  match idxs with
  | [] => Returns ts
  | i :: idxs => ts ← set_spent i 0 ts; set_all_spent idxs ts
  end.

(** After the node has accepted the transaction ([accepted]). *)
Definition commit_tx (accepted : bool) (now : Z) (ptx : pending_tx) (w : wallet2) : result wallet2 :=
  _ ← throw_unless accepted;
  _ ← throw_unless (forallb (fun idx => idx <? length (m_transfers w))%nat (ptx_selected_transfers ptx));
  txid ← get_transaction_hash (ptx_tx ptx) (cached_size (ptx_tx ptx));
  amount_in ← (if m_store_tx_info cfg then sum_selected (m_transfers w) (ptx_selected_transfers ptx) else Returns 0);
  let dests := if m_store_tx_info cfg then ptx_dests ptx else [] in
  let utd := get_unconfirmed_transfer_details now (ptx_tx ptx) amount_in dests (dst_amount (ptx_change_dts ptx))
               (cd_subaddr_account (ptx_construction_data ptx)) (cd_subaddr_indices (ptx_construction_data ptx)) in
  let w := with_sent (<[txid := utd]> (m_unconfirmed_txs w)) (m_confirmed_txs w) w in
  let w := if m_store_tx_info cfg then with_secret_keys (<[txid := ptx_output_secret_keys ptx]> (m_output_secret_keys w)) w else w in
  ts ← set_all_spent (ptx_selected_transfers ptx) (m_transfers w);
  Returns (with_transfers ts (m_pub_keys w) (m_output_key_images w) w).

(** ** Balances *)

Definition balance (index_major : Z) (strict : bool) (w : wallet2) : Z :=
  foldl (fun a x => a ⊞ x.2) 0 (map_to_list (balance_per_subaddress index_major strict (m_transfers w) (m_unconfirmed_txs w))).

Definition unlocked_balance (index_major : Z) (strict : bool) (w : wallet2) : Z :=
  foldl (fun a x => a ⊞ x.2.1) 0
    (map_to_list (unlocked_balance_per_subaddress index_major strict (m_transfers w) (Z.of_nat (hc_size (m_blockchain w))))).

Definition balance_all (strict : bool) (w : wallet2) : Z :=
  foldl (fun r i => r ⊞ balance (Z.of_nat i) strict w) 0 (seq 0 (length (m_subaddress_labels w))).

Definition unlocked_balance_all (strict : bool) (w : wallet2) : Z :=
  foldl (fun r i => r ⊞ unlocked_balance (Z.of_nat i) strict w) 0 (seq 0 (length (m_subaddress_labels w))).

(** [clear] and [clear_soft]; the pool's caches are not modelled. *)
Definition clear (w : wallet2) : wallet2 :=
  {| m_blockchain := hc_clear (m_blockchain w); m_transfers := []; m_pub_keys := ∅; m_output_key_images := ∅; m_subaddresses := ∅; m_subaddress_labels := [];
     m_unconfirmed_txs := ∅; m_confirmed_txs := ∅; m_payments := []; m_unconfirmed_payments := []; m_output_secret_keys := ∅ |}.

Definition clear_soft (genesis_hash : hash) (w : wallet2) : wallet2 :=
  {| m_blockchain := hc_push_back genesis_hash (hc_clear (m_blockchain w)); m_transfers := []; m_pub_keys := ∅; m_output_key_images := ∅;
     m_subaddresses := m_subaddresses w; m_subaddress_labels := m_subaddress_labels w; m_unconfirmed_txs := ∅; m_confirmed_txs := ∅; m_payments := [];
     m_unconfirmed_payments := []; m_output_secret_keys := m_output_secret_keys w |}.

End Operations.

End Wallet.
