(* ===== verification/WalletInv.v ===== *)
(** The wallet's tables agree with its list of received outputs, whatever blocks, transactions and reorganisations it
    sees, and detaching blocks undoes what they did. *)

From stdpp Require Import gmap sorting.
From S2P Require Import Prelude Hash Config Difficulty Varint Serialization Primality Group ModelGroup Key RctOps VectorOps InnerProduct Bulletproof BulletproofComplete Clsag RctTypes TxTypes Consensus Coinbase FormatUtils TxExtra RingCT TxUtils BlockQueue PoolTable TxPool TxPoolInv BlockTemplate ChainDb ChainDbInv LmdbTxn TxCheck Blockchain Core TxBuild WalletLogic Wallet.

Module WalletInv.
Import PoolTable.PoolTable Config Key RctOps VectorOps Clsag RctTypes TxTypes Consensus Coinbase FormatUtils TxExtra RingCT TxUtils ChainDb WalletLogic Wallet.

(** Inversion of the error monad. *)
Ltac invert_result H :=
  repeat match type of H with
  | (throw_unless _ ≫= _) = Returns _ => let E := fresh "Hc" in apply throw_unless_inv in H as [E H]
  | (throw_if _ ≫= _) = Returns _ => let E := fresh "Hc" in apply throw_unless_inv in H as [E H]; apply negb_true_iff in E
  end.

Section Inv.
Context `{Sha3} `{Sodium} `{UndefinedShift} `{CachedSize} (cfg : settings).

(** ** The scan *)

(** What is known of an output that was received. *)
Definition good_info (tx : transaction) (o : nat) (info : tx_scan_info_t) : Prop :=
  exists out x recv, vout (prefix tx) !! o = Some out /\ target out = txout_to_key (to_pk x) /\ pub (si_output_key_pair info) = to_pk x /\
    si_ki info = derive_key_image x /\ si_received info = Some recv /\ si_amount info = si_money_transfered info.

Lemma scan_output_good tx miner i o s subs outs info : vout (prefix tx) !! i = Some o ->
  scan_output tx miner i (scan_output_for_subaddresses o s i subs) outs (account cfg) = Returns info -> si_error info = false -> good_info tx i info.
Proof.
  intros Ho E He. unfold scan_output in E. rewrite Ho in E. destruct o as [a [k]]. unfold scan_output_for_subaddresses in E. cbn [target si_received] in E.
  destruct (check_output_for_subaddresses _ _ _ _) as [recv|] eqn:Er; [|discriminate]. unfold derive_output_key_pair_and_key_image in E.
  set (x := compute_output_secret_key_from_subaddress_spend_sk _ _ _) in E. cbn [pub sec] in E.
  destruct (Z.eqb_spec (to_pk x) k) as [<-|]; [|discriminate]. cbn [negb] in E. rewrite Z.eqb_refl in E. invert_result E.
  match type of E with match ?d with _ => _ end = _ => destruct d as [info1|] eqn:Ed end; [|injection E as <-; discriminate].
  assert (Hk : pub (si_output_key_pair info1) = to_pk x /\ si_ki info1 = derive_key_image x /\ si_received info1 = Some recv).
  { destruct (_ && _) in Ed; [|now injection Ed as <-]. destruct (decodeRct _ _ _) as [[m b]|]; [|discriminate]. now injection Ed as <-. }
  destruct (si_money_transfered info1 =? 0); injection E as <-; [discriminate|]. destruct Hk as (Hk1 & Hk2 & Hk3).
  exists {| amount := a; target := txout_to_key (to_pk x) |}, x, recv. cbn. split_and!; auto.
Qed.

(** Every output of ours can be decoded. *)
Definition decodable (tx : transaction) (miner : bool) (subs : gmap public_key subaddress_index) : Prop :=
  forall i o s outs info, vout (prefix tx) !! i = Some o -> shared_secrets cfg tx !! i = Some s ->
    scan_output tx miner i (scan_output_for_subaddresses o s i subs) outs (account cfg) = Returns info -> si_error info = false.

(** The information is at the index of its output. *)
Definition aligned (tx : transaction) (n : nat) (r : received_t) : Prop :=
  length (tx_scan_info r) = n /\ forall o, o ∈ r_outs r -> exists info, tx_scan_info r !! o = Some info /\ good_info tx o info.

Lemma scan_step_aligned tx miner subs i o s r r' : decodable tx miner subs -> vout (prefix tx) !! i = Some o -> shared_secrets cfg tx !! i = Some s ->
  aligned tx i r -> scan_step cfg tx miner subs i o (Some s) r = Returns r' -> aligned tx (S i) r'.
Proof.
  intros Hd Ho Hs [Hl Ha] E. unfold scan_step in E. invert_result E.
  assert (Hold : forall x j info, tx_scan_info r !! j = Some info -> (tx_scan_info r ++ [x]) !! j = Some info) by (intros x j info; apply lookup_app_l_Some).
  destruct (si_received _) as [recv|] eqn:Er.
  - apply result_bind_inv in E as (info & Ei & E). pose proof (Hd i o s _ info Ho Hs Ei) as He. rewrite He in E. invert_result E. injection E as <-.
    split; cbn [tx_scan_info r_outs]; [rewrite length_app; cbn; lia|]. intros j [Hj|Hj]%elem_of_app.
    + destruct (Ha j Hj) as (inf & Hi & Hg). eauto.
    + apply list_elem_of_singleton in Hj as ->. exists info. split; [|eapply scan_output_good; eassumption]. rewrite lookup_app_r by lia. now rewrite Hl, Nat.sub_diag.
  - injection E as <-. split; cbn [tx_scan_info r_outs]; [rewrite length_app; cbn; lia|]. intros j Hj. destruct (Ha j Hj) as (inf & Hi & Hg). eauto.
Qed.

Lemma scan_outputs_aligned tx miner subs : decodable tx miner subs -> length (shared_secrets cfg tx) = length (vout (prefix tx)) ->
  forall outs i r r', drop i (vout (prefix tx)) = outs -> aligned tx i r ->
  scan_outputs cfg tx miner subs (shared_secrets cfg tx) i outs r = Returns r' -> exists n, aligned tx n r'.
Proof.
  intros Hd Hl. induction outs as [|o outs IH]; intros i r r' Hdrop Ha E; cbn [scan_outputs] in E; [injection E as <-; eauto|].
  apply lookup_drop_cons in Hdrop as [Ho Hdrop]. destruct (lookup_lt_is_Some_2 (shared_secrets cfg tx) i) as [s Hs].
  { rewrite Hl. now apply lookup_lt_Some in Ho. }
  rewrite Hs in E. apply result_bind_inv in E as (r1 & E1 & E). eapply IH; [exact Hdrop| |exact E]. eapply scan_step_aligned; eassumption.
Qed.

Lemma scan_without_secrets tx miner subs outs : forall i r, scan_outputs cfg tx miner subs [] i outs r = Returns r.
Proof. induction outs as [|o outs IH]; intros i r; cbn [scan_outputs]; [reflexivity|]. rewrite lookup_nil. cbn. apply IH. Qed.

Lemma length_shared_secrets tx : shared_secrets cfg tx = [] \/ length (shared_secrets cfg tx) = length (vout (prefix tx)).
Proof.
  unfold shared_secrets. destruct (get_all_output_ecdh_public_keys_from_extra _ _) as [ks|] eqn:E; [|now left]. right. rewrite length_fmap.
  unfold get_all_output_ecdh_public_keys_from_extra in E. destruct (get_output_ecdh_public_keys_from_extra _) as [ks'|].
  - destruct (Nat.eqb_spec (length ks') (length (vout (prefix tx)))) as [Hl|]; [now injection E as <-|].
    destruct (get_tx_ecdh_public_key_from_extra _); [injection E as <-; apply length_replicate|discriminate].
  - destruct (get_tx_ecdh_public_key_from_extra _); [injection E as <-; apply length_replicate|discriminate].
Qed.

(** Whatever is received, its information is where the second loop looks for it. *)
Lemma scanned_infos tx miner subs r : decodable tx miner subs ->
  scan_outputs cfg tx miner subs (shared_secrets cfg tx) 0 (vout (prefix tx)) nothing_received = Returns r ->
  forall o, o ∈ r_outs r -> exists info, tx_scan_info r !! o = Some info /\ good_info tx o info.
Proof.
  intros Hd E. destruct (length_shared_secrets tx) as [Hn|Hl].
  - rewrite Hn, scan_without_secrets in E. injection E as <-. intros o Ho. now apply elem_of_nil in Ho.
  - destruct (scan_outputs_aligned tx miner subs Hd Hl (vout (prefix tx)) 0 nothing_received r) as (n & _ & Ha); [reflexivity| |exact E|exact Ha].
    split; [reflexivity|]. intros o Ho. now apply elem_of_nil in Ho.
Qed.

(** ** The tables *)

(** An output of ours: one secret key gives both its key and its image. *)
Definition owned (td : transfer_details) : Prop :=
  (exists x, get_public_key td = Returns (to_pk x) /\ m_output_key_image td = derive_key_image x) /\
  m_output_key_image_known td = true /\ m_output_key_image_partial td = false /\ (m_spent td = false -> m_spent_height td = 0).

(** [m_pub_keys] and [m_output_key_images] are the indices of the list of transfers. *)
Record tables_ok (ts : list transfer_details) (pks kis : gmap Z nat) : Prop := {
  to_pub pk k : pks !! pk = Some k <-> exists td, ts !! k = Some td /\ get_public_key td = Returns pk;
  to_img ki k : kis !! ki = Some k <-> exists td, ts !! k = Some td /\ m_output_key_image td = ki;
  to_owned k td : ts !! k = Some td -> owned td }.

Definition wallet_ok (w : wallet2) : Prop := tables_ok (m_transfers w) (m_pub_keys w) (m_output_key_images w).

(** Different outputs have different key images. *)
Definition images_differ : Prop := forall x y, derive_key_image x = derive_key_image y -> to_pk x = to_pk y.

Lemma tables_empty : tables_ok [] ∅ ∅.
Proof. split; [intros pk k|intros ki k|intros k td]; rewrite ?lookup_empty, ?lookup_nil; naive_solver. Qed.

(** The list determines the tables. *)
Lemma tables_unique ts pks kis pks' kis' : tables_ok ts pks kis -> tables_ok ts pks' kis' -> pks' = pks /\ kis' = kis.
Proof.
  intros Ha Hb. split; apply map_eq; intros x; apply option_eq; intros k.
  - now rewrite (to_pub _ _ _ Ha), (to_pub _ _ _ Hb).
  - now rewrite (to_img _ _ _ Ha), (to_img _ _ _ Hb).
Qed.

Lemma tables_push ts pks kis td pk : images_differ -> tables_ok ts pks kis -> owned td -> get_public_key td = Returns pk -> pks !! pk = None ->
  tables_ok (ts ++ [td]) (<[pk := length ts]> pks) (<[m_output_key_image td := length ts]> kis).
Proof.
  intros Himg Ht Ho Epk Hn. pose proof Ho as ((x & Ex & Ei) & _). rewrite Epk in Ex. injection Ex as ->.
  assert (Hki : kis !! m_output_key_image td = None).
  { destruct (kis !! m_output_key_image td) as [k|] eqn:E; [|reflexivity]. apply (to_img _ _ _ Ht) in E as (td' & Hk & Etd').
    destruct (to_owned _ _ _ Ht k td' Hk) as ((y & Ey & Ey') & _). rewrite Ey', Ei in Etd'. apply Himg in Etd'.
    assert (pks !! to_pk x = Some k) as E2 by (apply (to_pub _ _ _ Ht); exists td'; now rewrite Ey, Etd'). congruence. }
  assert (Hlast : forall k td', (ts ++ [td]) !! k = Some td' <-> ts !! k = Some td' \/ k = length ts /\ td' = td).
  { intros k td'. rewrite lookup_app_Some. split.
    - intros [?|[Hk E]]; [now left|]. right. destruct (k - length ts)%nat eqn:Ek; cbn in E; [|discriminate]. injection E as <-. split; [lia|reflexivity].
    - intros [?|[-> ->]]; [now left|]. right. split; [lia|]. now rewrite Nat.sub_diag. }
  split.
  - intros pk k. rewrite lookup_insert_Some, (to_pub _ _ _ Ht). setoid_rewrite Hlast. split.
    + intros [[<- <-]|[Hne (td' & Hk & E)]]; [exists td|exists td']; naive_solver.
    + intros (td' & [Hk|[-> ->]] & E); [|left; split; [congruence|reflexivity]]. right. split; [|eauto]. intros <-.
      assert (pks !! to_pk x = Some k) as E2 by (apply (to_pub _ _ _ Ht); eauto). congruence.
  - intros ki k. rewrite lookup_insert_Some, (to_img _ _ _ Ht). setoid_rewrite Hlast. split.
    + intros [[<- <-]|[Hne (td' & Hk & E)]]; [exists td|exists td']; naive_solver.
    + intros (td' & [Hk|[-> ->]] & E); [|left; split; [congruence|reflexivity]]. right. split; [|eauto]. intros <-.
      assert (kis !! m_output_key_image td = Some k) as E2 by (apply (to_img _ _ _ Ht); eauto). congruence.
  - intros k td' [Hk|[_ ->]]%Hlast; [eapply to_owned; eassumption|assumption].
Qed.

(** Changes that keep the keys keep the tables. *)
Lemma tables_insert ts pks kis k td td' : tables_ok ts pks kis -> ts !! k = Some td -> get_public_key td' = get_public_key td ->
  m_output_key_image td' = m_output_key_image td -> owned td' -> tables_ok (<[k := td']> ts) pks kis.
Proof.
  intros Ht Hk Epk Eki Ho. assert (Hl : forall j u, <[k := td']> ts !! j = Some u <-> (j = k /\ u = td') \/ (j <> k /\ ts !! j = Some u)).
  { intros j u. rewrite list_lookup_insert_Some. apply lookup_lt_Some in Hk. naive_solver. }
  split.
  - intros pk j. rewrite (to_pub _ _ _ Ht). setoid_rewrite Hl. destruct (decide (j = k)) as [->|]; [|naive_solver]. split.
    + intros (u & Hu & E). exists td'. split; [now left|]. congruence.
    + intros (u & [[_ ->]|[? _]] & E); [|contradiction]. exists td. split; [assumption|congruence].
  - intros ki j. rewrite (to_img _ _ _ Ht). setoid_rewrite Hl. destruct (decide (j = k)) as [->|]; [|naive_solver]. split.
    + intros (u & Hu & E). exists td'. split; [now left|]. congruence.
    + intros (u & [[_ ->]|[? _]] & E); [|contradiction]. exists td. split; [assumption|congruence].
  - intros j u [[_ ->]|[_ Hu]]%Hl; [assumption|]. eapply to_owned; eassumption.
Qed.

Lemma expand_frame index w w' : expand_if_needed cfg index w = Returns w' -> exists subs labels, w' = with_subaddresses subs labels w.
Proof.
  unfold expand_if_needed, expand_subaddresses. intros E.
  assert (Hsame : w = with_subaddresses (m_subaddresses w) (m_subaddress_labels w) w) by now destruct w.
  destruct (should_expand _ _ _); [|injection E as <-; eauto].
  destruct (_ !! _) as [l|].
  - destruct (_ <=? _); [|injection E as <-; eauto]. apply result_bind_inv in E as (subs & _ & E). injection E as <-. eauto.
  - apply result_bind_inv in E as (subs & _ & E). injection E as <-. eauto.
Qed.

(** ** Receiving *)

Definition same_rest (w w' : wallet2) : Prop :=
  m_blockchain w' = m_blockchain w /\ m_payments w' = m_payments w /\ m_confirmed_txs w' = m_confirmed_txs w /\ m_unconfirmed_txs w' = m_unconfirmed_txs w.

#[local] Instance same_rest_preorder : PreOrder same_rest.
Proof. split; [now intros w; split_and!|]. intros a b c (E1 & E2 & E3 & E4) (F1 & F2 & F3 & F4). split_and!; congruence. Qed.

(** An output is added, or takes the place of one with the same key, or nothing happens. *)
Definition received_change (height : Z) (pk : public_key) (w w' : wallet2) : Prop :=
  m_transfers w' = m_transfers w \/
  (exists td, m_transfers w' = m_transfers w ++ [td] /\ m_block_height td = height) \/
  (exists k td, m_pub_keys w !! pk = Some k /\ m_transfers w' = <[k := td]> (m_transfers w) /\ m_block_height td = height).

Section Steps.
Context (Himg : images_differ) (txid : hash) (tx : transaction) (o_indices : list Z) (height ts : Z) (miner pool : bool).

Lemma receive_step_effect infos o v v' : wallet_ok (v_wallet v) -> (exists info, infos !! o = Some info /\ good_info tx o info) ->
  receive_step cfg txid tx o_indices height miner pool infos o v = Returns v' ->
  wallet_ok (v_wallet v') /\ same_rest (v_wallet v) (v_wallet v') /\
  exists out pk, vout (prefix tx) !! o = Some out /\ target out = txout_to_key pk /\ received_change height pk (v_wallet v) (v_wallet v').
Proof using Himg.
  intros Hw (info & Hinfo & (out & x & recv & Hout & Htarget & Hpk & Hki & Hrecv & _)) E. unfold receive_step in E. cbv zeta in E.
  rewrite Hout, Hinfo, Hpk, Hrecv in E. set (w := v_wallet v) in *.
  assert (Hpub : forall td, m_tx td = prefix tx -> m_internal_output_index td = o -> get_public_key td = Returns (to_pk x)).
  { intros td E1 E2. unfold get_public_key. rewrite E1, E2, Hout. destruct out as [a t]. cbn in Htarget. now rewrite Htarget. }
  assert (Hgoal : forall w', wallet_ok w' -> same_rest w w' -> received_change height (to_pk x) w w' ->
    wallet_ok w' /\ same_rest w w' /\ exists out pk, vout (prefix tx) !! o = Some out /\ target out = txout_to_key pk /\ received_change height pk w w').
  { intros w' H1' H2' H3'. split_and!; auto. exists out, (to_pk x). auto. }
  destruct (m_pub_keys w !! to_pk x) as [k|] eqn:Ek.
  - destruct (m_transfers w !! k) as [td|] eqn:Etd; [|discriminate]. invert_result E. destruct (_ || _) eqn:Eb.
    + destruct (erase_first _ _); [|discriminate]. injection E as <-. apply Hgoal; [assumption|reflexivity|now left].
    + apply result_bind_inv in E as (w' & Ew & E). injection E as <-. cbn [v_wallet]. destruct pool.
      { injection Ew as <-. apply Hgoal; [assumption|reflexivity|now left]. }
      destruct (o_indices !! o) as [g|]; [|discriminate]. apply result_bind_inv in Ew as (w1 & Ex & Ew). apply result_bind_inv in Ew as (pk' & Epk & Ew).
      invert_result Ew. injection Ew as <-. apply expand_frame in Ex as (subs & labels & ->). apply Hgoal.
      * apply (to_pub _ _ _ Hw) in Ek as (td0 & Hk & Epk0). rewrite Etd in Hk. injection Hk as <-.
        destruct (to_owned _ _ _ Hw k td Etd) as ((y & Ey & Eyi) & Hkn & Hpa & Hsp).
        apply (tables_insert _ _ _ k td); [exact Hw|exact Etd|rewrite Epk0; now apply Hpub|reflexivity|].
        split_and!; [exists y; split; [|exact Eyi]|assumption..]. rewrite <- Ey, Epk0. now apply Hpub.
      * now split_and!.
      * right. right. eexists k, _. split; [exact Ek|]. split; reflexivity.
  - destruct pool; [injection E as <-; apply Hgoal; [assumption|reflexivity|now left]|].
    destruct (o_indices !! o) as [g|]; [|discriminate]. apply result_bind_inv in E as (w' & Ex & E). injection E as <-. apply expand_frame in Ex as (subs & labels & ->).
    apply Hgoal; [|now split_and!|right; left; eexists; split; reflexivity]. unfold wallet_ok. cbn [v_wallet with_transfers with_subaddresses m_transfers m_pub_keys m_output_key_images].
    match goal with |- tables_ok (_ ++ [?td]) _ _ => rewrite <- (eq_refl : m_output_key_image td = si_ki info) end. apply tables_push; [exact Himg|exact Hw| |now apply Hpub|exact Ek].
    split_and!; [exists x; split; [now apply Hpub|exact Hki]|reflexivity..].
Qed.

(** A property [Q] that the changes keep is kept. *)
Lemma receive_outputs_effect (Q : wallet2 -> Prop) infos outs : forall v v',
  (forall w w' o out pk, wallet_ok w -> Q w -> vout (prefix tx) !! o = Some out -> target out = txout_to_key pk -> received_change height pk w w' -> Q w') ->
  (forall o, o ∈ outs -> exists info, infos !! o = Some info /\ good_info tx o info) -> wallet_ok (v_wallet v) -> Q (v_wallet v) ->
  receive_outputs cfg txid tx o_indices height miner pool infos outs v = Returns v' ->
  wallet_ok (v_wallet v') /\ same_rest (v_wallet v) (v_wallet v') /\ Q (v_wallet v').
Proof using Himg.
  induction outs as [|o outs IH]; intros v v' HQ Hi Hw Hq E; cbn [receive_outputs] in E; [injection E as <-; now split_and!|].
  apply result_bind_inv in E as (v1 & E1 & E). apply receive_step_effect in E1 as (Hw1 & Hs1 & out & pk & Hout & Ht & Hc); [|assumption|apply Hi; constructor].
  apply IH in E as (Hw' & Hs' & Hq'); [|assumption|intros j Hj; apply Hi; now constructor|assumption|exact (HQ _ _ o out pk Hw Hq Hout Ht Hc)].
  split_and!; auto. etransitivity; eassumption.
Qed.

(** What an input does to the output it spends. *)
Definition spent_by (x : txin_from_key_t) (td : transfer_details) : transfer_details :=
  let td := if (0 <? in_amount x) && negb (in_amount x =? m_amount td) then with_td_amount (in_amount x) td else td in
  if pool then td else with_spent true height td.

Lemma spend_step_shape kis i s s' : spend_step height pool kis i s = Returns s' ->
  s_transfers s' = s_transfers s \/
  exists x k td, i = txin_from_key x /\ kis !! output_key_image x = Some k /\ s_transfers s !! k = Some td /\ s_transfers s' = <[k := spent_by x td]> (s_transfers s).
Proof using.
  unfold spend_step. intros E. destruct i as [|x]; [injection E as <-; now left|]. destruct (kis !! _) as [k|] eqn:Ek; [|injection E as <-; now left].
  apply result_bind_inv in E as (td & Etd & E). unfold transfer_at in Etd. destruct (s_transfers s !! k) as [td0|] eqn:Et; [|discriminate]. injection Etd as ->.
  cbv zeta in E. apply result_bind_inv in E as (ts' & Es & E). injection E as <-. cbn [s_transfers]. right. exists x, k, td. split_and!; auto. unfold spent_by.
  destruct pool.
  - injection Es as <-. destruct (_ && _); [reflexivity|]. symmetry. now apply list_insert_id.
  - unfold set_spent in Es. apply throw_unless_inv in Es as [_ Es]. injection Es as <-.
    assert (Hlt : (k < length (s_transfers s))%nat) by now apply lookup_lt_Some in Et.
    apply list_eq. intros j. destruct (decide (j = k)) as [->|Hne].
    + rewrite list_lookup_alter_eq, list_lookup_insert_eq by assumption. destruct (_ && _); [now rewrite list_lookup_insert_eq by assumption|now rewrite Et].
    + rewrite list_lookup_alter_ne, list_lookup_insert_ne by congruence. destruct (_ && _); [now rewrite list_lookup_insert_ne by congruence|reflexivity].
Qed.

Lemma spent_by_keys x td : get_public_key (spent_by x td) = get_public_key td /\ m_output_key_image (spent_by x td) = m_output_key_image td /\ (owned td -> owned (spent_by x td)).
Proof using.
  unfold spent_by. destruct (_ && _), pool; (split; [reflexivity|]); (split; [reflexivity|]); intros ((y & Hy) & Hk & Hp & Hs);
    (split_and!; [exists y; exact Hy|exact Hk|exact Hp|first [exact Hs|intros Hf; discriminate Hf]]).
Qed.

Lemma spend_inputs_effect pks kis (Q : list transfer_details -> Prop) ins : forall s s',
  (forall l x k td, txin_from_key x ∈ ins -> kis !! output_key_image x = Some k -> l !! k = Some td -> tables_ok l pks kis -> Q l -> Q (<[k := spent_by x td]> l)) ->
  tables_ok (s_transfers s) pks kis -> Q (s_transfers s) -> spend_inputs height pool kis ins s = Returns s' ->
  tables_ok (s_transfers s') pks kis /\ Q (s_transfers s').
Proof using.
  induction ins as [|i ins IH]; intros s s' HQ Ht Hq E; cbn [spend_inputs] in E; [injection E as <-; auto|].
  apply result_bind_inv in E as (s1 & E1 & E). apply IH in E; auto; [intros l x k td Hx; apply HQ; now constructor| |];
    apply spend_step_shape in E1 as [->|(x & k & td & -> & Hk & Htd & ->)]; auto.
  - destruct (spent_by_keys x td) as (E1 & E2 & E3). apply (tables_insert _ _ _ k td); auto. apply E3. eapply to_owned; eassumption.
  - apply HQ; auto. constructor.
Qed.

(** ** A transaction *)

(** What a transaction does besides: payments are added, and only its own entry among the sent ones changes. *)
Record booked (w w' : wallet2) : Prop := {
  bk_chain : m_blockchain w' = m_blockchain w;
  bk_payments : pool = false -> exists ps, m_payments w' = m_payments w ++ ps /\ Forall (fun p => p_block_height p = height) ps;
  bk_other id : id <> txid -> m_confirmed_txs w' !! id = m_confirmed_txs w !! id;
  bk_own : m_confirmed_txs w' !! txid = m_confirmed_txs w !! txid \/ exists c, m_confirmed_txs w' !! txid = Some c /\ c_block_height c = height }.

Lemma process_unconfirmed_frame w : let w' := process_unconfirmed cfg txid height w in
  m_transfers w' = m_transfers w /\ m_pub_keys w' = m_pub_keys w /\ m_output_key_images w' = m_output_key_images w /\ m_subaddresses w' = m_subaddresses w /\
  m_payments w' = m_payments w /\ m_blockchain w' = m_blockchain w /\ (forall id, id <> txid -> m_confirmed_txs w' !! id = m_confirmed_txs w !! id) /\
  (m_confirmed_txs w' !! txid = m_confirmed_txs w !! txid \/ exists c, m_confirmed_txs w' !! txid = Some c /\ c_block_height c = height).
Proof using.
  cbv zeta. unfold process_unconfirmed. destruct (m_unconfirmed_txs w !! txid) as [utd|]; [|now split_and!; auto]. cbn. split_and!; auto.
  - intros id Hne. destruct (m_store_tx_info cfg); [|reflexivity]. destruct (m_confirmed_txs w !! txid); [reflexivity|]. now rewrite lookup_insert_ne.
  - destruct (m_store_tx_info cfg); [|now left]. destruct (m_confirmed_txs w !! txid) as [c|] eqn:E; [now left|]. right.
    exists (confirm_transfer utd height). split; [now rewrite lookup_insert_eq|reflexivity].
Qed.

Lemma record_outgoing_frame tx_fee got s w : let w' := record_outgoing txid tx height ts pool tx_fee got s w in
  m_transfers w' = m_transfers w /\ m_pub_keys w' = m_pub_keys w /\ m_output_key_images w' = m_output_key_images w /\ m_subaddresses w' = m_subaddresses w /\
  m_payments w' = m_payments w /\ m_blockchain w' = m_blockchain w /\ (forall id, id <> txid -> m_confirmed_txs w' !! id = m_confirmed_txs w !! id) /\
  (m_confirmed_txs w' !! txid = m_confirmed_txs w !! txid \/ exists c, m_confirmed_txs w' !! txid = Some c /\ c_block_height c = height).
Proof using.
  cbv zeta. unfold record_outgoing. destruct (s_account s) as [acc|]; [|now split_and!; auto]. destruct (_ && _); [|now split_and!; auto]. cbv zeta.
  destruct (_ =? _); cbn; split_and!; auto.
  - intros id Hne. now rewrite lookup_alter_ne, lookup_insert_ne.
  - right. rewrite lookup_alter_eq, lookup_insert_eq. cbn. eexists. split; reflexivity.
  - intros id Hne. now rewrite lookup_insert_ne.
  - right. rewrite lookup_insert_eq. eexists. split; reflexivity.
Qed.

Lemma record_payments_frame seen tx_fee acc v w w' : record_payments txid tx height ts miner pool seen tx_fee acc v w = Returns w' ->
  m_transfers w' = m_transfers w /\ m_pub_keys w' = m_pub_keys w /\ m_output_key_images w' = m_output_key_images w /\ m_confirmed_txs w' = m_confirmed_txs w /\
  m_blockchain w' = m_blockchain w /\ (pool = false -> exists ps, m_payments w' = m_payments w ++ ps /\ Forall (fun p => p_block_height p = height) ps).
Proof using.
  unfold record_payments. cbv zeta. intros E. destruct (size _ =? 0)%nat.
  { injection E as <-. split_and!; auto. intros _. exists []. now rewrite app_nil_r. }
  invert_result E. injection E as <-. destruct pool; split_and!; try reflexivity; [discriminate|]. intros _. eexists. split; [reflexivity|].
  apply Forall_fmap, Forall_forall. now intros x _.
Qed.

Lemma receive_tx_effect (Q : wallet2 -> Prop) w v :
  (forall w w' o out pk, wallet_ok w -> Q w -> vout (prefix tx) !! o = Some out -> target out = txout_to_key pk -> received_change height pk w w' -> Q w') ->
  decodable tx miner (m_subaddresses w) -> wallet_ok w -> Q w -> receive_tx cfg txid tx o_indices height miner pool w = Returns v ->
  wallet_ok (v_wallet v) /\ same_rest w (v_wallet v) /\ Q (v_wallet v).
Proof using Himg.
  unfold receive_tx. intros HQ Hd Hw Hq E. destruct (_ && _); [|injection E as <-; now split_and!].
  apply result_bind_inv in E as (r & Er & E). cbv zeta in E. destruct (_ <? _)%nat; [|injection E as <-; now split_and!].
  invert_result E. apply (receive_outputs_effect Q) in E; auto. intros o Ho. eapply scanned_infos; eassumption.
Qed.

(** The changes of the list of transfers that a transaction makes, for any property that they keep. *)
Lemma process_tx_effect (Q : list transfer_details -> Prop) seen w w' :
  decodable tx miner (m_subaddresses w) -> wallet_ok w -> Q (m_transfers w) ->
  (forall u u' o out pk, wallet_ok u -> Q (m_transfers u) -> vout (prefix tx) !! o = Some out -> target out = txout_to_key pk -> received_change height pk u u' ->
     Q (m_transfers u')) ->
  (forall l pks kis x k td, txin_from_key x ∈ vin (prefix tx) -> kis !! output_key_image x = Some k -> l !! k = Some td -> tables_ok l pks kis -> Q l ->
     Q (<[k := spent_by x td]> l)) ->
  process_new_transaction cfg txid tx o_indices height ts miner pool seen w = Returns w' ->
  wallet_ok w' /\ Q (m_transfers w') /\ booked w w'.
Proof using Himg.
  unfold process_new_transaction. cbv zeta. intros Hd Hw Hq HQ1 HQ2 E. set (w0 := if _ && _ then _ else _) in E.
  assert (H0' : m_transfers w0 = m_transfers w /\ m_pub_keys w0 = m_pub_keys w /\ m_output_key_images w0 = m_output_key_images w /\ m_subaddresses w0 = m_subaddresses w /\
    m_payments w0 = m_payments w /\ m_blockchain w0 = m_blockchain w /\ (forall id, id <> txid -> m_confirmed_txs w0 !! id = m_confirmed_txs w !! id) /\
    (m_confirmed_txs w0 !! txid = m_confirmed_txs w !! txid \/ exists c, m_confirmed_txs w0 !! txid = Some c /\ c_block_height c = height)).
  { unfold w0. destruct (_ && _); [apply process_unconfirmed_frame|]. split_and!; auto. }
  destruct H0' as (T0 & P0 & K0 & S0 & Y0 & B0 & C0 & D0). clearbody w0.
  apply result_bind_inv in E as (v & Ev & E).
  apply (receive_tx_effect (fun u => Q (m_transfers u))) in Ev as (Hwv & (Bv & Yv & Cv & _) & Hqv);
    [|exact HQ1|now rewrite S0|unfold wallet_ok; now rewrite T0, P0, K0|now rewrite T0].
  invert_result E. apply result_bind_inv in E as (s & Es & E).
  apply (spend_inputs_effect (m_pub_keys (v_wallet v)) _ Q) in Es as [Hts Hqs]; [|intros; eapply HQ2; eassumption|exact Hwv|exact Hqv]. cbv zeta in E.
  set (w1 := with_transfers _ _ _ _) in E. set (f := if miner then 0 else _) in E. set (w2 := record_outgoing _ _ _ _ _ _ _ _ w1) in E.
  pose proof (record_outgoing_frame f (v_got v) s w1) as (T2 & P2 & K2 & _ & Y2 & B2 & C2 & D2). fold w2 in T2, P2, K2, Y2, B2, C2, D2. clearbody w2.
  apply record_payments_frame in E as (T3 & P3 & K3 & C3 & B3 & Y3). split_and!.
  - unfold wallet_ok. rewrite T3, P3, K3, T2, P2, K2. exact Hts.
  - rewrite T3, T2. exact Hqs.
  - split.
    + rewrite B3, B2. cbn. now rewrite Bv.
    + intros Hp. destruct (Y3 Hp) as (ps & -> & Hps). exists ps. split; [|assumption]. rewrite Y2. cbn. now rewrite Yv, Y0.
    + intros id Hne. rewrite C3, C2 by assumption. cbn. rewrite Cv. now apply C0.
    + rewrite C3. cbn in D2. rewrite Cv in D2. destruct D2 as [->|?]; [exact D0|now right].
Qed.

End Steps.

(** ** Detaching *)

Lemma tables_fmap (f : transfer_details -> transfer_details) l pks kis :
  (forall td, get_public_key (f td) = get_public_key td /\ m_output_key_image (f td) = m_output_key_image td /\ (owned td -> owned (f td))) ->
  tables_ok l pks kis -> tables_ok (f <$> l) pks kis.
Proof.
  intros Hf Ht. split.
  - intros pk k. rewrite (to_pub _ _ _ Ht), list_lookup_fmap. destruct (l !! k) as [td|]; cbn; [|naive_solver]. destruct (Hf td) as (E & _). naive_solver congruence.
  - intros ki k. rewrite (to_img _ _ _ Ht), list_lookup_fmap. destruct (l !! k) as [td|]; cbn; [|naive_solver]. destruct (Hf td) as (_ & E & _). naive_solver congruence.
  - intros k td E. rewrite list_lookup_fmap in E. destruct (l !! k) as [td0|] eqn:Ek; [|discriminate]. injection E as <-. apply Hf. eapply to_owned; eassumption.
Qed.

Lemma detach_transfer_keys h td : get_public_key (detach_transfer h td) = get_public_key td /\ m_output_key_image (detach_transfer h td) = m_output_key_image td /\
  (owned td -> owned (detach_transfer h td)).
Proof.
  unfold detach_transfer. destruct (_ && _); (split; [reflexivity|]); (split; [reflexivity|]); intros (Hx & Hk & Hp & Hs); split_and!;
    first [exact Hx|exact Hk|exact Hp|exact Hs|reflexivity].
Qed.

Lemma erase_key_images_ok tds : forall kis, NoDup (m_output_key_image <$> tds) -> Forall owned tds -> Forall (fun td => is_Some (kis !! m_output_key_image td)) tds ->
  exists kis', erase_key_images tds kis = Returns kis' /\
    forall ki, kis' !! ki = if decide (ki ∈ m_output_key_image <$> tds) then None else kis !! ki.
Proof.
  induction tds as [|td tds IH]; intros kis Hn Ho Hk; cbn [erase_key_images].
  { exists kis. split; [reflexivity|]. intros ki. now rewrite decide_False by (apply not_elem_of_nil). }
  rewrite fmap_cons in *. apply NoDup_cons in Hn as [Hx Hn]. apply Forall_cons in Ho as [(_ & -> & -> & _) Ho]. apply Forall_cons in Hk as [[k Hkk] Hk]. cbn [negb orb].
  rewrite Hkk. destruct (IH (delete (m_output_key_image td) kis)) as (kis' & E & Hl); [assumption..| |].
  - apply Forall_forall. intros u Hu. rewrite Forall_forall in Hk. rewrite lookup_delete_ne; [now apply Hk|]. intros Eu. apply Hx. rewrite Eu. now apply list_elem_of_fmap_2.
  - exists kis'. split; [exact E|]. intros ki. rewrite Hl. destruct (decide (ki = m_output_key_image td)) as [->|Hne].
    + rewrite (decide_True (P := _ ∈ _ :: _)) by constructor. case_decide; [reflexivity|]. apply lookup_delete_eq.
    + rewrite lookup_delete_ne by congruence. apply decide_ext. rewrite elem_of_cons. tauto.
Qed.

Lemma erase_pub_keys_ok tds pubs : forall pks, result_mapM get_public_key tds = Returns pubs -> NoDup pubs -> Forall (fun pk => is_Some (pks !! pk)) pubs ->
  exists pks', erase_pub_keys tds pks = Returns pks' /\ forall pk, pks' !! pk = if decide (pk ∈ pubs) then None else pks !! pk.
Proof.
  revert pubs. induction tds as [|td tds IH]; intros pubs pks E Hn Hk; cbn in E |- *.
  { injection E as <-. exists pks. split; [reflexivity|]. intros pk. now rewrite decide_False by (apply not_elem_of_nil). }
  apply result_bind_inv in E as (p & Ep & E). apply result_bind_inv in E as (ps & Eps & E). injection E as <-.
  apply NoDup_cons in Hn as [Hx Hn]. apply Forall_cons in Hk as [[k Hkk] Hk]. rewrite Ep. cbn [mbind result_bind]. rewrite Hkk.
  destruct (IH ps (delete p pks)) as (pks' & E & Hl); [assumption..| |].
  - apply Forall_forall. intros u Hu. rewrite Forall_forall in Hk. rewrite lookup_delete_ne; [now apply Hk|]. intros ->. contradiction.
  - exists pks'. split; [exact E|]. intros pk. rewrite Hl. destruct (decide (pk = p)) as [->|Hne].
    + rewrite (decide_True (P := _ ∈ _ :: _)) by constructor. case_decide; [reflexivity|]. apply lookup_delete_eq.
    + rewrite lookup_delete_ne by congruence. apply decide_ext. rewrite elem_of_cons. tauto.
Qed.

(** The second part of the list is taken out of the tables. *)
Lemma tables_erase a b pks kis : tables_ok (a ++ b) pks kis ->
  exists pks' kis', erase_key_images b kis = Returns kis' /\ erase_pub_keys b pks = Returns pks' /\ tables_ok a pks' kis'.
Proof.
  intros Ht. assert (Hown : Forall owned (a ++ b)) by (apply Forall_lookup; intros k td; apply (to_owned _ _ _ Ht)).
  apply Forall_app in Hown as [Ha Hb].
  assert (Hat : forall j td, b !! j = Some td -> (a ++ b) !! (length a + j)%nat = Some td) by (intros j td E; rewrite lookup_app_r by lia; now replace (length a + j - length a)%nat with j by lia).
  assert (exists pubs, result_mapM get_public_key b = Returns pubs) as [pubs Epubs].
  { clear - Hb. induction Hb as [|td l ((x & Ex & _) & _) _ [ps IH]]; [now eexists|]. cbn. rewrite Ex, IH. now eexists. }
  pose proof (result_mapM_returned _ _ _ Epubs) as Hpubs.
  assert (Hki : forall j td, b !! j = Some td -> kis !! m_output_key_image td = Some (length a + j)%nat).
  { intros j td Hj. apply (to_img _ _ _ Ht). eauto. }
  assert (Hpk : forall j pk, pubs !! j = Some pk -> pks !! pk = Some (length a + j)%nat).
  { intros j pk Hj. destruct (Forall2_lookup_r _ _ _ _ _ Hpubs Hj) as (td & Htd & Epk). apply (to_pub _ _ _ Ht). eauto. }
  destruct (erase_key_images_ok b kis) as (kis' & E1 & L1); [|assumption| |].
  { apply NoDup_alt. intros i j y Hi Hj. rewrite list_lookup_fmap in Hi, Hj. destruct (b !! i) as [u|] eqn:Ei, (b !! j) as [u'|] eqn:Ej; try discriminate.
    cbn in Hi, Hj. apply Hki in Ei, Ej. assert (Some (length a + i)%nat = Some (length a + j)%nat) as Eq by congruence. injection Eq. lia. }
  { apply Forall_lookup. intros j td Hj. eauto. }
  destruct (erase_pub_keys_ok b pubs pks) as (pks' & E2 & L2); [assumption| | |].
  { apply NoDup_alt. intros i j y Hi Hj. apply Hpk in Hi, Hj. assert (Some (length a + i)%nat = Some (length a + j)%nat) as Eq by congruence. injection Eq. lia. }
  { apply Forall_lookup. intros j pk Hj. eauto. }
  exists pks', kis'. split; [exact E1|]. split; [exact E2|].
  assert (Hlt : forall k td, (a ++ b) !! k = Some td -> (k < length a)%nat \/ exists j, k = (length a + j)%nat /\ b !! j = Some td).
  { intros k td [Hk|[Hk Hj]]%lookup_app_Some; [left; now apply lookup_lt_Some in Hk|right; exists (k - length a)%nat; split; [lia|assumption]]. }
  split.
  - intros pk k. rewrite L2. case_decide as Hin.
    + split; [discriminate|]. intros (td & Hk & Epk). apply list_elem_of_lookup in Hin as [j Hj]. apply Hpk in Hj.
      assert (pks !! pk = Some k) as E3 by (apply (to_pub _ _ _ Ht); exists td; split; [now apply lookup_app_l_Some|assumption]).
      apply lookup_lt_Some in Hk. rewrite E3 in Hj. injection Hj. lia.
    + rewrite (to_pub _ _ _ Ht). split; intros (td & Hk & Epk); exists td; (split; [|assumption]); [|now apply lookup_app_l_Some].
      destruct (Hlt k td Hk) as [Hl|(j & -> & Hj)]; [now rewrite lookup_app_l in Hk|]. exfalso. apply Hin.
      destruct (Forall2_lookup_l _ _ _ _ _ Hpubs Hj) as (pk' & Hpk' & Epk'). apply list_elem_of_lookup. exists j. congruence.
  - intros ki k. rewrite L1. case_decide as Hin.
    + split; [discriminate|]. intros (td & Hk & Eki). apply list_elem_of_fmap in Hin as (u & -> & Hu). apply list_elem_of_lookup in Hu as [j Hj]. apply Hki in Hj.
      assert (kis !! m_output_key_image u = Some k) as E3 by (apply (to_img _ _ _ Ht); exists td; split; [now apply lookup_app_l_Some|assumption]).
      apply lookup_lt_Some in Hk. rewrite E3 in Hj. injection Hj. lia.
    + rewrite (to_img _ _ _ Ht). split; intros (td & Hk & Eki); exists td; (split; [|assumption]); [|now apply lookup_app_l_Some].
      destruct (Hlt k td Hk) as [Hl|(j & -> & Hj)]; [now rewrite lookup_app_l in Hk|]. exfalso. apply Hin. rewrite <- Eki. apply list_elem_of_fmap_2.
      eapply list_elem_of_lookup_2, Hj.
  - intros k td Hk. eapply (to_owned _ _ _ Ht k). now apply lookup_app_l_Some.
Qed.

(** Where the transfers to detach begin. *)
Definition detach_start (h : Z) (l : list transfer_details) : nat :=
  match list_find (fun td => h <= m_block_height td) (detach_transfer h <$> l) with Some (i, _) => i | None => length (detach_transfer h <$> l) end.

(** The keys are found; only the hash chain can refuse. *)
Lemma detach_effect h w : wallet_ok w -> Z.of_nat (m_offset (m_blockchain w)) <= h ->
  exists w', detach_blockchain h w = Returns w' /\ wallet_ok w' /\ m_transfers w' = take (detach_start h (m_transfers w)) (detach_transfer h <$> m_transfers w) /\
    m_payments w' = filter (fun p => p_block_height p < h) (m_payments w) /\
    m_confirmed_txs w' = filter (fun x => c_block_height x.2 < h) (m_confirmed_txs w) /\
    m_offset (m_blockchain w') = m_offset (m_blockchain w) /\ m_genesis (m_blockchain w') = m_genesis (m_blockchain w) /\
    hc_blocks (m_blockchain w') = resize (Z.to_nat h - m_offset (m_blockchain w)) null_hash (hc_blocks (m_blockchain w)).
Proof.
  intros Hw Hh. unfold detach_blockchain. rewrite (proj2 (Z.ltb_ge _ _)) by assumption. cbn [andb throw_if throw_unless negb mbind result_bind]. cbv zeta.
  fold (detach_start h (m_transfers w)). set (l := detach_transfer h <$> m_transfers w). set (n := detach_start h (m_transfers w)).
  assert (Ht : tables_ok (take n l ++ drop n l) (m_pub_keys w) (m_output_key_images w)).
  { rewrite take_drop. apply tables_fmap; [apply detach_transfer_keys|exact Hw]. }
  apply tables_erase in Ht as (pks' & kis' & -> & -> & Ht). cbn [mbind result_bind]. unfold hc_crop.
  rewrite (proj2 (Nat.ltb_ge _ _)) by lia. cbn [mbind result_bind]. eexists. split; [reflexivity|]. split; [exact Ht|]. now split_and!.
Qed.

(** ** Blocks *)

(** The transactions of a block, with their hashes. *)
Definition tx_of_block (pb : parsed_block) (txid : hash) (tx : transaction) (miner : bool) : Prop :=
  (miner = true /\ tx = miner_tx (pb_block pb) /\ get_transaction_hash tx (cached_size tx) = Returns txid) \/
  (miner = false /\ tx ∈ pb_txes pb /\ txid ∈ tx_hashes (pb_block pb)).

(** What every transaction of a block keeps, the block keeps. *)
Lemma block_txs_keep (P : wallet2 -> Prop) pb height ts hashes : forall txes ixs w w',
  (forall txid tx ixs w w', tx_of_block pb txid tx false -> P w -> process_new_transaction cfg txid tx ixs height ts false false false w = Returns w' -> P w') ->
  (forall h, h ∈ hashes -> h ∈ tx_hashes (pb_block pb)) -> (forall tx, tx ∈ txes -> tx ∈ pb_txes pb) ->
  P w -> process_block_txs cfg height ts hashes txes ixs w = Returns w' -> P w'.
Proof.
  induction hashes as [|h hashes IH]; intros txes ixs w w' HP Hh Ht Hw E; cbn [process_block_txs] in E; [now injection E as <-|].
  destruct txes as [|tx txes]; [discriminate|]. destruct ixs as [|ix ixs]; [discriminate|]. apply result_bind_inv in E as (w1 & E1 & E).
  eapply IH; [exact HP| | | |exact E]; [intros; apply Hh; now constructor|intros; apply Ht; now constructor|].
  eapply HP; [|exact Hw|exact E1]. right. split_and!; [reflexivity|apply Ht; constructor|apply Hh; constructor].
Qed.

Lemma block_contents_keep (P : wallet2 -> Prop) n pb height w w' :
  (forall txid tx ixs miner w w', tx_of_block pb txid tx miner -> P w ->
     process_new_transaction cfg txid tx ixs height (timestamp (header (pb_block pb))) miner false false w = Returns w' -> P w') ->
  P w -> process_block_contents cfg n pb height w = Returns w' -> P w'.
Proof.
  intros HP Hw E. unfold process_block_contents in E. apply result_bind_inv in E as (mh & Emh & E). destruct (pb_o_indices pb) as [|ixs rest]; [discriminate|].
  apply result_bind_inv in E as (w1 & E1 & E). invert_result E.
  apply (block_txs_keep P pb height (timestamp (header (pb_block pb))) (tx_hashes (pb_block pb)) (pb_txes pb) rest w1 w'); auto.
  - intros. eapply HP; eassumption.
  - eapply HP; [|exact Hw|exact E1]. left. auto.
Qed.

(** Every output for an address of the account can be decoded. *)
Definition clean_tx (tx : transaction) (miner : bool) : Prop := forall subs, decodable tx miner subs.
Definition clean_block (pb : parsed_block) : Prop := forall txid tx miner, tx_of_block pb txid tx miner -> clean_tx tx miner.

Lemma process_tx_ok txid tx ixs height ts miner pool seen w w' : images_differ -> clean_tx tx miner -> wallet_ok w ->
  process_new_transaction cfg txid tx ixs height ts miner pool seen w = Returns w' -> wallet_ok w'.
Proof. intros Hi Hc Hw E. apply (process_tx_effect Hi txid tx ixs height ts miner pool (fun _ => True)) in E as (? & _ & _); auto. Qed.

Lemma block_entry_ok n pb height w w' : images_differ -> clean_block pb -> wallet_ok w -> process_new_blockchain_entry cfg n pb height w = Returns w' -> wallet_ok w'.
Proof.
  intros Hi Hc Hw E. unfold process_new_blockchain_entry in E. invert_result E. apply result_bind_inv in E as (w1 & E1 & E). injection E as <-.
  change (wallet_ok w1). destruct (should_skip_block _ _ _); [now injection E1 as <-|]. eapply (block_contents_keep wallet_ok); [|exact Hw|exact E1].
  intros txid tx ixs miner u u' Htx Hu. apply process_tx_ok; auto. eapply Hc, Htx.
Qed.

Lemma detach_ok h w w' : 0 <= h -> wallet_ok w -> detach_blockchain h w = Returns w' -> wallet_ok w'.
Proof.
  intros H0h Hw E. assert (Hh : Z.of_nat (m_offset (m_blockchain w)) <= h).
  { unfold detach_blockchain in E. invert_result E. apply result_bind_inv in E as (? & _ & E). apply result_bind_inv in E as (? & _ & E).
    apply result_bind_inv in E as (c & Ec & _). unfold hc_crop in Ec. destruct (Nat.ltb_spec (Z.to_nat h) (m_offset (m_blockchain w))); [discriminate|].
    lia. }
  destruct (detach_effect h w Hw Hh) as (w1 & E1 & Hok & _). congruence.
Qed.

Lemma process_loop_ok start blocks : forall i n w w' k, images_differ -> Forall (fun x => clean_block x.2) blocks -> wallet_ok w ->
  process_blocks_loop cfg start i blocks n w = Returns (w', k) -> wallet_ok w'.
Proof.
  induction blocks as [|[m pb] blocks IH]; intros i n w w' k Hi Hc Hw E; cbn [process_blocks_loop] in E; [now injection E as <- _|].
  apply Forall_cons in Hc as [Hpb Hc]. destruct (_ <=? _)%nat.
  - apply result_bind_inv in E as (w1 & E1 & E). eapply IH; [exact Hi|exact Hc| |exact E]. eapply block_entry_ok; eassumption.
  - apply result_bind_inv in E as (kn & _ & E). destruct (negb _); [|eapply IH; eassumption]. apply throw_unless_inv in E as [_ E].
    apply result_bind_inv in E as (w1 & E1 & E). apply result_bind_inv in E as (w2 & E2 & E). eapply IH; [exact Hi|exact Hc| |exact E].
    eapply (block_entry_ok _ pb _ w1); [assumption|assumption| |exact E2]. eapply detach_ok; [|exact Hw|exact E1]. lia.
Qed.

Lemma alter_as_insert {A} (f : A -> A) (l : list A) : forall (i : nat) x, l !! i = Some x -> alter f i l = <[i := f x]> l.
Proof. induction l as [|y l IH]; intros [|i] x E; try discriminate; cbn in *; [congruence|]. f_equal. now apply IH. Qed.

Lemma set_all_spent_ok idxs pks kis : forall l l', tables_ok l pks kis -> set_all_spent idxs l = Returns l' -> tables_ok l' pks kis.
Proof.
  induction idxs as [|i idxs IH]; intros l l' Ht E; cbn [set_all_spent] in E; [now injection E as <-|]. apply result_bind_inv in E as (l1 & E1 & E).
  eapply IH; [|exact E]. unfold set_spent in E1. invert_result E1. injection E1 as <-. apply Nat.ltb_lt in Hc. destruct (lookup_lt_is_Some_2 l i Hc) as [td Htd].
  rewrite (alter_as_insert _ _ _ _ Htd). apply (tables_insert _ _ _ i td); auto. destruct (to_owned _ _ _ Ht i td Htd) as (Hx & Hk & Hp & _). split_and!; auto; intros Hf; discriminate Hf.
Qed.

(** Everything that the modelled operations of the wallet can do. *)
Inductive wallet_step : wallet2 -> wallet2 -> Prop :=
| step_transaction txid tx ixs height ts miner pool seen w w' : clean_tx tx miner ->
    process_new_transaction cfg txid tx ixs height ts miner pool seen w = Returns w' -> wallet_step w w'
| step_blocks start blocks w w' added : Forall (fun x => clean_block x.2) blocks ->
    process_parsed_blocks cfg start blocks w = Returns (w', added) -> wallet_step w w'
| step_detach h w w' : 0 <= h -> detach_blockchain h w = Returns w' -> wallet_step w w'
| step_commit accepted now ptx w w' : commit_tx cfg accepted now ptx w = Returns w' -> wallet_step w w'
| step_expand index w w' : expand_subaddresses cfg index w = Returns w' -> wallet_step w w'
| step_label index label w w' : write_label index label w = Returns w' -> wallet_step w w'
| step_account label w w' : add_subaddress_account cfg label w = Returns w' -> wallet_step w w'
| step_subaddress m label w w' : add_subaddress cfg m label w = Returns w' -> wallet_step w w'
| step_one_off index w : wallet_step w (create_one_off_subaddress cfg index w)
| step_clear w : wallet_step w (clear w)
| step_clear_soft genesis w : wallet_step w (clear_soft genesis w).

Definition keeps_tables (w w' : wallet2) : Prop :=
  m_transfers w' = m_transfers w /\ m_pub_keys w' = m_pub_keys w /\ m_output_key_images w' = m_output_key_images w.

Lemma keeps_tables_ok w w' : keeps_tables w w' -> wallet_ok w -> wallet_ok w'.
Proof. unfold wallet_ok. now intros (-> & -> & ->). Qed.

Lemma expand_keeps index w w' : expand_subaddresses cfg index w = Returns w' -> keeps_tables w w'.
Proof.
  unfold expand_subaddresses. intros E. destruct (_ !! _) as [l|].
  - destruct (_ <=? _); [|now injection E as <-]. apply result_bind_inv in E as (subs & _ & E). now injection E as <-.
  - apply result_bind_inv in E as (subs & _ & E). now injection E as <-.
Qed.

Lemma write_label_keeps index label w w' : write_label index label w = Returns w' -> keeps_tables w w'.
Proof. unfold write_label. intros E. destruct (_ !! _); [|discriminate]. invert_result E. now injection E as <-. Qed.

Lemma wallet_step_ok w w' : images_differ -> wallet_ok w -> wallet_step w w' -> wallet_ok w'.
Proof.
  intros Hi Hw Hstep. revert Hw. destruct Hstep as [txid tx ixs height ts miner pool seen w0 w1 Hc E|start blocks w0 w1 added Hc E|h w0 w1 Hh E|accepted now ptx w0 w1 E|index w0 w1 E|index label w0 w1 E
    |label w0 w1 E|m label w0 w1 E|index w0|w0|genesis w0]; intros Hw.
  - eapply process_tx_ok; eassumption.
  - unfold process_parsed_blocks in E. invert_result E. eapply process_loop_ok; eassumption.
  - eapply detach_ok; eassumption.
  - unfold commit_tx in E. invert_result E. apply result_bind_inv in E as (id & _ & E). apply result_bind_inv in E as (a & _ & E). cbv zeta in E.
    apply result_bind_inv in E as (l & El & E). injection E as <-. unfold wallet_ok. cbn.
    destruct (m_store_tx_info cfg); cbn in *; eapply set_all_spent_ok; [exact Hw|exact El|exact Hw|exact El].
  - eapply keeps_tables_ok; [eapply expand_keeps, E|exact Hw].
  - eapply keeps_tables_ok; [eapply write_label_keeps, E|exact Hw].
  - unfold add_subaddress_account in E. apply result_bind_inv in E as (w2 & E1 & E). eapply keeps_tables_ok; [eapply write_label_keeps, E|]. eapply keeps_tables_ok; [eapply expand_keeps, E1|exact Hw].
  - unfold add_subaddress in E. destruct (_ !! _); [|discriminate]. apply result_bind_inv in E as (w2 & E1 & E). eapply keeps_tables_ok; [eapply write_label_keeps, E|].
    eapply keeps_tables_ok; [eapply expand_keeps, E1|exact Hw].
  - exact Hw.
  - exact tables_empty.
  - exact tables_empty.
Qed.

(** C6: The tables of the wallet are right.  From a cleared wallet, whatever sequence of transactions of blocks and of the
    pool, new blocks, reorganisations, sent transactions and new subaddresses it goes through, [m_pub_keys] and
    [m_output_key_images] hold exactly the indices of the received outputs by their output key and by
    their key image, so that no key and no image occurs twice, every image is that of the secret key of its output, and an unspent output has
    no spending height; and detaching any blocks above the offset of the hash chain does not fail (no step of the sequence trims that chain).  The outputs
    that are ours can be decoded, and different outputs have different images. *)
Theorem wallet_tables_consistent w0 w : images_differ -> rtc wallet_step (clear w0) w ->
  wallet_ok w /\ forall h, Z.of_nat (m_offset (m_blockchain w)) <= h -> exists w', detach_blockchain h w = Returns w' /\ wallet_ok w'.
Proof.
  intros Hi Hr. assert (Hok : wallet_ok w).
  { remember (clear w0) as c eqn:Ec. assert (Hc : wallet_ok c) by (rewrite Ec; exact tables_empty). clear Ec. induction Hr as [|a b c Hab _ IH]; [assumption|].
    apply IH. eapply wallet_step_ok; eassumption. }
  split; [exact Hok|]. intros h Hh. destruct (detach_effect h w Hok Hh) as (w' & E & Hw' & _). eauto.
Qed.

(** ** A reorganisation *)

(** A transfer of before, as it is after blocks at [h] and above. *)
Definition undone (h : Z) (td td' : transfer_details) : Prop := detach_transfer h td' = td /\ m_block_height td' < h.

Definition layered (h : Z) (old l : list transfer_details) : Prop :=
  exists olds news, l = olds ++ news /\ Forall2 (undone h) old olds /\ Forall (fun td => h <= m_block_height td) news.

(** All that the wallet has recorded is below [h]. *)
Record settled (h : Z) (w : wallet2) : Prop := {
  se_transfers : Forall (fun td => m_block_height td < h /\ (m_spent td = true -> m_spent_height td < h) /\ Forall (fun u => u.1 < h) (m_uses td)) (m_transfers w);
  se_payments : Forall (fun p => p_block_height p < h) (m_payments w);
  se_confirmed : map_Forall (fun _ c => c_block_height c < h) (m_confirmed_txs w) }.

(** A transaction that pays no known output key, spends of the wallet only what is unspent there, and is not recorded as sent. *)
Record fresh_tx (w : wallet2) (txid : hash) (tx : transaction) : Prop := {
  fr_keys o out pk : vout (prefix tx) !! o = Some out -> target out = txout_to_key pk -> m_pub_keys w !! pk = None;
  fr_spends x k td : txin_from_key x ∈ vin (prefix tx) -> m_output_key_images w !! output_key_image x = Some k -> m_transfers w !! k = Some td -> m_spent td = false;
  fr_amounts x : txin_from_key x ∈ vin (prefix tx) -> in_amount x = 0;
  fr_id : m_confirmed_txs w !! txid = None }.

Lemma filter_Forall {A} (P : A -> Prop) `{!forall x, Decision (P x)} l : Forall P l -> filter P l = l.
Proof. induction 1 as [|x l Hx _ IH]; [reflexivity|]. rewrite filter_cons_True by assumption. now rewrite IH. Qed.

Lemma filter_Forall_not {A} (P : A -> Prop) `{!forall x, Decision (P x)} l : Forall (fun x => ~ P x) l -> filter P l = [].
Proof. induction 1 as [|x l Hx _ IH]; [reflexivity|]. rewrite filter_cons_False by assumption. exact IH. Qed.

Lemma pop_uses_below h uses : Forall (fun u : Z * hash => u.1 < h) uses -> pop_uses h uses = uses.
Proof. induction 1 as [|u l Hu _ IH]; [reflexivity|]. cbn. rewrite IH. destruct l; [|reflexivity]. now rewrite (proj2 (Z.leb_gt _ _)). Qed.

Lemma pop_uses_idem h uses : pop_uses h (pop_uses h uses) = pop_uses h uses.
Proof.
  induction uses as [|u l IH]; [reflexivity|]. cbn [pop_uses]. destruct (pop_uses h l) as [|y l'] eqn:E.
  - destruct (h <=? u.1) eqn:Eu; [reflexivity|]. cbn. now rewrite Eu.
  - cbn [pop_uses] in *. now rewrite IH.
Qed.

Lemma undone_same h td : m_block_height td < h -> (m_spent td = true -> m_spent_height td < h) -> Forall (fun u => u.1 < h) (m_uses td) -> undone h td td.
Proof.
  intros Hb Hs Hu. split; [|assumption]. unfold detach_transfer. destruct (m_spent td) eqn:Es.
  - rewrite (proj2 (Z.leb_gt _ _)) by auto. cbn [andb]. rewrite pop_uses_below by assumption. now destruct td.
  - cbn [andb]. rewrite pop_uses_below by assumption. now destruct td.
Qed.

(** Spending an output and then detaching the block gives back the unspent output. *)
Lemma undone_spent h height td td' : h <= height -> undone h td td' -> m_spent td = false -> m_spent_height td = 0 -> undone h td (with_spent true height td').
Proof.
  intros Hh [E Hb] Hs H0s. split; [|assumption]. unfold detach_transfer in *. cbn [m_spent with_spent m_spent_height]. rewrite (proj2 (Z.leb_le _ _)) by assumption.
  cbn [andb]. destruct (m_spent td' && (h <=? m_spent_height td')).
  - rewrite <- E. reflexivity.
  - rewrite <- E in Hs, H0s |- *. cbn in Hs, H0s. unfold with_uses, with_spent. cbn. now rewrite Hs, H0s.
Qed.

Section Reorg.
Context (Himg : images_differ) (h : Z) (w0 : wallet2) (Hw0 : wallet_ok w0) (Hset : settled h w0).

(** Where an old output is, there it is in the old list too. *)
Lemma layered_old l k td' olds news : l = olds ++ news -> Forall2 (undone h) (m_transfers w0) olds -> l !! k = Some td' -> (k < length olds)%nat ->
  exists td, m_transfers w0 !! k = Some td /\ undone h td td'.
Proof using.
  intros -> F Hk Hlt. rewrite lookup_app_l in Hk by assumption. destruct (Forall2_lookup_r _ _ _ _ _ F Hk) as (td & Htd & Hu). eauto.
Qed.

Lemma undone_pub td td' : undone h td td' -> get_public_key td' = get_public_key td /\ m_output_key_image td' = m_output_key_image td.
Proof using H H0. intros [<- _]. destruct (detach_transfer_keys h td') as (E1 & E2 & _). now rewrite E1, E2. Qed.

Lemma layered_received height pk u u' : h <= height -> m_pub_keys w0 !! pk = None -> wallet_ok u -> layered h (m_transfers w0) (m_transfers u) ->
  received_change height pk u u' -> layered h (m_transfers w0) (m_transfers u').
Proof using Hw0.
  intros Hh Hpk Hu (olds & news & E & F & Hn) [->|[(td & -> & Hb)|(k & td & Hk & -> & Hb)]].
  - exists olds, news. auto.
  - exists olds, (news ++ [td]). rewrite E, app_assoc. split_and!; auto. apply Forall_app. split; [assumption|]. repeat constructor. lia.
  - apply (to_pub _ _ _ Hu) in Hk as (td0 & Hk & Epk). destruct (decide (k < length olds)%nat) as [Hlt|Hge].
    + exfalso. destruct (layered_old _ k td0 olds news E F Hk Hlt) as (tdo & Hko & Hun). destruct (undone_pub _ _ Hun) as [Ek _].
      assert (m_pub_keys w0 !! pk = Some k) as Hs by (apply (to_pub _ _ _ Hw0); exists tdo; split; [assumption|congruence]). congruence.
    + exists olds, (<[(k - length olds)%nat := td]> news). split_and!; auto; [rewrite E; now apply insert_app_r_alt; lia|].
      apply Forall_insert; [assumption|lia].
Qed.

Lemma layered_spent height pks kis x k td l : h <= height -> in_amount x = 0 ->
  (forall k td, m_output_key_images w0 !! output_key_image x = Some k -> m_transfers w0 !! k = Some td -> m_spent td = false) ->
  kis !! output_key_image x = Some k -> l !! k = Some td -> tables_ok l pks kis -> layered h (m_transfers w0) l ->
  layered h (m_transfers w0) (<[k := spent_by height false x td]> l).
Proof using Hw0.
  intros Hh Ha Hsp Hk Htd Ht (olds & news & E & F & Hn). unfold spent_by. rewrite Ha. cbn [Z.ltb andb Z.compare].
  destruct (decide (k < length olds)%nat) as [Hlt|Hge].
  - destruct (layered_old _ k td olds news E F Htd Hlt) as (tdo & Hko & Hun). destruct (undone_pub _ _ Hun) as [_ Ek].
    apply (to_img _ _ _ Ht) in Hk as (td1 & Hk1 & Eki). rewrite Htd in Hk1. injection Hk1 as <-.
    assert (Hold : m_output_key_images w0 !! output_key_image x = Some k) by (apply (to_img _ _ _ Hw0); exists tdo; split; [assumption|congruence]).
    pose proof (Hsp k tdo Hold Hko) as Hs. destruct (to_owned _ _ _ Hw0 k tdo Hko) as (_ & _ & _ & H0s). specialize (H0s Hs).
    exists (<[k := with_spent true height td]> olds), news. split_and!; auto; [rewrite E; now apply insert_app_l|].
    rewrite <- (list_insert_id _ _ _ Hko). apply Forall2_insert; [assumption|]. now apply undone_spent.
  - exists olds, (<[(k - length olds)%nat := with_spent true height td]> news). split_and!; auto; [rewrite E; apply insert_app_r_alt; lia|].
    rewrite E, lookup_app_r in Htd by lia. apply Forall_insert; [assumption|]. exact (Forall_lookup_1 _ _ _ _ Hn Htd).
Qed.

(** What blocks at [h] and above have left of the wallet [w0]. *)
Record grown (w : wallet2) : Prop := {
  g_ok : wallet_ok w;
  g_transfers : layered h (m_transfers w0) (m_transfers w);
  g_payments : filter (fun p => p_block_height p < h) (m_payments w) = m_payments w0;
  g_confirmed : filter (fun x => c_block_height x.2 < h) (m_confirmed_txs w) = m_confirmed_txs w0;
  g_offset : m_offset (m_blockchain w) = m_offset (m_blockchain w0);
  g_genesis : m_genesis (m_blockchain w) = m_genesis (m_blockchain w0);
  g_blocks : exists l, hc_blocks (m_blockchain w) = hc_blocks (m_blockchain w0) ++ l }.

Lemma grown_refl : grown w0.
Proof using Hw0 Hset.
  split; [assumption| | | |reflexivity..|exists []; now rewrite app_nil_r].
  - exists (m_transfers w0), []. rewrite app_nil_r. split_and!; [reflexivity| |constructor]. apply Forall_Forall2_diag.
    eapply Forall_impl; [exact (se_transfers _ _ Hset)|]. intros td (H1' & H2' & H3'). now apply undone_same.
  - apply filter_Forall. exact (se_payments _ _ Hset).
  - apply map_filter_id. intros i x Hx. exact (se_confirmed _ _ Hset i x Hx).
Qed.

Lemma grown_tx txid tx ixs height ts miner w w' : h <= height -> clean_tx tx miner -> fresh_tx w0 txid tx -> grown w ->
  process_new_transaction cfg txid tx ixs height ts miner false false w = Returns w' -> grown w'.
Proof using Himg Hw0.
  intros Hh Hc Hf Hg E. apply (process_tx_effect Himg txid tx ixs height ts miner false (layered h (m_transfers w0))) in E as (Hok & Hl & Hb).
  - destruct Hb as [Bc By Bo Bw]. split; auto; try (rewrite Bc; apply Hg).
    + destruct (By eq_refl) as (ps & -> & Hps). rewrite filter_app, (g_payments _ Hg), (filter_Forall_not _ ps); [apply app_nil_r|].
      eapply Forall_impl; [exact Hps|]. cbn. lia.
    + rewrite <- (g_confirmed _ Hg). apply map_eq. intros id. apply option_eq. intros c. rewrite !map_lookup_filter_Some.
      destruct (decide (id = txid)) as [->|Hne]; [|now rewrite Bo]. destruct Bw as [->|(c' & -> & Hch)]; [reflexivity|]. cbn. split; [intros [[= <-] Hlt]; lia|].
      intros [Hid Hlt]. assert (m_confirmed_txs w0 !! txid = Some c) as Hn by (rewrite <- (g_confirmed _ Hg); now apply map_lookup_filter_Some).
      now rewrite (fr_id _ _ _ Hf) in Hn.
  - apply Hc.
  - apply Hg.
  - apply Hg.
  - intros u u' o out pk Hu Hl Ho Ht Hrc. eapply layered_received; try eassumption. eapply fr_keys; eassumption.
  - intros l pks kis x k td Hx Hk Htd Ht Hl. eapply layered_spent; try eassumption; [eapply fr_amounts; eassumption|]. intros k' td'. eapply fr_spends; eassumption.
Qed.

Definition fresh_block (pb : parsed_block) : Prop := forall txid tx miner, tx_of_block pb txid tx miner -> clean_tx tx miner /\ fresh_tx w0 txid tx.

Context (Hsome : hc_blocks (m_blockchain w0) <> []).

Lemma grown_entry n pb height w w' : h <= height -> fresh_block pb -> grown w -> process_new_blockchain_entry cfg n pb height w = Returns w' ->
  grown w' /\ hc_size (m_blockchain w') = S (hc_size (m_blockchain w)).
Proof using All.
  intros Hh Hf Hg E. unfold process_new_blockchain_entry in E. invert_result E. apply result_bind_inv in E as (w1 & E1 & E). injection E as <-.
  set (P := fun u => grown u /\ m_blockchain u = m_blockchain w).
  assert (HP : P w1).
  { destruct (should_skip_block _ _ _); [now injection E1 as <-|]. eapply (block_contents_keep P); [|split; [exact Hg|reflexivity]|exact E1].
    intros txid tx ixs miner u u' Htx [Hu Eu] Ep. destruct (Hf txid tx miner Htx) as [Hcl Hfr]. split; [eapply grown_tx; eassumption|].
    destruct (process_tx_effect Himg txid tx ixs height (timestamp (header (pb_block pb))) miner false (fun _ => True) false u u' (Hcl _) (g_ok _ Hu) I) as (_ & _ & Hb); auto.
    now rewrite (bk_chain _ _ _ _ _ Hb). }
  destruct HP as [Hg1 Ec]. destruct (g_blocks _ Hg1) as [l El]. split.
  - split; try apply Hg1.
    + cbn. rewrite El. destruct (hc_blocks (m_blockchain w0)) as [|b bs] eqn:Eb; [contradiction|]. cbn. rewrite andb_false_r. apply Hg1.
    + exists (l ++ [pb_hash pb]). cbn. now rewrite El, app_assoc.
  - cbn. unfold hc_size. cbn. rewrite length_app, Ec. cbn. lia.
Qed.

Lemma grown_blocks start blocks : forall added w w' k, Forall (fun x => fresh_block x.2) blocks -> grown w -> h <= Z.of_nat (hc_size (m_blockchain w)) ->
  process_blocks_loop cfg start (hc_size (m_blockchain w)) blocks added w = Returns (w', k) -> grown w'.
Proof using All.
  induction blocks as [|[n pb] blocks IH]; intros added w w' k Hf Hg Hh E; cbn [process_blocks_loop] in E; [now injection E as <- _|].
  apply Forall_cons in Hf as [Hpb Hf]. rewrite (proj2 (Nat.leb_le _ _)) in E by reflexivity. apply result_bind_inv in E as (w1 & E1 & E).
  apply grown_entry in E1 as [Hg1 Es]; auto. rewrite <- Es in E. eapply IH; [exact Hf|exact Hg1| |exact E]. lia.
Qed.

Lemma detach_start_layered l olds news : l = olds ++ news -> Forall2 (undone h) (m_transfers w0) olds -> Forall (fun td => h <= m_block_height td) news ->
  take (detach_start h l) (detach_transfer h <$> l) = m_transfers w0.
Proof using.
  intros -> F Hn. assert (Hh : forall td, m_block_height (detach_transfer h td) = m_block_height td) by (intros td; unfold detach_transfer; now destruct (_ && _)).
  assert (Es : detach_start h (olds ++ news) = length olds).
  { unfold detach_start. rewrite fmap_app. destruct news as [|td news].
    - replace (list_find _ _) with (@None (nat * transfer_details)); [now rewrite app_nil_r, length_fmap|]. symmetry. apply list_find_None. rewrite app_nil_r.
      apply Forall_fmap. clear -F Hh. induction F as [|? td' ? ? [_ Hb] F' IH]; [apply Forall_nil_2|]. apply Forall_cons_2; [|exact IH].
      change (~ h <= m_block_height (detach_transfer h td')). rewrite Hh. lia.
    - rewrite (proj2 (list_find_Some _ _ (length olds) (detach_transfer h td))); [reflexivity|]. rewrite fmap_cons. split_and!.
      + rewrite lookup_app_r by (rewrite length_fmap; lia). now rewrite length_fmap, Nat.sub_diag.
      + apply Forall_cons in Hn as [Hb _]. now rewrite Hh.
      + intros j y Hj Hlt. rewrite lookup_app_l in Hj by (now rewrite length_fmap). rewrite list_lookup_fmap in Hj.
        destruct (olds !! j) as [td'|] eqn:Ej; [|discriminate]. injection Hj as <-. rewrite Hh. destruct (Forall2_lookup_r _ _ _ _ _ F Ej) as (? & _ & _ & Hb). lia. }
  rewrite Es, fmap_app, take_app_le by (rewrite length_fmap; lia). rewrite take_ge by (rewrite length_fmap; lia).
  clear -F. induction F as [|td td' ? ? [E _] _ IH]; [reflexivity|]. rewrite fmap_cons, E. now f_equal.
Qed.

End Reorg.

(** C7: A reorganisation leaves no trace.  Let the wallet have scanned its chain, and let it then process any further blocks
    whose transactions pay none of the output keys it knows, spend only outputs it has as unspent, and are not in its list of
    confirmed ones.  The outputs that are ours can be decoded, different outputs have different
    images, and the inputs have hidden amounts.  If these blocks are detached, the received outputs with their spending states, the tables of keys and
    images, the payments, the confirmed transactions and the hash chain are those of before. *)
Theorem reorganisation_undone w0 start blocks w1 added : images_differ -> wallet_ok w0 -> hc_blocks (m_blockchain w0) <> [] ->
  let h := hc_size (m_blockchain w0) in
  settled (Z.of_nat h) w0 -> Forall (fun x => fresh_block w0 x.2) blocks -> process_blocks_loop cfg start h blocks 0 w0 = Returns (w1, added) ->
  exists w2, detach_blockchain (Z.of_nat h) w1 = Returns w2 /\ m_transfers w2 = m_transfers w0 /\ m_pub_keys w2 = m_pub_keys w0 /\
    m_output_key_images w2 = m_output_key_images w0 /\ m_payments w2 = m_payments w0 /\ m_confirmed_txs w2 = m_confirmed_txs w0 /\
    m_blockchain w2 = m_blockchain w0.
Proof.
  intros Hi Hw Hs h Hset Hf E. pose proof (grown_blocks Hi (Z.of_nat h) w0 Hw Hset Hs start blocks 0 w0 w1 added Hf (grown_refl _ w0 Hw Hset) ltac:(lia) E) as [Gok Gt Gp Gc Go Gg [l Gb]].
  destruct (detach_effect (Z.of_nat h) w1 Gok) as (w2 & Ed & Hok2 & Et & Ep & Ec & Eo & Eg & Eb); [rewrite Go; unfold h, hc_size; lia|].
  destruct Gt as (olds & news & El & F & Hn). rewrite (detach_start_layered _ w0 _ olds news El F Hn) in Et. exists w2. split; [exact Ed|].
  destruct (tables_unique (m_transfers w0) (m_pub_keys w0) (m_output_key_images w0) (m_pub_keys w2) (m_output_key_images w2) Hw) as [Epk Eki].
  { unfold wallet_ok in Hok2. now rewrite Et in Hok2. }
  split_and!; [assumption..|now rewrite Ep|now rewrite Ec|]. destruct (m_blockchain w2) as [o g b], (m_blockchain w0) as [o0 g0 b0] eqn:E0. cbn in *. subst o g. f_equal; [congruence|congruence|].
  rewrite Eb, Go, Gb. unfold h, hc_size. rewrite Nat2Z.id. cbn. replace (length b0 + o0 - o0)%nat with (length b0) by lia.
  rewrite resize_le by (rewrite length_app; lia). now rewrite take_app_length.
Qed.

End Inv.

(** ** Transactions that can be decoded *)

(** The amounts of a miner's transaction are in the open. *)
Lemma coinbase_clean `{Sha3} `{Sodium} cfg tx : Forall (fun o => amount o <> 0) (vout (prefix tx)) -> clean_tx cfg tx true.
Proof.
  intros Ha subs i o s outs info Ho Hs E. rewrite Forall_lookup in Ha. specialize (Ha i o Ho). unfold scan_output in E. rewrite Ho in E. destruct o as [a [k]].
  unfold scan_output_for_subaddresses in E. cbn [target si_received] in E. destruct (check_output_for_subaddresses _ _ _ _) as [recv|]; [|discriminate].
  destruct (derive_output_key_pair_and_key_image _ _ _ _ _) as [[kp ki]|]; [|discriminate]. invert_result E. rewrite andb_false_r in E.
  cbn [si_money_transfered with_keys amount] in E. cbn in Ha. rewrite (proj2 (Z.eqb_neq _ _) Ha) in E. injection E as <-. reflexivity.
Qed.

Lemma no_outputs_clean `{Sha3} `{Sodium} cfg tx miner : vout (prefix tx) = [] -> clean_tx cfg tx miner.
Proof. intros E subs i o s outs info Ho. rewrite E in Ho. discriminate. Qed.

(** ** A wallet *)

Section Examples.
Import ModelGroup UnitDigest TxBuild.
#[local] Instance inv_no_shift : UndefinedShift := fun _ => 0.
#[local] Instance inv_no_cache : CachedSize := fun _ => 0.

Lemma model_images_differ : images_differ.
Proof.
  assert (Hm : forall s X, mult s X = encode (s * decoded X)).
  { intros s X. unfold mult. destruct (Z.eqb_spec s s_0) as [->|]; reflexivity. }
  intros x y E. unfold derive_key_image in E. rewrite !Hm in E. change (encode x = encode y).
  change (hash_to_point_via_field (to_pk ?z)) with (viaFieldMult8 (h2d (le_bytes 32 1))) in E. set (K := decoded _) in E.
  assert (Hk : 0 < K < L) by (vm_compute; split; reflexivity). clearbody K.
  apply (f_equal decode) in E. rewrite !decode_encode in E. injection E as E. unfold encode. replace (y mod L) with (x mod L); [reflexivity|].
  destruct (inverse_correct K Hk) as [_ Hi]. set (j := inverse K) in Hi. clearbody j. unfold eqL in Hi.
  assert (Hxy : (x * K * j) mod L = (y * K * j) mod L) by (rewrite <- Zmult_mod_idemp_l, E; now rewrite Zmult_mod_idemp_l).
  rewrite <- !Z.mul_assoc in Hxy. rewrite <- (Zmult_mod_idemp_r (K * j) x), <- (Zmult_mod_idemp_r (K * j) y), Hi in Hxy.
  rewrite !Zmult_mod_idemp_r, !Z.mul_1_r in Hxy. exact Hxy.
Qed.

Definition example_settings : settings :=
  {| account := payer; createtime := 0; m_subaddress_lookahead_major := 2; m_subaddress_lookahead_minor := 3; m_refresh_from_block_height := 0; m_store_tx_info := true |}.

Definition second_address : spend_view_public_keys := get_subaddress payer example_index.

Definition example_wallet : wallet2 :=
  {| m_blockchain := {| m_offset := 0; m_genesis := null_hash; hc_blocks := replicate 3 null_hash |}; m_transfers := [owned_transfer];
     m_pub_keys := {[ to_pk owned_key := 0%nat ]}; m_output_key_images := {[ derive_key_image owned_key := 0%nat ]}; m_subaddresses := <[m_spend_public_key second_address := example_index]> payer_table;
     m_subaddress_labels := [[""%string]]; m_unconfirmed_txs := ∅; m_confirmed_txs := ∅; m_payments := []; m_unconfirmed_payments := []; m_output_secret_keys := ∅ |}.

(** A coinbase transaction for the wallet, and a transaction that spends its output. *)
Definition reward_tx : transaction :=
  match construct_miner_tx no_rct 5 3 2000 100 second_address 0 with Some tx => tx | None => {| prefix := m_tx owned_transfer; ringct := no_rct |} end.
Definition spending_tx : transaction :=
  {| prefix := {| version := 2; unlock_height := 0; vin := [txin_from_key {| in_amount := 0; output_relative_offsets := [3]; output_key_image := derive_key_image owned_key |}];
                  vout := []; extra := [] |}; ringct := no_rct |}.
Definition example_block : parsed_block :=
  {| pb_hash := replicate 32 1;
     pb_block := {| header := {| major_version := 1; minor_version := 1; timestamp := 100; prev_id := null_hash; nonce := 0 |}; miner_tx := reward_tx;
                    tx_hashes := [replicate 32 2] |};
     pb_txes := [spending_tx]; pb_o_indices := [[40]; []] |}.

Definition after_block : result (wallet2 * nat) := process_blocks_loop example_settings 2 3 [(1%nat, example_block)] 0 example_wallet.

(** The reward is received and the output is spent; then nothing of it remains. *)
Example block_scanned :
  match after_block with
  | Returns (w, _) => ((fun td => (m_amount td, m_spent td, m_spent_height td)) <$> m_transfers w, hc_size (m_blockchain w), balance 0 true w)
  | Throws => ([], 0%nat, 0)
  end = ([(10, true, 3); (match vout (prefix reward_tx) with [o] => amount o | _ => 0 end, false, 0)], 4%nat, match vout (prefix reward_tx) with [o] => amount o | _ => 0 end).
Proof. vm_compute. reflexivity. Qed.

Lemma reward_clean : clean_tx example_settings reward_tx true.
Proof. apply coinbase_clean. vm_compute. repeat constructor. discriminate. Qed.

Definition first_wallet : wallet2 := create_one_off_subaddress example_settings example_index (clear example_wallet).
Definition scanned : result wallet2 := process_new_transaction example_settings (replicate 32 3) reward_tx [40] 3 100 true false false first_wallet.

Lemma wallet_tables_consistent_witness :
  match scanned with Returns w => rtc (wallet_step example_settings) (clear example_wallet) w /\ wallet_ok w /\ length (m_transfers w) = 1%nat | Throws => False end.
Proof.
  assert (Hl : match scanned with Returns w => length (m_transfers w) = 1%nat | Throws => False end) by (vm_compute; reflexivity).
  destruct scanned as [w|] eqn:E; [|destruct Hl].
  assert (Hr : rtc (wallet_step example_settings) (clear example_wallet) w).
  { eapply rtc_l; [apply (step_one_off example_settings example_index)|]. apply rtc_once. eapply step_transaction; [exact reward_clean|exact E]. }
  split; [exact Hr|]. split; [|exact Hl]. exact (proj1 (wallet_tables_consistent example_settings example_wallet w model_images_differ Hr)).
Defined.

Lemma example_wallet_ok : wallet_ok example_wallet.
Proof.
  assert (Ho : owned owned_transfer) by (split_and!; [exists owned_key; split; reflexivity|reflexivity..]).
  split; cbn [example_wallet m_transfers m_pub_keys m_output_key_images].
  - intros pk k. rewrite lookup_singleton_Some. split; [intros [<- <-]; now exists owned_transfer|].
    intros (td & Hk & E). destruct k as [|k]; [|discriminate]. injection Hk as <-. injection E as <-. auto.
  - intros ki k. rewrite lookup_singleton_Some. split; [intros [<- <-]; now exists owned_transfer|].
    intros (td & Hk & E). destruct k as [|k]; [|discriminate]. injection Hk as <-. rewrite <- E. auto.
  - intros [|k] td E; [|discriminate]. now injection E as <-.
Qed.

Lemma example_block_fresh : fresh_block example_settings example_wallet example_block.
Proof.
  intros txid tx miner [(-> & -> & _)|(-> & Ht & _)].
  - split; [exact reward_clean|]. split; [|intros x k td Hx|intros x Hx|reflexivity].
    + intros o out pk Ho Et. assert (Hn : forallb (fun o => match target o with txout_to_key pk => bool_decide (m_pub_keys example_wallet !! pk = None) end) (vout (prefix reward_tx)) = true) by (vm_compute; reflexivity).
      rewrite forallb_forall in Hn. specialize (Hn out (proj1 (list_elem_of_In _ _) (list_elem_of_lookup_2 _ _ _ Ho))). rewrite Et in Hn. exact (bool_decide_unpack _ (Is_true_true_2 _ Hn)).
    + exfalso. revert Hx. vm_compute. intros Hx. inversion Hx as [|? ? ? Hx']; subst. inversion Hx'.
    + exfalso. revert Hx. vm_compute. intros Hx. inversion Hx as [|? ? ? Hx']; subst. inversion Hx'.
  - apply list_elem_of_singleton in Ht as ->. split; [now apply no_outputs_clean|]. split; [intros o out pk Ho; discriminate| | |reflexivity].
    + intros x k td _ _ Hk. destruct k as [|k]; [|discriminate]. now injection Hk as <-.
    + intros x Hx. apply list_elem_of_singleton in Hx. now injection Hx as ->.
Qed.

Lemma reorganisation_undone_witness :
  match after_block with
  | Returns (w1, _) => exists w2, detach_blockchain 3 w1 = Returns w2 /\ m_transfers w2 = m_transfers example_wallet /\ m_blockchain w2 = m_blockchain example_wallet
  | Throws => False
  end.
Proof.
  assert (Hl : match after_block with Returns _ => True | Throws => False end) by (vm_compute; exact I).
  destruct after_block as [[w1 added]|] eqn:E; [|destruct Hl].
  destruct (reorganisation_undone example_settings example_wallet 2 [(1%nat, example_block)] w1 added model_images_differ example_wallet_ok) as (w2 & Ed & Et & _ & _ & _ & _ & Ec).
  - discriminate.
  - split; [repeat constructor; cbn; try lia; discriminate|constructor|apply map_Forall_empty].
  - constructor; [exact example_block_fresh|constructor].
  - exact E.
  - exists w2. auto.
Defined.

(** ** An output that cannot be decoded *)

(** The two outputs of a payment, to the wallet's two addresses. *)
Definition payment_to_us (a b : Z) : result construction :=
  construct_tx_with_tx_key no_rct 1 example_draws payer payer_table [sp_src one_spend]
    [ {| dst_amount := a; dst_addr := payer_address; dst_is_subaddress := false |}; {| dst_amount := b; dst_addr := second_address; dst_is_subaddress := true |} ] [] 0 payment_keys.
Definition scan_payment (tx : transaction) : result (list Z) :=
  w ← process_new_transaction example_settings (replicate 32 3) tx [40; 41] 3 100 false false false (create_one_off_subaddress example_settings main_index first_wallet);
  Returns (m_amount <$> m_transfers w).

(** A payment of zero before another one: the information on the second output is read past the end of the vector, which is
    undefined behaviour. With two proper amounts both outputs are received. *)
Theorem zero_payment_breaks_the_scan :
  match payment_to_us 0 9 with Returns (Built tx _) => scan_payment tx = Throws | _ => False end /\
  match payment_to_us 4 5 with Returns (Built tx _) => scan_payment tx = Returns [4; 5] | _ => False end.
Proof. split; [vm_cast_no_check (eq_refl (@Throws (list Z)))|vm_cast_no_check (eq_refl (Returns [4; 5]))]. Qed.

End Examples.

End WalletInv.
