(* ===== verification/WalletReceive.v ===== *)
(** A payment arrives: what one wallet constructs, the wallet of the receiver finds in the block, with the amount, the mask
    and the key image with which it can be spent. *)

From stdpp Require Import gmap sorting.
From S2P Require Import Prelude Hash Config Difficulty Varint Serialization Primality Group ModelGroup Key RctOps VectorOps InnerProduct Bulletproof BulletproofComplete Clsag RctTypes TxTypes Consensus Coinbase FormatUtils TxExtra RingCT TxUtils BlockQueue PoolTable TxPool TxPoolInv BlockTemplate ChainDb ChainDbInv LmdbTxn TxCheck Blockchain Core TxBuild WalletLogic Wallet WalletInv.

Module WalletReceive.
Import PoolTable.PoolTable Config Key RctOps VectorOps Bulletproof Clsag RctTypes TxTypes Consensus Coinbase FormatUtils TxExtra RingCT TxUtils ChainDb TxBuild WalletLogic Wallet WalletInv.

(** ** The tables of subaddresses grow without an exception *)

Lemma clamped_sum_ge idx extra : 0 <= idx < 2 ^ 32 -> 0 <= extra -> idx <= get_subaddress_clamped_sum idx extra.
Proof. intros Hi He. unfold get_subaddress_clamped_sum. destruct (Z.ltb_spec (2 ^ 32 - 1 - extra) idx); lia. Qed.

Section Expand.
Context `{Sha3} `{Sodium} (cfg : settings) (Hla : 0 <= m_subaddress_lookahead_minor cfg).

Lemma add_range_total m b e subs : b <= e -> exists subs', add_range cfg m b e subs = Returns subs'.
Proof using. intros Hbe. unfold add_range, get_subaddress_spend_public_keys. rewrite (proj2 (Z.leb_le _ _)) by assumption. cbn. eauto. Qed.

Lemma add_accounts_total majors index : 0 <= minor index < 2 ^ 32 -> forall subs, exists subs', add_accounts cfg majors index subs = Returns subs'.
Proof using Hla.
  intros Hi. induction majors as [|m majors IH]; intros subs; cbn [add_accounts]; [eauto|].
  set (e := get_subaddress_clamped_sum _ _). assert (0 <= e) as He.
  { unfold e. destruct (m =? major index); [etransitivity; [|apply clamped_sum_ge]; lia|apply clamped_sum_ge; lia]. }
  destruct (add_range_total m 0 e subs He) as [subs' ->]. cbn. apply IH.
Qed.

Lemma expand_total index w : 0 <= minor index < 2 ^ 32 -> exists subs labels, expand_if_needed cfg index w = Returns (with_subaddresses subs labels w).
Proof using Hla.
  intros Hi. assert (Hsame : w = with_subaddresses (m_subaddresses w) (m_subaddress_labels w) w) by now destruct w.
  unfold expand_if_needed. destruct (should_expand _ _ _); [|exists (m_subaddresses w), (m_subaddress_labels w); now f_equal]. unfold expand_subaddresses. destruct (_ !! _) as [l|].
  - destruct (Z.leb_spec (Z.of_nat (length l)) (minor index)) as [Hl|Hl]; [|exists (m_subaddresses w), (m_subaddress_labels w); now f_equal].
    destruct (add_range_total (major index) (wrap 32 (Z.of_nat (length l))) (get_subaddress_clamped_sum (minor index) (m_subaddress_lookahead_minor cfg)) (m_subaddresses w)) as [subs' ->].
    { rewrite wrap_small by (unfold fits; lia). pose proof (clamped_sum_ge (minor index) (m_subaddress_lookahead_minor cfg) Hi Hla). lia. }
    cbn. eauto.
  - cbv zeta. edestruct add_accounts_total as [subs' E]; [exact Hi|]. rewrite E. cbn. eauto.
Qed.

End Expand.

(** ** One output is received *)

Section Single.
Context `{Sha3} `{Sodium} `{UndefinedShift} `{CachedSize} (cfg : settings) (Hla : 0 <= m_subaddress_lookahead_minor cfg).
Context (txid : hash) (tx : transaction) (ixs : list Z) (height ts : Z) (w : wallet2).
Context (k : nat) (out : tx_out) (s : ecdh_shared_secret) (recv : subaddress_receive_info) (info : tx_scan_info_t) (a : Z) (g : Z).
Abbreviation check_of o s i := (scan_output_for_subaddresses o s i (m_subaddresses w)).

(** The [k]-th output is the only one of ours. *)
Record single_payment : Prop := {
  sp_out : vout (prefix tx) !! k = Some out;
  sp_secrets : length (shared_secrets cfg tx) = length (vout (prefix tx));
  sp_secret : shared_secrets cfg tx !! k = Some s;
  sp_received : si_received (check_of out s k) = Some recv;
  sp_scan : scan_output tx false k (check_of out s k) [] (account cfg) = Returns info;
  sp_info : si_error info = false /\ si_received info = Some recv /\ si_money_transfered info = a /\ si_amount info = a;
  sp_others j o s : j <> k -> vout (prefix tx) !! j = Some o -> shared_secrets cfg tx !! j = Some s -> si_received (check_of o s j) = None;
  sp_amount : 0 < a < 2 ^ 64 - 1;
  sp_hidden : amount out = 0;
  sp_index : 0 <= minor (ri_index recv) < 2 ^ 32;
  sp_indices : length ixs = length (vout (prefix tx));
  sp_global : ixs !! k = Some g;
  sp_lock : fits 64 height /\ fits 64 (unlock_height (prefix tx)) /\ unlock_height (prefix tx) <= height + tx_locked_one_year_away_in_blocks;
  sp_new : m_pub_keys w !! pub (si_output_key_pair info) = None;
  sp_unsent : m_unconfirmed_txs w !! txid = None;
  sp_not_ours x : txin_from_key x ∈ vin (prefix tx) -> m_output_key_images w !! output_key_image x = None /\ output_key_image x <> si_ki info }.

Context (Hp : single_payment).

Lemma check_no_error o s' i : si_error (check_of o s' i) = false.
Proof using. unfold scan_output_for_subaddresses. destruct (target o). reflexivity. Qed.

(** The scan, before and after the output. *)
Definition scan_state (i : nat) (r : received_t) : Prop :=
  length (tx_scan_info r) = i /\
  if decide (k < i)%nat then r_outs r = [k] /\ tx_money_got_in_outs r = {[ ri_index recv := a ]} /\ tx_amounts_individual_outs r = {[ ri_index recv := [a] ]} /\
    tx_scan_info r !! k = Some info
  else r_outs r = [] /\ tx_money_got_in_outs r = ∅ /\ tx_amounts_individual_outs r = ∅.

Lemma scan_single outs : forall i r, drop i (vout (prefix tx)) = outs -> scan_state i r ->
  exists r', scan_outputs cfg tx false (m_subaddresses w) (shared_secrets cfg tx) i outs r = Returns r' /\ scan_state (i + length outs) r'.
Proof using Hp.
  induction outs as [|o outs IH]; intros i r Hd Hr; cbn [scan_outputs length]; [exists r; now rewrite Nat.add_0_r|].
  apply lookup_drop_cons in Hd as [Ho Hd]. destruct (lookup_lt_is_Some_2 (shared_secrets cfg tx) i) as [s' Hs'].
  { rewrite (sp_secrets Hp). now apply lookup_lt_Some in Ho. }
  rewrite Hs'. enough (exists r1, scan_step cfg tx false (m_subaddresses w) i o (Some s') r = Returns r1 /\ scan_state (S i) r1) as (r1 & -> & Hr1).
  { cbn [mbind result_bind]. destruct (IH (S i) r1 Hd Hr1) as (r' & -> & Hr'). exists r'. split; [reflexivity|]. now replace (i + S (length outs))%nat with (S i + length outs)%nat by lia. }
  clear IH. unfold scan_step. rewrite check_no_error. cbn [throw_if throw_unless negb mbind result_bind]. destruct Hr as [Hl Hr]. destruct (decide (i = k)) as [->|Hne].
  - rewrite (sp_out Hp) in Ho. injection Ho as <-. rewrite (sp_secret Hp) in Hs'. injection Hs' as <-. rewrite (sp_received Hp).
    rewrite decide_False in Hr by lia. destruct Hr as (-> & -> & ->). rewrite (sp_scan Hp). cbn [mbind result_bind]. destruct (sp_info Hp) as (-> & _ & -> & _).
    rewrite !lookup_empty. cbn [default]. pose proof (sp_amount Hp) as Ha. rewrite u64_sub_small by (unfold fits, u64_max; lia).
    rewrite (proj2 (Z.leb_gt _ _)) by (unfold u64_max; lia). cbn [negb throw_if throw_unless mbind result_bind]. eexists. split; [reflexivity|].
    split; cbn; [rewrite length_app, Hl; cbn; lia|]. rewrite decide_True by lia. rewrite u64_add_small by (unfold fits; lia). split_and!; try reflexivity.
    rewrite lookup_app_r, Hl, Nat.sub_diag by lia. reflexivity.
  - rewrite (sp_others Hp i o s' Hne Ho Hs'). eexists. split; [reflexivity|]. split; cbn; [rewrite length_app, Hl; cbn; lia|].
    destruct (decide (k < i)%nat); [rewrite decide_True by lia|rewrite decide_False by lia; exact Hr]. destruct Hr as (-> & -> & -> & Hi). split_and!; auto.
    now apply lookup_app_l_Some.
Qed.

Definition received_transfer : transfer_details := new_transfer txid tx height false k out g (ri_index recv) a info.

Definition received_payment : payment_details :=
  {| p_tx_hash := txid; p_amount := a; p_amounts := [a]; p_fee := fee (basic (ringct tx)); p_block_height := height; p_unlock_height := unlock_height (prefix tx);
     p_timestamp := ts; p_coinbase := false; p_subaddr_index := ri_index recv |}.

Lemma spend_nothing kis ins : (forall x, txin_from_key x ∈ ins -> kis !! output_key_image x = None) -> forall st, spend_inputs height false kis ins st = Returns st.
Proof using.
  induction ins as [|i ins IH]; intros Hn st; [reflexivity|]. cbn [spend_inputs]. unfold spend_step.
  assert (Hrest : forall x, txin_from_key x ∈ ins -> kis !! output_key_image x = None) by (intros x Hx; apply Hn; now constructor).
  destruct i as [h|x]; [now apply IH|]. rewrite (Hn x) by constructor. now apply IH.
Qed.

Lemma sum_got_none (q : subaddress_index -> bool) got : (forall i, q i = false) -> sum_got q got = 0.
Proof using. intros Hq. unfold sum_got. induction (map_to_list got) as [|x l IH]; [reflexivity|]. cbn. rewrite Hq. exact IH. Qed.

(** The output is added to the wallet and the payment is recorded. *)
Lemma single_processed seen : exists w', process_new_transaction cfg txid tx ixs height ts false false seen w = Returns w' /\
  m_transfers w' = m_transfers w ++ [received_transfer] /\ m_payments w' = m_payments w ++ [received_payment] /\
  m_pub_keys w' = <[pub (si_output_key_pair info) := length (m_transfers w)]> (m_pub_keys w) /\
  m_output_key_images w' = <[si_ki info := length (m_transfers w)]> (m_output_key_images w).
Proof using Hla Hp.
  destruct (scan_single (vout (prefix tx)) 0 nothing_received) as (r & Er & Hl & Hr); [reflexivity|split; [reflexivity|]; now rewrite decide_False by lia|].
  pose proof (lookup_lt_Some _ _ _ (sp_out Hp)) as Hk. cbn [Nat.add] in Hr. rewrite decide_True in Hr by assumption. destruct Hr as (Eo & Eg & Ei & Einfo).
  destruct (sp_info Hp) as (_ & Erecv & Emoney & Eamount). pose proof (sp_amount Hp) as Ha.
  unfold process_new_transaction. cbn [negb andb]. unfold process_unconfirmed. rewrite (sp_unsent Hp). unfold receive_tx.
  rewrite (proj2 (Nat.ltb_lt 0 _)) by lia. destruct (sp_lock Hp) as (Hh & Hu & Hlock).
  replace ((height <=? unlock_height (prefix tx)) && _) with false.
  2: { symmetry. apply andb_false_iff. destruct (Z.leb_spec height (unlock_height (prefix tx))); [right|now left].
       unfold fits in *. rewrite u64_sub_small by (unfold fits; lia). apply Z.ltb_ge. lia. }
  cbn [andb negb]. rewrite Er. cbn [mbind result_bind]. rewrite Eo, Eg, Ei. cbn [length Nat.ltb Nat.leb orb]. rewrite (sp_indices Hp), Nat.eqb_refl.
  cbn [throw_unless mbind result_bind receive_outputs]. unfold receive_step. cbn [v_wallet v_got v_individual v_total].
  rewrite (sp_out Hp), Einfo, (sp_new Hp), (sp_hidden Hp), (sp_global Hp), Erecv, Eamount. cbn [Z.eqb negb].
  destruct (expand_total cfg Hla (ri_index recv) (with_transfers (m_transfers w ++ [new_transfer txid tx height false k out g (ri_index recv) a info]) (m_pub_keys w) (m_output_key_images w) w)
    (sp_index Hp)) as (subs & labels & ->).
  cbn [mbind result_bind v_wallet v_got v_individual v_total]. rewrite !map_size_singleton. cbn [Nat.eqb throw_unless mbind result_bind].
  rewrite spend_nothing. 2: { intros x Hx. destruct (sp_not_ours Hp x Hx) as [Hn Hne]. cbn. now rewrite lookup_insert_ne. }
  cbn [mbind result_bind record_outgoing s_account s_transfers]. unfold record_outgoing. cbn [s_account]. unfold record_payments. cbn [v_got v_individual v_total].
  rewrite (sum_got_none (fun i => bool_decide (None = Some (major i)))) by reflexivity.
  rewrite (map_filter_id _ {[ri_index recv := a]}) by reflexivity. rewrite map_size_singleton. cbn [Nat.eqb]. rewrite map_to_list_singleton. cbn [foldl fst snd fmap list_fmap].
  rewrite !u64_add_small by (unfold fits; lia). rewrite Z.eqb_refl. cbn [throw_unless mbind result_bind]. eexists. split; [reflexivity|].
  cbn. rewrite lookup_singleton_eq. now split_and!.
Qed.

End Single.

(** ** What the sender publishes *)

Definition published `{Sodium} (dst : tx_destination_entry) (sk : secret_key) : public_key :=
  if dst_is_subaddress dst then m_spend_public_key (dst_addr dst) ^ₚ sk else to_pk sk.

Lemma generate_outputs_each `{Sha3} `{Sodium} sks dests : forall i ks ss vs t ks' ss' vs' t',
  generate_outputs dests i sks ks ss vs t = Some (ks', ss', vs', t') ->
  exists ks1 vs1, ks' = ks ++ ks1 /\ vs' = vs ++ vs1 /\ length ks1 = length dests /\ length vs1 = length dests /\
    forall j dst, dests !! j = Some dst -> ks1 !! j = Some (published dst (nth (i + j) sks 0)) /\
      exists pk, compute_output_public_key_from_subaddress_spend_pk (shared_of dst (nth (i + j) sks 0)) (Z.of_nat (i + j)) (m_spend_public_key (dst_addr dst)) = Some pk /\
        vs1 !! j = Some {| amount := dst_amount dst; target := txout_to_key pk |}.
Proof.
  induction dests as [|dst dests IH]; intros i ks ss vs t ks' ss' vs' t' E; cbn [generate_outputs] in E.
  { injection E as <- <- <- <-. exists [], []. rewrite !app_nil_r. split_and!; try reflexivity. intros j dst Hj. discriminate. }
  unfold generate_output_key_pairs in E. cbn [sec pub] in E. fold (shared_of dst (nth i sks 0)) in E. fold (published dst (nth i sks 0)) in E.
  destruct (compute_output_public_key_from_subaddress_spend_pk _ _ _) as [pk|] eqn:Epk; [|discriminate]. cbn [mbind option_bind] in E.
  apply IH in E as (ks1 & vs1 & -> & -> & Hl1 & Hl2 & Hj). eexists (_ :: ks1), (_ :: vs1). rewrite <- !app_assoc. split_and!; [reflexivity|reflexivity|cbn; now rewrite Hl1|cbn; now rewrite Hl2|].
  intros [|j] d Hd; cbn in Hd |- *.
  - injection Hd as <-. rewrite Nat.add_0_r. eauto.
  - rewrite Nat.add_succ_r. apply (Hj j d Hd).
Qed.

Section Safe.
Context `{HL : Sha3Laws} `{SL : SodiumLaws}.

Lemma published_safe dst i sk : dest_ok dst i sk -> safe (published dst sk).
Proof using HL SL.
  intros Hd. destruct (do_owner _ _ _ Hd) as (y & Ey & Hy & _). destruct (do_key _ _ _ Hd) as [Hs Hs0]. unfold published, safe. apply is_safe_point_spec. destruct (dst_is_subaddress dst).
  - rewrite Ey, (to_pk_enc y Hy), mult_enc by (exact Hs || (right; now apply secret_nonzero)). eexists. split; [|reflexivity].
    apply eqL_mul_nonzero; apply secret_nonzero; [now split|assumption].
  - exists sk. split; [now apply secret_nonzero|]. now apply to_pk_enc.
Qed.

End Safe.

(** ** The payment *)

Section Payment.
Context `{HL : Sha3Laws} `{SL : SodiumLaws} `{UndefinedShift} `{CachedSize}.
Context (d : chain_db) (keys : spend_view_secret_keys) (subaddresses : gmap public_key subaddress_index) (init : rctData).
Context (es : list spend) (dests : list tx_destination_entry) (sks : list secret_key) (unlock : Z).
Context (Hplan : plan_ok d keys subaddresses es dests sks unlock) (attempts : nat) (dr : draws) (Hdraws : draws_ok es dests sks attempts dr).
(** The receiver, and the block with the transaction. *)
Context (cfg : settings) (w : wallet2) (txid : hash) (ixs : list Z) (height ts : Z) (k : nat) (dst : tx_destination_entry) (index : subaddress_index) (g : Z).

Abbreviation sk_of j := (nth j sks 0).
Abbreviation secret := (shared_of dst (sk_of k)).
Definition spend_key : secret_key :=
  compute_output_secret_key_from_subaddress_spend_sk secret (Z.of_nat k) (get_subaddress_spend_secret_key (account cfg) index).
Definition payment_mask : ec_scalar := get_blinding_factor_from_hashed_shared_secret (secret_of dst k (sk_of k)).

(** The [k]-th destination, and no other, is an address of the receiver's wallet, which has not seen the output yet and
    does not own what is spent. *)
Record arrives : Prop := {
  ar_dst : dests !! k = Some dst;
  ar_addr : dst_addr dst = get_subaddress (account cfg) index;
  ar_sub : dst_is_subaddress dst = negb (is_zero index);
  ar_spend : secret_ok (m_spend_secret_key (account cfg));
  ar_view : secret_ok (m_view_secret_key (account cfg));
  ar_subkey : get_subaddress_spend_secret_key (account cfg) index <> 0;
  ar_key : spend_key <> 0;
  ar_table : m_subaddresses w !! m_spend_public_key (dst_addr dst) = Some index;
  ar_index : 0 <= minor index < 2 ^ 32;
  ar_amount : 0 < dst_amount dst < 2 ^ 64 - 1;
  ar_others j dst' pk : j <> k -> dests !! j = Some dst' ->
    compute_output_public_key_from_subaddress_spend_pk (shared_of dst' (sk_of j)) (Z.of_nat j) (m_spend_public_key (dst_addr dst')) = Some pk ->
    check_output_for_subaddresses (m_subaddresses w) pk (derive_tx_output_ecdh_shared_secret (published dst' (sk_of j)) (m_view_secret_key (account cfg))) (Z.of_nat j) = None;
  ar_new : m_pub_keys w !! to_pk spend_key = None;
  ar_foreign e : e ∈ es -> m_output_key_images w !! image_of e = None /\ image_of e <> derive_key_image spend_key;
  ar_unsent : m_unconfirmed_txs w !! txid = None;
  ar_indices : length ixs = length dests /\ ixs !! k = Some g;
  ar_lock : fits 64 height /\ unlock <= height + tx_locked_one_year_away_in_blocks;
  ar_lookahead : 0 <= m_subaddress_lookahead_minor cfg }.

Context (Har : arrives).

(** What the wallet keeps of the output. *)
Definition kept : tx_scan_info_t :=
  {| si_output_key_pair := {| sec := spend_key; pub := to_pk spend_key |}; si_ki := derive_key_image spend_key; si_mask := payment_mask; si_amount := dst_amount dst;
     si_money_transfered := dst_amount dst; si_error := false; si_received := Some {| ri_index := index; ri_tx_output_shared_secret := secret |} |}.

Lemma spend_secret_ok : secret_ok (get_subaddress_spend_secret_key (account cfg) index).
Proof using HL SL Har. split; [apply subaddress_spend_ok; apply Har|exact (ar_subkey Har)]. Qed.

Lemma secret_hash_ok : secret_ok (hash_tx_output_shared_secret_to_scalar secret (Z.of_nat k)).
Proof using Hplan Har. exact (do_hash _ _ _ (po_payable _ _ _ _ _ _ _ Hplan k dst (ar_dst Har))). Qed.

(** The receiver derives the secret that the sender used. *)
Lemma secret_agrees : derive_tx_output_ecdh_shared_secret (published dst (sk_of k)) (m_view_secret_key (account cfg)) = secret.
Proof using HL SL Hplan Har.
  unfold published, shared_of. rewrite (ar_sub Har), (ar_addr Har). pose proof (po_payable _ _ _ _ _ _ _ Hplan k dst (ar_dst Har)) as Hd.
  rewrite <- (receiver_secret (account cfg) index (sk_of k)); [|apply Har|apply Har|apply Hd|apply Har].
  unfold published_key. destruct (is_zero index); reflexivity.
Qed.

Lemma found_key :
  compute_output_public_key_from_subaddress_spend_pk secret (Z.of_nat k) (m_spend_public_key (dst_addr dst)) = Some (to_pk spend_key) /\
  compute_subaddress_spend_pk_from_output_public_key secret (Z.of_nat k) (to_pk spend_key) = Some (m_spend_public_key (dst_addr dst)).
Proof using HL SL Hplan Har. rewrite (ar_addr Har). exact (output_key_recovered secret (Z.of_nat k) _ spend_secret_ok secret_hash_ok (ar_key Har)). Qed.

(** The scan of the [k]-th output gives the amount, the mask and the key image. *)
Lemma output_scanned tx pre rv h : prefix tx = pre -> vout pre !! k = Some {| amount := 0; target := txout_to_key (to_pk spend_key) |} ->
  type (basic (ringct tx)) = RCTTypeCLSAG -> maybeSizeCheckedRctData (ringct tx) = Some rv ->
  ecdh_encrypted_data (sc_basic rv) = ecdh_encrypted_data (generated_basic (signer_of <$> ordered es) (payments dests sks) h (money_in es - money_out dests)) ->
  output_commits (sc_basic rv) = output_commits (generated_basic (signer_of <$> ordered es) (payments dests sks) h (money_in es - money_out dests)) ->
  let check := scan_output_for_subaddresses {| amount := 0; target := txout_to_key (to_pk spend_key) |} secret k (m_subaddresses w) in
  si_received check = Some {| ri_index := index; ri_tx_output_shared_secret := secret |} /\
  scan_output tx false k check [] (account cfg) = Returns kept.
Proof using HL SL Hplan Har.
  intros Epre Hout Ety Esz Ee Ec check. destruct found_key as [_ Hb].
  assert (Hchk : check_output_for_subaddresses (m_subaddresses w) (to_pk spend_key) secret (Z.of_nat k) = Some {| ri_index := index; ri_tx_output_shared_secret := secret |}).
  { unfold check_output_for_subaddresses. rewrite Hb. cbn [mbind option_bind]. rewrite (ar_table Har). reflexivity. }
  split; [exact Hchk|]. unfold scan_output, check, scan_output_for_subaddresses. rewrite Epre, Hout. cbn [target si_received]. rewrite Hchk.
  cbn [ri_tx_output_shared_secret ri_index]. unfold derive_output_key_pair_and_key_image. fold spend_key. cbn [pub sec]. rewrite Z.eqb_refl. cbn [negb].
  rewrite Z.eqb_refl. cbn [negb throw_if throw_unless mbind result_bind]. rewrite bool_decide_false by apply not_elem_of_nil. cbn [negb throw_if throw_unless mbind result_bind].
  cbn [si_money_transfered with_keys]. cbn [amount Z.eqb andb negb]. unfold decodeRct. rewrite Ety, Z.eqb_refl, Esz. cbn [mbind option_bind].
  assert (Hpay : payments dests sks !! k = Some (payment sks k dst)) by (unfold payments; rewrite list_lookup_imap, (ar_dst Har); reflexivity).
  pose proof (generated_basic_decodes h _ _ _ rv k _ Ee Ec Hpay) as Hdec. cbn [payment o_amount o_ecdh_shared_secret_hashed_by_index] in Hdec.
  unfold secret_of in Hdec. rewrite Hdec by (pose proof (ar_amount Har); unfold fits; lia). cbn [mbind option_bind]. unfold with_money. cbn [si_money_transfered].
  rewrite (proj2 (Z.eqb_neq _ _)) by (pose proof (ar_amount Har); lia). cbn [pub]. rewrite Z.eqb_refl. reflexivity.
Qed.

(** The outputs and the keys that the prefix publishes. *)
Record prefix_sent (pre : transaction_prefix) (ks : list public_key) : Prop := {
  ps_unlock : unlock_height pre = unlock;
  ps_extra : extra pre = add_output_ecdh_public_keys_to_extra [] ks;
  ps_keys : length ks = length dests;
  ps_outs : length (vout pre) = length dests;
  ps_out j dst' : dests !! j = Some dst' -> ks !! j = Some (published dst' (sk_of j)) /\
    exists pk, compute_output_public_key_from_subaddress_spend_pk (shared_of dst' (sk_of j)) (Z.of_nat j) (m_spend_public_key (dst_addr dst')) = Some pk /\
      vout pre !! j = Some {| amount := 0; target := txout_to_key pk |} }.

Lemma built_prefix tx perm : construct_tx_with_tx_key init attempts dr keys subaddresses (sp_src <$> es) dests [] unlock sks = Returns (Built tx perm) ->
  exists ks, prefix_sent (prefix tx) ks.
Proof using.
  intros (ins & ks & ss & vs & t & ex & h & rv & _ & Eg & _ & -> & Hex & _)%construct_built. rewrite (Hex eq_refl).
  apply generate_outputs_each in Eg as (ks1 & vs1 & -> & -> & Hl1 & Hl2 & Hj). exists ks1. split; cbn; try assumption; try reflexivity; [now rewrite length_fmap|].
  intros j dst' Hd. destruct (Hj j dst' Hd) as (Hk & pk & Hpk & Hv). split; [exact Hk|]. exists pk. split; [exact Hpk|]. now rewrite list_lookup_fmap, Hv.
Qed.

Lemma sent_keys_safe pre ks : prefix_sent pre ks -> Forall safe ks.
Proof using HL SL Hplan.
  intros Hs. apply Forall_lookup. intros j key Hk. destruct (lookup_lt_is_Some_2 dests j) as [dst' Hd].
  { rewrite <- (ps_keys _ _ Hs). now apply lookup_lt_Some in Hk. }
  rewrite (proj1 (ps_out _ _ Hs j dst' Hd)) in Hk. injection Hk as <-. apply (published_safe dst' j). now apply (po_payable _ _ _ _ _ _ _ Hplan).
Qed.

Lemma sent_keys_read pre ks : prefix_sent pre ks -> get_output_ecdh_public_keys_from_extra (extra pre) = Some ks.
Proof using HL SL Hplan.
  intros Hs. rewrite (ps_extra _ _ Hs). apply (added_output_keys []); [constructor|reflexivity|now apply (sent_keys_safe pre)| |constructor].
  rewrite (ps_keys _ _ Hs). pose proof (po_dests _ _ _ _ _ _ _ Hplan). lia.
Qed.

Lemma sent_secrets tx ks : prefix_sent (prefix tx) ks ->
  shared_secrets cfg tx = (fun key => derive_tx_output_ecdh_shared_secret key (m_view_secret_key (account cfg))) <$> ks.
Proof using HL SL Hplan.
  intros Hs. unfold shared_secrets, get_all_output_ecdh_public_keys_from_extra. rewrite (sent_keys_read _ ks Hs), (ps_keys _ _ Hs), (ps_outs _ _ Hs), Nat.eqb_refl. reflexivity.
Qed.

Lemma sent_output pre ks : prefix_sent pre ks -> vout pre !! k = Some {| amount := 0; target := txout_to_key (to_pk spend_key) |}.
Proof using HL SL Hplan Har.
  intros Hs. destruct (ps_out _ _ Hs k dst (ar_dst Har)) as (_ & pk & Hpk & Hv). destruct found_key as [Hf _]. rewrite Hf in Hpk. now injection Hpk as <-.
Qed.

(** The receiver's wallet is in the case of one output. *)
Abbreviation ours := {| ri_index := index; ri_tx_output_shared_secret := secret |}.
Abbreviation out := {| amount := 0; target := txout_to_key (to_pk spend_key) |}.

Lemma payment_single tx ks rv h : prefix_sent (prefix tx) ks -> vin (prefix tx) = txin_from_key <$> (input_of <$> ordered es) ->
  type (basic (ringct tx)) = RCTTypeCLSAG -> maybeSizeCheckedRctData (ringct tx) = Some rv ->
  ecdh_encrypted_data (sc_basic rv) = ecdh_encrypted_data (generated_basic (signer_of <$> ordered es) (payments dests sks) h (money_in es - money_out dests)) ->
  output_commits (sc_basic rv) = output_commits (generated_basic (signer_of <$> ordered es) (payments dests sks) h (money_in es - money_out dests)) ->
  single_payment cfg txid tx ixs height w k out secret ours kept (dst_amount dst) g.
Proof using HL SL Hplan Har.
  intros Hs Hvin Ety Esz Ee Ec. pose proof (sent_output _ ks Hs) as Hout. pose proof (sent_secrets tx ks Hs) as Hsec.
  destruct (output_scanned tx (prefix tx) rv h eq_refl Hout Ety Esz Ee Ec) as [Hchk Hscan]. split.
  - exact Hout.
  - rewrite Hsec, length_fmap, (ps_keys _ _ Hs). symmetry. exact (ps_outs _ _ Hs).
  - rewrite Hsec, list_lookup_fmap, (proj1 (ps_out _ _ Hs k dst (ar_dst Har))). cbn. now rewrite secret_agrees.
  - exact Hchk.
  - exact Hscan.
  - split_and!; reflexivity.
  - intros j o s Hne Ho Hj. destruct (lookup_lt_is_Some_2 dests j) as [dst' Hd]; [rewrite <- (ps_outs _ _ Hs); now apply lookup_lt_Some in Ho|].
    destruct (ps_out _ _ Hs j dst' Hd) as (Hk & pk & Hpk & Hv). rewrite Hv in Ho. injection Ho as <-.
    rewrite Hsec, list_lookup_fmap, Hk in Hj. injection Hj as <-. exact (ar_others Har j dst' pk Hne Hd Hpk).
  - exact (ar_amount Har).
  - reflexivity.
  - exact (ar_index Har).
  - rewrite (ps_outs _ _ Hs). apply (ar_indices Har).
  - apply (ar_indices Har).
  - rewrite (ps_unlock _ _ Hs). split; [apply (ar_lock Har)|]. split; [exact (po_unlock _ _ _ _ _ _ _ Hplan)|apply (ar_lock Har)].
  - exact (ar_new Har).
  - exact (ar_unsent Har).
  - intros x Hx. rewrite Hvin, list_elem_of_fmap in Hx. destruct Hx as (y & Ey & Hy). injection Ey as ->. apply list_elem_of_fmap in Hy as (e & -> & He).
    apply (ar_foreign Har). now rewrite <- (ordered_perm es).
Qed.

(** The secrets with which the output can be spent, as the construction of the next transaction derives them. *)
Lemma spendable_again pre ks tx_key : prefix_sent pre ks ->
  derive_with_internal_checking_output_key_pair_and_key_image (account cfg) (m_subaddresses w) (to_pk spend_key) tx_key ks (Z.of_nat k) =
  Some ({| sec := spend_key; pub := to_pk spend_key |}, derive_key_image spend_key).
Proof using HL SL Hplan Har.
  intros Hs. destruct (ps_out _ _ Hs k dst (ar_dst Har)) as (Hk & _). unfold derive_with_internal_checking_output_key_pair_and_key_image.
  pose proof (lookup_lt_Some _ _ _ Hk) as Hlt. rewrite (proj2 (Z.geb_le _ _)), (proj2 (Z.ltb_lt _ _)) by lia. cbn [andb].
  rewrite Nat2Z.id, (nth_lookup_Some _ _ _ _ Hk), secret_agrees. cbn [mbind option_bind]. unfold check_output_for_subaddresses.
  rewrite (proj2 found_key). cbn [mbind option_bind]. rewrite (ar_table Har). cbn [mbind option_bind ri_index ri_tx_output_shared_secret].
  unfold derive_output_key_pair_and_key_image. fold spend_key. cbn [pub sec]. now rewrite Z.eqb_refl.
Qed.

(** C5: A payment reaches its receiver.  What [construct_tx_with_tx_key] builds for two to sixteen destinations, one of them an
    address (main or subaddress) in the table of another wallet, is serialized, parsed, and processed by that wallet as
    part of a block without an exception: the wallet adds exactly one transfer and one payment, with the amount that was sent, for
    the address it was sent to; amount and mask open the commitment of the output, the public key of the transfer
    is the one of the secret key that the wallet derives for spending, and its key image is known and in the tables.  The amount is
    positive and below 2^64 - 1, the output is unlocked at most a year after the block, its key is new to the wallet, none of
    the other outputs is the wallet's, and the inputs are not ([arrives]). *)
Theorem payment_reaches_receiver seen :
  exists res, construct_tx_with_tx_key init attempts dr keys subaddresses (sp_src <$> es) dests [] unlock sks = Returns res /\
    (res = OutOfAttempts /\ (attempts = O \/ zero_challenge) \/
     exists tx permutation rv proof, res = Built tx permutation /\ ringct tx = toRctData rv /\ sc_bulletproof rv = toUnsafeBulletproof proof /\
       (points_safe rv proof ->
        exists bd tx' w' td pd ks, tx_to_blob tx = Returns bd /\ maybe_tx_from_blob init bd = Some tx' /\
          process_new_transaction cfg txid tx' ixs height ts false false seen w = Returns w' /\
          m_transfers w' = m_transfers w ++ [td] /\ m_payments w' = m_payments w ++ [pd] /\
          (m_amount td = dst_amount dst /\ m_subaddr_index td = index /\ m_spent td = false /\ m_global_output_index td = g /\ m_txid td = txid) /\
          (p_amount pd = dst_amount dst /\ p_subaddr_index pd = index /\ p_tx_hash pd = txid /\ p_fee pd = money_in es - money_out dests) /\
          output_commits (basic (ringct tx')) !! k = Some (commit (m_amount td) (m_mask td)) /\
          get_output_ecdh_public_keys_from_extra (extra (m_tx td)) = Some ks /\ get_public_key td = Returns (to_pk spend_key) /\
          derive_with_internal_checking_output_key_pair_and_key_image (account cfg) (m_subaddresses w) (to_pk spend_key) None ks (Z.of_nat k) =
            Some ({| sec := spend_key; pub := to_pk spend_key |}, m_output_key_image td) /\
          m_pub_keys w' !! to_pk spend_key = Some (length (m_transfers w)) /\ m_output_key_images w' !! m_output_key_image td = Some (length (m_transfers w)))).
Proof using All.
  destruct (constructed_form d keys subaddresses init es dests sks unlock Hplan attempts dr Hdraws) as
    (res & E & [HN|(pre & h & proof & full & clsags & Hpre & Eh & -> & Hv & Em & Hcs & Es)]); exists res || eexists; (split; [exact E|]); [now left|right].
  destruct (built_prefix _ _ E) as [ks Hs]. cbn [prefix] in Hs. eexists _, _, (proven es dests sks dr h proof clsags), proof. split; [reflexivity|].
  split; [reflexivity|]. split; [reflexivity|]. intros Hsafe.
  destruct (received_parsed d keys subaddresses init es dests sks unlock Hplan attempts dr Hdraws pre h proof clsags Hpre Hv Hcs Hsafe) as (bd & Eb & _ & Ep).
  set (tx := {| prefix := pre; ringct := _ |}) in *.
  pose proof (payment_single (received init tx) ks (as_received init pre (proven es dests sks dr h proof clsags)) h Hs (pb_vin _ _ _ Hpre) eq_refl) as Hsingle.
  specialize (Hsingle (proj2 (size_checked d keys subaddresses init es dests sks unlock Hplan dr pre h proof clsags Hcs (vin_length es dests pre Hpre))) eq_refl eq_refl).
  destruct (single_processed cfg (ar_lookahead Har) txid (received init tx) ixs height ts w k out secret ours kept (dst_amount dst) g Hsingle seen) as
    (w' & Ew & Et & Epay & Epub & Eki).
  eexists bd, (received init tx), w', _, _, ks. split; [exact Eb|]. split; [exact Ep|]. split; [exact Ew|]. split; [exact Et|]. split; [exact Epay|].
  split; [now split_and!|]. split; [now split_and!|]. split; [|split; [exact (sent_keys_read pre ks Hs)|split; [|split; [exact (spendable_again pre ks None Hs)|split]]]].
  - cbn. unfold range_proof_inputs. rewrite !list_lookup_fmap. unfold payments. rewrite list_lookup_imap, (ar_dst Har). reflexivity.
  - unfold get_public_key. cbn [received_transfer new_transfer m_tx m_internal_output_index]. change (prefix (received init tx)) with pre. now rewrite (sent_output pre ks Hs).
  - rewrite Epub. apply lookup_insert_eq.
  - rewrite Eki. apply lookup_insert_eq.
Qed.

End Payment.

Section Examples.
Import ModelGroup UnitDigest.
#[local] Instance recv_no_shift : UndefinedShift := fun _ => 0.
#[local] Instance recv_no_cache : CachedSize := fun _ => 0.

(** The receiver has other keys than the payer; the payment goes to a subaddress, the change back. *)
Definition receiver : spend_view_secret_keys := {| m_spend_secret_key := 21; m_view_secret_key := 34 |}.
Definition receiver_settings : settings :=
  {| account := receiver; createtime := 0; m_subaddress_lookahead_major := 2; m_subaddress_lookahead_minor := 3; m_refresh_from_block_height := 0; m_store_tx_info := true |}.
Definition receiver_wallet : wallet2 := create_one_off_subaddress receiver_settings example_index (clear example_wallet).
Definition to_receiver : tx_destination_entry := {| dst_amount := 6; dst_addr := get_subaddress receiver example_index; dst_is_subaddress := true |}.
Definition change_back : tx_destination_entry := {| dst_amount := 3; dst_addr := payer_address; dst_is_subaddress := false |}.

Lemma to_receiver_ok : plan_ok ring_db payer payer_table [one_spend] [to_receiver; change_back] payment_keys 0.
Proof.
  split.
  - discriminate.
  - cbn. lia.
  - constructor; [exact one_spend_ok|constructor].
  - apply NoDup_singleton.
  - cbn. lia.
  - reflexivity.
  - intros [|[|k]] dst E; [..|discriminate]; injection E as <-.
    all: split; [vm_compute; split; congruence|vm_compute; repeat split; congruence..|].
    + exists (get_subaddress_spend_secret_key receiver example_index). split_and!; [reflexivity|vm_compute; repeat split; congruence|vm_compute; congruence].
    + exists (get_subaddress_spend_secret_key payer main_index). split_and!; [reflexivity|vm_compute; repeat split; congruence|vm_compute; congruence].
  - unfold fits. lia.
  - vm_compute. split; congruence.
Qed.

Lemma to_receiver_draws : draws_ok [one_spend] [to_receiver; change_back] payment_keys 1 example_draws.
Proof.
  split.
  - apply (bool_decide_unpack _). vm_compute. exact I.
  - exact (dr_sig _ _ _ _ _ example_draws_ok).
  - exact (dr_proof _ _ _ _ _ example_draws_ok).
  - intros i. vm_compute. split; congruence.
  - exact (dr_generators _ _ _ _ _ example_draws_ok).
  - intros j Hj. assert (j = 0)%nat as -> by lia. vm_compute. reflexivity.
Qed.

Definition change_key : public_key := default 0 (compute_output_public_key_from_subaddress_spend_pk (shared_of change_back 8) 1 (m_spend_public_key payer_address)).

Lemma change_key_computed : compute_output_public_key_from_subaddress_spend_pk (shared_of change_back 8) 1 (m_spend_public_key payer_address) = Some change_key.
Proof. vm_compute. reflexivity. Qed.

Lemma to_receiver_arrives : arrives [one_spend] [to_receiver; change_back] payment_keys 0 receiver_settings receiver_wallet (replicate 32 3) [40; 41] 3 0 to_receiver example_index 40.
Proof.
  split.
  - reflexivity.
  - reflexivity.
  - reflexivity.
  - vm_compute. repeat split; congruence.
  - vm_compute. repeat split; congruence.
  - vm_compute. congruence.
  - vm_compute. congruence.
  - vm_compute. reflexivity.
  - vm_compute. split; congruence.
  - vm_compute. split; congruence.
  - intros [|[|j]] dst' pk Hne Hd Hpk; [congruence| |discriminate]. injection Hd as <-. assert (Some pk = Some change_key) as [= ->] by (etransitivity; [symmetry; exact Hpk|exact change_key_computed]). vm_compute. reflexivity.
  - vm_compute. reflexivity.
  - intros e ->%list_elem_of_singleton. split; [reflexivity|vm_compute; congruence].
  - reflexivity.
  - split; reflexivity.
  - split; [unfold fits; lia|vm_compute; congruence].
  - vm_compute. congruence.
Qed.

Lemma payment_reaches_receiver_witness :
  exists res, construct_tx_with_tx_key no_rct 1 example_draws payer payer_table (sp_src <$> [one_spend]) [to_receiver; change_back] [] 0 payment_keys = Returns res /\
    (res = OutOfAttempts \/ exists tx permutation, res = Built tx permutation).
Proof.
  destruct (payment_reaches_receiver ring_db payer payer_table no_rct [one_spend] [to_receiver; change_back] payment_keys 0 to_receiver_ok
    1 example_draws to_receiver_draws receiver_settings receiver_wallet (replicate 32 3) [40; 41] 3 100 0 to_receiver example_index 40 to_receiver_arrives false)
    as (res & E & [[-> _]|(tx & permutation & rv & proof & -> & _)]); (eexists; split; [exact E|]); eauto.
Defined.

(** The whole way, evaluated. *)
Example payment_arrives :
  match construct_tx_with_tx_key no_rct 1 example_draws payer payer_table (sp_src <$> [one_spend]) [to_receiver; change_back] [] 0 payment_keys with
  | Returns (Built tx _) =>
    match tx_to_blob tx with
    | Returns bd =>
      match maybe_tx_from_blob no_rct bd with
      | Some tx' =>
        match process_new_transaction receiver_settings (replicate 32 3) tx' [40; 41] 3 100 false false false receiver_wallet with
        | Returns w' => (m_amount <$> m_transfers w', balance (major example_index) true w', p_amount <$> m_payments w')
        | Throws => ([], 0, [])
        end
      | None => ([], 0, [])
      end
    | Throws => ([], 0, [])
    end
  | _ => ([], 0, [])
  end = ([6], 6, [6]).
Proof. vm_cast_no_check (eq_refl ([6], 6, [6])). Qed.

End Examples.

End WalletReceive.
