(* ===== verification/Mnemonics.v ===== *)
(** Mnemonic seeds: [wallet/mnemonics/electrum-words.cpp] and [language_base.h], with the English words.  Strings are byte strings,
    as [epee::wipeable_string] is [std::string].  Boost's CRC-32 and its splitting of a text into words are parameters. *)

From stdpp Require Import gmap strings.
From S2P Require Import Prelude EnglishWords.

Module Mnemonics.

(** [boost::crc_32_type] over the bytes of a string *)
Class Crc32 := crc_32 : string -> Z.
Class Crc32Laws `{Crc32} : Prop := crc_fits s : fits 32 (crc_32 s).

(** [boost::trim], then [boost::split] at blanks and tabs with adjacent ones merged *)
Class SplitWords := split_words : string -> list string.
Definition visible (a : Ascii.ascii) : bool := (32 <? Ascii.nat_of_ascii a)%nat.
Fixpoint all_visible (s : string) : bool := match s with EmptyString => true | String a s => visible a && all_visible s end.
Definition plain_word (w : string) : bool := negb (bool_decide (w = EmptyString)) && all_visible w.
(** Words that are joined by single blanks are found again. *)
Class SplitLaws `{SplitWords} : Prop := split_joined ws : ws <> [] -> forallb plain_word ws = true -> split_words (String.concat " " ws) = ws.

(** ** Languages *)

(** A byte that continues a character in UTF-8. *)
Definition continuation (a : Ascii.ascii) : bool := Z.land (Z.of_N (Ascii.N_of_ascii a)) 0xc0 =? 0x80.

(** The loops of [utf8prefix]: a character and the bytes that continue it. *)
Fixpoint utf8_loop (started : bool) (count : nat) (s : string) : string :=
  match s with
  | EmptyString => EmptyString
  | String a s =>
      if started && continuation a then String a (utf8_loop true count s)
      else match count with O => EmptyString | S count => String a (utf8_loop true count s) end
  end.
Definition utf8prefix (s : string) (count : nat) : string := utf8_loop false count s.

Record Language := {
  word_list : list string; word_map : gmap string Z; trimmed_word_map : gmap string Z; language_name : string; english_language_name : string;
  unique_prefix_length : nat }.

Definition NWORDS : nat := 1626.

(** [Base::Base] *)
Definition Base (name english_name : string) (words : list string) (prefix_length : nat) : Language :=
  {| word_list := words; word_map := ∅; trimmed_word_map := ∅; language_name := name; english_language_name := english_name; unique_prefix_length := prefix_length |}.
Definition set_words (words : list string) (l : Language) : Language :=
  {| word_list := take NWORDS words; word_map := word_map l; trimmed_word_map := trimmed_word_map l; language_name := language_name l;
     english_language_name := english_language_name l; unique_prefix_length := unique_prefix_length l |}.
Definition with_maps (m t : gmap string Z) (l : Language) : Language :=
  {| word_list := word_list l; word_map := m; trimmed_word_map := t; language_name := language_name l; english_language_name := english_language_name l;
     unique_prefix_length := unique_prefix_length l |}.

(** The prefix by which a word is found. *)
Definition trim_word (prefix_length : nat) (w : string) : string :=
  if (prefix_length <? String.length w)%nat then utf8prefix w prefix_length else w.

(** The loop of [populate_maps], with no flags set. *)
Fixpoint populate_loop (prefix_length : nat) (ii : nat) (words : list string) (m t : gmap string Z) : result (gmap string Z * gmap string Z) :=
  match words with
  | [] => Returns (m, t)
  | w :: words =>
      let m := <[w := Z.of_nat ii]> m in
      _ ← throw_if (String.length w <? prefix_length)%nat;
      let trimmed := trim_word prefix_length w in
      _ ← throw_if (bool_decide (is_Some (t !! trimmed)));
      populate_loop prefix_length (S ii) words m (<[trimmed := Z.of_nat ii]> t)
  end.
Definition populate_maps (l : Language) : result Language :=
  _ ← throw_if (negb (length (word_list l) =? NWORDS)%nat);
  '(m, t) ← populate_loop (unique_prefix_length l) 0 (word_list l) (word_map l) (trimmed_word_map l);
  Returns (with_maps m t l).

Definition English : result Language := populate_maps (set_words EnglishWords.words (Base "English" "English" [] 3)).

(** [get_language_list], and the list of [find_seed_language] *)
Definition get_language_list : result (list Language) := l ← English; Returns [l].

(** ** The checksum *)

Section Seeds.
Context `{Crc32} `{SplitWords}.

Fixpoint trim_all (language : Language) (words : list string) (trimmed_words : string) : result string :=
  match words with
  | [] => Returns trimmed_words
  | w :: words =>
      let word := utf8prefix w (unique_prefix_length language) in
      match trimmed_word_map language !! word with
      | None => Throws
      | Some _ => trim_all language words (trimmed_words +:+ word)
      end
  end.

(** The remainder by zero, for no words, is an error of the processor. *)
Definition create_checksum_index (words : list string) (language : Language) : result nat :=
  trimmed_words ← trim_all language words EmptyString;
  match words with
  | [] => Throws
  | _ => Returns (Z.to_nat (crc_32 trimmed_words mod Z.of_nat (length words)))
  end.

Definition checksum_test (seed : list string) (language : Language) : result bool :=
  match last seed with
  | None => Returns false
  | Some last_word =>
      let seed := removelast seed in
      idx ← create_checksum_index seed language;
      match seed !! idx with
      | None => Throws
      | Some checksum =>
          Returns (bool_decide (trim_word (unique_prefix_length language) checksum = trim_word (unique_prefix_length language) last_word))
      end
  end.

(** ** From words to bytes *)

(** The indices of the words, if all of them are in the language. *)
Definition match_words (language : Language) (has_checksum : bool) (seed : list string) : option (list Z) :=
  mapM (fun w => if has_checksum then trimmed_word_map language !! utf8prefix w (unique_prefix_length language) else word_map language !! w) seed.

Fixpoint find_loop (languages : list Language) (seed : list string) (has_checksum : bool) (fallback : option Language) : result (option (Language * list Z)) :=
  match languages with
  | [] => Returns ((fun l => (l, [])) <$> fallback)
  | l :: languages =>
      match match_words l has_checksum seed with
      | None => find_loop languages seed has_checksum fallback
      | Some matched_indices =>
          ok ← (if has_checksum then checksum_test seed l else Returns true);
          if ok : bool then Returns (Some (l, matched_indices)) else find_loop languages seed has_checksum (Some l)
      end
  end.
Definition find_seed_language (seed : list string) (has_checksum : bool) : result (option (Language * list Z)) :=
  languages ← get_language_list; find_loop languages seed has_checksum None.

(** Four bytes from three words, in [uint32_t]. *)
Definition from_words (n w1 w2 w3 : Z) : Z :=
  wrap 32 (wrap 32 (w1 + wrap 32 (n * (wrap 32 (wrap 32 (n - w1) + w2) mod n))) + wrap 32 (wrap 32 (n * n) * (wrap 32 (wrap 32 (n - w2) + w3) mod n))).

Fixpoint decode_triples (n : Z) (k : nat) (indices : list Z) (dst : blob) : result blob :=
  match k with
  | O => Returns dst
  | S k =>
      match indices with
      | w1 :: w2 :: w3 :: indices => decode_triples n k indices (dst ++ le_bytes 4 (from_words n w1 w2 w3))
      | _ => Throws
      end
  end.

(** The result, the bytes appended to [dst], and the language. *)
Definition words_to_bytes (words : string) (dst : blob) (len : Z) (duplicate : bool) (name : string) : result (bool * blob * string) :=
  let seed := split_words words in
  let size := Z.of_nat (length seed) in
  if negb (len mod 4 =? 0) then Returns (false, dst, name) else
  let expected := (len ⊠ 8 ⊠ 3) / 32 in
  if negb (len =? 0) && (negb (size =? expected / 2) && negb (size =? expected) && negb (size =? expected ⊞ 1)) then Returns (false, dst, name) else
  let has_checksum := if len =? 0 then true else size =? expected ⊞ 1 in
  found ← find_seed_language seed has_checksum;
  match found with
  | None => Returns (false, dst, name)
  | Some (language, matched_indices) =>
      let name := language_name language in
      let word_list_length := wrap 32 (Z.of_nat (length (word_list language))) in
      ok ← (if has_checksum then checksum_test seed language else Returns true);
      if negb ok then Returns (false, dst, name) else
      let seed := if has_checksum then removelast seed else seed in
      dst ← decode_triples word_list_length (length seed / 3) matched_indices dst;
      let expected := (len ⊠ 3) / 32 in
      Returns (true, if (0 <? len) && duplicate && (Z.of_nat (length seed) =? expected / 2) then dst ++ dst else dst, name)
  end.

(** [words_to_bytes] of a secret key *)
Definition words_to_key (words : string) (dst : blob) (name : string) : result (bool * blob * string) :=
  '(ok, s, name) ← words_to_bytes words [] 32 true name;
  if negb ok then Returns (false, dst, name) else
  if negb (length s =? 32)%nat then Returns (false, dst, name) else
  Returns (true, s, name).

(** ** From bytes to words *)

Definition to_words (n w0 : Z) : list Z :=
  let w1 := w0 mod n in
  let w2 := wrap 32 (w0 / n + w1) mod n in
  let w3 := wrap 32 (w0 / n / n + w2) mod n in
  [w1; w2; w3].

Fixpoint encode_loop (list : list string) (n : Z) (k : nat) (src : blob) (words : string) (store : Datatypes.list string) : result (string * Datatypes.list string) :=
  match k with
  | O => Returns (words, store)
  | S k =>
      match mapM (fun w => list !! Z.to_nat w) (to_words n (le_Z (take 4 src))) with
      | Some [a; b; c] => encode_loop list n k (drop 4 src) (words +:+ a +:+ " " +:+ b +:+ " " +:+ c +:+ " ") (store ++ [a; b; c])
      | _ => Throws
      end
  end.

Definition bytes_to_words (src : blob) (words : string) (name : string) : result (bool * string) :=
  let len := Z.of_nat (length src) in
  if negb (len mod 4 =? 0) || (len =? 0) then Returns (false, words) else
  languages ← get_language_list;
  match last (filter (fun l => name = language_name l \/ name = english_language_name l) languages) with
  | None => Returns (false, words)
  | Some language =>
      '(words, words_store) ← encode_loop (word_list language) (wrap 32 (Z.of_nat (length (word_list language)))) (length src / 4) src words [];
      idx ← create_checksum_index words_store language;
      match words_store !! idx with
      | None => Throws
      | Some w => Returns (true, words +:+ w)
      end
  end.

(** [get_language_list] of names, [get_english_name_for] *)
Definition get_language_names (english : bool) : result (list string) :=
  languages ← get_language_list; Returns (map (if english then english_language_name else language_name) languages).
Definition get_english_name_for (name : string) : result string :=
  languages ← get_language_list;
  Returns (match list_find (fun l => language_name l = name) languages with Some (_, l) => english_language_name l | None => "<language not found>" end).

End Seeds.

(** ** Three words hold four bytes *)

Lemma add_back n a q : 0 < n -> 0 <= a < n -> 0 <= q -> (n - a + (q + a) mod n) mod n = q mod n.
Proof. intros Hn Ha Hq. rewrite Zplus_mod_idemp_r. replace (n - a + (q + a)) with (q + 1 * n) by lia. apply Z_mod_plus_full. Qed.

Lemma triple_roundtrip x : fits 32 x ->
  match to_words 1626 x with [w1; w2; w3] => from_words 1626 w1 w2 w3 = x /\ (0 <= w1 < 1626 /\ 0 <= w2 < 1626 /\ 0 <= w3 < 1626) | _ => False end.
Proof.
  unfold fits. intros Hx. unfold to_words. set (n := 1626). assert (Hn : n = 1626) by reflexivity. clearbody n. set (q := x / n). set (r := q / n).
  pose proof (Z.div_mod x n ltac:(lia)) as E1. pose proof (Z.div_mod q n ltac:(lia)) as E2. fold q in E1. fold r in E2.
  pose proof (Z.mod_pos_bound x n ltac:(lia)) as B1. pose proof (Z.mod_pos_bound q n ltac:(lia)) as B2.
  assert (Hq : 0 <= q < 2641432) by (unfold q; split; [apply Z.div_pos; lia|apply Z.div_lt_upper_bound; lia]).
  assert (Hr : 0 <= r < n) by (unfold r; split; [apply Z.div_pos; lia|apply Z.div_lt_upper_bound; lia]). clearbody q r.
  set (w1 := x mod n) in *. rewrite (wrap_small 32 (q + w1)) by (unfold fits; lia).
  assert (C2 : (n - w1 + (q + w1) mod n) mod n = q mod n) by (apply add_back; lia). pose proof (Z.mod_pos_bound (q + w1) n ltac:(lia)) as B3.
  set (w2 := (q + w1) mod n) in *. rewrite (wrap_small 32 (r + w2)) by (unfold fits; lia).
  assert (C3 : (n - w2 + (r + w2) mod n) mod n = r) by (rewrite add_back by lia; apply Z.mod_small; lia). pose proof (Z.mod_pos_bound (r + w2) n ltac:(lia)) as B4.
  set (w3 := (r + w2) mod n) in *. split; [|lia]. unfold from_words.
  rewrite (wrap_small 32 (n - w1)), (wrap_small 32 (n - w1 + w2)), (wrap_small 32 (n - w2)), (wrap_small 32 (n - w2 + w3)), C2, C3 by (unfold fits; lia).
  clearbody w1 w2 w3. set (u := q mod n) in *. clearbody u. subst n. rewrite (wrap_small 32 (1626 * u)), (wrap_small 32 (w1 + 1626 * u)), (wrap_small 32 (1626 * 1626)) by (unfold fits; lia).
  rewrite (wrap_small 32 (1626 * 1626 * r)) by (unfold fits; lia). rewrite wrap_small by (unfold fits; lia). lia.
Qed.

(** ** The maps of a language *)

Lemma utf8_short s : forall started count, (String.length s <= count)%nat -> utf8_loop started count s = s.
Proof.
  induction s as [|a s IH]; intros started count Hc; [reflexivity|]. cbn [utf8_loop String.length] in *. destruct (started && continuation a); [rewrite IH by lia; reflexivity|].
  destruct count; [lia|]. rewrite IH by lia. reflexivity.
Qed.

Lemma trim_word_prefix n w : trim_word n w = utf8prefix w n.
Proof. unfold trim_word. destruct (Nat.ltb_spec n (String.length w)); [reflexivity|]. symmetry. now apply utf8_short. Qed.

Lemma populate_loop_spec n words : forall ii m t m' t', populate_loop n ii words m t = Returns (m', t') ->
  (forall s i, t !! s = Some i -> t' !! s = Some i) /\ (forall w i, m !! w = Some i -> is_Some (t !! trim_word n w) -> m' !! w = Some i) /\
  forall j w, words !! j = Some w -> t' !! trim_word n w = Some (Z.of_nat (ii + j)) /\ m' !! w = Some (Z.of_nat (ii + j)).
Proof.
  induction words as [|w words IH]; intros ii m t m' t' E; cbn [populate_loop] in E.
  { injection E as <- <-. split_and!; auto. intros j w Hj. discriminate. }
  destruct (_ <? n)%nat; [discriminate|]. cbn [throw_if throw_unless negb mbind result_bind] in E.
  destruct (decide (is_Some (t !! trim_word n w))) as [Hs|Hs]; [rewrite bool_decide_true in E by assumption; discriminate|rewrite bool_decide_false in E by assumption].
  cbn [throw_if throw_unless negb mbind result_bind] in E. apply IH in E as (Ht & Hm & Hj). rewrite <- eq_None_not_Some in Hs.
  split_and!.
  - intros s i Hi. apply Ht. rewrite lookup_insert_ne; [exact Hi|]. intros <-. congruence.
  - intros w0 i Hi Hi'. apply Hm; [rewrite lookup_insert_ne; [exact Hi|]; intros <-; destruct Hi'; congruence|].
    destruct (decide (trim_word n w = trim_word n w0)) as [->|]; [rewrite lookup_insert_eq; eauto|now rewrite lookup_insert_ne].
  - intros [|j] w0 Hw.
    + injection Hw as <-. rewrite Nat.add_0_r. split; [apply Ht, lookup_insert_eq|apply Hm; rewrite lookup_insert_eq; eauto].
    + rewrite Nat.add_succ_r. apply (Hj j w0 Hw).
Qed.

(** Every word is found by its prefix, and in full. *)
Record language_ok (l : Language) : Prop := {
  lo_size : length (word_list l) = NWORDS;
  lo_trimmed i w : word_list l !! i = Some w -> trimmed_word_map l !! utf8prefix w (unique_prefix_length l) = Some (Z.of_nat i);
  lo_full i w : word_list l !! i = Some w -> word_map l !! w = Some (Z.of_nat i) }.

Lemma populated_ok l l' : populate_maps l = Returns l' -> language_ok l' /\ word_list l' = word_list l /\ language_name l' = language_name l.
Proof.
  unfold populate_maps. intros E. destruct (length (word_list l) =? NWORDS)%nat eqn:Hn; [|discriminate]. apply Nat.eqb_eq in Hn. cbn [negb throw_if throw_unless mbind result_bind] in E.
  destruct (populate_loop _ _ _ _ _) as [[m t]|] eqn:Ep; [|discriminate]. injection E as <-. apply populate_loop_spec in Ep as (_ & _ & Hj).
  split; [|easy]. split; [exact Hn|..]; cbn; intros i w Hw; [rewrite <- trim_word_prefix|]; now apply Hj.
Qed.

#[local] Strategy expand [English].

(** The constructor of the English language throws nothing, and its words are plain. *)
Lemma english_ok : exists l, English = Returns l /\ language_ok l /\ language_name l = "English"%string /\ forallb plain_word (word_list l) = true.
Proof.
  assert (Hr : match English with Returns _ => true | Throws => false end = true) by (vm_compute; reflexivity).
  destruct English as [l|] eqn:E; [|discriminate]. exists l. split; [reflexivity|]. apply populated_ok in E as (Hl & Ew & En).
  split; [exact Hl|]. rewrite Ew, En. split; [reflexivity|]. vm_compute. reflexivity.
Qed.

#[local] Opaque English.

(** ** The round trip *)

Definition spaced (ws : list string) : string := foldr (fun w s => w +:+ " " +:+ s) EmptyString ws.

Lemma append_assoc (a b c : string) : (a +:+ b) +:+ c = a +:+ (b +:+ c).
Proof. induction a as [|x a IH]; [reflexivity|]. change (String x ((a +:+ b) +:+ c) = String x (a +:+ (b +:+ c))). now rewrite IH. Qed.
Lemma append_empty (a : string) : a +:+ EmptyString = a.
Proof. induction a as [|x a IH]; [reflexivity|]. change (String x (a +:+ EmptyString) = String x a). now rewrite IH. Qed.

Lemma spaced_app ws ws' : spaced (ws ++ ws') = spaced ws +:+ spaced ws'.
Proof. induction ws as [|w ws IH]; [reflexivity|]. cbn [spaced foldr app]. fold (spaced (ws ++ ws')) (spaced ws). now rewrite IH, !append_assoc. Qed.

Lemma spaced_last ws w : spaced ws +:+ w = String.concat " " (ws ++ [w]).
Proof.
  induction ws as [|v ws IH]; [reflexivity|]. cbn [spaced foldr app String.concat]. fold (spaced ws). rewrite !append_assoc, IH. destruct (ws ++ [w]) eqn:E; [now destruct ws|]. reflexivity.
Qed.

Lemma chunk_fits (src : blob) : bytes_ok src -> fits 32 (le_Z (take 4 src)).
Proof.
  intros Hs. pose proof (le_Z_bound (take 4 src) (Forall_take _ _ _ Hs)) as Hb.
  unfold fits. assert (256 ^ Z.of_nat (length (take 4 src)) <= 256 ^ 4); [|lia]. apply Z.pow_le_mono_r; [lia|]. rewrite length_take. lia.
Qed.

Section RoundTrip.
Context `{CL : Crc32Laws} `{SL : SplitLaws}.
Context (l : Language) (Hl : language_ok l) (Hplain : forallb plain_word (word_list l) = true).
Abbreviation is_word i w := (word_list l !! Z.to_nat i = Some w /\ 0 <= i).

Lemma word_at i : 0 <= i < 1626 -> exists w, is_word i w.
Proof using Hl. intros Hi. destruct (lookup_lt_is_Some_2 (word_list l) (Z.to_nat i)) as [w Hw]; [rewrite (lo_size l Hl); unfold NWORDS; lia|]. exists w. auto with lia. Qed.

Lemma encode_spec k : forall src words store, bytes_ok src -> length src = (4 * k)%nat ->
  exists ws idx, encode_loop (word_list l) 1626 k src words store = Returns (words +:+ spaced ws, store ++ ws) /\ length ws = (3 * k)%nat /\
    Forall2 (fun i w => is_word i w) idx ws /\ forall rest dst, decode_triples 1626 k (idx ++ rest) dst = Returns (dst ++ src).
Proof using Hl.
  induction k as [|k IH]; intros src words store Hs Hlen.
  { exists [], []. destruct src; [|discriminate]. cbn. rewrite append_empty, app_nil_r. split_and!; auto. intros rest dst. now rewrite app_nil_r. }
  pose proof (triple_roundtrip _ (chunk_fits src Hs)) as Ht. cbn [encode_loop]. unfold to_words in *. cbv zeta in *.
  set (w1 := le_Z (take 4 src) mod 1626) in *. set (w2 := wrap 32 (le_Z (take 4 src) / 1626 + w1) mod 1626) in *. set (w3 := wrap 32 (_ / _ + w2) mod 1626) in *.
  destruct Ht as (Ht & H1 & H2 & H3). destruct (word_at w1 H1) as (a & Ha & Ha0), (word_at w2 H2) as (b & Hb & Hb0), (word_at w3 H3) as (c & Hc & Hc0). clearbody w1 w2 w3.
  cbn [mapM]. rewrite Ha, Hb, Hc. cbn [mbind option_bind mret option_ret].
  destruct (IH (drop 4 src) (words +:+ a +:+ " " +:+ b +:+ " " +:+ c +:+ " ") (store ++ [a; b; c])) as (ws & idx & E & Hws & Hidx & Hd); [now apply Forall_drop|rewrite length_drop; lia|].
  exists (a :: b :: c :: ws), (w1 :: w2 :: w3 :: idx). split_and!.
  - rewrite E. cbn [spaced foldr]. fold (spaced ws). rewrite !append_assoc, <- app_assoc. reflexivity.
  - cbn. lia.
  - repeat constructor; assumption.
  - intros rest dst. assert (Hl4 : length (take 4 src) = 4%nat) by (rewrite length_take; lia).
    pose proof (le_bytes_Z (take 4 src) (Forall_take _ _ _ Hs)) as Hb4. rewrite Hl4 in Hb4. cbn [decode_triples app]. now rewrite Hd, Ht, Hb4, <- app_assoc, take_drop.
Qed.

Lemma trim_all_words idx ws : Forall2 (fun i w => is_word i w) idx ws -> forall s, exists t, trim_all l ws s = Returns t.
Proof using Hl. induction 1 as [|i w idx ws [Hw _] _ IH]; intros s; cbn [trim_all]; [eauto|]. rewrite (lo_trimmed l Hl _ _ Hw). apply IH. Qed.

(** The checksum is one of the words. *)
Lemma checksum_word idx ws : ws <> [] -> Forall2 (fun i w => is_word i w) idx ws ->
  exists k w, create_checksum_index ws l = Returns k /\ ws !! k = Some w.
Proof using CL Hl.
  intros Hne Hw. destruct (trim_all_words _ _ Hw EmptyString) as [t Et]. unfold create_checksum_index. rewrite Et. cbn [mbind result_bind]. destruct ws as [|w0 ws]; [congruence|].
  pose proof (Z.mod_pos_bound (crc_32 t) (Z.of_nat (length (w0 :: ws))) ltac:(cbn; lia)) as Hb.
  edestruct (lookup_lt_is_Some_2 (w0 :: ws)) as [w Hk]; [|eexists _, w; split; [reflexivity|exact Hk]]. lia.
Qed.

Lemma checksum_accepted idx ws k w : Forall2 (fun i w => is_word i w) idx ws -> create_checksum_index ws l = Returns k -> ws !! k = Some w ->
  checksum_test (ws ++ [w]) l = Returns true.
Proof using. intros Hw Ek Hk. unfold checksum_test. rewrite last_snoc, removelast_last, Ek. cbn [mbind result_bind]. rewrite Hk, bool_decide_true by reflexivity. reflexivity. Qed.

Lemma matched_words idx ws : Forall2 (fun i w => is_word i w) idx ws -> match_words l true ws = Some idx.
Proof using Hl.
  intros Hw. apply mapM_Some_2. induction Hw as [|i w idx ws [Hi Hi0] _ IH]; constructor; [|exact IH]. rewrite (lo_trimmed l Hl _ _ Hi). f_equal. lia.
Qed.

Lemma plain_words idx ws : Forall2 (fun i w => is_word i w) idx ws -> forallb plain_word ws = true.
Proof using Hplain.
  induction 1 as [|i w idx ws [Hi _] _ IH]; [reflexivity|]. cbn. rewrite IH, andb_true_r. rewrite forallb_forall in Hplain. apply Hplain, list_elem_of_In. now apply list_elem_of_lookup_2 in Hi.
Qed.

(** The text of the words and of their checksum gives the bytes. *)
Lemma words_decoded idx ws c w iw k src duplicate name : English = Returns l -> (0 < k)%nat -> Z.of_nat k < 2 ^ 54 -> length ws = (3 * k)%nat ->
  Forall2 (fun i w => is_word i w) idx ws -> is_word iw w -> create_checksum_index ws l = Returns c -> ws !! c = Some w ->
  (forall rest dst, decode_triples 1626 k (idx ++ rest) dst = Returns (dst ++ src)) ->
  split_words (spaced ws +:+ w) = ws ++ [w] /\
  words_to_bytes (spaced ws +:+ w) [] (4 * Z.of_nat k) duplicate name = Returns (true, src, language_name l).
Proof using SL Hl Hplain.
  intros El Hk Hmax Hws Hidx Hiw Ec Hc Hd.
  assert (Hall : Forall2 (fun i w => is_word i w) (idx ++ [iw]) (ws ++ [w])) by (apply Forall2_app; [exact Hidx|now constructor]).
  pose proof (plain_words _ _ Hall) as Hpl.
  assert (Esplit : split_words (spaced ws +:+ w) = ws ++ [w]).
  { rewrite spaced_last. apply split_joined; [|exact Hpl]. intros E0. apply app_eq_nil in E0 as [_ E0]. discriminate E0. }
  split; [exact Esplit|]. assert (Hsize : Z.of_nat (length (ws ++ [w])) = 3 * Z.of_nat k + 1) by (rewrite length_app; cbn; lia).
  unfold words_to_bytes. rewrite Esplit, Hsize. rewrite (proj2 (Z.eqb_eq (_ mod 4) 0)) by (rewrite Z.mul_comm; apply Z_mod_mult). cbn [negb].
  rewrite (u64_mul_small (4 * Z.of_nat k) 8) by (unfold fits; lia). rewrite !u64_mul_small by (unfold fits; lia).
  replace (4 * Z.of_nat k * 8 * 3 / 32) with (3 * Z.of_nat k) by (apply Z.div_unique_exact; lia).
  rewrite u64_add_small by (unfold fits; lia). rewrite !Z.eqb_refl. rewrite (proj2 (Z.eqb_neq (4 * Z.of_nat k) 0)) by lia. cbn [negb andb]. rewrite !andb_false_r.
  unfold find_seed_language, get_language_list. rewrite El. cbn [mbind result_bind find_loop]. rewrite (matched_words _ _ Hall), (checksum_accepted _ _ _ _ Hidx Ec Hc).
  cbn [mbind result_bind]. rewrite (checksum_accepted _ _ _ _ Hidx Ec Hc). cbn [mbind result_bind negb]. rewrite (lo_size l Hl), removelast_last, Hws.
  change (wrap 32 (Z.of_nat NWORDS)) with 1626. replace (3 * k / 3)%nat with k by (rewrite Nat.mul_comm, Nat.div_mul; lia). rewrite Hd. cbn [mbind result_bind app].
  rewrite (proj2 (Z.eqb_neq (Z.of_nat (3 * k)) _)); [rewrite andb_false_r; reflexivity|].
  assert (4 * Z.of_nat k * 3 / 32 / 2 < 3 * Z.of_nat k); [|lia]. rewrite Z.div_div by lia. apply Z.div_lt_upper_bound; lia.
Qed.

Lemma words_encoded k ws src c w : English = Returns l -> language_name l = "English"%string -> (0 < k)%nat -> length src = (4 * k)%nat ->
  encode_loop (word_list l) 1626 k src EmptyString [] = Returns (spaced ws, ws) -> create_checksum_index ws l = Returns c -> ws !! c = Some w ->
  bytes_to_words src EmptyString "English" = Returns (true, spaced ws +:+ w).
Proof using Hl.
  intros El Hn Hk Hlen Ee Ec Hc. unfold bytes_to_words. rewrite Hlen. replace (Z.of_nat (4 * k)) with (4 * Z.of_nat k) by lia.
  rewrite (proj2 (Z.eqb_eq (_ mod 4) 0)) by (rewrite Z.mul_comm; apply Z_mod_mult). rewrite (proj2 (Z.eqb_neq (4 * Z.of_nat k) 0)) by lia. cbn [negb orb].
  unfold get_language_list. rewrite El. cbn [mbind result_bind]. rewrite filter_cons_True by (left; symmetry; exact Hn). cbn [filter list_filter last]. rewrite (lo_size l Hl).
  change (wrap 32 (Z.of_nat NWORDS)) with 1626. replace (4 * k / 4)%nat with k by (rewrite Nat.mul_comm, Nat.div_mul; lia). rewrite Ee.
  cbn [mbind result_bind]. rewrite Ec. cbn [mbind result_bind]. rewrite Hc. reflexivity.
Qed.

End RoundTrip.

(** C24: A mnemonic seed gives back the key.  For any bytes whose number is a positive multiple of four, [bytes_to_words] does not fail
    and writes three English words for every four bytes and one word for the checksum; from the text
    [words_to_bytes] and, for 32 bytes, the restoring of a secret key return exactly these bytes. *)
Theorem mnemonic_roundtrip `{Crc32Laws} `{SplitLaws} (src : blob) (k : nat) :
  bytes_ok src -> length src = (4 * k)%nat -> (0 < k)%nat -> Z.of_nat k < 2 ^ 54 ->
  exists words, bytes_to_words src EmptyString "English" = Returns (true, words) /\ length (split_words words) = (3 * k + 1)%nat /\
    (forall duplicate name, words_to_bytes words [] (Z.of_nat (length src)) duplicate name = Returns (true, src, "English"%string)) /\
    (k = 8%nat -> forall dst name, words_to_key words dst name = Returns (true, src, "English"%string)).
Proof.
  intros Hs Ek Hk Hmax. destruct english_ok as (l & El & Hl & Hn & Hp). destruct (encode_spec l Hl k src EmptyString [] Hs Ek) as (ws & idx & Ee & Hws & Hidx & Hd).
  assert (Hws0 : ws <> []) by (intros ->; cbn in Hws; lia). destruct (checksum_word l Hl idx ws Hws0 Hidx) as (c & w & Ec & Hc).
  destruct (Forall2_lookup_r _ _ _ _ _ Hidx Hc) as (iw & _ & Hiw).
  pose proof (fun duplicate name => words_decoded l Hl Hp idx ws c w iw k src duplicate name El Hk Hmax Hws Hidx Hiw Ec Hc Hd) as Hdec. rewrite Hn in Hdec.
  exists (spaced ws +:+ w). split; [exact (words_encoded l Hl k ws src c w El Hn Hk Ek Ee Ec Hc)|]. split; [|split].
  - rewrite (proj1 (Hdec true EmptyString)), length_app, Hws. reflexivity.
  - intros duplicate name. rewrite Ek. replace (Z.of_nat (4 * k)) with (4 * Z.of_nat k) by lia. apply Hdec.
  - intros -> dst name. unfold words_to_key. destruct (Hdec true name) as [_ Hb]. change (4 * Z.of_nat 8) with 32 in Hb. rewrite Hb. cbn [mbind result_bind negb]. rewrite Ek. reflexivity.
Qed.

(** ** Seeds of twelve words *)

Lemma decode_triples_length n k : forall indices dst, length indices = (3 * k)%nat -> exists dst', decode_triples n k indices dst = Returns dst' /\ length dst' = (length dst + 4 * k)%nat.
Proof.
  induction k as [|k IH]; intros indices dst Hi; cbn [decode_triples]; [exists dst; split; [reflexivity|lia]|].
  destruct indices as [|w1 [|w2 [|w3 indices]]]; cbn in Hi; try lia. destruct (IH indices (dst ++ le_bytes 4 (from_words n w1 w2 w3))) as (dst' & E & Hd); [lia|].
  exists dst'. split; [exact E|]. rewrite Hd, length_app, length_le_bytes. lia.
Qed.

(** A seed of twelve words, for which the code means to duplicate the data, is never accepted as a secret key: the second
    calculation of the expected number of words divides bytes by the number of bits. *)
Theorem twelve_words_refused `{Crc32} `{SplitWords} words dst name : length (split_words words) = 12%nat ->
  exists name', words_to_key words dst name = Returns (false, dst, name').
Proof.
  intros Hw. unfold words_to_key, words_to_bytes. rewrite Hw. change (Z.of_nat 12) with 12. change ((32 ⊠ 8 ⊠ 3) / 32) with 24.
  change (negb (32 mod 4 =? 0)) with false. change (negb (32 =? 0) && _) with false. change (if 32 =? 0 then true else 12 =? 24 ⊞ 1) with false. cbv iota.
  destruct english_ok as (l & El & _). unfold find_seed_language, get_language_list. rewrite El. cbn [mbind result_bind find_loop].
  destruct (match_words l false (split_words words)) as [indices|] eqn:Em; cbn [mbind result_bind negb fmap option_fmap option_map]; [|eexists; reflexivity].
  apply mapM_Some_1, Forall2_length in Em. rewrite Hw in Em. rewrite Hw. change (12 / 3)%nat with 4%nat.
  destruct (decode_triples_length (wrap 32 (Z.of_nat (length (word_list l)))) 4 indices [] (eq_sym Em)) as (s & -> & Hs).
  cbn [mbind result_bind]. change (Z.of_nat 12 =? (32 ⊠ 3) / 32 / 2) with false. rewrite andb_false_r. cbn [negb]. rewrite Hs. eexists. reflexivity.
Qed.

Section Examples.

(** CRC-32, bit by bit. *)
Definition crc_bit (c : Z) : Z := if Z.odd c then Z.lxor (Z.shiftr c 1) 0xEDB88320 else Z.shiftr c 1.
Fixpoint crc_loop (c : Z) (s : string) : Z :=
  match s with
  | EmptyString => c
  | String a s => crc_loop (Nat.iter 8 crc_bit (Z.lxor c (Z.of_N (Ascii.N_of_ascii a)))) s
  end.
#[local] Instance model_crc : Crc32 := fun s => wrap 32 (Z.lxor (crc_loop 0xffffffff s) 0xffffffff).
#[local] Instance model_crc_laws : Crc32Laws.
Proof. intros s. apply wrap_fits. lia. Qed.

Example crc_check_value : crc_32 "123456789" = 0xCBF43926.
Proof. vm_compute. reflexivity. Qed.

(** The words between single blanks. *)
Fixpoint split_loop (word : string) (s : string) : list string :=
  match s with
  | EmptyString => [word]
  | String a s => if visible a then split_loop (word +:+ String a EmptyString) s else word :: split_loop EmptyString s
  end.
#[local] Instance model_split : SplitWords := split_loop EmptyString.

Lemma split_loop_word w : forall word s, all_visible w = true -> split_loop word (w +:+ s) = split_loop (word +:+ w) s.
Proof.
  induction w as [|a w IH]; intros word s Hw; [change (split_loop word s = split_loop (word +:+ EmptyString) s); now rewrite append_empty|]. cbn [all_visible] in Hw. apply andb_true_iff in Hw as [Ha Hw].
  change (String a w +:+ s) with (String a (w +:+ s)). cbn [split_loop]. rewrite Ha, IH, append_assoc by assumption. reflexivity.
Qed.

#[local] Instance model_split_laws : SplitLaws.
Proof.
  intros ws Hne Hws. unfold split_words, model_split. induction ws as [|w ws IH]; [congruence|]. cbn [forallb] in Hws. apply andb_true_iff in Hws as [Hw Hws].
  apply andb_true_iff in Hw as [_ Hw]. destruct ws as [|v ws].
  - cbn [String.concat]. rewrite <- (append_empty w) at 1. rewrite split_loop_word by assumption. reflexivity.
  - change (String.concat " " (w :: v :: ws)) with (w +:+ (" " +:+ String.concat " " (v :: ws))). rewrite split_loop_word by assumption.
    change (w :: split_loop EmptyString (String.concat " " (v :: ws)) = w :: v :: ws). rewrite IH by congruence. reflexivity.
Qed.

Definition example_key : blob := Eval vm_compute in Z.of_nat <$> seq 7 32.

Lemma mnemonic_roundtrip_witness :
  exists words, bytes_to_words example_key EmptyString "English" = Returns (true, words) /\ words_to_key words [] EmptyString = Returns (true, example_key, "English"%string).
Proof.
  destruct (mnemonic_roundtrip example_key 8) as (words & E & _ & _ & Hk).
  - apply (bool_decide_unpack _). vm_compute. exact I.
  - reflexivity.
  - lia.
  - reflexivity.
  - exists words. split; [exact E|]. now apply Hk.
Defined.

(** Three words can stand for a number that does not fit into four bytes. It is reduced without an error, so the
    seed is accepted and stands for the same key as another one. *)
Definition overflowing_words : string := String.concat " " (concat (replicate 8 ["zoom"; "zones"; "zombie"]%string)).
Theorem overflowing_words_accepted :
  match words_to_key overflowing_words [] EmptyString with
  | Returns (true, key, _) =>
    match bytes_to_words key EmptyString "English" with
    | Returns (true, words) => take 3 (split_words words) = ["randomly"; "distance"; "ditch"]%string
    | _ => False
    end
  | _ => False
  end.
Proof. vm_compute. reflexivity. Qed.

End Examples.

End Mnemonics.
