(* ===== verification/PeerList.v ===== *)
(** Peer lists: the addresses of [tools/epee/include/net/net_utils_base.h] and [network/type], and the white, gray and anchor lists of
    [network/p2p/net_peerlist.cpp].  Each call of the manager runs under its mutex and is one step. *)

From stdpp Require Import gmap strings sorting.
From S2P Require Import Prelude.

Module PeerList.

(** ** Addresses *)

(** [boost::asio::ip::address_v6] *)
Class V6 := {
  address_v6 : Type;
  v6_eq_dec :: EqDecision address_v6;
  v6_less : address_v6 -> address_v6 -> bool;
  v6_is_loopback : address_v6 -> bool;
  v6_is_link_local : address_v6 -> bool;
  v6_is_v4_mapped : address_v6 -> bool;
  v6_to_bytes : address_v6 -> list Z }.

Section Peers.
Context `{V6}.

(** [network_address]: nothing, or a value of one of the types; the host of an overlay network is its text. *)
Inductive network_address := no_address | ipv4 (ip port : Z) | ipv6 (ip : address_v6) (port : Z) | i2p (host : string) (port : Z) | tor (host : string) (port : Z).
#[global] Instance network_address_eq_dec : EqDecision network_address.
Proof. solve_decision. Defined.

(** The addresses are in network byte order, the first number in the lowest byte. *)
Definition is_ip_local (ip : Z) : bool :=
  if Z.lor ip 0xffffff00 =? 0xffffff0a then true else
  if Z.lor ip 0xffff0000 =? 0xffffa8c0 then true else
  if Z.lor ip 0xffffff00 =? 0xffffffac then
    let second_num := Z.land (Z.shiftr ip 8) 0xff in (second_num >=? 16) && (second_num <=? 31)
  else false.
Definition is_ip_loopback (ip : Z) : bool := Z.lor ip 0xffffff00 =? 0xffffff7f.

Definition is_loopback (a : network_address) : bool :=
  match a with ipv4 ip _ => is_ip_loopback ip | ipv6 ip _ => v6_is_loopback ip | _ => false end.
Definition is_local (a : network_address) : bool :=
  match a with ipv4 ip _ => is_ip_local ip | ipv6 ip _ => v6_is_link_local ip | _ => false end.

(** The last four bytes, as an address in network byte order. *)
Definition make_address_v4_from_v6 (a : address_v6) : Z := le_Z (take 4 (drop 12 (v6_to_bytes a))).

Definition is_same_host (a b : network_address) : bool :=
  match a, b with
  | no_address, no_address => true
  | ipv4 x _, ipv4 y _ => x =? y
  | ipv6 x _, ipv6 y _ => bool_decide (x = y)
  | i2p x _, i2p y _ => bool_decide (x = y)
  | tor x _, tor y _ => bool_decide (x = y)
  | ipv4 x _, ipv6 y _ => v6_is_v4_mapped y && (x =? make_address_v4_from_v6 y)
  | ipv6 x _, ipv4 y _ => v6_is_v4_mapped x && (y =? make_address_v4_from_v6 x)
  | _, _ => false
  end.

Definition get_type_id (a : network_address) : Z := match a with no_address => 0 | ipv4 _ _ => 1 | ipv6 _ _ => 2 | i2p _ _ => 3 | tor _ _ => 4 end.

(** The order of the index by address; [strcmp] compares the texts. *)
Definition text_less (x : string) (p : Z) (y : string) (q : Z) : bool := match String.compare x y with Lt => true | Eq => p <? q | Gt => false end.
Definition less (a b : network_address) : bool :=
  match a, b with
  | no_address, no_address => false
  | no_address, _ => true
  | _, no_address => false
  | ipv4 x p, ipv4 y q => if x =? y then p <? q else x <? y
  | ipv6 x p, ipv6 y q => if bool_decide (x = y) then p <? q else v6_less x y
  | i2p x p, i2p y q => text_less x p y q
  | tor x p, tor y q => text_less x p y q
  | _, _ => get_type_id a <? get_type_id b
  end.

(** Two addresses of which neither is less are equal, so the index has one entry for an address. *)
Lemma text_less_total x p y q : text_less x p y q = false -> text_less y q x p = false -> x = y /\ p = q.
Proof.
  unfold text_less. rewrite (String.compare_antisym y x). destruct (String.compare x y) eqn:E; cbn; try discriminate. apply String.compare_eq_iff in E as ->. intros H1 H2. split; [reflexivity|lia].
Qed.

Lemma less_total a b : (forall x y, v6_less x y = false -> v6_less y x = false -> x = y) -> less a b = false -> less b a = false -> a = b.
Proof.
  intros Hv. destruct a, b; cbn; try discriminate; try reflexivity; intros H1 H2.
  - rewrite (Z.eqb_sym ip0 ip) in H2. destruct (Z.eqb_spec ip ip0); [f_equal; lia|lia].
  - destruct (decide (ip = ip0)) as [->|E]; [rewrite bool_decide_true in H1, H2 by reflexivity; f_equal; lia|].
    rewrite bool_decide_false in H1, H2 by congruence. destruct (E (Hv _ _ H1 H2)).
  - destruct (text_less_total _ _ _ _ H1 H2) as [-> ->]. reflexivity.
  - destruct (text_less_total _ _ _ _ H1 H2) as [-> ->]. reflexivity.
Qed.

Lemma same_host_sym a b : is_same_host a b = is_same_host b a.
Proof. destruct a, b; cbn; try reflexivity; rewrite 1?Z.eqb_sym; try reflexivity; apply bool_decide_ext; split; congruence. Qed.

(** ** The lists *)

Record peerlist_entry := { adr : network_address; id : Z; last_seen : Z }.
Record anchor_peerlist_entry := { a_adr : network_address; a_id : Z; first_seen : Z }.
Record peerlist_types := { t_white : list peerlist_entry; t_gray : list peerlist_entry; t_anchor : list anchor_peerlist_entry }.

(** The containers, each in the order of its index by time; the index by address is unique. *)
Record peerlist_manager := {
  m_peers_white : list peerlist_entry; m_peers_gray : list peerlist_entry; m_peers_anchor : list anchor_peerlist_entry; m_allow_local_ip : bool }.

Definition P2P_LOCAL_WHITE_PEERLIST_LIMIT : nat := 1000.
Definition P2P_LOCAL_GRAY_PEERLIST_LIMIT : nat := 5000.

Definition with_white (l : list peerlist_entry) (m : peerlist_manager) : peerlist_manager :=
  {| m_peers_white := l; m_peers_gray := m_peers_gray m; m_peers_anchor := m_peers_anchor m; m_allow_local_ip := m_allow_local_ip m |}.
Definition with_gray (l : list peerlist_entry) (m : peerlist_manager) : peerlist_manager :=
  {| m_peers_white := m_peers_white m; m_peers_gray := l; m_peers_anchor := m_peers_anchor m; m_allow_local_ip := m_allow_local_ip m |}.
Definition with_anchor (l : list anchor_peerlist_entry) (m : peerlist_manager) : peerlist_manager :=
  {| m_peers_white := m_peers_white m; m_peers_gray := m_peers_gray m; m_peers_anchor := l; m_allow_local_ip := m_allow_local_ip m |}.

(** Where [boost::multi_index] puts a time among the times of an index. *)
Class TimeIndex := place : list Z -> Z -> nat.
Class TimeIndexLaws `{TimeIndex} : Prop :=
  placed ts t : StronglySorted Z.le ts -> Forall (fun u => u <= t) (take (place ts t) ts) /\ Forall (fun u => t <= u) (drop (place ts t) ts).

Context `{TimeIndex}.

Section Container.
Context {A : Type} (key : A -> network_address) (time : A -> Z).
Definition find_peer (a : network_address) (l : list A) : option A := snd <$> list_find (fun e => key e = a) l.
Definition insert_peer (e : A) (l : list A) : list A :=
  match find_peer (key e) l with
  | Some _ => l
  | None => let i := place (time <$> l) (time e) in take i l ++ e :: drop i l
  end.
Definition erase_peer (a : network_address) (l : list A) : list A := filter (fun e => key e <> a) l.
(** [replace] with an entry whose address and time are the old ones *)
Definition replace_peer (e : A) (l : list A) : list A := (fun x => if decide (key x = key e) then e else x) <$> l.
Definition add_peers (l : list A) (src : list A) : list A := foldl (fun l e => insert_peer e l) l src.
(** The oldest entries are erased until the limit is kept. *)
Fixpoint trim (limit : nat) (l : list A) : list A :=
  match l with
  | [] => []
  | e :: l' => if (limit <? length l)%nat then trim limit l' else l
  end.
End Container.

Definition init (peers : peerlist_types) (allow_local_ip : bool) (m : peerlist_manager) : bool * peerlist_manager :=
  match m_peers_white m, m_peers_gray m, m_peers_anchor m with
  | [], [], [] => (true, {| m_peers_white := add_peers adr last_seen [] (t_white peers); m_peers_gray := add_peers adr last_seen [] (t_gray peers);
                            m_peers_anchor := add_peers a_adr first_seen [] (t_anchor peers); m_allow_local_ip := allow_local_ip |})
  | _, _, _ => (false, m)
  end.

Definition evict_host_from_white_peerlist (pr : peerlist_entry) (m : peerlist_manager) : peerlist_manager :=
  with_white (filter (fun e => is_same_host (adr e) (adr pr) = false) (m_peers_white m)) m.
Definition trim_gray_peerlist (m : peerlist_manager) : peerlist_manager := with_gray (trim P2P_LOCAL_GRAY_PEERLIST_LIMIT (m_peers_gray m)) m.
Definition trim_white_peerlist (m : peerlist_manager) : peerlist_manager := with_white (trim P2P_LOCAL_WHITE_PEERLIST_LIMIT (m_peers_white m)) m.

Definition is_host_allowed (a : network_address) (m : peerlist_manager) : bool :=
  if is_loopback a then false else if negb (m_allow_local_ip m) && is_local a then false else true.

Definition with_last_seen (t : Z) (e : peerlist_entry) : peerlist_entry := {| adr := adr e; id := id e; last_seen := t |}.

Definition append_with_peer_white (ple : peerlist_entry) (m : peerlist_manager) : peerlist_manager :=
  if negb (is_host_allowed (adr ple) m) then m else
  let m :=
    match find_peer adr (adr ple) (m_peers_white m) with
    | None =>
        let m := evict_host_from_white_peerlist ple m in
        let m := with_white (insert_peer adr last_seen ple (m_peers_white m)) m in
        trim_white_peerlist m
    | Some old => with_white (replace_peer adr (with_last_seen (last_seen old) ple) (m_peers_white m)) m
    end in
  with_gray (erase_peer adr (adr ple) (m_peers_gray m)) m.

Definition append_with_peer_gray (ple : peerlist_entry) (m : peerlist_manager) : peerlist_manager :=
  if negb (is_host_allowed (adr ple) m) then m else
  match find_peer adr (adr ple) (m_peers_white m) with
  | Some _ => m
  | None =>
      match find_peer adr (adr ple) (m_peers_gray m) with
      | None => trim_gray_peerlist (with_gray (insert_peer adr last_seen ple (m_peers_gray m)) m)
      | Some old => with_gray (replace_peer adr (with_last_seen (last_seen old) ple) (m_peers_gray m)) m
      end
  end.

Definition append_with_peer_anchor (ple : anchor_peerlist_entry) (m : peerlist_manager) : peerlist_manager :=
  match find_peer a_adr (a_adr ple) (m_peers_anchor m) with
  | None => with_anchor (insert_peer a_adr first_seen ple (m_peers_anchor m)) m
  | Some _ => m
  end.

(** [f] is the filter, which may be missing. *)
Definition merge_peerlist (outer_bs : list peerlist_entry) (f : option (peerlist_entry -> bool)) (m : peerlist_manager) : peerlist_manager :=
  trim_gray_peerlist (foldl (fun m be => if match f with Some f => f be | None => true end then append_with_peer_gray be m else m) m outer_bs).

Definition set_peer_just_seen (peer : Z) (addr : network_address) (now : Z) (m : peerlist_manager) : peerlist_manager :=
  append_with_peer_white {| adr := addr; id := peer; last_seen := now |} m.

Definition get_white_peer_by_index (i : nat) (m : peerlist_manager) : option peerlist_entry := rev (m_peers_white m) !! i.
Definition get_gray_peer_by_index (i : nat) (m : peerlist_manager) : option peerlist_entry := rev (m_peers_gray m) !! i.
Definition get_random_gray_peer (random_index : nat) (m : peerlist_manager) : option peerlist_entry :=
  match m_peers_gray m with [] => None | l => rev l !! random_index end.

(** [shuffle] is [std::shuffle] with the random device; the times are not given away. *)
Definition get_peerlist_head (shuffle : list peerlist_entry -> list peerlist_entry) (bs_head : list peerlist_entry) (anonymize : bool) (depth : Z) (m : peerlist_manager)
    : list peerlist_entry :=
  let pick_depth := if anonymize then wrap 32 (Z.of_nat (length (m_peers_white m))) else depth in
  let bs_head := bs_head ++ take (Z.to_nat pick_depth) (rev (m_peers_white m)) in
  if anonymize then with_last_seen 0 <$> take (Z.to_nat depth) (shuffle bs_head) else bs_head.

(** The lists are copied in the order of the index by address. *)
Definition addr_order {A} (key : A -> network_address) (x y : A) : Prop := less (key y) (key x) = false.
#[local] Instance addr_order_dec {A} (key : A -> network_address) (x y : A) : Decision (addr_order key x y).
Proof. unfold addr_order. apply _. Defined.
Definition by_addr {A} (key : A -> network_address) (l : list A) : list A := merge_sort (addr_order key) l.
Definition get_peerlist (peers : peerlist_types) (m : peerlist_manager) : peerlist_types :=
  {| t_white := t_white peers ++ by_addr adr (m_peers_white m); t_gray := t_gray peers ++ by_addr adr (m_peers_gray m);
     t_anchor := t_anchor peers ++ by_addr a_adr (m_peers_anchor m) |}.

Definition remove_from_peer_white (pe : peerlist_entry) (m : peerlist_manager) : peerlist_manager := with_white (erase_peer adr (adr pe) (m_peers_white m)) m.
Definition remove_from_peer_gray (pe : peerlist_entry) (m : peerlist_manager) : peerlist_manager := with_gray (erase_peer adr (adr pe) (m_peers_gray m)) m.
Definition get_and_empty_anchor_peerlist (m : peerlist_manager) : list anchor_peerlist_entry * peerlist_manager := (m_peers_anchor m, with_anchor [] m).
Definition remove_from_peer_anchor (addr : network_address) (m : peerlist_manager) : peerlist_manager := with_anchor (erase_peer a_adr addr (m_peers_anchor m)) m.

(** ** The invariant *)

(** A container: one entry for each address, in the order of time. *)
Definition container_ok {A} (key : A -> network_address) (time : A -> Z) (l : list A) : Prop := NoDup (key <$> l) /\ StronglySorted Z.le (time <$> l).

Record peers_ok (m : peerlist_manager) : Prop := {
  po_white : container_ok adr last_seen (m_peers_white m);
  po_gray : container_ok adr last_seen (m_peers_gray m);
  po_anchor : container_ok a_adr first_seen (m_peers_anchor m);
  po_disjoint a : a ∈ adr <$> m_peers_white m -> a ∉ adr <$> m_peers_gray m;
  po_hosts a b : a ∈ adr <$> m_peers_white m -> b ∈ adr <$> m_peers_white m -> is_same_host a b = true -> a = b;
  po_allowed a : a ∈ adr <$> m_peers_white m \/ a ∈ adr <$> m_peers_gray m -> is_host_allowed a m = true;
  po_limits : (length (m_peers_white m) <= P2P_LOCAL_WHITE_PEERLIST_LIMIT)%nat /\ (length (m_peers_gray m) <= P2P_LOCAL_GRAY_PEERLIST_LIMIT)%nat }.

Section ContainerLemmas.
Context `{TL : !TimeIndexLaws} {A : Type} (key : A -> network_address) (time : A -> Z).

Lemma find_peer_None a l : find_peer key a l = None <-> a ∉ key <$> l.
Proof using.
  unfold find_peer. rewrite fmap_None, list_find_None, Forall_forall, list_elem_of_fmap. split; [intros Hn (e & -> & He); now apply (Hn e)|intros Hn e He E; apply Hn; eauto].
Qed.

Lemma find_peer_Some a l e : find_peer key a l = Some e -> key e = a /\ e ∈ l.
Proof using. unfold find_peer. rewrite fmap_Some. intros ([i x] & Hx & ->). apply list_find_Some in Hx as (Hi & Hk & _). split; [exact Hk|now apply list_elem_of_lookup_2 in Hi]. Qed.

Lemma insert_peer_perm e l : key e ∉ key <$> l -> insert_peer key time e l ≡ₚ e :: l.
Proof using. intros He. unfold insert_peer. rewrite (proj2 (find_peer_None _ _) He). rewrite <- Permutation_middle, take_drop. reflexivity. Qed.

Lemma sorted_app (l1 l2 : list Z) t : StronglySorted Z.le (l1 ++ l2) -> Forall (fun u => u <= t) l1 -> Forall (fun u => t <= u) l2 -> StronglySorted Z.le (l1 ++ t :: l2).
Proof using.
  induction l1 as [|x l1 IH]; cbn; intros Hs H1 H2; [now constructor|]. apply StronglySorted_inv in Hs as [Hs Hx]. apply Forall_cons in H1 as [Hxt H1]. constructor; [now apply IH|].
  apply Forall_app in Hx as [Hx1 Hx2]. apply Forall_app; split; [assumption|]. constructor; assumption.
Qed.

Lemma insert_peer_ok e l : container_ok key time l -> container_ok key time (insert_peer key time e l).
Proof using TL.
  intros [Hn Hs]. destruct (decide (key e ∈ key <$> l)) as [He|He].
  { unfold insert_peer. destruct (find_peer key (key e) l) eqn:E; [now split|]. now apply find_peer_None in E. }
  split; [rewrite insert_peer_perm by assumption; cbn; now constructor|]. unfold insert_peer. rewrite (proj2 (find_peer_None _ _) He).
  destruct (placed (time <$> l) (time e) Hs) as [H1 H2]. rewrite fmap_app, fmap_cons, fmap_take, fmap_drop. apply sorted_app; [now rewrite take_drop|assumption..].
Qed.

Lemma sublist_ok l l' : sublist l' l -> container_ok key time l -> container_ok key time l'.
Proof using.
  intros Hl [Hn Hs]. split; [eapply sublist_NoDup; [exact Hn|now apply fmap_sublist]|].
  clear Hn. induction Hl as [|x l1 l2 Hl IH|x l1 l2 Hl IH]; cbn in *; [constructor| |]; apply StronglySorted_inv in Hs as [Hs Hx]; [|now apply IH].
  constructor; [now apply IH|]. rewrite Forall_forall in *. intros y Hy. apply Hx. eapply elem_of_sublist; [exact Hy|]. now apply fmap_sublist.
Qed.

Lemma filter_sublist (P : A -> Prop) `{!forall x, Decision (P x)} l : sublist (filter P l) l.
Proof using. induction l as [|x l IH]; [constructor|]. rewrite filter_cons. destruct (decide (P x)); [now apply sublist_skip|now apply sublist_cons]. Qed.

Lemma trim_drop limit (l : list A) : trim limit l = drop (length l - limit) l.
Proof using.
  induction l as [|x l IH]; [now rewrite drop_nil|]. cbn [trim]. destruct (Nat.ltb_spec limit (length (x :: l))) as [Hl|Hl]; cbn [length] in *.
  - rewrite IH. replace (S (length l) - limit)%nat with (S (length l - limit)) by lia. reflexivity.
  - replace (S (length l) - limit)%nat with 0%nat by lia. reflexivity.
Qed.

Lemma trim_sublist limit (l : list A) : sublist (trim limit l) l.
Proof using. rewrite trim_drop. apply sublist_drop. Qed.

Lemma trim_length limit (l : list A) : (length (trim limit l) <= limit)%nat.
Proof using. rewrite trim_drop, length_drop. lia. Qed.

(** Replacing changes neither an address nor a time. *)
Lemma replace_same e old l : NoDup (key <$> l) -> old ∈ l -> key old = key e -> time old = time e ->
  key <$> replace_peer key e l = key <$> l /\ time <$> replace_peer key e l = time <$> l.
Proof using.
  intros Hn Ho Hk Ht. unfold replace_peer. rewrite <- !list_fmap_compose. split; apply list_fmap_ext; intros i x Hx; cbn; destruct (decide (key x = key e)) as [E|]; auto.
  apply list_elem_of_lookup_1 in Ho as [j Hj]. assert (i = j) as -> by (apply (NoDup_lookup (key <$> l) i j (key e) Hn); rewrite list_lookup_fmap; [rewrite Hx|rewrite Hj]; cbn; congruence).
  congruence.
Qed.

Lemma sublist_keys l l' a : sublist l' l -> a ∈ key <$> l' -> a ∈ key <$> l.
Proof using. intros Hl (e & -> & He)%list_elem_of_fmap. apply list_elem_of_fmap. exists e. split; [reflexivity|]. eapply elem_of_sublist; eassumption. Qed.

Lemma erase_peer_keys a b l : b ∈ key <$> erase_peer key a l <-> b ∈ key <$> l /\ b <> a.
Proof using.
  unfold erase_peer. rewrite !list_elem_of_fmap. split; [intros (e & -> & [Hk He]%list_elem_of_filter); eauto|].
  intros [(e & -> & He) Hb]. exists e. split; [reflexivity|]. now apply list_elem_of_filter.
Qed.

Lemma replaced_ok e old l : container_ok key time l -> old ∈ l -> key old = key e -> time old = time e ->
  container_ok key time (replace_peer key e l) /\ key <$> replace_peer key e l = key <$> l /\ length (replace_peer key e l) = length l.
Proof using. intros [Hn Hs] Ho Hk Ht. destruct (replace_same e old l Hn Ho Hk Ht) as [E1 E2]. unfold container_ok. rewrite E1, E2. split; [now split|]. split; [reflexivity|apply length_fmap]. Qed.

Lemma add_peers_ok src : forall l, container_ok key time l -> container_ok key time (add_peers key time l src).
Proof using TL. induction src as [|e src IH]; intros l Hl; [exact Hl|]. cbn. apply IH. now apply insert_peer_ok. Qed.

End ContainerLemmas.

Section Steps.
Context `{TL : !TimeIndexLaws}.

(** The entries of the three lists only become fewer, by address. *)
Lemma peers_shrink m w g a : peers_ok m -> container_ok adr last_seen w -> container_ok adr last_seen g -> container_ok a_adr first_seen a ->
  (forall x, x ∈ adr <$> w -> x ∈ adr <$> m_peers_white m) -> (forall x, x ∈ adr <$> g -> x ∈ adr <$> m_peers_gray m) ->
  (length w <= length (m_peers_white m))%nat -> (length g <= length (m_peers_gray m))%nat -> peers_ok (with_white w (with_gray g (with_anchor a m))).
Proof using.
  intros Hm Hw Hg Ha Hws Hgs Hlw Hlg. split; cbn; try assumption.
  - intros x Hx Hx'. exact (po_disjoint m Hm x (Hws x Hx) (Hgs x Hx')).
  - intros x y Hx Hy. exact (po_hosts m Hm x y (Hws x Hx) (Hws y Hy)).
  - intros x Hx. apply (po_allowed m Hm). destruct Hx; auto.
  - pose proof (po_limits m Hm). lia.
Qed.

Lemma remove_white_ok pe m : peers_ok m -> peers_ok (remove_from_peer_white pe m).
Proof using.
  intros Hm. pose proof (filter_sublist (fun e => adr e <> adr pe) (m_peers_white m)) as Hs. apply (peers_shrink m _ (m_peers_gray m) (m_peers_anchor m)); auto; try apply Hm.
  - eapply sublist_ok; [exact Hs|apply Hm].
  - intros x. now apply sublist_keys.
  - now apply sublist_length.
Qed.

Lemma remove_gray_ok pe m : peers_ok m -> peers_ok (remove_from_peer_gray pe m).
Proof using.
  intros Hm. pose proof (filter_sublist (fun e => adr e <> adr pe) (m_peers_gray m)) as Hs. apply (peers_shrink m (m_peers_white m) _ (m_peers_anchor m)); auto; try apply Hm.
  - eapply sublist_ok; [exact Hs|apply Hm].
  - intros x. now apply sublist_keys.
  - now apply sublist_length.
Qed.

Lemma anchor_ok a m : peers_ok m -> container_ok a_adr first_seen a -> peers_ok (with_anchor a m).
Proof using. intros Hm Ha. apply (peers_shrink m (m_peers_white m) (m_peers_gray m) a); auto; apply Hm. Qed.

Lemma append_anchor_ok ple m : peers_ok m -> peers_ok (append_with_peer_anchor ple m).
Proof using TL. intros Hm. unfold append_with_peer_anchor. destruct (find_peer _ _ _); [exact Hm|]. apply anchor_ok; [exact Hm|]. apply insert_peer_ok, Hm. Qed.

Lemma trim_gray_ok m : peers_ok m -> peers_ok (trim_gray_peerlist m).
Proof using.
  intros Hm. pose proof (trim_sublist P2P_LOCAL_GRAY_PEERLIST_LIMIT (m_peers_gray m)) as Hs. apply (peers_shrink m (m_peers_white m) _ (m_peers_anchor m)); auto; try apply Hm.
  - eapply sublist_ok; [exact Hs|apply Hm].
  - intros x. now apply sublist_keys.
  - now apply sublist_length.
Qed.

Lemma append_gray_ok ple m : peers_ok m -> peers_ok (append_with_peer_gray ple m).
Proof using TL.
  intros Hm. unfold append_with_peer_gray. destruct (is_host_allowed (adr ple) m) eqn:Ha; [|exact Hm]. cbn [negb].
  destruct (find_peer adr (adr ple) (m_peers_white m)) eqn:Ew; [exact Hm|]. apply find_peer_None in Ew.
  destruct (find_peer adr (adr ple) (m_peers_gray m)) as [old|] eqn:Eg.
  - apply find_peer_Some in Eg as [Hk Ho]. destruct (replaced_ok adr last_seen (with_last_seen (last_seen old) ple) old _ (po_gray m Hm) Ho Hk eq_refl) as (Hc & Ek & El).
    apply (peers_shrink m (m_peers_white m) (replace_peer adr (with_last_seen (last_seen old) ple) (m_peers_gray m)) (m_peers_anchor m)); auto; try apply Hm; [intros x; rewrite Ek; auto|rewrite El; lia].
  - apply find_peer_None in Eg. cbn [trim_gray_peerlist with_gray m_peers_gray]. set (g := trim P2P_LOCAL_GRAY_PEERLIST_LIMIT (insert_peer adr last_seen ple (m_peers_gray m))). pose proof (trim_sublist P2P_LOCAL_GRAY_PEERLIST_LIMIT (insert_peer adr last_seen ple (m_peers_gray m))) as Hs. fold g in Hs.
    assert (Hin : forall x, x ∈ adr <$> g -> x = adr ple \/ x ∈ adr <$> m_peers_gray m).
    { intros x Hx. apply (sublist_keys adr _ _ _ Hs) in Hx. rewrite insert_peer_perm in Hx by assumption. now apply elem_of_cons in Hx. }
    split; cbn; try apply Hm.
    + eapply sublist_ok; [exact Hs|]. apply insert_peer_ok, Hm.
    + intros a Hw Hg. destruct (Hin a Hg) as [->|Hg']; [contradiction|]. exact (po_disjoint m Hm a Hw Hg').
    + intros a [Hw|Hg]; [apply (po_allowed m Hm); auto|]. destruct (Hin a Hg) as [->|Hg']; [exact Ha|apply (po_allowed m Hm); auto].
    + split; [apply Hm|apply trim_length].
Qed.

Lemma append_white_ok ple m : peers_ok m -> peers_ok (append_with_peer_white ple m).
Proof using TL.
  intros Hm. unfold append_with_peer_white. destruct (is_host_allowed (adr ple) m) eqn:Ha; [|exact Hm]. cbn [negb]. cbv zeta.
  pose proof (filter_sublist (fun e => adr e <> adr ple) (m_peers_gray m)) as Hsg.
  assert (Hg : container_ok adr last_seen (erase_peer adr (adr ple) (m_peers_gray m))) by (eapply sublist_ok; [exact Hsg|apply Hm]).
  destruct (find_peer adr (adr ple) (m_peers_white m)) as [old|] eqn:Ew.
  - apply find_peer_Some in Ew as [Hk Ho]. destruct (replaced_ok adr last_seen (with_last_seen (last_seen old) ple) old _ (po_white m Hm) Ho Hk eq_refl) as (Hc & Ek & El).
    apply (peers_shrink m (replace_peer adr (with_last_seen (last_seen old) ple) (m_peers_white m)) (erase_peer adr (adr ple) (m_peers_gray m)) (m_peers_anchor m)); auto; try apply Hm;
      [intros x; rewrite Ek; auto|intros x; now apply sublist_keys|rewrite El; lia|now apply sublist_length].
  - apply find_peer_None in Ew. cbn [with_white evict_host_from_white_peerlist trim_white_peerlist m_peers_white m_peers_gray].
    set (kept := filter _ (m_peers_white m)). assert (Hsk : sublist kept (m_peers_white m)) by apply filter_sublist. set (w := trim P2P_LOCAL_WHITE_PEERLIST_LIMIT (insert_peer adr last_seen ple kept)).
    assert (Hsw : sublist w (insert_peer adr last_seen ple kept)) by apply trim_sublist.
    assert (Hnew : adr ple ∉ adr <$> kept) by (intros Hx; apply Ew; revert Hx; now apply sublist_keys).
    assert (Hin : forall x, x ∈ adr <$> w -> x = adr ple \/ x ∈ adr <$> m_peers_white m /\ is_same_host x (adr ple) = false).
    { intros x Hx. apply (sublist_keys adr _ _ _ Hsw) in Hx. rewrite insert_peer_perm in Hx by assumption. apply elem_of_cons in Hx as [->|Hx]; [now left|right].
      apply list_elem_of_fmap in Hx as (e & -> & [He He']%list_elem_of_filter). split; [now apply list_elem_of_fmap_2|exact He]. }
    split; cbn [with_white with_gray m_peers_white m_peers_gray m_peers_anchor]; try apply Hm; try assumption.
    + eapply sublist_ok; [exact Hsw|]. apply insert_peer_ok. eapply sublist_ok; [exact Hsk|apply Hm].
    + intros a Hw [Hx Hne]%erase_peer_keys. destruct (Hin a Hw) as [->|[Hw' _]]; [congruence|]. exact (po_disjoint m Hm a Hw' Hx).
    + intros a b Hwa Hwb Hs. destruct (Hin a Hwa) as [->|[Ha' Hna]], (Hin b Hwb) as [->|[Hb' Hnb]]; [reflexivity| | |exact (po_hosts m Hm a b Ha' Hb' Hs)].
      * rewrite same_host_sym in Hs. congruence.
      * congruence.
    + intros a [Hw|[Hx _]%erase_peer_keys]; [|apply (po_allowed m Hm); auto]. destruct (Hin a Hw) as [->|[Hw' _]]; [exact Ha|apply (po_allowed m Hm); auto].
    + split; [apply trim_length|]. etransitivity; [exact (sublist_length _ _ Hsg)|apply (po_limits m Hm)].
Qed.

(** The calls that the node makes, in any order. *)
Inductive peer_step : peerlist_manager -> peerlist_manager -> Prop :=
| step_merge bs f m : peer_step m (merge_peerlist bs f m)
| step_white e m : peer_step m (append_with_peer_white e m)
| step_gray e m : peer_step m (append_with_peer_gray e m)
| step_seen peer a now m : peer_step m (set_peer_just_seen peer a now m)
| step_anchor e m : peer_step m (append_with_peer_anchor e m)
| step_remove_white e m : peer_step m (remove_from_peer_white e m)
| step_remove_gray e m : peer_step m (remove_from_peer_gray e m)
| step_remove_anchor a m : peer_step m (remove_from_peer_anchor a m)
| step_take_anchors m : peer_step m (get_and_empty_anchor_peerlist m).2.

Lemma step_ok m m' : peer_step m m' -> peers_ok m -> peers_ok m'.
Proof using TL.
  intros [bs f m1|e m1|e m1|peer a now m1|e m1|e m1|e m1|a m1|m1] Hm; [|now apply append_white_ok|now apply append_gray_ok|now apply append_white_ok|now apply append_anchor_ok
    |now apply remove_white_ok|now apply remove_gray_ok|..].
  - apply trim_gray_ok. revert m1 Hm. induction bs as [|b bs IH]; intros m1 Hm; [exact Hm|]. cbn. apply IH. destruct (match f with Some f => f b | None => true end); [now apply append_gray_ok|exact Hm].
  - apply anchor_ok; [exact Hm|]. eapply sublist_ok; [apply filter_sublist|apply Hm].
  - apply anchor_ok; [exact Hm|]. split; constructor.
Qed.

Lemma step_flag m m' : peer_step m m' -> m_allow_local_ip m' = m_allow_local_ip m.
Proof using.
  assert (Hg : forall e m, m_allow_local_ip (append_with_peer_gray e m) = m_allow_local_ip m) by (intros e m0; unfold append_with_peer_gray; repeat case_match; reflexivity).
  assert (Hw : forall e m, m_allow_local_ip (append_with_peer_white e m) = m_allow_local_ip m) by (intros e m0; unfold append_with_peer_white; repeat case_match; reflexivity).
  intros [bs f m1|e m1|e m1|peer a now m1|e m1|e m1|e m1|a m1|m1]; try reflexivity; try apply Hg; try apply Hw.
  - cbn. revert m1. induction bs as [|b bs IH]; intros m1; [reflexivity|]. cbn. rewrite IH. destruct (match f with Some f => f b | None => true end); [apply Hg|reflexivity].
  - unfold append_with_peer_anchor. case_match; reflexivity.
Qed.

End Steps.

Definition same_entries (m : peerlist_manager) (peers : peerlist_types) : Prop :=
  t_white peers ≡ₚ m_peers_white m /\ t_gray peers ≡ₚ m_peers_gray m /\ t_anchor peers ≡ₚ m_peers_anchor m.

Lemma add_peers_perm {A} (key : A -> network_address) time src : forall l, NoDup (key <$> l ++ src) -> add_peers key time l src ≡ₚ l ++ src.
Proof.
  induction src as [|e src IH]; intros l Hn; [now rewrite app_nil_r|]. cbn.
  assert (He : key e ∉ key <$> l). { rewrite fmap_app, NoDup_app in Hn. destruct Hn as (_ & Hd & _). intros Hx. apply (Hd _ Hx). cbn. constructor. }
  pose proof (insert_peer_perm key time e l He) as Hp. etransitivity; [apply IH|].
  - rewrite Hp. cbn. rewrite fmap_app in *. cbn in *. now rewrite <- Permutation_middle in Hn.
  - rewrite Hp. cbn. apply Permutation_middle.
Qed.

Lemma restored_ok `{!TimeIndexLaws} m peers m0 : peers_ok m -> same_entries m peers -> m_peers_white m0 = [] -> m_peers_gray m0 = [] -> m_peers_anchor m0 = [] ->
  exists m', init peers (m_allow_local_ip m) m0 = (true, m') /\ peers_ok m' /\ same_entries m' peers.
Proof.
  intros Hm (Pw & Pg & Pa) Ew Eg Ea. unfold init. rewrite Ew, Eg, Ea. eexists. split; [reflexivity|].
  assert (Hc : forall A (key : A -> network_address) time l src, container_ok key time l -> src ≡ₚ l -> container_ok key time (add_peers key time [] src) /\ add_peers key time [] src ≡ₚ src).
  { intros A key time l src [Hn _] Hp. split; [apply add_peers_ok; split; constructor|]. apply add_peers_perm. cbn. now rewrite Hp. }
  destruct (Hc _ adr last_seen _ _ (po_white m Hm) Pw) as [Hw1 Hw2], (Hc _ adr last_seen _ _ (po_gray m Hm) Pg) as [Hg1 Hg2], (Hc _ a_adr first_seen _ _ (po_anchor m Hm) Pa) as [Ha1 Ha2].
  split; [|now split_and!].
  assert (Kw : adr <$> add_peers adr last_seen [] (t_white peers) ≡ₚ adr <$> m_peers_white m) by now rewrite Hw2, Pw.
  assert (Kg : adr <$> add_peers adr last_seen [] (t_gray peers) ≡ₚ adr <$> m_peers_gray m) by now rewrite Hg2, Pg.
  split; cbn; try assumption.
  - intros a. rewrite Kw, Kg. apply (po_disjoint m Hm).
  - intros a b. rewrite Kw. apply (po_hosts m Hm).
  - intros a. rewrite Kw, Kg. apply (po_allowed m Hm).
  - rewrite Hw2, Hg2, Pw, Pg. apply Hm.
Qed.

Definition no_types : peerlist_types := {| t_white := []; t_gray := []; t_anchor := [] |}.

Lemma copied_entries m : same_entries m (get_peerlist no_types m).
Proof. split_and!; apply merge_sort_Permutation. Qed.

Definition no_peers (allow_local_ip : bool) : peerlist_manager := {| m_peers_white := []; m_peers_gray := []; m_peers_anchor := []; m_allow_local_ip := allow_local_ip |}.

Lemma no_peers_ok b : peers_ok (no_peers b).
Proof.
  split; cbn; [split; constructor..|intros a Hx; inversion Hx|intros a c Hx; inversion Hx|intros a [Hx|Hx]; inversion Hx|].
  unfold P2P_LOCAL_WHITE_PEERLIST_LIMIT, P2P_LOCAL_GRAY_PEERLIST_LIMIT. lia.
Qed.

(** C26: The lists of peers stay consistent.  After any sequence of calls from an empty manager, each list has one entry for an address, in
    the order of the times; the white and the gray list have no address in common and at most 1000 and 5000 entries; no two white peers are on the same
    host, also when one address is the IPv6 form of the other; no loopback address is in them, and no
    local one unless these are allowed.  When the lists are copied and a new manager is started with the
    copy, it has the same entries and is consistent again.  (A start with any other stored list is not among the calls.) *)
Theorem peer_lists_consistent `{!TimeIndexLaws} (allow_local_ip : bool) (m : peerlist_manager) : rtc peer_step (no_peers allow_local_ip) m ->
  peers_ok m /\ m_allow_local_ip m = allow_local_ip /\
  exists m', init (get_peerlist no_types m) allow_local_ip (no_peers allow_local_ip) = (true, m') /\ peers_ok m' /\
    m_peers_white m' ≡ₚ m_peers_white m /\ m_peers_gray m' ≡ₚ m_peers_gray m /\ m_peers_anchor m' ≡ₚ m_peers_anchor m.
Proof.
  intros Hr. assert (peers_ok m /\ m_allow_local_ip m = allow_local_ip) as [Hm Ef].
  { refine (rtc_ind_r (fun m => peers_ok m /\ m_allow_local_ip m = allow_local_ip) (no_peers allow_local_ip) _ _ m Hr); [split; [apply no_peers_ok|reflexivity]|].
    intros x y _ Hs [Hx Ex]. split; [exact (step_ok x y Hs Hx)|]. rewrite (step_flag x y Hs). exact Ex. }
  split; [exact Hm|]. split; [exact Ef|]. destruct (copied_entries m) as (Pw & Pg & Pa).
  destruct (restored_ok m (get_peerlist no_types m) (no_peers allow_local_ip) Hm (conj Pw (conj Pg Pa)) eq_refl eq_refl eq_refl) as (m' & E & Hm' & Qw & Qg & Qa).
  exists m'. split; [rewrite <- Ef at 1; exact E|]. split; [exact Hm'|]. now rewrite <- Qw, <- Qg, <- Qa.
Qed.

(** What a peer tells about a known address does not change when it was last seen. *)
Lemma merge_keeps_times e m old : find_peer adr (adr e) (m_peers_gray m) = Some old -> NoDup (adr <$> m_peers_gray m) ->
  last_seen <$> m_peers_gray (append_with_peer_gray e m) = last_seen <$> m_peers_gray m.
Proof.
  intros Eo Hn. unfold append_with_peer_gray. destruct (is_host_allowed _ _); [|reflexivity]. cbn [negb]. destruct (find_peer adr (adr e) (m_peers_white m)); [reflexivity|]. rewrite Eo.
  apply find_peer_Some in Eo as [Hk Ho]. exact (proj2 (replace_same adr last_seen (with_last_seen (last_seen old) e) old _ Hn Ho Hk eq_refl)).
Qed.

(** A white peer that has just been seen keeps its old time: [append_with_peer_white] does not know that this time can be trusted. *)
Theorem just_seen_not_recorded peer a now m old : find_peer adr a (m_peers_white m) = Some old -> NoDup (adr <$> m_peers_white m) ->
  last_seen <$> m_peers_white (set_peer_just_seen peer a now m) = last_seen <$> m_peers_white m.
Proof.
  intros Eo Hn. unfold set_peer_just_seen, append_with_peer_white. destruct (is_host_allowed _ _); [|reflexivity]. cbn [negb adr]. rewrite Eo.
  apply find_peer_Some in Eo as [Hk Ho]. exact (proj2 (replace_same adr last_seen (with_last_seen (last_seen old) {| adr := a; id := peer; last_seen := now |}) old _ Hn Ho Hk eq_refl)).
Qed.

End Peers.

Section Examples.

(** Addresses as numbers of 128 bits. *)
#[local] Instance model_v6 : V6 := {|
  address_v6 := Z; v6_eq_dec := Z.eq_dec; v6_less := Z.ltb; v6_is_loopback x := x =? 1; v6_is_link_local x := Z.shiftr x 118 =? 0x3fa;
  v6_is_v4_mapped x := Z.shiftr x 32 =? 0xffff; v6_to_bytes x := rev (le_bytes 16 x) |}.
(** After the entries with the same time. *)
Fixpoint last_place (ts : list Z) (t : Z) : nat := match ts with [] => O | u :: ts => if u <=? t then S (last_place ts t) else O end.
#[local] Instance model_place : TimeIndex := last_place.
#[local] Instance model_place_laws : TimeIndexLaws.
Proof.
  intros ts t Hs. unfold place, model_place. induction Hs as [|u ts Hs IH Hu]; cbn; [split; constructor|].
  destruct (Z.leb_spec u t); cbn; [split; [constructor; [lia|]|]; apply IH|]. split; [constructor|]. constructor; [lia|]. eapply Forall_impl; [exact Hu|]. cbn. intros. lia.
Qed.

Definition peer (ip : Z) (t : Z) : peerlist_entry := {| adr := ipv4 ip 1080; id := 7; last_seen := t |}.
(** 8.8.8.8, in both forms, 9.9.9.9, and an address of the local network. *)
Definition mapped_peer : peerlist_entry := {| adr := ipv6 (Z.shiftl 0xffff 32 + 0x08080808) 1081; id := 8; last_seen := 30 |}.
Definition example_peers : peerlist_manager :=
  append_with_peer_white mapped_peer (append_with_peer_white (peer 0x08080808 20) (merge_peerlist [peer 0x08080808 10; peer 0x09090909 11; peer 0x0100a8c0 12] None (no_peers false))).

Example example_lists :
  bool_decide (adr <$> m_peers_white example_peers = [adr mapped_peer]) && bool_decide (adr <$> m_peers_gray example_peers = [ipv4 0x09090909 1080]) = true.
Proof. vm_compute. reflexivity. Qed.

Lemma peer_lists_consistent_witness : rtc peer_step (no_peers false) example_peers /\ peers_ok example_peers.
Proof.
  assert (Hr : rtc peer_step (no_peers false) example_peers) by (eapply rtc_l; [apply step_merge|]; eapply rtc_l; [apply step_white|]; apply rtc_once, step_white).
  split; [exact Hr|]. exact (proj1 (peer_lists_consistent false example_peers Hr)).
Defined.

End Examples.

End PeerList.
