(* ===== verification/SanityCheck.v ===== *)
(** The sanity check of the rings of a transaction that a wallet asks the node to relay: [cryptonote/tx/functional/tx_check.cpp]. *)

From stdpp Require Import gmap sorting.
From S2P Require Import Prelude Hash Config Difficulty Varint Serialization Primality Group ModelGroup Key RctOps VectorOps InnerProduct Bulletproof BulletproofComplete Clsag RctTypes TxTypes Consensus Coinbase FormatUtils TxExtra RingCT TxUtils BlockQueue PoolTable TxPool TxPoolInv BlockTemplate ChainDb ChainDbInv LmdbTxn TxCheck Blockchain TxBuild.

Module SanityCheck.
Import Config RctTypes TxTypes Coinbase FormatUtils Blockchain.

(** The ring members of the hidden inputs, and how many are named. *)
Definition collect_input (st : gset Z * Z) (i : txin_v) : gset Z * Z :=
  let '(rct_indices, n_indices) := st in
  match i with
  | txin_from_key x =>
      if negb (in_amount x =? 0) then st else
      (list_to_set (relative_output_offsets_to_absolute (output_relative_offsets x)) ∪ rct_indices, n_indices ⊞ Z.of_nat (length (output_relative_offsets x)))
  | txin_gen _ => st
  end.
Definition collect_indices (vin : list txin_v) : gset Z * Z := foldl collect_input (∅, 0) vin.

(** [rct_tx_sanity_check] of the indices *)
Definition indices_sane (rct_indices : gset Z) (n_indices rct_outs_available : Z) : bool :=
  if n_indices <=? 10 then true else
  if rct_outs_available <? 10000 then true else
  if Z.of_nat (size rct_indices) <? (n_indices ⊠ 8) / 10 then false else
  let offsets := elements rct_indices in
  if median offsets <? (rct_outs_available ⊠ 6) / 10 then false else true.

Definition rct_tx_sanity_check `{UndefinedShift} (init : rctData) (tx_blob : blob) (rct_outs_available : Z) : bool :=
  match maybe_tx_from_blob init tx_blob with
  | None => false
  | Some tx =>
      if is_coinbase tx then false else
      let '(rct_indices, n_indices) := collect_indices (vin (prefix tx)) in
      indices_sane rct_indices n_indices rct_outs_available
  end.

Lemma tail_counted (l : list Z) (k : nat) (t : Z) : StronglySorted Z.le l -> (k < length l)%nat -> t <= nth k l 0 -> (length l - k <= length (filter (fun x => (t <= x)%Z) l))%nat.
Proof.
  intros Hs. revert k. induction Hs as [|x l Hs IH Hx]; intros k Hk Ht; [cbn in Hk; lia|]. rewrite Forall_forall in Hx. rewrite filter_cons. destruct k as [|k]; cbn in Ht.
  - rewrite decide_True by assumption. cbn [length]. destruct l as [|y l]; [cbn; lia|]. specialize (IH 0%nat). cbn [length nth] in *.
    assert (x <= y) by (apply Hx; constructor). specialize (IH ltac:(lia) ltac:(lia)). lia.
  - cbn [length] in *. specialize (IH k ltac:(lia) Ht). destruct (decide (t <= x)); cbn [length]; lia.
Qed.

(** A transaction that passes is no coinbase transaction; with more than ten ring members and enough outputs on the chain, at least four
    fifths of the members it names are distinct, and at least half of the distinct ones are among the newest two fifths of the outputs. *)
Theorem sane_rings_recent `{UndefinedShift} (init : rctData) (tx_blob : blob) (available : Z) : fits 60 available -> rct_tx_sanity_check init tx_blob available = true ->
  exists tx, maybe_tx_from_blob init tx_blob = Some tx /\ is_coinbase tx = false /\
    let '(indices, n) := collect_indices (vin (prefix tx)) in
    n < 2 ^ 60 -> 10 < n -> 10000 <= available ->
    n * 8 / 10 <= Z.of_nat (size indices) /\
    (size indices - size indices / 2 <= length (filter (fun x => (available * 6 / 10 <= x)%Z) (elements indices)))%nat.
Proof.
  unfold fits. intros Ha Hc. unfold rct_tx_sanity_check in Hc. destruct (maybe_tx_from_blob init tx_blob) as [tx|]; [|discriminate]. exists tx. split; [reflexivity|].
  destruct (is_coinbase tx); [discriminate|]. split; [reflexivity|]. destruct (collect_indices (vin (prefix tx))) as [indices n]. intros Hn H10 Hav.
  unfold indices_sane in Hc. rewrite (proj2 (Z.leb_gt _ _)), (proj2 (Z.ltb_ge _ _)) in Hc by assumption. rewrite !u64_mul_small in Hc by (unfold fits; lia).
  destruct (Z.ltb_spec (Z.of_nat (size indices)) (n * 8 / 10)) as [|Hu]; [discriminate|]. split; [exact Hu|].
  destruct (Z.ltb_spec (median (elements indices)) (available * 6 / 10)) as [|Hm]; [discriminate|]. unfold median in Hm.
  pose proof (merge_sort_Permutation Z.le (elements indices)) as Hp. assert (Hl : length (elements indices) = size indices) by reflexivity.
  assert (Hpos : 0 < n * 8 / 10) by (assert (1 <= n * 8 / 10) by (apply Z.div_le_lower_bound; lia); lia).
  rewrite <- Hl. rewrite <- (Permutation_length Hp) at 1 2. rewrite <- (Permutation_length (filter_Permutation _ _ _ Hp)).
  apply tail_counted; [|rewrite (Permutation_length Hp), Hl; apply Nat.div_lt; lia|now rewrite (Permutation_length Hp)].
  apply (StronglySorted_merge_sort Z.le).
Qed.

End SanityCheck.
