(* ===== verification/MoneyText.v ===== *)
(** Amounts as text: [parse_amount] and [print_money] of [cryptonote/basic/controller/format_utils.cpp].  A text is the list of its
    character codes; the position of the decimal point, an atomic variable of the program, ip an argument.  Boost's
    [trim] and [lexical_cast] are parameters. *)

From stdpp Require Import list.
From S2P Require Import Prelude.

Module MoneyText.

(** [boost::algorithm::trim]; a text without white space is not changed. *)
Class Trim := trim_text : blob -> blob.
Class TrimLaws `{Trim} : Prop := trim_visible s : Forall (fun c => 32 < c < 127) s -> trim_text s = s.

(** [boost::lexical_cast<uint64_t>]: the value of a number in digits, if it fits. *)
Class LexicalCast := lexical_cast : blob -> option Z.
Definition code (d : Z) : Z := 48 + d.
Class LexicalCastLaws `{LexicalCast} : Prop :=
  cast_digits ds : ds <> [] -> digits_ok 10 ds -> lexical_cast (code <$> ds) = if be_val 10 ds <? 2 ^ 64 then Some (be_val 10 ds) else None.

Definition isdigit (c : Z) : bool := (48 <=? c) && (c <=? 57).

(** The position of a character; [find_last_not_of] and [erase], which keep the text up to the last other character. *)
Fixpoint find_first_of (c : Z) (s : blob) : option nat :=
  match s with [] => None | x :: s => if x =? c then Some O else S <$> find_first_of c s end.
Fixpoint erase_trailing (c : Z) (s : blob) : blob :=
  match s with
  | [] => []
  | x :: s => match erase_trailing c s with [] => if x =? c then [] else [x] | r => x :: r end
  end.

(** [std::to_string] of 64 bits: at most twenty digits *)
Fixpoint to_string_loop (fuel : nat) (x : Z) (acc : blob) : blob :=
  match fuel with
  | O => acc
  | S fuel => let acc := code (x mod 10) :: acc in if x <? 10 then acc else to_string_loop fuel (x / 10) acc
  end.
Definition to_string (x : Z) : blob := to_string_loop 20 x [].

Section Amounts.
Context `{Trim} `{LexicalCast}.
Context (default_decimal_point : nat).

(** [get_xtype_from_string] of [uint64_t] *)
Definition get_xtype_from_string (str_id : blob) : option Z := if forallb isdigit str_id then lexical_cast str_id else None.

(** The loop that drops zeros after the last digit that counts; [s.back()] of the empty text is undefined, but the point is in the text. *)
Fixpoint drop_zeros (fraction_size : nat) (s : blob) : nat * blob :=
  match fraction_size with
  | O => (O, s)
  | S n => if (default_decimal_point <? fraction_size)%nat && bool_decide (last s = Some 48) then drop_zeros n (removelast s) else (fraction_size, s)
  end.

Definition parse_amount (str_amount : blob) : option Z :=
  let str_amount := trim_text str_amount in
  '(fraction_size, str_amount) ←
    match find_first_of 46 str_amount with
    | Some point_index =>
        let '(fraction_size, str_amount) := drop_zeros (length str_amount - point_index - 1) str_amount in
        if (default_decimal_point <? fraction_size)%nat then None else Some (fraction_size, delete point_index str_amount)
    | None => Some (O, str_amount)
    end;
  match str_amount with
  | [] => None
  | _ => get_xtype_from_string (if (fraction_size <? default_decimal_point)%nat then str_amount ++ replicate (default_decimal_point - fraction_size) 48 else str_amount)
  end.

(** [None] is the argument -1. *)
Definition insert_money_decimal_point (x : blob) (decimal_point : option nat) : blob :=
  let decimal_point := default default_decimal_point decimal_point in
  let s := if (length x <? decimal_point + 1)%nat then replicate (decimal_point + 1 - length x) 48 ++ x else x in
  if (0 <? decimal_point)%nat then take (length s - decimal_point) s ++ 46 :: drop (length s - decimal_point) s else s.
Definition print_money_64 (amount : Z) (decimal_point : option nat) : blob := insert_money_decimal_point (to_string amount) decimal_point.
Definition print_money (amount : Z) (decimal_point : option nat) : blob := erase_trailing 46 (erase_trailing 48 (print_money_64 amount decimal_point)).

End Amounts.

(** [set_default_decimal_point]: the new value. *)
Definition set_default_decimal_point (decimal_point : nat) : result nat :=
  match decimal_point with 11 | 9 | 6 | 3 | 0 => Returns decimal_point | _ => Throws end%nat.

(** ** Texts *)

Lemma erase_trailing_app c a x b : x <> c -> erase_trailing c (a ++ x :: b) = a ++ x :: erase_trailing c b.
Proof.
  intros Hx. induction a as [|y a IH]; cbn [app erase_trailing].
  - destruct (erase_trailing c b); [now rewrite (proj2 (Z.eqb_neq _ _))|reflexivity].
  - rewrite IH. now destruct a.
Qed.

Lemma erase_trailing_rest c s : exists n, s = erase_trailing c s ++ replicate n c.
Proof.
  induction s as [|x s [n IH]]; [exists O; reflexivity|]. cbn [erase_trailing]. destruct (erase_trailing c s) as [|y r] eqn:E.
  - destruct (Z.eqb_spec x c) as [->|]; [exists (S n)|exists n]; cbn; now f_equal.
  - exists n. cbn in *. now f_equal.
Qed.

Lemma find_first_of_app c a b : Forall (fun x => x <> c) a -> find_first_of c (a ++ c :: b) = Some (length a).
Proof. induction 1 as [|x a Hx _ IH]; cbn; [now rewrite Z.eqb_refl|]. rewrite (proj2 (Z.eqb_neq _ _)) by assumption. now rewrite IH. Qed.

Lemma find_first_of_None c a : Forall (fun x => x <> c) a -> find_first_of c a = None.
Proof. induction 1 as [|x a Hx _ IH]; cbn; [reflexivity|]. rewrite (proj2 (Z.eqb_neq _ _)) by assumption. now rewrite IH. Qed.

Lemma codes_not_point ds : digits_ok 10 ds -> Forall (fun c => c <> 46) (code <$> ds).
Proof. intros Hd. apply Forall_fmap. eapply Forall_impl; [exact Hd|]. unfold code. cbn. lia. Qed.

Lemma codes_digits ds : digits_ok 10 ds -> forallb isdigit (code <$> ds) = true.
Proof. intros Hd. apply forallb_forall. intros c Hc%list_elem_of_In. apply list_elem_of_fmap in Hc as (d & -> & Hd'). unfold digits_ok in Hd. rewrite Forall_forall in Hd. specialize (Hd d Hd'). unfold isdigit, code. lia. Qed.

Lemma codes_visible ds : digits_ok 10 ds -> Forall (fun c => 32 < c < 127) (code <$> ds).
Proof. intros Hd. apply Forall_fmap. eapply Forall_impl; [exact Hd|]. unfold code. cbn. lia. Qed.

(** The digits of a number have its value. *)
Lemma to_string_loop_spec fuel : forall x acc, 0 <= x < 10 ^ Z.of_nat fuel -> (0 < fuel)%nat ->
  exists ds, to_string_loop fuel x acc = (code <$> ds) ++ acc /\ ds <> [] /\ digits_ok 10 ds /\ be_val 10 ds = x.
Proof.
  induction fuel as [|fuel IH]; intros x acc Hx Hf; [lia|]. cbn [to_string_loop]. pose proof (Z.mod_pos_bound x 10 ltac:(lia)) as Hm. destruct (Z.ltb_spec x 10) as [Hs|Hs].
  - exists [x]. rewrite (Z.mod_small x 10) by lia. split_and!; try reflexivity; [discriminate|constructor; [lia|constructor]|cbn; lia].
  - destruct fuel as [|fuel]; [cbn in Hx; lia|]. destruct (IH (x / 10) (code (x mod 10) :: acc)) as (ds & E & Hne & Hd & Hv); [|lia|].
    { split; [apply Z.div_pos; lia|]. apply Z.div_lt_upper_bound; [lia|]. rewrite <- pow_S. lia. }
    exists (ds ++ [x mod 10]). rewrite E. split_and!.
    + rewrite fmap_app, <- app_assoc. reflexivity.
    + intros Ec. apply app_eq_nil in Ec as [_ Ec]. discriminate Ec.
    + apply Forall_app. split; [exact Hd|]. constructor; [lia|constructor].
    + unfold be_val in *. rewrite reverse_app. cbn [reverse rev_append app le_val]. change (reverse [x mod 10]) with [x mod 10]. cbn [app le_val]. rewrite Hv. pose proof (Z.div_mod x 10 ltac:(lia)). lia.
Qed.

Lemma to_string_spec x : fits 64 x -> exists ds, to_string x = code <$> ds /\ ds <> [] /\ digits_ok 10 ds /\ be_val 10 ds = x.
Proof.
  unfold fits. intros Hx. destruct (to_string_loop_spec 20 x []) as (ds & E & Hd); [assert (2 ^ 64 < 10 ^ Z.of_nat 20) by reflexivity; lia|lia|].
  exists ds. split; [|exact Hd]. unfold to_string. now rewrite E, app_nil_r.
Qed.

Lemma be_val_zeros n ds : be_val 10 (replicate n 0 ++ ds) = be_val 10 ds.
Proof. unfold be_val. rewrite reverse_app, reverse_replicate, le_val_app. assert (E : le_val 10 (replicate n 0) = 0) by (induction n as [|n IH]; cbn; [reflexivity|now rewrite IH]). rewrite E. lia. Qed.

(** The digits that are printed, with zeros in front: an integral part and [point] digits after it. *)
Lemma padded_digits point x : fits 64 x -> exists ip fs,
  insert_money_decimal_point point (to_string x) None = (if (0 <? point)%nat then (code <$> ip) ++ 46 :: (code <$> fs) else code <$> ip) /\
  ip <> [] /\ length fs = point /\ digits_ok 10 (ip ++ fs) /\ be_val 10 (ip ++ fs) = x.
Proof.
  intros Hx. destruct (to_string_spec x Hx) as (ds & -> & Hne & Hd & Hv). unfold insert_money_decimal_point. cbn [default]. rewrite length_fmap.
  set (ps := replicate (point + 1 - length ds) 0 ++ ds). assert (Hps : digits_ok 10 ps /\ be_val 10 ps = x /\ (point < length ps)%nat).
  { unfold ps. split; [apply Forall_app; split; [apply Forall_replicate; lia|exact Hd]|]. rewrite be_val_zeros. split; [exact Hv|]. rewrite length_app, length_replicate. destruct ds; [congruence|]. cbn [length]. lia. }
  assert (Es : (if (length ds <? point + 1)%nat then replicate (point + 1 - length ds) 48 ++ (code <$> ds) else code <$> ds) = code <$> ps).
  { unfold ps. rewrite fmap_app, fmap_replicate. change (code 0) with 48. destruct (Nat.ltb_spec (length ds) (point + 1)); [reflexivity|]. now replace (point + 1 - length ds)%nat with O by lia. }
  rewrite Es, length_fmap. destruct Hps as (Hok & Hval & Hlen). exists (take (length ps - point) ps), (drop (length ps - point) ps).
  rewrite take_drop, length_drop, <- fmap_take, <- fmap_drop. split; [|split_and!; auto; [|lia]].
  - destruct (Nat.ltb_spec 0 point); [reflexivity|]. rewrite take_ge by lia. reflexivity.
  - intros E. apply (f_equal length) in E. rewrite length_take in E. cbn in E. lia.
Qed.

Section RoundTrip.
Context `{TL : TrimLaws} `{LL : LexicalCastLaws} (point : nat).

(** A text of digits, with the point and fewer digits after it than [point], is the number of all of them. *)
Lemma parse_fraction ip fs : ip <> [] -> digits_ok 10 (ip ++ fs) -> (length fs <= point)%nat -> be_val 10 (ip ++ fs ++ replicate (point - length fs) 0) < 2 ^ 64 ->
  parse_amount point ((code <$> ip) ++ 46 :: (code <$> fs)) = Some (be_val 10 (ip ++ fs ++ replicate (point - length fs) 0)).
Proof using TL LL.
  intros Hne Hd Hl Hv. apply Forall_app in Hd as [Hi Hf]. unfold parse_amount.
  rewrite trim_visible by (apply Forall_app; split; [now apply codes_visible|constructor; [lia|now apply codes_visible]]).
  rewrite find_first_of_app by now apply codes_not_point. rewrite length_app. cbn [length]. rewrite !length_fmap.
  replace (length ip + S (length fs) - length ip - 1)%nat with (length fs) by lia.
  assert (Ez : forall s, drop_zeros point (length fs) s = (length fs, s)).
  { intros s. destruct (length fs) as [|n]; [reflexivity|]. cbn [drop_zeros]. rewrite (proj2 (Nat.ltb_ge point (S n))) by lia. reflexivity. }
  rewrite Ez, (proj2 (Nat.ltb_ge point (length fs))) by lia. cbn [mbind option_bind].
  assert (Edel : delete (length ip) ((code <$> ip) ++ 46 :: (code <$> fs)) = code <$> (ip ++ fs)).
  { rewrite <- (length_fmap code ip). rewrite delete_middle. now rewrite fmap_app. }
  rewrite Edel. destruct (code <$> ip ++ fs) as [|c cs] eqn:Ec; [destruct ip; [congruence|discriminate]|]. rewrite <- Ec.
  replace (if (length fs <? point)%nat then _ else _) with (code <$> (ip ++ fs ++ replicate (point - length fs) 0)).
  2: { destruct (Nat.ltb_spec (length fs) point); rewrite !fmap_app, ?fmap_replicate; [now rewrite app_assoc|]. replace (point - length fs)%nat with O by lia. cbn. now rewrite app_nil_r. }
  assert (Hall : digits_ok 10 (ip ++ fs ++ replicate (point - length fs) 0)) by (repeat (apply Forall_app; split; auto); apply Forall_replicate; lia).
  unfold get_xtype_from_string. rewrite codes_digits by assumption. rewrite cast_digits; [|intros E; now apply app_eq_nil in E|assumption]. now rewrite (proj2 (Z.ltb_lt _ _)).
Qed.

(** The same without a point. *)
Lemma parse_integral ip : ip <> [] -> digits_ok 10 ip -> be_val 10 (ip ++ replicate point 0) < 2 ^ 64 ->
  parse_amount point (code <$> ip) = Some (be_val 10 (ip ++ replicate point 0)).
Proof using TL LL.
  intros Hne Hi Hv. unfold parse_amount. rewrite trim_visible by now apply codes_visible. rewrite find_first_of_None by now apply codes_not_point. cbn [mbind option_bind].
  destruct (code <$> ip) as [|c cs] eqn:Ec; [destruct ip; [congruence|discriminate]|]. rewrite <- Ec. rewrite Nat.sub_0_r.
  replace (if (0 <? point)%nat then _ else _) with (code <$> (ip ++ replicate point 0)).
  2: { rewrite fmap_app, fmap_replicate. destruct (Nat.ltb_spec 0 point); [reflexivity|]. replace point with O by lia. cbn. now rewrite app_nil_r. }
  unfold get_xtype_from_string. assert (Hall : digits_ok 10 (ip ++ replicate point 0)) by (apply Forall_app; split; [assumption|apply Forall_replicate; lia]).
  rewrite codes_digits by assumption. rewrite cast_digits; [|intros E; now apply app_eq_nil in E|assumption]. now rewrite (proj2 (Z.ltb_lt _ _)).
Qed.

End RoundTrip.

(** What printing leaves of the digits after the point. *)
Lemma erase_zeros fs : digits_ok 10 fs -> exists fs' n, erase_trailing 48 (code <$> fs) = code <$> fs' /\ fs = fs' ++ replicate n 0.
Proof.
  induction 1 as [|d fs Hd _ (fs' & n & E & Efs)]; [exists [], O; auto|]. rewrite fmap_cons. cbn [erase_trailing]. rewrite E. destruct fs' as [|d' fs']; cbn [fmap list_fmap].
  - destruct (Z.eqb_spec (code d) 48) as [Hc|Hc]; [exists [], (S n)|exists [d], n]; (split; [reflexivity|]); cbn; rewrite Efs; [|reflexivity]. unfold code in Hc. replace d with 0 by lia. reflexivity.
  - exists (d :: d' :: fs'), n. split; [reflexivity|]. now rewrite Efs.
Qed.

Lemma erase_none c a : Forall (fun x => x <> c) a -> erase_trailing c a = a.
Proof. induction 1 as [|x a Hx _ IH]; cbn; [reflexivity|]. rewrite IH. destruct a; [now rewrite (proj2 (Z.eqb_neq _ _))|reflexivity]. Qed.

Lemma erase_last c a : erase_trailing c (a ++ [c]) = erase_trailing c a.
Proof. induction a as [|x a IH]; cbn; [now rewrite Z.eqb_refl|]. now rewrite IH. Qed.

(** The shortened text: without the point when no digit follows it. *)
Lemma printed_form point x : (0 < point)%nat -> fits 64 x -> exists ip fs n,
  print_money point x None = (match fs with [] => code <$> ip | _ => (code <$> ip) ++ 46 :: (code <$> fs) end) /\
  ip <> [] /\ (length fs + n = point)%nat /\ digits_ok 10 (ip ++ fs) /\ be_val 10 (ip ++ fs ++ replicate n 0) = x.
Proof.
  intros Hp Hx. destruct (padded_digits point x Hx) as (ip & fs0 & E & Hne & Hl & Hd & Hv). unfold print_money, print_money_64. rewrite E, (proj2 (Nat.ltb_lt 0 point)) by assumption.
  apply Forall_app in Hd as [Hi Hf]. rewrite erase_trailing_app by discriminate. destruct (erase_zeros fs0 Hf) as (fs & n & -> & ->).
  apply Forall_app in Hf as [Hf _]. exists ip, fs, n. split; [|split_and!; auto; [rewrite length_app, length_replicate in Hl; lia|now apply Forall_app]].
  destruct fs as [|d fs _] using rev_ind; [cbn [fmap list_fmap]; rewrite erase_last; now apply erase_none, codes_not_point|].
  apply Forall_app in Hf as [_ Hd]. apply Forall_cons in Hd as [Hd _]. rewrite fmap_app. cbn [fmap list_fmap]. rewrite app_comm_cons, app_assoc, erase_trailing_app by (unfold code; lia).
  cbn [erase_trailing]. destruct (fs ++ [d]) eqn:E0; [now apply app_eq_nil in E0|reflexivity].
Qed.

(** C25: What is printed is parsed back.  With a decimal point at any position above zero, the text that [print_money] writes for an amount
    of 64 bits, shortened by its trailing zeros and perhaps its point, is read by [parse_amount] as this
    amount; so is the full text of [print_money_64]. *)
Theorem money_text_roundtrip `{TrimLaws} `{LexicalCastLaws} (default_decimal_point : nat) (amount : Z) :
  (0 < default_decimal_point)%nat -> fits 64 amount ->
  parse_amount default_decimal_point (print_money default_decimal_point amount None) = Some amount /\
  parse_amount default_decimal_point (print_money_64 default_decimal_point amount None) = Some amount.
Proof.
  intros Hp Hx. split.
  - destruct (printed_form _ _ Hp Hx) as (ip & fs & n & -> & Hne & Hl & Hd & Hv). replace n with (default_decimal_point - length fs)%nat in Hv by lia. unfold fits in Hx. destruct fs as [|d fs].
    + cbn [app length] in *. rewrite app_nil_r in Hd. rewrite Nat.sub_0_r in Hv. rewrite parse_integral by (auto; lia). now rewrite Hv.
    + rewrite parse_fraction by (auto; lia). now rewrite Hv.
  - destruct (padded_digits default_decimal_point amount Hx) as (ip & fs & E & Hne & Hl & Hd & Hv). unfold print_money_64. rewrite E, (proj2 (Nat.ltb_lt 0 _)) by assumption.
    assert (Ev : ip ++ fs ++ replicate (default_decimal_point - length fs) 0 = ip ++ fs) by (rewrite Hl, Nat.sub_diag; cbn; now rewrite app_nil_r).
    unfold fits in Hx. rewrite parse_fraction by (auto; rewrite ?Ev; lia). now rewrite Ev, Hv.
Qed.

Section Examples.

(** White space at both ends; digits with leading zeros. *)
Definition space (c : Z) : bool := (c <=? 32) && negb (c =? 0).
Fixpoint drop_space (s : blob) : blob := match s with c :: s' => if space c then drop_space s' else s | [] => [] end.
#[local] Instance model_trim : Trim := fun s => reverse (drop_space (reverse (drop_space s))).
#[local] Instance model_trim_laws : TrimLaws.
Proof.
  assert (Hd : forall s, Forall (fun c => 32 < c < 127) s -> drop_space s = s).
  { intros [|c s] Hs; [reflexivity|]. apply Forall_cons in Hs as [Hc _]. cbn. unfold space. rewrite (proj2 (Z.leb_gt _ _)) by lia. reflexivity. }
  intros s Hs. unfold trim_text, model_trim. rewrite (Hd s Hs), Hd by now apply Forall_reverse. apply reverse_involutive.
Qed.
#[local] Instance model_cast : LexicalCast := fun s =>
  let v := be_val 10 ((fun c => c - 48) <$> s) in if bool_decide (s = []) || negb (forallb isdigit s) then None else if v <? 2 ^ 64 then Some v else None.
#[local] Instance model_cast_laws : LexicalCastLaws.
Proof.
  intros ds Hne Hd. unfold lexical_cast, model_cast. rewrite bool_decide_false by (destruct ds; [congruence|discriminate]). rewrite codes_digits by assumption. cbn [orb negb].
  rewrite <- list_fmap_compose. replace ((fun c => c - 48) ∘ code <$> ds) with ds; [reflexivity|]. clear Hne. induction Hd as [|d ds _ _ IH]; [reflexivity|]. rewrite fmap_cons, <- IH. f_equal. unfold code. cbn. lia.
Qed.

(** 12.5 with eleven digits after the point *)
Example half_printed : print_money 11 1250000000000 None = [49; 50; 46; 53].
Proof. reflexivity. Qed.

Lemma money_text_roundtrip_witness : parse_amount 11 [49; 50; 46; 53] = Some 1250000000000.
Proof. refine (proj1 (money_text_roundtrip 11 1250000000000 _ _)); [lia|unfold fits; lia]. Defined.

(** With the unit that has no digits after the point, the zeros at the end of the amount itself are erased. *)
Theorem smallest_unit_loses_zeros :
  set_default_decimal_point 0 = Returns O /\ print_money 0 1000 None = to_string 1 /\ parse_amount 0 (print_money 0 1000 None) = Some 1 /\ print_money 0 0 None = [].
Proof. split_and!; reflexivity. Qed.

End Examples.

End MoneyText.
